(* ===== verification/_CoqProject ===== *)
-Q . S2P
Prelude.v
Json.v
JsonText.v
Text.v
Crypto.v
OlmAdmission.v
OlmControl.v
OlmPayload.v
OlmReset.v
Db.v
DbAtomic.v
Outbox.v
OutboxSafety.v
RatchetStore.v
RatchetCommit.v
RatchetSafety.v
RatchetHistory.v
RatchetFence.v
RatchetRetired.v
RatchetDemo.v
RatchetConsumer.v
RatchetAccount.v
RatchetSend.v
ConsumerLogic.v
RatchetReceive.v
RatchetOperations.v
RatchetSendSafety.v
RatchetReceiveDemo.v
RatchetSendDemo.v
DeviceTrust.v
DeviceLink.v
Backup.v
SafetyQr.v
DirectTrust.v
HistoryCopy.v
SignedStatements.v
Frame.v
Files.v
UploadQueue.v
Connection.v
MediaReplay.v
MediaEnvelope.v
MediaWorker.v
MediaWorkerSafety.v
MediaControl.v
MediaDelivery.v
MediaKeys.v
MediaKeysSafety.v
MediaKeysRemoval.v
Calls.v
Groups.v
DirectView.v
HistoryImport.v
