(* ===== verification/Prelude.v ===== *)
(** * A verification library for the noXa mobile client

    noXa is a chat and voice service.  Its browser client lives under
    [src/mobile/src/core/]: a control connection to the server, an encrypted
    database shared by every tab, end-to-end encrypted messages over Olm
    sessions, and end-to-end encrypted voice and video.  This library models the
    part of it on which confidentiality, integrity and the durability of messages
    rest, and proves what that code promises.

    ** Parts, and how they interact

    - _Control channel_.  Frames of a type and a JSON payload travel over a
      WebSocket; requests are matched with replies.
      [Frame] (frame.js), [Connection] (connection.js).
    - _Database_.  One IndexedDB database holds an identity fence (a generation
      that every sign-out ends), a wrapping key, sealed JSON values and the
      ratchet store's records.  Tabs interleave transaction by transaction.
      [Db] (db.js, identity-store.js), [DbAtomic].
    - _Outbox_.  Messages written offline, kept sealed until their send is
      accepted; a flush runs among other tabs.
      [Outbox], [OutboxSafety] (outbox.js).
    - _Ratchet store_.  The durable state of the Olm sessions of one device: each
      operation reads a snapshot and ends in one compare-and-swap commit.
      [RatchetStore] (ratchet-store.js, the whole class), [RatchetCommit],
      [RatchetSafety], [RatchetHistory], [RatchetFence], [RatchetRetired],
      [RatchetDemo].
    - _Message consumer_.  The operations of a page over the ratchet store: trust
      and pins, receiving and draining ([RatchetConsumer]), readiness, publication,
      recovery and history ([RatchetAccount]), sending ([RatchetSend], all
      ratchet-consumer.js).  [ConsumerLogic] is the logic for such programs;
      [RatchetReceive], [RatchetSendSafety] and [RatchetOperations] prove what
      receiving, sending and every operation promise; [RatchetReceiveDemo] and
      [RatchetSendDemo] run concrete instances.
    - _Admission_.  The manifest that admits one message for a fixed set of
      devices, the frozen parts, the payload with its context, and the controls
      that are judged on their raw text.
      [OlmAdmission], [OlmControl], [OlmPayload] (olm-admission.js).
    - _Keys and resets_.  Directory bundles, signed account resets and the chain
      of resets that alone may move a pin.
      [OlmReset] (olm-keys.js, olm-directory.js, olm-reset.js).
    - _Devices_.  Which devices of an account are trusted, and how a device is
      linked and confirmed: the wire formats ([Crypto], crypto.js), key records and
      the chain of approvals ([DeviceTrust], dm-trust.js and the signing half of
      olm-directory.js), links, sign-in and endorsements ([DeviceLink], device.js,
      link-binding.js, devices.js), the copy of the message history to another
      device ([HistoryCopy], devices.js, history-envelope.js), the backup of a
      device's keys ([Backup], backup.js), the codes with which two users compare
      keys ([SafetyQr], safety-qr.js), and everything that a device's key signs,
      side by side ([SignedStatements]).
    - _Trust in contacts_.  Whose keys direct messages are sealed for: the pins of
      the contacts, this account's own root, new identities the user confirms.
      [DirectTrust] (the directory and trust of direct.js).  What their conversations show is
      [DirectView], and the import of a history that another device copied is
      [HistoryImport] (both direct.js).
    - _Private groups_.  What a group's view shows of the server's history, own drafts
      and the consumer's records, turn by turn ([Groups], groups.js).
    - _Attachments_.  Files sealed chunk by chunk, their tokens in messages, the
      transfer framing ([Files], files.js), and the queue that runs one upload at a
      time ([UploadQueue], upload-queue.js).
    - _Private calls_.  The state of a call and of a second one that rings, and the
      microphone, camera and screen with the browser's prompts.
      [Calls] (calls.js, the camera and [classifyCall] of video.js).
    - _Media keys_.  The engine that gives every sender's media keys to exactly
      the devices that may listen, and renews them when one leaves; its keys
      travel as controls of the admission contract.
      [MediaControl], [MediaKeys], [MediaKeysSafety], [MediaKeysRemoval],
      [MediaDelivery] (media-e2ee/media-keys.js).
    - _Media worker_.  The worker around the frame cipher: key tables, endpoints,
      frame layout checks and the replay window.
      [MediaReplay] (media-replay.js), [MediaEnvelope] (media-frame-envelope.js,
      hardware-probe-frame.js), [MediaWorker], [MediaWorkerSafety]
      (media-e2ee-core.js).
    - _The language_.  [Json] and [JsonText] are [JSON.stringify], [JSON.parse]
      and the grammar of JSON text, [Text] is strings, base 64 and updates of
      JSON values; this file has results, record updates, 32-bit integers and
      insertion-ordered maps.

    ** How code becomes definitions

    Names are the source's where the language allows; helpers that name a line
    or a branch of a method carry a comment.  Objects whose shape is checked by
    the code are JSON values ([json]), so every missing or ill-typed member is an
    input of the model.  A synchronous function is a function, one that throws
    returns [option] or [result].  Asynchronous code appears in three forms:
    - an operation on the database is a [prog]: a tree of single transactions,
      random bytes and clock readings.  [safe] (rely-guarantee), [exec] (one call
      among arbitrary transactions of others), [only] (what transactions can do
      at all) and [wstep] (a pool of programs) give it meaning;
    - the key engine and the connection are state machines, one function per
      turn of the event loop, with the pending continuations as values;
    - the worker's queue runs programs of segments between which frames pass.

    Numbers of the code are integers ([Z]); 32-bit arithmetic wraps where the
    source uses it ([to_int32]), lengths of big-endian fields are taken modulo
    their width, and the safe-integer bound is checked where the source checks
    it.  Strings are their UTF-8 bytes; lengths in UTF-16 units are computed
    ([utf16_length]) where the source compares them.

    ** What is proved

    - Codec: [parse] accepts exactly the grammar ([parse_json_text]), frames cut
      anywhere are read back, the reader is bounded.
    - Connection: a request is settled once, a reply settles the oldest match,
      a closed connection stays closed.
    - Database: [updateSealed] refines one atomic read-modify-write.
    - Outbox: a committed attempt is never replaced by a retry; a flush stays in
      its identity generation; its listing stores only expired drafts, and working
      through the entries brings nothing back and removes only what was accepted; and
      two counterexamples for the expiry of drafts, which the listing writes without
      looking at what is stored then.
    - Ratchet store, in every interleaving of any number of tabs: the quotas are
      exact and bounded, records live only forward, attempt numbers are unique, a
      blocked account creates nothing, operations stay in their generation, the
      compact set of retired operations grows by exactly one, and a logical ID
      that was accepted never changes again.
    - Message consumer, among any number of other tabs: every operation keeps the
      store's invariant; a delivery is durable before it is handed on or its
      acknowledgement is asked for ([asked] lists the requests), and a
      stored one is replayed as not new (two concurrent first receipts are both
      handed on as new: a counterexample); a message that was accepted is what
      every later send of its logical ID yields; a message is sealed for exactly
      the remote devices of its roster, under their pinned identities.
    - Admission: freezing and opening an attempt, sealing and opening a payload
      are inverse; an opened attempt or payload is exactly what its manifest
      names; the raw-text control parser and the duplicate check agree with
      JSON parsing on every text.
    - Resets: transcripts bind their members; a verified chain is a chain of
      verified resets; its verdict depends on at most 64 fetched pages.
    - Devices: the trusted devices of a listing are exactly those that a chain of
      signatures from the pinned key vouches for; a key record is read back; an
      endorsement names one device, and a statement of a desktop that signs for one
      device and one certificate is accepted by no other; signed
      texts of different kinds never coincide; a copied history is bounded (but for its
      headers, which the packing does not count: a counterexample) and
      arrives whole, in order; an imported backup is well formed and an exported one
      comes back; scanned codes match exactly if both sides see the same keys.
    - Trust in contacts, in every interleaving and whatever the server answers: a
      pin holds the key it held when the calls began or one whose fingerprint the user
      confirmed since, and the account's own devices are trusted from local evidence
      only; an unreadable pin counts as none, and a lookup that overlaps a
      confirmation may put the old pin back (counterexamples).
    - Conversations: whatever copies, receipts and transferred records arrive, a
      contact's message that is shown as authenticated, edited or deleted is what the
      consumer projected, and stays while the conversation has room (at 5000 messages
      the oldest go, also for unverified copies: a counterexample); receipts only move
      forward.  An import takes the chunks of a transfer in order, once, signed by an own
      device; imports that follow one another take them once altogether, as long as
      at most 1024 transfers came; and a history copied with
      [HistoryCopy] is imported whole; a page that is imported twice may show old
      records without an ID twice (a counterexample).
    - Private groups: whatever pages the server sends, what is shown as the consumer's
      was projected, and only an accepted change touches it; a draft or record that is
      not accepted yet has no such protection (a counterexample).
    - Attachments: what was uploaded arrives, however the bytes are cut, unless a text
      before its token begins like one (a counterexample), and a file
      server cannot replace it unless it finds other bytes with the same 128 bits of
      SHA-256; an upload sends the whole file or is aborted; a
      queued upload gets its turn after those in front of it and those that are
      retried, one runs at a time, for the account that queued
      it, and none survives a sign-out.
    - Private calls: the devices of a call are released with it, whatever prompts are
      answered later, but for a camera that is being turned; a muted microphone is silent; another call never interrupts one
      in progress; and what goes wrong when a hang-up is refused or the camera is
      being turned.
    - Media keys: only recipients can derive an epoch's keys, epochs never
      repeat, after a removal's deadline only newer epochs are used, older
      controls are refused, recipients are exact, a key body that is built is
      delivered and parsed.
    - Media worker: a frame is delivered at most once, an encoder emits only
      encrypted frames, an unchanged frame is dropped, header and window bounds;
      and what a retirement after [forget] does to the mark.

    ** Bounds and fuel

    [parse] and the raw-text scanners recurse on the length of the text, which
    every step shortens; the theorems about them have no fuel hypothesis.  The
    bounded loops of the source keep their bounds: 8 rounds of [updateSealed],
    17 rounds of a validated ratchet operation, 64 reset pages, 501 pages of
    pending records, 3 sends of an outbox entry, 4 rounds of a local
    compare-and-swap and 8 of a rate-limited request.  The rounds of the
    device chain end because each one adds a device ([trust_rounds_closed]).  [among] and [alone] (DbAtomic)
    evaluate a program with a step bound; they are used for examples only.

    ** Outside the model

    AES-GCM, SHA-256, HMAC, the curves and the Olm ratchet are interfaces or
    parameters ([Cipher], [curves], arguments of the operations); laws that are
    relied on are stated where they are used.  The LiveKit frame cipher is the
    environment of the worker.  Not modelled: the user interface, the consumers
    of these components (the typing, saving and old sending of direct.js, the sending of groups.js
    without the consumer, chat-session.js, voice.js, media-session.js, media-e2ee.js),
    the connections and signals of calls, the browser's WebAuthn objects, statistics and logging, the
    desktop client, the server, and generated or vendored code. *)

From stdpp Require Import base gmap list strings sorting.
From Stdlib Require Import ZArith Lia.

#[global] Open Scope Z_scope.

(** ** Results of fallible JavaScript code

    [throw new Error(e)] is [Err e]; a normal return is [Ok a]. *)

Inductive result (E A : Type) : Type :=
| Ok (a : A)
| Err (e : E).
Arguments Ok {E A} _.
Arguments Err {E A} _.

#[global] Instance result_eq_dec `{EqDecision E, EqDecision A} : EqDecision (result E A).
Proof. solve_decision. Defined.

Definition rbind {E A B} (m : result E A) (f : A -> result E B) : result E B :=
  match m with Ok a => f a | Err e => Err e end.

Definition is_ok {E A} (m : result E A) : bool :=
  match m with Ok _ => true | Err _ => false end.

Declare Scope js_scope.
Delimit Scope js_scope with js.
#[global] Open Scope js_scope.

Notation "'let!' x ':=' m 'in' k" := (rbind m (fun x => k))
  (at level 10, x pattern, k at level 200) : js_scope.
Notation "'guard!' b 'else' e 'in' k" := (if b then k else Err e)
  (at level 10, k at level 200) : js_scope.

Lemma rbind_Ok {E A B} (m : result E A) (f : A -> result E B) b :
  rbind m f = Ok b <-> exists a, m = Ok a /\ f a = Ok b.
Proof. destruct m; simpl; split; intros; destruct_or?; destruct_and?; naive_solver. Qed.

Lemma rbind_Err {E A B} (m : result E A) (f : A -> result E B) e :
  rbind m f = Err e <-> m = Err e \/ exists a, m = Ok a /\ f a = Err e.
Proof. destruct m; simpl; split; intros; destruct_or?; destruct_and?; naive_solver. Qed.

(** ** Record updates

    [r <| f := v |>] is the record [r] with field [f] replaced, for a record
    type with an [Eta] instance that rebuilds it from its fields. *)

Class Eta (R : Type) := eta : R -> R.
Definition SetField {R E : Type} (getter : R -> E) : Type := E -> R -> R.
Existing Class SetField.
Definition set_field {R E : Type} (g : R -> E) {s : SetField g} (v : E) (r : R) : R := s v r.
Arguments set_field {R E} g {s} v r /.

Ltac solve_set_field R E getter :=
  let e := constr:(_ : Eta R) in
  exact (fun (v : E) (r : R) => ltac:(
    let b := eval hnf in (e r) in
    match b with context C [getter r] => let b' := context C [v] in exact b' end)).
#[export] Hint Extern 1 (@SetField ?R ?E ?getter) => solve_set_field R E getter : typeclass_instances.

Notation "r <| g := v |>" := (set_field g v r)
  (at level 8, left associativity, g at level 9, v at level 200, format "r <| g  :=  v |>") : js_scope.

(** ** Integers of the JavaScript runtime *)

Definition two32 : Z := 4294967296.

(** [x | 0]: the signed 32-bit value of an integer. *)
Definition to_int32 (x : Z) : Z := (x + 2147483648) `mod` two32 - 2147483648.

(** [Number.MAX_SAFE_INTEGER]. *)
Definition max_safe : Z := 9007199254740991.

Definition is_safe_integer (z : Z) : bool := (- max_safe <=? z) && (z <=? max_safe).

Lemma to_int32_range x : -2147483648 <= to_int32 x < 2147483648.
Proof. unfold to_int32, two32. pose proof (Z.mod_pos_bound (x + 2147483648) 4294967296). lia. Qed.

Lemma to_int32_id x : -2147483648 <= x < 2147483648 -> to_int32 x = x.
Proof. intros H. unfold to_int32, two32. rewrite Z.mod_small; lia. Qed.

Lemma to_int32_cong x : exists k, to_int32 x = x + k * two32.
Proof.
  exists (- ((x + 2147483648) / two32)). unfold to_int32.
  pose proof (Z.div_mod (x + 2147483648) two32 ltac:(discriminate)). lia.
Qed.

(** Concatenations associated to the right. *)
Ltac flat_apps := repeat (progress (cbn [app]; rewrite <- ?app_assoc)).
Tactic Notation "flat_apps" "in" hyp(H) := repeat (progress (cbn [app] in H; rewrite <- ?app_assoc in H)).

(** Case analysis on every integer test of the goal, closing the impossible
    branches by arithmetic. *)
Ltac zcases :=
  repeat match goal with
         | |- context [?x =? ?y] => destruct (Z.eqb_spec x y); try (exfalso; lia)
         | |- context [?x <? ?y] => destruct (Z.ltb_spec x y); try (exfalso; lia)
         | |- context [?x <=? ?y] => destruct (Z.leb_spec x y); try (exfalso; lia)
         end; simpl.

(** ** Bytes *)

Abbreviation byte := Z (only parsing).

Definition is_byte (b : Z) : bool := (0 <=? b) && (b <? 256).
Definition all_bytes (l : list Z) : bool := forallb is_byte l.

Lemma is_byte_spec b : is_byte b = true <-> 0 <= b < 256.
Proof. unfold is_byte. rewrite andb_true_iff. lia. Qed.

Lemma all_bytes_app l1 l2 : all_bytes (l1 ++ l2) = all_bytes l1 && all_bytes l2.
Proof. apply forallb_app. Qed.

(** [DataView.getUint32] and [setUint32] in their default, big-endian form. *)
Definition be32 (a b c d : Z) : Z := ((a * 256 + b) * 256 + c) * 256 + d.
Definition be16 (a b : Z) : Z := a * 256 + b.

Definition put_be32 (n : Z) : list Z :=
  [(n / 16777216) `mod` 256; (n / 65536) `mod` 256; (n / 256) `mod` 256; n `mod` 256].
Definition put_be16 (n : Z) : list Z := [(n / 256) `mod` 256; n `mod` 256].

(** ** Insertion-ordered maps

    A JavaScript [Map]: iteration follows insertion order, [set] on a present
    key keeps its place, [delete] followed by [set] moves the key to the end. *)
Module OMap.
Section omap.
Context {K V : Type} `{EqDecision K}.
Implicit Types (m : list (K * V)) (k : K) (v : V).

Fixpoint get k m : option V :=
  match m with
  | [] => None
  | (k', v') :: m' => if decide (k = k') then Some v' else get k m'
  end.

Definition has k m : bool := match get k m with Some _ => true | None => false end.

Fixpoint set k v m : list (K * V) :=
  match m with
  | [] => [(k, v)]
  | (k', v') :: m' => if decide (k = k') then (k, v) :: m' else (k', v') :: set k v m'
  end.

Fixpoint del k m : list (K * V) :=
  match m with
  | [] => []
  | (k', v') :: m' => if decide (k = k') then del k m' else (k', v') :: del k m'
  end.

Definition keys m : list K := m.*1.
Definition values m : list V := m.*2.
Definition size m : Z := Z.of_nat (length m).

Definition wf m : Prop := NoDup (keys m).

Lemma get_set k k' v m : get k' (set k v m) = if decide (k' = k) then Some v else get k' m.
Proof.
  induction m as [|[k0 v0] m IH]; simpl; [done|].
  destruct (decide (k = k0)) as [->|]; simpl; repeat case_decide; congruence.
Qed.

Lemma get_set_eq k v m : get k (set k v m) = Some v.
Proof. rewrite get_set. by case_decide. Qed.

Lemma get_set_ne k k' v m : k' <> k -> get k' (set k v m) = get k' m.
Proof. intros. rewrite get_set. by case_decide. Qed.

Lemma get_del k k' m : get k' (del k m) = if decide (k' = k) then None else get k' m.
Proof.
  induction m as [|[k0 v0] m IH]; simpl; [by case_decide|].
  destruct (decide (k = k0)) as [->|]; simpl; rewrite ?IH; repeat case_decide; congruence.
Qed.

Lemma get_del_eq k m : get k (del k m) = None.
Proof. rewrite get_del. by case_decide. Qed.

Lemma get_del_ne k k' m : k' <> k -> get k' (del k m) = get k' m.
Proof. intros. rewrite get_del. by case_decide. Qed.

Lemma get_elem k v m : get k m = Some v -> (k, v) ∈ m.
Proof.
  induction m as [|[k0 v0] m IH]; simpl; [done|].
  case_decide; [intros; simplify_eq; left|right; auto].
Qed.

Lemma elem_set k v m k' v' : (k', v') ∈ set k v m -> (k' = k /\ v' = v) \/ (k', v') ∈ m.
Proof.
  induction m as [|[k0 v0] m IH]; simpl.
  - rewrite list_elem_of_singleton. intros [= -> ->]. by left.
  - case_decide; rewrite !elem_of_cons; intros [[= -> ->]|H']; subst; naive_solver.
Qed.

Lemma elem_set_ne k v m k' v' : k' <> k -> (k', v') ∈ m -> (k', v') ∈ set k v m.
Proof.
  intros Hne. induction m as [|[k0 v0] m IH]; cbn [set]; [by intros ?%elem_of_nil|].
  intros [[= -> ->]|Hin]%elem_of_cons; case_decide; subst; try done; apply elem_of_cons; auto.
Qed.

Lemma elem_get k v m : wf m -> (k, v) ∈ m -> get k m = Some v.
Proof.
  unfold wf, keys. induction m as [|[k0 v0] m IH]; simpl; [by rewrite elem_of_nil|].
  rewrite NoDup_cons, elem_of_cons. intros [Hni Hnd] [|Hin]; simplify_eq; case_decide; simplify_eq; auto.
  exfalso. apply Hni. apply list_elem_of_fmap. by exists (k0, v).
Qed.

Lemma get_None_keys k m : get k m = None <-> k ∉ keys m.
Proof.
  unfold keys. induction m as [|[k0 v0] m IH]; simpl; [set_solver|].
  rewrite elem_of_cons. case_decide; naive_solver.
Qed.

Lemma keys_set_new k v m : get k m = None -> set k v m = m ++ [(k, v)].
Proof.
  induction m as [|[k0 v0] m IH]; simpl; [done|].
  case_decide; [done|]. intros. f_equal. auto.
Qed.

Lemma keys_set_old k v m : is_Some (get k m) -> keys (set k v m) = keys m.
Proof.
  unfold keys. induction m as [|[k0 v0] m IH]; simpl; [by intros []|].
  case_decide as Hd; intros; simpl; [by subst|]. f_equal. auto.
Qed.

Lemma wf_nil : wf [].
Proof. constructor. Qed.

Lemma wf_set k v m : wf m -> wf (set k v m).
Proof.
  intros Hwf. unfold wf. destruct (get k m) eqn:E.
  - rewrite keys_set_old by eauto. done.
  - rewrite keys_set_new by done. unfold keys. rewrite fmap_app. simpl.
    apply NoDup_app. split_and!; [done| |apply NoDup_singleton].
    intros k' Hk' ->%list_elem_of_singleton. by apply get_None_keys in E.
Qed.

Lemma keys_del_sub k m : forall k', k' ∈ keys (del k m) -> k' ∈ keys m.
Proof.
  unfold keys. induction m as [|[k0 v0] m IH]; simpl; [done|].
  intros k'. case_decide; simpl; rewrite ?elem_of_cons; naive_solver.
Qed.

Lemma wf_del k m : wf m -> wf (del k m).
Proof.
  unfold wf. induction m as [|[k0 v0] m IH]; simpl; [done|].
  rewrite NoDup_cons. intros [Hni Hnd]. case_decide; auto. simpl.
  apply NoDup_cons. split; auto. intros Hin. by apply Hni, (keys_del_sub k).
Qed.

Lemma size_nonneg m : 0 <= size m.
Proof. unfold size. lia. Qed.

Lemma size_set k v m :
  size (set k v m) = if has k m then size m else size m + 1.
Proof.
  unfold size, has. destruct (get k m) as [w|] eqn:E.
  - induction m as [|[k0 v0] m IH]; simpl in *; [done|].
    case_decide; simpl; [done|]. specialize (IH E). lia.
  - rewrite keys_set_new by done. rewrite length_app. simpl. lia.
Qed.

Lemma size_del_le k m : size (del k m) <= size m.
Proof.
  unfold size. induction m as [|[k0 v0] m IH]; simpl; [lia|]. case_decide; simpl; lia.
Qed.

Lemma del_not_in k m : get k m = None -> del k m = m.
Proof.
  induction m as [|[k0 v0] m IH]; simpl; [done|]. case_decide; [done|]. intros. f_equal. auto.
Qed.

Lemma size_del k m : wf m -> is_Some (get k m) -> size (del k m) = size m - 1.
Proof.
  unfold wf, size, keys. induction m as [|[k0 v0] m IH]; simpl; [by intros ? []|].
  rewrite NoDup_cons. intros [Hni Hnd]. case_decide; simpl; intros.
  - subst. rewrite del_not_in; [lia|]. by apply get_None_keys.
  - rewrite Nat2Z.inj_succ, IH by done. lia.
Qed.
End omap.
End OMap.

Lemma forallb_imp {A} (f g : A -> bool) l : (forall x, f x = true -> g x = true) -> forallb f l = true -> forallb g l = true.
Proof. intros H. induction l as [|x l IH]; [done|]. cbn [forallb]. rewrite !andb_true_iff. naive_solver. Qed.

(** ** Automation

    [omap]: well-formedness of insertion-ordered maps; lookups are rewritten. *)
Create HintDb omap discriminated.
#[export] Hint Resolve OMap.wf_nil OMap.wf_set OMap.wf_del OMap.size_nonneg : omap.
#[export] Hint Rewrite @OMap.get_set_eq @OMap.get_del_eq : omap.
#[export] Hint Rewrite @OMap.get_set_ne @OMap.get_del_ne using (solve [done | by apply not_eq_sym]) : omap.
