(* ===== verification/Json.v ===== *)
(** * JSON text: [JSON.stringify] and [JSON.parse]

    The control protocol, the sealed stores and the ratchet store all carry
    JSON text.  This file models the language's own codec: JSON values, the
    text [TextEncoder.encode(JSON.stringify(v))] of a value as bytes, and
    [JSON.parse(TextDecoder.decode(bytes))].

    A JavaScript string is modelled by its UTF-8 bytes (a Rocq [string]), so
    the text encoder and decoder are the identity on contents.  Numbers are
    integers: fraction and exponent syntax is rejected by [parse].  Object
    members keep their order. *)

From stdpp Require Import base list strings.
From Stdlib Require Import ZArith Lia Ascii.
From S2P Require Import Prelude.

Inductive json : Type :=
| JNull
| JBool (b : bool)
| JNum (n : Z)
| JStr (s : string)
| JArr (l : list json)
| JObj (l : list (string * json)).

(** [v.k] for a parsed value: [None] is [undefined].  Of members with the same
    name the last one counts, as in [JSON.parse]. *)
Fixpoint assoc_last (k : string) (l : list (string * json)) : option json :=
  match l with
  | [] => None
  | (k', v) :: l' => match assoc_last k l' with
                     | Some w => Some w
                     | None => if decide (k = k') then Some v else None
                     end
  end.

Definition field (k : string) (v : json) : option json :=
  match v with JObj l => assoc_last k l | _ => None end.

(** Truthiness ([!!v]). *)
Definition truthy (v : option json) : bool :=
  match v with
  | None | Some JNull => false
  | Some (JBool b) => b
  | Some (JNum n) => negb (n =? 0)
  | Some (JStr s) => negb (bool_decide (s = EmptyString))
  | Some (JArr _) | Some (JObj _) => true
  end.

(** The induction principle with hypotheses for nested members. *)
Section json_ind.
Variable P : json -> Prop.
Hypothesis Hnull : P JNull.
Hypothesis Hbool : forall b, P (JBool b).
Hypothesis Hnum : forall n, P (JNum n).
Hypothesis Hstr : forall s, P (JStr s).
Hypothesis Harr : forall l, Forall P l -> P (JArr l).
Hypothesis Hobj : forall l, Forall (fun kv => P kv.2) l -> P (JObj l).

Fixpoint json_rec_nested (v : json) : P v :=
  match v with
  | JNull => Hnull
  | JBool b => Hbool b
  | JNum n => Hnum n
  | JStr s => Hstr s
  | JArr l => Harr l ((fix go l : Forall P l :=
      match l with
      | [] => Forall_nil_2 _
      | x :: l' => Forall_cons_2 _ _ _ (json_rec_nested x) (go l')
      end) l)
  | JObj l => Hobj l ((fix go l : Forall (fun kv => P kv.2) l :=
      match l with
      | [] => Forall_nil_2 _
      | x :: l' => Forall_cons_2 _ _ _ (json_rec_nested x.2) (go l')
      end) l)
  end.
End json_ind.

(** ** Strings as bytes *)

Fixpoint bytes_of (s : string) : list Z :=
  match s with
  | EmptyString => []
  | String a s' => Z.of_N (N_of_ascii a) :: bytes_of s'
  end.

Fixpoint string_of (l : list Z) : string :=
  match l with
  | [] => EmptyString
  | b :: l' => String (ascii_of_N (Z.to_N b)) (string_of l')
  end.

Lemma string_of_bytes_of s : string_of (bytes_of s) = s.
Proof. induction s as [|a s IH]; simpl; [done|]. by rewrite N2Z.id, ascii_N_embedding, IH. Qed.

Lemma bytes_of_inj s t : bytes_of s = bytes_of t -> s = t.
Proof. intros E. by rewrite <- (string_of_bytes_of s), E, string_of_bytes_of. Qed.

Lemma bytes_of_string_of l : all_bytes l = true -> bytes_of (string_of l) = l.
Proof.
  induction l as [|b l IH]; [done|]. cbn [all_bytes forallb]. intros [Hb Hl]%andb_true_iff.
  apply is_byte_spec in Hb. simpl. rewrite N_ascii_embedding by lia. rewrite Z2N.id by lia. f_equal. auto.
Qed.

Lemma bytes_of_range s : all_bytes (bytes_of s) = true.
Proof.
  induction s as [|a s IH]; simpl; [done|]. rewrite IH, andb_true_r.
  apply is_byte_spec. pose proof (N_ascii_bounded a). lia.
Qed.

(** ** Printing *)

(** Decimal digits, most significant first, in front of [acc]. *)
Fixpoint digits (fuel : nat) (n : Z) (acc : list Z) : list Z :=
  match fuel with
  | O => acc
  | S f => let acc' := (48 + n `mod` 10) :: acc in
           if n <? 10 then acc' else digits f (n / 10) acc'
  end.

Definition print_nat (n : Z) : list Z := digits (S (Z.to_nat (Z.log2 n))) n [].

Definition print_num (n : Z) : list Z :=
  if n <? 0 then 45 :: print_nat (- n) else print_nat n.

Definition hex_digit (n : Z) : Z := if n <? 10 then 48 + n else 87 + n.

(** [JSON.stringify] of one character: the short escapes, [\u00XX] for the
    other controls, everything else verbatim. *)
Definition escape (c : Z) : list Z :=
  if c =? 34 then [92; 34]
  else if c =? 92 then [92; 92]
  else if c =? 8 then [92; 98]
  else if c =? 12 then [92; 102]
  else if c =? 10 then [92; 110]
  else if c =? 13 then [92; 114]
  else if c =? 9 then [92; 116]
  else if c <? 32 then [92; 117; 48; 48; hex_digit (c / 16); hex_digit (c `mod` 16)]
  else [c].

(** A string with its contents printed by [pc], and [JSON.stringify]'s own. *)
Definition print_str_with (pc : list Z -> list Z) (s : string) : list Z := 34 :: pc (bytes_of s) ++ [34].
Definition escaped (l : list Z) : list Z := l ≫= escape.
Definition print_str (s : string) : list Z := print_str_with escaped s.

Fixpoint join (sep : Z) (ls : list (list Z)) : list Z :=
  match ls with
  | [] => []
  | [l] => l
  | l :: ls' => l ++ sep :: join sep ls'
  end.

(** The text of a value, with string contents printed by [pc]. *)
Fixpoint print_json (pc : list Z -> list Z) (v : json) : list Z :=
  match v with
  | JNull => [110; 117; 108; 108]
  | JBool true => [116; 114; 117; 101]
  | JBool false => [102; 97; 108; 115; 101]
  | JNum n => print_num n
  | JStr s => print_str_with pc s
  | JArr l => 91 :: join 44 (map (print_json pc) l) ++ [93]
  | JObj l => 123 :: join 44 (map (fun kv => print_str_with pc kv.1 ++ 58 :: print_json pc kv.2) l) ++ [125]
  end.

Definition stringify (v : json) : list Z := print_json escaped v.

(** ** Parsing *)

Definition is_digit (c : Z) : bool := (48 <=? c) && (c <=? 57).
Definition is_ws (c : Z) : bool := (c =? 32) || (c =? 9) || (c =? 10) || (c =? 13).

Fixpoint skip_ws (l : list Z) : list Z :=
  match l with
  | c :: r => if is_ws c then skip_ws r else l
  | [] => []
  end.

Fixpoint parse_digits (l : list Z) (acc : Z) : Z * list Z :=
  match l with
  | c :: r => if is_digit c then parse_digits r (acc * 10 + (c - 48)) else (acc, l)
  | [] => (acc, [])
  end.

Definition parse_nat (l : list Z) : option (Z * list Z) :=
  match l with
  | c :: r => if is_digit c then
      (* a leading zero ends the number *)
      if c =? 48 then match r with
        | d :: _ => if is_digit d then None else Some (0, r)
        | [] => Some (0, [])
        end
      else Some (parse_digits l 0)
    else None
  | [] => None
  end.

Definition parse_num (l : list Z) : option (Z * list Z) :=
  let r := match l with
    | c :: r => if c =? 45
                then match parse_nat r with Some (n, r') => Some (- n, r') | None => None end
                else parse_nat l
    | [] => None
    end in
  match r with
  | Some (n, c :: r') => if (c =? 46) || (c =? 101) || (c =? 69) then None else Some (n, c :: r')
  | _ => r
  end.

Definition unhex (c : Z) : option Z :=
  if is_digit c then Some (c - 48)
  else if (97 <=? c) && (c <=? 102) then Some (c - 87)
  else if (65 <=? c) && (c <=? 70) then Some (c - 55)
  else None.

Definition unhex4 (a b c d : Z) : option Z :=
  match unhex a, unhex b, unhex c, unhex d with
  | Some a, Some b, Some c, Some d => Some (((a * 16 + b) * 16 + c) * 16 + d)
  | _, _, _, _ => None
  end.

(** UTF-8 bytes of a code point. *)
Definition utf8 (cp : Z) : list Z :=
  if cp <? 128 then [cp]
  else if cp <? 2048 then [192 + cp / 64; 128 + cp `mod` 64]
  else if cp <? 65536 then [224 + cp / 4096; 128 + (cp / 64) `mod` 64; 128 + cp `mod` 64]
  else [240 + cp / 262144; 128 + (cp / 4096) `mod` 64; 128 + (cp / 64) `mod` 64; 128 + cp `mod` 64].

Definition simple_escape (c : Z) : option Z :=
  if c =? 34 then Some 34 else if c =? 92 then Some 92 else if c =? 47 then Some 47
  else if c =? 98 then Some 8 else if c =? 102 then Some 12 else if c =? 110 then Some 10
  else if c =? 114 then Some 13 else if c =? 116 then Some 9 else None.

(** The characters up to the closing quote.  An unpaired surrogate escape has
    no UTF-8 form and is rejected. *)
Fixpoint parse_str (l : list Z) : option (list Z * list Z) :=
  match l with
  | [] => None
  | c :: r =>
    if c =? 34 then Some ([], r)
    else if c =? 92 then
      match r with
      | e :: r1 =>
        if e =? 117 then
          match r1 with
          | h1 :: h2 :: h3 :: h4 :: r2 =>
            match unhex4 h1 h2 h3 h4 with
            | Some cp =>
              if (55296 <=? cp) && (cp <? 56320) then
                match r2 with
                | b :: u :: g1 :: g2 :: g3 :: g4 :: r3 =>
                  match unhex4 g1 g2 g3 g4 with
                  | Some lo =>
                    if (b =? 92) && (u =? 117) && (56320 <=? lo) && (lo <? 57344) then
                      match parse_str r3 with
                      | Some (s, r') => Some (utf8 (65536 + (cp - 55296) * 1024 + (lo - 56320)) ++ s, r')
                      | None => None
                      end
                    else None
                  | None => None
                  end
                | _ => None
                end
              else if (56320 <=? cp) && (cp <? 57344) then None
              else match parse_str r2 with
                   | Some (s, r') => Some (utf8 cp ++ s, r')
                   | None => None
                   end
            | None => None
            end
          | _ => None
          end
        else match simple_escape e, parse_str r1 with
             | Some c', Some (s, r') => Some (c' :: s, r')
             | _, _ => None
             end
      | [] => None
      end
    else if c <? 32 then None
    else match parse_str r with
         | Some (s, r') => Some (c :: s, r')
         | None => None
         end
  end.

Definition expect (c : Z) (l : list Z) : option (list Z) :=
  match skip_ws l with
  | c' :: r => if c' =? c then Some r else None
  | [] => None
  end.

Fixpoint strip (p l : list Z) : option (list Z) :=
  match p, l with
  | [], _ => Some l
  | a :: p', b :: l' => if a =? b then strip p' l' else None
  | _, _ => None
  end.

(** Separated items up to the closing character [close]; [item] parses one. *)
Fixpoint parse_items {A} (item : list Z -> option (A * list Z)) (close : Z) (fuel : nat)
    (l : list Z) : option (list A * list Z) :=
  match fuel with
  | O => None
  | S f =>
    match item l with
    | None => None
    | Some (a, r) =>
      match skip_ws r with
      | c :: r' =>
        if c =? 44 then
          match parse_items item close f r' with
          | Some (xs, r'') => Some (a :: xs, r'')
          | None => None
          end
        else if c =? close then Some ([a], r') else None
      | [] => None
      end
    end
  end.

Definition parse_list {A} (item : list Z -> option (A * list Z)) (close : Z) (fuel : nat)
    (l : list Z) : option (list A * list Z) :=
  match skip_ws l with
  | c :: r => if c =? close then Some ([], r) else parse_items item close fuel l
  | [] => None
  end.

Definition parse_member (value : list Z -> option (json * list Z)) (l : list Z)
    : option ((string * json) * list Z) :=
  match expect 34 l with
  | None => None
  | Some r =>
    match parse_str r with
    | None => None
    | Some (k, r1) =>
      match expect 58 r1 with
      | None => None
      | Some r2 => match value r2 with
                   | Some (v, r3) => Some ((string_of k, v), r3)
                   | None => None
                   end
      end
    end
  end.

Fixpoint parse_value (fuel : nat) (l0 : list Z) : option (json * list Z) :=
  match fuel with
  | O => None
  | S f =>
    let l := skip_ws l0 in
    match l with
    | [] => None
    | c :: r =>
      if c =? 34 then
        match parse_str r with Some (s, r') => Some (JStr (string_of s), r') | None => None end
      else if c =? 91 then
        match parse_list (parse_value f) 93 f r with Some (xs, r') => Some (JArr xs, r') | None => None end
      else if c =? 123 then
        match parse_list (parse_member (parse_value f)) 125 f r with
        | Some (xs, r') => Some (JObj xs, r') | None => None end
      else if c =? 110 then
        match strip [117; 108; 108] r with Some r' => Some (JNull, r') | None => None end
      else if c =? 116 then
        match strip [114; 117; 101] r with Some r' => Some (JBool true, r') | None => None end
      else if c =? 102 then
        match strip [97; 108; 115; 101] r with Some r' => Some (JBool false, r') | None => None end
      else match parse_num l with Some (n, r') => Some (JNum n, r') | None => None end
    end
  end.

(** [JSON.parse]: one value and nothing but white space after it.  Every
    recursive call consumes a character, so the input length is enough fuel. *)
Definition parse (l : list Z) : option json :=
  match parse_value (S (length l)) l with
  | Some (v, r) => match skip_ws r with [] => Some v | _ => None end
  | None => None
  end.

Example parse_example :
  parse (123 :: 32 :: print_str "a" ++ [32; 58; 91; 49; 44; 32; 45; 50; 48; 93; 44] ++
         print_str (string_of [98; 10; 1]) ++ [58; 34] ++ bytes_of "\u00e9\ud83d\ude00" ++ [34; 125; 10]) =
  Some (JObj [("a"%string, JArr [JNum 1; JNum (-20)]);
              (string_of [98; 10; 1], JStr (string_of [195; 169; 240; 159; 152; 128]))]).
Proof. vm_compute. reflexivity. Qed.

(** ** Round trip *)

(** Text that may follow a number: no digit, fraction or exponent. *)
Definition ends (l : list Z) : Prop :=
  match l with
  | [] => True
  | c :: _ => is_digit c = false /\ c <> 46 /\ c <> 101 /\ c <> 69
  end.

Lemma digits_parse f n acc :
  0 <= n < 2 ^ Z.of_nat f ->
  exists k, 0 <= k /\ forall a, parse_digits (digits f n acc) a = parse_digits acc (a * 10 ^ k + n).
Proof.
  revert n acc. induction f as [|f IH]; intros n acc Hn.
  { simpl in *. assert (n = 0) as -> by lia. exists 0. split; [lia|]. intros. f_equal. lia. }
  cbn [digits]. rewrite Nat2Z.inj_succ, Z.pow_succ_r in Hn by lia.
  pose proof (Z.mod_pos_bound n 10 ltac:(lia)) as Hm.
  assert (Hd : is_digit (48 + n `mod` 10) = true).
  { unfold is_digit. apply andb_true_iff. split; apply Z.leb_le; lia. }
  destruct (Z.ltb_spec n 10).
  - exists 1. split; [lia|]. intros. cbn [parse_digits]. rewrite Hd.
    rewrite Z.mod_small by lia. f_equal. lia.
  - destruct (IH (n / 10) ((48 + n `mod` 10) :: acc)) as (k & Hk & HIH).
    { split; [apply Z.div_pos; lia|]. apply Z.div_lt_upper_bound; lia. }
    exists (k + 1). split; [lia|]. intros. rewrite HIH. cbn [parse_digits]. rewrite Hd.
    f_equal. rewrite Z.pow_add_r by lia. pose proof (Z.div_mod n 10). lia.
Qed.

(** The first digit printed is nonzero for a positive number. *)
Lemma digits_head f n acc :
  0 < n < 2 ^ Z.of_nat f -> exists c r, digits f n acc = c :: r /\ is_digit c = true /\ c <> 48.
Proof.
  revert n acc. induction f as [|f IH]; intros n acc Hn; [simpl in Hn; lia|].
  cbn [digits]. rewrite Nat2Z.inj_succ, Z.pow_succ_r in Hn by lia.
  destruct (Z.ltb_spec n 10).
  - rewrite Z.mod_small by lia. eexists _, _. split; [done|].
    unfold is_digit. rewrite andb_true_iff. lia.
  - apply IH. split; [apply Z.div_str_pos; lia|]. apply Z.div_lt_upper_bound; lia.
Qed.

Lemma digits_length f n acc : (length (digits f n acc) <= f + length acc)%nat.
Proof.
  revert n acc. induction f as [|f IH]; intros n acc; [done|]. cbn [digits]. destruct (n <? 10); [simpl; lia|].
  specialize (IH (n / 10) ((48 + n `mod` 10) :: acc)). simpl in *. lia.
Qed.

Lemma print_num_length n : 0 <= n <= max_safe -> Z.of_nat (length (stringify (JNum n))) <= 54.
Proof.
  intros Hn. unfold stringify. cbn [print_json]. unfold print_num. destruct (Z.ltb_spec n 0); [lia|]. unfold print_nat.
  pose proof (digits_length (S (Z.to_nat (Z.log2 n))) n []) as H1. cbn [length] in H1.
  assert (Z.log2 n <= 52); [|lia]. change 52 with (Z.log2 max_safe). apply Z.log2_le_mono. lia.
Qed.

Lemma print_num_digits n : 0 <= n -> forallb is_digit (print_num n) = true.
Proof.
  intros Hn. unfold print_num. destruct (Z.ltb_spec n 0); [lia|]. unfold print_nat. generalize (S (Z.to_nat (Z.log2 n))). intros f.
  assert (Hd : forall m acc, forallb is_digit acc = true -> forallb is_digit (digits f m acc) = true); [|by apply Hd].
  clear. induction f as [|f IH]; intros m acc Ha; [done|]. cbn [digits]. pose proof (Z.mod_pos_bound m 10 ltac:(lia)).
  assert (forallb is_digit ((48 + m `mod` 10) :: acc) = true).
  { cbn [forallb]. rewrite Ha. unfold is_digit. by zcases. }
  destruct (m <? 10); [done|]. by apply IH.
Qed.

Lemma digits_app f n acc l : digits f n acc ++ l = digits f n (acc ++ l).
Proof.
  revert n acc. induction f as [|f IH]; intros n acc; [done|].
  cbn [digits]. destruct (n <? 10); [done|]. by rewrite IH.
Qed.

Lemma parse_digits_ends l a : ends l -> parse_digits l a = (a, l).
Proof. destruct l as [|c r]; simpl; [done|]. by intros [-> _]. Qed.

Lemma log2_fuel n : 0 < n -> 0 < n < 2 ^ Z.of_nat (S (Z.to_nat (Z.log2 n))).
Proof.
  intros. pose proof (Z.log2_nonneg n). rewrite Nat2Z.inj_succ, Z2Nat.id by lia.
  pose proof (Z.log2_spec n ltac:(lia)). lia.
Qed.

Lemma parse_nat_print n l : 0 <= n -> ends l -> parse_nat (print_nat n ++ l) = Some (n, l).
Proof.
  intros Hn Hl. unfold print_nat. destruct (decide (n = 0)) as [->|Hne].
  { simpl. destruct l as [|c r]; [done|]. by destruct Hl as [-> _]. }
  pose proof (log2_fuel n ltac:(lia)) as Hf. rewrite digits_app. simpl app.
  set (f := S (Z.to_nat (Z.log2 n))) in *.
  destruct (digits_head f n l Hf) as (c & r & E & Hd & Hz).
  destruct (digits_parse f n l ltac:(lia)) as (k & Hk & Hp).
  specialize (Hp 0). rewrite E in *. unfold parse_nat. rewrite Hd.
  destruct (Z.eqb_spec c 48); [done|]. rewrite Hp, parse_digits_ends by done. by rewrite Z.mul_0_l.
Qed.

Lemma parse_num_print n l : ends l -> parse_num (print_num n ++ l) = Some (n, l).
Proof.
  intros Hl. unfold print_num, parse_num.
  assert (Htail : forall r : option (Z * list Z), r = Some (n, l) ->
    match r with
    | Some (n, c :: r') => if (c =? 46) || (c =? 101) || (c =? 69) then None else Some (n, c :: r')
    | _ => r end = Some (n, l)).
  { intros r ->. destruct l as [|c l]; [done|]. destruct Hl as (_ & H1 & H2 & H3).
    zcases. done. }
  destruct (Z.ltb_spec n 0); apply Htail.
  - simpl. rewrite parse_nat_print by (done || lia). by rewrite Z.opp_involutive.
  - pose proof (parse_nat_print n l ltac:(lia) Hl) as Hp.
    destruct (print_nat n ++ l) as [|c r]; [done|].
    destruct (Z.eqb_spec c 45) as [->|]; [done|]. exact Hp.
Qed.

#[local] Arguments unhex4 : simpl never.

Lemma unhex_hex_digit n : 0 <= n < 16 -> unhex (hex_digit n) = Some n.
Proof. intros. unfold unhex, hex_digit, is_digit. zcases; f_equal; lia. Qed.

Lemma parse_str_escape c l :
  0 <= c < 256 ->
  parse_str (escape c ++ l) =
  match parse_str l with Some (s, r) => Some (c :: s, r) | None => None end.
Proof.
  intros Hc. unfold escape.
  repeat match goal with
         | |- context [?x =? ?y] => destruct (Z.eqb_spec x y) as [->|?]; [simpl; by destruct (parse_str l) as [[]|]|]
         end.
  destruct (Z.ltb_spec c 32).
  - assert (Hu : unhex4 48 48 (hex_digit (c / 16)) (hex_digit (c `mod` 16)) = Some c).
    { pose proof (Z.div_mod c 16 ltac:(lia)) as Hdm.
      pose proof (Z.mod_pos_bound c 16 ltac:(lia)) as Hm.
      unfold unhex4. rewrite !unhex_hex_digit by lia. simpl. f_equal. lia. }
    generalize dependent (hex_digit (c / 16)). generalize dependent (hex_digit (c `mod` 16)).
    intros h2 h1 Hu. simpl. rewrite Hu. unfold utf8. zcases. by destruct (parse_str l) as [[]|].
  - simpl. destruct (Z.eqb_spec c 34), (Z.eqb_spec c 92), (Z.ltb_spec c 32); try lia. done.
Qed.

Lemma parse_str_print (s l : list Z) :
  all_bytes s = true -> parse_str ((s ≫= escape) ++ 34 :: l) = Some (s, l).
Proof.
  induction s as [|c s IH]; [done|]. unfold all_bytes. cbn [forallb].
  rewrite andb_true_iff, is_byte_spec.
  intros [Hc Hs]. rewrite bind_cons, <- app_assoc, parse_str_escape, IH by done. done.
Qed.

Lemma parse_str_of (s : string) l :
  parse_str ((bytes_of s ≫= escape) ++ 34 :: l) = Some (bytes_of s, l).
Proof. apply parse_str_print, bytes_of_range. Qed.

Lemma ends_sep l : ends (44 :: l) /\ ends (93 :: l) /\ ends (125 :: l).
Proof. simpl. unfold is_digit. simpl. lia. Qed.

(** Every printed value begins with a character that is neither white space
    nor a closing bracket. *)
Definition opens (l : list Z) : Prop :=
  match l with [] => False | c :: _ => is_ws c = false /\ c <> 93 /\ c <> 125 end.

Lemma opens_digit c l : is_digit c = true -> opens (c :: l).
Proof.
  unfold is_digit, opens, is_ws. rewrite andb_true_iff. intros [].
  split; [|lia]. repeat (apply orb_false_iff; split); apply Z.eqb_neq; lia.
Qed.

Lemma print_nat_opens n l : 0 <= n -> opens (print_nat n ++ l).
Proof.
  intros. unfold print_nat. destruct (decide (n = 0)) as [->|]; [by apply opens_digit|].
  destruct (digits_head _ n [] (log2_fuel n ltac:(lia))) as (c & r & -> & Hd & _).
  by apply opens_digit.
Qed.

Lemma print_json_opens pc v l : opens (print_json pc v ++ l).
Proof.
  destruct v as [|[]|n| | |]; try (simpl; split; [reflexivity|lia]).
  simpl. unfold print_num. destruct (Z.ltb_spec n 0); [by split; [|lia]|].
  apply print_nat_opens. lia.
Qed.

Lemma opens_skip l : opens l -> skip_ws l = l.
Proof. destruct l as [|c r]; simpl; [done|]. by intros [-> _]. Qed.

Lemma join_cons2 sep a b ls : join sep (a :: b :: ls) = a ++ sep :: join sep (b :: ls).
Proof. done. Qed.

(** Items printed with commas between them are parsed back, when the parser of
    one item inverts its printer on texts of at most the given length. *)
Lemma parse_items_join {A} (item : list Z -> option (A * list Z)) (pr : A -> list Z)
    (close : Z) (xs : list A) (fuel : nat) (rest : list Z) :
  close = 93 \/ close = 125 ->
  Forall (fun x => forall l, ends l -> item (pr x ++ l) = Some (x, l)) xs ->
  (length xs <= fuel)%nat -> xs <> [] ->
  parse_items item close fuel (join 44 (map pr xs) ++ close :: rest) = Some (xs, rest).
Proof.
  intros Hclose. revert fuel. induction xs as [|x xs IH]; intros fuel Hall Hf Hne; [done|].
  destruct fuel as [|fuel]; [simpl in Hf; lia|].
  apply Forall_cons in Hall as [Hx Hall]. destruct xs as [|y xs].
  - cbn [map join parse_items]. rewrite Hx by (destruct Hclose as [-> | ->]; apply ends_sep).
    by destruct Hclose as [-> | ->].
  - cbn [map]. rewrite join_cons2, <- app_assoc. cbn [parse_items app].
    rewrite Hx by apply ends_sep. cbn [skip_ws is_ws].
    change (is_ws 44) with false. cbn iota. change (44 =? 44) with true. cbn iota.
    change (pr y :: map pr xs) with (map pr (y :: xs)).
    rewrite (IH fuel Hall); [done| |done]. simpl in *. lia.
Qed.

Lemma parse_list_join {A} (item : list Z -> option (A * list Z)) (pr : A -> list Z)
    (close : Z) (xs : list A) (fuel : nat) (rest : list Z) :
  close = 93 \/ close = 125 ->
  Forall (fun x => opens (pr x)) xs ->
  Forall (fun x => forall l, ends l -> item (pr x ++ l) = Some (x, l)) xs ->
  (length xs <= fuel)%nat ->
  parse_list item close fuel (join 44 (map pr xs) ++ close :: rest) = Some (xs, rest).
Proof.
  intros Hclose Hop Hall Hf. unfold parse_list. destruct xs as [|x xs].
  { destruct Hclose as [-> | ->]; done. }
  assert (Hopens : opens (join 44 (map pr (x :: xs)) ++ close :: rest)).
  { apply Forall_cons in Hop as [Hx _]. destruct xs as [|y xs]; cbn [map].
    - simpl. destruct (pr x); [done|exact Hx].
    - rewrite join_cons2, <- app_assoc. destruct (pr x); [done|exact Hx]. }
  rewrite opens_skip by done. rewrite <- (parse_items_join item pr close (x :: xs) fuel rest) by done.
  destruct (join 44 _ ++ _) as [|c r]; [done|]. destruct Hopens as (_ & H1 & H2).
  destruct (Z.eqb_spec c close) as [->|]; [|done]. destruct Hclose; congruence.
Qed.

Lemma length_join_ge sep (ls : list (list Z)) :
  Forall (fun l => l <> []) ls -> (length ls <= length (join sep ls) + 1)%nat /\
  Forall (fun l => (length l <= length (join sep ls))%nat) ls.
Proof.
  induction ls as [|l ls IH]; intros H; [simpl; split; [lia|constructor]|].
  apply Forall_cons in H as [Hl H]. destruct (IH H) as [IH1 IH2].
  destruct ls as [|l' ls]; [simpl; split; [lia|repeat constructor]|].
  rewrite join_cons2. rewrite length_app.
  assert (length l <> 0)%nat by (by destruct l). cbn [length] in *.
  split; [lia|]. constructor; [lia|]. eapply Forall_impl; [exact IH2|]. simpl. intros; lia.
Qed.

Lemma print_json_nonempty pc v : print_json pc v <> [].
Proof. intros E. pose proof (print_json_opens pc v []) as H. by rewrite E in H. Qed.

Lemma stringify_nonempty v : stringify v <> [].
Proof. apply print_json_nonempty. Qed.

Section roundtrip.
Variable pc : list Z -> list Z.
Hypothesis pc_parses : forall s l, parse_str (pc (bytes_of s) ++ 34 :: l) = Some (bytes_of s, l).

Lemma print_member_opens k v : opens (print_str_with pc k ++ 58 :: print_json pc v).
Proof. simpl. split; [reflexivity|lia]. Qed.

Lemma parse_member_print value k v l :
  value (print_json pc v ++ l) = Some (v, l) ->
  parse_member value ((print_str_with pc k ++ 58 :: print_json pc v) ++ l) = Some ((k, v), l).
Proof.
  intros Hv. unfold parse_member, print_str. rewrite <- app_assoc. cbn [app].
  unfold expect at 1. cbn. rewrite <- app_assoc. cbn [app].
  rewrite pc_parses. cbn. by rewrite Hv, string_of_bytes_of.
Qed.

Lemma parse_value_print v fuel l :
  (length (print_json pc v) < fuel)%nat -> ends l ->
  parse_value fuel (print_json pc v ++ l) = Some (v, l).
Proof.
  revert fuel l. induction v as [|b|n|s|xs IH|xs IH] using json_rec_nested;
    intros fuel l Hf Hl; (destruct fuel as [|fuel]; [lia|]).
  - done.
  - by destruct b.
  - cbn [parse_value]. pose proof (print_json_opens pc (JNum n) l) as Ho.
    rewrite opens_skip by done. pose proof (parse_num_print n l Hl) as Hp. cbn [print_json] in *.
    assert (Hc : forall c r, print_num n ++ l = c :: r -> c = 45 \/ is_digit c = true).
    { intros c r E. unfold print_num in E. destruct (Z.ltb_spec n 0); [simpl in E; left; congruence|].
      right. unfold print_nat in E. destruct (decide (n = 0)) as [->|]; [by simplify_eq/=|].
      destruct (digits_head _ n [] (log2_fuel n ltac:(lia))) as (c' & r' & E' & Hd & _).
      rewrite E' in E. by simplify_eq/=. }
    destruct (print_num n ++ l) as [|c r] eqn:E; [done|]. destruct (Hc c r eq_refl) as [->|Hd].
    + simpl in *. by rewrite Hp.
    + unfold is_digit in Hd. apply andb_true_iff in Hd as [H1 H2].
      apply Z.leb_le in H1, H2.
      zcases. by rewrite Hp.
  - cbn [print_json print_str_with app parse_value]. rewrite <- app_assoc. cbn.
    by rewrite pc_parses, string_of_bytes_of.
  - cbn [print_json app parse_value]. rewrite <- app_assoc. cbn.
    destruct (length_join_ge 44 (map (print_json pc) xs)) as [Hn Hlen].
    { apply Forall_map, Forall_true. intros. apply print_json_nonempty. }
    cbn [print_json length] in Hf. rewrite length_app in Hf. cbn [length] in Hf. rewrite length_map in Hn.
    rewrite parse_list_join; [done|by left| | |lia].
    + apply Forall_true. intros v. pose proof (print_json_opens pc v []). by rewrite app_nil_r in *.
    + rewrite Forall_map in Hlen.
      eapply Forall_impl; [exact (proj2 (Forall_and _ _) (conj IH Hlen))|].
      intros v [Hv Hvl] l' Hl'. apply Hv; [simpl in Hvl; lia|done].
  - cbn [print_json app parse_value]. rewrite <- app_assoc. cbn.
    destruct (length_join_ge 44 (map (fun kv => print_str_with pc kv.1 ++ 58 :: print_json pc kv.2) xs)) as [Hn Hlen].
    { apply Forall_map, Forall_true. done. }
    cbn [print_json length] in Hf. rewrite length_app in Hf. cbn [length] in Hf. rewrite length_map in Hn.
    rewrite parse_list_join; [done|by right| | |lia].
    + apply Forall_true. intros [k v]. apply print_member_opens.
    + rewrite Forall_map in Hlen.
      eapply Forall_impl; [exact (proj2 (Forall_and _ _) (conj IH Hlen))|].
      intros [k v] [Hv Hvl] l' Hl'. apply parse_member_print. apply Hv; [|done].
      cbn [fst snd] in Hvl. rewrite length_app in Hvl. cbn [length] in Hvl. unfold snd. lia.
Qed.

Theorem parse_print_json v : parse (print_json pc v) = Some v.
Proof.
  unfold parse. pose proof (parse_value_print v (S (length (print_json pc v))) []) as H.
  rewrite app_nil_r in H. rewrite H by (done || lia). done.
Qed.
End roundtrip.

(** Parsing inverts printing on every JSON value. *)
Theorem parse_stringify v : parse (stringify v) = Some v.
Proof. apply parse_print_json. intros. apply parse_str_of. Qed.

(** Values are compared through their text. *)
Lemma stringify_inj v w : stringify v = stringify w -> v = w.
Proof. intros H. apply (f_equal parse) in H. rewrite !parse_stringify in H. congruence. Qed.

#[global] Instance json_eq_dec : EqDecision json.
Proof.
  intros v w. destruct (decide (stringify v = stringify w)) as [H|H].
  - left. by apply stringify_inj.
  - right. intros ->. by apply H.
Defined.
