(* ===== verification/JsonText.v ===== *)
(** * The grammar of JSON text

    [JSON.parse] as a relation between values and texts: [json_text v l] when
    [l] is a text of [v], with the white space and the escapes the parser
    allows.  [parse_json_text] shows that [parse] accepts exactly these texts,
    so a routine that scans JSON text by hand can be compared with the parser
    by induction on the grammar. *)

From stdpp Require Import base list strings.
From Stdlib Require Import ZArith Lia.
From S2P Require Import Prelude Json.

Definition ws (w : list Z) : Prop := Forall (fun c => is_ws c = true) w.

Definition high_surrogate (cp : Z) : bool := (55296 <=? cp) && (cp <? 56320).
Definition low_surrogate (cp : Z) : bool := (56320 <=? cp) && (cp <? 57344).

(** The text between the quotes of a string, and its characters. *)
Inductive str_text : list Z -> list Z -> Prop :=
| st_nil : str_text [] []
| st_plain c t s : c <> 34 -> c <> 92 -> 32 <= c -> str_text t s -> str_text (c :: t) (c :: s)
| st_escape e c t s : e <> 117 -> simple_escape e = Some c -> str_text t s -> str_text (92 :: e :: t) (c :: s)
| st_unicode h1 h2 h3 h4 cp t s : unhex4 h1 h2 h3 h4 = Some cp -> high_surrogate cp = false -> low_surrogate cp = false ->
    str_text t s -> str_text (92 :: 117 :: h1 :: h2 :: h3 :: h4 :: t) (utf8 cp ++ s)
| st_pair h1 h2 h3 h4 g1 g2 g3 g4 cp lo t s : unhex4 h1 h2 h3 h4 = Some cp -> high_surrogate cp = true ->
    unhex4 g1 g2 g3 g4 = Some lo -> low_surrogate lo = true -> str_text t s ->
    str_text (92 :: 117 :: h1 :: h2 :: h3 :: h4 :: 92 :: 117 :: g1 :: g2 :: g3 :: g4 :: t)
      (utf8 (65536 + (cp - 55296) * 1024 + (lo - 56320)) ++ s).

(** Literals and numbers. *)
Inductive scalar_text : json -> list Z -> Prop :=
| sc_null : scalar_text JNull [110; 117; 108; 108]
| sc_true : scalar_text (JBool true) [116; 114; 117; 101]
| sc_false : scalar_text (JBool false) [102; 97; 108; 115; 101]
| sc_num n t : parse_num t = Some (n, []) -> scalar_text (JNum n) t.

Inductive value_text : json -> list Z -> Prop :=
| vt_scalar v t : scalar_text v t -> value_text v t
| vt_str s t : str_text t s -> value_text (JStr (string_of s)) (34 :: t ++ [34])
| vt_arr_nil w : ws w -> value_text (JArr []) (91 :: w ++ [93])
| vt_arr vs t : items_text vs t -> value_text (JArr vs) (91 :: t ++ [93])
| vt_obj_nil w : ws w -> value_text (JObj []) (123 :: w ++ [125])
| vt_obj ms t : members_text ms t -> value_text (JObj ms) (123 :: t ++ [125])
with items_text : list json -> list Z -> Prop :=
| it_one w v t w' : ws w -> value_text v t -> ws w' -> items_text [v] (w ++ t ++ w')
| it_cons w v t w' vs ts : ws w -> value_text v t -> ws w' -> items_text vs ts ->
    items_text (v :: vs) (w ++ t ++ w' ++ 44 :: ts)
with members_text : list (string * json) -> list Z -> Prop :=
| mt_one w k kt w1 w2 v t w3 : ws w -> str_text kt k -> ws w1 -> ws w2 -> value_text v t -> ws w3 ->
    members_text [(string_of k, v)] (w ++ 34 :: kt ++ 34 :: w1 ++ 58 :: w2 ++ t ++ w3)
| mt_cons w k kt w1 w2 v t w3 ms ts : ws w -> str_text kt k -> ws w1 -> ws w2 -> value_text v t -> ws w3 ->
    members_text ms ts ->
    members_text ((string_of k, v) :: ms) (w ++ 34 :: kt ++ 34 :: w1 ++ 58 :: w2 ++ t ++ w3 ++ 44 :: ts).

Scheme value_text_mind := Induction for value_text Sort Prop
  with items_text_mind := Induction for items_text Sort Prop
  with members_text_mind := Induction for members_text Sort Prop.
Combined Scheme json_texts_ind from value_text_mind, items_text_mind, members_text_mind.

(** A whole document: a value with white space around it. *)
Definition json_text (v : json) (l : list Z) : Prop :=
  exists w t w', l = w ++ t ++ w' /\ ws w /\ ws w' /\ value_text v t.

(** ** From the grammar to the parser *)

Lemma skip_ws_app w l : ws w -> skip_ws (w ++ l) = skip_ws l.
Proof. induction 1 as [|c w Hc _ IH]; [done|]. simpl. by rewrite Hc, IH. Qed.

Lemma skip_ws_all w : ws w -> skip_ws w = [].
Proof. intros Hw. pose proof (skip_ws_app w [] Hw) as E. by rewrite app_nil_r in E. Qed.

Lemma skip_ws_split l : exists w, l = w ++ skip_ws l /\ ws w.
Proof.
  induction l as [|c l (w & E & Hw)]; simpl; [by exists []; repeat constructor|].
  destruct (is_ws c) eqn:Hc; [|by exists []; repeat constructor].
  exists (c :: w). rewrite <- app_comm_cons, <- E. split; [done|by constructor].
Qed.

Lemma skip_ws_head l c r : skip_ws l = c :: r -> is_ws c = false.
Proof. induction l as [|a l IH]; simpl; [done|]. destruct (is_ws a) eqn:Ha; [done|]. congruence. Qed.

(** What may follow a value: the end, white space or a closing character. *)
Definition stop_char (c : Z) : bool := is_ws c || (c =? 44) || (c =? 93) || (c =? 125).
Definition stops (l : list Z) : Prop := match l with [] => True | c :: _ => stop_char c = true end.

Lemma stops_app w l : ws w -> stops l -> stops (w ++ l).
Proof. intros [|c w' Hc _] Hl; [done|]. unfold stops, stop_char. simpl. by rewrite Hc. Qed.

Lemma stops_ends l : stops l -> ends l.
Proof.
  destruct l as [|c l]; [done|]. unfold stops, stop_char, ends, is_ws, is_digit. zcases; lia || done.
Qed.

Lemma unhex_quote c n : unhex c = Some n -> c <> 34 /\ c <> 92.
Proof. unfold unhex, is_digit. zcases; intros; lia || done. Qed.

Lemma unhex4_quote a b c d n : unhex4 a b c d = Some n -> Forall (fun h => h <> 34 /\ h <> 92) [a; b; c; d].
Proof.
  unfold unhex4. destruct (unhex a) eqn:?, (unhex b) eqn:?, (unhex c) eqn:?, (unhex d) eqn:?; try done.
  intros _. repeat constructor; by eapply unhex_quote.
Qed.

#[local] Arguments unhex4 : simpl never.
#[local] Arguments utf8 : simpl never.
#[local] Arguments simple_escape : simpl never.

(** Characters, read by the parser. *)
Lemma parse_str_text t s r : str_text t s -> parse_str (t ++ 34 :: r) = Some (s, r).
Proof.
  induction 1 as [|c t s H1 H2 H3 _ IH|e c t s H1 H2 _ IH|h1 h2 h3 h4 cp t s H1 H2 H3 _ IH
    |h1 h2 h3 h4 g1 g2 g3 g4 cp lo t s H1 H2 H3 H4 _ IH]; [done|..]; cbn [app parse_str].
  - zcases. by rewrite IH.
  - change (92 =? 34) with false. change (92 =? 92) with true. cbn iota.
    destruct (Z.eqb_spec e 117); [done|]. by rewrite H2, IH.
  - cbn. rewrite H1. unfold high_surrogate, low_surrogate in *. by rewrite H2, H3, IH.
  - cbn. rewrite H1. unfold high_surrogate, low_surrogate in *. by rewrite H2, H3, H4, IH.
Qed.

(** Numbers. *)
Lemma parse_digits_app t r a n : parse_digits t a = (n, []) -> ends r -> parse_digits (t ++ r) a = (n, r).
Proof.
  revert a. induction t as [|c t IH]; intros a; simpl.
  - intros [= <-] Hr. by apply parse_digits_ends.
  - destruct (is_digit c); [|congruence]. apply IH.
Qed.

Lemma parse_nat_app t r n : parse_nat t = Some (n, []) -> ends r -> parse_nat (t ++ r) = Some (n, r).
Proof.
  unfold parse_nat. destruct t as [|c t]; [done|]. rewrite <- app_comm_cons. destruct (is_digit c) eqn:Hc; [|done].
  destruct (c =? 48).
  - destruct t as [|d t]; simpl.
    + intros [= <-] Hr. destruct r as [|x r]; [done|]. by destruct Hr as [-> _].
    + by destruct (is_digit d).
  - intros [= E] Hr. f_equal. change (c :: t ++ r) with ((c :: t) ++ r). by apply parse_digits_app.
Qed.

Lemma parse_num_tail (x : option (Z * list Z)) n r :
  match x with Some (n, c :: r') => if (c =? 46) || (c =? 101) || (c =? 69) then None else Some (n, c :: r') | _ => x end = Some (n, r) ->
  x = Some (n, r) /\ match r with c :: _ => c <> 46 /\ c <> 101 /\ c <> 69 | [] => True end.
Proof.
  destruct x as [[m [|c r']]|]; [by intros [= <- <-]|..|done].
  destruct ((c =? 46) || (c =? 101) || (c =? 69)) eqn:E; [done|]. intros [= <- <-].
  apply orb_false_iff in E as [[E1 E2]%orb_false_iff E3]. split; [done|]. lia.
Qed.

Lemma parse_num_app t r n : parse_num t = Some (n, []) -> ends r -> parse_num (t ++ r) = Some (n, r).
Proof.
  unfold parse_num. destruct t as [|c t]; [done|]. intros [E _]%parse_num_tail Hr. rewrite <- app_comm_cons.
  assert (E' : (if c =? 45 then match parse_nat (t ++ r) with Some (n0, r') => Some (- n0, r') | None => None end
                else parse_nat (c :: t ++ r)) = Some (n, r)).
  { destruct (c =? 45); [|by apply (parse_nat_app (c :: t))]. destruct (parse_nat t) as [[m l]|] eqn:Et; [|done].
    injection E as <- ->. by rewrite (parse_nat_app t r m). }
  rewrite E'. destruct r as [|d r]; [done|]. destruct Hr as (_ & H1 & H2 & H3). zcases. done.
Qed.

Lemma parse_num_head t n r : parse_num t = Some (n, r) -> exists c t', t = c :: t' /\ (c = 45 \/ is_digit c = true).
Proof.
  unfold parse_num. destruct t as [|c t]; [done|]. intros [E _]%parse_num_tail. exists c, t. split; [done|].
  destruct (Z.eqb_spec c 45); [by left|right]. unfold parse_nat in E. by destruct (is_digit c).
Qed.

Lemma scalar_opens v t l : scalar_text v t -> opens (t ++ l).
Proof.
  intros [| | |n t' (c & t2 & -> & Hc)%parse_num_head]; try (simpl; split; [reflexivity|lia]).
  destruct Hc as [->|Hd]; [simpl; split; [reflexivity|lia]|]. by apply opens_digit.
Qed.

Lemma value_opens v t l : value_text v t -> opens (t ++ l).
Proof. intros [v' t' Hs| | | | |]; [by eapply scalar_opens|..]; simpl; (split; [reflexivity|lia]). Qed.

Lemma value_skip w v t l : ws w -> value_text v t -> skip_ws (w ++ t ++ l) = t ++ l.
Proof. intros Hw Ht. rewrite skip_ws_app by done. by eapply opens_skip, value_opens. Qed.

Lemma scalar_parse v t r f : scalar_text v t -> stops r -> parse_value (S f) (t ++ r) = Some (v, r).
Proof.
  intros Ht Hr. pose proof (scalar_opens v t r Ht) as Ho. cbn [parse_value]. rewrite opens_skip by done.
  destruct Ht as [| | |n t E]; [done..|]. pose proof (parse_num_app t r n E (stops_ends r Hr)) as Ep.
  destruct (parse_num_head _ _ _ E) as (c & t' & -> & Hc). rewrite <- app_comm_cons in *. rewrite Ep.
  destruct Hc as [->|Hd]; [done|]. unfold is_digit in Hd. apply andb_true_iff in Hd as [H1 H2].
  apply Z.leb_le in H1, H2. by zcases.
Qed.

Lemma value_nonempty v t : value_text v t -> t <> [].
Proof. intros Ht ->. by pose proof (value_opens v [] [] Ht). Qed.

Lemma stops_close close r : close = 44 \/ close = 93 \/ close = 125 -> stops (close :: r).
Proof. by intros [->|[->| ->]]. Qed.

(** One item, then a comma or the end. *)
Lemma parse_items_one {A} (item : list Z -> option (A * list Z)) close n l w r a : ws w -> close = 93 \/ close = 125 ->
  item l = Some (a, w ++ close :: r) -> parse_items item close (S n) l = Some ([a], r).
Proof.
  intros Hw Hc E. cbn [parse_items]. rewrite E. rewrite skip_ws_app by done. by destruct Hc as [->| ->].
Qed.

Lemma parse_items_more {A} (item : list Z -> option (A * list Z)) close n l w r a : ws w ->
  item l = Some (a, w ++ 44 :: r) ->
  parse_items item close (S n) l = match parse_items item close n r with Some (xs, r') => Some (a :: xs, r') | None => None end.
Proof. intros Hw E. cbn [parse_items]. rewrite E. by rewrite skip_ws_app. Qed.

Lemma parse_member_text value w k kt w1 l v r : ws w -> str_text kt k -> ws w1 -> value l = Some (v, r) ->
  parse_member value (w ++ 34 :: kt ++ 34 :: w1 ++ 58 :: l) = Some ((string_of k, v), r).
Proof.
  intros Hw Hk Hw1 Hv. unfold parse_member, expect at 1. rewrite skip_ws_app by done. cbn.
  rewrite (parse_str_text kt k) by done. unfold expect. rewrite skip_ws_app by done. cbn. by rewrite Hv.
Qed.

Lemma items_opens vs t l : items_text vs t -> exists w t', t = w ++ t' /\ ws w /\ opens (t' ++ l).
Proof.
  intros [w v t1 w' Hw Ht _|w v t1 w' vs' ts Hw Ht _ _]; eexists w, _; (split; [done|split; [done|]]);
    rewrite <- app_assoc; by eapply value_opens.
Qed.

Lemma members_opens ms t l : members_text ms t -> exists w t', t = w ++ t' /\ ws w /\ opens (t' ++ l).
Proof.
  intros [w k kt w1 w2 v t1 w3 Hw|w k kt w1 w2 v t1 w3 ms' ts Hw]; eexists w, _; (split; [done|split; [done|]]);
    (simpl; split; [reflexivity|lia]).
Qed.

(** A list that does not open with its closing character. *)
Lemma parse_list_items {A} (item : list Z -> option (A * list Z)) close n l r xs w t : close = 93 \/ close = 125 ->
  l = w ++ t -> ws w -> opens t -> parse_items item close n l = Some (xs, r) -> parse_list item close n l = Some (xs, r).
Proof.
  intros Hc -> Hw Ho E. unfold parse_list. rewrite skip_ws_app, opens_skip by done.
  destruct t as [|c t]; [done|]. destruct Ho as (_ & H1 & H2). by destruct Hc as [->| ->]; zcases.
Qed.

(** White space in front of a value. *)
Lemma parse_value_ws f w l : ws w -> parse_value f (w ++ l) = parse_value f l.
Proof. intros Hw. destruct f; [done|]. cbn [parse_value]. by rewrite skip_ws_app. Qed.

Ltac norm_lengths := repeat first [rewrite length_app in * | progress cbn [length] in *].

(** The parser reads every text of the grammar, given more fuel than characters. *)
Lemma value_parse v t : value_text v t -> forall f r, (length t < f)%nat -> stops r -> parse_value f (t ++ r) = Some (v, r).
Proof.
  revert v t. apply (value_text_mind
    (fun v t _ => forall f r, (length t < f)%nat -> stops r -> parse_value f (t ++ r) = Some (v, r))
    (fun vs t _ => forall f n r, (length t < f)%nat -> (length t < n)%nat -> parse_items (parse_value f) 93 n (t ++ 93 :: r) = Some (vs, r))
    (fun ms t _ => forall f n r, (length t < f)%nat -> (length t < n)%nat ->
      parse_items (parse_member (parse_value f)) 125 n (t ++ 125 :: r) = Some (ms, r))).
  - intros v t Hs [|f] r Hf Hr; [lia|]. by apply scalar_parse.
  - intros s t Hs [|f] r Hf Hr; [lia|]. cbn. rewrite <- app_assoc. cbn. by rewrite (parse_str_text t s).
  - intros w Hw [|f] r Hf Hr; [lia|]. cbn. unfold parse_list. rewrite <- app_assoc, skip_ws_app by done. done.
  - intros vs t Ht IH [|f] r Hf Hr; [lia|]. cbn. rewrite <- app_assoc. cbn [app].
    destruct (items_opens vs t (93 :: r) Ht) as (w & t' & E & Hw & Ho). cbn in Hf. rewrite length_app in Hf. cbn in Hf.
    erewrite (parse_list_items _ 93 f _ r vs w (t' ++ 93 :: r)); [done|by left|by rewrite E, <- app_assoc|done|done|].
    apply IH; lia.
  - intros w Hw [|f] r Hf Hr; [lia|]. cbn. unfold parse_list. rewrite <- app_assoc, skip_ws_app by done. done.
  - intros ms t Ht IH [|f] r Hf Hr; [lia|]. cbn. rewrite <- app_assoc. cbn [app].
    destruct (members_opens ms t (125 :: r) Ht) as (w & t' & E & Hw & Ho). cbn in Hf. rewrite length_app in Hf. cbn in Hf.
    erewrite (parse_list_items _ 125 f _ r ms w (t' ++ 125 :: r)); [done|by right|by rewrite E, <- app_assoc|done|done|].
    apply IH; lia.
  - intros w v t w' Hw Ht IH Hw' f [|n] r Hf Hn; [lia|]. rewrite !length_app in Hf. rewrite <- !app_assoc.
    apply parse_items_one with (w := w'); [done|by left|].
    rewrite parse_value_ws by done. apply IH; [lia|]. by apply stops_app.
  - intros w v t w' vs ts Hw Ht IH Hw' Hts IHs f [|n] r Hf Hn; [lia|]. rewrite !length_app in Hf, Hn. cbn in Hf, Hn.
    rewrite <- !app_assoc. rewrite parse_items_more with (w := w') (r := ts ++ 93 :: r) (a := v); [|done|].
    + rewrite IHs by lia. done.
    + rewrite parse_value_ws by done. apply IH; [lia|]. by apply stops_app.
  - intros w k kt w1 w2 v t w3 Hw Hk Hw1 Hw2 Ht IH Hw3 f [|n] r Hf Hn; [lia|]. norm_lengths.
    repeat (rewrite <- app_assoc; cbn [app]). apply parse_items_one with (w := w3); [done|by right|].
    apply parse_member_text; [done..|]. rewrite parse_value_ws by done. apply IH; [lia|]. by apply stops_app.
  - intros w k kt w1 w2 v t w3 ms ts Hw Hk Hw1 Hw2 Ht IH Hw3 Hms IHs f [|n] r Hf Hn; [lia|]. norm_lengths.
    repeat (rewrite <- app_assoc; cbn [app]).
    rewrite parse_items_more with (w := w3) (r := ts ++ 125 :: r) (a := (string_of k, v)); [|done|].
    + rewrite IHs by lia. done.
    + apply parse_member_text; [done..|]. rewrite parse_value_ws by done. apply IH; [lia|]. by apply stops_app.
Qed.

(** ** From the parser to the grammar *)

Lemma parse_str_inv l s r : parse_str l = Some (s, r) -> exists t, l = t ++ 34 :: r /\ str_text t s.
Proof.
  remember (length l) as m eqn:Em. revert l s r Em. induction (lt_wf m) as [m _ IH]. intros l s r ->.
  assert (Hrec : forall l' s' r', (length l' < length l)%nat -> parse_str l' = Some (s', r') -> exists t, l' = t ++ 34 :: r' /\ str_text t s').
  { intros l' s' r' Hl. by apply (IH _ Hl). }
  clear IH. destruct l as [|c l1]; [done|]. cbn [parse_str]. destruct (Z.eqb_spec c 34) as [->|H34].
  { intros [= <- <-]. exists []. split; [done|constructor]. }
  destruct (Z.eqb_spec c 92) as [->|H92].
  2:{ destruct (Z.ltb_spec c 32); [done|]. destruct (parse_str l1) as [[s1 r1]|] eqn:E1; [|done]. intros [= <- <-].
      destruct (Hrec l1 s1 r1) as (t & -> & Ht); [simpl; lia|done|]. exists (c :: t). split; [done|]. constructor; done || lia. }
  destruct l1 as [|e l2]; [done|]. destruct (Z.eqb_spec e 117) as [->|H117].
  2:{ destruct (simple_escape e) as [c'|] eqn:Ee; [|done]. destruct (parse_str l2) as [[s1 r1]|] eqn:E1; [|done]. intros [= <- <-].
      destruct (Hrec l2 s1 r1) as (t & -> & Ht); [simpl; lia|done|]. exists (92 :: e :: t). split; [done|]. by constructor. }
  destruct l2 as [|h1 [|h2 [|h3 [|h4 l3]]]]; try done. destruct (unhex4 h1 h2 h3 h4) as [cp|] eqn:Ecp; [|done].
  destruct ((55296 <=? cp) && (cp <? 56320)) eqn:Ehi.
  - destruct l3 as [|b [|u [|g1 [|g2 [|g3 [|g4 l4]]]]]]; try done. destruct (unhex4 g1 g2 g3 g4) as [lo|] eqn:Elo; [|done].
    destruct ((b =? 92) && (u =? 117) && (56320 <=? lo) && (lo <? 57344)) eqn:Eb; [|done].
    rewrite !andb_true_iff in Eb. destruct Eb as [[[->%Z.eqb_eq ->%Z.eqb_eq] Hlo1] Hlo2].
    destruct (parse_str l4) as [[s1 r1]|] eqn:E1; [|done]. intros [= <- <-].
    destruct (Hrec l4 s1 r1) as (t & -> & Ht); [simpl; lia|done|]. eexists (_ :: _ :: _ :: _ :: _ :: _ :: _ :: _ :: _ :: _ :: _ :: _ :: t).
    split; [done|]. apply st_pair; try done. unfold low_surrogate. by rewrite Hlo1, Hlo2.
  - destruct ((56320 <=? cp) && (cp <? 57344)) eqn:Elo; [done|]. destruct (parse_str l3) as [[s1 r1]|] eqn:E1; [|done]. intros [= <- <-].
    destruct (Hrec l3 s1 r1) as (t & -> & Ht); [simpl; lia|done|]. eexists (_ :: _ :: _ :: _ :: _ :: _ :: t). split; [done|]. by apply st_unicode.
Qed.

Lemma parse_digits_inv l a n r : parse_digits l a = (n, r) -> exists t, l = t ++ r /\ parse_digits t a = (n, []).
Proof.
  revert a. induction l as [|c l IH]; intros a; simpl; [intros [= <- <-]; by exists []|].
  destruct (is_digit c) eqn:Hc; [|intros [= <- <-]; by exists []].
  intros (t & -> & Ht)%IH. exists (c :: t). split; [done|]. simpl. by rewrite Hc.
Qed.

Lemma parse_nat_inv l n r : parse_nat l = Some (n, r) -> exists t, l = t ++ r /\ parse_nat t = Some (n, []).
Proof.
  unfold parse_nat. destruct l as [|c l]; [done|]. destruct (is_digit c) eqn:Hc; [|done]. destruct (Z.eqb_spec c 48) as [->|Hne].
  - intros E. assert (n = 0 /\ r = l) as [-> ->] by (destruct l as [|d l]; [by injection E|destruct (is_digit d); [done|by injection E]]).
    by exists [48].
  - cbn [parse_digits]. rewrite Hc. intros [= (t & -> & Ht)%parse_digits_inv]. exists (c :: t). split; [done|].
    rewrite Hc. cbn [parse_digits]. zcases. by rewrite Hc, Ht.
Qed.

Lemma parse_num_inv l n r : parse_num l = Some (n, r) -> exists t, l = t ++ r /\ parse_num t = Some (n, []).
Proof.
  unfold parse_num. destruct l as [|c l]; [done|]. intros [E _]%parse_num_tail. destruct (Z.eqb_spec c 45) as [->|Hne].
  - destruct (parse_nat l) as [[m r']|] eqn:Em; [|done]. injection E as <- ->. apply parse_nat_inv in Em as (t & -> & Ht).
    exists (45 :: t). split; [done|]. simpl. by rewrite Ht.
  - apply parse_nat_inv in E as (t & E & Ht). destruct t as [|c' t]; [done|]. injection E as <- ->.
    exists (c :: t). split; [done|]. destruct (Z.eqb_spec c 45); [done|]. by rewrite Ht.
Qed.

Lemma strip_app p r : strip p (p ++ r) = Some r.
Proof. induction p as [|c p IH]; [done|]. cbn [app strip]. by rewrite Z.eqb_refl. Qed.

Lemma strip_inv p l r : strip p l = Some r -> l = p ++ r.
Proof.
  revert l. induction p as [|a p IH]; intros [|b l]; simpl; try congruence. destruct (Z.eqb_spec a b) as [->|]; [|done].
  by intros ->%IH.
Qed.

Lemma expect_inv c l r : expect c l = Some r -> exists w, l = w ++ c :: r /\ ws w.
Proof.
  unfold expect. destruct (skip_ws_split l) as (w & E & Hw). destruct (skip_ws l) as [|c' l']; [done|].
  destruct (Z.eqb_spec c' c) as [->|]; [|done]. intros [= ->]. by exists w.
Qed.

Definition reads_text (f : nat) : Prop :=
  forall l v r, parse_value f l = Some (v, r) -> exists w t, l = w ++ t ++ r /\ ws w /\ value_text v t.

Lemma parse_items_inv f n l vs r : reads_text f -> parse_items (parse_value f) 93 n l = Some (vs, r) ->
  exists t, l = t ++ 93 :: r /\ items_text vs t.
Proof.
  intros Hf. revert l vs r. induction n as [|n IH]; intros l vs r; [done|]. cbn [parse_items].
  destruct (parse_value f l) as [[v r1]|] eqn:Ev; [|done]. apply Hf in Ev as (w & t & -> & Hw & Ht).
  destruct (skip_ws_split r1) as (w' & E & Hw'). destruct (skip_ws r1) as [|c r2] eqn:Es; [done|].
  destruct (Z.eqb_spec c 44) as [->|].
  - destruct (parse_items (parse_value f) 93 n r2) as [[xs r3]|] eqn:Ei; [|done]. intros [= <- <-].
    apply IH in Ei as (ts & -> & Hts). exists (w ++ t ++ w' ++ 44 :: ts). split; [|by constructor].
    rewrite E. by rewrite <- !app_assoc.
  - destruct (Z.eqb_spec c 93) as [->|]; [|done]. intros [= <- <-]. exists (w ++ t ++ w'). split; [|by constructor].
    rewrite E. by rewrite <- !app_assoc.
Qed.

Lemma parse_member_inv f l m r : reads_text f -> parse_member (parse_value f) l = Some (m, r) ->
  exists w k kt w1 w2 v t, l = w ++ 34 :: kt ++ 34 :: w1 ++ 58 :: w2 ++ t ++ r /\ m = (string_of k, v) /\
    ws w /\ str_text kt k /\ ws w1 /\ ws w2 /\ value_text v t.
Proof.
  intros Hf. unfold parse_member. destruct (expect 34 l) as [l1|] eqn:E1; [|done].
  destruct (parse_str l1) as [[k l2]|] eqn:E2; [|done]. destruct (expect 58 l2) as [l3|] eqn:E3; [|done].
  destruct (parse_value f l3) as [[v l4]|] eqn:E4; [|done]. intros [= <- <-].
  apply expect_inv in E1 as (w & -> & Hw). apply parse_str_inv in E2 as (kt & -> & Hk).
  apply expect_inv in E3 as (w1 & -> & Hw1). apply Hf in E4 as (w2 & t & -> & Hw2 & Ht). by exists w, k, kt, w1, w2, v, t.
Qed.

Lemma parse_members_inv f n l ms r : reads_text f -> parse_items (parse_member (parse_value f)) 125 n l = Some (ms, r) ->
  exists t, l = t ++ 125 :: r /\ members_text ms t.
Proof.
  intros Hf. revert l ms r. induction n as [|n IH]; intros l ms r; [done|]. cbn [parse_items].
  destruct (parse_member (parse_value f) l) as [[m r1]|] eqn:Ev; [|done].
  apply parse_member_inv in Ev as (w & k & kt & w1 & w2 & v & t & -> & -> & Hw & Hk & Hw1 & Hw2 & Ht); [|done].
  destruct (skip_ws_split r1) as (w' & E & Hw'). destruct (skip_ws r1) as [|c r2] eqn:Es; [done|].
  destruct (Z.eqb_spec c 44) as [->|].
  - destruct (parse_items _ 125 n r2) as [[xs r3]|] eqn:Ei; [|done]. intros [= <- <-].
    apply IH in Ei as (ts & -> & Hts). eexists. split; [|by apply (mt_cons w k kt w1 w2 v t w' xs ts)].
    rewrite E. by repeat (rewrite <- app_assoc; cbn [app]).
  - destruct (Z.eqb_spec c 125) as [->|]; [|done]. intros [= <- <-].
    eexists. split; [|by apply (mt_one w k kt w1 w2 v t w')]. rewrite E. by repeat (rewrite <- app_assoc; cbn [app]).
Qed.

Lemma value_inv f : reads_text f.
Proof.
  induction f as [|f IH]; intros l v r; [done|]. cbn [parse_value]. destruct (skip_ws_split l) as (w & E & Hw).
  destruct (skip_ws l) as [|c l1] eqn:Es; [done|]. intros Hp.
  cut (exists t, c :: l1 = t ++ r /\ value_text v t). { intros (t & Et & Ht). exists w, t. by rewrite E, Et. }
  clear E Es Hw w l. revert Hp. destruct (Z.eqb_spec c 34) as [->|H34].
  { destruct (parse_str l1) as [[s r']|] eqn:E1; [|done]. intros [= <- <-]. apply parse_str_inv in E1 as (t & -> & Ht).
    exists (34 :: t ++ [34]). split; [|by constructor]. by rewrite <- app_comm_cons, <- app_assoc. }
  destruct (Z.eqb_spec c 91) as [->|H91].
  { unfold parse_list. destruct (skip_ws_split l1) as (w & E & Hw). destruct (skip_ws l1) as [|c1 l2]; [done|].
    destruct (Z.eqb_spec c1 93) as [->|].
    - intros [= <- <-]. exists (91 :: w ++ [93]). split; [|by constructor]. rewrite E. by rewrite <- app_comm_cons, <- app_assoc.
    - destruct (parse_items (parse_value f) 93 f l1) as [[xs r']|] eqn:E1; [|done]. intros [= <- <-].
      apply parse_items_inv in E1 as (t & -> & Ht); [|done]. exists (91 :: t ++ [93]). split; [|by constructor].
      by rewrite <- app_comm_cons, <- app_assoc. }
  destruct (Z.eqb_spec c 123) as [->|H123].
  { unfold parse_list. destruct (skip_ws_split l1) as (w & E & Hw). destruct (skip_ws l1) as [|c1 l2]; [done|].
    destruct (Z.eqb_spec c1 125) as [->|].
    - intros [= <- <-]. exists (123 :: w ++ [125]). split; [|by constructor]. rewrite E. by rewrite <- app_comm_cons, <- app_assoc.
    - destruct (parse_items _ 125 f l1) as [[xs r']|] eqn:E1; [|done]. intros [= <- <-].
      apply parse_members_inv in E1 as (t & -> & Ht); [|done]. exists (123 :: t ++ [125]). split; [|by constructor].
      by rewrite <- app_comm_cons, <- app_assoc. }
  destruct (Z.eqb_spec c 110) as [->|H110].
  { destruct (strip _ l1) as [r'|] eqn:E1; [|done]. intros [= <- <-]. apply strip_inv in E1 as ->. eexists. split; [|apply vt_scalar, sc_null]. done. }
  destruct (Z.eqb_spec c 116) as [->|H116].
  { destruct (strip _ l1) as [r'|] eqn:E1; [|done]. intros [= <- <-]. apply strip_inv in E1 as ->. eexists. split; [|apply vt_scalar, sc_true]. done. }
  destruct (Z.eqb_spec c 102) as [->|H102].
  { destruct (strip _ l1) as [r'|] eqn:E1; [|done]. intros [= <- <-]. apply strip_inv in E1 as ->. eexists. split; [|apply vt_scalar, sc_false]. done. }
  destruct (parse_num (c :: l1)) as [[n r']|] eqn:E1; [|done]. intros [= <- <-]. apply parse_num_inv in E1 as (t & -> & Ht).
  exists t. split; [done|]. by apply vt_scalar, sc_num.
Qed.

(** [JSON.parse] accepts exactly the texts of the grammar. *)
Theorem parse_json_text l v : parse l = Some v <-> json_text v l.
Proof.
  unfold parse. split.
  - destruct (parse_value _ l) as [[v' r]|] eqn:E; [|done]. destruct (skip_ws_split r) as (w' & Er & Hw').
    destruct (skip_ws r) as [|]; [|done]. intros [= ->]. rewrite app_nil_r in Er. subst w'.
    apply value_inv in E as (w & t & -> & Hw & Ht). by exists w, t, r.
  - intros (w & t & w' & -> & Hw & Hw' & Ht). rewrite parse_value_ws by done.
    rewrite (value_parse v t Ht); [by rewrite skip_ws_all|rewrite !length_app; lia|].
    pose proof (stops_app w' [] Hw' I) as Hs. by rewrite app_nil_r in Hs.
Qed.
