(* ===== verification/Text.v ===== *)
(** * Text and JSON values

    The pieces of the language's library that the storage and admission code
    uses: [String(v)], base 64, UTF-8 decoding and the Unicode classes of its
    regular expressions, strict equality and updates of JSON values, and the
    canonical JSON text of [olm-admission.js] ([canonicalJSON], [equalJSON],
    [jsonBytes]) with its round trip. *)

From stdpp Require Import base list strings sorting.
From Stdlib Require Import ZArith Lia Ascii.
From S2P Require Import Prelude Json.

(** ** Text *)

Definition text (l : list Z) : string := string_of l.

(** [String(v)]; an array joins its items, an object has no useful text. *)
Fixpoint js_String (v : json) : string :=
  match v with
  | JNull => "null"
  | JBool true => "true"
  | JBool false => "false"
  | JNum n => text (print_num n)
  | JStr s => s
  | JArr l => text (join 44 (map (fun x => match x with JNull => [] | _ => bytes_of (js_String x) end) l))
  | JObj _ => "[object Object]"
  end.

(** [String(v)] of a field. *)
Definition String_of (v : option json) : string :=
  match v with None => "undefined" | Some j => js_String j end.

(** ** Base 64 *)

Definition b64_char (n : Z) : Z :=
  if n <? 26 then 65 + n else if n <? 52 then 71 + n else if n <? 62 then n - 4 else if n =? 62 then 43 else 47.
Definition b64_val (c : Z) : option Z :=
  if (65 <=? c) && (c <=? 90) then Some (c - 65)
  else if (97 <=? c) && (c <=? 122) then Some (c - 71)
  else if (48 <=? c) && (c <=? 57) then Some (c + 4)
  else if c =? 43 then Some 62 else if c =? 47 then Some 63 else None.

(** [b64] of a byte list, padded. *)
Fixpoint b64 (l : list Z) : list Z :=
  match l with
  | a :: b :: c :: r =>
    let n := (a * 256 + b) * 256 + c in
    b64_char (n / 262144) :: b64_char ((n / 4096) `mod` 64) :: b64_char ((n / 64) `mod` 64) ::
    b64_char (n `mod` 64) :: b64 r
  | [a; b] => let n := (a * 256 + b) * 4 in
              [b64_char (n / 4096); b64_char ((n / 64) `mod` 64); b64_char (n `mod` 64); 61]
  | [a] => let n := a * 16 in [b64_char (n / 64); b64_char (n `mod` 64); 61; 61]
  | [] => []
  end.


Lemma b64_val_char x : 0 <= x < 64 -> b64_val (b64_char x) = Some x.
Proof. intros H. unfold b64_val, b64_char. zcases; f_equal; lia. Qed.

Lemma b64_char_range x : 0 <= x < 64 -> b64_char x <> 61 /\ 0 <= b64_char x < 256.
Proof. intros H. unfold b64_char. zcases; lia. Qed.

Lemma b64_group3 a b c : 0 <= a < 256 -> 0 <= b < 256 -> 0 <= c < 256 ->
  let n := (a * 256 + b) * 256 + c in
  let x := n / 262144 in let y := (n / 4096) `mod` 64 in let z := (n / 64) `mod` 64 in let w := n `mod` 64 in
  0 <= x < 64 /\ 0 <= y < 64 /\ 0 <= z < 64 /\ 0 <= w < 64 /\
  ((x * 64 + y) * 64 + z) * 64 + w = n /\ n / 65536 = a /\ (n / 256) `mod` 256 = b /\ n `mod` 256 = c.
Proof.
  intros Ha Hb Hc n x y z w. assert (n = ((a * 256 + b) * 256 + c)) as En by done. clearbody n.
  split_and!; subst x y z w; Z.to_euclidean_division_equations; lia.
Qed.

Lemma b64_group2 a b : 0 <= a < 256 -> 0 <= b < 256 ->
  let n := (a * 256 + b) * 4 in
  let x := n / 4096 in let y := (n / 64) `mod` 64 in let z := n `mod` 64 in
  0 <= x < 64 /\ 0 <= y < 64 /\ 0 <= z < 64 /\
  ((x * 64 + y) * 64 + z) / 4 = a * 256 + b /\ (a * 256 + b) / 256 = a /\ (a * 256 + b) `mod` 256 = b.
Proof.
  intros Ha Hb n x y z. assert (n = (a * 256 + b) * 4) as En by done. clearbody n.
  split_and!; subst x y z; Z.to_euclidean_division_equations; lia.
Qed.


(** [atob]: white space is dropped and the padding is optional. *)
Fixpoint unb64_groups (l : list Z) : option (list Z) :=
  match l with
  | [] => Some []
  | [c1; c2] =>
    match b64_val c1, b64_val c2 with
    | Some x, Some y => Some [(x * 64 + y) / 16]
    | _, _ => None
    end
  | [c1; c2; c3] =>
    match b64_val c1, b64_val c2, b64_val c3 with
    | Some x, Some y, Some z => let n := ((x * 64 + y) * 64 + z) / 4 in Some [n / 256; n `mod` 256]
    | _, _, _ => None
    end
  | c1 :: c2 :: c3 :: c4 :: r =>
    match b64_val c1, b64_val c2, b64_val c3, b64_val c4, unb64_groups r with
    | Some x, Some y, Some z, Some w, Some out =>
      let n := ((x * 64 + y) * 64 + z) * 64 + w in
      Some (n / 65536 :: (n / 256) `mod` 256 :: n `mod` 256 :: out)
    | _, _, _, _, _ => None
    end
  | [_] => None
  end.

Definition strip_padding (l : list Z) : list Z :=
  if Z.of_nat (length l) `mod` 4 =? 0 then
    match reverse l with
    | 61 :: 61 :: r => reverse r
    | 61 :: r => reverse r
    | _ => l
    end
  else l.

Definition atob (s : string) : option (list Z) :=
  unb64_groups (strip_padding (filter (fun c => is_ws c || (c =? 12) = false) (bytes_of s))).

(** [toBase64] of [crypto.js] and [base64] of [ratchet-store.js]. *)
Definition toBase64 (l : list Z) : string := text (b64 l).

(** ** UTF-8 and character classes *)

(** The code points of UTF-8 text: [None] when it is ill-formed (overlong
    forms, surrogates and values above U+10FFFF included). *)
Definition continuation (c : Z) : bool := (128 <=? c) && (c <? 192).

Fixpoint code_points (l : list Z) : option (list Z) :=
  match l with
  | [] => Some []
  | a :: r =>
    if a <? 128 then (cons a) <$> code_points r
    else if (194 <=? a) && (a <? 224) then
      match r with
      | b :: r' => if continuation b then (cons ((a - 192) * 64 + (b - 128))) <$> code_points r' else None
      | _ => None
      end
    else if (224 <=? a) && (a <? 240) then
      match r with
      | b :: c :: r' =>
        let cp := ((a - 224) * 64 + (b - 128)) * 64 + (c - 128) in
        if continuation b && continuation c && (2048 <=? cp) && negb ((55296 <=? cp) && (cp <? 57344))
        then (cons cp) <$> code_points r' else None
      | _ => None
      end
    else if (240 <=? a) && (a <? 245) then
      match r with
      | b :: c :: d :: r' =>
        let cp := (((a - 240) * 64 + (b - 128)) * 64 + (c - 128)) * 64 + (d - 128) in
        if continuation b && continuation c && continuation d && (65536 <=? cp) && (cp <? 1114112)
        then (cons cp) <$> code_points r' else None
      | _ => None
      end
    else None
  end.

(** [new TextDecoder("utf-8", {fatal: true}).decode]: a byte order mark is
    dropped, ill-formed input throws. *)
Definition decode_fatal (l : list Z) : option (list Z) :=
  let body := match l with 239 :: 187 :: 191 :: r => r | _ => l end in
  if code_points body then Some body else None.

(** [\p{Cc}] and [\p{Cf}]. *)
Definition is_Cc (c : Z) : bool := (c <? 32) || ((127 <=? c) && (c <? 160)).
Definition Cf_ranges : list (Z * Z) :=
  [(173, 173); (1536, 1541); (1564, 1564); (1757, 1757); (1807, 1807); (2192, 2193); (2274, 2274);
   (6158, 6158); (8203, 8207); (8234, 8238); (8288, 8292); (8294, 8303); (65279, 65279);
   (65529, 65531); (69821, 69821); (69837, 69837); (78896, 78911); (113824, 113827);
   (119155, 119162); (917505, 917505); (917536, 917631)].
Definition is_Cf (c : Z) : bool := existsb (fun r : Z * Z => (r.1 <=? c) && (c <=? r.2)) Cf_ranges.

(** Some character of the text is in class [f]; bytes that are no UTF-8 text
    denote no string and are in every class. *)
Definition has_class (f : Z -> bool) (s : string) : bool :=
  match code_points (bytes_of s) with Some l => existsb f l | None => true end.

Definition utf8_length (s : string) : Z := Z.of_nat (String.length s).

(** [s.length]: UTF-16 units, two for a code point above U+FFFF. *)
Definition utf16_length (s : string) : Z :=
  match code_points (bytes_of s) with
  | Some l => foldr (fun cp n => (if cp <? 65536 then 1 else 2) + n) 0 l
  | None => utf8_length s
  end.

Definition is_hex_lower (c : Z) : bool := is_digit c || ((97 <=? c) && (c <=? 102)).
Definition all_chars (f : Z -> bool) (s : string) : bool := forallb f (bytes_of s).

(** [/^[a-f0-9]{64}$/] and [/^tls-sha256:[a-f0-9]{64}$/]. *)
Definition hex64 (s : string) : bool := all_chars is_hex_lower s && (utf8_length s =? 64).
Definition tls_sha256 (s : string) : bool :=
  String.prefix "tls-sha256:" s && (utf8_length s =? 75) && hex64 (String.substring 11 64 s).

(** The hexadecimal text of bytes. *)
Definition hex_text (l : list Z) : string :=
  text (l ≫= fun b => [hex_digit (b / 16); hex_digit (b `mod` 16)]).

(** ** JSON values as objects *)

(** An object literal; a member whose value is [undefined] is not printed. *)
Definition obj (l : list (string * option json)) : json :=
  JObj (omap (fun kv : string * option json => (fun v => (kv.1, v)) <$> kv.2) l).

(** The members of [{...v}]. *)
Definition members (v : json) : list (string * json) := match v with JObj l => l | _ => [] end.

Definition has_member (k : string) (l : list (string * json)) : bool :=
  existsb (fun kv => bool_decide (kv.1 = k)) l.

(** [v.k = x], and [{...v, k: x}]. *)
Definition jset (k : string) (x : json) (v : json) : json :=
  let l := members v in
  JObj (if has_member k l then map (fun kv => if decide (kv.1 = k) then (k, x) else kv) l
        else l ++ [(k, x)]).

(** [delete v.k]. *)
Definition jdel (k : string) (v : json) : json := JObj (filter (fun kv => kv.1 <> k) (members v)).
(** Members are JSON values: an [undefined] one is left out. *)
Definition put_opt (k : string) (x : option json) (v : json) : json := match x with Some x => jset k x v | None => jdel k v end.

(** [a === b]: primitives by value; two parsed objects are never the same. *)
Definition primitive (v : json) : bool := match v with JArr _ | JObj _ => false | _ => true end.
Definition strict_eq (a b : option json) : bool :=
  match a, b with
  | None, None => true
  | Some x, Some y => primitive x && bool_decide (x = y)
  | _, _ => false
  end.
Definition is_text (v : option json) (s : string) : bool := bool_decide (v = Some (JStr s)).

(** [Number.isSafeInteger(v)], and [v] as a positive safe integer. *)
Definition isSafeInteger (v : option json) : bool :=
  match v with Some (JNum n) => is_safe_integer n | _ => false end.
Definition safe_positive (v : option json) : bool :=
  match v with Some (JNum n) => is_safe_integer n && (0 <? n) | _ => false end.

Definition num_or (d : Z) (v : option json) : Z := match v with Some (JNum n) => n | _ => d end.

(** [Array.from(data)] of bytes, and back. *)
Definition json_of_bytes (l : list Z) : json := JArr (map JNum l).
Definition bytes_of_json (v : option json) : list Z :=
  match v with Some (JArr l) => map (fun x => num_or 0 (Some x)) l | _ => [] end.

(** ** Canonical JSON text ([canonicalJSON] and [equalJSON]) *)

(** [.replace(/[<>&\u2028\u2029]/g, ...)] on the UTF-8 text. *)
Definition unicode_escape (cp : Z) : list Z :=
  [92; 117; hex_digit (cp / 4096); hex_digit ((cp / 256) `mod` 16);
   hex_digit ((cp / 16) `mod` 16); hex_digit (cp `mod` 16)].

Definition html_special (c : Z) : bool := (c =? 60) || (c =? 62) || (c =? 38).

(** The two line separators are E2 80 A8 and E2 80 A9 in UTF-8. *)
Definition separator (l : list Z) : option (Z * list Z) :=
  match l with
  | a :: b :: c :: r =>
    if (a =? 226) && (b =? 128) && ((c =? 168) || (c =? 169)) then Some (8232 + (c - 168), r) else None
  | _ => None
  end.

Fixpoint html_go (fuel : nat) (l : list Z) : list Z :=
  match fuel with
  | O => []
  | S f =>
    match l with
    | [] => []
    | c :: r =>
      match separator l with
      | Some (cp, r') => unicode_escape cp ++ html_go f r'
      | None => (if html_special c then unicode_escape c else [c]) ++ html_go f r
      end
    end
  end.
Definition html (l : list Z) : list Z := html_go (length l) l.

Definition canonicalJSON (v : json) : list Z := html (stringify v).

(** The inner [sort] of [equalJSON]: members in key order, at every depth. *)
Definition key_le (a b : string) : Prop := String.leb a b = true.
#[global] Instance key_le_dec a b : Decision (key_le a b).
Proof. unfold key_le. apply _. Defined.

Definition sorted_keys (l : list (string * json)) : list string :=
  merge_sort key_le (remove_dups l.*1).

Fixpoint sort_json (v : json) : json :=
  match v with
  | JArr l => JArr (map sort_json l)
  | JObj l =>
    let sorted := map (fun kv => (kv.1, sort_json kv.2)) l in
    JObj (omap (fun k => (fun x => (k, x)) <$> assoc_last k sorted) (sorted_keys l))
  | _ => v
  end.

Definition equalJSON (a b : json) : bool :=
  bool_decide (canonicalJSON (sort_json a) = canonicalJSON (sort_json b)).

Definition jsonBytes (v : json) : list Z := canonicalJSON v.

(** *** Lemmas *)

Lemma field_jset k x v k' :
  field k' (jset k x v) = if decide (k' = k) then Some x else field k' v.
Proof.
  assert (Hm : field k' v = assoc_last k' (members v)) by (by destruct v). rewrite Hm. clear Hm.
  unfold jset. generalize (members v) as l. intros l. simpl.
  destruct (has_member k l) eqn:Hh.
  - transitivity (if decide (k' = k) then if has_member k l then Some x else None else assoc_last k' l);
      [|by rewrite Hh]. clear Hh.
    induction l as [|[k0 v0] l IH]; simpl; [by case_decide|].
    rewrite IH. clear IH. destruct (decide (k0 = k)) as [->|Hne]; simpl.
    + rewrite bool_decide_true by done. repeat case_decide; subst; try done.
      * by destruct (has_member k l).
    + rewrite bool_decide_false by done. simpl.
      repeat case_decide; subst; try done; destruct (has_member _ l); done.
  - induction l as [|[k0 v0] l IH]; simpl in *; [by case_decide|].
    apply orb_false_iff in Hh as [H1 H2]. apply bool_decide_eq_false in H1.
    rewrite IH by done. repeat case_decide; subst; done.
Qed.

Lemma field_jset_eq k x v : field k (jset k x v) = Some x.
Proof. rewrite field_jset. by case_decide. Qed.

Lemma field_jset_ne k k' x v : k' <> k -> field k' (jset k x v) = field k' v.
Proof. intros. rewrite field_jset. by case_decide. Qed.

Lemma field_jdel k v k' : field k' (jdel k v) = if decide (k' = k) then None else field k' v.
Proof.
  assert (Hm : field k' v = assoc_last k' (members v)) by (by destruct v). rewrite Hm. clear Hm.
  unfold jdel. simpl. induction (members v) as [|[k0 v0] l IH]; simpl; [by case_decide|].
  rewrite filter_cons. simpl. destruct (decide (k0 <> k)) as [Hne|Heq].
  - simpl. rewrite IH. repeat case_decide; subst; try done; by destruct (assoc_last _ l).
  - rewrite IH. apply dec_stable in Heq as ->. repeat case_decide; subst; try done. by destruct (assoc_last k' l).
Qed.

Lemma field_jdel_ne k k' v : k' <> k -> field k' (jdel k v) = field k' v.
Proof. intros. rewrite field_jdel. by case_decide. Qed.

(** [fields]: members after updates of an object. *)
Create HintDb fields discriminated.
#[export] Hint Rewrite field_jset_eq : fields.
#[export] Hint Rewrite field_jset_ne field_jdel_ne using done : fields.

Lemma html_go_enough f1 f2 l : (length l <= f1)%nat -> (length l <= f2)%nat -> html_go f1 l = html_go f2 l.
Proof.
  revert f2 l. induction f1 as [|f1 IH]; intros f2 l H1 H2.
  - destruct l; [by destruct f2|simpl in H1; lia].
  - destruct f2 as [|f2]; [destruct l; [done|simpl in H2; lia]|].
    destruct l as [|c r]; [done|]. cbn [html_go].
    destruct (separator (c :: r)) as [[cp r']|] eqn:E.
    + f_equal. destruct r as [|b [|d r]]; try done. simpl in E. case_match; [|done]. simplify_eq.
      apply IH; simpl in *; lia.
    + f_equal. apply IH; simpl in *; lia.
Qed.

Lemma html_nil : html [] = [].
Proof. done. Qed.

Lemma html_cons c r :
  html (c :: r) = match separator (c :: r) with
                  | Some (cp, r') => unicode_escape cp ++ html r'
                  | None => (if html_special c then unicode_escape c else [c]) ++ html r
                  end.
Proof.
  unfold html. cbn [html_go length]. destruct (separator (c :: r)) as [[cp r']|] eqn:E; [|done].
  f_equal. apply html_go_enough; [|lia].
  destruct r as [|b [|d r]]; try done. simpl in E. case_match; [|done]. simplify_eq. simpl. lia.
Qed.

(** Characters that [html] leaves alone and that never belong to a separator. *)
Definition plain (c : Z) : Prop := c < 128 /\ html_special c = false.

Lemma separator_plain c r : plain c -> separator (c :: r) = None.
Proof. intros [Ha _]. destruct r as [|b [|d r]]; try done. simpl. destruct (Z.eqb_spec c 226); [lia|done]. Qed.

Lemma html_plain c r : plain c -> html (c :: r) = c :: html r.
Proof.
  intros Hc. rewrite html_cons. rewrite separator_plain by done.
  destruct Hc as [_ ->]. done.
Qed.

Lemma separator_app l c r : plain c ->
  separator (l ++ c :: r) = match l with
                            | [] => None
                            | _ => (fun p : Z * list Z => (p.1, p.2 ++ c :: r)) <$> separator l
                            end.
Proof.
  intros [Hc _]. destruct l as [|a [|b [|d l]]]; simpl.
  - destruct r as [|? [|? ?]]; try done. destruct (Z.eqb_spec c 226); [lia|done].
  - destruct r; [done|]. destruct (Z.eqb_spec c 128); [lia|]. by rewrite andb_false_r.
  - destruct (Z.eqb_spec c 168); [lia|]. destruct (Z.eqb_spec c 169); [lia|]. by rewrite andb_false_r.
  - by destruct (_ && _).
Qed.

Lemma html_app l c r : plain c -> html (l ++ c :: r) = html l ++ c :: html r.
Proof.
  intros Hc. remember (length l) as n eqn:En. assert (length l <= n)%nat as Hn by lia. clear En.
  revert l Hn. induction n as [|n IH]; intros l Hn.
  { destruct l; [|simpl in Hn; lia]. by apply html_plain. }
  destruct l as [|a l]; [by apply html_plain|]. cbn [app]. rewrite !html_cons.
  pose proof (separator_app (a :: l) c r Hc) as Hs. cbn [app] in Hs. rewrite Hs. clear Hs.
  destruct (separator (a :: l)) as [[cp r']|] eqn:E; simpl.
  - rewrite IH; [done|]. destruct l as [|b [|d l]]; try done. simpl in E.
    case_match; [|done]. simplify_eq. simpl in Hn. lia.
  - rewrite IH by (simpl in Hn; lia). by rewrite <- app_assoc.
Qed.

Lemma html_all_plain l : Forall plain l -> html l = l.
Proof. induction 1 as [|c l Hc Hl IH]; [done|]. rewrite html_plain by done. by rewrite IH. Qed.

Lemma html_join ls : html (join 44 ls) = join 44 (map html ls).
Proof.
  induction ls as [|l ls IH]; [done|]. destruct ls as [|l' ls]; [done|].
  cbn [map]. rewrite !join_cons2, html_app by done. by rewrite IH.
Qed.

Lemma print_num_plain n : Forall plain (print_num n).
Proof.
  assert (Hd : forall f n acc, Forall plain acc -> Forall plain (digits f n acc)).
  { induction f as [|f IH]; intros m acc Ha; [done|]. cbn [digits].
    assert (plain (48 + m `mod` 10)).
    { pose proof (Z.mod_pos_bound m 10 ltac:(lia)). split; [lia|]. unfold html_special.
      repeat match goal with |- context [?x =? ?y] => destruct (Z.eqb_spec x y); [lia|] end. done. }
    destruct (m <? 10); [by constructor|]. apply IH. by constructor. }
  unfold print_num, print_nat. destruct (n <? 0); [constructor; [done|]|]; by apply Hd.
Qed.

Definition html_escaped (l : list Z) : list Z := html (escaped l).

Lemma html_print_json v : html (stringify v) = print_json html_escaped v.
Proof.
  unfold stringify. induction v as [|[]|n|s|l IH|l IH] using json_rec_nested; try done.
  - apply html_all_plain, print_num_plain.
  - cbn [print_json]. unfold print_str_with. rewrite html_plain, html_app by done. done.
  - cbn [print_json]. rewrite html_plain, html_app, html_join by done. rewrite map_map.
    do 3 f_equal. induction IH as [|x l Hx Hl IH]; [done|]. simpl. by rewrite Hx, IH.
  - cbn [print_json]. rewrite html_plain, html_app, html_join by done. rewrite map_map.
    do 3 f_equal. induction IH as [|x l Hx Hl IH]; [done|]. cbn [map]. rewrite IH. f_equal.
    unfold print_str_with. cbn [app]. rewrite html_plain by done.
    rewrite <- !app_assoc. cbn [app]. rewrite html_app, html_plain, Hx by done. done.
Qed.

Lemma escape_plain c : 0 <= c -> c <> 226 -> forall r,
  html (escape c ++ r) = (if html_special c then unicode_escape c else escape c) ++ html r.
Proof.
  intros Hc0 Hc r. unfold escape.
  repeat match goal with
         | |- context [c =? ?y] => destruct (Z.eqb_spec c y) as [->|?];
             [cbn [app]; rewrite !html_plain by done; reflexivity|]
         end.
  destruct (Z.ltb_spec c 32) as [Hlt|Hge].
  - assert (html_special c = false) as -> by (unfold html_special; zcases; done).
    cbn [app]. rewrite !html_plain; try done.
    all: assert (Hh : forall d, 0 <= d < 16 -> plain (hex_digit d)) by
        (intros d Hd; unfold plain, hex_digit, html_special; destruct (Z.ltb_spec d 10); split; zcases; (lia || done)).
    all: apply Hh.
    + apply Z.mod_pos_bound. lia.
    + split; [apply Z.div_pos; lia|apply Z.div_lt_upper_bound; lia].
  - cbn [app]. rewrite html_cons.
    assert (separator (c :: r) = None) as ->.
    { destruct r as [|b [|d r]]; try done. simpl. destruct (Z.eqb_spec c 226); done. }
    done.
Qed.

Lemma parse_unicode_escape cp l : 0 <= cp < 55296 ->
  parse_str (unicode_escape cp ++ l) =
  match parse_str l with Some (s, r) => Some (utf8 cp ++ s, r) | None => None end.
Proof.
  intros Hc. unfold unicode_escape. cbn [app parse_str].
  change (92 =? 34) with false. change (92 =? 92) with true. change (117 =? 117) with true. cbn iota.
  assert (unhex4 (hex_digit (cp / 4096)) (hex_digit ((cp / 256) `mod` 16))
            (hex_digit ((cp / 16) `mod` 16)) (hex_digit (cp `mod` 16)) = Some cp) as ->.
  { unfold unhex4. rewrite !unhex_hex_digit.
    - f_equal. Z.to_euclidean_division_equations; lia.
    - apply Z.mod_pos_bound. lia.
    - apply Z.mod_pos_bound. lia.
    - apply Z.mod_pos_bound. lia.
    - split; [apply Z.div_pos; lia|apply Z.div_lt_upper_bound; lia]. }
  destruct (Z.leb_spec 55296 cp); [lia|]. destruct (Z.leb_spec 56320 cp); [lia|]. done.
Qed.

(** The escape of the first character is never a continuation byte, so a
    separator in the escaped text is one in the text. *)
Lemma separator_escaped r :
  separator (226 :: escaped r) = (fun p : Z * list Z => (p.1, escaped p.2)) <$> separator (226 :: r).
Proof.
  assert (Hlow : forall x l y m, escape x ++ l = y :: m -> y = x /\ m = l \/ y = 92).
  { intros x l y m. unfold escape. repeat case_match; cbn [app]; intros [= <- <-]; auto. }
  unfold escaped. destruct r as [|b r]; [done|]. rewrite bind_cons.
  destruct (escape b ++ (r ≫= escape)) as [|b' m] eqn:E.
  { unfold escape in E. repeat case_match; done. }
  destruct (Hlow _ _ _ _ E) as [[-> ->]|Hb]; cycle 1.
  { subst. assert (b <> 128). { intros ->. cbn in E. congruence. }
    destruct r as [|d r]; simpl; destruct m; simpl; destruct (Z.eqb_spec b 128); done. }
  destruct r as [|d r]; [done|]. rewrite bind_cons.
  destruct (escape d ++ (r ≫= escape)) as [|d' m] eqn:E2.
  { unfold escape in E2. repeat case_match; done. }
  destruct (Hlow _ _ _ _ E2) as [[-> ->]|Hd].
  { simpl. by destruct (_ && _). }
  subst. assert (d <> 168 /\ d <> 169) as [H1 H2].
  { split; intros ->; cbn in E2; congruence. }
  simpl. destruct (Z.eqb_spec d 168), (Z.eqb_spec d 169); try done.
  by rewrite !andb_false_r.
Qed.

Lemma html_escaped_parses (s : list Z) l : all_bytes s = true ->
  parse_str (html_escaped s ++ 34 :: l) = Some (s, l).
Proof.
  unfold html_escaped. remember (length s) as n eqn:En. assert (length s <= n)%nat as Hn by lia. clear En.
  revert s Hn. induction n as [|n IH]; intros s Hn Hs.
  { destruct s; [done|simpl in Hn; lia]. }
  destruct s as [|c s]; [done|]. cbn [all_bytes forallb] in Hs. apply andb_true_iff in Hs as [Hc Hs].
  apply is_byte_spec in Hc. destruct (decide (c = 226)) as [->|Hne].
  - change (escaped (226 :: s)) with (226 :: escaped s). rewrite html_cons, separator_escaped.
    destruct (separator (226 :: s)) as [[cp r]|] eqn:E; cbn -[unicode_escape html escaped html_special].
    + destruct s as [|b [|d s]]; try done. simpl in E. destruct (_ && _) eqn:Eb; [|done]. simplify_eq.
      apply andb_true_iff in Eb as [Eb Ed]. apply Z.eqb_eq in Eb as ->.
      cbn [all_bytes forallb] in Hs. apply andb_true_iff in Hs as [_ Hs].
      apply andb_true_iff in Hs as [_ Hs].
      rewrite <- app_assoc, parse_unicode_escape, IH; [|simpl in Hn; lia|done|].
      * f_equal. f_equal. apply orb_true_iff in Ed as [->%Z.eqb_eq| ->%Z.eqb_eq]; done.
      * apply orb_true_iff in Ed as [->%Z.eqb_eq| ->%Z.eqb_eq]; lia.
    + change (html_special 226) with false. cbn [app].
      change (226 :: html (escaped s) ++ 34 :: l) with (escape 226 ++ (html (escaped s) ++ 34 :: l)).
      rewrite parse_str_escape, IH by (done || simpl in Hn; lia). done.
  - change (escaped (c :: s)) with (escape c ++ escaped s). rewrite escape_plain by (done || lia).
    rewrite <- app_assoc. destruct (html_special c) eqn:E.
    + rewrite parse_unicode_escape, IH; [|simpl in Hn; lia|done|lia].
      unfold html_special in E. rewrite !orb_true_iff in E.
      destruct E as [[->%Z.eqb_eq| ->%Z.eqb_eq]| ->%Z.eqb_eq]; done.
    + rewrite parse_str_escape, IH by (done || simpl in Hn; lia). done.
Qed.

(** The canonical text of a value parses back to it. *)
Lemma parse_canonicalJSON v : parse (canonicalJSON v) = Some v.
Proof.
  unfold canonicalJSON. rewrite html_print_json. apply parse_print_json.
  intros s l. apply html_escaped_parses, bytes_of_range.
Qed.

Lemma canonicalJSON_inj v w : canonicalJSON v = canonicalJSON w -> v = w.
Proof. intros H. apply (f_equal parse) in H. rewrite !parse_canonicalJSON in H. congruence. Qed.

(** [equalJSON] ignores the order of members, and nothing else. *)
Lemma equalJSON_spec a b : equalJSON a b = true <-> sort_json a = sort_json b.
Proof.
  unfold equalJSON. rewrite bool_decide_eq_true. split; [apply canonicalJSON_inj|congruence].
Qed.

Lemma equalJSON_refl a : equalJSON a a = true.
Proof. by apply equalJSON_spec. Qed.

Lemma equalJSON_trans a b c : equalJSON a b = true -> equalJSON b c = true -> equalJSON a c = true.
Proof. rewrite !equalJSON_spec. congruence. Qed.

(** Equal values have equal members, up to the order inside them. *)
Lemma assoc_last_app k l m : assoc_last k (l ++ m) = match assoc_last k m with Some v => Some v | None => assoc_last k l end.
Proof. induction l as [|[k' v] l IH]; cbn [app assoc_last]; [by destruct (assoc_last k m)|]. rewrite IH. by destruct (assoc_last k m). Qed.

Lemma assoc_last_map (f : json -> json) k l :
  assoc_last k (map (fun kv => (kv.1, f kv.2)) l) = f <$> assoc_last k l.
Proof.
  induction l as [|[k' v] l IH]; simpl; [done|]. rewrite IH. destruct (assoc_last k l); simpl; [done|].
  by case_decide.
Qed.

Lemma assoc_last_pick_keys (g : string -> option json) k ks :
  assoc_last k (omap (fun k => (fun x => (k, x)) <$> g k) ks) = if decide (k ∈ ks) then g k else None.
Proof.
  set (pick := fun k : string => (fun x : json => (k, x)) <$> g k) in *.
  induction ks as [|k0 ks IH]; [done|].
  change (omap pick (k0 :: ks)) with (match pick k0 with Some y => y :: omap pick ks | None => omap pick ks end).
  assert (pick k0 = (fun x : json => (k0, x)) <$> g k0) as -> by done.
  destruct (g k0) as [x|] eqn:E; cbn [fmap option_fmap option_map assoc_last]; rewrite IH.
  - destruct (decide (k = k0)) as [->|Hne].
    + rewrite (decide_True (P := k0 ∈ k0 :: ks)) by (left). case_decide; [|by rewrite E].
      destruct (g k0); [done|]. by simplify_eq.
    + destruct (decide (k ∈ ks)).
      * rewrite (decide_True (P := k ∈ k0 :: ks)) by (by right). by destruct (g k).
      * rewrite decide_False by (rewrite elem_of_cons; naive_solver). done.
  - destruct (decide (k ∈ ks)).
    + by rewrite (decide_True (P := k ∈ k0 :: ks)) by (by right).
    + destruct (decide (k = k0)) as [->|].
      * case_decide; [by rewrite E|done].
      * rewrite decide_False by (rewrite elem_of_cons; naive_solver). done.
Qed.

Lemma assoc_last_elem k l v : assoc_last k l = Some v -> k ∈ l.*1.
Proof.
  induction l as [|[k' x] l IH]; simpl; [done|]. rewrite elem_of_cons.
  destruct (assoc_last k l); [intros; right; auto|]. case_decide; [by left|done].
Qed.

Lemma field_sort_json k v : field k (sort_json v) = sort_json <$> field k v.
Proof.
  destruct v; try done. cbn [sort_json field]. rewrite assoc_last_pick_keys, assoc_last_map.
  case_decide as Hin; [done|]. destruct (assoc_last k l) as [x|] eqn:E; [|done].
  exfalso. apply Hin. unfold sorted_keys. rewrite merge_sort_Permutation.
  apply elem_of_remove_dups. by eapply assoc_last_elem.
Qed.

Lemma equalJSON_field a b k : equalJSON a b = true ->
  match field k a, field k b with
  | Some x, Some y => equalJSON x y = true
  | None, None => True
  | _, _ => False
  end.
Proof.
  rewrite equalJSON_spec. intros H. apply (f_equal (field k)) in H. rewrite !field_sort_json in H.
  destruct (field k a), (field k b); simpl in H; try done. apply equalJSON_spec. congruence.
Qed.

Lemma sort_json_primitive v : primitive v = true -> sort_json v = v.
Proof. by destruct v. Qed.
