(* ===== verification/Crypto.v ===== *)
(** * Wire cryptography ([crypto.js])

    The byte formats around the primitives: base 64 and its URL form, key texts,
    fingerprints, the boxes with their nonce in front, and the proofs of a device
    link.  The primitives themselves (tweetnacl, @noble/hashes) are the parameters
    [nacl] and [hashes]; a law about them is a hypothesis of the theorem that
    needs it.  Here are also the two pieces of the language that this code adds:
    the decoder that replaces ill-formed UTF-8, and the white space of [trim] and
    [\s]. *)

From stdpp Require Import base list strings.
From Stdlib Require Import ZArith Lia.
From S2P Require Import Prelude Json Text.

(** ** The language *)

(** White space of [trim()] and of [\s] in a regular expression. *)
Definition is_space (cp : Z) : bool :=
  ((9 <=? cp) && (cp <=? 13)) || (cp =? 32) || (cp =? 160) || (cp =? 5760) || ((8192 <=? cp) && (cp <=? 8202)) ||
  (cp =? 8232) || (cp =? 8233) || (cp =? 8239) || (cp =? 8287) || (cp =? 12288) || (cp =? 65279).

Fixpoint drop_spaces (l : list Z) : list Z :=
  match l with
  | c :: r => if is_space c then drop_spaces r else l
  | [] => []
  end.

(** [s.trim()]. *)
Definition trim (s : string) : string :=
  match code_points (bytes_of s) with
  | Some l => text (reverse (drop_spaces (reverse (drop_spaces l))) ≫= utf8)
  | None => s
  end.

(** [s.replace(/\s+/g, "")], kept as code points. *)
Definition without_spaces (s : string) : option (list Z) :=
  filter (fun c => is_space c = false) <$> code_points (bytes_of s).

(** [new TextDecoder().decode(bytes)]: an ill-formed sequence becomes U+FFFD,
    and the decoder starts over at the byte that broke it; a byte order mark at
    the start is dropped. *)
Definition replacement : list Z := [239; 191; 189].

Inductive utf8_state :=
| Start
| Need (more : nat) (lo hi : Z) (seen : list Z).

Definition start_byte (b : Z) : list Z * utf8_state :=
  if b <? 128 then ([b], Start)
  else if (194 <=? b) && (b <? 224) then ([], Need 0 128 191 [b])
  else if (224 <=? b) && (b <? 240) then ([], Need 1 (if b =? 224 then 160 else 128) (if b =? 237 then 159 else 191) [b])
  else if (240 <=? b) && (b <? 245) then ([], Need 2 (if b =? 240 then 144 else 128) (if b =? 244 then 143 else 191) [b])
  else (replacement, Start).

Definition utf8_byte (st : utf8_state) (b : Z) : list Z * utf8_state :=
  match st with
  | Start => start_byte b
  | Need more lo hi seen =>
    if (lo <=? b) && (b <=? hi) then
      match more with
      | O => (seen ++ [b], Start)
      | S n => ([], Need n 128 191 (seen ++ [b]))
      end
    else (replacement ++ fst (start_byte b), snd (start_byte b))
  end.

Fixpoint decode_from (st : utf8_state) (l : list Z) : list Z :=
  match l with
  | [] => match st with Start => [] | Need _ _ _ _ => replacement end
  | b :: r => fst (utf8_byte st b) ++ decode_from (snd (utf8_byte st b)) r
  end.

Definition without_mark (l : list Z) : list Z := match l with 239 :: 187 :: 191 :: r => r | _ => l end.
Definition decode (l : list Z) : string := text (decode_from Start (without_mark l)).

(** ** Base 64 *)

Definition replace_char (a b : Z) (l : list Z) : list Z := map (fun c => if c =? a then b else c) l.

(** [text.replace(/=+$/, "")]. *)
Fixpoint drop_equals (l : list Z) : list Z :=
  match l with
  | 61 :: r => drop_equals r
  | _ => l
  end.
Definition strip_trailing_equals (l : list Z) : list Z := reverse (drop_equals (reverse l)).

Definition toBase64URL (bytes : list Z) : string :=
  text (strip_trailing_equals (replace_char 47 95 (replace_char 43 45 (b64 bytes)))).

Definition fromBase64URL (s : string) : option (list Z) :=
  let padded := replace_char 95 47 (replace_char 45 43 (bytes_of s)) in
  atob (text (padded ++ repeat 61 (Z.to_nat ((4 - utf16_length (text padded) `mod` 4) `mod` 4)))).

(** ** Primitives *)

Record hashes := Hashes {
  sha256 : list Z -> list Z;
  hmac : list Z -> list Z -> list Z;                     (* hmac(sha256, key, message) *)
  blake2b : list Z -> list Z                             (* dkLen: 24 *)
}.

Record nacl := Nacl {
  secretbox : list Z -> list Z -> list Z -> list Z;                  (* message, nonce, key *)
  secretbox_open : list Z -> list Z -> list Z -> option (list Z);
  box : list Z -> list Z -> list Z -> list Z -> list Z;              (* message, nonce, public, secret *)
  box_open : list Z -> list Z -> list Z -> list Z -> option (list Z);
  sign_detached : list Z -> list Z -> list Z;                        (* message, secret *)
  verify_detached : list Z -> list Z -> list Z -> bool               (* message, signature, public *)
}.

(** [nacl.box.overheadLength] *)
Definition overheadLength : Z := 16.

Definition line (s : string) : list Z := bytes_of s ++ [10].

(** The lines of a signed statement, joined by a line feed. *)
Definition joined (l : list string) : list Z := join 10 (map bytes_of l).

Definition publicKeyPEM (raw : list Z) : string :=
  text (line "-----BEGIN PUBLIC KEY-----" ++ b64 raw ++ [10] ++ line "-----END PUBLIC KEY-----").

Definition linkClaimTranscript (linkID edPublicPEM xPublicB64 : string) : list Z :=
  joined ["noxa-device-link-claim-v1"; linkID; edPublicPEM; xPublicB64]%string.

Section crypto.
Variable hs : hashes.
Variable nc : nacl.

Definition uniqueIDFromPublicKey (raw : list Z) : string := toBase64 (bytes_of (toBase64 (sha256 hs raw))).

(** The first 16 hexadecimal digits of the hash of the trimmed key text, in fours. *)
Definition keyFingerprint (pem : string) : string :=
  let h := bytes_of (hex_text (take 8 (sha256 hs (bytes_of (trim pem))))) in
  text (take 4 h ++ 32 :: take 4 (drop 4 h) ++ 32 :: take 4 (drop 8 h) ++ 32 :: take 4 (drop 12 h)).

(** ** Boxes; the nonce is [nacl.randomBytes(24)] *)

Definition openSealed (sealed xPublic xSecret : list Z) : option (list Z) :=
  if Z.of_nat (length sealed) <? 32 + overheadLength then None
  else
    let ephemeral := take 32 sealed in
    box_open nc (drop 32 sealed) (blake2b hs (ephemeral ++ xPublic)) ephemeral xSecret.

Definition sealScope (nonce : list Z) (s : string) (key : list Z) : string :=
  toBase64 (nonce ++ secretbox nc (bytes_of s) nonce key).

(** A text that is no base 64 throws. *)
Definition openScope (blobB64 : string) (key : list Z) : option (option string) :=
  (fun raw => if Z.of_nat (length raw) <? 24 then None else decode <$> secretbox_open nc (drop 24 raw) (take 24 raw) key) <$> atob blobB64.

Definition sealDM (nonce : list Z) (s : string) (recipientPublic senderSecret : list Z) : string :=
  toBase64 (nonce ++ box nc (bytes_of s) nonce recipientPublic senderSecret).

Definition openDM (blobB64 : string) (senderPublic recipientSecret : list Z) : option (option string) :=
  (fun raw => if Z.of_nat (length raw) <? 24 then None
              else decode <$> box_open nc (drop 24 raw) (take 24 raw) senderPublic recipientSecret) <$> atob blobB64.

(** ** Device linking *)

Definition linkProof (linkKey transcript : list Z) : list Z := hmac hs linkKey transcript.

Definition linkSAS (linkKey transcript : list Z) : string :=
  let sum := hmac hs linkKey (line "noxa-device-link-sas-v1" ++ transcript) in
  let n := (nth 0 sum 0 * 256 + nth 1 sum 0) `mod` 100 in
  text ((if n <? 10 then [48] else []) ++ print_num n).

End crypto.

(** ** Base 64 is undone *)

Lemma byte_list_ind (P : list Z -> Prop) :
  P [] -> (forall a, P [a]) -> (forall a b, P [a; b]) -> (forall a b c r, P r -> P (a :: b :: c :: r)) -> forall l, P l.
Proof.
  intros H0 H1 H2 H3. fix IH 1. intros [|a [|b [|c r]]]; [done|apply H1|apply H2|apply H3, IH].
Qed.

Lemma zforall_below (P : Z -> bool) n : forallb P (seqZ 0 n) = true -> forall x, 0 <= x < n -> P x = true.
Proof. intros H x Hx. rewrite forallb_forall in H. apply H, list_elem_of_In, elem_of_seqZ. lia. Qed.

(** The characters of base 64 text: none is white space, a URL character, or a delimiter of a file token. *)
Definition b64_digit (c : Z) : bool :=
  (33 <=? c) && (c <? 128) && negb (c =? 34) && negb (c =? 92) && negb (is_ws c) && negb (c =? 12) && negb (c =? 45) && negb (c =? 95) && negb (c =? 61) &&
  negb (c =? 35) && negb (c =? 93).

Lemma b64_char_digit x : 0 <= x < 64 -> b64_digit (b64_char x) = true.
Proof. apply (zforall_below (fun x => b64_digit (b64_char x))). by vm_compute. Qed.

(** Base 64 text is digits, then up to two signs of padding that fill a group. *)
Lemma b64_shape l : all_bytes l = true ->
  exists body pad, b64 l = body ++ repeat 61 pad /\ (pad <= 2)%nat /\ forallb b64_digit body = true /\ unb64_groups body = Some l /\ Z.of_nat (length body + pad) `mod` 4 = 0.
Proof.
  induction l as [|a|a b|a b c r IH] using byte_list_ind; unfold all_bytes; cbn [forallb]; rewrite ?andb_true_iff, ?is_byte_spec.
  - intros _. exists [], 0%nat. split_and!; done || lia.
  - intros [Ha _]. pose proof (b64_group2 a 0 Ha ltac:(lia)) as (X & Y & _ & E & _ & _).
    assert (Hx : 0 <= a * 16 / 64 < 64 /\ 0 <= (a * 16) `mod` 64 < 64 /\ (a * 16 / 64 * 64 + (a * 16) `mod` 64) / 16 = a)
      by (split_and!; Z.to_euclidean_division_equations; lia).
    destruct Hx as (H1 & H2 & H3).
    exists [b64_char (a * 16 / 64); b64_char ((a * 16) `mod` 64)], 2%nat. split_and!; [done|lia| | |done].
    + cbn [forallb]. by rewrite !b64_char_digit.
    + cbn [unb64_groups]. rewrite !b64_val_char by done. by rewrite H3.
  - intros (Ha & Hb & _). pose proof (b64_group2 a b Ha Hb) as (X & Y & Z & E1 & E2 & E3).
    eexists [_; _; _], 1%nat. split_and!; [reflexivity|lia| | |done].
    + cbn [forallb]. by rewrite !b64_char_digit.
    + cbn [unb64_groups]. rewrite !b64_val_char by done. cbv zeta. by rewrite E1, E2, E3.
  - intros (Ha & Hb & Hc & Hr). destruct (IH Hr) as (body & pad & E & Hp & Hd & Hu & Hm).
    pose proof (b64_group3 a b c Ha Hb Hc) as (X & Y & Z & W & E0 & E1 & E2 & E3).
    cbn [b64]. rewrite E. eexists (_ :: _ :: _ :: _ :: body), pad. split_and!; [reflexivity|done| | |].
    + cbn [forallb]. by rewrite !b64_char_digit.
    + cbn [unb64_groups]. rewrite !b64_val_char by done. rewrite Hu. cbv zeta. by rewrite E0, E1, E2, E3.
    + cbn [length]. rewrite !Nat2Z.inj_add, !Nat2Z.inj_succ in *. Z.to_euclidean_division_equations. lia.
Qed.

Lemma b64_digit_spec c : b64_digit c = true -> 33 <= c < 128 /\ is_ws c || (c =? 12) = false /\ c <> 45 /\ c <> 95 /\ c <> 61 /\ escape c = [c].
Proof. unfold b64_digit. rewrite !andb_true_iff, !negb_true_iff. intros H. destruct_and!. rewrite orb_false_iff. split_and!; try lia; [done|]. unfold escape. by zcases. Qed.

Lemma filter_id {A} (P : A -> Prop) `{!forall x, Decision (P x)} (l : list A) : Forall P l -> filter P l = l.
Proof. induction 1 as [|x l Hx _ IH]; [done|]. rewrite filter_cons_True by done. by rewrite IH. Qed.

Lemma strip_none c (r l : list Z) : c <> 61 ->
  match c :: r with 61 :: 61 :: r => reverse r | 61 :: r => reverse r | _ => l end = l.
Proof. intros Hc. destruct c as [|p|p]; try done. do 6 (destruct p as [p|p|]; try done). Qed.

Lemma strip_one c (r l : list Z) : c <> 61 ->
  match 61 :: c :: r with 61 :: 61 :: r => reverse r | 61 :: r => reverse r | _ => l end = reverse (c :: r).
Proof. intros Hc. destruct c as [|p|p]; try done. do 6 (destruct p as [p|p|]; try done). Qed.

(** [atob] is undone by [toBase64]. *)
Lemma atob_toBase64 l : all_bytes l = true -> atob (toBase64 l) = Some l.
Proof.
  intros Hl. destruct (b64_shape l Hl) as (body & pad & E & Hp & Hd & Hu & Hm). unfold atob, toBase64, text.
  assert (Hall : Forall (fun c => b64_digit c = true \/ c = 61) (b64 l)).
  { rewrite E, Forall_app. split; [|clear; induction pad as [|n IH]; constructor; auto]. apply Forall_forall. intros c Hc. left.
    rewrite forallb_forall in Hd. by apply Hd, list_elem_of_In. }
  rewrite bytes_of_string_of.
  2: { unfold all_bytes. apply forallb_forall. intros c Hc. apply is_byte_spec. rewrite Forall_forall in Hall. apply list_elem_of_In in Hc.
       destruct (Hall c Hc) as [Hx| ->]; [|lia]. apply b64_digit_spec in Hx. lia. }
  rewrite filter_id by (eapply Forall_impl; [exact Hall|]; intros c [Hc| ->]; [by apply b64_digit_spec in Hc as (_ & -> & _)|done]).
  unfold strip_padding. rewrite E. rewrite length_app, repeat_length. rewrite (proj2 (Z.eqb_eq _ _) Hm).
  rewrite reverse_app. replace (reverse (repeat 61 pad)) with (repeat 61 pad).
  2: { destruct pad as [|[|[|]]]; [done..|lia]. }
  rewrite <- (reverse_involutive body) in Hd, Hu |- *. destruct (reverse body) as [|c r]; [by destruct pad as [|[|[|]]]; [..|lia]|].
  assert (Hc : c <> 61). { rewrite reverse_cons, forallb_app in Hd. apply andb_true_iff in Hd as [_ Hd]. cbn [forallb] in Hd.
    rewrite andb_true_r in Hd. by apply b64_digit_spec in Hd as (_ & _ & _ & _ & ? & _). }
  rewrite reverse_involutive. destruct pad as [|[|[|]]]; cbn [repeat app]; [| | |lia].
  - rewrite strip_none by done. by rewrite app_nil_r.
  - by rewrite strip_one.
  - done.
Qed.

(** ** Well-formed text is decoded as it is *)

Lemma decode_well_formed l : all_bytes l = true -> is_Some (code_points l) -> decode_from Start l = l.
Proof.
  induction l as [l IH] using (induction_ltof1 _ (@length Z)). unfold ltof in IH. intros Hb Hs.
  destruct l as [|a r]; [done|]. unfold all_bytes in Hb. cbn [forallb] in Hb. apply andb_true_iff in Hb as [Ha Hb].
  apply is_byte_spec in Ha. cbn [code_points] in Hs. cbn [decode_from utf8_byte]. unfold start_byte.
  destruct (a <? 128) eqn:A1.
  { cbn [fst snd app]. rewrite IH; [done|cbn; lia|done|]. by apply fmap_is_Some in Hs. }
  destruct ((194 <=? a) && (a <? 224)) eqn:A2.
  { destruct r as [|b r]; [by destruct Hs|]. destruct (continuation b) eqn:Cb; [|by destruct Hs]. apply fmap_is_Some in Hs.
    cbn [fst snd app decode_from utf8_byte]. unfold continuation in Cb.
    replace ((128 <=? b) && (b <=? 191)) with true by (symmetry; apply andb_true_iff in Cb as [? ?]; apply andb_true_iff; lia).
    cbn [fst snd app]. cbn [forallb] in Hb. apply andb_true_iff in Hb as [_ Hb]. rewrite IH; [done|cbn; lia|done|done]. }
  destruct ((224 <=? a) && (a <? 240)) eqn:A3.
  { destruct r as [|b [|c r]]; [by destruct Hs..|]. 
    destruct (continuation b && continuation c && _ && _) eqn:C; [|by destruct Hs]. apply fmap_is_Some in Hs.
    unfold continuation in C. rewrite !andb_true_iff, negb_true_iff in C. destruct_and!. rewrite andb_true_iff in A3. destruct A3.
    cbn [fst snd app decode_from utf8_byte]. rewrite andb_false_iff in *.
    match goal with |- context [(?lo <=? b) && (b <=? ?hi)] => replace ((lo <=? b) && (b <=? hi)) with true
      by (symmetry; apply andb_true_iff; destruct (a =? 224) eqn:?, (a =? 237) eqn:?; split; lia) end.
    cbn [fst snd app decode_from utf8_byte].
    replace ((128 <=? c) && (c <=? 191)) with true by (symmetry; apply andb_true_iff; lia).
    cbn [fst snd app]. cbn [forallb] in Hb. rewrite !andb_true_iff in Hb. destruct Hb as (_ & _ & Hb). rewrite IH; [done|cbn; lia|done|done]. }
  destruct ((240 <=? a) && (a <? 245)) eqn:A4; [|by destruct Hs].
  destruct r as [|b [|c [|d r]]]; [by destruct Hs..|].
  destruct (continuation b && continuation c && continuation d && _ && _) eqn:C; [|by destruct Hs]. apply fmap_is_Some in Hs.
  unfold continuation in C. rewrite !andb_true_iff in C. destruct_and!. rewrite andb_true_iff in A4. destruct A4.
  cbn [fst snd app decode_from utf8_byte].
  match goal with |- context [(?lo <=? b) && (b <=? ?hi)] => replace ((lo <=? b) && (b <=? hi)) with true
    by (symmetry; apply andb_true_iff; destruct (a =? 240) eqn:?, (a =? 244) eqn:?; split; lia) end.
  cbn [fst snd app decode_from utf8_byte].
  replace ((128 <=? c) && (c <=? 191)) with true by (symmetry; apply andb_true_iff; lia). cbn [fst snd app decode_from utf8_byte].
  replace ((128 <=? d) && (d <=? 191)) with true by (symmetry; apply andb_true_iff; lia). cbn [fst snd app].
  cbn [forallb] in Hb. rewrite !andb_true_iff in Hb. destruct Hb as (_ & _ & _ & Hb). rewrite IH; [done|cbn; lia|done|done].
Qed.

(** A text is well-formed, and does not start with a byte order mark. *)
Definition plain_text (s : string) : Prop := is_Some (code_points (bytes_of s)) /\ without_mark (bytes_of s) = bytes_of s.

Lemma decode_text s : plain_text s -> decode (bytes_of s) = s.
Proof.
  intros [Hs Hm]. unfold decode, text. rewrite Hm, decode_well_formed; [apply string_of_bytes_of|apply bytes_of_range|done].
Qed.

(** ** Bytes of a decoded text, and lines *)

Lemma b64_val_range c x : b64_val c = Some x -> 0 <= x < 64.
Proof. unfold b64_val. zcases; intros [= <-]; lia. Qed.

Lemma unb64_bytes l out : unb64_groups l = Some out -> all_bytes out = true.
Proof.
  revert out. induction l as [l IH] using (induction_ltof1 _ (@length Z)). unfold ltof in IH. intros out.
  destruct l as [|c1 [|c2 [|c3 [|c4 r]]]]; cbn [unb64_groups]; try done.
  - by intros [= <-].
  - destruct (b64_val c1) as [x|] eqn:E1, (b64_val c2) as [y|] eqn:E2; try done. apply b64_val_range in E1, E2. intros [= <-].
    unfold all_bytes. cbn [forallb]. rewrite andb_true_r. apply is_byte_spec. Z.to_euclidean_division_equations. lia.
  - destruct (b64_val c1) as [x|] eqn:E1, (b64_val c2) as [y|] eqn:E2, (b64_val c3) as [z|] eqn:E3; try done. apply b64_val_range in E1, E2, E3.
    cbv zeta. intros [= <-]. unfold all_bytes. cbn [forallb]. rewrite andb_true_r, andb_true_iff, !is_byte_spec. Z.to_euclidean_division_equations. lia.
  - destruct (b64_val c1) as [x|] eqn:E1, (b64_val c2) as [y|] eqn:E2, (b64_val c3) as [z|] eqn:E3, (b64_val c4) as [w|] eqn:E4; try done.
    apply b64_val_range in E1, E2, E3, E4. destruct (unb64_groups r) as [o|] eqn:Er; [|done]. apply IH in Er; [|cbn; lia].
    cbv zeta. intros [= <-]. unfold all_bytes in *. cbn [forallb]. rewrite Er, andb_true_r, !andb_true_iff, !is_byte_spec. Z.to_euclidean_division_equations. lia.
Qed.

Lemma atob_bytes s l : atob s = Some l -> all_bytes l = true.
Proof. apply unb64_bytes. Qed.

(** A text of one line. *)
Definition one_line (s : string) : Prop := 10 ∉ bytes_of s.

Lemma b64_chars l : all_bytes l = true -> Forall (fun c => b64_digit c = true \/ c = 61) (b64 l).
Proof.
  intros Hl. destruct (b64_shape l Hl) as (body & pad & -> & _ & Hd & _). apply Forall_app. split.
  - apply Forall_forall. intros c Hc. left. rewrite forallb_forall in Hd. by apply Hd, list_elem_of_In.
  - clear. induction pad as [|n IH]; constructor; auto.
Qed.

Lemma b64_text_bytes l : all_bytes l = true -> bytes_of (toBase64 l) = b64 l.
Proof.
  intros Hl. apply bytes_of_string_of. unfold all_bytes. apply forallb_forall. intros c Hc%list_elem_of_In. apply is_byte_spec.
  pose proof (b64_chars l Hl) as H. rewrite Forall_forall in H. destruct (H c Hc) as [Hx| ->]; [|lia]. apply b64_digit_spec in Hx. lia.
Qed.

Lemma one_line_b64 l : all_bytes l = true -> one_line (toBase64 l).
Proof.
  intros Hl Hin. rewrite b64_text_bytes in Hin by done. pose proof (b64_chars l Hl) as H. rewrite Forall_forall in H. by destruct (H 10 Hin).
Qed.

(** A line feed of well-formed text is a character of it. *)
Lemma code_points_lf l cps : code_points l = Some cps -> 10 ∈ l -> 10 ∈ cps.
Proof.
  revert cps. induction l as [l IH] using (induction_ltof1 _ (@length Z)). unfold ltof in IH. intros cps.
  destruct l as [|a r]; [by intros _ ?%elem_of_nil|]. cbn [code_points]. destruct (a <? 128) eqn:A1.
  { intros (cs & E & ->)%fmap_Some. rewrite !elem_of_cons. intros [->|H]; [by left|right]. eapply IH; [|done|done]. cbn. lia. }
  destruct ((194 <=? a) && _) eqn:A2.
  { destruct r as [|b r]; [done|]. destruct (continuation b) eqn:Cb; [|done]. unfold continuation in Cb. rewrite andb_true_iff in Cb.
    intros (cs & E & ->)%fmap_Some. rewrite !elem_of_cons. intros [?|[?|H10]]; [lia..|]. right. eapply IH; [|done|done]. cbn. lia. }
  destruct ((224 <=? a) && _) eqn:A3.
  { destruct r as [|b [|c r]]; [done..|]. destruct (_ && _ && _ && _) eqn:C; [|done]. unfold continuation in C. rewrite !andb_true_iff in C. destruct_and!.
    intros (cs & E & ->)%fmap_Some. rewrite !elem_of_cons. intros [?|[?|[?|H10]]]; [lia..|]. right. eapply IH; [|done|done]. cbn. lia. }
  destruct ((240 <=? a) && _) eqn:A4; [|done].
  destruct r as [|b [|c [|d r]]]; [done..|]. destruct (_ && _ && _ && _ && _) eqn:C; [|done]. unfold continuation in C. rewrite !andb_true_iff in C. destruct_and!.
  intros (cs & E & ->)%fmap_Some. rewrite !elem_of_cons. intros [?|[?|[?|[?|H10]]]]; [lia..|]. right. eapply IH; [|done|done]. cbn. lia.
Qed.

Lemma one_line_text s : has_class is_Cc s = false -> one_line s.
Proof.
  unfold has_class, one_line. destruct (code_points _) as [cps|] eqn:E; [|done]. intros H Hin. apply (code_points_lf _ _ E) in Hin.
  apply not_true_iff_false in H. apply H, existsb_exists. exists 10. split; [by apply list_elem_of_In|done].
Qed.

(** ** Well-formed UTF-8 *)

Definition well_formed (l : list Z) : Prop := is_Some (code_points l).

(** What follows a whole character does not matter to it. *)
Lemma well_formed_ind (P : list Z -> Prop) :
  P [] -> (forall a r, a < 128 -> well_formed r -> P r -> P (a :: r)) ->
  (forall a b r, 128 <= a -> 128 <= b -> (forall r', well_formed r' -> well_formed (a :: b :: r')) -> P r -> P (a :: b :: r)) ->
  (forall a b c r, 128 <= a -> 128 <= b -> 128 <= c -> (forall r', well_formed r' -> well_formed (a :: b :: c :: r')) -> P r -> P (a :: b :: c :: r)) ->
  (forall a b c d r, 128 <= a -> 128 <= b -> 128 <= c -> 128 <= d -> (forall r', well_formed r' -> well_formed (a :: b :: c :: d :: r')) -> P r ->
     P (a :: b :: c :: d :: r)) ->
  forall l, well_formed l -> P l.
Proof.
  intros H0 H1 H2 H3 H4 l. induction l as [l IH] using (induction_ltof1 _ (@length Z)). unfold ltof in IH. unfold well_formed.
  destruct l as [|a r]; [done|]. cbn [code_points]. destruct (a <? 128) eqn:A1.
  { rewrite fmap_is_Some. intros Hr. apply H1; [lia|done|]. apply IH; [cbn; lia|done]. }
  destruct ((194 <=? a) && _) eqn:A2.
  { destruct r as [|b r]; [by intros [? ?]|]. destruct (continuation b) eqn:Cb; [|by intros [? ?]]. rewrite fmap_is_Some. intros Hr.
    unfold continuation in Cb. pose proof Cb as Cb'. rewrite andb_true_iff in Cb'. apply H2; [lia..| |apply IH; [cbn; lia|done]].
    intros r' Hr'. unfold well_formed. cbn [code_points]. rewrite A1, A2. unfold continuation. rewrite Cb. by rewrite fmap_is_Some. }
  destruct ((224 <=? a) && _) eqn:A3.
  { destruct r as [|b [|c r]]; [by intros [? ?]..|]. destruct (_ && _ && _ && _) eqn:C; [|by intros [? ?]]. rewrite fmap_is_Some. intros Hr.
    pose proof C as C'. unfold continuation in C'. rewrite !andb_true_iff in C'. destruct_and!. apply H3; [lia..| |apply IH; [cbn; lia|done]].
    intros r' Hr'. unfold well_formed. cbn [code_points]. rewrite A1, A2, A3. cbv zeta. rewrite C. by rewrite fmap_is_Some. }
  destruct ((240 <=? a) && _) eqn:A4; [|by intros [? ?]].
  destruct r as [|b [|c [|d r]]]; [by intros [? ?]..|]. destruct (_ && _ && _ && _ && _) eqn:C; [|by intros [? ?]]. rewrite fmap_is_Some. intros Hr.
  pose proof C as C'. unfold continuation in C'. rewrite !andb_true_iff in C'. destruct_and!. apply H4; [lia..| |apply IH; [cbn; lia|done]].
  intros r' Hr'. unfold well_formed. cbn [code_points]. rewrite A1, A2, A3, A4. cbv zeta. rewrite C. by rewrite fmap_is_Some.
Qed.

Lemma well_formed_cons a r : a < 128 -> well_formed r -> well_formed (a :: r).
Proof. unfold well_formed. intros Ha Hr. cbn [code_points]. rewrite (proj2 (Z.ltb_lt _ _) Ha). by rewrite fmap_is_Some. Qed.

Lemma well_formed_app l r : well_formed l -> well_formed r -> well_formed (l ++ r).
Proof. intros Hl Hr. revert l Hl. apply well_formed_ind; cbn [app]; auto using well_formed_cons. Qed.

Lemma well_formed_ascii l : Forall (fun c => c < 128) l -> well_formed l.
Proof. induction 1; [by exists []|by apply well_formed_cons]. Qed.

Lemma escape_ascii c : c < 128 -> Forall (fun x => x < 128) (escape c).
Proof.
  intros Hc. unfold escape. repeat match goal with |- context [if ?b then _ else _] => destruct b eqn:? end; repeat constructor; try lia.
  all: unfold hex_digit; zcases; Z.to_euclidean_division_equations; lia.
Qed.

Lemma escape_high c : 128 <= c -> escape c = [c].
Proof. intros Hc. unfold escape. by zcases. Qed.

Lemma well_formed_escaped l : well_formed l -> well_formed (escaped l).
Proof.
  unfold escaped. revert l. apply well_formed_ind; [by exists []|..]; intros; cbn [mbind list_bind]; rewrite ?escape_high by done; cbn [app]; auto.
  apply well_formed_app; [by apply well_formed_ascii, escape_ascii|done].
Qed.

(** A text has no more UTF-16 units than bytes. *)
Lemma utf16_points l cps : code_points l = Some cps ->
  foldr (fun cp n => (if cp <? 65536 then 1 else 2) + n) 0 cps <= Z.of_nat (length l).
Proof.
  revert cps. induction l as [l IH] using (induction_ltof1 _ (@length Z)). unfold ltof in IH. intros cps.
  destruct l as [|a r]; [by intros [= <-]|]. cbn [code_points]. destruct (a <? 128) eqn:A1.
  { intros (cs & E & ->)%fmap_Some. apply IH in E; [|cbn; lia]. cbn [foldr length]. zcases; lia. }
  destruct ((194 <=? a) && _) eqn:A2.
  { destruct r as [|b r]; [done|]. destruct (continuation b) eqn:Cb; [|done]. intros (cs & E & ->)%fmap_Some. apply IH in E; [|cbn; lia].
    cbn [foldr length]. case_match; lia. }
  destruct ((224 <=? a) && _) eqn:A3.
  { destruct r as [|b [|c r]]; [done..|]. destruct (_ && _ && _ && _) eqn:C; [|done]. intros (cs & E & ->)%fmap_Some. apply IH in E; [|cbn; lia].
    cbn [foldr length]. case_match; lia. }
  destruct ((240 <=? a) && _) eqn:A4; [|done].
  destruct r as [|b [|c [|d r]]]; [done..|]. destruct (_ && _ && _ && _ && _) eqn:C; [|done]. intros (cs & E & ->)%fmap_Some. apply IH in E; [|cbn; lia].
  cbn [foldr length]. case_match; lia.
Qed.

Lemma bytes_of_length s : length (bytes_of s) = String.length s.
Proof. by induction s; cbn; [|f_equal]. Qed.

Lemma utf16_le_utf8 s : utf16_length s <= utf8_length s.
Proof.
  unfold utf16_length, utf8_length. rewrite <- bytes_of_length. destruct (code_points (bytes_of s)) as [cps|] eqn:E; [by apply utf16_points|done].
Qed.

Lemma b64_length l : Z.of_nat (length (b64 l)) <= 4 * (Z.of_nat (length l) / 3) + 4.
Proof.
  induction l as [|a|a b|a b c r IH] using byte_list_ind; cbn [b64 length]; [done..|]. rewrite !Nat2Z.inj_succ. Z.to_euclidean_division_equations. lia.
Qed.

Lemma escaped_length_le l : Z.of_nat (length (escaped l)) <= 6 * Z.of_nat (length l).
Proof.
  unfold escaped. induction l as [|c l IH]; [done|]. cbn [mbind list_bind length]. rewrite length_app, Nat2Z.inj_add, Nat2Z.inj_succ.
  assert (Z.of_nat (length (escape c)) <= 6); [|lia].
  unfold escape. repeat match goal with |- context [if ?b then _ else _] => destruct b end; cbn [length]; lia.
Qed.

Lemma escaped_b64 l : all_bytes l = true -> escaped (b64 l) = b64 l.
Proof.
  intros Hl. pose proof (b64_chars l Hl) as H. unfold escaped. induction H as [|c r Hc _ IH]; [done|]. cbn [mbind list_bind]. rewrite IH.
  destruct Hc as [Hc| ->]; [|done]. by apply b64_digit_spec in Hc as (_ & _ & _ & _ & _ & ->).
Qed.

(** ** The text of a value is bytes *)

Lemma bytes_of_app s t : bytes_of (s +:+ t) = bytes_of s ++ bytes_of t.
Proof. induction s as [|a s IH]; [done|]. cbn [String.append bytes_of app]. by rewrite <- IH. Qed.

Lemma digits_bytes f n acc : all_bytes acc = true -> all_bytes (digits f n acc) = true.
Proof.
  revert n acc. induction f as [|f IH]; intros n acc Ha; [done|]. cbn [digits].
  assert (all_bytes ((48 + n `mod` 10) :: acc) = true) as H.
  { unfold all_bytes in *. cbn [forallb]. rewrite Ha, andb_true_r. apply is_byte_spec. pose proof (Z.mod_pos_bound n 10). lia. }
  destruct (n <? 10); [done|by apply IH].
Qed.

Lemma escape_bytes c : 0 <= c < 256 -> all_bytes (escape c) = true.
Proof.
  intros Hc. unfold escape. repeat match goal with |- context [if ?b then _ else _] => destruct b eqn:? end; try done.
  - unfold all_bytes. cbn [forallb]. rewrite !andb_true_iff, !is_byte_spec. unfold hex_digit. zcases; Z.to_euclidean_division_equations; lia.
  - unfold all_bytes. cbn [forallb]. by rewrite andb_true_r, is_byte_spec.
Qed.

Lemma print_str_bytes s : all_bytes (print_str s) = true.
Proof.
  unfold print_str, print_str_with, escaped. change (34 :: ?l) with ([34] ++ l). rewrite !all_bytes_app. rewrite andb_true_r. cbn.
  pose proof (bytes_of_range s) as H. induction (bytes_of s) as [|c l IH]; [done|]. unfold all_bytes in H. cbn [forallb] in H.
  apply andb_true_iff in H as [Hc Hl]. cbn [mbind list_bind]. rewrite all_bytes_app, IH by done. rewrite escape_bytes; [done|by apply is_byte_spec].
Qed.

Lemma join_bytes ls : Forall (fun l => all_bytes l = true) ls -> all_bytes (join 44 ls) = true.
Proof.
  induction 1 as [|l ls Hl Hls IH]; [done|]. destruct ls as [|l' ls]; [done|]. rewrite join_cons2, all_bytes_app, Hl. exact IH.
Qed.

Lemma stringify_bytes v : all_bytes (stringify v) = true.
Proof.
  unfold stringify. induction v as [|b|n|s|l IH|l IH] using json_rec_nested; cbn [print_json]; try done.
  - by destruct b.
  - unfold print_num, print_nat. destruct (n <? 0); [change (45 :: ?l) with ([45] ++ l); rewrite all_bytes_app|]; by rewrite digits_bytes.
  - apply print_str_bytes.
  - change (91 :: ?l) with ([91] ++ l). rewrite !all_bytes_app, join_bytes; [done|]. by apply Forall_map.
  - change (123 :: ?l) with ([123] ++ l). rewrite !all_bytes_app, join_bytes; [done|]. apply Forall_map. eapply Forall_impl; [exact IH|].
    intros [k x] H. cbn [fst snd] in *. change (58 :: ?l) with ([58] ++ l). rewrite !all_bytes_app, H. pose proof (print_str_bytes k) as Hk.
    unfold print_str in Hk. by rewrite Hk.
Qed.

(** Well-formed bytes without a mark are decoded to the text with these bytes. *)
Lemma decode_bytes l : all_bytes l = true -> is_Some (code_points l) -> without_mark l = l -> bytes_of (decode l) = l.
Proof. intros Hl Hw Hm. unfold decode, text. rewrite Hm, decode_well_formed by done. by apply bytes_of_string_of. Qed.

(** ** Well-formed JSON text *)

Lemma well_formed_join ls : Forall well_formed ls -> well_formed (join 44 ls).
Proof.
  induction 1 as [|l ls Hl Hls IH]; [by exists []|]. destruct ls as [|l' ls]; [done|]. rewrite join_cons2.
  apply well_formed_app; [done|]. apply well_formed_cons; [lia|done].
Qed.

Lemma well_formed_print s : well_formed (bytes_of s) -> well_formed (print_str s).
Proof.
  intros Hs. unfold print_str, print_str_with. apply well_formed_cons; [lia|]. apply well_formed_app; [by apply well_formed_escaped|].
  apply well_formed_cons; [lia|by exists []].
Qed.

Lemma digits_ascii f n acc : Forall (fun c => c < 128) acc -> Forall (fun c => c < 128) (digits f n acc).
Proof.
  revert n acc. induction f as [|f IH]; intros n acc Ha; [done|]. cbn [digits]. pose proof (Z.mod_pos_bound n 10).
  assert (Forall (fun c => c < 128) ((48 + n `mod` 10) :: acc)) by (constructor; [lia|done]). destruct (n <? 10); [done|by apply IH].
Qed.

Lemma well_formed_num n : well_formed (stringify (JNum n)).
Proof.
  apply well_formed_ascii. unfold stringify. cbn [print_json]. unfold print_num, print_nat.
  destruct (n <? 0); [constructor; [lia|]|]; apply digits_ascii; constructor.
Qed.

Lemma well_formed_obj l : Forall (fun kv : string * json => well_formed (bytes_of kv.1) /\ well_formed (stringify kv.2)) l ->
  well_formed (stringify (JObj l)).
Proof.
  intros H. unfold stringify. cbn [print_json]. apply well_formed_cons; [lia|]. apply well_formed_app; [|apply well_formed_cons; [lia|by exists []]].
  apply well_formed_join, Forall_map. eapply Forall_impl; [exact H|]. intros [k v] [Hk Hv]. cbn [fst snd].
  apply well_formed_app; [by apply well_formed_print|]. by apply well_formed_cons; [lia|].
Qed.

Lemma well_formed_array l : Forall (fun v => well_formed (stringify v)) l -> well_formed (stringify (JArr l)).
Proof.
  intros H. unfold stringify. cbn [print_json]. apply well_formed_cons; [lia|]. apply well_formed_app; [|apply well_formed_cons; [lia|by exists []]].
  by apply well_formed_join, Forall_map.
Qed.

(** A value's text is one line. *)
(** Hexadecimal text. *)
Lemma hex_text_chars (f : Z -> bool) l : all_bytes l = true -> forallb (fun x => f (hex_digit x) && is_byte (hex_digit x)) (seqZ 0 16) = true ->
  forallb f (bytes_of (hex_text l)) = true.
Proof.
  intros Hl Hf. assert (Hd : forall x, 0 <= x < 16 -> f (hex_digit x) = true /\ is_byte (hex_digit x) = true).
  { intros x Hx. apply andb_true_iff. by apply (zforall_below (fun x => f (hex_digit x) && is_byte (hex_digit x)) 16). }
  unfold hex_text, text. assert (H : forall g, (forall x, 0 <= x < 16 -> g (hex_digit x) = true) ->
    forallb g (l ≫= fun b => [hex_digit (b / 16); hex_digit (b `mod` 16)]) = true).
  { intros g Hg. induction l as [|b l IH]; [done|]. unfold all_bytes in Hl. cbn [forallb] in Hl. apply andb_true_iff in Hl as [Hb Hl].
    apply is_byte_spec in Hb. rewrite bind_cons. cbn [app forallb]. rewrite !Hg, IH; [done|done| |].
    - apply Z.mod_pos_bound. lia.
    - split; [apply Z.div_pos|apply Z.div_lt_upper_bound]; lia. }
  rewrite bytes_of_string_of; [apply H|apply H]; intros x Hx; by destruct (Hd x Hx).
Qed.

Lemma hex_text_bytes l : all_bytes l = true -> bytes_of (hex_text l) = l ≫= fun b => [hex_digit (b / 16); hex_digit (b `mod` 16)].
Proof.
  intros Hl. unfold hex_text, text. apply bytes_of_string_of. induction l as [|b l IH]; [done|].
  unfold all_bytes in *. cbn [forallb] in Hl. apply andb_true_iff in Hl as [Hb Hl]. apply is_byte_spec in Hb. rewrite bind_cons. cbn [app forallb].
  assert (Hd : forall x, 0 <= x < 16 -> is_byte (hex_digit x) = true) by (apply (zforall_below (fun x => is_byte (hex_digit x)) 16); done).
  rewrite IH, !Hd by (done || (Z.to_euclidean_division_equations; lia)). done.
Qed.

Lemma hex_text_length l : all_bytes l = true -> length (bytes_of (hex_text l)) = (2 * length l)%nat.
Proof.
  intros Hl. rewrite hex_text_bytes by done. clear. induction l as [|b l IH]; [done|].
  rewrite bind_cons. cbn [app length]. rewrite IH. cbn [length]. lia.
Qed.

Lemma hex_digit_inj x y : 0 <= x < 16 -> 0 <= y < 16 -> hex_digit x = hex_digit y -> x = y.
Proof. unfold hex_digit. zcases; lia. Qed.

Lemma hex_text_inj l m : all_bytes l = true -> all_bytes m = true -> hex_text l = hex_text m -> l = m.
Proof.
  intros Hl Hm E. assert (L : length l = length m) by (apply (f_equal (fun s => length (bytes_of s))) in E; rewrite !hex_text_length in E by done; lia).
  apply (f_equal bytes_of) in E. rewrite !hex_text_bytes in E by done. revert m Hm L E. induction l as [|a l IH]; intros [|b m] Hm L E; try done.
  unfold all_bytes in *. cbn [forallb] in Hl, Hm. apply andb_true_iff in Hl as [Ha Hl], Hm as [Hb Hm]. apply is_byte_spec in Ha, Hb.
  rewrite !bind_cons in E. cbn [app] in E. injection E as E1 E2 E3. apply hex_digit_inj in E1, E2; try (Z.to_euclidean_division_equations; lia).
  f_equal; [Z.to_euclidean_division_equations; lia|]. apply IH; [done|done|cbn in L; lia|done].
Qed.

Lemma escape_line c : 0 <= c -> 10 ∉ escape c.
Proof.
  intros Hc. unfold escape. repeat match goal with |- context [if ?b then _ else _] => destruct b eqn:? end;
    rewrite ?not_elem_of_cons; split_and?; try (intros ?%elem_of_nil; done); try lia.
  all: unfold hex_digit; zcases; Z.to_euclidean_division_equations; lia.
Qed.

Lemma print_str_line s : 10 ∉ print_str s.
Proof.
  unfold print_str, print_str_with, escaped. rewrite elem_of_cons, elem_of_app, list_elem_of_singleton, list_elem_of_bind.
  intros [?|[(c & Hc & Hin)|?]]; [done| |done].
  apply escape_line in Hc; [done|]. pose proof (bytes_of_range s) as H. unfold all_bytes in H. rewrite forallb_forall in H.
  apply list_elem_of_In, H, is_byte_spec in Hin. lia.
Qed.

Lemma join_line ls : Forall (fun l => 10 ∉ l) ls -> 10 ∉ join 44 ls.
Proof.
  induction 1 as [|l ls Hl Hls IH]; [by intros ?%elem_of_nil|]. destruct ls as [|l' ls]; [done|]. rewrite join_cons2, elem_of_app, elem_of_cons.
  intros [?|[?|?]]; done.
Qed.

Lemma digits_line f n acc : 10 ∉ acc -> 10 ∉ digits f n acc.
Proof.
  revert n acc. induction f as [|f IH]; intros n acc Ha; [done|]. cbn [digits]. pose proof (Z.mod_pos_bound n 10).
  assert (10 ∉ (48 + n `mod` 10) :: acc) by (rewrite not_elem_of_cons; split; [lia|done]). destruct (n <? 10); [done|by apply IH].
Qed.

Lemma stringify_line v : 10 ∉ stringify v.
Proof.
  unfold stringify. induction v as [|b|n|s|l IH|l IH] using json_rec_nested; cbn [print_json].
  1-2: try destruct b; by intros ?%(bool_decide_pack _).
  - unfold print_num, print_nat. destruct (n <? 0); [rewrite not_elem_of_cons; split; [done|]|]; by apply digits_line; intros ?%elem_of_nil.
  - apply print_str_line.
  - rewrite elem_of_cons, elem_of_app, list_elem_of_singleton. intros [?|[H|?]]; [done| |done]. revert H. by apply join_line, Forall_map.
  - rewrite elem_of_cons, elem_of_app, list_elem_of_singleton. intros [?|[H|?]]; [done| |done]. revert H. apply join_line, Forall_map.
    eapply Forall_impl; [exact IH|]. intros [k x] H. cbn [fst snd] in *. rewrite elem_of_app, elem_of_cons. intros [H0|[?|?]]; [|done|done].
    by apply (print_str_line k) in H0.
Qed.

(** ** A direct message is opened by its recipient *)

(** The box of a sender for a recipient: bytes, opened with the matching keys. *)
Record boxes (nc : nacl) (recipientPublic senderSecret senderPublic recipientSecret : list Z) : Prop := {
  bx_bytes m n : all_bytes m = true -> all_bytes n = true -> all_bytes (box nc m n recipientPublic senderSecret) = true;
  bx_open m n : box_open nc (box nc m n recipientPublic senderSecret) n senderPublic recipientSecret = Some m
}.

Lemma openDM_sealDM nc rp ss sp rs n s : boxes nc rp ss sp rs -> length n = 24%nat -> all_bytes n = true ->
  openDM nc (sealDM nc n s rp ss) sp rs = Some (Some (decode (bytes_of s))).
Proof.
  intros [Hb Ho] Hn Hnb. unfold openDM, sealDM. rewrite atob_toBase64 by (rewrite all_bytes_app, Hnb; apply Hb; [apply bytes_of_range|done]).
  cbn [fmap option_fmap option_map]. rewrite length_app, Hn. destruct (_ <? 24) eqn:E; [apply Z.ltb_lt in E; lia|].
  rewrite drop_app_length', take_app_length', Ho by done. done.
Qed.
