(* ===== verification/OlmAdmission.v ===== *)
(** * Olm admission contract ([olm-admission.js])

    The manifest that admits one encrypted message for a fixed set of devices:
    its validation ([validateManifest]), the frozen parts that carry one copy
    per device ([freezeAttempt], [openAttempt]), the binding each copy must
    name ([expectedBinding], [checkEnvelope]), the payload context and the
    receipt of an account reset.  Manifests and copies are JSON values of any
    shape: a member of a value that is no object is [undefined], so the
    [TypeError] of reading a member of [null] appears as the failure of the
    check that reads it.

    SHA-256 is the platform's ([crypto.subtle.digest]): it is the variable
    [sha256] of the section. *)

From stdpp Require Import base list strings sorting.
From Stdlib Require Import ZArith Lia Ascii.
From S2P Require Import Prelude Json Text.

Definition ADMISSION_VERSION : string := "noxa-olm-admission-v1".

(** [throw fail()]: every failure of this file carries the code "invalid". *)
Definition invalid : string := "invalid".

Definition validText (v : option json) : bool :=
  match v with
  | Some (JStr s) => (0 <? utf8_length s) && (utf8_length s <=? 128) && negb (has_class is_Cc s)
  | _ => false
  end.

Definition str_of (v : option json) : string := match v with Some (JStr s) => s | _ => "" end.

(** The items of an array; [Array.isArray] decides. *)
Definition is_array (v : option json) : bool := match v with Some (JArr _) => true | _ => false end.
Definition items (v : option json) : list json := match v with Some (JArr l) => l | _ => [] end.
Definition count (v : option json) : Z := Z.of_nat (length (items v)).

Definition hash (v : option json) : bool := match v with Some (JStr s) => hex64 s | _ => false end.

(** A number equals the text it is printed as, so only canonical decimal text
    is a sequence. *)
Definition attemptSequence (v : option json) : result string Z :=
  match v with
  | Some (JStr s) =>
    match parse_nat (bytes_of s) with
    | Some (n, []) => if is_safe_integer n && (1 <=? n) then Ok n else Err invalid
    | _ => Err invalid
    end
  | _ => Err invalid
  end.

(** A member kept only when its value is truthy. *)
Definition if_truthy (k : string) (m : json) : string * option json :=
  (k, if truthy (field k m) then field k m else None).
Definition keep (k : string) (m : json) : string * option json := (k, field k m).

Definition canonicalRoster (r : json) : json := obj [keep "principal" r; keep "version" r].
Definition canonicalTarget (t : json) : json :=
  obj [keep "principal" t; keep "device" t; keep "account_epoch" t; keep "identity" t;
       ("local", if truthy (field "local" t) then Some (JBool true) else None)]%string.
Definition canonicalPart (p : json) : json := obj [keep "digest" p; keep "length" p].

Definition canonicalManifest (m : json) : json :=
  obj [keep "version" m; keep "server" m; keep "sender" m; keep "device" m; keep "account_epoch" m;
       keep "attempt_id" m; keep "logical_id" m; keep "purpose" m; if_truthy "reference" m; keep "scope" m;
       if_truthy "peer" m; if_truthy "conversation" m; if_truthy "revision" m; if_truthy "epoch" m;
       keep "deadline" m;
       ("rosters", Some (JArr (map canonicalRoster (items (field "rosters" m)))));
       ("targets", Some (JArr (map canonicalTarget (items (field "targets" m)))));
       ("parts", Some (JArr (map canonicalPart (items (field "parts" m)))))]%string.

(** The single non-local target of a control manifest. *)
Definition is_local (t : json) : bool := truthy (field "local" t).

Definition controlTarget (m : json) : option json :=
  if is_text (field "purpose" m) "control" && is_array (field "targets" m) && (count (field "targets" m) =? 2)
  then match List.find (fun t => negb (is_local t)) (items (field "targets" m)) with
       | Some t => if strict_eq (field "principal" t) (field "peer" m) then Some t else None
       | None => None
       end
  else None.

(** The tests of [validateManifest], in the order of its statements. *)
Definition manifest_shape (m : json) : bool :=
  truthy (Some m) && is_text (field "version" m) ADMISSION_VERSION &&
  tls_sha256 (String_of (field "server" m)) &&
  forallb (fun k => validText (field k m)) ["sender"; "device"; "attempt_id"; "logical_id"]%string &&
  safe_positive (field "account_epoch" m) && safe_positive (field "deadline" m) &&
  is_array (field "rosters" m) && (1 <=? count (field "rosters" m)) && (count (field "rosters" m) <=? 16) &&
  is_array (field "targets" m) && (1 <=? count (field "targets" m)) && (count (field "targets" m) <=? 160) &&
  is_array (field "parts" m) && (1 <=? count (field "parts" m)) && (count (field "parts" m) <=? 8).

Definition purpose_ok (m : json) : bool :=
  if is_text (field "purpose" m) "chat" then negb (truthy (field "reference" m))
  else if is_text (field "purpose" m) "control" then
    negb (truthy (field "reference" m)) && is_text (field "scope" m) "direct" && (count (field "targets" m) =? 2)
  else (is_text (field "purpose" m) "edit" || is_text (field "purpose" m) "delete") &&
       validText (field "reference" m).

Definition scope_ok (m : json) : bool :=
  if is_text (field "scope" m) "direct" then
    validText (field "peer" m) && negb (truthy (field "conversation" m)) &&
    negb (truthy (field "revision" m)) && negb (truthy (field "epoch" m)) && (count (field "rosters" m) <=? 2)
  else is_text (field "scope" m) "group" && validText (field "conversation" m) &&
       negb (truthy (field "peer" m)) && safe_positive (field "revision" m) && safe_positive (field "epoch" m).

(** The principals of the rosters, each named once. *)
Fixpoint roster_names (rs : list string) (l : list json) : option (list string) :=
  match l with
  | [] => Some rs
  | r :: l' =>
    if validText (field "principal" r) && safe_positive (field "version" r) &&
       negb (bool_decide (str_of (field "principal" r) ∈ rs))
    then roster_names (str_of (field "principal" r) :: rs) l'
    else None
  end.

(** One pass over the targets: the devices seen and the number of local ones. *)
Definition target_ok (m : json) (rs seen : list string) (t : json) : bool :=
  match field "principal" t with Some (JStr p) => bool_decide (p ∈ rs) | _ => false end &&
  validText (field "device" t) && validText (field "identity" t) && safe_positive (field "account_epoch" t) &&
  negb (bool_decide (str_of (field "device" t) ∈ seen)) &&
  (negb (is_local t) ||
   (strict_eq (field "principal" t) (field "sender" m) && strict_eq (field "device" t) (field "device" m) &&
    strict_eq (field "account_epoch" t) (field "account_epoch" m))).

Fixpoint check_targets (m : json) (rs seen : list string) (local : Z) (l : list json) : option Z :=
  match l with
  | [] => Some local
  | t :: l' =>
    if target_ok m rs seen t
    then check_targets m rs (str_of (field "device" t) :: seen) (if is_local t then local + 1 else local) l'
    else None
  end.

Definition part_ok (p : json) : bool :=
  hash (field "digest" p) && isSafeInteger (field "length" p) &&
  (2 <=? num_or 0 (field "length" p)) && (num_or 0 (field "length" p) <=? 524288).

Definition parts_total (l : list json) : Z := foldr (fun p n => num_or 0 (field "length" p) + n) 0 l.

Definition members_ok (m : json) : bool :=
  match roster_names [] (items (field "rosters" m)) with
  | Some rs =>
    bool_decide (str_of (field "sender" m) ∈ rs) &&
    (negb (is_text (field "scope" m) "direct") || bool_decide (str_of (field "peer" m) ∈ rs)) &&
    match check_targets m rs [] 0 (items (field "targets" m)) with Some local => local =? 1 | None => false end
  | None => false
  end.

Definition validateManifest (m : json) : result string (list Z) :=
  guard! manifest_shape m else invalid in
  let! _ := attemptSequence (field "attempt_id" m) in
  guard! purpose_ok m && scope_ok m && members_ok m else invalid in
  guard! negb (is_text (field "purpose" m) "control") || bool_decide (is_Some (controlTarget m)) else invalid in
  guard! forallb part_ok (items (field "parts" m)) else invalid in
  let b := jsonBytes (canonicalManifest m) in
  let size := Z.of_nat (length b) in
  guard! (size <=? 131072) && (size + parts_total (items (field "parts" m)) <=? 4194304) else invalid in
  Ok b.

(** [m.k || d]. *)
Definition field_or (k : string) (d : json) (m : json) : option json :=
  if truthy (field k m) then field k m else Some d.

Definition payloadContext (m t : json) : json :=
  obj [("version", Some (JStr ADMISSION_VERSION)); keep "server" m; keep "sender" m; keep "device" m;
       keep "account_epoch" m; keep "attempt_id" m; keep "logical_id" m; keep "purpose" m;
       ("reference", field_or "reference" (JStr "") m); keep "scope" m;
       ("peer", field_or "peer" (JStr "") m); ("conversation", field_or "conversation" (JStr "") m);
       ("revision", field_or "revision" (JNum 0) m); ("epoch", field_or "epoch" (JNum 0) m);
       ("target_principal", field "principal" t); ("target_device", field "device" t);
       ("target_epoch", field "account_epoch" t)]%string.

Definition sealPayload (m target body : json) : result string (list Z) :=
  let plaintext := canonicalJSON (JObj [("context", payloadContext m target); ("body", body)]%string) in
  guard! Z.of_nat (length plaintext) <=? 65536 else invalid in Ok plaintext.

(** The two principals of a direct conversation, in byte order. *)
Definition sorted_pair (a b : string) : list json :=
  if String.leb a b then [JStr a; JStr b] else [JStr b; JStr a].

Definition binding_purpose (m : json) : option json :=
  if is_text (field "purpose" m) "chat" then Some (JStr "message")
  else if is_text (field "purpose" m) "control" then Some (JStr "media-key")
  else field "purpose" m.

Definition expectedBinding (m t : json) : json :=
  obj [keep "server" m;
       ("conversation",
        Some (JStr (if is_text (field "scope" m) "direct"
                    then "direct:" +:+ text (canonicalJSON (JArr (sorted_pair (str_of (field "sender" m)) (str_of (field "peer" m)))))
                    else "group:" +:+ String_of (field "conversation" m))));
       keep "sender" m; ("sender_device", field "device" m);
       ("recipient", field "principal" t); ("recipient_device", field "device" t);
       ("message_id", field "logical_id" m); ("purpose", binding_purpose m)]%string.

Definition checkEnvelope (m c : json) : bool :=
  match field "envelope" c with
  | Some e =>
    is_text (field "version" e) "noxa-olm-v1" && strict_eq (field "session_id" e) (field "session_id" c) &&
    match field "binding" e with Some b => equalJSON b (expectedBinding m c) | None => false end &&
    truthy (field "message" e)
  | None => false
  end.

Definition canonicalReset (r : json) : json :=
  obj (map (fun k => keep k r)
    ["version"; "server"; "principal"; "device"; "transition_id"; "old_epoch"; "old_identity"; "old_signing";
     "new_epoch"; "new_identity"; "new_signing"; "generation"; "publication_digest"; "reason"; "signature"]%string).

Section digests.
Variable sha256 : list Z -> list Z.

Definition digestBytes (data : list Z) : string := hex_text (sha256 data).

(** *** [openAttempt] *)

(** The targets that still need a copy, by device. *)
Definition open_targets (m : json) : list (string * json) :=
  foldl (fun acc t => OMap.set (str_of (field "device" t)) t acc) []
    (filter (fun t => is_local t = false) (items (field "targets" m))).

Definition copy_ok (t c : json) : bool :=
  strict_eq (field "principal" t) (field "principal" c) &&
  strict_eq (field "account_epoch" t) (field "account_epoch" c) &&
  validText (field "session_id" c) &&
  (negb (truthy (field "claim_id" c)) || validText (field "claim_id" c)) &&
  match field "envelope" c with
  | Some e => truthy (Some e) && (Z.of_nat (length (jsonBytes e)) <=? 24576)
  | None => false
  end.

(** The copies of one part, each taking its target out of the map. *)
Fixpoint open_batch (targets : list (string * json)) (batch : list json) : option (list (string * json)) :=
  match batch with
  | [] => Some targets
  | c :: rest =>
    match field "device" c with
    | Some (JStr d) =>
      match OMap.get d targets with
      | Some t => if copy_ok t c then open_batch (OMap.del d targets) rest else None
      | None => None
      end
    | _ => None
    end
  end.

(** [JSON.parse(dec.decode(p))], which must be an array. *)
Definition part_batch (p : list Z) : option (list json) :=
  match decode_fatal p with
  | Some t => match parse t with Some (JArr l) => Some l | _ => None end
  | None => None
  end.

Fixpoint open_parts (targets : list (string * json)) (copies : list json) (descs : list json)
    (parts : list (list Z)) : option (list (string * json) * list json) :=
  match parts, descs with
  | [], _ => Some (targets, copies)
  | p :: parts', d :: descs' =>
    if bool_decide (field "length" d = Some (JNum (Z.of_nat (length p)))) &&
       is_text (field "digest" d) (digestBytes p) then
      match part_batch p with
      | Some batch =>
        match open_batch targets batch with
        | Some targets' => open_parts targets' (copies ++ batch) descs' parts'
        | None => None
        end
      | None => None
      end
    else None
  | _ :: _, [] => None
  end.

Definition openAttempt (m : json) (parts : list (list Z)) : result string (list json) :=
  let! _ := validateManifest m in
  guard! Z.of_nat (length parts) =? count (field "parts" m) else invalid in
  match open_parts (open_targets m) [] (items (field "parts" m)) parts with
  | Some ([], copies) => Ok copies
  | _ => Err invalid
  end.

(** *** [freezeAttempt] *)

(** The copies in batches whose text is at most 512 KiB; a copy that does not
    fit starts the next batch. *)
Fixpoint split_batches (batch : list json) (copies : list json) : option (list (list json)) :=
  match copies with
  | [] => Some [batch]
  | c :: rest =>
    match field "envelope" c with
    | Some e =>
      if 24576 <? Z.of_nat (length (jsonBytes e)) then None
      else if 524288 <? Z.of_nat (length (jsonBytes (JArr (batch ++ [c]))))
           then (cons batch) <$> split_batches [c] rest
           else split_batches (batch ++ [c]) rest
    | None => None
    end
  end.

Definition part_desc (p : list Z) : json :=
  JObj [("digest", JStr (digestBytes p)); ("length", JNum (Z.of_nat (length p)))]%string.

Definition freezeAttempt (manifest : json) (copies : list json) : result string (json * list (list Z)) :=
  guard! Z.of_nat (length copies) <=? 159 else invalid in
  match split_batches [] copies with
  | None => Err invalid
  | Some batches =>
    let parts := map (fun b => jsonBytes (JArr b)) batches in
    let m := jset "parts" (JArr (map part_desc parts)) manifest in
    let! _ := openAttempt m parts in
    Ok (canonicalManifest m, parts)
  end.

Definition resetDigest (r : json) : string := digestBytes (jsonBytes (canonicalReset r)).

Definition recoveryReceipt (r : json) : json :=
  obj [keep "server" r; keep "device" r; keep "transition_id" r; ("account_epoch", field "new_epoch" r);
       ("digest", Some (JStr (resetDigest r))); keep "publication_digest" r]%string.
End digests.

(** ** What a valid manifest says *)

Definition dev (v : json) : string := str_of (field "device" v).

Lemma validText_str v : validText v = true -> v = Some (JStr (str_of v)).
Proof. by destruct v as [[]|]. Qed.

Lemma strict_eq_true a b : strict_eq a b = true -> a = b.
Proof.
  destruct a, b; simpl; try done. intros [_ H]%andb_true_iff. apply bool_decide_eq_true in H. congruence.
Qed.

Lemma check_targets_spec m rs seen local l n :
  check_targets m rs seen local l = Some n ->
  NoDup (dev <$> l) /\ Forall (fun d => d ∉ seen) (dev <$> l) /\
  n = local + Z.of_nat (length (filter (fun t => is_local t = true) l)) /\
  Forall (fun t => field "device" t = Some (JStr (dev t)) /\ safe_positive (field "account_epoch" t) = true /\
                   (is_local t = true -> field "principal" t = field "sender" m /\
                                         field "device" t = field "device" m /\
                                         field "account_epoch" t = field "account_epoch" m)) l.
Proof.
  revert seen local. induction l as [|t l IH]; intros seen local; cbn [check_targets].
  { intros [= <-]. split_and!; try constructor. simpl. lia. }
  destruct (target_ok m rs seen t) eqn:Ht; [|done]. intros H. apply IH in H as (Hnd & Hf & Hn & Hall).
  unfold target_ok in Ht. rewrite !andb_true_iff, negb_true_iff, orb_true_iff, negb_true_iff in Ht.
  destruct Ht as [[[[[_ Hd] _] He] Hs] Hl]. apply bool_decide_eq_false in Hs.
  rewrite !fmap_cons. split_and!.
  - apply NoDup_cons. split; [|done]. intros Hin. rewrite Forall_forall in Hf.
    apply (Hf _ Hin). left.
  - constructor; [done|]. eapply Forall_impl; [exact Hf|]. intros d Hnot Hin. apply Hnot. by right.
  - rewrite filter_cons. destruct (decide (is_local t = true)) as [Hlt|Hlt]; cbn [length]; rewrite ?Hlt in Hn; [lia|].
    apply not_true_is_false in Hlt. rewrite Hlt in Hn. lia.
  - constructor; [|done]. split_and!; [by apply validText_str|done|].
    intros Hlt. destruct Hl as [Hl|Hl]; [congruence|]. rewrite !andb_true_iff in Hl.
    destruct Hl as [[? ?] ?]. split_and!; by apply strict_eq_true.
Qed.

(** The parts of [validateManifest]'s verdict that the theorems use. *)
Lemma validateManifest_members m b : validateManifest m = Ok b ->
  manifest_shape m = true /\ forallb part_ok (items (field "parts" m)) = true /\
  exists rs n, check_targets m rs [] 0 (items (field "targets" m)) = Some n /\ n = 1.
Proof.
  unfold validateManifest. destruct (manifest_shape m); [|done]. rewrite rbind_Ok. intros (? & _ & H).
  destruct (purpose_ok m && scope_ok m && members_ok m) eqn:E; [|done].
  destruct (_ || _); [|done]. destruct (forallb part_ok _); [|done]. split_and!; [done..|].
  apply andb_true_iff in E as [_ E]. unfold members_ok in E.
  destruct (roster_names _ _) as [rs|]; [|done]. rewrite !andb_true_iff in E. destruct E as [_ E].
  destruct (check_targets _ _ _ _ _) as [n|] eqn:Ec; [|done]. exists rs, n. split; [done|]. lia.
Qed.

Lemma open_targets_set (l : list json) (acc : list (string * json)) :
  NoDup (acc.*1 ++ (dev <$> l)) ->
  foldl (fun acc t => OMap.set (dev t) t acc) acc l = acc ++ ((fun t => (dev t, t)) <$> l).
Proof.
  revert acc. induction l as [|t l IH]; intros acc Hnd; simpl; [by rewrite app_nil_r|].
  rewrite fmap_cons in Hnd.
  rewrite OMap.keys_set_new.
  - rewrite IH; [by rewrite <- app_assoc|]. rewrite fmap_app, <- app_assoc. done.
  - apply OMap.get_None_keys. apply NoDup_app in Hnd as (_ & Hd & _). intros Hin.
    apply (Hd _ Hin). left.
Qed.

Lemma open_targets_eq m b : validateManifest m = Ok b ->
  open_targets m = (fun t => (dev t, t)) <$> filter (fun t => is_local t = false) (items (field "targets" m)) /\
  OMap.wf (open_targets m).
Proof.
  intros (_ & _ & rs & n & Hc & _)%validateManifest_members.
  apply check_targets_spec in Hc as (Hnd & _ & _ & _).
  set (l := filter _ _). assert (Hl : NoDup (dev <$> l)).
  { subst l. eapply sublist_NoDup; [exact Hnd|apply fmap_sublist, sublist_filter]. }
  unfold open_targets, OMap.wf, OMap.keys. fold l. change (fun acc t => OMap.set (str_of (field "device" t)) t acc)
    with (fun acc t => OMap.set (dev t) t acc).
  rewrite open_targets_set by done. split; [done|]. cbn [app]. rewrite <- list_fmap_compose. done.
Qed.

Lemma keys_del_perm {V} (k : string) (v : V) m : OMap.wf m -> OMap.get k m = Some v -> m.*1 ≡ₚ k :: (OMap.del k m).*1.
Proof.
  unfold OMap.wf, OMap.keys. induction m as [|[k0 v0] m IH]; simpl; [done|].
  rewrite NoDup_cons. intros [Hni Hnd]. case_decide as Hk.
  - intros _. subst. rewrite OMap.del_not_in; [done|]. by apply OMap.get_None_keys.
  - intros H. simpl. rewrite (IH Hnd H). apply Permutation_swap.
Qed.

Lemma elem_del {V} k (m : list (string * V)) x : x ∈ OMap.del k m -> x ∈ m.
Proof.
  induction m as [|[k0 v0] m IH]; simpl; [done|]. case_decide; rewrite ?elem_of_cons; naive_solver.
Qed.

(** The copies taken by [open_batch]. *)
Definition takes (T : list (string * json)) (c : json) : Prop :=
  field "device" c = Some (JStr (dev c)) /\ exists t, (dev c, t) ∈ T /\ copy_ok t c = true.

Lemma open_batch_spec T b T' : OMap.wf T -> open_batch T b = Some T' ->
  OMap.wf T' /\ T.*1 ≡ₚ (dev <$> b) ++ T'.*1 /\ (forall x, x ∈ T' -> x ∈ T) /\ Forall (takes T) b.
Proof.
  revert T. induction b as [|c b IH]; intros T Hwf; cbn [open_batch].
  { intros [= <-]. by split_and!. }
  destruct (field "device" c) as [[| | |d| |]|] eqn:Ed; try done.
  assert (dev c = d) as Hd by (unfold dev; by rewrite Ed).
  destruct (OMap.get d T) as [t|] eqn:Eg; [|done]. destruct (copy_ok t c) eqn:Ec; [|done].
  intros H. apply IH in H as (Hwf' & Hp & Hsub & Hall); [|by auto with omap].
  split_and!; [done| | |].
  - rewrite fmap_cons, Hd. cbn [app]. rewrite <- Hp. by eapply keys_del_perm.
  - intros x Hx. eapply elem_del, Hsub, Hx.
  - constructor.
    + split; [congruence|]. exists t. rewrite Hd. split; [by apply OMap.get_elem|done].
    + eapply Forall_impl; [exact Hall|]. intros c' [? (t' & Hin & ?)]. split; [done|].
      exists t'. split; [|done]. by eapply elem_del.
Qed.

Lemma open_parts_spec sha T copies ds parts T' copies' : OMap.wf T ->
  open_parts sha T copies ds parts = Some (T', copies') ->
  exists new, copies' = copies ++ new /\ T.*1 ≡ₚ (dev <$> new) ++ T'.*1 /\ Forall (takes T) new.
Proof.
  revert T copies ds. induction parts as [|p parts IH]; intros T copies ds Hwf.
  { cbn [open_parts]. destruct ds; intros [= <- <-]; exists []; rewrite app_nil_r; by split_and!. }
  destruct ds as [|d ds]; [done|]. cbn [open_parts]. destruct (_ && _); [|done].
  destruct (part_batch p) as [batch|]; [|done]. destruct (open_batch T batch) as [T1|] eqn:Eb; [|done].
  apply open_batch_spec in Eb as (Hwf1 & Hp & Hsub & Hall); [|done].
  intros H. apply IH in H as (new & -> & Hp' & Hall'); [|done].
  exists (batch ++ new). split_and!; [by rewrite app_assoc| |].
  - rewrite fmap_app, Hp, Hp', app_assoc. done.
  - apply Forall_app. split; [done|]. eapply Forall_impl; [exact Hall'|].
    intros c [? (t & Hin & ?)]. split; [done|]. exists t. auto.
Qed.

(** An attempt that opens carries exactly one copy for every target device
    other than the sender's own, and none for any other device: the devices of
    the copies are a permutation of the devices of the non-local targets, each
    copy names the principal and account epoch of its target, and the one local
    target is the sending device at the sending account's epoch. *)
Theorem open_attempt_exact sha m parts copies :
  openAttempt sha m parts = Ok copies ->
  let targets := items (field "targets" m) in
  dev <$> copies ≡ₚ dev <$> filter (fun t => is_local t = false) targets /\
  Forall (fun c => exists t, t ∈ targets /\ is_local t = false /\ field "device" t = field "device" c /\
            field "principal" t = field "principal" c /\ field "account_epoch" t = field "account_epoch" c) copies /\
  exists t, filter (fun t => is_local t = true) targets = [t] /\ field "principal" t = field "sender" m /\
            field "device" t = field "device" m /\ field "account_epoch" t = field "account_epoch" m.
Proof.
  unfold openAttempt. rewrite rbind_Ok. intros (b & Hv & H). destruct (_ =? _); [|done].
  destruct (open_parts _ _ _ _ _) as [[[|] cs]|] eqn:Ep; try done. simplify_eq. cbv zeta.
  destruct (open_targets_eq m b Hv) as [Ht Hwf].
  apply validateManifest_members in Hv as (_ & _ & rs & n & Hc & Hn).
  apply check_targets_spec in Hc as (Hnd & _ & Hcount & Hall). rewrite Forall_forall in Hall.
  apply open_parts_spec in Ep as (new & -> & Hp & Htakes); [|done]. cbn [app]. split_and!.
  - rewrite app_nil_r in Hp. rewrite <- Hp, Ht, <- list_fmap_compose. done.
  - eapply Forall_impl; [exact Htakes|]. intros c [Hd (t & Hin & Hok)]. rewrite Ht in Hin.
    apply list_elem_of_fmap in Hin as (t' & [= Hdc ->] & Hin). apply list_elem_of_filter in Hin as [Hl Hin].
    exists t'. destruct (Hall _ Hin) as (Hd' & _ & _). unfold copy_ok in Hok. rewrite !andb_true_iff in Hok.
    destruct Hok as [[[[Hpr He] _] _] _]. split_and!; try done; [|by apply strict_eq_true..].
    rewrite Hd'. congruence.
  - set (l := filter (fun t => is_local t = true) _) in *. destruct l as [|t [|]] eqn:El; simpl in Hcount; try lia.
    exists t. assert (Hin : t ∈ l) by (rewrite El; left). subst l.
    apply list_elem_of_filter in Hin as [Hl Hin]. split; [done|]. by apply Hall.
Qed.

(** ** Freezing and opening are inverse *)

Lemma field_obj k l : bool_decide (NoDup l.*1) = true ->
  field k (obj l) = match OMap.get k l with Some v => v | None => None end.
Proof.
  rewrite bool_decide_eq_true. unfold obj. cbn [field]. induction l as [|[k0 v0] l IH]; [done|].
  rewrite fmap_cons, NoDup_cons. intros [Hni Hnd]. specialize (IH Hnd).
  cbn [omap list_omap OMap.get fst snd]. destruct v0 as [v0|]; cbn [fmap option_fmap option_map].
  - cbn [assoc_last]. change (list_omap _ _ _ l) with (omap (fun kv : string * option json => (fun v => (kv.1, v)) <$> kv.2) l).
    rewrite IH. destruct (decide (k = k0)) as [->|]; [|by destruct (OMap.get k l) as [[]|]].
    rewrite (proj2 (OMap.get_None_keys k0 l)); done.
  - change (list_omap _ _ _ l) with (omap (fun kv : string * option json => (fun v => (kv.1, v)) <$> kv.2) l).
    rewrite IH. case_decide; [|done]. subst. rewrite (proj2 (OMap.get_None_keys k0 l)); done.
Qed.

Lemma field_canonical k m :
  k ∈ ["version"; "server"; "sender"; "device"; "account_epoch"; "attempt_id"; "logical_id"; "purpose"; "scope"; "deadline"]%string ->
  field k (canonicalManifest m) = field k m.
Proof.
  intros H. unfold canonicalManifest. rewrite field_obj by reflexivity.
  repeat (apply elem_of_cons in H as [->|H]; [reflexivity|]). by apply elem_of_nil in H.
Qed.

Lemma field_canonical_opt k m :
  k ∈ ["reference"; "peer"; "conversation"; "revision"; "epoch"]%string ->
  field k (canonicalManifest m) = if truthy (field k m) then field k m else None.
Proof.
  intros H. unfold canonicalManifest. rewrite field_obj by reflexivity.
  repeat (apply elem_of_cons in H as [->|H]; [reflexivity|]). by apply elem_of_nil in H.
Qed.

Lemma field_canonical_lists m :
  field "rosters" (canonicalManifest m) = Some (JArr (map canonicalRoster (items (field "rosters" m)))) /\
  field "targets" (canonicalManifest m) = Some (JArr (map canonicalTarget (items (field "targets" m)))) /\
  field "parts" (canonicalManifest m) = Some (JArr (map canonicalPart (items (field "parts" m)))).
Proof. unfold canonicalManifest. rewrite !field_obj by reflexivity. done. Qed.

Lemma field_canonicalRoster k r : k = "principal"%string \/ k = "version"%string ->
  field k (canonicalRoster r) = field k r.
Proof. intros [-> | ->]; unfold canonicalRoster; by rewrite field_obj. Qed.

Lemma field_canonicalTarget k t : k ∈ ["principal"; "device"; "account_epoch"; "identity"]%string ->
  field k (canonicalTarget t) = field k t.
Proof.
  intros H. unfold canonicalTarget. rewrite field_obj by reflexivity.
  repeat (apply elem_of_cons in H as [->|H]; [reflexivity|]). by apply elem_of_nil in H.
Qed.

Lemma local_canonicalTarget t : is_local (canonicalTarget t) = is_local t.
Proof.
  unfold is_local at 1, canonicalTarget. rewrite field_obj by reflexivity. simpl. unfold is_local.
  by destruct (truthy (field "local" t)).
Qed.

Lemma dev_canonicalTarget t : dev (canonicalTarget t) = dev t.
Proof. unfold dev. rewrite field_canonicalTarget; [done|]. by right; left. Qed.

Lemma part_canonical k p : k = "digest"%string \/ k = "length"%string -> field k (canonicalPart p) = field k p.
Proof. intros [-> | ->]; unfold canonicalPart; by rewrite field_obj. Qed.

(** A member that is dropped when falsy answers the tests as before. *)
Definition or_none (v : option json) : option json := if truthy v then v else None.
Lemma truthy_or_none v : truthy (or_none v) = truthy v.
Proof. unfold or_none. by destruct (truthy v) eqn:E. Qed.
Lemma if_or_none v : (if truthy v then or_none v else None) = or_none v.
Proof. unfold or_none. by destruct (truthy v). Qed.
Lemma falsy_cases v : truthy v = false ->
  v = None \/ v = Some JNull \/ v = Some (JBool false) \/ v = Some (JNum 0) \/ v = Some (JStr "").
Proof.
  destruct v as [[|[]|n|s|l|l]|]; simpl; try (intros; by auto).
  - rewrite negb_false_iff. intros ->%Z.eqb_eq. auto.
  - rewrite negb_false_iff. intros ->%bool_decide_eq_true. auto 6.
Qed.
Lemma validText_or_none v : validText (or_none v) = validText v.
Proof.
  unfold or_none. destruct (truthy v) eqn:E; [done|].
  by destruct (falsy_cases v E) as [->|[->|[->|[->| ->]]]].
Qed.
Lemma safe_or_none v : safe_positive (or_none v) = safe_positive v.
Proof.
  unfold or_none. destruct (truthy v) eqn:E; [done|].
  by destruct (falsy_cases v E) as [->|[->|[->|[->| ->]]]].
Qed.
Lemma str_or_none v : str_of (or_none v) = str_of v.
Proof.
  unfold or_none. destruct (truthy v) eqn:E; [done|].
  by destruct (falsy_cases v E) as [->|[->|[->|[->| ->]]]].
Qed.

Ltac canon :=
  rewrite ?(proj1 (field_canonical_lists _)), ?(proj1 (proj2 (field_canonical_lists _))),
    ?(proj2 (proj2 (field_canonical_lists _)));
  repeat match goal with
  | |- context [field ?k (canonicalManifest ?m)] =>
    first [rewrite (field_canonical k m) by (apply (bool_decide_unpack _); exact I)
          |rewrite (field_canonical_opt k m) by (apply (bool_decide_unpack _); exact I);
           change (if truthy (field k m) then field k m else None) with (or_none (field k m))]
  end;
  rewrite ?truthy_or_none, ?validText_or_none, ?safe_or_none, ?str_or_none.

Lemma count_map (f : json -> json) (l : list json) : count (Some (JArr (map f l))) = Z.of_nat (length l).
Proof. unfold count. simpl. by rewrite length_map. Qed.

Lemma shape_canonical m : manifest_shape m = true -> manifest_shape (canonicalManifest m) = true.
Proof.
  unfold manifest_shape. cbn [forallb]. canon. rewrite !count_map.
  change (truthy (Some (canonicalManifest m))) with true. unfold count.
  cbn [is_array]. rewrite !andb_true_iff. tauto.
Qed.

Lemma purpose_canonical m : purpose_ok (canonicalManifest m) = purpose_ok m.
Proof. unfold purpose_ok. canon. rewrite count_map. done. Qed.

Lemma scope_canonical m : scope_ok (canonicalManifest m) = scope_ok m.
Proof. unfold scope_ok. canon. rewrite count_map. done. Qed.

Lemma rosters_canonical rs l : roster_names rs (map canonicalRoster l) = roster_names rs l.
Proof.
  revert rs. induction l as [|r l IH]; intros rs; [done|]. cbn [map roster_names].
  rewrite !field_canonicalRoster by auto. by rewrite IH.
Qed.

Lemma targets_canonical m rs seen n l :
  check_targets (canonicalManifest m) rs seen n (map canonicalTarget l) = check_targets m rs seen n l.
Proof.
  revert seen n. induction l as [|t l IH]; intros seen n; [done|]. cbn [map check_targets].
  unfold target_ok. rewrite local_canonicalTarget.
  rewrite !field_canonicalTarget by (apply (bool_decide_unpack _); exact I). canon. by rewrite IH.
Qed.

Lemma members_canonical m : members_ok (canonicalManifest m) = members_ok m.
Proof. unfold members_ok. canon. cbn [items]. rewrite rosters_canonical. case_match; [|done]. by rewrite targets_canonical. Qed.

Lemma find_map {A B} (f : A -> B) (p : B -> bool) (q : A -> bool) l : (forall x, p (f x) = q x) ->
  List.find p (map f l) = f <$> List.find q l.
Proof. intros H. induction l as [|x l IH]; simpl; [done|]. rewrite H. by destruct (q x). Qed.

Lemma control_canonical m : scope_ok m = true -> purpose_ok m = true ->
  is_text (field "purpose" m) "control" = true ->
  is_Some (controlTarget m) -> is_Some (controlTarget (canonicalManifest m)).
Proof.
  intros Hs Hp Hc. unfold controlTarget. canon. cbn [is_array items]. rewrite count_map.
  rewrite Hc. fold (count (field "targets" m)). unfold count at 2. cbn [andb].
  unfold purpose_ok in Hp. rewrite Hc in Hp.
  destruct (is_text (field "purpose" m) "chat") eqn:E1.
  { unfold is_text in E1, Hc. apply bool_decide_eq_true in E1, Hc. rewrite E1 in Hc. by simplify_eq. }
  rewrite !andb_true_iff in Hp. destruct Hp as [[_ Hd] H2]. rewrite H2. fold (count (field "targets" m)). rewrite H2.
  unfold scope_ok in Hs. rewrite Hd in Hs. rewrite !andb_true_iff in Hs. destruct Hs as [[[[Hv _] _] _] _].
  assert (or_none (field "peer" m) = field "peer" m) as ->.
  { unfold or_none. apply validText_str in Hv as E. rewrite E. rewrite E in Hv. simpl in *.
    destruct (bool_decide_reflect (str_of (field "peer" m) = ""%string)) as [Es|]; [|done].
    rewrite Es in Hv. done. }
  rewrite andb_true_r. destruct (is_array _); [|by intros []].
  rewrite (find_map _ _ (fun t => negb (is_local t))) by (intros t; by rewrite local_canonicalTarget).
  destruct (List.find _ _) as [t|]; [|done]. cbn [fmap option_fmap option_map].
  rewrite field_canonicalTarget by (by left). by case_match.
Qed.

Lemma parts_canonical l :
  forallb part_ok (map canonicalPart l) = forallb part_ok l /\ parts_total (map canonicalPart l) = parts_total l.
Proof.
  induction l as [|p l [IH1 IH2]]; [done|]. cbn [map forallb]. split.
  - rewrite IH1. unfold part_ok. rewrite !part_canonical by auto. done.
  - unfold parts_total in *. cbn [foldr]. rewrite IH2, part_canonical by auto. done.
Qed.

Lemma canonicalRoster_idem r : canonicalRoster (canonicalRoster r) = canonicalRoster r.
Proof. unfold canonicalRoster at 1, keep. by rewrite !field_canonicalRoster by auto. Qed.

Lemma canonicalPart_idem p : canonicalPart (canonicalPart p) = canonicalPart p.
Proof. unfold canonicalPart at 1, keep. by rewrite !part_canonical by auto. Qed.

Lemma canonicalTarget_idem t : canonicalTarget (canonicalTarget t) = canonicalTarget t.
Proof.
  unfold canonicalTarget at 1, keep.
  rewrite !field_canonicalTarget by (apply (bool_decide_unpack _); exact I).
  fold (is_local (canonicalTarget t)). rewrite local_canonicalTarget. done.
Qed.

Lemma canonical_idem m : canonicalManifest (canonicalManifest m) = canonicalManifest m.
Proof.
  unfold canonicalManifest at 1, keep, if_truthy.
  rewrite (proj1 (field_canonical_lists m)), (proj1 (proj2 (field_canonical_lists m))),
    (proj2 (proj2 (field_canonical_lists m))). cbn [items]. rewrite !map_map.
  canon.
  rewrite (map_ext _ _ canonicalRoster_idem), (map_ext _ _ canonicalPart_idem), (map_ext _ _ canonicalTarget_idem).
  rewrite !if_or_none. reflexivity.
Qed.

Lemma validate_canonical m b : validateManifest m = Ok b -> validateManifest (canonicalManifest m) = Ok b.
Proof.
  unfold validateManifest. destruct (manifest_shape m) eqn:Hs; [|done].
  rewrite shape_canonical by done. rewrite field_canonical by (apply (bool_decide_unpack _); exact I).
  destruct (attemptSequence _); [|done]. cbn [rbind].
  rewrite purpose_canonical, scope_canonical, members_canonical.
  destruct (purpose_ok m && scope_ok m && members_ok m) eqn:E; [|done].
  rewrite !andb_true_iff in E. destruct E as [[Hp Hsc] _].
  rewrite field_canonical by (apply (bool_decide_unpack _); exact I).
  destruct (is_text (field "purpose" m) "control") eqn:Ec; cbn [negb orb].
  - destruct (bool_decide_reflect (is_Some (controlTarget m))) as [Hc|]; [|done].
    rewrite bool_decide_true by (by apply control_canonical).
    rewrite (proj2 (proj2 (field_canonical_lists m))), canonical_idem. cbn [items].
    destruct (parts_canonical (items (field "parts" m))) as [-> ->]. done.
  - rewrite (proj2 (proj2 (field_canonical_lists m))), canonical_idem. cbn [items].
    destruct (parts_canonical (items (field "parts" m))) as [-> ->]. done.
Qed.

(** Opening looks only at a target's principal and epoch. *)
Definition canonical_entry (e : string * json) : string * json := (e.1, canonicalTarget e.2).

Lemma omap_get_canonical d T : OMap.get d (map canonical_entry T) = canonicalTarget <$> OMap.get d T.
Proof. induction T as [|[k t] T IH]; simpl; [done|]. by case_decide. Qed.

Lemma omap_del_canonical d T : OMap.del d (map canonical_entry T) = map canonical_entry (OMap.del d T).
Proof. induction T as [|[k t] T IH]; simpl; [done|]. case_decide; [done|]. simpl. by rewrite IH. Qed.

Lemma copy_ok_canonical t c : copy_ok (canonicalTarget t) c = copy_ok t c.
Proof. unfold copy_ok. by rewrite !field_canonicalTarget by (apply (bool_decide_unpack _); exact I). Qed.

Lemma open_batch_canonical T b : open_batch (map canonical_entry T) b = map canonical_entry <$> open_batch T b.
Proof.
  revert T. induction b as [|c b IH]; intros T; [done|]. cbn [open_batch].
  destruct (field "device" c) as [[]|]; try done. rewrite omap_get_canonical.
  destruct (OMap.get s T) as [t|]; [|done]. cbn [fmap option_fmap option_map].
  rewrite copy_ok_canonical. destruct (copy_ok t c); [|done]. by rewrite omap_del_canonical, IH.
Qed.

Lemma open_parts_canonical sha T acc ds parts :
  open_parts sha (map canonical_entry T) acc (map canonicalPart ds) parts =
  (fun r => (map canonical_entry r.1, r.2)) <$> open_parts sha T acc ds parts.
Proof.
  revert T acc ds. induction parts as [|p parts IH]; intros T acc ds; [by destruct ds|].
  destruct ds as [|d ds]; [done|]. cbn [map open_parts]. rewrite !part_canonical by auto.
  destruct (_ && _); [|done]. destruct (part_batch p); [|done].
  rewrite open_batch_canonical. destruct (open_batch T l); [|done]. apply IH.
Qed.

Lemma open_targets_canonical m b : validateManifest m = Ok b ->
  open_targets (canonicalManifest m) = map canonical_entry (open_targets m).
Proof.
  intros Hv. rewrite (proj1 (open_targets_eq m b Hv)).
  rewrite (proj1 (open_targets_eq _ b (validate_canonical m b Hv))).
  rewrite (proj1 (proj2 (field_canonical_lists m))). cbn [items].
  induction (items (field "targets" m)) as [|t l IH]; [done|]. cbn [map].
  rewrite !filter_cons, local_canonicalTarget. case_decide; [|done]. cbn. rewrite IH.
  unfold canonical_entry at 2. cbn [fst snd]. by rewrite dev_canonicalTarget.
Qed.

Lemma open_canonical sha m parts copies :
  openAttempt sha m parts = Ok copies -> openAttempt sha (canonicalManifest m) parts = Ok copies.
Proof.
  unfold openAttempt. rewrite !rbind_Ok. intros (b & Hv & H). exists b.
  split; [by apply validate_canonical|]. rewrite (open_targets_canonical m b Hv).
  rewrite (proj2 (proj2 (field_canonical_lists m))), count_map. cbn [items].
  unfold count in H. destruct (_ =? _); [|done]. rewrite open_parts_canonical.
  by destruct (open_parts _ _ _ _ _) as [[[|] cs]|].
Qed.

(** The parts of a frozen attempt hold the copies, in order. *)
Lemma part_batch_json batch l : part_batch (jsonBytes (JArr batch)) = Some l -> l = batch.
Proof.
  unfold part_batch, jsonBytes, decode_fatal. assert (exists r, canonicalJSON (JArr batch) = 91 :: r) as [r E].
  { unfold canonicalJSON. rewrite html_print_json. cbn [print_json]. eauto. }
  pose proof (parse_canonicalJSON (JArr batch)) as Hp. rewrite E in *.
  destruct (code_points _); [|done]. rewrite Hp. congruence.
Qed.

Lemma open_parts_json sha T acc ds batches T' copies :
  open_parts sha T acc ds (map (fun b => jsonBytes (JArr b)) batches) = Some (T', copies) ->
  copies = acc ++ concat batches.
Proof.
  revert T acc ds. induction batches as [|batch batches IH]; intros T acc ds.
  { cbn [map open_parts]. destruct ds; intros [= _ <-]; by rewrite app_nil_r. }
  destruct ds as [|d ds]; [done|]. cbn [map open_parts]. destruct (_ && _); [|done].
  destruct (part_batch _) as [l|] eqn:E; [|done]. apply part_batch_json in E as ->.
  destruct (open_batch T batch); [|done]. intros ->%IH. simpl. by rewrite app_assoc.
Qed.

Lemma split_batches_concat copies batch batches :
  split_batches batch copies = Some batches -> concat batches = batch ++ copies.
Proof.
  revert batch batches. induction copies as [|c copies IH]; intros batch batches; cbn [split_batches].
  { intros [= <-]. simpl. by rewrite !app_nil_r. }
  destruct (field "envelope" c); [|done]. destruct (_ <? _); [done|]. destruct (_ <? _).
  - destruct (split_batches [c] copies) as [bs|] eqn:E; [|done]. intros [= <-].
    simpl. rewrite (IH _ _ E). done.
  - intros H. rewrite (IH _ _ H), <- app_assoc. done.
Qed.

(** C16: a frozen attempt opens, and yields the copies that were frozen, in
    their order: nothing is lost, added or reordered by the split into parts,
    and the canonical manifest is as valid as the manifest it was made from. *)
Theorem freeze_open_roundtrip sha manifest copies m parts :
  freezeAttempt sha manifest copies = Ok (m, parts) -> openAttempt sha m parts = Ok copies.
Proof.
  unfold freezeAttempt. destruct (_ <=? _); [|done].
  destruct (split_batches [] copies) as [batches|] eqn:Eb; [|done].
  rewrite rbind_Ok. intros (copies' & Ho & [= <- <-]). apply open_canonical in Ho as Hc.
  rewrite Hc. f_equal. unfold openAttempt in Ho. rewrite rbind_Ok in Ho. destruct Ho as (b & _ & Ho).
  destruct (_ =? _); [|done]. destruct (open_parts _ _ _ _ _) as [[[|] cs]|] eqn:Ep; try done. simplify_eq.
  apply open_parts_json in Ep as ->. by rewrite (split_batches_concat _ _ _ Eb).
Qed.

(** ** A concrete attempt: one message from alice's device to bob's *)
Module Sample.
Open Scope string_scope.
Definition sha (_ : list Z) : list Z := repeat 7 32.
Definition server : string := "tls-sha256:" +:+ digestBytes sha [].
Definition target (p d : string) (epoch : Z) (extra : list (string * json)) : json :=
  JObj ([("principal", JStr p); ("device", JStr d); ("account_epoch", JNum epoch); ("identity", JStr ("id-" +:+ d))] ++ extra).
Definition manifest : json :=
  JObj [("version", JStr ADMISSION_VERSION); ("server", JStr server); ("sender", JStr "alice");
        ("device", JStr "a1"); ("account_epoch", JNum 1); ("attempt_id", JStr "1"); ("logical_id", JStr "m-1");
        ("purpose", JStr "chat"); ("reference", JStr ""); ("scope", JStr "direct"); ("peer", JStr "bob");
        ("deadline", JNum 1700000000);
        ("rosters", JArr [JObj [("principal", JStr "alice"); ("version", JNum 3)];
                          JObj [("principal", JStr "bob"); ("version", JNum 1)]]);
        ("targets", JArr [target "alice" "a1" 1 [("local", JBool true)]; target "bob" "b1" 2 []])].
Definition binding : json := expectedBinding manifest (target "bob" "b1" 2 []).
Definition envelope : json :=
  JObj [("version", JStr "noxa-olm-v1"); ("session_id", JStr "s1"); ("binding", binding); ("message", JStr "<x>")].
Definition copy : json :=
  JObj [("principal", JStr "bob"); ("device", JStr "b1"); ("account_epoch", JNum 2); ("session_id", JStr "s1");
        ("envelope", envelope)].
Definition frozen : json * list (list Z) :=
  Eval vm_compute in match freezeAttempt sha manifest [copy] with Ok r => r | Err _ => (JNull, []) end.
End Sample.

Lemma open_attempt_exact_witness :
  openAttempt Sample.sha Sample.frozen.1 Sample.frozen.2 = Ok [Sample.copy] /\
  dev <$> [Sample.copy] ≡ₚ dev <$> filter (fun t => is_local t = false) (items (field "targets" Sample.frozen.1)).
Proof.
  assert (H : openAttempt Sample.sha Sample.frozen.1 Sample.frozen.2 = Ok [Sample.copy]) by (vm_compute; reflexivity).
  split; [exact H|]. exact (proj1 (open_attempt_exact Sample.sha Sample.frozen.1 Sample.frozen.2 [Sample.copy] H)).
Defined.

Lemma freeze_open_roundtrip_witness :
  freezeAttempt Sample.sha Sample.manifest [Sample.copy] = Ok Sample.frozen /\
  openAttempt Sample.sha Sample.frozen.1 Sample.frozen.2 = Ok [Sample.copy].
Proof.
  assert (H : freezeAttempt Sample.sha Sample.manifest [Sample.copy] = Ok (Sample.frozen.1, Sample.frozen.2))
    by (vm_compute; reflexivity).
  split; [exact H|]. exact (freeze_open_roundtrip Sample.sha Sample.manifest [Sample.copy] _ _ H).
Defined.
