(* ===== verification/OlmControl.v ===== *)
(** * Media controls (olm-admission.js)

    The control half of olm-admission.js reads JSON text by hand: [rawMembers]
    and the scanners under it keep the exact text of an object's members, so
    that a control is judged on its authenticated bytes.  A position [i] of a
    text [s] is modelled by the suffix [s.slice(i)]; an error ([fail()], or
    [JSON.parse] throwing) is [None].

    The scanners split a text exactly where [JSON.parse] does
    ([rawMembers_parse], on the grammar of JsonText.v), and [parseControlBody]
    accepts exactly what a reference parser of the whole text accepts
    ([control_reference]). *)

From stdpp Require Import base list strings.
From Stdlib Require Import ZArith Lia.
From S2P Require Import Prelude Json JsonText Text OlmAdmission.

Definition MAX_CONTROL_TTL : Z := 300.
Definition MAX_CONTROL_DATA : Z := 4096.
Definition MAX_PENDING_CONTROLS : Z := 64.
Definition CONTROL_CLOCK_SKEW : Z := 300.

Definition word_char (c : Z) : bool :=
  ((97 <=? c) && (c <=? 122)) || is_digit c || (c =? 46) || (c =? 95) || (c =? 45).
Definition controlWord (v : option json) : bool :=
  match v with
  | Some (JStr s) => all_chars word_char s && (1 <=? utf8_length s) && (utf8_length s <=? 64)
  | _ => false
  end.

(** ** Scanning *)

(** [scanString] after the opening quote; the result is what follows the closing one. *)
Fixpoint scan_chars (l : list Z) : option (list Z) :=
  match l with
  | [] => None
  | c :: r =>
    if c =? 92 then match r with _ :: r' => scan_chars r' | [] => None end
    else if c =? 34 then Some r
    else scan_chars r
  end.
Definition scanString (l : list Z) : option (list Z) :=
  match l with c :: r => if c =? 34 then scan_chars r else None | [] => None end.

(** Characters up to [,], [}], []] or white space. *)
Definition scalar_stop (c : Z) : bool := (c =? 44) || (c =? 125) || (c =? 93) || is_ws c.
Fixpoint skip_scalar (l : list Z) : list Z :=
  match l with c :: r => if scalar_stop c then l else skip_scalar r | [] => [] end.

(** The name and the colon of an object's member. *)
Definition scan_name (l : list Z) : option (list Z) :=
  match scanString (skip_ws l) with
  | Some r => match skip_ws r with c :: r' => if c =? 58 then Some r' else None | [] => None end
  | None => None
  end.

(** The loop of [scanValue] over the members of an object or array. *)
Fixpoint scan_items (value : list Z -> option (list Z)) (object : bool) (close : Z) (fuel : nat) (l : list Z) : option (list Z) :=
  match fuel with
  | O => None
  | S f =>
    match (if object then scan_name l else Some l) with
    | None => None
    | Some l1 =>
      match value l1 with
      | None => None
      | Some r =>
        match skip_ws r with
        | c :: r' => if c =? 44 then scan_items value object close f r' else if c =? close then Some r' else None
        | [] => None
        end
      end
    end
  end.

(** Every call reads at least one character, so the length of the text is enough fuel. *)
Fixpoint scanValue (fuel : nat) (l0 : list Z) : option (list Z) :=
  match fuel with
  | O => None
  | S f =>
    match skip_ws l0 with
    | [] => None
    | c :: r =>
      if c =? 34 then scan_chars r
      else if (c =? 123) || (c =? 91) then
        let close := if c =? 123 then 125 else 93 in
        match skip_ws r with
        | c1 :: r1 => if c1 =? close then Some r1 else scan_items (scanValue f) (c =? 123) close f (c1 :: r1)
        | [] => None
        end
      else if scalar_stop c then None else Some (skip_scalar r)
    end
  end.

(** [s.slice(a, b)] for the suffixes at [a] and [b]. *)
Definition slice (a b : list Z) : list Z := take (length a - length b) a.

(** The loop of [rawMembers]: names, the text of their values, what follows the closing brace. *)
Fixpoint raw_items (fuel : nat) (l : list Z) : option (list (string * list Z) * list Z) :=
  match fuel with
  | O => None
  | S f =>
    let ks := skip_ws l in
    match scanString ks with
    | None => None
    | Some i =>
      match parse (slice ks i), skip_ws i with
      | Some (JStr k), c :: i1 =>
        if c =? 58 then
          let vs := skip_ws i1 in
          match scanValue (S (length vs)) vs with
          | None => None
          | Some i2 =>
            let m := (k, slice vs i2) in
            match skip_ws i2 with
            | c2 :: i3 =>
              if c2 =? 44 then match raw_items f i3 with Some (out, r) => Some (m :: out, r) | None => None end
              else if c2 =? 125 then Some ([m], i3) else None
            | [] => None
            end
          end
        else None
      | _, _ => None
      end
    end
  end.

Definition rawMembers (l : list Z) : option (list (string * list Z)) :=
  match skip_ws l with
  | c :: r =>
    if c =? 123 then
      let out := match skip_ws r with
                 | c1 :: r1 => if c1 =? 125 then Some ([], r1) else raw_items (S (length r)) r
                 | [] => None
                 end in
      match out with
      | Some (ms, i) => match skip_ws i with [] => Some ms | _ => None end
      | None => None
      end
    else None
  | [] => None
  end.

Definition raw_get (k : string) (ms : list (string * list Z)) : option (list Z) := OMap.get k ms.

(** Exactly the allowed names, each at most once. *)
Definition exactMembers (l : list Z) (allowed : list string) : option (list (string * list Z)) :=
  match rawMembers l with
  | Some ms => if forallb (fun m => bool_decide (m.1 ∈ allowed)) ms && bool_decide (NoDup (map fst ms)) then Some ms else None
  | None => None
  end.

(** The size of a text without the white space between its tokens. *)
Fixpoint compact_from (inString esc : bool) (l : list Z) : Z :=
  match l with
  | [] => 0
  | c :: r =>
    if inString then
      1 + (if esc then compact_from true false r
           else if c =? 92 then compact_from true true r
           else if c =? 34 then compact_from false false r
           else compact_from true false r)
    else if is_ws c then compact_from false false r
    else 1 + compact_from (c =? 34) false r
  end.
Definition compactSize (raw : list Z) : Z := compact_from false false raw.

(** The regular expression INTEGER (an integer without leading zeros), with at
    most 19 digits.  [Number] rounds beyond 2^53,
    but every caller refuses what exceeds [MAX_SAFE_INTEGER], which rounding
    never goes below. *)
Definition int64Literal (raw : list Z) : option Z :=
  match parse_num raw with
  | Some (n, []) =>
    if Z.of_nat (length match raw with c :: r => if c =? 45 then r else raw | [] => [] end) <=? 19 then Some n else None
  | _ => None
  end.

(** ** Controls *)

Definition control_members : list string := ["kind"; "scope"; "epoch"; "expires_at"; "data"]%string.
Definition scope_members : list string := ["type"; "id"]%string.

(** [JSON.parse] of a member's text; an absent member is [undefined]. *)
Definition parse_optional (raw : option (list Z)) : option (option json) :=
  match raw with
  | Some l => match parse l with Some v => Some (Some v) | None => None end
  | None => Some None
  end.

Definition body_json (kind type id : option json) (epoch expiresAt : Z) (data : option json) : json :=
  obj [("kind", kind); ("scope", Some (obj [("type", type); ("id", id)])); ("epoch", Some (JNum epoch));
       ("expires_at", Some (JNum expiresAt)); ("data", data)]%string.

Definition fields_ok (kind type id : option json) (epoch expiresAt : Z) : bool :=
  controlWord kind && controlWord type && validText id && (0 <=? epoch) && (epoch <=? max_safe) &&
  safe_positive (Some (JNum expiresAt)).

Definition parseControlBody (text : list Z) : option json :=
  let n := Z.of_nat (length text) in
  if (n =? 0) || (MAX_CONTROL_DATA + 1024 <? n) then None
  else
    top ← exactMembers text control_members;
    scope_raw ← raw_get "scope" top;
    kind_raw ← raw_get "kind" top;
    epoch_raw ← raw_get "epoch" top;
    expires_raw ← raw_get "expires_at" top;
    scopeRaw ← exactMembers scope_raw scope_members;
    kind ← parse kind_raw;
    type ← parse_optional (raw_get "type" scopeRaw);
    id ← parse_optional (raw_get "id" scopeRaw);
    epoch ← int64Literal epoch_raw;
    expiresAt ← int64Literal expires_raw;
    if negb (fields_ok (Some kind) type id epoch expiresAt) then None
    else match raw_get "data" top with
         | None => Some (body_json (Some kind) type id epoch expiresAt None)
         | Some raw =>
           if MAX_CONTROL_DATA <? compactSize raw then None
           else data ← parse raw; Some (body_json (Some kind) type id epoch expiresAt (Some data))
         end.

Definition expires_of (b : json) : Z := num_or 0 (field "expires_at" b).

(** [validateControlSend] serializes the body it is given. *)
Definition validateControlSend (body : json) (now : Z) : option json :=
  b ← parseControlBody (stringify body);
  if (expires_of b <=? now) || (now + MAX_CONTROL_TTL <? expires_of b) then None else Some b.

Inductive control_status := Delivered | Expired | Invalid.

Definition judgeControl (raw : list Z) (now : Z) : control_status * option json :=
  match parseControlBody raw with
  | None => (Invalid, None)
  | Some b =>
    if now + MAX_CONTROL_TTL + CONTROL_CLOCK_SKEW <? expires_of b then (Invalid, None)
    else (if expires_of b <=? now then Expired else Delivered, Some b)
  end.

Definition controlDisposition (raw : list Z) (now : Z) : control_status := (judgeControl raw now).1.

Definition is_object (v : option json) : bool := match v with Some (JArr _) | Some (JObj _) => true | _ => false end.
Definition member_of (k : string) (v : option json) : option json := match v with Some w => field k w | None => None end.

(** What is kept at rest of a control: never its data. *)
Definition controlArchiveBody (b : option json) : option json :=
  if is_object b && is_object (member_of "scope" b) then
    let scope := member_of "scope" b in
    Some (obj [("kind", member_of "kind" b); ("scope", Some (obj [("type", member_of "type" scope); ("id", member_of "id" scope)]));
               ("epoch", member_of "epoch" b); ("expires_at", member_of "expires_at" b)]%string)
  else None.

(** ** The scanners on the grammar *)

Lemma scan_chars_text t s r : str_text t s -> scan_chars (t ++ 34 :: r) = Some r.
Proof.
  assert (Hhex : forall h1 h2 h3 h4 n l, unhex4 h1 h2 h3 h4 = Some n ->
    scan_chars (h1 :: h2 :: h3 :: h4 :: l) = scan_chars l).
  { intros h1 h2 h3 h4 n l Hh. apply unhex4_quote in Hh. rewrite !Forall_cons in Hh.
    destruct Hh as ([] & [] & [] & [] & _). cbn [scan_chars]. by zcases. }
  induction 1 as [|c t s H1 H2 H3 _ IH|e c t s H1 H2 _ IH|h1 h2 h3 h4 cp t s H1 H2 H3 _ IH
    |h1 h2 h3 h4 g1 g2 g3 g4 cp lo t s H1 H2 H3 H4 _ IH]; [done|..]; cbn [app].
  - cbn [scan_chars]. by zcases.
  - done.
  - change (scan_chars (h1 :: h2 :: h3 :: h4 :: t ++ 34 :: r) = Some r). by rewrite (Hhex _ _ _ _ cp).
  - change (scan_chars (h1 :: h2 :: h3 :: h4 :: 92 :: 117 :: g1 :: g2 :: g3 :: g4 :: t ++ 34 :: r) = Some r).
    rewrite (Hhex _ _ _ _ cp) by done.
    change (scan_chars (g1 :: g2 :: g3 :: g4 :: t ++ 34 :: r) = Some r). by rewrite (Hhex _ _ _ _ lo).
Qed.

(** The separators of the scanners and of the token walk. *)
Definition punctuation (c : Z) : bool := (c =? 123) || (c =? 125) || (c =? 91) || (c =? 93) || (c =? 44) || (c =? 58).
Definition token_space (c : Z) : bool := is_ws c || (c =? 11) || (c =? 12).

(** No character of a literal or number ends a scalar. *)
Lemma digit_plain c : is_digit c = true -> scalar_stop c = false /\ punctuation c = false /\ token_space c = false /\ c <> 34.
Proof. unfold is_digit, scalar_stop, punctuation, token_space, is_ws. rewrite andb_true_iff. intros []. zcases; done || lia. Qed.

Definition plain_char (c : Z) : Prop := scalar_stop c = false /\ punctuation c = false /\ token_space c = false /\ c <> 34.

Lemma parse_digits_plain t a n : parse_digits t a = (n, []) -> Forall plain_char t.
Proof.
  revert a. induction t as [|c t IH]; intros a; [constructor|]. simpl. destruct (is_digit c) eqn:Hc; [|done].
  intros E%IH. constructor; [by apply digit_plain|done].
Qed.

Lemma parse_nat_plain t n : parse_nat t = Some (n, []) -> Forall plain_char t.
Proof.
  unfold parse_nat. destruct t as [|c t]; [done|]. destruct (is_digit c) eqn:Hc; [|done]. destruct (c =? 48).
  - destruct t as [|d t]; [|by destruct (is_digit d)]. intros _. repeat constructor; by apply digit_plain.
  - intros [= E]. by eapply parse_digits_plain.
Qed.

Lemma scalar_plain v t : scalar_text v t -> Forall plain_char t.
Proof.
  intros [| | |n t' E]; try (repeat constructor; done).
  unfold parse_num in E. destruct t' as [|c t']; [done|]. apply parse_num_tail in E as [E _].
  destruct (Z.eqb_spec c 45) as [->|]; [|by eapply parse_nat_plain].
  destruct (parse_nat t') as [[m r]|] eqn:Em; [|done]. injection E as _ ->. constructor; [by repeat constructor|]. by eapply parse_nat_plain.
Qed.

Lemma skip_scalar_plain t r : Forall plain_char t -> stops r -> skip_scalar (t ++ r) = r.
Proof.
  induction 1 as [|c t (Hc & _) _ IH]; intros Hr; simpl.
  - destruct r as [|c r]; [done|]. simpl. unfold stops, stop_char in Hr. unfold scalar_stop.
    assert (E : (c =? 44) || (c =? 125) || (c =? 93) || is_ws c = true); [|by rewrite E].
    destruct (is_ws c), (c =? 44), (c =? 93), (c =? 125); done.
  - rewrite Hc. auto.
Qed.

Lemma scanValue_ws f w l : ws w -> scanValue f (w ++ l) = scanValue f l.
Proof. intros Hw. destruct f; [done|]. cbn [scanValue]. by rewrite skip_ws_app. Qed.

Lemma scan_name_text w k kt w1 l : ws w -> str_text kt k -> ws w1 -> scan_name (w ++ 34 :: kt ++ 34 :: w1 ++ 58 :: l) = Some l.
Proof.
  intros Hw Hk Hw1. unfold scan_name. rewrite skip_ws_app by done. cbn. rewrite (scan_chars_text kt k) by done.
  by rewrite skip_ws_app.
Qed.

(** One member of an object or array whose value the scanner passes. *)
Lemma scan_items_one value (object : bool) close n l l1 w r : (if object then scan_name l else Some l) = Some l1 ->
  value l1 = Some (w ++ close :: r) -> ws w -> close = 93 \/ close = 125 -> scan_items value object close (S n) l = Some r.
Proof.
  intros E1 E2 Hw Hc. cbn [scan_items]. rewrite E1, E2. rewrite skip_ws_app by done. by destruct Hc as [->| ->].
Qed.

Lemma scan_items_more value (object : bool) close n l l1 w r : (if object then scan_name l else Some l) = Some l1 ->
  value l1 = Some (w ++ 44 :: r) -> ws w -> scan_items value object close (S n) l = scan_items value object close n r.
Proof. intros E1 E2 Hw. cbn [scan_items]. rewrite E1, E2. by rewrite skip_ws_app. Qed.

(** The scanner enters a nonempty object or array. *)
Lemma scan_enter f c l w t' : c = 123 \/ c = 91 -> l = w ++ t' -> ws w -> opens t' ->
  scanValue (S f) (c :: l) = scan_items (scanValue f) (c =? 123) (if c =? 123 then 125 else 93) f t'.
Proof.
  intros Hc -> Hw Ho. cbn [scanValue]. destruct t' as [|c1 t1]; [done|]. destruct Ho as (Hws & H1 & H2).
  assert (E : skip_ws (w ++ c1 :: t1) = c1 :: t1). { rewrite skip_ws_app by done. simpl. by rewrite Hws. }
  destruct Hc as [->| ->]; cbn; rewrite E; by zcases.
Qed.

Lemma scan_items_ws value close n w l : ws w -> (forall l', value (w ++ l') = value l') ->
  scan_items value false close n (w ++ l) = scan_items value false close n l.
Proof. intros Hw Hv. destruct n; [done|]. cbn [scan_items]. by rewrite Hv. Qed.

Lemma scan_members_ws value close n w l : ws w -> scan_items value true close n (w ++ l) = scan_items value true close n l.
Proof. intros Hw. destruct n; [done|]. cbn [scan_items]. unfold scan_name. by rewrite skip_ws_app. Qed.

Lemma scan_value_text v t : value_text v t -> forall f r, (length t < f)%nat -> stops r -> scanValue f (t ++ r) = Some r.
Proof.
  revert v t. apply (value_text_mind
    (fun v t _ => forall f r, (length t < f)%nat -> stops r -> scanValue f (t ++ r) = Some r)
    (fun vs t _ => forall f n r, (length t < f)%nat -> (length t < n)%nat -> scan_items (scanValue f) false 93 n (t ++ 93 :: r) = Some r)
    (fun ms t _ => forall f n r, (length t < f)%nat -> (length t < n)%nat -> scan_items (scanValue f) true 125 n (t ++ 125 :: r) = Some r)).
  - intros v t Hs [|f] r Hf Hr; [lia|]. pose proof (scalar_opens v t r Hs) as Ho. pose proof (scalar_plain v t Hs) as Hp.
    cbn [scanValue]. rewrite opens_skip by done. destruct t as [|c t]; [by pose proof (scalar_opens v [] [] Hs)|].
    cbn [app]. apply Forall_cons in Hp as [(H1 & H2 & _ & H3) Hp]. unfold punctuation in H2.
    rewrite !orb_false_iff in H2. destruct H2 as (((((H4 & _) & H5) & _) & _) & _). rewrite H1, H4, H5.
    destruct (Z.eqb_spec c 34); [done|]. cbn. f_equal. by apply skip_scalar_plain.
  - intros s t Hs [|f] r Hf Hr; [lia|]. cbn. rewrite <- app_assoc. cbn [app]. by rewrite (scan_chars_text t s).
  - intros w Hw [|f] r Hf Hr; [lia|]. cbn. by rewrite <- app_assoc, skip_ws_app.
  - intros vs t Ht IH [|f] r Hf Hr; [lia|]. norm_lengths. rewrite <- app_comm_cons, <- app_assoc. cbn [app].
    destruct (items_opens vs t (93 :: r) Ht) as (w & t' & -> & Hw & Ho).
    rewrite (scan_enter f 91 _ w (t' ++ 93 :: r)); [|by right|by rewrite <- app_assoc|done|done]. cbn.
    rewrite <- (scan_items_ws _ _ _ w); [|done|intros; by apply scanValue_ws]. rewrite app_assoc. apply IH; lia.
  - intros w Hw [|f] r Hf Hr; [lia|]. cbn. by rewrite <- app_assoc, skip_ws_app.
  - intros ms t Ht IH [|f] r Hf Hr; [lia|]. norm_lengths. rewrite <- app_comm_cons, <- app_assoc. cbn [app].
    destruct (members_opens ms t (125 :: r) Ht) as (w & t' & -> & Hw & Ho).
    rewrite (scan_enter f 123 _ w (t' ++ 125 :: r)); [|by left|by rewrite <- app_assoc|done|done]. cbn.
    rewrite <- (scan_members_ws _ _ _ w) by done. rewrite app_assoc. apply IH; lia.
  - intros w v t w' Hw Ht IH Hw' f [|n] r Hf Hn; [lia|]. norm_lengths. rewrite <- !app_assoc.
    eapply scan_items_one; [done| |exact Hw'|by left]. rewrite scanValue_ws by done. apply IH; [lia|]. by apply stops_app.
  - intros w v t w' vs ts Hw Ht IH Hw' Hts IHs f [|n] r Hf Hn; [lia|]. norm_lengths. rewrite <- !app_assoc. cbn [app].
    rewrite (scan_items_more _ _ _ _ _ (w ++ t ++ w' ++ 44 :: ts ++ 93 :: r) w' (ts ++ 93 :: r)); [apply IHs; lia|done| |done].
    rewrite scanValue_ws by done. apply IH; [lia|]. by apply stops_app.
  - intros w k kt w1 w2 v t w3 Hw Hk Hw1 Hw2 Ht IH Hw3 f [|n] r Hf Hn; [lia|]. norm_lengths.
    repeat (rewrite <- app_assoc; cbn [app]). eapply scan_items_one; [by apply (scan_name_text w k)| |exact Hw3|by right].
    rewrite scanValue_ws by done. apply IH; [lia|]. by apply stops_app.
  - intros w k kt w1 w2 v t w3 ms ts Hw Hk Hw1 Hw2 Ht IH Hw3 Hms IHs f [|n] r Hf Hn; [lia|]. norm_lengths.
    repeat (rewrite <- app_assoc; cbn [app]).
    erewrite (scan_items_more _ _ _ _ _ _ w3 (ts ++ 125 :: r)); [apply IHs; lia|by apply (scan_name_text w k)| |done].
    rewrite scanValue_ws by done. apply IH; [lia|]. by apply stops_app.
Qed.

Lemma slice_app a b : slice (a ++ b) b = a.
Proof.
  unfold slice. rewrite length_app. replace (length a + length b - length b)%nat with (length a) by lia. apply take_app_length.
Qed.

Lemma parse_value_text v t : value_text v t -> parse t = Some v.
Proof.
  intros Ht. apply parse_json_text. exists [], t, []. rewrite app_nil_r. split_and!; [done|constructor..|done].
Qed.

Lemma parse_quoted k kt : str_text kt k -> parse (34 :: kt ++ [34]) = Some (JStr (string_of k)).
Proof. intros Hk. by apply parse_value_text, vt_str. Qed.

(** One round of the loop of [rawMembers]. *)
Lemma raw_items_step n w k kt w1 w2 v t w3 c r : ws w -> str_text kt k -> ws w1 -> ws w2 -> value_text v t -> ws w3 ->
  c = 44 \/ c = 125 ->
  raw_items (S n) (w ++ 34 :: kt ++ 34 :: w1 ++ 58 :: w2 ++ t ++ w3 ++ c :: r) =
  (if c =? 44 then match raw_items n r with Some (out, r') => Some ((string_of k, t) :: out, r') | None => None end
   else Some ([(string_of k, t)], r)).
Proof.
  intros Hw Hk Hw1 Hw2 Ht Hw3 Hc. cbn [raw_items]. rewrite skip_ws_app by done.
  set (l1 := w1 ++ 58 :: w2 ++ t ++ w3 ++ c :: r).
  change (skip_ws (34 :: kt ++ 34 :: l1)) with (34 :: kt ++ 34 :: l1).
  change (scanString (34 :: kt ++ 34 :: l1)) with (scan_chars (kt ++ 34 :: l1)). rewrite (scan_chars_text kt k) by done.
  assert (Ek : slice (34 :: kt ++ 34 :: l1) l1 = 34 :: kt ++ [34]).
  { rewrite <- (slice_app (34 :: kt ++ [34]) l1). f_equal. by rewrite <- app_comm_cons, <- app_assoc. }
  rewrite Ek, (parse_quoted k kt) by done. unfold l1. rewrite skip_ws_app by done. cbn [skip_ws]. change (is_ws 58) with false.
  change (58 =? 58) with true. cbn iota. rewrite (value_skip w2 v t) by done.
  assert (Hs : stops (w3 ++ c :: r)). { apply stops_app; [done|]. apply stops_close. naive_solver. }
  rewrite (scan_value_text v t Ht); [|rewrite length_app; lia|done]. rewrite slice_app, skip_ws_app by done.
  by destruct Hc as [->| ->].
Qed.

(** The text of a member, against the member. *)
Definition text_of_member (m : string * json) (x : string * list Z) : Prop := x.1 = m.1 /\ value_text m.2 x.2.

Lemma raw_items_text ms t : members_text ms t -> forall n r, (length t < n)%nat ->
  exists raws, raw_items n (t ++ 125 :: r) = Some (raws, r) /\ Forall2 text_of_member ms raws /\
    Forall (fun x => (length x.2 <= length t)%nat) raws.
Proof.
  induction 1 as [w k kt w1 w2 v t w3 Hw Hk Hw1 Hw2 Ht Hw3|w k kt w1 w2 v t w3 ms ts Hw Hk Hw1 Hw2 Ht Hw3 Hms IH];
    intros [|n] r Hn; try lia; norm_lengths; repeat (rewrite <- app_assoc; cbn [app]).
  - rewrite (raw_items_step n w k kt w1 w2 v t w3) by (done || by right). eexists. split_and!; [done|constructor; [done|constructor]|].
    constructor; [simpl; lia|constructor].
  - rewrite (raw_items_step n w k kt w1 w2 v t w3) by (done || by left). cbn.
    destruct (IH n r) as (raws & -> & Hr & Hlen); [lia|]. eexists. split_and!; [done|by constructor|].
    constructor; [simpl; lia|]. eapply Forall_impl; [exact Hlen|]. simpl. lia.
Qed.

Lemma rawMembers_text ms l : json_text (JObj ms) l ->
  exists raws, rawMembers l = Some raws /\ Forall2 text_of_member ms raws /\ Forall (fun x => (length x.2 <= length l)%nat) raws.
Proof.
  intros (w & t & w' & -> & Hw & Hw' & Ht). unfold rawMembers. inversion Ht as [v t' Hs| | | |w1 Hw1|ms' t' Hm]; subst.
  - inversion Hs.
  - exists []. rewrite skip_ws_app by done. cbn. rewrite <- app_assoc, skip_ws_app by done. cbn. rewrite skip_ws_all by done.
    split_and!; [done|constructor..].
  - rewrite skip_ws_app by done. cbn [app skip_ws]. change (is_ws 123) with false. cbn iota. change (123 =? 123) with true. cbn iota.
    rewrite <- app_assoc. cbn [app].
    destruct (raw_items_text ms t' Hm (S (length (t' ++ 125 :: w'))) w') as (raws & E & Hr & Hlen); [rewrite length_app; lia|].
    destruct (members_opens ms t' (125 :: w') Hm) as (w1 & t1 & -> & Hw1 & Ho). exists raws. split_and!; [|done|].
    2:{ eapply Forall_impl; [exact Hlen|]. intros x Hx. norm_lengths. lia. }
    rewrite <- app_assoc, skip_ws_app, opens_skip by done. rewrite <- app_assoc in E.
    destruct (t1 ++ 125 :: w') as [|c1 r1]; [done|]. destruct Ho as (_ & _ & H2). destruct (Z.eqb_spec c1 125); [done|].
    rewrite E. by rewrite skip_ws_all.
Qed.

Lemma rawMembers_parse ms l : parse l = Some (JObj ms) ->
  exists raws, rawMembers l = Some raws /\ Forall2 (fun m x => x.1 = m.1 /\ parse x.2 = Some m.2) ms raws.
Proof.
  intros (raws & E & Hr & _)%parse_json_text%rawMembers_text. exists raws. split; [done|].
  eapply Forall2_impl; [exact Hr|]. intros m x [H1 H2]. split; [done|]. by apply parse_value_text.
Qed.

(** ** The control parser against a parser of the whole text *)

Definition names_ok (allowed : list string) (ms : list (string * json)) : bool :=
  forallb (fun m => bool_decide (m.1 ∈ allowed)) ms && bool_decide (NoDup (map fst ms)).

(** What [parseControlBody] means to accept, on the parsed value. *)
Definition control_spec (v : json) : option json :=
  match v, field "scope" v, field "kind" v, field "epoch" v, field "expires_at" v with
  | JObj ms, Some (JObj sm), Some kind, Some (JNum epoch), Some (JNum expiresAt) =>
    let type := field "type" (JObj sm) in
    let id := field "id" (JObj sm) in
    if names_ok control_members ms && names_ok scope_members sm && fields_ok (Some kind) type id epoch expiresAt
    then Some (body_json (Some kind) type id epoch expiresAt (field "data" v)) else None
  | _, _, _, _, _ => None
  end.

(** The sizes, which are of the text and not of the value. *)
Definition sizes_ok (text : list Z) : bool :=
  negb ((Z.of_nat (length text) =? 0) || (MAX_CONTROL_DATA + 1024 <? Z.of_nat (length text))) &&
  match rawMembers text ≫= raw_get "data" with Some raw => compactSize raw <=? MAX_CONTROL_DATA | None => true end.

Lemma text_members_fst ms raws : Forall2 text_of_member ms raws -> map fst raws = map fst ms.
Proof. induction 1 as [|m x ms raws [E _] _ IH]; [done|]. simpl. by rewrite E, IH. Qed.

(** With distinct names, looking up the text and the value agree. *)
Definition lookup_agrees (v : option json) (raw : option (list Z)) : Prop :=
  match v, raw with Some v, Some t => value_text v t | None, None => True | _, _ => False end.

Lemma assoc_last_notin k ms : k ∉ map fst ms -> assoc_last k ms = None.
Proof.
  induction ms as [|[k' v] ms IH]; [done|]. cbn [map fst]. intros [Hk Hn]%not_elem_of_cons. simpl. rewrite IH by done.
  by rewrite decide_False.
Qed.

Lemma raw_get_agrees k ms raws : Forall2 text_of_member ms raws -> NoDup (map fst ms) ->
  lookup_agrees (assoc_last k ms) (raw_get k raws).
Proof.
  induction 1 as [|[k' v] [k2 t] ms raws [E Ht] _ IH]; intros Hnd; [done|]. simpl in E, Ht. subst k2.
  cbn [map fst] in Hnd. apply NoDup_cons in Hnd as [Hk Hnd]. specialize (IH Hnd).
  unfold raw_get in *. cbn [assoc_last OMap.get]. destruct (decide (k = k')) as [->|Hne].
  - by rewrite assoc_last_notin.
  - by destruct (assoc_last k ms).
Qed.

Lemma exactMembers_text ms l allowed : json_text (JObj ms) l ->
  exists raws, rawMembers l = Some raws /\ exactMembers l allowed = (if names_ok allowed ms then Some raws else None) /\
    Forall2 text_of_member ms raws.
Proof.
  intros (raws & E & Hr & _)%rawMembers_text. exists raws. split_and!; [done| |done].
  unfold exactMembers, names_ok. rewrite E. rewrite (text_members_fst ms raws) by done.
  assert (Ef : forallb (fun m => bool_decide (m.1 ∈ allowed)) raws = forallb (fun m => bool_decide (m.1 ∈ allowed)) ms); [|by rewrite Ef].
  clear E. induction Hr as [|m x ms' raws' [E _] _ IH]; [done|]. simpl. by rewrite E, IH.
Qed.

Lemma rawMembers_other v l : json_text v l -> (forall ms, v <> JObj ms) -> rawMembers l = None.
Proof.
  intros (w & t & w' & -> & Hw & Hw' & Ht) Hv. unfold rawMembers. rewrite (value_skip w v t) by done.
  destruct Ht as [v t [| | |n t' (c & t2 & -> & Hc)%parse_num_head]| | | | |]; try done; try (exfalso; by eapply Hv).
  destruct Hc as [->|Hd]; [done|]. cbn [app]. unfold is_digit in Hd. destruct (Z.eqb_spec c 123) as [->|]; done.
Qed.

Lemma parse_digits_ge t a n : 0 <= a -> parse_digits t a = (n, []) -> a * 10 ^ Z.of_nat (length t) <= n.
Proof.
  revert a. induction t as [|c t IH]; intros a Ha; cbn [parse_digits length]; [intros [= <-]; lia|].
  unfold is_digit. destruct (Z.leb_spec 48 c); [|done]. destruct (Z.leb_spec c 57); [|done]. cbn [andb].
  intros E%IH; [|lia]. rewrite Nat2Z.inj_succ, Z.pow_succ_r by lia. nia.
Qed.

Lemma parse_nat_long t n : parse_nat t = Some (n, []) -> 19 < Z.of_nat (length t) -> max_safe < n.
Proof.
  unfold parse_nat. destruct t as [|c t]; [done|]. destruct (is_digit c) eqn:Hc; [|done]. destruct (Z.eqb_spec c 48) as [->|Hne].
  { destruct t as [|d t]; [simpl; lia|]. by destruct (is_digit d). }
  cbn [parse_digits length]. rewrite Hc. intros [= E] Hl. unfold is_digit in Hc. apply andb_true_iff in Hc as [H1%Z.leb_le H2%Z.leb_le].
  apply parse_digits_ge in E; [|lia]. rewrite Nat2Z.inj_succ in Hl.
  assert (10 ^ 19 <= 10 ^ Z.of_nat (length t)) by (apply Z.pow_le_mono_r; lia). unfold max_safe. nia.
Qed.

Lemma int64_text n raw : parse_num raw = Some (n, []) ->
  int64Literal raw = Some n \/ int64Literal raw = None /\ (n < 0 \/ max_safe < n).
Proof.
  intros E. unfold int64Literal. rewrite E. destruct (Z.leb_spec (Z.of_nat (length match raw with c :: r => if c =? 45 then r else raw | [] => [] end)) 19); [by left|right].
  split; [done|]. unfold parse_num in E. destruct raw as [|c raw]; [done|]. apply parse_num_tail in E as [E _].
  destruct (Z.eqb_spec c 45) as [->|].
  - destruct (parse_nat raw) as [[m r]|] eqn:Em; [|done]. injection E as <- ->. left. apply parse_nat_long in Em; [|done].
    unfold max_safe in Em. lia.
  - right. by apply parse_nat_long in E.
Qed.

Lemma num_text v raw : value_text v raw -> (exists n, v = JNum n /\ parse_num raw = Some (n, [])) \/ int64Literal raw = None /\ forall n, v <> JNum n.
Proof.
  intros Ht. destruct (parse_num raw) as [[n [|c r]]|] eqn:E.
  - left. exists n. split; [|done]. pose proof (parse_value_text _ _ (vt_scalar _ _ (sc_num n raw E))) as E1.
    rewrite (parse_value_text v raw Ht) in E1. congruence.
  - right. unfold int64Literal. rewrite E. split; [done|]. intros m ->. inversion Ht; subst. inversion H; subst. congruence.
  - right. unfold int64Literal. rewrite E. split; [done|]. intros m ->. inversion Ht; subst. inversion H; subst. congruence.
Qed.

(** A number too long for [int64Literal] is out of every range. *)
Lemma fields_epoch kind type id epoch expiresAt : epoch < 0 \/ max_safe < epoch -> fields_ok kind type id epoch expiresAt = false.
Proof.
  intros He. unfold fields_ok. destruct (controlWord kind && controlWord type && validText id); [|done].
  destruct (Z.leb_spec 0 epoch), (Z.leb_spec epoch max_safe); (lia || by rewrite ?andb_false_r).
Qed.

Lemma fields_expires kind type id epoch expiresAt : expiresAt < 0 \/ max_safe < expiresAt -> fields_ok kind type id epoch expiresAt = false.
Proof.
  intros He. unfold fields_ok. apply andb_false_iff. right. unfold safe_positive, isSafeInteger, is_safe_integer. cbn.
  zcases; done || lia.
Qed.

(** The text of a scope. *)
Lemma scope_text sm raw : value_text (JObj sm) raw ->
  exists sraws, exactMembers raw scope_members = (if names_ok scope_members sm then Some sraws else None) /\
    Forall2 text_of_member sm sraws.
Proof.
  intros Ht. destruct (exactMembers_text sm raw scope_members) as (sraws & _ & E & Hs); [|by exists sraws].
  by apply parse_json_text, parse_value_text.
Qed.

Lemma scope_other v raw : value_text v raw -> (forall sm, v <> JObj sm) -> exactMembers raw scope_members = None.
Proof.
  intros Ht Hv. unfold exactMembers. rewrite (rawMembers_other v); [done| |done]. by apply parse_json_text, parse_value_text.
Qed.

Lemma parse_optional_agrees v raw : lookup_agrees v raw -> parse_optional raw = Some v.
Proof.
  destruct v as [v|], raw as [t|]; simpl; try done. intros Ht. by rewrite (parse_value_text v t Ht).
Qed.

Lemma names_ok_nodup allowed ms : names_ok allowed ms = true -> NoDup (map fst ms).
Proof. intros [_ H]%andb_true_iff. by apply bool_decide_eq_true in H. Qed.

(** The body of [parseControlBody] after its names have been checked, on texts
    that agree with the values [scope], [kind], [epoch], [expires] and [data]. *)
Definition control_body (scope kind epoch expires data : option (list Z)) : option json :=
  scope_raw ← scope; kind_raw ← kind; epoch_raw ← epoch; expires_raw ← expires;
  scopeRaw ← exactMembers scope_raw scope_members;
  kind ← parse kind_raw;
  type ← parse_optional (raw_get "type" scopeRaw);
  id ← parse_optional (raw_get "id" scopeRaw);
  epoch ← int64Literal epoch_raw;
  expiresAt ← int64Literal expires_raw;
  if negb (fields_ok (Some kind) type id epoch expiresAt) then None
  else match data with
       | None => Some (body_json (Some kind) type id epoch expiresAt None)
       | Some raw =>
         if MAX_CONTROL_DATA <? compactSize raw then None
         else data ← parse raw; Some (body_json (Some kind) type id epoch expiresAt (Some data))
       end.

Definition control_value (scope kind epoch expires data : option json) : option json :=
  match scope, kind, epoch, expires with
  | Some (JObj sm), Some kind, Some (JNum epoch), Some (JNum expiresAt) =>
    let type := field "type" (JObj sm) in
    let id := field "id" (JObj sm) in
    if names_ok scope_members sm && fields_ok (Some kind) type id epoch expiresAt
    then Some (body_json (Some kind) type id epoch expiresAt data) else None
  | _, _, _, _ => None
  end.

Definition data_ok (data : option (list Z)) : bool :=
  match data with Some raw => compactSize raw <=? MAX_CONTROL_DATA | None => true end.

Lemma control_body_agrees scope kind epoch expires data vs vk ve vx vd : lookup_agrees vs scope -> lookup_agrees vk kind ->
  lookup_agrees ve epoch -> lookup_agrees vx expires -> lookup_agrees vd data ->
  control_body scope kind epoch expires data = if data_ok data then control_value vs vk ve vx vd else None.
Proof.
  intros Hs Hk He Hx Hd. unfold control_body, control_value.
  destruct vs as [vs|], scope as [scope|]; simpl in Hs; try done; [|by destruct (data_ok data)].
  destruct vk as [vk|], kind as [kind|]; simpl in Hk; try done; [|by destruct (data_ok data), vs].
  destruct ve as [ve|], epoch as [epoch|]; simpl in He; try done; [|by destruct (data_ok data), vs].
  destruct vx as [vx|], expires as [expires|]; simpl in Hx; try done; [|by destruct (data_ok data), vs, ve].
  cbn [mbind option_bind]. rewrite (parse_value_text vk kind Hk).
  destruct vs as [| | | | |sm]; try (rewrite (scope_other _ _ Hs) by done; by destruct (data_ok data)).
  destruct (scope_text sm scope Hs) as (sraws & -> & Hsr).
  destruct (names_ok scope_members sm) eqn:En; [|by destruct (data_ok data), ve, vx].
  apply names_ok_nodup in En. cbn [mbind option_bind andb].
  rewrite (parse_optional_agrees _ _ (raw_get_agrees "type" sm sraws Hsr En)).
  rewrite (parse_optional_agrees _ _ (raw_get_agrees "id" sm sraws Hsr En)). cbn [mbind option_bind].
  change (field "type" (JObj sm)) with (assoc_last "type" sm). change (field "id" (JObj sm)) with (assoc_last "id" sm).
  destruct (num_text ve epoch He) as [(n & -> & En1)|[-> Hn]]; [|by destruct (data_ok data), ve; try (by destruct vx); exfalso; eapply Hn].
  destruct (num_text vx expires Hx) as [(x & -> & Ex1)|[-> Hn]]; [|destruct (int64Literal epoch), (data_ok data), vx; done || exfalso; by eapply Hn].
  destruct (int64_text n epoch En1) as [->|[-> Hr]]; [|rewrite fields_epoch by done; by destruct (data_ok data)].
  destruct (int64_text x expires Ex1) as [->|[-> Hr]]; [|rewrite fields_expires by done; by destruct (data_ok data)].
  cbn [mbind option_bind]. destruct (fields_ok _ _ _ n x); [|by destruct (data_ok data)]. cbn [negb].
  destruct vd as [vd|], data as [raw|]; simpl in Hd; try done. cbn [data_ok].
  destruct (Z.ltb_spec MAX_CONTROL_DATA (compactSize raw)), (Z.leb_spec (compactSize raw) MAX_CONTROL_DATA); try lia; [done|].
  by rewrite (parse_value_text vd raw Hd).
Qed.

Lemma parseControlBody_text text v : parse text = Some v ->
  parseControlBody text = if sizes_ok text then control_spec v else None.
Proof.
  intros Hv%parse_json_text. unfold parseControlBody, sizes_ok.
  destruct ((Z.of_nat (length text) =? 0) || (MAX_CONTROL_DATA + 1024 <? Z.of_nat (length text))); [done|]. cbn [negb andb].
  destruct v as [| | | | |ms]; try (unfold exactMembers; rewrite (rawMembers_other _ text Hv) by done; done).
  destruct (exactMembers_text ms text control_members Hv) as (raws & -> & -> & Hr). cbn [mbind option_bind].
  assert (Hspec : control_spec (JObj ms) = if names_ok control_members ms
    then control_value (assoc_last "scope" ms) (assoc_last "kind" ms) (assoc_last "epoch" ms) (assoc_last "expires_at" ms) (assoc_last "data" ms)
    else None).
  { unfold control_spec, control_value. cbn [field].
    destruct (assoc_last "scope" ms) as [[| | | | |sm]|], (assoc_last "kind" ms), (assoc_last "epoch" ms) as [[]|],
      (assoc_last "expires_at" ms) as [[]|]; by destruct (names_ok control_members ms). }
  rewrite Hspec. destruct (names_ok control_members ms) eqn:En; [|by destruct (raw_get "data" raws) as [raw|]; [destruct (_ <=? _)|]].
  apply names_ok_nodup in En. pose proof (fun k => raw_get_agrees k ms raws Hr En) as Ha.
  exact (control_body_agrees _ _ _ _ _ _ _ _ _ _ (Ha "scope"%string) (Ha "kind"%string) (Ha "epoch"%string)
    (Ha "expires_at"%string) (Ha "data"%string)).
Qed.

(** ** What the scanners accept is JSON *)

Lemma suffix_after {A} (a b r : list A) : r `suffix_of` b -> r `suffix_of` a ++ b.
Proof. apply suffix_app_r. Qed.

Lemma skip_ws_suffix l : skip_ws l `suffix_of` l.
Proof. destruct (skip_ws_split l) as (w & E & _). by exists w. Qed.

Lemma scan_chars_suffix l r : scan_chars l = Some r -> r `suffix_of` l.
Proof.
  remember (length l) as n eqn:En. assert (Hn : (length l <= n)%nat) by lia. clear En. revert l Hn.
  induction n as [|n IH]; intros [|c l] Hn; try done; [cbn in Hn; lia|]. cbn [scan_chars length] in *. destruct (c =? 92).
  - destruct l as [|c' l]; [done|]. intros E. do 2 apply suffix_cons_r. apply IH; [cbn in Hn; lia|done].
  - destruct (c =? 34); [intros [= ->]; by apply suffix_cons_r|]. intros E. apply suffix_cons_r, IH; [lia|done].
Qed.

Lemma scanString_suffix l r : scanString l = Some r -> r `suffix_of` l.
Proof. unfold scanString. destruct l as [|c l]; [done|]. destruct (c =? 34); [|done]. intros E. by apply suffix_cons_r, scan_chars_suffix. Qed.

Lemma skip_scalar_suffix l : skip_scalar l `suffix_of` l.
Proof. induction l as [|c l IH]; [done|]. cbn [skip_scalar]. destruct (scalar_stop c); [done|]. by apply suffix_cons_r. Qed.

Lemma after_ws l c r : skip_ws l = c :: r -> r `suffix_of` l.
Proof. intros E. trans (skip_ws l); [rewrite E; by apply suffix_cons_r|apply skip_ws_suffix]. Qed.

Lemma scan_name_suffix l r : scan_name l = Some r -> r `suffix_of` l.
Proof.
  unfold scan_name. destruct (scanString (skip_ws l)) as [i|] eqn:Ei; [|done]. destruct (skip_ws i) as [|c i'] eqn:Ew; [done|].
  destruct (c =? 58); [|done]. intros [= ->]. trans i; [by eapply after_ws|]. trans (skip_ws l); [by apply scanString_suffix|apply skip_ws_suffix].
Qed.

Lemma scan_items_suffix value object close : (forall l r, value l = Some r -> r `suffix_of` l) ->
  forall n l r, scan_items value object close n l = Some r -> r `suffix_of` l.
Proof.
  intros Hv. induction n as [|n IH]; intros l r; [done|]. cbn [scan_items].
  assert (Hn : forall l1, (if object then scan_name l else Some l) = Some l1 -> l1 `suffix_of` l).
  { intros l1. destruct object; [apply scan_name_suffix|by intros [= ->]]. }
  destruct (if object then scan_name l else Some l) as [l1|]; [|done]. specialize (Hn l1 eq_refl). destruct (value l1) as [i|] eqn:Ev; [|done]. apply Hv in Ev.
  destruct (skip_ws i) as [|c i'] eqn:Ew; [done|]. apply after_ws in Ew. intros E. trans l1; [|done]. trans i; [|done].
  destruct (c =? 44); [apply IH in E; by trans i'|]. destruct (c =? close); [|done]. by injection E as ->.
Qed.

Lemma scanValue_suffix n l r : scanValue n l = Some r -> r `suffix_of` l.
Proof.
  revert l r. induction n as [|n IH]; intros l r; [done|]. cbn [scanValue]. destruct (skip_ws l) as [|c i] eqn:Ew; [done|].
  pose proof (after_ws _ _ _ Ew) as Hi. destruct (c =? 34); [intros E%scan_chars_suffix; by trans i|]. destruct (_ || _).
  - destruct (skip_ws i) as [|c1 r1] eqn:Ew1; [done|]. pose proof (after_ws _ _ _ Ew1) as Hr1. destruct (c1 =? _); [intros [= ->]; by trans i|].
    intros E%scan_items_suffix; [|exact IH]. trans i; [|done]. trans (skip_ws i); [by rewrite Ew1|apply skip_ws_suffix].
  - destruct (scalar_stop c); [done|]. intros [= <-]. trans i; [apply skip_scalar_suffix|done].
Qed.

Lemma slice_suffix a b : b `suffix_of` a -> a = slice a b ++ b.
Proof. intros [k ->]. by rewrite slice_app. Qed.

Lemma ws_app w w' : ws w -> ws w' -> ws (w ++ w').
Proof. apply Forall_app_2. Qed.

(** The loop of [rawMembers] reads members, if the texts it cuts out are JSON. *)
Lemma raw_items_inv n : forall l out r, raw_items n l = Some (out, r) -> Forall (fun x => is_Some (parse x.2)) out ->
  exists ms t, l = t ++ 125 :: r /\ members_text ms t.
Proof.
  induction n as [|n IH]; intros l out r; [done|]. cbn [raw_items]. destruct (skip_ws_split l) as (w & El & Hw).
  destruct (scanString (skip_ws l)) as [i|] eqn:Es; [|done]. pose proof (slice_suffix _ _ (scanString_suffix _ _ Es)) as Ek.
  destruct (parse (slice (skip_ws l) i)) as [[| | |k| |]|] eqn:Epk; try done. destruct (skip_ws_split i) as (w1 & Ei & Hw1).
  destruct (skip_ws i) as [|c i1]; [done|]. destruct (Z.eqb_spec c 58) as [->|]; [|done]. cbv zeta. destruct (skip_ws_split i1) as (w2 & Ei1 & Hw2).
  destruct (scanValue _ (skip_ws i1)) as [i2|] eqn:Ev; [|done]. pose proof (slice_suffix _ _ (scanValue_suffix _ _ _ Ev)) as Evs.
  set (vt := slice (skip_ws i1) i2) in *. destruct (skip_ws_split i2) as (w3 & Ei2 & Hw3). destruct (skip_ws i2) as [|c2 i3]; [done|].
  apply parse_json_text in Epk as (u & kq & u' & Eq & Hu & Hu' & Hkq). inversion Hkq as [? ? Hx|s kt Hkt| | | |]; subst kq; [inversion Hx|]. subst k.
  rewrite Evs, Ei2 in Ei1. rewrite Ei1 in Ei. rewrite Eq, Ei in Ek. rewrite Ek in El. clear Ek Ei Ei1 Ei2 Evs Eq.
  assert (Hone : is_Some (parse vt) -> exists v t x x', vt = x ++ t ++ x' /\ ws x /\ ws x' /\ value_text v t) by (intros [v (x & t & x' & ?)%parse_json_text]; by exists v, t, x, x').
  destruct (Z.eqb_spec c2 44) as [->|].
  - destruct (raw_items n i3) as [[out' r']|] eqn:Er; [|done]. intros [= <- <-] [Hp Hps]%Forall_cons. destruct (IH _ _ _ Er Hps) as (ms & t & -> & Hms).
    destruct (Hone Hp) as (v & tv & x & x' & -> & Hx & Hx' & Hv).
    eexists _, _. split; [|apply (mt_cons (w ++ u) s kt (u' ++ w1) (w2 ++ x) v tv (x' ++ w3) ms t); auto using ws_app]. rewrite El. flat_apps. done.
  - destruct (Z.eqb_spec c2 125) as [->|]; [|done]. intros [= <- <-] [Hp _]%Forall_cons. destruct (Hone Hp) as (v & tv & x & x' & -> & Hx & Hx' & Hv).
    eexists _, _. split; [|apply (mt_one (w ++ u) s kt (u' ++ w1) (w2 ++ x) v tv (x' ++ w3)); auto using ws_app]. rewrite El. flat_apps. done.
Qed.

Lemma rawMembers_inv l out : rawMembers l = Some out -> Forall (fun x => is_Some (parse x.2)) out -> is_Some (parse l).
Proof.
  unfold rawMembers. destruct (skip_ws_split l) as (w & El & Hw). destruct (skip_ws l) as [|c r]; [done|]. destruct (Z.eqb_spec c 123) as [->|]; [|done].
  cbv zeta. assert (Hend : forall i, skip_ws i = [] -> ws i) by (intros i Ei; destruct (skip_ws_split i) as (w' & E & Hw'); by rewrite Ei, app_nil_r in E; subst).
  intros E Hp. assert (exists v t i, 123 :: r = t ++ i /\ value_text v t /\ skip_ws i = []) as (v & t & i & Et & Hv & Hi).
  { destruct (skip_ws_split r) as (w1 & Er & Hw1). destruct (skip_ws r) as [|c1 r1]; [done|]. destruct (Z.eqb_spec c1 125) as [->|].
    - destruct (skip_ws r1) eqn:E1; [|done]. exists (JObj []), (123 :: w1 ++ [125]), r1. split_and!; [rewrite Er; by flat_apps|by apply vt_obj_nil|done].
    - destruct (raw_items _ r) as [[ms i]|] eqn:Ei; [|done]. destruct (skip_ws i) eqn:E1; [|done]. injection E as ->.
      destruct (raw_items_inv _ _ _ _ Ei Hp) as (ms & t & -> & Hms). exists (JObj ms), (123 :: t ++ [125]), i. split_and!; [by flat_apps|by apply vt_obj|done]. }
  exists v. apply parse_json_text. exists w, t, i. rewrite El, Et. auto.
Qed.

Lemma exactMembers_inv l allowed out : exactMembers l allowed = Some out ->
  (forall k raw, k ∈ allowed -> raw_get k out = Some raw -> is_Some (parse raw)) -> is_Some (parse l).
Proof.
  unfold exactMembers. destruct (rawMembers l) as [ms|] eqn:Er; [|done]. destruct (forallb _ ms && _) eqn:E; [|done]. intros [= <-] Hp.
  apply andb_true_iff in E as [Ha Hn%bool_decide_eq_true]. eapply rawMembers_inv; [done|]. apply Forall_forall. intros [k raw] Hin.
  apply (Hp k).
  - rewrite forallb_forall in Ha. specialize (Ha (k, raw)). apply bool_decide_eq_true in Ha; [done|by apply list_elem_of_In].
  - clear -Hin Hn. unfold raw_get. by apply OMap.elem_get.
Qed.

Lemma parse_optional_some raw v : parse_optional (Some raw) = Some v -> is_Some (parse raw).
Proof. cbn. destruct (parse raw); [eauto|done]. Qed.

Lemma int64_parses raw n : int64Literal raw = Some n -> is_Some (parse raw).
Proof.
  unfold int64Literal. destruct (parse_num raw) as [[m [|]]|] eqn:E; try done. intros _. exists (JNum m). apply parse_value_text, vt_scalar. by constructor.
Qed.

(** A control that is accepted is JSON. *)
Lemma accepted_parses text b : parseControlBody text = Some b -> is_Some (parse text).
Proof.
  unfold parseControlBody. destruct (_ || _); [done|]. intros (top & Et & E)%bind_Some. apply (exactMembers_inv _ _ _ Et).
  apply bind_Some in E as (scope & Es & E). apply bind_Some in E as (kind & Ek & E). apply bind_Some in E as (epoch & Ee & E).
  apply bind_Some in E as (expires & Ex & E). apply bind_Some in E as (inner & Ei & E). apply bind_Some in E as (vk & Pk & E).
  apply bind_Some in E as (vt & Pt & E). apply bind_Some in E as (vi & Pi & E). apply bind_Some in E as (ve & Pe & E). apply bind_Some in E as (vx & Px & E).
  destruct (negb _); [done|]. intros k raw Hk Hraw. unfold control_members in Hk. repeat (apply elem_of_cons in Hk as [->|Hk]); [..|by apply elem_of_nil in Hk].
  - rewrite Ek in Hraw. injection Hraw as <-. eauto.
  - rewrite Es in Hraw. injection Hraw as <-. apply (exactMembers_inv _ _ _ Ei). intros k raw' Hk Hr. unfold scope_members in Hk.
    repeat (apply elem_of_cons in Hk as [->|Hk]); [..|by apply elem_of_nil in Hk]; eapply parse_optional_some; by rewrite <- Hr.
  - rewrite Ee in Hraw. injection Hraw as <-. by eapply int64_parses.
  - rewrite Ex in Hraw. injection Hraw as <-. by eapply int64_parses.
  - rewrite Hraw in E. destruct (_ <? _); [done|]. apply bind_Some in E as (d & Pd & _). eauto.
Qed.


(** [{"kind":"media-key", "scope":{"id":"c1","type":"voice"},"expires_at":1700000100,"epoch":7}] *)
Definition sample_value : json :=
  JObj [("kind", JStr "media-key"); ("scope", JObj [("id", JStr "c1"); ("type", JStr "voice")]);
        ("expires_at", JNum 1700000100); ("epoch", JNum 7)]%string.
Definition sample_text : list Z := 32 :: stringify sample_value ++ [10].
Example sample_accepted : parseControlBody sample_text = control_spec sample_value.
Proof. vm_compute. reflexivity. Qed.

(** A text of at most 4096 bytes is short enough, whatever its data. *)
Lemma compact_le b e l : compact_from b e l <= Z.of_nat (length l).
Proof.
  revert b e. induction l as [|c l IH]; intros b e; [done|]. cbn [compact_from length]. rewrite Nat2Z.inj_succ.
  destruct b; [destruct e; [|destruct (c =? 92); [|destruct (c =? 34)]]|destruct (is_ws c)];
    match goal with |- context [compact_from ?x ?y l] => specialize (IH x y) end; lia.
Qed.

Lemma short_sizes_ok text v : parse text = Some v -> Z.of_nat (length text) <= MAX_CONTROL_DATA -> sizes_ok text = true.
Proof.
  intros Hv%parse_json_text Hl. unfold sizes_ok, MAX_CONTROL_DATA in *. apply andb_true_iff. split.
  - destruct (Z.eqb_spec (Z.of_nat (length text)) 0) as [E|]; [|by zcases].
    destruct text; [|done]. destruct Hv as (w & t & w' & E' & _ & _ & Ht). by destruct w, t; try done; eapply value_nonempty in Ht.
  - destruct v as [| | | | |ms]; try (by rewrite (rawMembers_other _ text Hv)).
    destruct (rawMembers_text ms text Hv) as (raws & -> & _ & Hlen). cbn [mbind option_bind]. unfold raw_get.
    destruct (OMap.get "data" raws) as [raw|] eqn:Er; [|done]. apply OMap.get_elem in Er.
    rewrite Forall_forall in Hlen. specialize (Hlen _ Er). simpl in Hlen. pose proof (compact_le false false raw).
    unfold compactSize. apply Z.leb_le. lia.
Qed.

(** A control of at most 4096 bytes is judged by its value. *)
Lemma control_by_value text v : parse text = Some v -> Z.of_nat (length text) <= MAX_CONTROL_DATA -> parseControlBody text = control_spec v.
Proof. intros Hv Hl. rewrite (parseControlBody_text text v Hv). by rewrite (short_sizes_ok text v Hv Hl). Qed.
