(* ===== verification/OlmPayload.v ===== *)
(** * Sealed payloads (olm-admission.js)

    [sealPayload] (OlmAdmission.v) frames a message body with the context it is
    sent in; [openPayload] opens it on the other side.  Because [JSON.parse]
    drops duplicate members silently, [checkPayloadFields] walks the tokens of
    the text first.  The walk refuses exactly the payloads with a duplicate or
    foreign member ([payload_fields_exact]); a sealed payload opens to its body
    under its own context ([payload_roundtrip]) and under no other
    ([payload_binds]). *)

From stdpp Require Import base list strings.
From Stdlib Require Import ZArith Lia.
From S2P Require Import Prelude Json JsonText Text OlmAdmission OlmControl.

(** ** Tokens

    [checkPayloadFields] matches strings with their quotes, brackets, commas
    and colons, and runs of other characters. *)

Fixpoint skip_run (l : list Z) : list Z :=
  match l with c :: r => if punctuation c || token_space c then l else skip_run r | [] => [] end.

Fixpoint tokens (fuel : nat) (l : list Z) : list (list Z) :=
  match fuel, l with
  | O, _ | _, [] => []
  | S f, c :: r =>
    if token_space c then tokens f r
    else if punctuation c then [c] :: tokens f r
    else
      let next := if c =? 34 then default (skip_run r) (scan_chars r) else skip_run r in
      slice l next :: tokens f next
  end.

(** Skip the tokens of a value that is not walked, [depth] brackets deep. *)
Fixpoint skip_nested (depth : nat) (ts : list (list Z)) : option (list (list Z)) :=
  match depth with
  | O => Some ts
  | S d =>
    match ts with
    | [] => None
    | t :: ts' =>
      if bool_decide (t = [123]) || bool_decide (t = [91]) then skip_nested (S depth) ts'
      else if bool_decide (t = [125]) || bool_decide (t = [93]) then skip_nested d ts'
      else skip_nested depth ts'
    end
  end.

(** The members of a walked object. *)
Fixpoint walk_members (walk : bool -> list (list Z) -> option (list (list Z))) (outer : bool) (fuel : nat) (seen : list json)
    (ts : list (list Z)) : option (list (list Z)) :=
  match fuel, ts with
  | O, _ | _, [] => None
  | S f, t :: ts1 =>
    if bool_decide (t = [125]) then Some ts1
    else
      key ← parse t;
      if bool_decide (key ∈ seen) || (outer && negb (bool_decide (key = JStr "context")) && negb (bool_decide (key = JStr "body")))
      then None
      else
        rest ← walk (if outer then bool_decide (key = JStr "context") else true) (drop 1 ts1);
        match rest with
        | c :: rest' => if bool_decide (c = [44]) then walk_members walk outer f (key :: seen) rest' else Some rest'
        | [] => Some []
        end
  end.

(** The items of a walked array. *)
Fixpoint walk_items (walk : bool -> list (list Z) -> option (list (list Z))) (fuel : nat) (ts : list (list Z)) : option (list (list Z)) :=
  match fuel, ts with
  | O, _ | _, [] => None
  | S f, t :: ts1 =>
    if bool_decide (t = [93]) then Some ts1
    else
      rest ← walk true ts;
      match rest with
      | c :: rest' => if bool_decide (c = [44]) then walk_items walk f rest' else Some rest'
      | [] => Some []
      end
  end.

Fixpoint walk (fuel : nat) (outer strict : bool) (ts : list (list Z)) : option (list (list Z)) :=
  match fuel, ts with
  | O, _ | _, [] => None
  | S f, token :: ts1 =>
    if negb strict then
      if bool_decide (token = [123]) || bool_decide (token = [91]) then skip_nested 1 ts1 else Some ts1
    else if bool_decide (token = [123]) then walk_members (walk f false) outer f [] ts1
    else if bool_decide (token = [91]) then walk_items (walk f false) f ts1
    else Some ts1
  end.

Definition payload_tokens (l : list Z) : list (list Z) := tokens (length l) l.

(** Every call of [walk] takes a token, so the length of the text is enough fuel. *)
Definition checkPayloadFields (l : list Z) : bool :=
  bool_decide (is_Some (walk (S (length l)) true true (payload_tokens l))).

Definition openPayloadRaw (m target : json) (plaintext : list Z) : option (json * option (list Z)) :=
  if 65536 <? Z.of_nat (length plaintext) then None
  else
    p ← parse plaintext;
    if negb (checkPayloadFields plaintext) then None
    else
      context ← field "context" p;
      if negb (equalJSON context (payloadContext m target)) then None
      else
        body ← field "body" p;
        ms ← rawMembers plaintext;
        Some (body, raw_get "body" ms).

Definition openPayload (m target : json) (plaintext : list Z) : option json := fst <$> openPayloadRaw m target plaintext.


(** ** Tokens of the grammar *)

Lemma skip_run_length l : (length (skip_run l) <= length l)%nat.
Proof. induction l as [|c l IH]; simpl; [lia|]. destruct (_ || _); simpl; lia. Qed.

Lemma scan_chars_length l r : scan_chars l = Some r -> (length r < length l)%nat.
Proof.
  remember (length l) as m eqn:Em. revert l Em. induction (lt_wf m) as [m _ IH]. intros l ->. destruct l as [|c l]; [done|].
  cbn [scan_chars length]. destruct (c =? 92).
  - destruct l as [|e l]; [done|]. intros E. apply (IH (length l)) in E; simpl; lia.
  - destruct (c =? 34); [intros [= <-]; lia|]. intros E. apply (IH (length l)) in E; simpl; lia.
Qed.

Lemma tokens_enough f l : (length l <= f)%nat -> tokens f l = payload_tokens l.
Proof.
  unfold payload_tokens. remember (length l) as m eqn:Em. revert f l Em. induction (lt_wf m) as [m _ IH]. intros f l -> Hf.
  destruct l as [|c l]; [by destruct f|]. destruct f as [|f]; [simpl in Hf; lia|]. cbn [length] in *. cbn [tokens].
  assert (Heq : forall l', (length l' <= length l)%nat -> tokens f l' = tokens (length l) l').
  { intros l' Hl. rewrite (IH (length l') ltac:(lia) f l' eq_refl) by lia. symmetry. apply (IH (length l')); [lia|done|lia]. }
  rewrite Heq by done. destruct (token_space c); [done|]. destruct (punctuation c); [done|]. f_equal. apply Heq.
  destruct (c =? 34); [|apply skip_run_length]. destruct (scan_chars l) as [r|] eqn:E; simpl; [|apply skip_run_length].
  apply scan_chars_length in E. lia.
Qed.

Lemma tokens_ws w l : ws w -> payload_tokens (w ++ l) = payload_tokens l.
Proof.
  induction 1 as [|c w Hc _ IH]; [done|]. unfold payload_tokens in *. cbn [app length tokens]. unfold token_space. rewrite Hc. done.
Qed.

Lemma tokens_punct c l : punctuation c = true -> payload_tokens (c :: l) = [c] :: payload_tokens l.
Proof.
  intros Hc. unfold payload_tokens. cbn [length tokens]. rewrite Hc. destruct (token_space c) eqn:E; [|done].
  exfalso. unfold punctuation, token_space, is_ws in *. rewrite !orb_true_iff, !Z.eqb_eq in *. lia.
Qed.

Lemma tokens_str t s l : str_text t s -> payload_tokens (34 :: t ++ 34 :: l) = (34 :: t ++ [34]) :: payload_tokens l.
Proof.
  intros Ht. unfold payload_tokens at 1. cbn [length tokens]. change (token_space 34) with false. change (punctuation 34) with false.
  cbn iota. change (34 =? 34) with true. cbn iota. rewrite (scan_chars_text t s) by done. cbn [default].
  rewrite tokens_enough by (rewrite length_app; simpl; lia). f_equal.
  rewrite <- (slice_app (34 :: t ++ [34]) l). f_equal. by rewrite <- app_comm_cons, <- app_assoc.
Qed.

Lemma skip_run_plain t r : Forall plain_char t -> stops r -> skip_run (t ++ r) = r.
Proof.
  induction 1 as [|c t (_ & H1 & H2 & _) _ IH]; intros Hr; simpl; [|rewrite H1, H2; auto].
  destruct r as [|c r]; [done|]. simpl. unfold stops, stop_char in Hr. unfold punctuation, token_space.
  destruct (is_ws c), (c =? 44), (c =? 93), (c =? 125), (c =? 123), (c =? 91), (c =? 58); done.
Qed.

Lemma tokens_scalar v t r : scalar_text v t -> stops r -> payload_tokens (t ++ r) = t :: payload_tokens r.
Proof.
  intros Ht Hr. pose proof (scalar_plain v t Ht) as Hp. destruct t as [|c t]; [by pose proof (scalar_opens v [] [] Ht)|].
  pose proof Hp as (_ & H1 & H2 & H3)%Forall_inv. apply Forall_inv_tail in Hp.
  unfold payload_tokens at 1. rewrite <- app_comm_cons. cbn [length tokens]. rewrite H1, H2. destruct (Z.eqb_spec c 34); [done|].
  rewrite skip_run_plain by done. rewrite tokens_enough by (rewrite length_app; lia). f_equal.
  change (c :: t ++ r) with ((c :: t) ++ r). apply slice_app.
Qed.

(** No token of a scalar or string is a bracket. *)
Lemma scalar_token v t p : scalar_text v t -> punctuation p = true -> t <> [p].
Proof. intros Ht Hp ->. pose proof (scalar_plain v _ Ht) as (_ & H & _)%Forall_inv. congruence. Qed.

Lemma string_token t c : 34 :: t ++ [34] <> [c].
Proof. by destruct t. Qed.

Lemma skip_zero ts : skip_nested 0 ts = Some ts.
Proof. by destruct ts. Qed.

Lemma skip_open c d l : c = 123 \/ c = 91 -> skip_nested (S d) (payload_tokens (c :: l)) = skip_nested (S (S d)) (payload_tokens l).
Proof. by intros [->| ->]; rewrite tokens_punct. Qed.

Lemma skip_close c d l : c = 125 \/ c = 93 -> skip_nested (S d) (payload_tokens (c :: l)) = skip_nested d (payload_tokens l).
Proof. by intros [->| ->]; rewrite tokens_punct. Qed.

Lemma skip_sep c d l : c = 44 \/ c = 58 -> skip_nested (S d) (payload_tokens (c :: l)) = skip_nested (S d) (payload_tokens l).
Proof. by intros [->| ->]; rewrite tokens_punct. Qed.

Lemma skip_token t d ts : (forall p, punctuation p = true -> t <> [p]) -> skip_nested (S d) (t :: ts) = skip_nested (S d) ts.
Proof. intros Ht. cbn [skip_nested]. rewrite !bool_decide_eq_false_2; [done|by apply Ht..]. Qed.

Lemma skip_str t s d l : str_text t s -> skip_nested (S d) (payload_tokens (34 :: t ++ 34 :: l)) = skip_nested (S d) (payload_tokens l).
Proof. intros Ht. rewrite (tokens_str t s) by done. apply skip_token. intros. apply string_token. Qed.

Ltac flat := repeat (rewrite <- app_assoc; cbn [app]).

Lemma skip_texts :
  (forall v t, value_text v t -> forall d r, stops r -> skip_nested (S d) (payload_tokens (t ++ r)) = skip_nested (S d) (payload_tokens r)) /\
  (forall vs t, items_text vs t -> forall d r, skip_nested (S d) (payload_tokens (t ++ 93 :: r)) = skip_nested d (payload_tokens r)) /\
  (forall ms t, members_text ms t -> forall d r, skip_nested (S d) (payload_tokens (t ++ 125 :: r)) = skip_nested d (payload_tokens r)).
Proof.
  apply json_texts_ind.
  - intros v t Hs d r Hr. rewrite (tokens_scalar v t) by done. apply skip_token. intros p. by eapply scalar_token.
  - intros s t Hs d r Hr. cbn [app]. flat. by rewrite (skip_str t s).
  - intros w Hw d r Hr. cbn [app]. flat. rewrite skip_open by (by right). rewrite tokens_ws by done. apply skip_close. by right.
  - intros vs t Ht IH d r Hr. cbn [app]. flat. rewrite skip_open by (by right). apply IH.
  - intros w Hw d r Hr. cbn [app]. flat. rewrite skip_open by (by left). rewrite tokens_ws by done. apply skip_close. by left.
  - intros vs t Ht IH d r Hr. cbn [app]. flat. rewrite skip_open by (by left). apply IH.
  - intros w v t w' Hw Ht IH Hw' d r. flat. rewrite tokens_ws by done. rewrite IH by (by apply stops_app).
    rewrite tokens_ws by done. apply skip_close. by right.
  - intros w v t w' vs ts Hw Ht IH Hw' Hts IHs d r. flat. rewrite tokens_ws by done. rewrite IH by (by apply stops_app).
    rewrite tokens_ws by done. rewrite skip_sep by (by left). apply IHs.
  - intros w k kt w1 w2 v t w3 Hw Hk Hw1 Hw2 Ht IH Hw3 d r. flat. rewrite tokens_ws by done. rewrite (skip_str kt k) by done.
    rewrite tokens_ws by done. rewrite skip_sep by (by right). rewrite tokens_ws by done. rewrite IH by (by apply stops_app).
    rewrite tokens_ws by done. apply skip_close. by left.
  - intros w k kt w1 w2 v t w3 ms ts Hw Hk Hw1 Hw2 Ht IH Hw3 Hms IHs d r. flat. rewrite tokens_ws by done.
    rewrite (skip_str kt k) by done. rewrite tokens_ws by done. rewrite skip_sep by (by right). rewrite tokens_ws by done.
    rewrite IH by (by apply stops_app). rewrite tokens_ws by done. rewrite skip_sep by (by left). apply IHs.
Qed.

(** ** What the walk checks *)

(** Every object of a value has distinct member names. *)
Fixpoint distinct_deep (v : json) : bool :=
  match v with
  | JArr l => forallb distinct_deep l
  | JObj ms => bool_decide (NoDup (map fst ms)) && forallb (fun m => distinct_deep m.2) ms
  | _ => true
  end.

(** What the walk asks of one member. *)
Definition member_ok (outer : bool) (k : string) (v : json) : bool :=
  if outer then if bool_decide (k = "context"%string) then distinct_deep v else bool_decide (k = "body"%string)
  else distinct_deep v.

Fixpoint fresh_members (outer : bool) (seen : list json) (ms : list (string * json)) : bool :=
  match ms with
  | [] => true
  | (k, v) :: ms' => negb (bool_decide (JStr k ∈ seen)) && member_ok outer k v && fresh_members outer (JStr k :: seen) ms'
  end.

Lemma fresh_members_spec outer seen ms : fresh_members outer seen ms =
  bool_decide (NoDup (map fst ms) /\ Forall (fun k => JStr k ∉ seen) (map fst ms)) && forallb (fun m => member_ok outer m.1 m.2) ms.
Proof.
  revert seen. induction ms as [|[k v] ms IH]; intros seen; cbn [fresh_members map fst snd forallb].
  { rewrite bool_decide_eq_true_2; [done|]. split; constructor. }
  rewrite IH. destruct (member_ok outer k v); [|by rewrite !andb_false_r]. cbn [andb]. rewrite andb_true_r.
  destruct (forallb _ ms); [|by rewrite !andb_false_r]. rewrite !andb_true_r.
  rewrite <- bool_decide_not, <- bool_decide_and. apply bool_decide_ext. rewrite NoDup_cons, !Forall_cons, !Forall_forall.
  setoid_rewrite not_elem_of_cons. split.
  - intros (H1 & H2 & H3). split_and!; try done; [|by intros x Hx; apply H3]. intros Hk. by destruct (H3 k Hk).
  - intros ((H1 & H2) & H3 & H4). split_and!; try done. intros x Hx. split; [|auto]. intros [= ->]. done.
Qed.

(** A value that is not walked is skipped. *)
Lemma walk_skip v t f outer r : value_text v t -> stops r -> walk (S f) outer false (payload_tokens (t ++ r)) = Some (payload_tokens r).
Proof.
  intros Ht Hr. destruct skip_texts as (_ & Hitems & Hmembers). destruct Ht as [v t Hs|s t Hs|w Hw|vs t Ht|w Hw|ms t Ht].
  - rewrite (tokens_scalar v t) by done. cbn [walk]. by rewrite !bool_decide_eq_false_2 by (by eapply scalar_token).
  - cbn [app]. flat. rewrite (tokens_str t s) by done. cbn [walk]. by rewrite !bool_decide_eq_false_2 by apply string_token.
  - cbn [app]. flat. rewrite tokens_punct by done. cbn [walk]. change (skip_nested 1 (payload_tokens (w ++ 93 :: r)) = Some (payload_tokens r)).
    rewrite tokens_ws by done. rewrite (skip_close 93) by (by right). apply skip_zero.
  - cbn [app]. flat. rewrite tokens_punct by done. rewrite <- skip_zero. by apply (Hitems vs t Ht 0%nat r).
  - cbn [app]. flat. rewrite tokens_punct by done. cbn [walk]. change (skip_nested 1 (payload_tokens (w ++ 125 :: r)) = Some (payload_tokens r)).
    rewrite tokens_ws by done. rewrite (skip_close 125) by (by left). apply skip_zero.
  - cbn [app]. flat. rewrite tokens_punct by done. rewrite <- skip_zero. by apply (Hmembers ms t Ht 0%nat r).
Qed.

(** One member of a walked object. *)
Lemma walk_member_step f n outer seen w k kt w1 w2 v t w3 c r : ws w -> str_text kt k -> ws w1 -> ws w2 -> value_text v t -> ws w3 ->
  c = 44 \/ c = 125 -> (0 < f)%nat ->
  (forall r', stops r' -> walk f false true (payload_tokens (t ++ r')) = if distinct_deep v then Some (payload_tokens r') else None) ->
  walk_members (walk f false) outer (S n) seen (payload_tokens (w ++ 34 :: kt ++ 34 :: w1 ++ 58 :: w2 ++ t ++ w3 ++ c :: r)) =
  (if negb (bool_decide (JStr (string_of k) ∈ seen)) && member_ok outer (string_of k) v
   then if c =? 44 then walk_members (walk f false) outer n (JStr (string_of k) :: seen) (payload_tokens r) else Some (payload_tokens r)
   else None).
Proof.
  intros Hw Hk Hw1 Hw2 Ht Hw3 Hc Hf Hv. rewrite tokens_ws, (tokens_str kt k), tokens_ws, tokens_punct by done.
  cbn [walk_members]. rewrite bool_decide_eq_false_2 by apply string_token. rewrite (parse_quoted k kt) by done. cbn [mbind option_bind].
  set (kk := string_of k). clearbody kk.
  change (drop 1 ([58] :: payload_tokens (w2 ++ t ++ w3 ++ c :: r))) with (payload_tokens (w2 ++ t ++ w3 ++ c :: r)).
  destruct (bool_decide (JStr kk ∈ seen)); [done|]. cbn [orb negb andb]. rewrite tokens_ws by done.
  assert (Hs : stops (w3 ++ c :: r)) by (apply stops_app; [done|apply stops_close; naive_solver]).
  assert (Hrest : payload_tokens (w3 ++ c :: r) = [c] :: payload_tokens r).
  { rewrite tokens_ws by done. apply tokens_punct. by destruct Hc as [->| ->]. }
  assert (Hgo : forall x : bool, match (if x then Some (payload_tokens (w3 ++ c :: r)) else None) with
      | Some rest => match rest with
        | c0 :: rest' => if bool_decide (c0 = [44]) then walk_members (walk f false) outer n (JStr (kk) :: seen) rest' else Some rest'
        | [] => Some [] end
      | None => None end =
    if x then if c =? 44 then walk_members (walk f false) outer n (JStr (kk) :: seen) (payload_tokens r) else Some (payload_tokens r) else None).
  { intros []; [|done]. rewrite Hrest. by destruct Hc as [->| ->]. }
  unfold member_ok. destruct outer; cbn [andb]; [|rewrite Hv by done; apply Hgo].
  destruct (decide (kk = "context"%string)) as [->|E].
  - rewrite !(bool_decide_eq_true_2 (_ = _)) by done. cbn [negb andb]. rewrite Hv by done. apply Hgo.
  - rewrite !(bool_decide_eq_false_2 (_ = JStr "context"%string)) by congruence.
    rewrite (bool_decide_eq_false_2 (_ = "context"%string)) by done. cbn [negb andb].
    destruct (decide (kk = "body"%string)) as [->|E2].
    + rewrite !(bool_decide_eq_true_2 (_ = _)) by done. cbn [negb].
      destruct f as [|f]; [lia|]. rewrite (walk_skip v t) by done. apply (Hgo true).
    + rewrite (bool_decide_eq_false_2 (_ = JStr "body"%string)) by congruence.
      by rewrite (bool_decide_eq_false_2 (_ = "body"%string)).
Qed.

(** The items of a walked array. *)
Lemma walk_item_step f n v t w w' c r : ws w -> value_text v t -> ws w' -> c = 44 \/ c = 93 ->
  (forall r', stops r' -> walk f false true (payload_tokens (t ++ r')) = if distinct_deep v then Some (payload_tokens r') else None) ->
  walk_items (walk f false) (S n) (payload_tokens (w ++ t ++ w' ++ c :: r)) =
  (if distinct_deep v then if c =? 44 then walk_items (walk f false) n (payload_tokens r) else Some (payload_tokens r) else None).
Proof.
  intros Hw Ht Hw' Hc Hv. rewrite tokens_ws by done.
  assert (Hs : stops (w' ++ c :: r)) by (apply stops_app; [done|apply stops_close; naive_solver]).
  assert (Hrest : payload_tokens (w' ++ c :: r) = [c] :: payload_tokens r).
  { rewrite tokens_ws by done. apply tokens_punct. by destruct Hc as [->| ->]. }
  specialize (Hv _ Hs). rewrite Hrest in Hv.
  assert (Hhd : exists x ts, payload_tokens (t ++ w' ++ c :: r) = x :: ts /\ x <> [93]).
  { destruct Ht as [v t Hsc|s t Hst| | | |]; cbn [app]; flat;
      [rewrite (tokens_scalar v t) by done|rewrite (tokens_str t s) by done|rewrite tokens_punct by done..]; eexists _, _;
      (split; [reflexivity|]); [by eapply scalar_token|apply string_token|done..]. }
  destruct Hhd as (x & ts & Ex & Hx). rewrite Ex in *. cbn [walk_items]. rewrite bool_decide_eq_false_2 by done. rewrite Hv.
  destruct (distinct_deep v); [|done]. cbn. by destruct Hc as [->| ->].
Qed.

Lemma walk_texts :
  (forall v t, value_text v t -> forall f r, (length t < f)%nat -> stops r ->
    walk f false true (payload_tokens (t ++ r)) = if distinct_deep v then Some (payload_tokens r) else None) /\
  (forall vs t, items_text vs t -> forall f n r, (length t < f)%nat -> (length t < n)%nat ->
    walk_items (walk f false) n (payload_tokens (t ++ 93 :: r)) = if forallb distinct_deep vs then Some (payload_tokens r) else None) /\
  (forall ms t, members_text ms t -> forall f n outer seen r, (length t < f)%nat -> (length t < n)%nat ->
    walk_members (walk f false) outer n seen (payload_tokens (t ++ 125 :: r)) =
    if fresh_members outer seen ms then Some (payload_tokens r) else None).
Proof.
  apply json_texts_ind.
  - intros v t Hs [|f] r Hf Hr; [lia|]. rewrite (tokens_scalar v t) by done. cbn [walk negb].
    rewrite !bool_decide_eq_false_2 by (by eapply scalar_token). by destruct Hs.
  - intros s t Hs [|f] r Hf Hr; [lia|]. cbn [app]. flat. rewrite (tokens_str t s) by done. cbn [walk negb].
    by rewrite !bool_decide_eq_false_2 by apply string_token.
  - intros w Hw [|f] r Hf Hr; [lia|]. cbn [app]. flat. rewrite tokens_punct, tokens_ws, tokens_punct by done.
    destruct f; [norm_lengths; lia|]. done.
  - intros vs t Ht IH [|f] r Hf Hr; [lia|]. cbn [app]. flat. norm_lengths. rewrite tokens_punct by done. apply IH; lia.
  - intros w Hw [|f] r Hf Hr; [lia|]. cbn [app]. flat. rewrite tokens_punct, tokens_ws, tokens_punct by done.
    destruct f; [norm_lengths; lia|]. done.
  - intros ms t Ht IH [|f] r Hf Hr; [lia|]. cbn [app]. flat. norm_lengths. rewrite tokens_punct by done. cbn [walk negb].
    change (bool_decide ([123] = [123])) with true. cbn iota. rewrite IH by lia. rewrite fresh_members_spec. cbn [distinct_deep].
    rewrite (bool_decide_ext (NoDup (map fst ms) /\ _) (NoDup (map fst ms))); [done|].
    split; [by intros []|]. intros Hn. split; [done|]. apply Forall_true. intros k Hk. by apply not_elem_of_nil in Hk.
  - intros w v t w' Hw Ht IH Hw' f [|n] r Hf Hn; [lia|]. flat. norm_lengths. cbn [forallb]. rewrite andb_true_r.
    apply (walk_item_step f n v t w w' 93); [done..|by right|]. intros r' Hr'. apply IH; [lia|done].
  - intros w v t w' vs ts Hw Ht IH Hw' Hts IHs f [|n] r Hf Hn; [lia|]. flat. norm_lengths. cbn [forallb].
    rewrite (walk_item_step f n v t w w' 44); [|done..|by left|intros r' Hr'; apply IH; [lia|done]].
    destruct (distinct_deep v); [|done]. apply IHs; lia.
  - intros w k kt w1 w2 v t w3 Hw Hk Hw1 Hw2 Ht IH Hw3 f [|n] outer seen r Hf Hn; [lia|]. flat. norm_lengths. cbn [fresh_members].
    rewrite andb_true_r. apply (walk_member_step f n outer seen w k kt w1 w2 v t w3 125); [done..|by right|lia|].
    intros r' Hr'. apply IH; [lia|done].
  - intros w k kt w1 w2 v t w3 ms ts Hw Hk Hw1 Hw2 Ht IH Hw3 Hms IHs f [|n] outer seen r Hf Hn; [lia|]. flat. norm_lengths.
    cbn [fresh_members]. rewrite (walk_member_step f n outer seen w k kt w1 w2 v t w3 44); [|done..|by left|lia|intros r' Hr'; apply IH; [lia|done]].
    destruct (negb _ && _); [|done]. cbn. apply IHs; lia.
Qed.

(** The token walk of [checkPayloadFields] sees what [JSON.parse] hides:
    on the text of an object it passes exactly when no member name of the
    object occurs twice, no name is other than context and body, and the
    context has no duplicate name in any object inside it (the body is free). *)
Theorem payload_fields_exact l ms : parse l = Some (JObj ms) ->
  checkPayloadFields l = bool_decide (NoDup (map fst ms)) && forallb (fun m => member_ok true m.1 m.2) ms.
Proof.
  intros (w & t & w' & -> & Hw & Hw' & Ht)%parse_json_text. unfold checkPayloadFields.
  assert (Hempty : payload_tokens w' = []) by (rewrite <- (app_nil_r w'); by rewrite tokens_ws).
  rewrite tokens_ws by done. inversion Ht as [v t' Hs| | | |w1 Hw1|ms' t' Hm]; subst; [inversion Hs|..]; cbn [app]; flat.
  - rewrite tokens_punct, tokens_ws, tokens_punct by done. rewrite Hempty.
    rewrite length_app. cbn [length]. rewrite Nat.add_succ_r. cbn [walk]. change (negb true) with false. cbn iota.
    by destruct (length w + _)%nat.
  - rewrite tokens_punct by done. cbn [walk]. change (negb true) with false. change (bool_decide ([123] = [123])) with true. cbn iota.
    destruct walk_texts as (_ & _ & Hwalk). rewrite (Hwalk ms t' Hm) by (norm_lengths; lia). rewrite fresh_members_spec.
    rewrite (bool_decide_ext (NoDup (map fst ms) /\ _) (NoDup (map fst ms))).
    + destruct (_ && _); [by apply bool_decide_eq_true_2|by apply bool_decide_eq_false_2, is_Some_None].
    + split; [by intros []|]. intros Hn. split; [done|]. apply Forall_true. intros k Hk. by apply not_elem_of_nil in Hk.
Qed.

(** [{"context":{"a":1},"body":{"b":1,"b":2}}] passes. *)
Definition sample_payload : json :=
  JObj [("context", JObj [("a", JNum 1)]); ("body", JObj [("b", JNum 1); ("b", JNum 2)])]%string.

Lemma payload_fields_exact_witness : checkPayloadFields (stringify sample_payload) = true.
Proof. rewrite (payload_fields_exact _ (members sample_payload)); vm_compute; reflexivity. Defined.

(** ** Sealing and opening *)

Lemma distinct_field k v x : distinct_deep v = true -> field k v = Some x -> distinct_deep x = true.
Proof.
  destruct v as [| | | | |ms]; try done. cbn [distinct_deep field]. intros [_ Hall]%andb_true_iff.
  induction ms as [|[k' y] ms IH]; [done|]. cbn [forallb assoc_last] in *. apply andb_true_iff in Hall as [Hy Hall].
  destruct (assoc_last k ms) as [z|]; [intros [= <-]; by apply IH|]. destruct (decide (k = k')); [|done]. by intros [= <-].
Qed.

Lemma distinct_obj (l : list (string * option json)) : bool_decide (NoDup (map fst l)) = true ->
  Forall (fun kv => match kv.2 with Some v => distinct_deep v = true | None => True end) l -> distinct_deep (obj l) = true.
Proof.
  intros Hn%bool_decide_eq_true Hall. unfold obj. cbn [distinct_deep]. apply andb_true_iff. split.
  - apply bool_decide_eq_true. eapply sublist_NoDup; [exact Hn|]. clear Hn Hall.
    induction l as [|[k [v|]] l IH]; [constructor|by constructor|by constructor].
  - induction Hall as [|[k [v|]] l Hv _ IH]; [done|..].
    + cbn [omap list_omap fst snd fmap option_fmap option_map forallb] in *. apply NoDup_cons in Hn as [_ Hn].
      rewrite Hv. by apply IH.
    + apply NoDup_cons in Hn as [_ Hn]. by apply IH.
Qed.

Lemma distinct_context m t : distinct_deep m = true -> distinct_deep t = true -> distinct_deep (payloadContext m t) = true.
Proof.
  intros Hm Ht. unfold payloadContext. apply distinct_obj; [vm_compute; reflexivity|].
  assert (Hk : forall k, match field k m with Some v => distinct_deep v = true | None => True end).
  { intros k. destruct (field k m) as [x|] eqn:E; [|done]. exact (distinct_field k m x Hm E). }
  assert (Ht' : forall k, match field k t with Some v => distinct_deep v = true | None => True end).
  { intros k. destruct (field k t) as [x|] eqn:E; [|done]. exact (distinct_field k t x Ht E). }
  assert (Ho : forall k d, distinct_deep d = true -> match field_or k d m with Some v => distinct_deep v = true | None => True end).
  { intros k d Hd. unfold field_or. destruct (truthy (field k m)); [apply Hk|done]. }
  repeat (apply Forall_cons; split; [first [done | apply Hk | apply Ht' | by apply Ho]|]). constructor.
Qed.

Lemma two_members_ok c b : distinct_deep c = true ->
  let ms := [("context", c); ("body", b)]%string in
  bool_decide (NoDup (map fst ms)) && forallb (fun m => member_ok true m.1 m.2) ms = true.
Proof. intros Hc. cbn [map fst snd forallb]. unfold member_ok. simpl. by rewrite Hc. Qed.

(** Opening a text with a context and a body. *)
Lemma open_two m t text c b : parse text = Some (JObj [("context", c); ("body", b)]%string) ->
  openPayloadRaw m t text =
  if (65536 <? Z.of_nat (length text)) || negb (checkPayloadFields text) || negb (equalJSON c (payloadContext m t)) then None
  else match rawMembers text with Some ms => Some (b, raw_get "body" ms) | None => None end.
Proof.
  intros Hp. unfold openPayloadRaw. rewrite Hp. destruct (65536 <? Z.of_nat (length text)); [done|].
  cbn [mbind option_bind]. destruct (checkPayloadFields text); [|done].
  set (v := JObj _). assert (F1 : field "context" v = Some c) by reflexivity. assert (F2 : field "body" v = Some b) by reflexivity.
  rewrite F1, F2. cbn [mbind option_bind negb orb]. by destruct (equalJSON c _), (rawMembers text).
Qed.

(** The sealed text, parsed. *)
Lemma sealed_value m t body text : sealPayload m t body = Ok text ->
  parse text = Some (JObj [("context", payloadContext m t); ("body", body)]%string) /\ Z.of_nat (length text) <= 65536.
Proof.
  unfold sealPayload. destruct (Z.leb_spec (Z.of_nat (length (canonicalJSON (JObj [("context", payloadContext m t); ("body", body)]%string)))) 65536); [|done].
  intros [= <-]. split; [apply parse_canonicalJSON|done].
Qed.

(** A payload opens, on the receiving side, to the body that was sealed,
    with a raw text of that very body, when both sides agree on the manifest
    and the target. *)
Theorem payload_roundtrip m t body text : distinct_deep m = true -> distinct_deep t = true -> sealPayload m t body = Ok text ->
  exists raw, openPayloadRaw m t text = Some (body, Some raw) /\ parse raw = Some body.
Proof.
  intros Hm Ht [Hp Hl]%sealed_value. pose proof (distinct_context m t Hm Ht) as Hc. rewrite (open_two m t text _ _ Hp).
  revert Hp Hc. set (ctx := payloadContext m t). clearbody ctx. intros Hp Hc.
  destruct (Z.ltb_spec 65536 (Z.of_nat (length text))); [lia|].
  pose proof (payload_fields_exact _ _ Hp) as Hf. rewrite (two_members_ok ctx body Hc) in Hf.
  destruct (rawMembers_parse _ _ Hp) as (raws & Hraw & HF). rewrite Hf, Hraw, equalJSON_refl. cbn [negb andb orb].
  inversion HF as [|? [k1 r1] ? ? [E1 _] HF1]; subst. inversion HF1 as [|? [k2 r2] ? ? [E2 P2] HF2]; subst. inversion HF2; subst.
  simpl in E1, E2, P2. subst k1 k2. exists r2. split; [|done].
  reflexivity.
Qed.

Lemma payload_roundtrip_witness : exists text raw,
  sealPayload Sample.manifest (Sample.target "bob" "b1" 2 []) (JStr "hello") = Ok text /\
  openPayloadRaw Sample.manifest (Sample.target "bob" "b1" 2 []) text = Some (JStr "hello", Some raw) /\ parse raw = Some (JStr "hello").
Proof.
  destruct (sealPayload Sample.manifest (Sample.target "bob" "b1" 2 []) (JStr "hello")) as [text|e] eqn:E; [|vm_compute in E; discriminate].
  exists text. destruct (payload_roundtrip Sample.manifest (Sample.target "bob" "b1" 2 []) (JStr "hello") text) as (raw & H1 & H2);
    [vm_compute; reflexivity|vm_compute; reflexivity|exact E|]. exists raw. split; [reflexivity|]. split; [exact H1|exact H2].
Defined.

(** A payload sealed for one context opens under no other: when a text
    sealed for the manifest [m] and the target [t] opens under [m'] and [t'],
    the two contexts agree on every text, number or flag in them, that is on
    the server, the sender and its device and epoch, the attempt, the logical
    message, the purpose and what it refers to, the conversation with its
    revision and epoch, and the target. *)
Theorem payload_binds m t body text m' t' body' k x y : sealPayload m t body = Ok text -> openPayload m' t' text = Some body' ->
  field k (payloadContext m t) = Some x -> field k (payloadContext m' t') = Some y -> primitive x = true -> primitive y = true ->
  x = y /\ body' = body.
Proof.
  intros [Hp _]%sealed_value Ho Hx Hy Px Py. unfold openPayload in Ho. rewrite (open_two m' t' text _ _ Hp) in Ho.
  clear Hp. set (c1 := payloadContext m t) in *. set (c2 := payloadContext m' t') in *. clearbody c1 c2.
  destruct ((_ <? _) || _); [done|]. destruct (equalJSON c1 c2) eqn:Ee; [|done]. cbn [negb orb] in Ho.
  destruct (rawMembers text); [|done]. injection Ho as <-. split; [|done].
  pose proof (equalJSON_field _ _ k Ee) as Hk. rewrite Hx, Hy in Hk. apply equalJSON_spec in Hk. by rewrite !sort_json_primitive in Hk.
Qed.

Lemma payload_binds_witness : exists text,
  sealPayload Sample.manifest (Sample.target "bob" "b1" 2 []) (JStr "hello") = Ok text /\
  openPayload Sample.manifest (Sample.target "bob" "b1" 2 []) text = Some (JStr "hello") /\
  (JStr "b1" = JStr "b1" /\ JStr "hello" = JStr "hello").
Proof.
  destruct (sealPayload Sample.manifest (Sample.target "bob" "b1" 2 []) (JStr "hello")) as [text|e] eqn:E; [|vm_compute in E; discriminate].
  assert (Ho : openPayload Sample.manifest (Sample.target "bob" "b1" 2 []) text = Some (JStr "hello")).
  { vm_compute in E. injection E as <-. vm_compute. reflexivity. }
  exists text. split; [reflexivity|]. split; [exact Ho|].
  exact (payload_binds _ _ _ text _ _ _ "target_device" (JStr "b1") (JStr "b1") E Ho eq_refl eq_refl eq_refl eq_refl).
Defined.
