(* ===== verification/OlmReset.v ===== *)
(** * Olm keys, directory bundles and account resets
    ([olm-keys.js], [olm-directory.js], [olm-reset.js])

    The canonical key texts ([rawBase64], [validCurve], [validSigning]), the
    signed directory bundle of a device ([bundleTranscript] and the checks on
    it), the signed reset of an Olm account ([resetTranscript], [verifyReset])
    and the chain of resets that alone may move a pin ([verifyResetChain]).

    The curve arithmetic and the signature scheme are third-party code
    (@noble/curves, tweetnacl): the record [curves] holds what the source calls
    of them, and no law about them is assumed. *)

From stdpp Require Import base list strings.
From Stdlib Require Import ZArith Lia Ascii.
From S2P Require Import Prelude Json Text OlmAdmission.

Record curves := Curves {
  (** [x25519.getSharedSecret(secret, bytes)] for the fixed secret 42, 0, 0... *)
  shared_secret : list Z -> option (list Z);
  (** [ed25519.Point.fromBytes(bytes, false)]: [toBytes()] and [isSmallOrder()] *)
  point : list Z -> option (list Z * bool);
  (** [ed25519.verify(signature, transcript, key, {zip215: false})] *)
  ed_verify : list Z -> list Z -> list Z -> bool
}.

Definition bad : string := "invalid Olm reset".

(** ** [olm-keys.js] *)

Definition is_b64_char (c : Z) : bool := match b64_val c with Some _ => true | None => false end.
Definition strip_equals (l : list Z) : list Z :=
  match reverse l with 61 :: 61 :: r => reverse r | 61 :: r => reverse r | _ => l end.

Definition fromBase64 (v : option json) : option (list Z) := atob (String_of v).

Definition rawBase64 (v : option json) (n : Z) : option (list Z) :=
  match v with
  | Some (JStr s) =>
    if (utf8_length s =? (n * 8 + 5) / 6) && (0 <? utf8_length s) && all_chars is_b64_char s then
      match atob s with
      | Some bytes =>
        if (Z.of_nat (length bytes) =? n) && bool_decide (strip_equals (b64 bytes) = bytes_of s)
        then Some bytes else None
      | None => None
      end
    else None
  | _ => None
  end.

(** The little-endian value of the 32 bytes. *)
Definition le_value (l : list Z) : Z := foldr (fun b n => n * 256 + b) 0 l.

(** [text.length <= 128] counts UTF-16 units, never more than the UTF-8 bytes,
    so the byte bound decides. *)
Definition key_text (v : option json) : bool :=
  match v with
  | Some (JStr s) => (0 <? utf8_length s) && (utf8_length s <=? 128) && negb (has_class is_Cc s)
  | _ => false
  end.

Section keys.
Variable cv : curves.

Definition validCurve (v : option json) : bool :=
  match rawBase64 v 32 with
  | Some bytes =>
    (le_value bytes <? 2 ^ 255 - 19) &&
    match shared_secret cv bytes with Some s => existsb (fun b => negb (b =? 0)) s | None => false end
  | None => false
  end.

Definition validSigning (v : option json) : bool :=
  match rawBase64 v 32 with
  | Some bytes => match point cv bytes with
                  | Some (out, small) => bool_decide (out = bytes) && negb small
                  | None => false
                  end
  | None => false
  end.

Definition verifySignature (signature transcript key : list Z) : bool := ed_verify cv signature transcript key.

(** ** Length-prefixed transcripts *)

(** [`${utf8(f).length}:${f}`]. *)
Definition netstring (f : string) : list Z := print_nat (utf8_length f) ++ 58 :: bytes_of f.
Definition transcript (fields : list string) : list Z := fields ≫= netstring.

(** ** [olm-directory.js] *)

Definition OLM_DIRECTORY_VERSION : string := "noxa-olm-directory-v1".

Definition be_value (l : list Z) : Z := foldl (fun n b => n * 256 + b) 0 l.
Definition keyNumber (v : option json) : result string Z :=
  match rawBase64 v 8 with
  | Some bytes => if 9223372036854775807 <? be_value bytes then Err bad else Ok (be_value bytes)
  | None => Err bad
  end.

Definition safe_from (lo : Z) (v : option json) : bool := isSafeInteger v && (lo <=? num_or 0 v).

Definition bundle_shape (b : json) : bool :=
  truthy (Some b) && is_text (field "version" b) OLM_DIRECTORY_VERSION &&
  is_text (field "protocol" b) "noxa-olm-v1" && tls_sha256 (String_of (field "server" b)) &&
  key_text (field "principal" b) && key_text (field "device_id" b) &&
  safe_from 1 (field "account_epoch" b) && safe_from 1 (field "generation" b) &&
  safe_from 1 (field "issued_at" b) && isSafeInteger (field "expires_at" b) &&
  (num_or 0 (field "issued_at" b) <? num_or 0 (field "expires_at" b)) &&
  (num_or 0 (field "expires_at" b) - num_or 0 (field "issued_at" b) <=? 7 * 86400) &&
  validCurve (field "identity" b) && validSigning (field "signing" b) &&
  is_array (field "one_time_keys" b) && (1 <=? count (field "one_time_keys" b)) &&
  (count (field "one_time_keys" b) <=? 100).

(** The one-time keys in order: distinct IDs, distinct keys, none the identity. *)
Fixpoint key_fields (identity : option json) (ids keys : list string) (l : list json) : option (list string) :=
  match l with
  | [] => Some []
  | k :: l' =>
    let id := str_of (field "id" k) in
    let key := str_of (field "key" k) in
    if is_ok (keyNumber (field "id" k)) && negb (bool_decide (id ∈ ids)) && negb (bool_decide (key ∈ keys)) &&
       negb (strict_eq (field "key" k) identity) && validCurve (field "key" k)
    then (fun r => id :: key :: r) <$> key_fields identity (id :: ids) (key :: keys) l'
    else None
  end.

Definition bundle_fields (b : json) : list string :=
  map (fun k => String_of (field k b))
    ["version"; "protocol"; "server"; "principal"; "device_id"; "account_epoch"; "generation"; "issued_at";
     "expires_at"; "identity"; "signing"]%string ++
  [text (print_num (count (field "one_time_keys" b)))].

Definition bundleTranscript (b : json) : result string (list Z) :=
  guard! bundle_shape b else bad in
  match key_fields (field "identity" b) [] [] (items (field "one_time_keys" b)) with
  | Some ks => Ok (transcript (bundle_fields b ++ ks))
  | None => Err bad
  end.

(** What a caller of [verifyBundleEvidence] pins. *)
Record evidence := Evidence {
  trustedSigningKey : list Z; ev_server : string; ev_principal : string; ev_device : string;
  ev_epoch : Z; pinnedOlmIdentity : string
}.

Definition verifyBundleEvidence (b : json) (e : evidence) : result string json :=
  match fromBase64 (field "signature" b) with
  | None => Err bad
  | Some signature =>
    guard! is_text (field "server" b) (ev_server e) && is_text (field "principal" b) (ev_principal e) &&
      is_text (field "device_id" b) (ev_device e) &&
      bool_decide (field "account_epoch" b = Some (JNum (ev_epoch e))) &&
      is_text (field "identity" b) (pinnedOlmIdentity e) && (Z.of_nat (length signature) =? 64) &&
      is_text (field "signature" b) (toBase64 signature) else bad in
    let! t := bundleTranscript b in
    guard! verifySignature signature t (trustedSigningKey e) else bad in Ok b
  end.

Definition verifyReservedClaim (b : json) (e : evidence) (keyID : string) (claimUntil now : Z) : result string json :=
  guard! truthy (Some b) && is_safe_integer claimUntil && (now <? claimUntil) &&
    (claimUntil <=? num_or 0 (field "expires_at" b) + 3600) && (num_or 0 (field "issued_at" b) <=? now + 300) else bad in
  let! _ := verifyBundleEvidence b e in
  match List.find (fun k => is_text (field "id" k) keyID) (items (field "one_time_keys" b)) with
  | Some k => Ok k
  | None => Err bad
  end.

(** ** [olm-reset.js] *)

Variable sha256 : list Z -> list Z.

Definition publicationDigest (b : json) : result string string :=
  let! t := bundleTranscript b in
  match fromBase64 (field "signature" b) with
  | Some sig => if Z.of_nat (length sig) =? 64 then Ok (digestBytes sha256 (t ++ sig)) else Err bad
  | None => Err bad
  end.

Definition reset_shape (r : json) : bool :=
  truthy (Some r) && is_text (field "version" r) "noxa-olm-reset-v1" && tls_sha256 (String_of (field "server" r)) &&
  forallb (fun k => key_text (field k r)) ["principal"; "device"; "transition_id"]%string &&
  safe_positive (field "old_epoch" r) &&
  bool_decide (field "new_epoch" r = Some (JNum (num_or 0 (field "old_epoch" r) + 1))) &&
  safe_positive (field "new_epoch" r) && safe_from 2 (field "generation" r) &&
  validCurve (field "old_identity" r) && validCurve (field "new_identity" r) &&
  negb (strict_eq (field "old_identity" r) (field "new_identity" r)) &&
  validSigning (field "old_signing" r) && validSigning (field "new_signing" r) &&
  hex64 (String_of (field "publication_digest" r)) &&
  (is_text (field "reason" r) "lost" || is_text (field "reason" r) "restored").

Definition reset_members : list string :=
  ["version"; "server"; "principal"; "device"; "transition_id"; "old_epoch"; "old_identity"; "old_signing";
   "new_epoch"; "new_identity"; "new_signing"; "generation"; "publication_digest"; "reason"]%string.

Definition resetTranscript (r : json) : result string (list Z) :=
  guard! reset_shape r else bad in
  Ok (transcript (map (fun k => String_of (field k r)) reset_members)).

(** The account whose resets are followed, and the pin reached so far. *)
Record owner := Owner { o_server : string; o_principal : string; o_device : string; noxaSigning : list Z }.
Record pin := Pin { epoch : Z; identity : string; signing : string }.

Definition verifyReset (r : json) (o : owner) (p : pin) : result string json :=
  match fromBase64 (field "signature" r) with
  | None => Err bad
  | Some sig =>
    guard! is_text (field "server" r) (o_server o) && is_text (field "principal" r) (o_principal o) &&
      is_text (field "device" r) (o_device o) && bool_decide (field "old_epoch" r = Some (JNum (epoch p))) &&
      is_text (field "old_identity" r) (identity p) && is_text (field "old_signing" r) (signing p) else bad in
    let! t := resetTranscript r in
    guard! verifySignature sig t (noxaSigning o) else bad in Ok r
  end.

Definition MAX_RESET_CHAIN_PAGES : nat := 64.

(** One page by old epoch; two different successors of one epoch are a fork. *)
Fixpoint by_old (acc : list (Z * json)) (page : list json) : option (list (Z * json)) :=
  match page with
  | [] => Some acc
  | r :: page' =>
    match field "old_epoch" r with
    | Some (JNum n) =>
      if truthy (Some r) && is_safe_integer n then
        match OMap.get n acc with
        | Some r' => if strict_eq (field "signature" r') (field "signature" r)
                     then by_old (OMap.set n r acc) page' else None
        | None => by_old (OMap.set n r acc) page'
        end
      else by_old acc page'
    | _ => by_old acc page'
    end
  end.

Definition next_pin (r : json) : pin :=
  Pin (num_or 0 (field "new_epoch" r)) (str_of (field "new_identity" r)) (str_of (field "new_signing" r)).

(** The transitions of one page, while they continue the pin.  A step removes
    no entry, but each one raises the epoch, so a page is walked at most once
    per entry: [fuel] is the number of its entries. *)
Fixpoint walk (fuel : nat) (page : list (Z * json)) (o : owner) (target : Z) (cur : pin) (passed : list pin)
    : result string (pin * list pin) :=
  if epoch cur <? target then
    match OMap.get (epoch cur) page with
    | None => Ok (cur, passed)
    | Some r =>
      match fuel with
      | O => Err "fuel"%string
      | S f => let! _ := verifyReset r o cur in walk f page o target (next_pin r) (passed ++ [cur])
      end
    end
  else Ok (cur, passed).

(** [fetch(after)] is the directory service; [None] is a rejected request. *)
Fixpoint chain (pages : nat) (fetch : Z -> option json) (o : owner) (target : Z) (cur : pin) (passed : list pin)
    : result string (pin * list pin) :=
  if epoch cur <? target then
    match pages with
    | O => Err bad
    | S more =>
      match fetch (epoch cur) with
      | Some (JArr page) =>
        match by_old [] page with
        | None => Err bad
        | Some m =>
          let! (cur', passed') := walk (length m) m o target cur passed in
          if epoch cur' =? epoch cur then Err bad else chain more fetch o target cur' passed'
        end
      | _ => Err bad
      end
    end
  else Ok (cur, passed).

(** [to.signing] may be absent. *)
Record goal := Target { to_epoch : Z; to_identity : string; to_signing : option string }.

Definition verifyResetChain (from : pin) (to : goal) (o : owner) (fetch : Z -> option json)
    : result string (pin * list pin) :=
  guard! epoch from <? to_epoch to else bad in
  let! (cur, passed) := chain MAX_RESET_CHAIN_PAGES fetch o (to_epoch to) from [] in
  guard! (epoch cur =? to_epoch to) && bool_decide (identity cur = to_identity to) &&
    match to_signing to with
    | Some s => bool_decide (s = ""%string) || bool_decide (signing cur = s)
    | None => true
    end else bad in
  Ok (cur, passed).
End keys.

(** ** Transcripts bind their fields *)

Lemma netstring_inj f g l l' : netstring f ++ l = netstring g ++ l' -> f = g /\ l = l'.
Proof.
  unfold netstring. rewrite <- !app_assoc. cbn [app]. intros H.
  assert (He : forall r, ends (58 :: r)) by (intros; simpl; unfold is_digit; simpl; lia).
  pose proof (parse_nat_print (utf8_length f) (58 :: bytes_of f ++ l) ltac:(unfold utf8_length; lia) (He _)) as H1.
  pose proof (parse_nat_print (utf8_length g) (58 :: bytes_of g ++ l') ltac:(unfold utf8_length; lia) (He _)) as H2.
  rewrite H in H1. rewrite H1 in H2. injection H2 as Hn Hb.
  assert (Hlen : forall s, length (bytes_of s) = String.length s) by (induction s; simpl; congruence).
  apply app_inj_1 in Hb as [Hb ->].
  - split; [|done]. rewrite <- (string_of_bytes_of f), <- (string_of_bytes_of g). congruence.
  - rewrite !Hlen. unfold utf8_length in Hn. lia.
Qed.

Lemma netstring_nonempty f : netstring f <> [].
Proof. unfold netstring. by destruct (print_nat _). Qed.

Lemma transcript_inj fs gs : transcript fs = transcript gs -> fs = gs.
Proof.
  unfold transcript. revert gs. induction fs as [|f fs IH]; intros [|g gs]; simpl; try done.
  - intros H. symmetry in H. apply app_nil in H as [H _]. by apply netstring_nonempty in H.
  - intros H. apply app_nil in H as [H _]. by apply netstring_nonempty in H.
  - intros H. apply netstring_inj in H as [-> H]. by rewrite (IH _ H).
Qed.

(** A reset's transcript determines every field it covers: two resets
    whose signed transcripts are equal agree on the server, the account, both
    epochs, both key pairs, the generation, the publication digest and the
    reason, so a signature never carries over to another transition. *)
Theorem reset_transcript_binds cv r1 r2 t k :
  resetTranscript cv r1 = Ok t -> resetTranscript cv r2 = Ok t -> k ∈ reset_members ->
  String_of (field k r1) = String_of (field k r2).
Proof.
  unfold resetTranscript. destruct (reset_shape cv r1), (reset_shape cv r2); try done.
  intros H1 H2 Hk.
  assert (H : transcript (map (fun k => String_of (field k r1)) reset_members) =
              transcript (map (fun k => String_of (field k r2)) reset_members)) by congruence.
  apply transcript_inj in H. apply list_elem_of_lookup in Hk as [i Hi].
  apply (f_equal (fun l => l !! i)) in H. change (map ?f ?l) with (f <$> l) in H.
  rewrite !list_lookup_fmap, Hi in H. simpl in H. congruence.
Qed.

(** A bundle's transcript determines its fields and its one-time keys, in
    order: two bundles with one signed transcript offer the same keys for the
    same device, epoch and validity. *)
Theorem bundle_transcript_binds cv b1 b2 t :
  bundleTranscript cv b1 = Ok t -> bundleTranscript cv b2 = Ok t ->
  bundle_fields b1 = bundle_fields b2 /\
  key_fields cv (field "identity" b1) [] [] (items (field "one_time_keys" b1)) =
  key_fields cv (field "identity" b2) [] [] (items (field "one_time_keys" b2)).
Proof.
  unfold bundleTranscript. destruct (bundle_shape cv b1), (bundle_shape cv b2); try done.
  destruct (key_fields _ _ _ _ (items (field "one_time_keys" b1))) as [k1|]; [|done].
  destruct (key_fields _ _ _ _ (items (field "one_time_keys" b2))) as [k2|]; [|done].
  intros H1 H2. assert (H : transcript (bundle_fields b1 ++ k1) = transcript (bundle_fields b2 ++ k2)) by congruence.
  apply transcript_inj in H. apply app_inj_1 in H as [-> ->]; [done|].
  done.
Qed.

(** ** Chains of resets *)

(** [r] is a reset of the owner's account that starts at [p] and is signed
    under the owner's noXa key. *)
Definition signed_reset (cv : curves) (o : owner) (p : pin) (r : json) : Prop :=
  exists sig t, fromBase64 (field "signature" r) = Some sig /\ resetTranscript cv r = Ok t /\
  ed_verify cv sig t (noxaSigning o) = true /\
  field "server" r = Some (JStr (o_server o)) /\ field "principal" r = Some (JStr (o_principal o)) /\
  field "device" r = Some (JStr (o_device o)) /\ field "old_epoch" r = Some (JNum (epoch p)) /\
  field "old_identity" r = Some (JStr (identity p)) /\ field "old_signing" r = Some (JStr (signing p)).

Inductive reset_chain (cv : curves) (o : owner) : pin -> list json -> list pin -> pin -> Prop :=
| chain_done p : reset_chain cv o p [] [] p
| chain_step p r rs ps q : signed_reset cv o p r -> reset_chain cv o (next_pin r) rs ps q ->
    reset_chain cv o p (r :: rs) (p :: ps) q.

Lemma reset_chain_app cv o p rs ps q rs' ps' q' :
  reset_chain cv o p rs ps q -> reset_chain cv o q rs' ps' q' -> reset_chain cv o p (rs ++ rs') (ps ++ ps') q'.
Proof. induction 1; intros; [done|]. simpl. econstructor; eauto. Qed.

Lemma verifyReset_ok cv r o p r' : verifyReset cv r o p = Ok r' ->
  signed_reset cv o p r /\ epoch (next_pin r) = epoch p + 1.
Proof.
  unfold verifyReset. destruct (fromBase64 _) as [sig|] eqn:Es; [|done].
  destruct (_ && _) eqn:E; [|done]. rewrite rbind_Ok. intros (t & Ht & H).
  destruct (verifySignature _ _ _ _) eqn:Ev; [|done].
  unfold is_text in E. rewrite !andb_true_iff, !bool_decide_eq_true in E. destruct_and!.
  split.
  - exists sig, t. by split_and!.
  - unfold resetTranscript in Ht. destruct (reset_shape cv r) eqn:Er; [|done].
    unfold reset_shape in Er. rewrite !andb_true_iff in Er. destruct_and!.
    match goal with H : bool_decide (field "new_epoch" r = _) = true |- _ => apply bool_decide_eq_true in H; rename H into Hn end.
    unfold next_pin. rewrite Hn. simpl.
    by match goal with H : field "old_epoch" r = _ |- _ => rewrite H end.
Qed.

Lemma walk_ok cv fuel page o target cur passed cur' passed' :
  walk cv fuel page o target cur passed = Ok (cur', passed') ->
  exists rs ps, reset_chain cv o cur rs ps cur' /\ passed' = passed ++ ps /\
    epoch cur' = epoch cur + Z.of_nat (length rs) /\ length ps = length rs /\
    (epoch cur <= target -> epoch cur' <= target).
Proof.
  revert cur passed. induction fuel as [|fuel IH]; intros cur passed; cbn [walk].
  - destruct (_ <? _); [destruct (OMap.get _ _); [done|]|]; intros [= <- <-];
      exists [], []; split_and!; (done || constructor || by rewrite app_nil_r || (simpl; lia)).
  - destruct (Z.ltb_spec (epoch cur) target) as [Hlt|Hge]; cycle 1.
    { intros [= <- <-]. exists [], []; split_and!; (done || constructor || by rewrite app_nil_r || (simpl; lia)). }
    destruct (OMap.get (epoch cur) page) as [r|]; cycle 1.
    { intros [= <- <-]. exists [], []; split_and!; (done || constructor || by rewrite app_nil_r || (simpl; lia)). }
    rewrite rbind_Ok. intros (r' & Hv & H). apply verifyReset_ok in Hv as [Hs He].
    apply IH in H as (rs & ps & Hc & -> & Hep & Hl & Hle). exists (r :: rs), (cur :: ps). split_and!.
    + by econstructor.
    + by rewrite <- app_assoc.
    + simpl. lia.
    + simpl. lia.
    + intros _. apply Hle. lia.
Qed.

Lemma chain_ok cv pages fetch o target cur passed cur' passed' :
  chain cv pages fetch o target cur passed = Ok (cur', passed') -> epoch cur <= target ->
  exists rs ps, reset_chain cv o cur rs ps cur' /\ passed' = passed ++ ps /\
    epoch cur' = epoch cur + Z.of_nat (length rs) /\ length ps = length rs /\ epoch cur' = target.
Proof.
  revert cur passed. induction pages as [|pages IH]; intros cur passed H Hle; cbn [chain] in H;
    (destruct (Z.ltb_spec (epoch cur) target) as [Hlt|Hge]; cycle 1;
      [simplify_eq; exists [], []; split_and!; (done || constructor || by rewrite app_nil_r || (simpl; lia))|]); [done|].
  destruct (fetch (epoch cur)) as [[| | | |page|]|]; try done. destruct (by_old [] page) as [m|]; [|done].
  rewrite rbind_Ok in H. destruct H as ([cur1 passed1] & Hw & H).
  destruct (_ =? _); [done|]. apply walk_ok in Hw as (rs & ps & Hc & -> & He & Hl & Hle1).
  apply IH in H as (rs' & ps' & Hc' & -> & He' & Hl' & Ht); [|by apply Hle1].
  exists (rs ++ rs'), (ps ++ ps'). split_and!.
  - by eapply reset_chain_app.
  - by rewrite app_assoc.
  - rewrite length_app. lia.
  - rewrite !length_app. lia.
  - done.
Qed.

(** C19: a pin moves only along signed transitions: when [verifyResetChain]
    returns a pin, there is one reset per epoch between the two, each signed
    under the account's own noXa key for this server, principal and device and
    each starting exactly at the epoch, identity and signing key where the
    previous one ended; the pin is at the wanted epoch and identity, and the
    pins left behind are reported in order. *)
Theorem reset_chain_sound cv from to o fetch p passed :
  verifyResetChain cv from to o fetch = Ok (p, passed) ->
  exists rs, reset_chain cv o from rs passed p /\ Z.of_nat (length rs) = to_epoch to - epoch from /\
    length passed = length rs /\ (0 < length rs)%nat /\ epoch p = to_epoch to /\ identity p = to_identity to.
Proof.
  unfold verifyResetChain. destruct (Z.ltb_spec (epoch from) (to_epoch to)); [|done].
  rewrite rbind_Ok. intros ([cur ps] & Hc & H'). apply chain_ok in Hc as (rs & ps' & Hc & -> & He & Hl & Ht); [|lia].
  destruct (_ && _ && _) eqn:E; [|done]. simplify_eq. rewrite !andb_true_iff, bool_decide_eq_true in E.
  destruct E as [[_ Hi] _]. exists rs. cbn [app]. split_and!; try done; lia.
Qed.

(** The walk over a page ends within its entries: each step uses one and
    raises the epoch. *)
Definition entries_from (e : Z) (page : list (Z * json)) : list (Z * json) := filter (fun kv => e <= kv.1) page.

Lemma entries_from_step e (page : list (Z * json)) r : OMap.get e page = Some r ->
  (length (entries_from (e + 1) page) < length (entries_from e page))%nat.
Proof.
  unfold entries_from. induction page as [|[k v] page IH]; simpl; [done|]. rewrite !filter_cons. simpl.
  assert (Hmono : (length (filter (fun kv : Z * json => (e + 1 <= kv.1)%Z) page) <=
                   length (filter (fun kv : Z * json => (e <= kv.1)%Z) page))%nat).
  { clear. induction page as [|[k v] page IH]; [done|]. rewrite !filter_cons. simpl.
    destruct (decide (e + 1 <= k)), (decide (e <= k)); simpl; lia. }
  case_decide as Hk.
  - intros _. subst. rewrite (decide_False (P := k + 1 <= k)) by lia. rewrite decide_True by lia. simpl. lia.
  - intros H. specialize (IH H). destruct (decide (e + 1 <= k)), (decide (e <= k)); simpl; lia.
Qed.

Lemma walk_fuel cv fuel page o target cur passed :
  (length (entries_from (epoch cur) page) <= fuel)%nat ->
  walk cv fuel page o target cur passed <> Err "fuel"%string.
Proof.
  assert (Hv : forall r p e, verifyReset cv r o p = Err e -> e = bad).
  { intros r p e. unfold verifyReset. destruct (fromBase64 _); [|congruence]. destruct (_ && _); [|congruence].
    unfold resetTranscript. destruct (reset_shape _ _); [|simpl; congruence]. cbn [rbind].
    destruct (verifySignature _ _ _ _); congruence. }
  revert cur passed. induction fuel as [|fuel IH]; intros cur passed Hf; cbn [walk].
  - destruct (_ <? _); [|done]. destruct (OMap.get (epoch cur) page) as [r|] eqn:E; [|done].
    apply entries_from_step in E. lia.
  - destruct (_ <? _); [|done]. destruct (OMap.get (epoch cur) page) as [r|] eqn:E; [|done].
    apply entries_from_step in E. destruct (verifyReset cv r o cur) as [r'|e] eqn:Er; cbn [rbind].
    + apply verifyReset_ok in Er as [_ Hn]. apply IH. rewrite Hn. lia.
    + apply Hv in Er as ->. done.
Qed.

(** The steps over a page are enough. *)
Lemma verdict_reached cv from to o fetch :
  verifyResetChain cv from to o fetch <> Err "fuel"%string.
Proof.
  assert (Hc : forall pages cur passed, chain cv pages fetch o (to_epoch to) cur passed <> Err "fuel"%string).
  { induction pages as [|pages IH]; intros cur passed; cbn [chain]; (destruct (_ <? _); [|done]); [done|].
    destruct (fetch _) as [[| | | |page|]|]; try done. destruct (by_old [] page) as [m|]; [|done].
    destruct (walk _ _ _ _ _ _ _) as [[cur' ps]|e] eqn:Ew; cbn [rbind].
    - destruct (_ =? _); [done|]. apply IH.
    - intros [= ->]. revert Ew. apply walk_fuel. unfold entries_from. apply length_filter. }
  unfold verifyResetChain. destruct (_ <? _); [|done].
  destruct (chain _ _ _ _ _ _ _) as [[cur ps]|e] eqn:E; cbn [rbind].
  - destruct (_ && _ && _); done.
  - intros [= ->]. by apply Hc in E.
Qed.

(** What a walk over at most [pages] pages depends on. *)
Lemma chain_asks cv o target fetch pages : forall cur passed, exists asked, (length asked <= pages)%nat /\
  forall fetch', (forall e, e ∈ asked -> fetch' e = fetch e) -> chain cv pages fetch' o target cur passed = chain cv pages fetch o target cur passed.
Proof.
  induction pages as [|pages IH]; intros cur passed.
  { exists []. split; [done|]. intros fetch' _. done. }
  cbn [chain]. destruct (epoch cur <? target); [|by exists []; split; [cbn; lia|]].
  destruct (fetch (epoch cur)) as [[| | | |page|]|] eqn:Ep;
    try by (exists [epoch cur]; split; [cbn; lia|]; intros fetch' Hf; rewrite (Hf (epoch cur)), Ep by by left).
  destruct (by_old [] page) as [m|] eqn:Em;
    [|exists [epoch cur]; split; [cbn; lia|]; intros fetch' Hf; by rewrite (Hf (epoch cur)), Ep, Em by by left].
  destruct (walk cv (length m) m o target cur passed) as [[cur' passed']|e] eqn:Ew;
    [|exists [epoch cur]; split; [cbn; lia|]; intros fetch' Hf; by rewrite (Hf (epoch cur)), Ep, Em, Ew by by left].
  destruct (IH cur' passed') as (asked & Hl & Ha). exists (epoch cur :: asked). split; [cbn; lia|]. intros fetch' Hf.
  rewrite (Hf (epoch cur)), Ep, Em, Ew by by left. cbn [rbind]. destruct (_ =? _); [done|]. apply Ha. intros x Hx. apply Hf. by right.
Qed.

(** C40: the chain walk always ends with a verdict, whatever the server sends: it is
    never out of steps, and it is settled by the answers for at most 64 epochs: a server
    that gives the same pages for these gets the same verdict, whatever else it has. *)
Theorem reset_chain_terminates cv from to o fetch :
  verifyResetChain cv from to o fetch <> Err "fuel"%string /\
  exists asked, (length asked <= 64)%nat /\
    forall fetch', (forall e, e ∈ asked -> fetch' e = fetch e) -> verifyResetChain cv from to o fetch' = verifyResetChain cv from to o fetch.
Proof.
  split; [apply verdict_reached|]. destruct (chain_asks cv o (to_epoch to) fetch MAX_RESET_CHAIN_PAGES from []) as (asked & Hl & Ha).
  exists asked. split; [exact Hl|]. intros fetch' Hf. unfold verifyResetChain. by rewrite (Ha fetch' Hf).
Qed.

(** ** Concrete resets and bundles *)
Module ResetSample.
Open Scope string_scope.
Definition cv : curves := Curves (fun _ => Some [1]) (fun b => Some (b, false)) (fun _ _ _ => true).
Definition key (n : Z) : string := text (strip_equals (b64 (repeat n 32))).
Definition server : string := "tls-sha256:" +:+ hex_text (repeat 17 32).
Definition reset (old : Z) : json :=
  JObj [("version", JStr "noxa-olm-reset-v1"); ("server", JStr server); ("principal", JStr "bob");
        ("device", JStr "b1"); ("transition_id", JStr "t"); ("old_epoch", JNum old); ("old_identity", JStr (key old));
        ("old_signing", JStr (key (old + 100))); ("new_epoch", JNum (old + 1)); ("new_identity", JStr (key (old + 1)));
        ("new_signing", JStr (key (old + 101))); ("generation", JNum 2);
        ("publication_digest", JStr (hex_text (repeat 5 32))); ("reason", JStr "lost");
        ("signature", JStr (toBase64 (repeat 9 64)))].
Definition own : owner := Owner server "bob" "b1" (repeat 3 32).
Definition start : pin := Pin 1 (key 1) (key 101).
Definition wanted : goal := Target 3 (key 3) None.
Definition fetch (after : Z) : option json := Some (JArr [reset (after + 1); reset after]).
Definition bundle : json :=
  JObj [("version", JStr OLM_DIRECTORY_VERSION); ("protocol", JStr "noxa-olm-v1"); ("server", JStr server);
        ("principal", JStr "bob"); ("device_id", JStr "b1"); ("account_epoch", JNum 1); ("generation", JNum 1);
        ("issued_at", JNum 1000); ("expires_at", JNum 2000); ("identity", JStr (key 1)); ("signing", JStr (key 101));
        ("one_time_keys", JArr [JObj [("id", JStr (text (strip_equals (b64 (repeat 0 8))))); ("key", JStr (key 7))]]);
        ("signature", JStr (toBase64 (repeat 9 64)))].
Definition result_pins : pin * list pin := Eval vm_compute in
  match verifyResetChain cv start wanted own fetch with Ok r => r | Err _ => (start, []) end.
Definition reset_text : list Z := Eval vm_compute in
  match resetTranscript cv (reset 1) with Ok t => t | Err _ => [] end.
Definition bundle_text : list Z := Eval vm_compute in
  match bundleTranscript cv bundle with Ok t => t | Err _ => [] end.
End ResetSample.

Lemma reset_transcript_binds_witness :
  resetTranscript ResetSample.cv (ResetSample.reset 1) = Ok ResetSample.reset_text /\
  String_of (field "device" (ResetSample.reset 1)) = String_of (field "device" (jset "extra" JNull (ResetSample.reset 1))).
Proof.
  split; [vm_compute; reflexivity|].
  apply (reset_transcript_binds ResetSample.cv _ _ ResetSample.reset_text); [vm_compute; reflexivity..|].
  apply (bool_decide_unpack _). vm_compute. exact I.
Defined.

Lemma bundle_transcript_binds_witness :
  bundleTranscript ResetSample.cv ResetSample.bundle = Ok ResetSample.bundle_text /\
  bundle_fields ResetSample.bundle = bundle_fields (jset "signature" JNull ResetSample.bundle).
Proof.
  split; [vm_compute; reflexivity|].
  refine (proj1 (bundle_transcript_binds ResetSample.cv _ _ ResetSample.bundle_text _ _)); vm_compute; reflexivity.
Defined.

Lemma reset_chain_sound_witness :
  ResetSample.result_pins.1 = Pin 3 (ResetSample.key 3) (ResetSample.key 103) /\
  exists rs, reset_chain ResetSample.cv ResetSample.own ResetSample.start rs ResetSample.result_pins.2 ResetSample.result_pins.1.
Proof.
  split; [vm_compute; reflexivity|].
  destruct (reset_chain_sound ResetSample.cv ResetSample.start ResetSample.wanted ResetSample.own ResetSample.fetch
              ResetSample.result_pins.1 ResetSample.result_pins.2) as (rs & H & _); [vm_compute; reflexivity|].
  exists rs. exact H.
Defined.
