(* ===== verification/Db.v ===== *)
(** * The encrypted database ([db.js]) and its identity fence ([identity-store.js])

    One IndexedDB database shared by every tab.  A transaction is atomic, and
    between two transactions of one call any number of transactions of other
    tabs may run: an operation is a program ([prog]) whose steps are single
    transactions, random bytes and clock readings.

    - [database]: the object stores.  The device store holds the identity
      fence, the wrapping key, the sealed identity and the ratchet markers;
      the [sealed] stores hold JSON values encrypted under the wrapping key;
      the ratchet store is modelled by [RatchetStore].
    - [wrappingKey], [seal], [unseal], [putSealed], [putSealedIn],
      [updateSealed], [getSealed], [keys], [deleteKey], [deleteKeyIn],
      [clearStores], [identityFence], [fencedWrite] translate [db.js];
      [clearIdentity] and [saveIdentity] are the operations of
      [identity-store.js] that move the fence.
    - [safe] is the rely-guarantee logic: an invariant and a relation that
      every transaction of a program satisfies whatever the others do, and
      [world_safe] its soundness for any number of interleaved programs.

    AES-GCM is the platform's: the class [Cipher] holds its two functions and
    the law that opening what was sealed with the same key and additional data
    gives the plaintext back. *)

From stdpp Require Import base gmap list strings sorting.
From Stdlib Require Import ZArith Lia.
From S2P Require Import Prelude Json Text.

Class Cipher := {
  encrypt : list Z -> list Z -> list Z -> list Z -> list Z;         (* key, iv, additional data, plaintext *)
  decrypt : list Z -> list Z -> list Z -> list Z -> option (list Z);
  decrypt_encrypt : forall key iv aad plain, decrypt key iv aad (encrypt key iv aad plain) = Some plain
}.

(** ** The database *)

Record fence := Fence { generation : Z; active : bool }.
#[global] Instance fence_eq_dec : EqDecision fence.
Proof. solve_decision. Defined.

Record record_ := Sealed { iv : list Z; sealed : list Z }.
#[global] Instance record_eq_dec : EqDecision record_.
Proof. solve_decision. Defined.

(** A record of the ratchet store carries its revision in the clear. *)
Record raw_record := Raw { raw_sealed : record_; raw_revision : Z }.

(** A reference within a namespace: kind and ID. *)
Definition ref : Type := string * string.

Record database := Database {
  fence_rec : option fence;                      (* device: "identity-fence" *)
  wrapping_key : option (list Z);                (* device: "wrapping-key" *)
  identity_rec : option (record_ * json);        (* device: "identity", with its meta *)
  markers : gmap string Z;                       (* device: "ratchet-initialized:" + namespace *)
  stores : gmap (string * string) record_;       (* the sealed stores, by store name and key *)
  ratchet : gmap string (gmap ref raw_record)    (* the ratchet store, by namespace *)
}.
#[global] Instance eta_database : Eta database := fun d =>
  Database (fence_rec d) (wrapping_key d) (identity_rec d) (markers d) (stores d) (ratchet d).

Definition empty_database : database := Database None None None ∅ ∅ ∅.

(** [defaultFence()], and the fence a transaction reads. *)
Definition defaultFence : fence := Fence 1 true.
Definition current (d : database) : fence := default defaultFence (fence_rec d).

(** ** Programs *)

Inductive prog (A : Type) : Type :=
| Ret (r : result string A)
| Atomic {B : Type} (tx : database -> B * database) (k : B -> prog A)
| Random (n : nat) (k : list Z -> prog A)
| Clock (k : Z -> prog A).
Arguments Ret {A} r.
Arguments Atomic {A B} tx k.
Arguments Random {A} n k.
Arguments Clock {A} k.

(** Sequencing that sees how the first program ended, and [await]. *)
Fixpoint settle {A B} (p : prog A) (k : result string A -> prog B) : prog B :=
  match p with
  | Ret r => k r
  | Atomic tx c => Atomic tx (fun b => settle (c b) k)
  | Random n c => Random n (fun l => settle (c l) k)
  | Clock c => Clock (fun t => settle (c t) k)
  end.

Definition pbind {A B} (p : prog A) (k : A -> prog B) : prog B :=
  settle p (fun r => match r with Ok a => k a | Err e => Ret (Err e) end).

Notation "'do!' x ':=' p 'in' k" := (pbind p (fun x => k))
  (at level 10, x pattern, k at level 200) : js_scope.
Notation "'pure!' x ':=' m 'in' k" := (pbind (Ret m) (fun x => k))
  (at level 10, x pattern, k at level 200) : js_scope.
Notation "'check!' b 'else' e 'in' k" := (if b then k else Ret (Err e))
  (at level 10, k at level 200) : js_scope.

Definition done {A} (a : A) : prog A := Ret (Ok a).
Definition throw {A} (e : string) : prog A := Ret (Err e).

(** A transaction whose outcome is the result of the call; an [Err] is an abort. *)
Definition transact {A} (tx : database -> result string A * database) : prog A := Atomic tx Ret.
Definition view {A} (f : database -> A) : prog A := Atomic (fun d => (f d, d)) done.

(** ** [db.js] *)

Section db.
Context `{Cipher}.

(** Does any store hold data that only the missing key could open? *)
Definition holds_data (d : database) : bool :=
  bool_decide (is_Some (identity_rec d)) || negb (bool_decide (stores d = ∅)) ||
  existsb (fun m : string * gmap ref raw_record => negb (bool_decide (dom m.2 = (∅ : gset ref)))) (map_to_list (ratchet d)).

(** The winner is chosen in one transaction; the losing key is dropped. *)
Definition choose_key (key : list Z) (d : database) : result string (list Z) * database :=
  match wrapping_key d with
  | Some winner => (Ok winner, d)
  | None => if holds_data d then (Err "local wrapping key is missing for existing data"%string, d)
            else (Ok key, d <| wrapping_key := Some key |>)
  end.

Definition wrappingKey (create : bool) : prog (list Z) :=
  do! existing := view wrapping_key in
  match existing with
  | Some key => done key
  | None =>
    check! create else "local wrapping key is missing"%string in
    Random 32 (fun key => transact (choose_key key))
  end.

Definition seal (plain aad : list Z) : prog record_ :=
  Random 12 (fun iv =>
  do! key := wrappingKey true in
  done (Sealed iv (encrypt key iv aad plain))).

Definition unseal (r : record_) (aad : list Z) : prog (list Z) :=
  do! key := wrappingKey false in
  match decrypt key (iv r) aad (sealed r) with
  | Some plain => done plain
  | None => throw "OperationError"%string
  end.

Definition identityFence : prog fence := view current.

(** [work] runs inside the transaction: an [Err] aborts it. *)
Definition fencedWrite {A} (expected : fence) (onboarding : bool)
    (work : fence -> database -> result string (A * database)) : prog A :=
  transact (fun d =>
    let cur := current d in
    if (generation cur =? generation expected) && (active cur || onboarding) then
      match work cur d with
      | Ok (a, d') => (Ok a, d')
      | Err e => (Err e, d)
      end
    else (Err "fenced"%string, d)).

Definition put_record (store key : string) (r : record_) (d : database) : database :=
  d <| stores := <[(store, key) := r]> (stores d) |>.

Definition putSealedIn (expected : fence) (store key : string) (value : json) : prog unit :=
  do! r := seal (stringify value) [] in
  fencedWrite expected false (fun _ d => Ok (tt, put_record store key r d)).

Definition putSealed (store key : string) (value : json) : prog unit :=
  do! f := identityFence in
  do! r := seal (stringify value) [] in
  fencedWrite f false (fun _ d => Ok (tt, put_record store key r d)).

Definition currentFence : prog fence := identityFence.

(** Two records are the same when their initialization vectors are. *)
Definition sameRecord (a b : option record_) : bool :=
  match a, b with
  | None, None => true
  | Some x, Some y => bool_decide (iv x = iv y)
  | _, _ => false
  end.

(** The value of a record: [JSON.parse(decoder.decode(await unseal(...)))]. *)
Definition read_value (r : record_) : prog json :=
  do! plain := unseal r [] in
  match parse plain with Some v => done v | None => throw "SyntaxError"%string end.

(** The transaction of one attempt; [false] is a lost race. *)
Definition swap (store key : string) (before : option record_) (r : record_) (d : database)
    : result string (bool * database) :=
  if sameRecord (stores d !! (store, key)) before then Ok (true, put_record store key r d) else Ok (false, d).

(** [mutate] sees the current value, [None] when there is none, and returns
    the next one, or [None] to leave the record alone.  [attempts] rounds. *)
Fixpoint update_attempts (attempts : nat) (store key : string) (mutate : option json -> option json)
    (expected : option fence) : prog (option json) :=
  match attempts with
  | O => throw "conflict"%string
  | S left_ =>
    do! before := view (fun d => stores d !! (store, key)) in
    do! value :=
      match before with
      | None => done None
      | Some r => settle (read_value r) (fun v => match v with Ok j => done (Some j) | Err _ => throw "unreadable"%string end)
      end in
    match mutate value with
    | None => done value
    | Some next =>
      do! r := seal (stringify next) [] in
      do! f := match expected with Some f => done f | None => identityFence end in
      do! won := fencedWrite f false (fun _ d => swap store key before r d) in
      if (won : bool) then done (Some next) else update_attempts left_ store key mutate expected
    end
  end.

Definition updateSealed (store key : string) (mutate : option json -> option json) (expected : option fence)
    : prog (option json) := update_attempts 8 store key mutate expected.

Definition remove_record (store key : string) (d : database) : database :=
  d <| stores := delete (store, key) (stores d) |>.

Definition deleteKeyIn (expected : fence) (store key : string) : prog unit :=
  fencedWrite expected false (fun _ d => Ok (tt, remove_record store key d)).

Definition getSealed (store key : string) : prog (option json) :=
  do! r := view (fun d => stores d !! (store, key)) in
  match r with
  | None => done None
  | Some r => do! v := read_value r in done (Some v)
  end.

(** [getAllKeys]: in key order. *)
Definition store_keys (store : string) (d : database) : list string :=
  merge_sort key_le (omap (fun kv : (string * string) * record_ => if decide (kv.1.1 = store) then Some kv.1.2 else None)
                       (map_to_list (stores d))).
Definition keys (store : string) : prog (list string) := view (store_keys store).

Definition clear_store (store : string) (d : database) : database :=
  d <| stores := filter (fun kv : (string * string) * record_ => kv.1.1 <> store) (stores d) |>.

(** One transaction per store. *)
Fixpoint clearStores (names : list string) : prog unit :=
  match names with
  | [] => done tt
  | name :: rest => Atomic (fun d => (tt, clear_store name d)) (fun _ => clearStores rest)
  end.

Definition deleteKey (store key : string) : prog unit :=
  Atomic (fun d => (tt, remove_record store key d)) done.

(** ** [identity-store.js]: the operations that move the fence *)

Definition MAX_SAFE_INTEGER : Z := max_safe.

(** Everything but the wrapping key is erased with the generation's end. *)
Definition wiped (next : fence) (d : database) : database :=
  Database (Some next) (wrapping_key d) None ∅ ∅ ∅.

Definition clearIdentity (expected : option fence) : prog fence :=
  transact (fun d =>
    let cur := current d in
    if match expected with Some e => negb (generation cur =? generation e) | None => false end
    then (Err "fenced"%string, d)
    else if MAX_SAFE_INTEGER <=? generation cur then (Err "identity generation exhausted"%string, d)
    else let next := Fence (generation cur + 1) false in (Ok next, wiped next d)).

Record identity := Identity { edPublic : list Z; edSecret : list Z; xPublic : list Z; xSecret : list Z }.
Definition identity_sizes_ok (i : identity) : bool :=
  (length (edPublic i) =? 32)%nat && (length (edSecret i) =? 64)%nat && (length (xPublic i) =? 32)%nat &&
  (length (xSecret i) =? 32)%nat.
Definition identity_bytes (i : identity) : list Z := edPublic i ++ edSecret i ++ xPublic i ++ xSecret i.

Definition saveIdentity (i : identity) (meta : json) (onboarding : bool) (given : option fence) (replaceAccount : bool)
    : prog fence :=
  check! negb (onboarding && bool_decide (given = None)) else "explicit onboarding fence required"%string in
  check! negb (replaceAccount && negb onboarding) else "account replacement requires onboarding"%string in
  check! identity_sizes_ok i else "invalid device identity"%string in
  do! expected := match given with Some f => done f | None => identityFence end in
  do! r := seal (identity_bytes i) [] in
  fencedWrite expected onboarding (fun cur d =>
    if onboarding && (MAX_SAFE_INTEGER <=? generation cur) then Err "identity generation exhausted"%string
    else
      let next := if onboarding then Fence (generation cur + 1) true else cur in
      let d1 := if replaceAccount then wiped next d else d in
      Ok (next, d1 <| fence_rec := Some next |> <| identity_rec := Some (r, meta) |>)).

(** [{...a, ...b}]. *)
Definition spread (a b : json) : json := foldl (fun acc kv => jset kv.1 kv.2 acc) (JObj (members a)) (members b).

Definition updateMeta (patch : json) (given : option fence) : prog unit :=
  do! expected := match given with Some f => done f | None => identityFence end in
  fencedWrite expected false (fun _ d =>
    Ok (tt, match identity_rec d with
            | Some (r, meta) => d <| identity_rec := Some (r, spread meta patch) |>
            | None => d
            end)).

(** The identity, its meta data and the fence it was read under. *)
Definition split_identity (plain : list Z) : identity :=
  Identity (take 32 plain) (take 64 (drop 32 plain)) (take 32 (drop 96 plain)) (drop 128 plain).

Definition loadIdentity : prog (option (identity * json * fence)) :=
  do! expected := identityFence in
  if negb (active expected) then done None else
  do! r := view identity_rec in
  match r with
  | None => done None
  | Some (r, meta) =>
    do! plain := unseal r [] in
    check! (length plain =? 160)%nat else "unreadable device identity"%string in
    settle (fencedWrite expected false (fun _ d => Ok (tt, d))) (fun w =>
      match w with
      | Ok _ => done (Some (split_identity plain, meta, expected))
      | Err e => if bool_decide (e = "fenced"%string) then done None else throw e
      end)
  end.
End db.

(** ** Rely-guarantee reasoning about interleaved programs *)

Section logic.
(** [I] holds between transactions; [G d d'] is what one transaction may do. *)
Variable I : database -> Prop.
Variable G : database -> database -> Prop.

(** What any number of transactions of other programs may do. *)
Definition rely : database -> database -> Prop := rtc (fun d d' => I d /\ I d' /\ G d d').

(** Every transaction of [p] keeps [I] and satisfies [G], and the result of [p]
    satisfies [Q] in the state of its last transaction, when the others only do
    what they may. *)
Fixpoint safe {A} (p : prog A) (Q : result string A -> database -> Prop) (d : database) : Prop :=
  match p with
  | Ret r => Q r d
  | Atomic tx k => forall d', rely d d' -> I d' ->
      I (tx d').2 /\ G d' (tx d').2 /\ safe (k (tx d').1) Q (tx d').2
  | Random n k => forall l, length l = n -> safe (k l) Q d
  | Clock k => forall t, safe (k t) Q d
  end.

(** A property of states that the others cannot break. *)
Definition stable (P : database -> Prop) : Prop := forall d d', P d -> I d -> I d' -> G d d' -> P d'.

Lemma stable_rely P d d' : stable P -> rely d d' -> P d -> P d'.
Proof. intros Hs. induction 1 as [|d1 d2 d3 (H1 & H2 & H3) _ IH]; [done|]. intros. apply IH. by eapply Hs. Qed.

Lemma safe_mono {A} (p : prog A) (Q Q' : result string A -> database -> Prop) d :
  (forall r d', Q r d' -> Q' r d') -> safe p Q d -> safe p Q' d.
Proof.
  intros HQ. revert d. induction p as [r|B tx k IH|n k IH|k IH]; intros d; simpl.
  - apply HQ.
  - intros H d' Hr HI. destruct (H d' Hr HI) as (? & ? & ?). auto.
  - intros H l Hl. auto.
  - intros H t. auto.
Qed.

Lemma safe_settle {A B} (p : prog A) (k : result string A -> prog B) Q d :
  safe p (fun r d' => safe (k r) Q d') d -> safe (settle p k) Q d.
Proof.
  revert d. induction p as [r|C tx c IH|n c IH|c IH]; intros d; simpl; [done| | |].
  - intros H d' Hr HI. destruct (H d' Hr HI) as (? & ? & ?). auto.
  - intros H l Hl. auto.
  - intros H t. auto.
Qed.

Lemma safe_bind {A B} (p : prog A) (k : A -> prog B) Q d :
  safe p (fun r d' => match r with Ok a => safe (k a) Q d' | Err e => Q (Err e) d' end) d -> safe (pbind p k) Q d.
Proof.
  intros H. apply safe_settle. eapply safe_mono; [|exact H]. intros [a|e] d'; simpl; auto.
Qed.

(** A synchronous step. *)
Lemma safe_pure {A B} (m : result string A) (k : A -> prog B) Q d :
  match m with Ok a => safe (k a) Q d | Err e => Q (Err e) d end -> safe (pbind (Ret m) k) Q d.
Proof. intros H. unfold pbind. cbn [settle]. by destruct m. Qed.

(** A frame: what the others cannot break holds to the end. *)
Lemma safe_keep {A} (p : prog A) P (Q : result string A -> database -> Prop) d : stable P -> P d ->
  safe p Q d -> safe p (fun r d' => Q r d' /\ P d') d.
Proof.
  intros Hs. revert d. induction p as [r|B tx k IH|n k IH|k IH]; intros d HP; simpl.
  - auto.
  - intros Hsafe d' Hr HI. destruct (Hsafe d' Hr HI) as (H1 & H2 & H3). split_and!; [done|done|].
    apply IH; [|done]. apply (Hs d'); [|done|done|done]. by eapply stable_rely.
  - intros Hsafe l Hl. apply IH; auto.
  - intros Hsafe t. apply IH; auto.
Qed.

(** Reading changes nothing. *)
Lemma safe_view {A} (f : database -> A) Q d :
  (forall d', I d' -> G d' d') -> (forall d', rely d d' -> I d' -> Q (Ok (f d')) d') -> safe (view f) Q d.
Proof. intros HG H d' Hr HI. simpl. auto. Qed.

(** *** Soundness for a pool of programs *)

(** A running world: the database and the programs of all tabs.  A program is
    started when [starts] allows it; a step runs one transaction, or supplies
    random bytes or the time. *)
Variable A : Type.
Variable starts : database -> prog A -> Prop.

Inductive wstep : database * list (prog A) -> database * list (prog A) -> Prop :=
| step_start d pool p : starts d p -> wstep (d, pool) (d, pool ++ [p])
| step_tx d pool i B (tx : database -> B * database) k :
    pool !! i = Some (Atomic tx k) -> wstep (d, pool) ((tx d).2, <[i := k (tx d).1]> pool)
| step_random d pool i n k l :
    pool !! i = Some (Random n k) -> length l = n -> wstep (d, pool) (d, <[i := k l]> pool)
| step_clock d pool i k t : pool !! i = Some (Clock k) -> wstep (d, pool) (d, <[i := k t]> pool).

Variable Q : result string A -> database -> Prop.
Hypothesis starts_safe : forall d p, I d -> starts d p -> safe p Q d.

Definition world_ok (w : database * list (prog A)) : Prop :=
  I w.1 /\ Forall (fun p => exists d, rely d w.1 /\ safe p Q d) w.2.

Lemma world_step_ok w w' : world_ok w -> wstep w w' -> world_ok w' /\ rely w.1 w'.1.
Proof.
  intros [HI Hp] Hs. destruct Hs as [d pool p Hst|d pool i B tx k Hi|d pool i n k l Hi Hl|d pool i k t Hi]; simpl in *.
  - split; [|apply rtc_refl]. split; [done|]. apply Forall_app. split; [done|]. constructor; [|constructor].
    exists d. split; [apply rtc_refl|]. by apply starts_safe.
  - rewrite Forall_lookup in Hp. destruct (Hp i _ Hi) as (d0 & Hr & Hsafe). simpl in Hsafe.
    destruct (Hsafe d Hr HI) as (HI' & HG & Hk).
    assert (Hstep : rely d (tx d).2) by (apply rtc_once; auto).
    split; [|done]. split; [done|]. apply Forall_insert; simpl.
    + rewrite Forall_lookup. intros j q Hq. destruct (Hp j q Hq) as (d1 & Hr1 & Hs1).
      exists d1. split; [by etrans|done].
    + exists (tx d).2. split; [apply rtc_refl|done].
  - split; [|apply rtc_refl]. split; [done|]. rewrite Forall_lookup in Hp. apply Forall_insert; [by apply Forall_lookup|].
    destruct (Hp i _ Hi) as (d0 & Hr & Hsafe). exists d0. split; [done|]. by apply Hsafe.
  - split; [|apply rtc_refl]. split; [done|]. rewrite Forall_lookup in Hp. apply Forall_insert; [by apply Forall_lookup|].
    destruct (Hp i _ Hi) as (d0 & Hr & Hsafe). exists d0. split; [done|]. by apply Hsafe.
Qed.

(** Whatever programs run, and however their transactions interleave, the
    invariant holds, and every reachable state is related to every earlier one. *)
Lemma world_safe d w : I d -> rtc wstep (d, []) w -> world_ok w /\ rely d w.1.
Proof.
  intros HI Hr.
  assert (Hgen : forall w0 w1, rtc wstep w0 w1 -> world_ok w0 -> world_ok w1 /\ rely w0.1 w1.1).
  { induction 1 as [w0|w0 w1 w2 Hs _ IH]; intros Hok; [split; [done|apply rtc_refl]|].
    destruct (world_step_ok _ _ Hok Hs) as [Hok1 Hr1]. destruct (IH Hok1) as [Hok2 Hr2].
    split; [done|by etrans]. }
  apply (Hgen _ _ Hr). split; [done|constructor].
Qed.
End logic.
Arguments safe_keep {I G A} p P Q d.
