(* ===== verification/DbAtomic.v ===== *)
(** * Read-modify-write of a sealed value ([updateSealed], db.js)

    [updateSealed] reads a record, opens it, computes the next value, seals it
    and writes it in a later transaction if the record is still the one that
    was read, which it decides by the initialization vector alone.  Here one
    call is executed among transactions of other tabs ([exec]); [History] is
    what is relied on of those (the wrapping key is never replaced, two records
    of one key with the same initialization vector are the same record), and
    [update_atomic] shows that the call is one atomic step: it refines the
    transition that reads a value [v] and stores [mutate v] in one instant. *)

From stdpp Require Import base gmap list strings.
From Stdlib Require Import ZArith Lia.
From S2P Require Import Prelude Json Text Db.

(** ** Executions *)

Section exec.
(** What other tabs may have done between two transactions of the call. *)
Variable env : database -> database -> Prop.

(** [exec p d l r d']: started at [d], the program makes the transactions [l]
    (the database before and after each) and ends with [r], at [d']. *)
Fixpoint exec {A} (p : prog A) (d : database) (l : list (database * database)) (r : result string A) (d' : database) : Prop :=
  match p with
  | Ret x => l = [] /\ r = x /\ d' = d
  | Atomic tx k => exists d1 l', env d d1 /\ l = (d1, (tx d1).2) :: l' /\ exec (k (tx d1).1) (tx d1).2 l' r d'
  | Random n k => exists b, length b = n /\ exec (k b) d l r d'
  | Clock k => exists t, exec (k t) d l r d'
  end.

Lemma exec_settle {A B} (p : prog A) (k : result string A -> prog B) d l r d' : exec (settle p k) d l r d' ->
  exists l1 r1 d1 l2, exec p d l1 r1 d1 /\ exec (k r1) d1 l2 r d' /\ l = l1 ++ l2.
Proof.
  revert d l. induction p as [x|C tx c IH|n c IH|c IH]; intros d l; cbn [settle exec].
  - intros He. by exists [], x, d, l.
  - intros (d1 & l' & Henv & -> & (l1 & r1 & d2 & l2 & H1 & H2 & ->)%IH).
    exists ((d1, (tx d1).2) :: l1), r1, d2, l2. split_and!; [|done|done]. by exists d1, l1.
  - intros (b & Hb & (l1 & r1 & d1 & l2 & H1 & H2 & ->)%IH). exists l1, r1, d1, l2. split_and!; [|done|done]. by exists b.
  - intros (t & (l1 & r1 & d1 & l2 & H1 & H2 & ->)%IH). exists l1, r1, d1, l2. split_and!; [|done|done]. by exists t.
Qed.

Lemma exec_bind {A B} (p : prog A) (k : A -> prog B) d l r d' : exec (pbind p k) d l r d' ->
  (exists a l1 d1 l2, exec p d l1 (Ok a) d1 /\ exec (k a) d1 l2 r d' /\ l = l1 ++ l2) \/
  (exists e, exec p d l (Err e) d' /\ r = Err e).
Proof.
  intros (l1 & [a|e] & d1 & l2 & H1 & H2 & ->)%exec_settle; [left; by exists a, l1, d1, l2|right].
  cbn in H2. destruct H2 as (-> & -> & ->). rewrite app_nil_r. by exists e.
Qed.

Lemma exec_view {A} (f : database -> A) d l r d' : exec (view f) d l r d' ->
  env d d' /\ l = [(d', d')] /\ r = Ok (f d').
Proof. intros (d1 & l' & Henv & -> & -> & -> & ->). done. Qed.

Lemma exec_transact {A} (tx : database -> result string A * database) d l r d' : exec (transact tx) d l r d' ->
  exists d1, env d d1 /\ l = [(d1, (tx d1).2)] /\ r = (tx d1).1 /\ d' = (tx d1).2.
Proof. intros (d1 & l' & Henv & -> & -> & -> & ->). by exists d1. Qed.
End exec.

(** ** What the transactions of a program may do *)

Section only.
Variable W : database -> database -> Prop.

Fixpoint only {A} (p : prog A) (Q : A -> Prop) : Prop :=
  match p with
  | Ret r => match r with Ok a => Q a | Err _ => True end
  | Atomic tx k => forall d, W d (tx d).2 /\ only (k (tx d).1) Q
  | Random n k => forall b, only (k b) Q
  | Clock k => forall t, only (k t) Q
  end.

Lemma only_settle {A B} (p : prog A) (k : result string A -> prog B) (Q : A -> Prop) (P : B -> Prop) :
  only p Q -> (forall a, Q a -> only (k (Ok a)) P) -> (forall e, only (k (Err e)) P) -> only (settle p k) P.
Proof.
  intros Hp Hok Herr. induction p as [[a|e]|C tx c IH|n c IH|c IH]; cbn [settle only] in *; auto.
  intros d. destruct (Hp d). auto.
Qed.

Lemma only_bind {A B} (p : prog A) (k : A -> prog B) (Q : A -> Prop) (P : B -> Prop) :
  only p Q -> (forall a, Q a -> only (k a) P) -> only (pbind p k) P.
Proof. intros Hp Hk. by eapply only_settle. Qed.

Lemma only_pure {A B} (m : result string A) (k : A -> prog B) (P : B -> Prop) :
  (forall a, m = Ok a -> only (k a) P) -> only (pbind (Ret m) k) P.
Proof. intros Hk. destruct m; [by apply Hk|done]. Qed.

Lemma only_mono {A} (p : prog A) (Q P : A -> Prop) : (forall a, Q a -> P a) -> only p Q -> only p P.
Proof.
  intros HQ. induction p as [[a|e]|C tx c IH|n c IH|c IH]; cbn [only] in *; auto. intros Hp d. destruct (Hp d). auto.
Qed.

(** In every execution, the transactions are allowed ones. *)
Lemma only_exec env {A} (p : prog A) (Q : A -> Prop) d l r d' : only p Q -> exec env p d l r d' -> Forall (fun t => W t.1 t.2) l.
Proof.
  revert d l. induction p as [x|C tx c IH|n c IH|c IH]; intros d l Hp; cbn [exec only] in *.
  - intros (-> & _). constructor.
  - intros (d1 & l' & _ & -> & He). destruct (Hp d1) as [HW Hk]. constructor; [done|]. by eapply IH.
  - intros (b & _ & He). by eapply IH.
  - intros (t & He). by eapply IH.
Qed.
End only.

(** A program that was proved safe, executed among transactions that keep to
    the same rules. *)
Section safe_exec.
Variable Inv : database -> Prop.
Variable Guar : database -> database -> Prop.

Lemma rely_inv d d' : Inv d -> rely Inv Guar d d' -> Inv d'.
Proof. intros HI. by induction 1 as [|d1 d2 d3 (_ & H2 & _) _ IH]; auto. Qed.

Lemma safe_exec {A} (p : prog A) Q d l r d' : Inv d -> safe Inv Guar p Q d -> exec (rely Inv Guar) p d l r d' ->
  Inv d' /\ rely Inv Guar d d' /\ Q r d'.
Proof.
  revert d l. induction p as [x|C tx k IH|n k IH|k IH]; intros d l HI Hp; cbn [exec safe] in *.
  - intros (_ & -> & ->). split_and!; [done|apply rtc_refl|done].
  - intros (d1 & l' & Hr & _ & He). pose proof (rely_inv d d1 HI Hr) as HI1. destruct (Hp d1 Hr HI1) as (HI2 & HG & Hk).
    destruct (IH _ _ _ HI2 Hk He) as (H1 & H2 & H3). split_and!; [done| |done].
    etrans; [exact Hr|]. eapply rtc_l; [|exact H2]. by split_and!.
  - intros (b & Hb & He). by eapply IH; [..|by apply Hp|exact He].
  - intros (t & He). by eapply IH; [..|by apply Hp|exact He].
Qed.
End safe_exec.

(** Nothing is asked of the transactions: only the result counts. *)
Lemma only_result {A} (p : prog A) : only (fun _ _ => True) p (fun _ => True).
Proof. induction p as [[]|C tx k IH|n k IH|k IH]; cbn [only]; auto. Qed.
Lemma only_exec_result env {A} (p : prog A) (Q : A -> Prop) d l a d' :
  only (fun _ _ => True) p Q -> exec env p d l (Ok a) d' -> Q a.
Proof.
  revert d l. induction p as [x|C tx k IH|n k IH|k IH]; intros d l Hp; cbn [exec only] in *.
  - intros (_ & <- & _). done.
  - intros (d1 & l' & _ & _ & He). destruct (Hp d1). by eapply IH.
  - intros (b & _ & He). by eapply IH.
  - intros (t & He). by eapply IH.
Qed.

(** ** What is relied on of other tabs *)

Class History `{Cipher} (store key : string) (env : database -> database -> Prop) : Prop := {
  history_preorder :: PreOrder env;
  (* a wrapping key, once chosen, is never replaced *)
  history_key d d' k : env d d' -> wrapping_key d = Some k -> wrapping_key d' = Some k;
  history_chosen d k : env d (choose_key k d).2;
  (* initialization vectors do not repeat: the same one is the same record *)
  history_same d d' : env d d' -> sameRecord (stores d' !! (store, key)) (stores d !! (store, key)) = true ->
    stores d' !! (store, key) = stores d !! (store, key)
}.

Section atomic.
Context `{Cipher}.
Variables store key : string.
Variable env : database -> database -> Prop.
Context `{!History store key env}.

(** Transactions that leave every sealed store alone. *)
Definition quiet_on (l : list (database * database)) : Prop := Forall (fun t => stores t.2 = stores t.1) l.

(** The value a record opens to under a key, and the value stored at [key]. *)
Definition opens_to (wk : list Z) (r : record_) (v : json) : Prop :=
  exists plain, decrypt wk (iv r) [] (sealed r) = Some plain /\ parse plain = Some v.
Definition valued (wk : list Z) (d : database) (v : option json) : Prop :=
  match stores d !! (store, key) with
  | None => v = None
  | Some r => exists j, v = Some j /\ opens_to wk r j
  end.

Lemma quiet_app l1 l2 : quiet_on l1 -> quiet_on l2 -> quiet_on (l1 ++ l2).
Proof. apply Forall_app_2. Qed.

Lemma choose_key_stores k d : stores (choose_key k d).2 = stores d.
Proof. unfold choose_key. destruct (wrapping_key d); [done|]. by destruct (holds_data d). Qed.

Lemma wrappingKey_exec create d l r d' : exec env (wrappingKey create) d l r d' ->
  env d d' /\ quiet_on l /\ forall k, r = Ok k -> wrapping_key d' = Some k.
Proof.
  intros [(e & l1 & d1 & l2 & (H1 & -> & [= ->])%exec_view & H2 & ->)|(e & (_ & _ & ?)%exec_view & _)]%exec_bind; [|done].
  assert (Hv : quiet_on [(d1, d1)]) by (by repeat constructor).
  destruct (wrapping_key d1) as [k|] eqn:Ek.
  { destruct H2 as (-> & -> & ->). split_and!; [done|done|]. by intros k' [= <-]. }
  destruct create; [|destruct H2 as (-> & -> & ->); by split_and!]. destruct H2 as (b & _ & (d2 & H3 & -> & -> & ->)%exec_transact).
  split_and!.
  - etrans; [done|]. etrans; [done|]. apply history_chosen.
  - apply quiet_app; [done|]. repeat constructor. apply choose_key_stores.
  - unfold choose_key. destruct (wrapping_key d2) eqn:E; [by intros k [= <-]|]. destruct (holds_data d2); [done|]. by intros k [= <-].
Qed.

Lemma seal_exec plain aad d l r d' : exec env (seal plain aad) d l r d' ->
  env d d' /\ quiet_on l /\
  forall x, r = Ok x -> exists k b, wrapping_key d' = Some k /\ x = Sealed b (encrypt k b aad plain).
Proof.
  intros (b & _ & [(k & l1 & d1 & l2 & (H1 & H2 & H3)%wrappingKey_exec & (-> & -> & ->) & ->)|(e & (H1 & H2 & _)%wrappingKey_exec & ->)]%exec_bind).
  - rewrite app_nil_r. split_and!; [done..|]. intros x [= <-]. exists k, b. split; [by apply H3|done].
  - by split_and!.
Qed.

Lemma read_value_exec x d l r d' : exec env (read_value x) d l r d' ->
  env d d' /\ quiet_on l /\ forall v, r = Ok v -> exists k, wrapping_key d' = Some k /\ opens_to k x v.
Proof.
  unfold read_value, unseal.
  intros [(p & l1 & d1 & l2 & [(k & l3 & d2 & l4 & (H1 & H2 & H3)%wrappingKey_exec & H4 & ->)|(e & _ & ?)]%exec_bind & H5 & ->)
    |(e & [(k & l3 & d2 & l4 & (H1 & H2 & H3)%wrappingKey_exec & H4 & ->)|(e' & (H1 & H2 & H3)%wrappingKey_exec & ?)]%exec_bind & ->)]%exec_bind; [|done|..].
  - destruct (decrypt k (iv x) [] (sealed x)) as [q|] eqn:Ed; [|by destruct H4 as (_ & ? & _)].
    destruct H4 as (-> & [= ->] & ->). destruct (parse q) as [v|] eqn:Ep; destruct H5 as (-> & -> & ->); rewrite !app_nil_r;
      split_and!; try done. intros v' [= <-]. exists k. split; [by apply H3|]. by exists q.
  - destruct (decrypt k (iv x) [] (sealed x)); destruct H4 as (-> & ? & ->); rewrite app_nil_r; by split_and!.
  - by split_and!.
Qed.

(** What one call of [updateSealed] amounts to. *)
Definition one_step (mutate : option json -> option json) (expected : option fence)
    (l : list (database * database)) (r : result string (option json)) (d' : database) : Prop :=
  match r with
  | Err _ => quiet_on l
  | Ok res => exists l1 d1 d2 l2 wk v,
      l = l1 ++ (d1, d2) :: l2 /\ quiet_on l1 /\ quiet_on l2 /\
      valued wk d1 v /\ (stores d1 !! (store, key) = None \/ wrapping_key d' = Some wk) /\
      match mutate v with
      | None => res = v /\ d2 = d1
      | Some next => res = Some next /\ active (current d1) = true /\
          (forall f, expected = Some f -> generation (current d1) = generation f) /\
          exists x, d2 = put_record store key x d1 /\ wrapping_key d' = Some wk /\ opens_to wk x next
      end
  end.

Lemma one_step_app mutate expected l0 l r d' : quiet_on l0 -> one_step mutate expected l r d' -> one_step mutate expected (l0 ++ l) r d'.
Proof.
  intros H0. destruct r as [res|e]; [|by apply quiet_app].
  intros (l1 & d1 & d2 & l2 & wk & v & -> & H1 & Hrest). exists (l0 ++ l1), d1, d2, l2, wk, v. rewrite app_assoc.
  split; [done|]. split; [by apply quiet_app|done].
Qed.

(** The value of the record read first, in front of the rest of the round. *)
Lemma read_before before d l r d' :
  exec env (match before with
            | None => Db.done None
            | Some x => settle (read_value x) (fun v => match v with Ok j => Db.done (Some j) | Err _ => throw "unreadable" end)
            end) d l r d' ->
  env d d' /\ quiet_on l /\ forall v, r = Ok v ->
    match before with None => v = None | Some x => exists k j, wrapping_key d' = Some k /\ v = Some j /\ opens_to k x j end.
Proof.
  destruct before as [x|].
  - intros (l1 & [j|e] & d1 & l2 & (H1 & H2 & H3)%read_value_exec & (-> & -> & ->) & ->)%exec_settle; rewrite app_nil_r;
      (split_and!; [done|done|]); [|done]. intros v [= <-]. destruct (H3 j eq_refl) as (k & Hk & Ho). by exists k, j.
  - intros (-> & -> & ->). split_and!; [done|constructor|]. by intros v [= <-].
Qed.

(** A round that reaches its transaction. *)
Lemma swap_exec f before x d l r d' : exec env (fencedWrite f false (fun _ d => swap store key before x d)) d l r d' ->
  exists d1, env d d1 /\ l = [(d1, d')] /\
    (r = Ok true /\ sameRecord (stores d1 !! (store, key)) before = true /\ d' = put_record store key x d1 /\
       active (current d1) = true /\ generation (current d1) = generation f \/
     r <> Ok true /\ d' = d1).
Proof.
  intros (d1 & Henv & -> & -> & ->)%exec_transact. exists d1. split; [done|]. cbv zeta. unfold swap.
  destruct (Z.eqb_spec (generation (current d1)) (generation f)); [|split; [done|by right]].
  destruct (active (current d1)) eqn:Ea; [|split; [done|by right]]. cbn.
  destruct (sameRecord _ _) eqn:Es; (split; [done|]); [left|right]; by split_and!.
Qed.

Lemma fence_exec (expected : option fence) d l r d' :
  exec env (match expected with Some f => Db.done f | None => identityFence end) d l r d' ->
  env d d' /\ quiet_on l /\ exists f, r = Ok f /\ forall f', expected = Some f' -> f = f'.
Proof.
  destruct expected as [f|].
  - intros (-> & -> & ->). split_and!; [done|constructor|]. exists f. split; [done|]. by intros f' [= ->].
  - intros (H1 & -> & ->)%exec_view. split_and!; [done|by repeat constructor|]. eexists. by split.
Qed.

Lemma attempts_exec n mutate expected d l r d' : exec env (update_attempts n store key mutate expected) d l r d' ->
  one_step mutate expected l r d'.
Proof.
  revert d l. induction n as [|n IH]; intros d l; cbn [update_attempts]; [intros (-> & -> & _); constructor|].
  intros [(before & l1 & d1 & l2 & (E1 & -> & [= ->])%exec_view & Hrest & ->)|(e & (_ & _ & ?)%exec_view & _)]%exec_bind; [|done].
  assert (Q1 : quiet_on [(d1, d1)]) by (by repeat constructor).
  apply exec_bind in Hrest as [(v & l3 & d2 & l4 & (E2 & Q2 & Hv)%read_before & Hrest & ->)|(e & (_ & Q2 & _)%read_before & ->)];
    [|by apply quiet_app]. specialize (Hv v eq_refl).
  destruct (mutate v) as [next|] eqn:Em.
  2:{ destruct Hrest as (-> & -> & ->). cbn [one_step]. rewrite app_nil_r.
      destruct (stores d1 !! (store, key)) as [x|] eqn:Ex.
      - destruct Hv as (k & j & Hk & -> & Ho). exists [], d1, d1, l3, k, (Some j). split_and!; [done|constructor|done| |by right|by rewrite Em].
        unfold valued. rewrite Ex. by exists j.
      - subst v. exists [], d1, d1, l3, [], None. split_and!; [done|constructor|done| |by left|by rewrite Em]. unfold valued. by rewrite Ex. }
  apply exec_bind in Hrest as [(x & l5 & d3 & l6 & (E3 & Q3 & Hx)%seal_exec & Hrest & ->)|(e & (_ & Q3 & _)%seal_exec & ->)];
    [|by repeat apply quiet_app]. destruct (Hx x eq_refl) as (k & b & Hk & Hxeq).
  apply exec_bind in Hrest as [(f & l7 & d4 & l8 & (E4 & Q4 & f' & [= <-] & Hf)%fence_exec & Hrest & ->)|(e & (_ & _ & ? & ? & _)%fence_exec & _)]; [|done].
  apply exec_bind in Hrest as [(won & l9 & d5 & l10 & (d6 & E5 & -> & Hcase)%swap_exec & Hrest & ->)|(e & (d6 & E5 & -> & Hcase)%swap_exec & ->)].
  2:{ assert (quiet_on [(d6, d')]). { repeat constructor. destruct Hcase as [(? & _)|(_ & ->)]; done. } by repeat apply quiet_app. }
  destruct Hcase as [([= ->] & Hsame & -> & Hact & Hgen)|(Hne & ->)].
  - destruct Hrest as (-> & -> & ->). apply history_same in Hsame; [|by repeat (etrans; [eassumption|])].
    assert (Hk6 : wrapping_key d6 = Some k) by (eapply history_key; [|exact Hk]; by etrans).
    exists ([(d1, d1)] ++ l3 ++ l5 ++ l7), d6, (put_record store key x d6), [], k, v.
    split_and!; [by rewrite <- !app_assoc|by repeat apply quiet_app|constructor| |by right|].
    + unfold valued. rewrite Hsame. destruct (stores d1 !! (store, key)) as [y|]; [|done]. destruct Hv as (k' & j & Hk' & -> & Ho).
      assert (k' = k) as -> by (eapply history_key in E3; [|exact Hk']; congruence). by exists j.
    + rewrite Em. split_and!; [done|done|intros f' Hf'; by rewrite <- (Hf f' Hf')|]. exists x. split_and!; [done|done|].
      subst x. exists (stringify next). split; [apply decrypt_encrypt|apply parse_stringify].
  - destruct won; [done|]. apply IH in Hrest. assert (quiet_on [(d6, d6)]) by (by repeat constructor).
    repeat (apply one_step_app; [done|]). done.
Qed.
End atomic.

(** C13: [updateSealed] is one atomic read-modify-write.  However the
    transactions of other tabs fall between its own, a call that succeeds has
    exactly one transaction that counts: at that instant the record holds a
    value [v], and either [mutate] leaves [v] alone and the call returns it, or
    the call stores and returns [mutate v], the identity being active and of the
    expected generation; no update by another tab is lost in between.  A call
    that fails (unreadable, fenced, or eight lost races) has written nothing. *)
Theorem update_atomic `{Cipher} store key env `{!History store key env} mutate expected d l r d' :
  exec env (updateSealed store key mutate expected) d l r d' -> one_step store key mutate expected l r d'.
Proof. apply attempts_exec. apply _. Qed.

(** ** Running a call *)

(** The transactions, result and final database of a program; [others n] is
    what other tabs do before the transaction that is met with [n] steps left,
    and the outcome is [None] when the steps are not enough. *)
Fixpoint among {A} (others : nat -> database -> database) (n : nat) (rand : nat -> list Z) (now : Z) (p : prog A) (d : database)
    : option (list (database * database) * result string A * database) :=
  match n with
  | O => None
  | S n' =>
    match p with
    | Ret r => Some ([], r, d)
    | Atomic tx k =>
      let d1 := others n' d in
      match among others n' rand now (k (tx d1).1) (tx d1).2 with
      | Some (l, r, d') => Some ((d1, (tx d1).2) :: l, r, d')
      | None => None
      end
    | Random m k => among others n' rand now (k (rand m)) d
    | Clock k => among others n' rand now (k now) d
    end
  end.

Lemma among_exec {A} (env : database -> database -> Prop) others n rand now (p : prog A) d l r d' :
  (forall n d, env d (others n d)) -> (forall m, length (rand m) = m) -> among others n rand now p d = Some (l, r, d') ->
  exec env p d l r d'.
Proof.
  intros Ho Hr. revert p d l. induction n as [|n IH]; intros p d l; [done|]. destruct p as [x|B tx k|m k|k]; cbn [among exec].
  - by intros [= <- <- <-].
  - cbv zeta. destruct (among _ n rand now _ _) as [[[l' r'] d1]|] eqn:E; [|done]. intros [= <- <- <-].
    exists (others n d), l'. split_and!; [apply Ho|done|by apply IH].
  - intros E. exists (rand m). split; [done|by apply IH].
  - intros E. exists now. by apply IH.
Qed.

(** Nobody disturbs the call. *)
Definition alone {A} : nat -> (nat -> list Z) -> Z -> prog A -> database -> option (list (database * database) * result string A * database) :=
  among (fun _ d => d).

Lemma alone_exec {A} (env : database -> database -> Prop) `{!Reflexive env} n rand now (p : prog A) d l r d' :
  (forall m, length (rand m) = m) -> alone n rand now p d = Some (l, r, d') -> exec env p d l r d'.
Proof. by apply among_exec. Qed.

(** A program that runs undisturbed in a pool. *)
Lemma alone_steps {A} (starts : database -> prog A -> Prop) n rand now (p : prog A) d l r d' pool i :
  (forall m, length (rand m) = m) -> alone n rand now p d = Some (l, r, d') -> pool !! i = Some p ->
  rtc (wstep A starts) (d, pool) (d', <[i := Ret r]> pool).
Proof.
  intros Hr. revert p d l pool. induction n as [|n IH]; intros p d l pool; [done|]. unfold alone in *. destruct p as [x|B tx k|m k|k]; cbn [among].
  - intros [= <- <- <-] Hi. by rewrite list_insert_id.
  - destruct (among _ n rand now _ _) as [[[l' r'] d1]|] eqn:E; [|done]. intros [= <- <- <-] Hi.
    eapply rtc_l; [by apply step_tx|]. rewrite <- (list_insert_insert_eq pool i (Ret r') (k (tx d).1)). eapply IH; [exact E|].
    apply list_lookup_insert_eq. by eapply lookup_lt_Some.
  - intros E Hi. eapply rtc_l; [by eapply step_random, Hr|]. rewrite <- (list_insert_insert_eq pool i (Ret r) (k (rand m))). eapply IH; [exact E|].
    apply list_lookup_insert_eq. by eapply lookup_lt_Some.
  - intros E Hi. eapply rtc_l; [by apply (step_clock A starts d pool i k now)|]. rewrite <- (list_insert_insert_eq pool i (Ret r) (k now)). eapply IH; [exact E|].
    apply list_lookup_insert_eq. by eapply lookup_lt_Some.
Qed.

(** From its start to its end. *)
Lemma alone_started {A} (starts : database -> prog A -> Prop) n rand now (p : prog A) d l r d' :
  (forall m, length (rand m) = m) -> alone n rand now p d = Some (l, r, d') -> starts d p -> rtc (wstep A starts) (d, []) (d', [Ret r]).
Proof. intros Hr E Hs. eapply rtc_l; [by apply step_start|]. by apply (alone_steps starts n rand now p d l r d' [p] 0 Hr E). Qed.

(** Evaluating the result alone is enough. *)
Definition result_of {A} (x : option (list (database * database) * result string A * database)) : option (result string A) :=
  match x with Some (_, r, _) => Some r | None => None end.

Lemma result_of_some {A} (x : option (list (database * database) * result string A * database)) r : result_of x = Some r ->
  exists l d', x = Some (l, r, d').
Proof. destruct x as [[[l r'] d']|]; [|done]. intros [= ->]. by exists l, d'. Qed.

(** A history in which other tabs write the record, each time with a higher
    first byte of the initialization vector. *)
Module Rising.
Definition rank (store key : string) (d : database) : Z :=
  match stores d !! (store, key) with Some r => 1 + default 0 (head (iv r)) | None => 0 end.
Definition env (store key : string) (d d' : database) : Prop :=
  (forall k, wrapping_key d = Some k -> wrapping_key d' = Some k) /\
  (stores d' !! (store, key) = stores d !! (store, key) \/ rank store key d < rank store key d').

#[export] Program Instance transparent : Cipher := {| encrypt _ _ _ p := p; decrypt _ _ _ c := Some c |}.
Solve Obligations with done.

#[export] Instance rising store key : History store key (env store key).
Proof.
  assert (Hrank : forall d d', stores d' !! (store, key) = stores d !! (store, key) -> rank store key d' = rank store key d).
  { intros d d' E. unfold rank. by rewrite E. }
  split.
  - split.
    + intros d. split; [done|by left].
    + intros d1 d2 d3 [K1 S1] [K2 S2]. split; [by auto|]. destruct S1 as [S1|S1], S2 as [S2|S2]; [left; congruence|right..].
      * apply Hrank in S1. lia.
      * apply Hrank in S2. lia.
      * lia.
  - intros d d' k [Hk _]. auto.
  - intros d k. split; [|left; by rewrite choose_key_stores]. intros k' E. unfold choose_key. by rewrite E.
  - intros d d' [_ [E|Hlt]] Hs; [done|]. exfalso. unfold rank in Hlt.
    destruct (stores d' !! (store, key)) as [x|], (stores d !! (store, key)) as [y|]; try done; try lia.
    cbn in Hs. apply bool_decide_eq_true in Hs. rewrite Hs in Hlt. lia.
Qed.

Definition rand (m : nat) : list Z := repeat 9 m.
Definition start : database :=
  put_record "dm" "k" (Sealed (repeat 1 12) (stringify (JNum 1))) (empty_database <| wrapping_key := Some (repeat 7 32) |>).
Definition bump (v : option json) : option json := match v with Some (JNum n) => Some (JNum (n + 1)) | _ => None end.
End Rising.
#[local] Existing Instance Rising.transparent.
#[local] Existing Instance Rising.rising.

Lemma bump_alone : exists l d', alone 20 Rising.rand 0 (updateSealed "dm" "k" Rising.bump None) Rising.start = Some (l, Ok (Some (JNum 2)), d').
Proof. apply result_of_some. vm_compute. reflexivity. Qed.

Lemma update_atomic_witness : exists l d',
  exec (Rising.env "dm" "k") (updateSealed "dm" "k" Rising.bump None) Rising.start l (Ok (Some (JNum 2))) d' /\
  one_step "dm" "k" Rising.bump None l (Ok (Some (JNum 2))) d'.
Proof.
  destruct bump_alone as (l & d' & E). exists l, d'.
  assert (He : exec (Rising.env "dm" "k") (updateSealed "dm" "k" Rising.bump None) Rising.start l (Ok (Some (JNum 2))) d').
  { apply (alone_exec (Rising.env "dm" "k") 20 Rising.rand 0); [intros m; apply repeat_length|exact E]. }
  split; [exact He|]. exact (update_atomic "dm" "k" (Rising.env "dm" "k") Rising.bump None _ _ _ _ He).
Defined.
