(* ===== verification/Outbox.v ===== *)
(** * Messages written offline (outbox.js)

    Entries of the sealed store "outbox": a draft, and from the moment a secure
    send starts a committed attempt.  Every operation is a program of the
    database (Db.v); the sends themselves ([session.send], [groups.send],
    [dm.send]), the connection's state and the user interface are the
    environment: parameters of [flush].

    The running flush per session and the timer of held messages (WeakMaps of
    the page) are not part of the state; [flush] is the body of one run, and
    returns when the next held message is due with the number sent. *)

From stdpp Require Import base gmap list strings sorting.
From Stdlib Require Import ZArith Lia.
From S2P Require Import Prelude Json Text Db DbAtomic.

Definition OUTBOX_TTL : Z := 14 * 24 * 3600 * 1000.
Definition outbox : string := "outbox".

(** ** Entries *)

Definition is_committed (e : json) : bool := truthy (field "committed" e).
Definition is_failed (e : json) : bool := truthy (field "failed" e).
Definition is_expired (e : json) : bool := truthy (field "expired" e).
Definition is_unreadable (e : json) : bool := truthy (field "unreadable" e).

Definition field_of (k : string) (v : option json) : option json := match v with Some w => field k w | None => None end.

(** [e.committed ? e.committed.text : e.text] *)
Definition entry_text (e : json) : option json :=
  if is_committed e then field_of "text" (field "committed" e) else field "text" e.

Definition entry_kind (e : json) (k : string) : bool := is_text (field "kind" e) k.

Definition destination (e : json) : string :=
  if entry_kind e "channel" then "channel:" +:+ String_of (field "scope" e)
  else if entry_kind e "conversation" then "conversation:" +:+ String_of (field "conversation" e)
  else "dm:" +:+ String_of (field "peer" e).

(** [{id, ...target, text, sentAt, createdAt, holdUntil, replyTo}] *)
Definition new_entry (id : string) (target : json) (text : json) (sentAt createdAt holdUntil replyTo : Z) : json :=
  jset "replyTo" (JNum replyTo) (jset "holdUntil" (JNum holdUntil) (jset "createdAt" (JNum createdAt)
    (jset "sentAt" (JNum sentAt) (jset "text" text (spread (JObj [("id", JStr id)]%string) target))))).

(** [const {failed, error, ...kept} = existing] *)
Definition kept (existing : json) : json := jdel "error" (jdel "failed" existing).

(** What [enqueue] stores over the current entry; [None] leaves it alone. *)
Definition enqueue_mutate (entry : json) (existing : option json) : option json :=
  match existing with
  | Some e =>
    if is_committed e then
      if truthy (field "failed" e) || truthy (field "error" e) then Some (kept e) else None
    else Some entry
  | None => Some entry
  end.

(** The result set by the last call of the function above, from what
    [updateSealed] returned: the stored entry. *)
Definition enqueue_result (entry : json) (stored : option json) : json :=
  match stored with
  | Some e => if is_committed e then jset "replaced" (JBool false) (kept e) else entry
  | None => entry
  end.

Section outbox_ops.
Context `{Cipher}.

Definition enqueue (id : string) (target text : json) (sentAt holdUntil replyTo : Z) : prog json :=
  Clock (fun createdAt =>
  let entry := new_entry id target text sentAt createdAt holdUntil replyTo in
  do! stored := updateSealed outbox id (enqueue_mutate entry) None in
  Db.done (enqueue_result entry stored)).

(** ** Listing *)

(** [now - e.createdAt > OUTBOX_TTL]: false when there is no such number. *)
Definition past_ttl (now : Z) (e : json) : bool :=
  match field "createdAt" e with
  | Some (JNum c) => OUTBOX_TTL <? now - c
  | Some JNull => OUTBOX_TTL <? now
  | _ => false
  end.
Definition expires (now : Z) (e : json) : bool := negb (is_committed e) && negb (is_expired e) && past_ttl now e.
Definition expired_draft (e : json) : json := jset "text" (JStr "") (jset "expired" (JBool true) e).

Definition unreadable_entry (id message : string) : json :=
  JObj [("id", JStr id); ("unreadable", JBool true); ("error", JStr message); ("createdAt", JNum 0)]%string.

Fixpoint pending_entries (now : Z) (fence : option fence) (ids : list string) (out : list json) : prog (list json) :=
  match ids with
  | [] => Db.done out
  | id :: rest =>
    settle (getSealed outbox id) (fun r =>
      match r with
      | Err e => pending_entries now fence rest (out ++ [unreadable_entry id e])
      | Ok None => pending_entries now fence rest out
      | Ok (Some e) =>
        if expires now e then
          settle (match fence with
                  | Some f => putSealedIn f outbox id (expired_draft e)
                  | None => putSealed outbox id (expired_draft e)
                  end) (fun _ => pending_entries now fence rest (out ++ [expired_draft e]))
        else pending_entries now fence rest (out ++ [e])
      end)
  end.

Definition created (e : json) : Z := num_or 0 (field "createdAt" e).
Definition older (a b : json) : Prop := created a <= created b.
#[global] Instance older_dec a b : Decision (older a b).
Proof. unfold older. apply _. Defined.

Definition pending (now : Z) (fence : option fence) : prog (list json) :=
  do! ids := keys outbox in
  do! out := pending_entries now fence ids [] in
  Db.done (merge_sort older out).

Definition remove (id : string) : prog unit := deleteKey outbox id.

(** ** Sending *)

(** How a send ended: [mismatch] says that an earlier operation with this ID was
    sent instead.  A refusal carries the members of the error the flush reads. *)
Record refusal := Refusal {
  code : string; message : string; blocked : bool; retryable : bool; retryAfterMS : Z; original : option string
}.
Inductive outcome := Sent (mismatch : bool) | Refused (e : refusal).

(** An error of the database, seen by the same handler. *)
Definition db_error (e : string) : refusal := Refusal e e false false 0 None.
Definition mismatch_error : refusal :=
  Refusal "logical_mismatch" "logical_mismatch: a different message was already sent with this ID" false false 0 None.

Definition entry_id (e : json) : string := String_of (field "id" e).

Definition keepQueued (f : fence) (e : json) : prog (option json) :=
  updateSealed outbox (entry_id e) (fun cur => if truthy cur then Some e else None) (Some f).

Definition sameFence (a b : fence) : bool := (generation a =? generation b) && active a && active b.

(** The draft becomes an attempt: [{...cur, committed: {text: cur.text}}]. *)
Definition commit_draft (cur : option json) : option json :=
  match cur with
  | Some e => if truthy cur && negb (is_committed e) && negb (is_failed e)
              then Some (jset "committed" (put_opt "text" (field "text" e) (JObj [])) e) else None
  | None => None
  end.

(** The state of one run, and whether its loop goes on. *)
Record run := Run { sent : Z; nextHeld : option Z; waiting : list string }.
Inductive next := Continue (s : run) | Break (s : run).

(** The environment of a run. *)
Variable deliver : json -> option json -> prog outcome.     (* session.send, groups.send or dm.send *)
Variable conn_open : prog bool.                             (* session.conn.open *)
Variables dm_ratchet groups_ratchet has_groups : bool.      (* dm?.ratchet, groups?.ratchet, groups *)

Definition is_ratchet (e : json) : bool :=
  (entry_kind e "dm" && dm_ratchet) || (entry_kind e "conversation" && has_groups && groups_ratchet).

(** A rate limit is waited for, at most twice. *)
Fixpoint send_attempts (left_ : nat) (e : json) (text : option json) : prog outcome :=
  do! o := deliver e text in
  match o with
  | Sent _ => Db.done o
  | Refused err =>
    match left_ with
    | O => Db.done o
    | S l => if retryAfterMS err =? 0 then Db.done o
             else do! open := conn_open in if (open : bool) then send_attempts l e text else Db.done o
    end
  end.

Definition add_waiting (e : json) (s : run) : run := Run (sent s) (nextHeld s) (destination e :: waiting s).

(** The consumer's committed original is authoritative. *)
Definition adopt_original (err : refusal) (current : json) : json * bool :=
  match original err with
  | Some o => if is_committed current && negb (is_text (field_of "text" (field "committed" current)) o)
              then (jset "committed" (JObj [("text", JStr o)]%string) current, true) else (current, false)
  | None => (current, false)
  end.

Definition ignore_error {A B} (p : prog A) (k : prog B) : prog B := settle p (fun _ => k).

(** The handler of a failed send; [changed] says that [current] is not the entry listed. *)
Definition refused (f : fence) (current : json) (changed : bool) (err : refusal) (s : run) : prog next :=
  if bool_decide (code err = "fenced"%string) then Db.done (Break s) else
  do! now_fence := currentFence in
  if negb (sameFence f now_fence) then Db.done (Break s) else
  let '(cur, adopted) := adopt_original err current in
  if blocked err then
    ignore_error (keepQueued f (jset "error" (JStr (message err)) cur)) (Db.done (Continue (add_waiting cur s)))
  else if retryable err then
    ignore_error (if changed || adopted then keepQueued f cur else Db.done None)
      (do! open := conn_open in
       if negb open || bool_decide (code err = "rate-limit"%string) || negb (retryAfterMS err =? 0)
       then Db.done (Break s) else Db.done (Continue (add_waiting cur s)))
  else
    ignore_error (keepQueued f (jset "error" (JStr (message err)) (jset "failed" (JBool true) cur))) (Db.done (Continue s)).

Definition send_entry (f : fence) (current : json) (changed : bool) (s : run) : prog next :=
  settle (send_attempts 2 current (entry_text current)) (fun r =>
    match r with
    | Err e => refused f current changed (db_error e) s
    | Ok (Refused err) => refused f current changed err s
    | Ok (Sent true) => refused f current changed mismatch_error s
    | Ok (Sent false) =>
      settle (deleteKeyIn f outbox (entry_id current)) (fun w =>
        match w with
        | Ok _ => Db.done (Continue (Run (sent s + 1) (nextHeld s) (waiting s)))
        | Err e => refused f current changed (db_error e) s
        end)
    end).

(** Is the entry held back for Undo?  [holdUntil] of the entry, when it is. *)
Definition held_until (now : Z) (e : json) : option Z :=
  match field "holdUntil" e with
  | Some (JNum h) => if (now <? h) && negb (is_committed e) then Some h else None
  | _ => None
  end.

Definition hold (h : Z) (s : run) : run :=
  Run (sent s) (Some match nextHeld s with Some n => Z.min n h | None => h end) (waiting s).

(** One entry of the run. *)
Definition flush_entry (f : fence) (e : json) (s : run) : prog next :=
  if is_unreadable e then Db.done (Continue s) else
  do! now_fence := currentFence in
  if negb (sameFence f now_fence) then Db.done (Break s) else
  if is_failed e || (is_expired e && negb (is_committed e)) then Db.done (Continue s) else
  if entry_kind e "conversation" && negb has_groups then Db.done (Continue s) else
  if bool_decide (destination e ∈ waiting s) then Db.done (Continue s) else
  Clock (fun now =>
  match held_until now e with
  | Some h => Db.done (Continue (hold h s))
  | None =>
    if is_ratchet e && negb (is_committed e) then
      settle (updateSealed outbox (entry_id e) commit_draft (Some f)) (fun r =>
        match r with
        | Err x => if bool_decide (x = "fenced"%string) then Db.done (Break s) else Db.done (Continue s)
        | Ok None => Db.done (Continue s)
        | Ok (Some latest) =>
          if negb (truthy (Some latest)) || is_failed latest || negb (is_committed latest) then Db.done (Continue s)
          else send_entry f latest true s
        end)
    else send_entry f e false s
  end).

Fixpoint flush_entries (f : fence) (entries : list json) (s : run) : prog run :=
  match entries with
  | [] => Db.done s
  | e :: rest =>
    do! n := flush_entry f e s in
    match n with Continue s' => flush_entries f rest s' | Break s' => Db.done s' end
  end.

(** The body of one run: [pendingRules] refuses every send until accepted. *)
Definition flush (pendingRules : bool) : prog run :=
  if pendingRules then Db.done (Run 0 None []) else
  do! f := currentFence in
  Clock (fun now =>
  do! entries := pending now (Some f) in
  flush_entries f entries (Run 0 None [])).

(** ** Showing *)

(** The state [show] hands to the conversation. *)
Definition shown (e : json) : json :=
  obj [("text", entry_text e); ("sentAt", field "sentAt" e);
       ("expired", Some (JBool ((is_expired e && negb (is_committed e)) || is_failed e)));
       ("holdUntil", Some (if is_committed e then JNum 0 else match field "holdUntil" e with Some x => if truthy (Some x) then x else JNum 0 | None => JNum 0 end));
       ("replyTo", Some match field "replyTo" e with Some x => if truthy (Some x) then x else JNum 0 | None => JNum 0 end)]%string.

Definition is_waiting (e : json) : bool := is_unreadable e || ((negb (is_expired e) || is_committed e) && negb (is_failed e)).

Definition waitingCount : prog Z :=
  Clock (fun now =>
  do! entries := pending now None in
  Db.done (Z.of_nat (length (filter (fun e => is_waiting e = true) entries)))).
End outbox_ops.

(** ** Members of entries *)

Lemma field_kept k e : k <> "failed"%string -> k <> "error"%string -> field k (kept e) = field k e.
Proof. intros H1 H2. unfold kept. by autorewrite with fields. Qed.
#[export] Hint Rewrite field_kept using done : fields.

Lemma field_none_keys k v : field k v = None -> Forall (fun kv => kv.1 <> k) (members v).
Proof.
  destruct v as [| | | | |ms]; try (intros; constructor). cbn [members field]. induction ms as [|[k' v] ms IH]; [constructor|].
  cbn [assoc_last]. destruct (assoc_last k ms); [done|]. destruct (decide (k = k')) as [|Hne]; [done|]. intros _.
  constructor; [by apply not_eq_sym|auto].
Qed.

Lemma field_foldl_jset k (l : list (string * json)) acc : Forall (fun kv => kv.1 <> k) l ->
  field k (foldl (fun a kv => jset kv.1 kv.2 a) acc l) = field k acc.
Proof.
  intros Hl. revert acc. induction Hl as [|[k' v] l Hk _ IH]; intros acc; [done|]. cbn [foldl fst snd] in *. rewrite IH.
  by apply field_jset_ne, not_eq_sym.
Qed.

Lemma new_entry_draft id target text sentAt createdAt holdUntil replyTo : field "committed" target = None ->
  is_committed (new_entry id target text sentAt createdAt holdUntil replyTo) = false.
Proof.
  intros Ht. unfold is_committed, new_entry. autorewrite with fields. unfold spread.
  rewrite field_foldl_jset by (by apply field_none_keys). done.
Qed.

Lemma kept_committed e : is_committed (kept e) = is_committed e.
Proof. unfold is_committed. by rewrite field_kept. Qed.

Lemma kept_idemp e : kept (kept e) = kept e.
Proof.
  unfold kept, jdel. cbn [members]. f_equal. induction (members e) as [|[k v] l IH]; [done|].
  destruct (decide (k = "failed"%string)) as [->|H1]; [by rewrite filter_cons_False by naive_solver|].
  destruct (decide (k = "error"%string)) as [->|H2].
  - rewrite (filter_cons_True _ _ l) by done. by rewrite !(filter_cons_False _ ("error"%string, v)) by naive_solver.
  - do 4 rewrite filter_cons_True by done. by f_equal.
Qed.
