(* ===== verification/OutboxSafety.v ===== *)
(** * What the outbox promises

    - [enqueue_keeps_attempt]: a retry never replaces an attempt in progress.
    - [flush_queue_safe]: a run of [flush] writes entries only in the identity
      generation it started in.  Its listing writes nothing but expired drafts;
      working through the entries brings none back that was removed meanwhile, and
      removes one only when its send was accepted.
    - [expiry_overwrites_retry], [expiry_restores_removed]: the one write that is not
      a compare-and-swap, the expiry in [pending], replaces a draft that was renewed
      meanwhile, and stores one anew that was removed. *)

From stdpp Require Import base gmap list strings.
From Stdlib Require Import ZArith Lia.
From S2P Require Import Prelude Json Text Db DbAtomic Outbox.

(** ** Enqueueing *)

Section enqueueing.
Context `{Cipher}.
Variables (id : string) (env : database -> database -> Prop).
Context `{!History outbox id env}.

Lemma valued_put wk x v d : opens_to wk x v -> valued outbox id wk (put_record outbox id x d) (Some v).
Proof. intros Ho. unfold valued, put_record, set_field. cbn. rewrite lookup_insert_eq. by exists v. Qed.

(** C30: an attempt in progress is never replaced by a new draft.  However other
    tabs interleave, [enqueue] decides in one instant, on the entry that is
    stored then: when its attempt is committed, the attempt stays as it is (a
    terminal failure is cleared, for the next flush to resolve the same
    operation) and the caller is told that its text was not stored; otherwise
    the new draft is stored and returned. *)
Theorem enqueue_keeps_attempt target text sentAt holdUntil replyTo d l res d' : field "committed" target = None ->
  exec env (enqueue id target text sentAt holdUntil replyTo) d l (Ok res) d' ->
  exists createdAt l1 d1 d2 l2 wk v, l = l1 ++ (d1, d2) :: l2 /\ quiet_on l1 /\ quiet_on l2 /\ valued outbox id wk d1 v /\
  let entry := new_entry id target text sentAt createdAt holdUntil replyTo in
  match v with
  | Some e =>
    if is_committed e
    then res = jset "replaced" (JBool false) (kept e) /\ field "committed" res = field "committed" e /\
         exists e', valued outbox id wk d2 (Some e') /\ field "committed" e' = field "committed" e /\ (e' = e \/ e' = kept e)
    else res = entry /\ valued outbox id wk d2 (Some entry)
  | None => res = entry /\ valued outbox id wk d2 (Some entry)
  end.
Proof.
  intros Ht (createdAt & He). pose proof (new_entry_draft id target text sentAt createdAt holdUntil replyTo Ht) as Hdraft.
  set (entry := new_entry id target text sentAt createdAt holdUntil replyTo) in *.
  apply exec_bind in He as [(stored & l1 & d1 & l2 & Hu & (-> & [= ->] & ->) & ->)|(e & _ & ?)]; [|done].
  apply (attempts_exec outbox id env) in Hu. destruct Hu as (la & da & db & lb & wk & v & -> & Q1 & Q2 & Hv & _ & Hm).
  exists createdAt, la, da, db, lb, wk, v. rewrite app_nil_r. split_and!; [done..|]. fold entry. cbv zeta.
  assert (Hnew : enqueue_mutate entry v = Some entry -> enqueue_result entry (Some entry) = entry /\ valued outbox id wk db (Some entry)).
  { intros E. rewrite E in Hm. destruct Hm as (-> & _ & _ & x & -> & _ & Ho). cbn [enqueue_result]. rewrite Hdraft.
    split; [done|by apply valued_put]. }
  destruct v as [e|]; [|rewrite (proj1 Hm); by apply Hnew]. unfold enqueue_mutate in *. cbn [enqueue_mutate] in *.
  destruct (is_committed e) eqn:Ec; [|rewrite (proj1 Hm); by apply Hnew].
  destruct (truthy (field "failed" e) || truthy (field "error" e)).
  - destruct Hm as (-> & _ & _ & x & -> & _ & Ho). cbn [enqueue_result]. rewrite kept_committed, Ec.
    rewrite kept_idemp. split_and!; [done|by autorewrite with fields|].
    exists (kept e). split_and!; [by apply valued_put|by autorewrite with fields|by right].
  - destruct Hm as (-> & ->). cbn [enqueue_result]. rewrite Ec. split_and!; [done|by autorewrite with fields|].
    exists e. split_and!; [done|done|by left].
Qed.
End enqueueing.

(** ** A run of [flush] *)

Section flushing.
Context `{Cipher}.
Variable deliver : json -> option json -> prog outcome.
Variable conn_open : prog bool.
Variables dm_ratchet groups_ratchet has_groups : bool.

(** The entries whose send the server accepted. *)
Variable accepted : string -> Prop.

(** What one transaction does to the entry [id]: nothing; or, in generation [g],
    it replaces an entry that is there, or removes it after its send. *)
Definition worked (g : Z) (d d' : database) : Prop := forall id,
  stores d' !! (outbox, id) = stores d !! (outbox, id) \/
  generation (current d) = g /\ active (current d) = true /\ is_Some (stores d !! (outbox, id)) /\
  (is_Some (stores d' !! (outbox, id)) \/ accepted id).
(** A record that seals a draft past its time, without its text. *)
Definition seals_expired (now : Z) (r : option record_) : Prop :=
  exists key iv e, r = Some (Sealed iv (encrypt key iv [] (stringify (expired_draft e)))) /\ expires now e = true.
(** What one transaction of the listing does to the entry [id]: nothing; or, in generation
    [g], it stores an expired draft there, whether an entry is there or not. *)
Definition listed (now g : Z) (d d' : database) : Prop := forall id,
  stores d' !! (outbox, id) = stores d !! (outbox, id) \/
  generation (current d) = g /\ active (current d) = true /\ seals_expired now (stores d' !! (outbox, id)).
Definition elsewhere (d d' : database) : Prop := forall id, stores d' !! (outbox, id) = stores d !! (outbox, id).

Lemma elsewhere_worked g d d' : elsewhere d d' -> worked g d d'.
Proof. intros He id. by left. Qed.
Lemma elsewhere_listed now g d d' : elsewhere d d' -> listed now g d d'.
Proof. intros He id. by left. Qed.

Lemma only_weaken {A} (V W : database -> database -> Prop) (p : prog A) (Q : A -> Prop) :
  (forall d d', V d d' -> W d d') -> only V p Q -> only W p Q.
Proof.
  intros HVW. induction p as [r|B tx k IH|n k IH|k IH]; cbn [only]; auto. intros Hp d. destruct (Hp d). auto.
Qed.

Lemma view_elsewhere {A} (f : database -> A) : only elsewhere (view f) (fun _ => True).
Proof. intros d. split; [by intros id|done]. Qed.

Lemma wrappingKey_elsewhere create : only elsewhere (wrappingKey create) (fun _ => True).
Proof.
  eapply only_bind; [apply view_elsewhere|]. intros [k|] _; [exact I|]. destruct create; [|exact I]. intros b d.
  split; [|destruct (choose_key b d).1; exact I]. intros id. cbn [snd]. by rewrite choose_key_stores.
Qed.

Lemma seal_elsewhere plain aad : only elsewhere (seal plain aad) (fun r => exists key iv, r = Sealed iv (encrypt key iv aad plain)).
Proof. intros b. eapply only_bind; [apply wrappingKey_elsewhere|]. intros k _. by exists k, b. Qed.

Lemma read_value_elsewhere x : only elsewhere (read_value x) (fun _ => True).
Proof.
  eapply only_bind with (Q := fun _ => True).
  - eapply only_bind; [apply wrappingKey_elsewhere|]. intros k _. destruct (decrypt _ _ _ _); exact I.
  - intros p _. destruct (parse p); exact I.
Qed.

Lemma lookup_put_ne store key x d id : (store, key) <> (outbox, id) ->
  stores (put_record store key x d) !! (outbox, id) = stores d !! (outbox, id).
Proof. intros Hne. unfold put_record, set_field. cbn. by rewrite lookup_insert_ne. Qed.

(** A transaction that is refused changes nothing. *)
Lemma only_fenced {A} (W : database -> database -> Prop) f (work : fence -> database -> result string (A * database)) :
  (forall d, W d d) ->
  (forall d a d', generation (current d) = generation f -> active (current d) = true -> work (current d) d = Ok (a, d') -> W d d') ->
  only W (fencedWrite f false work) (fun _ => True).
Proof.
  intros Hrefl Hw d. split; [|cbn [only]; match goal with |- match ?r with _ => _ end => by destruct r end]. cbn [snd]. cbv zeta.
  destruct (Z.eqb_spec (generation (current d)) (generation f)); [|apply Hrefl].
  destruct (active (current d)) eqn:Ea; [|apply Hrefl]. cbn [andb orb].
  destruct (work (current d) d) as [[a d']|x] eqn:Ew; [by eapply Hw|apply Hrefl].
Qed.

Lemma worked_refl g d : worked g d d.
Proof. intros id. by left. Qed.
Lemma listed_refl now g d : listed now g d d.
Proof. intros id. by left. Qed.

(** An update that leaves a missing entry alone brings none back. *)
Lemma update_worked n id mutate f : mutate None = None ->
  only (worked (generation f)) (update_attempts n outbox id mutate (Some f)) (fun _ => True).
Proof.
  intros Hn. induction n as [|n IH]; cbn [update_attempts]; [exact I|].
  eapply only_bind; [eapply only_weaken; [apply elsewhere_worked|apply view_elsewhere]|]. intros before _.
  destruct before as [x|]; [|unfold pbind; cbn [settle Db.done]; rewrite Hn; exact I].
  eapply only_bind with (Q := fun _ => True).
  { eapply only_settle; [eapply only_weaken; [apply elsewhere_worked|apply read_value_elsewhere]|intros; exact I..]. }
  intros v _. destruct (mutate v) as [next|]; [|exact I].
  eapply only_bind; [eapply only_weaken; [apply elsewhere_worked|apply seal_elsewhere]|]. intros r _.
  eapply only_bind with (Q := fun f' => f' = f); [done|]. intros f' ->. eapply only_bind with (Q := fun _ => True).
  - apply only_fenced; [apply worked_refl|]. intros d a d' Hg Ha. unfold swap.
    destruct (sameRecord _ _) eqn:Es; intros [= <- <-]; [|apply worked_refl]. intros id'.
    destruct (decide (id' = id)) as [->|Hne]; [right|left; apply lookup_put_ne; congruence].
    split_and!; [done|done|by destruct (stores d !! (outbox, id))|]. left. unfold put_record, set_field. cbn.
    rewrite lookup_insert_eq. by eexists.
  - intros won _. destruct won; [exact I|exact IH].
Qed.

Lemma put_listed now f id e : expires now e = true ->
  only (listed now (generation f)) (putSealedIn f outbox id (expired_draft e)) (fun _ => True).
Proof.
  intros He. eapply only_bind; [eapply only_weaken; [apply elsewhere_listed|apply seal_elsewhere]|]. intros r (key & iv & ->).
  apply only_fenced; [apply listed_refl|]. intros d a d' Hg Ha [= <- <-] id'.
  destruct (decide (id' = id)) as [->|Hne]; [right|left; apply lookup_put_ne; congruence].
  split_and!; [done|done|]. exists key, iv, e. split; [|done]. unfold put_record, set_field. cbn. by rewrite lookup_insert_eq.
Qed.

Lemma delete_worked f id : accepted id -> only (worked (generation f)) (deleteKeyIn f outbox id) (fun _ => True).
Proof.
  intros Hacc. apply only_fenced; [apply worked_refl|]. intros d a d' Hg Ha [= <- <-] id'. unfold remove_record, set_field. cbn.
  destruct (decide (id' = id)) as [->|Hne]; [|left; by rewrite lookup_delete_ne by congruence].
  rewrite lookup_delete_eq. destruct (stores d !! (outbox, id)) eqn:E; [right|by left]. split_and!; [done|done|by eexists|by right].
Qed.

Lemma pending_listed now f ids out : only (listed now (generation f)) (pending_entries now (Some f) ids out) (fun _ => True).
Proof.
  revert out. induction ids as [|id ids IH]; intros out; cbn [pending_entries]; [exact I|].
  eapply only_settle with (Q := fun _ => True).
  - eapply only_weaken; [apply elsewhere_listed|]. eapply only_bind; [apply view_elsewhere|]. intros [x|] _; [|exact I].
    eapply only_bind; [apply read_value_elsewhere|intros; exact I].
  - intros [e|] _; [|apply IH]. destruct (expires now e) eqn:Ee; [|apply IH].
    eapply only_settle; [by apply put_listed|intros; apply IH..].
  - intros e. apply IH.
Qed.

(** *** The environment of the run *)

(** Sends and the connection leave the outbox alone, and the server's
    acceptance of an entry is what [accepted] records. *)
Hypothesis deliver_elsewhere : forall e text,
  only elsewhere (deliver e text) (fun o => o = Sent false -> accepted (entry_id e)).
Hypothesis open_elsewhere : only elsewhere conn_open (fun _ => True).

Lemma open_worked g : only (worked g) conn_open (fun _ => True).
Proof. eapply only_weaken; [apply elsewhere_worked|apply open_elsewhere]. Qed.

Lemma send_attempts_worked g n e text :
  only (worked g) (send_attempts deliver conn_open n e text) (fun o => o = Sent false -> accepted (entry_id e)).
Proof.
  induction n as [|n IH]; cbn [send_attempts].
  all: eapply only_bind; [eapply only_weaken; [apply elsewhere_worked|apply deliver_elsewhere]|].
  all: intros [m|err] Ho; [exact Ho|].
  - done.
  - destruct (retryAfterMS err =? 0); [done|]. eapply only_bind; [apply open_worked|]. intros [] _; [apply IH|done].
Qed.

Lemma keepQueued_worked f e : only (worked (generation f)) (keepQueued f e) (fun _ => True).
Proof. by apply update_worked. Qed.

Lemma fence_worked g : only (worked g) currentFence (fun _ => True).
Proof. eapply only_weaken; [apply elsewhere_worked|apply view_elsewhere]. Qed.

Lemma refused_worked f cur changed err s : only (worked (generation f)) (refused conn_open f cur changed err s) (fun _ => True).
Proof.
  unfold refused. destruct (bool_decide _); [exact I|]. eapply only_bind; [apply fence_worked|]. intros f' _.
  destruct (negb _); [exact I|]. destruct (adopt_original err cur) as [c adopted].
  destruct (blocked err); [eapply only_settle; [apply keepQueued_worked|intros; exact I..]|].
  destruct (retryable err); [|eapply only_settle; [apply keepQueued_worked|intros; exact I..]].
  assert (Hopen : only (worked (generation f)) (do! open := conn_open in
     if negb open || bool_decide (code err = "rate-limit"%string) || negb (retryAfterMS err =? 0)
     then Db.done (Break s) else Db.done (Continue (add_waiting c s))) (fun _ => True)).
  { eapply only_bind; [apply open_worked|]. intros open _. destruct (_ || _); exact I. }
  destruct (changed || adopted); [|exact Hopen]. eapply only_settle; [apply keepQueued_worked|intros; exact Hopen..].
Qed.

Lemma send_entry_worked f cur changed s : only (worked (generation f)) (send_entry deliver conn_open f cur changed s) (fun _ => True).
Proof.
  eapply only_settle; [apply send_attempts_worked| |intros; apply refused_worked].
  intros [[|]|err] Ho; [apply refused_worked| |apply refused_worked].
  eapply only_settle; [by apply delete_worked, Ho|intros; exact I|intros; apply refused_worked].
Qed.

Lemma flush_entry_worked f e s :
  only (worked (generation f)) (flush_entry deliver conn_open dm_ratchet groups_ratchet has_groups f e s) (fun _ => True).
Proof.
  unfold flush_entry. destruct (is_unreadable e); [exact I|]. eapply only_bind; [apply fence_worked|]. intros f' _.
  repeat (case_match; [exact I|]). intros now. destruct (held_until now e); [exact I|].
  destruct (is_ratchet _ _ _ _ && _); [|apply send_entry_worked].
  eapply only_settle; [by apply update_worked| |intros x; by case_match].
  intros [latest|] _; [|exact I]. case_match; [exact I|apply send_entry_worked].
Qed.

Lemma flush_entries_worked f es s :
  only (worked (generation f)) (flush_entries deliver conn_open dm_ratchet groups_ratchet has_groups f es s) (fun _ => True).
Proof.
  revert s. induction es as [|e es IH]; intros s; cbn [flush_entries]; [exact I|].
  eapply only_bind; [apply flush_entry_worked|]. intros [s'|s'] _; [apply IH|exact I].
Qed.

Lemma listing_listed now f : only (listed now (generation f)) (pending now (Some f)) (fun _ => True).
Proof.
  eapply only_bind; [eapply only_weaken; [apply elsewhere_listed|apply view_elsewhere]|]. intros ids _.
  eapply only_bind; [apply pending_listed|intros; exact I].
Qed.

(** C29: what one run of [flush] does to the outbox, whatever other tabs do
    meanwhile.  The run reads the identity fence, lists the entries and works
    through them.  Every entry it writes or removes, it writes or removes while
    the identity of that fence is active in the same generation: nothing is
    written back after a logout.  Listing removes nothing and stores nothing but
    drafts past their time, without their text; it does not look at what is stored
    when it writes, and may so store an expired draft again that another tab removed.
    Working through the entries changes only entries that are still queued, so that
    none is brought back which another run already sent, and removes an entry only
    when the server accepted its send. *)
Theorem flush_queue_safe env pendingRules d l r d' :
  exec env (flush deliver conn_open dm_ratchet groups_ratchet has_groups pendingRules) d l r d' ->
  (pendingRules = true /\ l = []) \/
  exists d0 now l1 rl d1 l2, l = (d0, d0) :: l1 ++ l2 /\ exec env (pending now (Some (current d0))) d0 l1 rl d1 /\
    Forall (fun t => listed now (generation (current d0)) t.1 t.2) l1 /\
    Forall (fun t => worked (generation (current d0)) t.1 t.2) l2.
Proof.
  unfold flush. destruct pendingRules; [intros (-> & _); by left|]. intros He. right.
  apply exec_bind in He as [(f & l0 & d0 & l' & (H1 & -> & [= ->])%exec_view & He & ->)|(e & (_ & _ & ?)%exec_view & _)]; [|done].
  destruct He as (now & He). exists d0, now.
  assert (Hl : forall l1 rl d1, exec env (pending now (Some (current d0))) d0 l1 rl d1 ->
    Forall (fun t => listed now (generation (current d0)) t.1 t.2) l1).
  { intros l1 rl d1. eapply only_exec. apply listing_listed. }
  apply exec_bind in He as [(es & l1 & d1 & l2 & Hp & Hw & ->)|(e & Hp & ->)].
  - exists l1, (Ok es), d1, l2. split_and!; [done|done|by eapply Hl|]. eapply only_exec; [|exact Hw]. apply flush_entries_worked.
  - exists l', (Err e), d', []. rewrite app_nil_r. split_and!; [done|done|by eapply Hl|constructor].
Qed.
End flushing.

(** ** Examples *)

Module Example.
#[export] Existing Instance Rising.transparent.
#[export] Existing Instance Rising.rising.

Definition key_ : list Z := repeat 7 32.
Definition entry (n : Z) (e : json) : record_ := Sealed (repeat n 12) (stringify e).
Definition with_entries (l : list (string * record_)) : database :=
  foldr (fun kv d => put_record outbox kv.1 kv.2 d) (empty_database <| wrapping_key := Some key_ |>) l.
Definition now : Z := 2 * OUTBOX_TTL.

Definition channel : json := JObj [("kind", JStr "channel"); ("scope", JStr "7")]%string.
Definition dm : json := JObj [("kind", JStr "dm"); ("peer", JStr "bob")]%string.
Definition draft (id : string) (target : json) (createdAt : Z) : json := new_entry id target (JStr "hello") 1 createdAt 0 0.

(** An attempt that failed terminally. *)
Definition failed_attempt : json :=
  jset "error" (JStr "refused") (jset "failed" (JBool true) (jset "committed" (JObj [("text", JStr "hello")]%string) (draft "a" dm now))).

Definition deliver (e : json) (text : option json) : prog outcome :=
  Db.done (if bool_decide (entry_id e = "a"%string) then Sent false else Refused (Refusal "forbidden" "forbidden" false false 0 None)).
Definition queue : database := with_entries [("a", entry 1 (draft "a" channel now)); ("b", entry 2 (draft "b" dm now))]%string.
End Example.
Import Example.

Lemma retry_alone : exists l d',
  alone 40 Rising.rand now (enqueue "a" dm (JStr "again") 1 0 0) (with_entries [("a", entry 1 failed_attempt)]%string)
  = Some (l, Ok (jset "replaced" (JBool false) (kept failed_attempt)), d').
Proof. apply result_of_some. vm_compute. reflexivity. Qed.

Lemma vector_length m : length (Rising.rand m) = m.
Proof. apply repeat_length. Qed.

Lemma flush_alone : exists l d',
  alone 100 Rising.rand now (flush deliver (Db.done true) true false false false) queue = Some (l, Ok (Run 1 None []), d').
Proof. apply result_of_some. vm_compute. reflexivity. Qed.

Lemma enqueue_keeps_attempt_witness : exists l d' l1 d1 d2 l2 wk v,
  exec (Rising.env outbox "a") (enqueue "a" dm (JStr "again") 1 0 0) (with_entries [("a", entry 1 failed_attempt)]%string) l
    (Ok (jset "replaced" (JBool false) (kept failed_attempt))) d' /\
  l = l1 ++ (d1, d2) :: l2 /\ valued outbox "a" wk d1 v.
Proof.
  destruct retry_alone as (l & d' & E). exists l, d'.
  assert (He : exec (Rising.env outbox "a") (enqueue "a" dm (JStr "again") 1 0 0) (with_entries [("a", entry 1 failed_attempt)]%string) l
    (Ok (jset "replaced" (JBool false) (kept failed_attempt))) d').
  { apply (alone_exec (Rising.env outbox "a") 40 Rising.rand now); [exact vector_length|exact E]. }
  destruct (enqueue_keeps_attempt "a" (Rising.env outbox "a") dm (JStr "again") 1 0 0 _ l _ d' eq_refl He)
    as (c & l1 & d1 & d2 & l2 & wk & v & H1 & _ & _ & H2 & _).
  exists l1, d1, d2, l2, wk, v. exact (conj He (conj H1 H2)).
Defined.

Lemma deliver_accepts e text : only elsewhere (deliver e text) (fun o => o = Sent false -> entry_id e = "a"%string).
Proof. unfold deliver, Db.done. cbn [only]. case_bool_decide; by intros [=]. Qed.

Lemma flush_queue_safe_witness : exists l d' d0 l1 l2,
  exec eq (flush deliver (Db.done true) true false false false) queue l (Ok (Run 1 None [])) d' /\
  l = (d0, d0) :: l1 ++ l2 /\ Forall (fun t => worked (fun id => id = "a"%string) (generation (current d0)) t.1 t.2) l2.
Proof.
  destruct flush_alone as (l & d' & E). exists l, d'.
  assert (He : exec eq (flush deliver (Db.done true) true false false false) queue l (Ok (Run 1 None [])) d').
  { apply (alone_exec eq 100 Rising.rand now); [exact vector_length|exact E]. }
  destruct (flush_queue_safe deliver (Db.done true) true false false (fun id => id = "a"%string) deliver_accepts I
    eq false queue l _ d' He) as [[? _]|(d0 & t & l1 & rl & d1 & l2 & Hl & _ & _ & Hw)]; [discriminate|].
  exists d0, l1, l2. exact (conj He (conj Hl Hw)).
Defined.

(** ** The expiry is not a compare-and-swap *)

Module Expiry.
(** A draft past its time; the user retries it while another tab lists the outbox. *)
Definition old : database := with_entries [("a", entry 1 (draft "a" channel 0))]%string.
Definition renewed : database :=
  match alone 40 Rising.rand now (enqueue "a" channel (JStr "again") 1 0 0) old with Some (_, _, d) => d | None => old end.
(** The retry falls between the listing's reads and its write. *)
Definition others (n : nat) (d : database) : database := if (n =? 33)%nat then renewed else d.
Definition overwritten : database := put_record outbox "a" (entry 9 (expired_draft (draft "a" channel 0))) renewed.
End Expiry.
Import Expiry.

Definition stored_text (id : string) (d : database) : option (option json * bool) :=
  match stores d !! (outbox, id) with
  | Some r => match parse (sealed r) with Some e => Some (field "text" e, is_expired e) | None => None end
  | None => None
  end.

Lemma retry_renews : exists l, alone 40 Rising.rand now (enqueue "a" channel (JStr "again") 1 0 0) old
  = Some (l, Ok (new_entry "a" channel (JStr "again") 1 now 0 0), renewed).
Proof.
  destruct (result_of_some (alone 40 Rising.rand now (enqueue "a" channel (JStr "again") 1 0 0) old)
    (Ok (new_entry "a" channel (JStr "again") 1 now 0 0))) as (l & d' & E); [vm_compute; reflexivity|].
  exists l. unfold renewed. by rewrite E.
Qed.

Lemma listing_overwrites : among others 40 Rising.rand now (pending now None) old
  = Some (repeat (old, old) 5 ++ [(renewed, overwritten)], Ok [expired_draft (draft "a" channel 0)], overwritten).
Proof. vm_compute. reflexivity. Qed.

(** Another tab removes the old draft between the listing's reads and its write. *)
Definition removed : database := match alone 40 Rising.rand now (remove "a") old with Some (_, _, d) => d | None => old end.
Definition removing (n : nat) (d : database) : database := if (n =? 33)%nat then removed else d.

Lemma removed_alone : exists l r, alone 40 Rising.rand now (remove "a") old = Some (l, r, removed).
Proof.
  destruct (result_of_some (alone 40 Rising.rand now (remove "a") old) (Ok tt)) as (l & d' & E); [vm_compute; reflexivity|].
  exists l, (Ok tt). unfold removed. by rewrite E.
Qed.

(** The listing stores the draft that was removed: it is there again, expired. *)
Theorem expiry_restores_removed : exists l r l2 r2 d2,
  exec eq (remove "a") old l r removed /\ stored_text "a" removed = None /\
  exec (fun d d' => d' = d \/ d' = removed) (pending now None) old l2 r2 d2 /\ stored_text "a" d2 = Some (Some (JStr ""), true).
Proof.
  destruct removed_alone as (l & r & E).
  assert (E2 : among removing 40 Rising.rand now (pending now None) old =
    Some (repeat (old, old) 5 ++ [(removed, put_record outbox "a" (entry 9 (expired_draft (draft "a" channel 0))) removed)],
          Ok [expired_draft (draft "a" channel 0)], put_record outbox "a" (entry 9 (expired_draft (draft "a" channel 0))) removed)) by (vm_compute; reflexivity).
  eexists l, r, _, _, _. split_and!.
  - exact (alone_exec eq 40 Rising.rand now _ _ _ _ _ vector_length E).
  - vm_compute. reflexivity.
  - refine (among_exec _ removing 40 Rising.rand now _ _ _ _ _ _ vector_length E2). intros n d. unfold removing.
    destruct (n =? 33)%nat; [by right|by left].
  - vm_compute. reflexivity.
Qed.

(** C39: the expiry of a draft is not decided on the entry it replaces: when a user
    retries an old message ([enqueue] stores the new text and returns it) between
    the reads and the write of a listing by another tab, the listing stores the
    expired entry over the new one, and the retried message is lost unsent. *)
Theorem expiry_overwrites_retry : exists l,
  exec eq (enqueue "a" channel (JStr "again") 1 0 0) old l (Ok (new_entry "a" channel (JStr "again") 1 now 0 0)) renewed /\
  stored_text "a" renewed = Some (Some (JStr "again"), false) /\
  exec (fun d d' => d' = d \/ d' = renewed) (pending now None) old
    (repeat (old, old) 5 ++ [(renewed, overwritten)]) (Ok [expired_draft (draft "a" channel 0)]) overwritten /\
  stored_text "a" overwritten = Some (Some (JStr ""), true).
Proof.
  destruct retry_renews as (l & E). exists l. split_and!.
  - apply (alone_exec eq 40 Rising.rand now); [exact vector_length|exact E].
  - vm_compute. reflexivity.
  - apply (among_exec _ others 40 Rising.rand now); [|exact vector_length|exact listing_overwrites].
    intros n d. unfold others. destruct (n =? 33)%nat; [by right|by left].
  - vm_compute. reflexivity.
Qed.
