(* ===== verification/RatchetStore.v ===== *)
(** * The durable ratchet store ([ratchet-store.js])

    Olm sessions, trust decisions, the send attempts, the receive archive,
    published one-time keys and account transitions of one device, in one
    namespace of the database.  Every operation works on a snapshot of the
    records it needs and ends in one commit that is a compare-and-swap over the
    whole snapshot; a control record keeps the quotas, the account authority
    and the attempt counter.

    Records are JSON text under authenticated encryption, so a record that
    decrypts was written by this store: [json] below parses without repeating
    the decoder's UTF-8 check.  The control record is decoded into [control];
    text that is no control record fails with "corrupt".  The operations are
    [prog]rams of [Db]: each of their steps is one transaction. *)

From stdpp Require Import base gmap list strings sorting.
From Stdlib Require Import ZArith Lia.
From S2P Require Import Prelude Json Text OlmAdmission OlmReset Db.

Definition DEVICE_PAIR_SCOPE : string := "device-pair".
Definition sessionRef (coreSessionID : string) : string := "olm:" +:+ coreSessionID.

Module Limits.
Definition fanout : Z := 160.
Definition reads : Z := 512.
Definition record : Z := Z.shiftl 2 20.
Definition outbox : Z := Z.shiftl 24 20.
Definition batch : Z := Z.shiftl 32 20.
Definition bytes : Z := Z.shiftl 128 20.
Definition records : Z := 100000.
Definition otks : Z := 100.
End Limits.

Definition kinds : list string :=
  ["account"; "session"; "trust"; "outbox"; "inbox"; "publication"; "claim"; "obligation"; "logical"; "transition"]%string.
Definition ctl : ref := ("control", "identity")%string.

(** Lengths of byte strings and lists, as numbers. *)
Definition len {A} (l : list A) : Z := Z.of_nat (length l).

Definition bytes (x : json) : list Z := stringify x.
Definition json_ (data : list Z) : result string json :=
  match parse data with Some v => Ok v | None => Err "corrupt"%string end.

Definition validID (v : option json) : bool :=
  match v with
  | Some (JStr x) => (0 <? utf8_length x) && (utf8_length x <=? 512) && negb (has_class (fun c => is_Cc c || is_Cf c) x)
  | _ => false
  end.
Definition valid_id (x : string) : bool := validID (Some (JStr x)).
Definition validRef (r : ref) : bool := bool_decide (r.1 ∈ kinds) && valid_id r.2.

Definition validateRefs (refs : list ref) : result string unit :=
  guard! len refs <=? Limits.reads else "exhausted"%string in
  guard! forallb validRef refs else "invalid"%string in Ok tt.

Definition version (n : Z) : result string Z :=
  if is_safe_integer n && (1 <=? n) then Ok n else Err "corrupt"%string.

(** ** The control record *)

Record retired_ := Retired { r_epoch : Z; through : Z; above : list Z }.

Record control := Control {
  coreKey_ : list Z;
  count_ : Z;
  bytes_ : Z;
  obligations : Z;
  accountID : string;
  accountEpoch : Z;
  sendingBlocked : bool;
  nextAttempt : Z;
  retired : option retired_
}.
#[global] Instance eta_control : Eta control := fun c =>
  Control (coreKey_ c) (count_ c) (bytes_ c) (obligations c) (accountID c) (accountEpoch c) (sendingBlocked c)
    (nextAttempt c) (retired c).

Definition control_json (c : control) : json :=
  JObj ([("coreKey", json_of_bytes (coreKey_ c)); ("count", JNum (count_ c)); ("bytes", JNum (bytes_ c));
         ("obligations", JNum (obligations c)); ("accountID", JStr (accountID c));
         ("accountEpoch", JNum (accountEpoch c)); ("sendingBlocked", JBool (sendingBlocked c));
         ("nextAttempt", JNum (nextAttempt c))]%string ++
        match retired c with
        | Some r => [("retired", JObj [("epoch", JNum (r_epoch r)); ("through", JNum (through r));
                                       ("above", json_of_bytes (above r))])]%string
        | None => []
        end).

Definition retired_of (v : option json) : option retired_ :=
  match v with
  | Some r => match field "epoch" r, field "through" r with
              | Some (JNum e), Some (JNum t) => Some (Retired e t (bytes_of_json (field "above" r)))
              | _, _ => None
              end
  | None => None
  end.

Definition control_of (v : json) : option control :=
  match field "count" v, field "bytes" v, field "obligations" v, field "accountID" v, field "accountEpoch" v,
        field "sendingBlocked" v, field "nextAttempt" v with
  | Some (JNum n), Some (JNum b), Some (JNum o), Some (JStr a), Some (JNum e), Some (JBool s), Some (JNum x) =>
    Some (Control (bytes_of_json (field "coreKey" v)) n b o a e s x (retired_of (field "retired" v)))
  | _, _, _, _, _, _, _ => None
  end.

(** The updates passed to [#commit] as [authorityUpdate]. *)
Inductive authority_update :=
| SetNextAttempt (n : Z)
| SetRetired (r : retired_)
| SetBlocked (b : bool)
| Promote (id : string) (epoch : Z).

Definition apply_update (u : authority_update) (c : control) : control :=
  match u with
  | SetNextAttempt n => c <| nextAttempt := n |>
  | SetRetired r => c <| retired := Some r |>
  | SetBlocked b => c <| sendingBlocked := b |>
  | Promote id e => c <| accountID := id |> <| accountEpoch := e |> <| nextAttempt := 0 |> <| sendingBlocked := false |>
  end.

(** ** Snapshots *)

Record rec := Rec { revision : Z; data : list Z }.
Definition absent : rec := Rec 0 [].
Definition exists_ (r : rec) : bool := negb (revision r =? 0).

(** The records of a snapshot in the order they were read, and the namespace's
    three names ([JSON.parse(this.namespace)]). *)
Record names := Names { n_server : string; n_principal : string; n_device : string }.
#[global] Instance names_eq_dec : EqDecision names.
Proof. solve_decision. Defined.

Record snapshot := Snapshot { s_names : names; s_fence : fence; s_records : list (ref * rec) }.

Definition namespace (n : names) : string :=
  text (stringify (JArr [JStr (n_server n); JStr (n_principal n); JStr (n_device n)])).

Definition aad (n : names) (r : ref) (rev : Z) : list Z :=
  bytes (JArr [JStr "noxa-local-ratchet-v1"; JStr (namespace n); JStr r.1; JStr r.2; JNum rev]).

Definition valid_names (n : names) : bool := valid_id (n_server n) && valid_id (n_principal n) && valid_id (n_device n).

Section store.
Context `{Cipher}.
Variable sha256 : list Z -> list Z.
Variable cv : curves.
(** The store's namespace. *)
Variable ns : names.

Definition records_of (d : database) : gmap ref raw_record := default ∅ (ratchet d !! namespace ns).

Definition put_all (l : list (ref * raw_record)) (d : database) : database :=
  d <| ratchet := <[namespace ns := foldl (fun m kv => <[kv.1 := kv.2]> m) (records_of d) l]> (ratchet d) |>.

Definition decode (r : ref) (raw : option raw_record) : prog rec :=
  match raw with
  | None => done absent
  | Some raw =>
    pure! rev := version (raw_revision raw) in
    settle (unseal (raw_sealed raw) (aad ns r rev)) (fun plain =>
      match plain with Ok p => done (Rec rev p) | Err _ => throw "corrupt"%string end)
  end.

Definition encode (r : ref) (rev : Z) (plain : list Z) : prog raw_record :=
  pure! rev := version rev in
  do! s := seal plain (aad ns r rev) in
  done (Raw s rev).

(** One read-only transaction: the fence, the initialization marker, the records. *)
Definition raw_ (refs : list ref) : prog (fence * option Z * list (ref * option raw_record)) :=
  view (fun d => (current d, markers d !! namespace ns, map (fun r => (r, records_of d !! r)) refs)).

(** ** [initialize] *)

Definition initial_control (key : list Z) : control := Control key 0 0 0 "local" 1 false 0 None.

Definition init_tx (gen : Z) (candidate : raw_record) (d : database) : database :=
  match records_of d !! ctl with
  | Some _ => d
  | None => (put_all [(ctl, candidate)] d) <| markers := <[namespace ns := gen]> (markers d) |>
  end.

Definition control_usable (v : json) : bool :=
  (len (bytes_of_json (field "coreKey" v)) =? 32) && isSafeInteger (field "count" v) && (0 <=? num_or 0 (field "count" v)) &&
  isSafeInteger (field "bytes" v) && (0 <=? num_or 0 (field "bytes" v)).

Definition initialize : prog unit :=
  do! (f, mark, before) := raw_ [ctl] in
  check! active f else "fenced"%string in
  match before with
  | (_, Some raw) :: _ =>
    do! r := decode ctl (Some raw) in
    pure! v := json_ (data r) in
    check! control_usable v else "corrupt"%string in done tt
  | _ =>
    check! negb (bool_decide (mark = Some (generation f))) else "corrupt"%string in
    do! n := view (fun d => size (records_of d)) in
    if (n =? 0)%nat then
      Random 32 (fun key =>
      do! candidate := encode ctl 1 (bytes (control_json (initial_control key))) in
      fencedWrite f false (fun _ d => Ok (tt, init_tx (generation f) candidate d)))
    else
      do! (_, _, latest) := raw_ [ctl] in
      match latest with
      | (_, Some raw) :: _ => do! _ := decode ctl (Some raw) in done tt
      | _ => throw "corrupt"%string
      end
  end.

Definition openRatchetStore : prog unit :=
  check! valid_names ns else "invalid"%string in initialize.

(** ** Reading *)

(** The records in order, each decoded; their total size is bounded. *)
Fixpoint decode_all (acc : list (ref * rec)) (total : Z) (l : list (ref * option raw_record)) : prog (list (ref * rec)) :=
  match l with
  | [] => done acc
  | (r, raw) :: l' =>
    do! v := decode r raw in
    if Limits.batch <? total + len (data v) then throw "exhausted"%string
    else decode_all (OMap.set r v acc) (total + len (data v)) l'
  end.

Definition get_rec (r : ref) (s : snapshot) : option rec := OMap.get r (s_records s).
Definition rec_of (r : ref) (s : snapshot) : rec := default absent (get_rec r s).

Definition read (refs : list ref) : prog snapshot :=
  pure! _ := validateRefs refs in
  do! (f, _, raws) := raw_ (ctl :: refs) in
  check! active f else "fenced"%string in
  do! records := decode_all [] 0 raws in
  check! exists_ (default absent (OMap.get ctl records)) else "corrupt"%string in
  done (Snapshot ns f records).

Definition validate (s : snapshot) : result string unit :=
  guard! bool_decide (s_names s = ns) && OMap.has ctl (s_records s) else "invalid"%string in
  guard! OMap.size (s_records s) <=? Limits.reads + 1 else "exhausted"%string in Ok tt.

Definition require (s : snapshot) (r : ref) : result string rec :=
  match get_rec r s with Some v => Ok v | None => Err "invalid"%string end.

Definition control_in (s : snapshot) : result string control :=
  let! r := require s ctl in
  let! v := json_ (data r) in
  match control_of v with Some c => Ok c | None => Err "corrupt"%string end.

Definition coreKey (s : snapshot) : result string (list Z) :=
  let! _ := validate s in
  let! c := control_in s in
  guard! len (coreKey_ c) =? 32 else "corrupt"%string in Ok (coreKey_ c).

(** The revision of a trust record that is set and not revoked. *)
Definition trust (s : snapshot) (id : string) : result string Z :=
  let! r := require s ("trust", id)%string in
  guard! exists_ r else "invalid"%string in
  let! t := json_ (data r) in
  guard! negb (truthy (field "revoked" t)) else "revoked"%string in Ok (revision r).

(** ** [#commit] *)

Definition open_obligation (o : json) : bool := negb (truthy (field "consumed" o)) && negb (truthy (field "closed" o)).

(** The change of the open-obligation counter by one written record. *)
Definition obligation_delta (r : ref) (old : rec) (plain : list Z) : result string Z :=
  if bool_decide (r.1 = "obligation"%string) then
    let! before := if exists_ old then let! b := json_ (data old) in Ok (Some b) else Ok None in
    let! after := json_ plain in
    Ok match before with
       | None => if open_obligation after then 1 else 0
       | Some b => if open_obligation b && negb (open_obligation after) then -1 else 0
       end
  else Ok 0.

Definition record_limit (r : ref) : Z := if bool_decide (r.1 = "outbox"%string) then Limits.outbox else Limits.record.

(** The quotas after all changes, and the size of the batch. *)
Fixpoint account_changes (s : snapshot) (c : control) (total : Z) (changes : list (ref * list Z))
    : result string (control * Z) :=
  match changes with
  | [] => Ok (c, total)
  | (r, plain) :: rest =>
    guard! validRef r && (0 <? len plain) else "invalid"%string in
    guard! len plain <=? record_limit r else "exhausted"%string in
    let! old := require s r in
    let! delta := obligation_delta r old plain in
    account_changes s
      (c <| count_ := count_ c + (if exists_ old then 0 else 1) |>
         <| bytes_ := bytes_ c + (len plain - len (data old)) |>
         <| obligations := obligations c + delta |>)
      (total + len plain) rest
  end.

Fixpoint encode_all (s : snapshot) (l : list (ref * list Z)) : prog (list (ref * raw_record)) :=
  match l with
  | [] => done []
  | (r, plain) :: l' =>
    pure! old := require s r in
    do! raw := encode r (revision old + 1) plain in
    do! rest := encode_all s l' in
    done ((r, raw) :: rest)
  end.

Definition revision_in (d : database) (r : ref) : Z :=
  match records_of d !! r with Some raw => raw_revision raw | None => 0 end.

(** The commit transaction: the fence, then every record of the snapshot. *)
Definition commit_tx (s : snapshot) (prepared : list (ref * raw_record)) (d : database) : result string unit * database :=
  if negb (active (current d)) || negb (generation (current d) =? generation (s_fence s)) then (Err "fenced"%string, d)
  else if forallb (fun kv => revision_in d kv.1 =? revision kv.2) (s_records s) then (Ok tt, put_all prepared d)
  else (Err "conflict"%string, d).

Definition commit (s : snapshot) (changes : list (ref * list Z)) (u : option authority_update) : prog unit :=
  pure! _ := validate s in
  pure! c0 := control_in s in
  let c1 := match u with Some u => apply_update u c0 | None => c0 end in
  pure! (c, total) := account_changes s c1 0 changes in
  check! (total <=? Limits.batch) && (count_ c <=? Limits.records) && (bytes_ c <=? Limits.bytes) &&
         (obligations c <=? Limits.otks) else "exhausted"%string in
  let writes := if match changes, u with [], None => true | _, _ => false end then []
                else changes ++ [(ctl, bytes (control_json c))] in
  do! prepared := encode_all s writes in
  transact (commit_tx s prepared).

(** ** Snapshots that grow *)

Definition extended (s : snapshot) (refs : list ref) : prog snapshot :=
  pure! _ := validate s in
  let unique := OMap.keys (foldl (fun m r => if OMap.has r m then m else OMap.set r tt m) []
    (filter (fun r : ref => r.1 <> "control"%string) (OMap.keys (s_records s)) ++ refs)) in
  do! fresh := read unique in
  check! generation (s_fence fresh) =? generation (s_fence s) else "fenced"%string in
  done fresh.

Definition is_conflict (e : string) : bool := bool_decide (e = "conflict"%string).

(** [attempt >= 16] ends the loop: 17 rounds. *)
Fixpoint validated_rounds (rounds : nat) (s : snapshot) (refs : list ref) : prog snapshot :=
  do! fresh := extended s refs in
  settle (commit fresh [] None) (fun r =>
    match r with
    | Ok _ => done fresh
    | Err e => match rounds with
               | S left_ => if is_conflict e then validated_rounds left_ s refs else throw e
               | O => throw e
               end
    end).
Definition validated (s : snapshot) (refs : list ref) : prog snapshot := validated_rounds 16 s refs.

Definition compare (s fresh : snapshot) : result string unit :=
  guard! forallb (fun kv => match get_rec kv.1 fresh with
                            | Some v => revision v =? revision kv.2
                            | None => false
                            end) (s_records s) else "conflict"%string in Ok tt.

(** ** Sessions *)

Definition stored (r : rec) : result string (option json) :=
  if exists_ r then let! v := json_ (data r) in Ok (Some v) else Ok None.

Definition field_of (k : string) (v : option json) : option json := match v with Some j => field k j | None => None end.

Definition context_ok (ctx : json) : bool :=
  forallb (fun k => validID (field k ctx)) ["peer_principal"; "peer_device"; "peer_identity"]%string &&
  is_text (field "scope" ctx) DEVICE_PAIR_SCOPE && negb (bool_decide (is_Some (field "conversation" ctx))) &&
  is_text (field "protocol" ctx) "noxa-olm-v1" && validID (field "local_account_id" ctx) &&
  safe_positive (field "local_epoch" ctx) && safe_positive (field "peer_epoch" ctx).

Definition claim_ok (claim : json) : bool := validID (field "claim_id" claim) && safe_positive (field "claim_until" claim).
Definition claim_value (claim : json) : json :=
  obj [("claim_id", field "claim_id" claim); ("claim_until", field "claim_until" claim)]%string.

(** A value passed as [x || null]. *)
Definition present (v : option json) : option json := if truthy v then v else None.

Definition same_text (a b : option json) : bool := bool_decide (stringify <$> a = stringify <$> b).

(** The pending claim a session keeps: of an existing session only its own, and
    none after a receive; of a new one the reserved claim. *)
Definition next_pending (previous : option json) (receiving : bool) (claim : option json) : result string (option json) :=
  match previous with
  | None => Ok (claim_value <$> claim)
  | Some p =>
    let old := present (field "pending" p) in
    guard! receiving || negb (bool_decide (is_Some old)) || bool_decide (is_Some claim) else "conflict"%string in
    guard! match claim, old with
           | Some c, Some o => equalJSON o (claim_value c)
           | Some _, None => false
           | None, _ => true
           end else "conflict"%string in
    Ok (if receiving then None else old)
  end.

Definition sessionValue (now : Z) (s : snapshot) (r : ref) (state : list Z) (context : option json) (receiving : bool)
    (claim : option json) : result string (list Z) :=
  guard! match claim with Some c => negb receiving && claim_ok c | None => true end && (0 <? len state) &&
         match context with Some ctx => truthy (Some ctx) && context_ok ctx | None => false end else "invalid"%string in
  let! old := require s r in
  let! previous := stored old in
  guard! negb (truthy (field_of "retired" previous)) || receiving else "conflict"%string in
  guard! match previous with Some p => same_text (field "context" p) context | None => true end else "conflict"%string in
  let! pending := next_pending previous receiving claim in
  Ok (bytes (obj [("snapshot", Some (json_of_bytes state)); ("context", context);
                  ("created_at", Some (default (JNum now) (present (field_of "created_at" previous))));
                  ("retired", Some (default (JBool false) (present (field_of "retired" previous))));
                  ("pending", pending)]%string)).

Definition setTrust (s : snapshot) (id : string) (value : json) (revoked : bool) : prog unit :=
  let r := ("trust", id)%string in
  pure! old := require s r in
  pure! previous := stored old in
  check! negb (truthy (field_of "revoked" previous)) || revoked else "revoked"%string in
  commit s [(r, bytes (JObj [("value", value); ("revoked", JBool revoked)]%string))] None.

(** ** Sending *)

Record packet := Packet {
  sessionID : string; trustID : string; envelope : list Z; state : list Z;
  context : option json; claim : option json; replaces : option string
}.
Record attempt := Attempt { manifest : json; parts : list string }.

Definition attempt_json (a : attempt) : json :=
  JObj [("manifest", manifest a); ("parts", JArr (map JStr (parts a)))]%string.

(** The account may send: it is not blocked, and attempt and packets name its
    identity and epoch.  Works on fresh packets and on stored ones. *)
Definition sendAuthority (s : snapshot) (contexts : list (option json)) (att : option json) : result string control :=
  let! c := control_in s in
  guard! negb (sendingBlocked c) && negb (bool_decide (accountID c = ""%string)) && is_safe_integer (accountEpoch c) &&
         (1 <=? accountEpoch c) &&
         match att with
         | Some a => bool_decide (field_of "account_epoch" (field "manifest" a) = Some (JNum (accountEpoch c)))
         | None => true
         end else "fenced"%string in
  guard! forallb (fun ctx => is_text (field_of "local_account_id" ctx) (accountID c) &&
                             bool_decide (field_of "local_epoch" ctx = Some (JNum (accountEpoch c)))) contexts
    else "fenced"%string in
  Ok c.

Fixpoint decode_parts (l : list string) : result string (list (list Z)) :=
  match l with
  | [] => Ok []
  | p :: l' => match atob p with
               | Some b => let! rest := decode_parts l' in Ok (b :: rest)
               | None => Err "InvalidCharacterError"%string
               end
  end.

(** One packet against the copies of the frozen attempt. *)
Definition packet_matches (m : json) (copies : list json) (seen : list string) (p : packet) : option string :=
  match context p with
  | None => None
  | Some ctx =>
    match List.find (fun c => strict_eq (field "device" c) (field "peer_device" ctx)) copies with
    | None => None
    | Some c =>
      let device := str_of (field "device" c) in
      match List.find (fun t => strict_eq (field "device" t) (field "device" c)) (items (field "targets" m)), field "envelope" c with
      | Some target, Some e =>
        if negb (bool_decide (device ∈ seen)) && strict_eq (field "principal" c) (field "peer_principal" ctx) &&
           strict_eq (field "account_epoch" c) (field "peer_epoch" ctx) &&
           bool_decide (toBase64 (jsonBytes e) = toBase64 (envelope p)) && checkEnvelope m c &&
           strict_eq (field "peer_identity" ctx) (field "identity" target) &&
           is_text (field "scope" ctx) DEVICE_PAIR_SCOPE &&
           bool_decide (sessionID p = sessionRef (String_of (field "session_id" c))) &&
           strict_eq (field_or "claim_id" (JStr "") c)
             (match claim p with Some cl => field_or "claim_id" (JStr "") cl | None => Some (JStr "") end)
        then Some device else None
      | _, _ => None
      end
    end
  end.

Fixpoint packets_match (m : json) (copies : list json) (seen : list string) (l : list packet) : bool :=
  match l with
  | [] => true
  | p :: l' => match packet_matches m copies seen p with
               | Some device => packets_match m copies (device :: seen) l'
               | None => false
               end
  end.

Definition validateAttempt (a : attempt) (packets : list packet) : result string unit :=
  let m := manifest a in
  let! ps := decode_parts (parts a) in
  let! copies := openAttempt sha256 m ps in
  guard! is_text (field "server" m) (n_server ns) && is_text (field "sender" m) (n_principal ns) &&
         is_text (field "device" m) (n_device ns) && (len copies =? len packets) else "invalid"%string in
  guard! packets_match m copies [] packets else "invalid"%string in Ok tt.

(** The stored packets of a send. *)
Definition saved_packet (p : packet) (trustRevision : Z) : json :=
  obj [("sessionID", Some (JStr (sessionID p))); ("trustID", Some (JStr (trustID p)));
       ("trustRevision", Some (JNum trustRevision)); ("envelope", Some (JStr (toBase64 (envelope p))));
       ("context", context p)]%string.

Definition nonempty_text (s : option string) : option string :=
  match s with Some ""%string => None | _ => s end.

(** The session writes of one packet, added to the changes. *)
Definition stage_packet (now : Z) (s : snapshot) (attempted : bool) (changes : list (ref * list Z)) (p : packet)
    : result string (list (ref * list Z) * json) :=
  let r := ("session", sessionID p)%string in
  let! old := require s r in
  guard! negb (OMap.has r changes) && (0 <? len (envelope p)) else "invalid"%string in
  guard! negb (attempted && negb (exists_ old) && bool_decide (present (claim p) = None)) else "invalid"%string in
  let! rev := trust s (trustID p) in
  let! value := sessionValue now s r (state p) (context p) false (present (claim p)) in
  let changes1 := OMap.set r value changes in
  match nonempty_text (replaces p) with
  | None => Ok (changes1, saved_packet p rev)
  | Some old_id =>
    let or := ("session", old_id)%string in
    let! replaced := require s or in
    guard! exists_ replaced && negb (exists_ old) && negb (bool_decide (old_id = sessionID p)) &&
           negb (OMap.has or changes1) else "invalid"%string in
    let! previous := json_ (data replaced) in
    guard! negb (truthy (field "retired" previous)) && same_text (field "context" previous) (context p)
      else "conflict"%string in
    Ok (OMap.set or (bytes (jset "retired" (JBool true) previous)) changes1, saved_packet p rev)
  end.

Fixpoint stage_packets (now : Z) (s : snapshot) (attempted : bool) (changes : list (ref * list Z)) (l : list packet)
    : result string (list (ref * list Z) * list json) :=
  match l with
  | [] => Ok (changes, [])
  | p :: l' =>
    let! (changes1, saved) := stage_packet now s attempted changes p in
    let! (changes2, rest) := stage_packets now s attempted changes1 l' in
    Ok (changes2, saved :: rest)
  end.

(** The logical record and the attempt counter of a new attempt. *)
Definition stage_attempt (s : snapshot) (id : string) (a : attempt)
    : result string (list (ref * list Z) * authority_update) :=
  let! c := control_in s in
  let! seq := attemptSequence (field "attempt_id" (manifest a)) in
  guard! seq =? nextAttempt c + 1 else "conflict"%string in
  let lr := ("logical", str_of (field "logical_id" (manifest a)))%string in
  let! old := require s lr in
  let! previous := stored old in
  guard! match previous with
         | Some l => is_text (field "state" l) "rejected" || is_text (field "state" l) "aborted"
         | None => true
         end else "conflict"%string in
  Ok ([(lr, bytes (JObj [("attemptID", JStr id); ("state", JStr "pending")]%string))], SetNextAttempt seq).

(** The packets of a stored send still have the trust they were sent under. *)
Definition trust_unchanged (s : snapshot) (packets : list json) : result string unit :=
  foldr (fun p rest =>
    let! rev := trust s (str_of (field "trustID" p)) in
    guard! bool_decide (field "trustRevision" p = Some (JNum rev)) else "conflict"%string in rest) (Ok tt) packets.

Definition stored_contexts (b : json) : list (option json) := map (field "context") (items (field "packets" b)).

Definition optional_attempt (a : option attempt) : list ref :=
  match a with Some a => [("logical", str_of (field "logical_id" (manifest a)))%string] | None => [] end.

Definition same_attempt (a : option attempt) (b : json) : bool :=
  match a, present (field "attempt" b) with
  | None, None => true
  | Some a, Some saved =>
    match field "manifest" saved, field "parts" saved with
    | Some m, Some ps => equalJSON m (manifest a) && equalJSON ps (JArr (map JStr (parts a)))
    | _, _ => false
    end
  | _, _ => false
  end.

Definition send_sizes_ok (packets : list packet) (archive : list Z) : bool :=
  (len archive <=? Limits.record) &&
  forallb (fun p => (len (envelope p) <=? Limits.record) && (len (state p) <=? Limits.record)) packets.

Definition commitSend (s : snapshot) (id : string) (packets : list packet) (archive : list Z) (a : option attempt)
    : prog (list Z * bool) :=
  pure! _ := match a with Some a => validateAttempt a packets | None => Ok tt end in
  check! valid_id id && (negb (len packets =? 0) || bool_decide (is_Some a)) && (0 <? len archive) else "invalid"%string in
  check! len packets <=? Limits.fanout else "exhausted"%string in
  check! send_sizes_ok packets archive else "exhausted"%string in
  let r := ("outbox", id)%string in
  do! fresh := extended s (r :: optional_attempt a) in
  pure! old := require fresh r in
  if exists_ old then
    pure! b := json_ (data old) in
    check! same_attempt a b else "conflict"%string in
    pure! _ := sendAuthority fresh (stored_contexts b) (present (field "attempt" b)) in
    pure! _ := trust_unchanged fresh (items (field "packets" b)) in
    do! _ := commit fresh [] None in
    done (data old, true)
  else
    pure! _ := compare s fresh in
    pure! _ := sendAuthority fresh (map context packets) (attempt_json <$> a) in
    pure! (changes0, u) := match a with
                           | Some a => let! (ch, u) := stage_attempt fresh id a in Ok (ch, Some u)
                           | None => Ok ([], None)
                           end in
    Clock (fun now =>
    pure! (changes, saved) := stage_packets now s (bool_decide (is_Some a)) changes0 packets in
    let value := bytes (obj [("status", Some (JStr "pending")); ("packets", Some (JArr saved));
                             ("archive", Some (json_of_bytes archive)); ("attempt", attempt_json <$> a)]%string) in
    do! _ := commit fresh (OMap.set r value changes) u in
    done (value, false)).

(** [manifest.account_epoch + ":" + manifest.attempt_id]. *)
Definition attempt_key (m : json) : string :=
  String_of (field "account_epoch" m) +:+ ":" +:+ String_of (field "attempt_id" m).

Definition commitAttempt (s : snapshot) (m : json) (ps : list (list Z)) (packets : list packet) (archive : list Z) :=
  commitSend s (attempt_key m) packets archive (Some (Attempt m (map toBase64 ps))).

Definition ack (s : snapshot) (id : string) : prog unit :=
  let r := ("outbox", id)%string in
  pure! old := require s r in
  check! exists_ old else "invalid"%string in
  pure! b := json_ (data old) in
  check! negb (truthy (field "attempt" b)) else "invalid"%string in
  if is_text (field "status" b) "sent" then commit s [] None
  else commit s [(r, bytes (jset "status" (JStr "sent") b))] None.

(** A committed send, re-validated for a retry: 17 rounds at most. *)
Fixpoint retry_rounds (rounds : nat) (s : snapshot) (id : string) : prog (list Z) :=
  let r := ("outbox", id)%string in
  let again checked := match rounds with
                       | S left_ => retry_rounds left_ checked id
                       | O => throw "local_conflict"%string
                       end in
  do! fresh := extended s [r] in
  pure! old := require fresh r in
  check! exists_ old else "invalid"%string in
  pure! saved := json_ (data old) in
  let ps := items (field "packets" saved) in
  do! checked := extended fresh (map (fun p => ("trust", str_of (field "trustID" p))%string) ps) in
  if is_ok (compare fresh checked) then
    pure! _ := sendAuthority checked (stored_contexts saved) (present (field "attempt" saved)) in
    check! negb (truthy (field "attempt" saved) && negb (is_text (field "status" saved) "pending")) else "conflict"%string in
    pure! _ := trust_unchanged checked ps in
    settle (commit checked [] None) (fun w =>
      match w with
      | Ok _ => done (data old)
      | Err e => if is_conflict e then again checked else throw e
      end)
  else again checked.
Definition retrySend (s : snapshot) (id : string) : prog (list Z) := retry_rounds 16 s id.

Definition attemptWire (s : snapshot) (id : string) : prog (json * list (list Z)) :=
  do! saved := retrySend s id in
  pure! b := json_ saved in
  check! truthy (field "attempt" b) && is_text (field "status" b) "pending" else "invalid"%string in
  pure! ps := decode_parts (map (fun p => str_of (Some p)) (items (field_of "parts" (field "attempt" b)))) in
  done (default JNull (field_of "manifest" (field "attempt" b)), ps).

(** ** Receiving *)

Record delivery := Delivery {
  d_envelope : list Z; d_archive : list Z; d_session : list Z; d_sessionID : string; d_trustID : string;
  d_context : option json; d_account : option (list Z); d_accountID : string; consumedOTK : option string
}.
Definition delivery_account (p : delivery) : string :=
  if bool_decide (d_accountID p = ""%string) then "local" else d_accountID p.

(** The consumed one-time key: its obligation must be this account's and open. *)
Definition stage_consumed (s : snapshot) (p : delivery) (changes : list (ref * list Z)) : result string (list (ref * list Z)) :=
  match nonempty_text (consumedOTK p) with
  | None => Ok changes
  | Some otk =>
    let r := ("obligation", otk)%string in
    let! v := require s r in
    guard! exists_ v && bool_decide (is_Some (d_account p)) else "invalid"%string in
    let! o := json_ (data v) in
    guard! is_text (field "account_id" o) (delivery_account p) && negb (truthy (field "closed" o)) else "conflict"%string in
    Ok (OMap.set r (bytes (jset "consumed" (JBool true) o)) changes)
  end.

Definition stage_account (s : snapshot) (p : delivery) (changes : list (ref * list Z)) : result string (list (ref * list Z)) :=
  match d_account p with
  | Some account =>
    let r := ("account", delivery_account p)%string in
    let! _ := require s r in
    Ok (OMap.set r account changes)
  | None => Ok changes
  end.

Definition commitReceive (s : snapshot) (id : string) (p : delivery) : prog (list Z) :=
  check! Bool.eqb (0 <? len (default [] (d_account p))) (bool_decide (is_Some (nonempty_text (consumedOTK p)))) else "invalid"%string in
  check! (len (d_envelope p) <=? Limits.record) && (len (d_archive p) <=? Limits.record) else "exhausted"%string in
  check! valid_id id && (0 <? len (d_envelope p)) && (0 <? len (d_archive p)) else "invalid"%string in
  let r := ("inbox", id)%string in
  let digest := hex_text (sha256 (d_envelope p)) in
  do! fresh := extended s [r] in
  pure! old := require fresh r in
  if exists_ old then
    pure! b := json_ (data old) in
    check! is_text (field "digest" b) digest else "conflict"%string in
    do! _ := commit fresh [] None in
    done (bytes_of_json (field "archive" b))
  else
    pure! _ := compare s fresh in
    pure! _ := trust s (d_trustID p) in
    let sr := ("session", d_sessionID p)%string in
    Clock (fun now =>
    pure! value := sessionValue now s sr (d_session p) (d_context p) true None in
    let changes := OMap.set r (bytes (JObj [("digest", JStr digest); ("archive", json_of_bytes (d_archive p))]%string)) [(sr, value)] in
    pure! changes1 := stage_account s p changes in
    pure! changes2 := stage_consumed s p changes1 in
    do! _ := commit fresh changes2 None in
    done (d_archive p)).

(** ** Publishing one-time keys *)

Definition stage_obligation (fresh : snapshot) (c : control) (id acct : string) (changes : list (ref * list Z)) (e : string * json)
    : result string (list (ref * list Z)) :=
  let r := ("obligation", e.1)%string in
  let o := e.2 in
  let! old := require fresh r in
  guard! negb (exists_ old) && is_text (field "publication_id" o) id && open_obligation o else "conflict"%string in
  guard! negb (truthy (field "account_id" o)) || is_text (field "account_id" o) acct else "invalid"%string in
  Ok (OMap.set r
        (bytes (jset "key_id" (default (JStr e.1) (present (field "key_id" o)))
                 (jset "account_epoch" (JNum (accountEpoch c)) (jset "account_id" (JStr acct) o)))) changes).

Fixpoint stage_obligations (fresh : snapshot) (c : control) (id acct : string) (changes : list (ref * list Z))
    (l : list (string * json)) : result string (list (ref * list Z)) :=
  match l with
  | [] => Ok changes
  | e :: l' => let! ch := stage_obligation fresh c id acct changes e in stage_obligations fresh c id acct ch l'
  end.

Definition commitPublication (s : snapshot) (id : string) (account signed : list Z) (otks : list (string * json)) (acct : string)
    : prog (list Z) :=
  check! valid_id acct && valid_id id && (0 <? len account) && (0 <? len signed) else "invalid"%string in
  check! (1 <=? len otks) && (len otks <=? Limits.otks) else "exhausted"%string in
  let r := ("publication", id)%string in
  do! fresh := extended s (r :: map (fun e => ("obligation", e.1)%string) otks) in
  pure! c := control_in fresh in
  check! negb (sendingBlocked c) && bool_decide (accountID c = acct) else "fenced"%string in
  pure! old := require fresh r in
  if exists_ old then
    do! _ := commit fresh [] None in
    pure! saved := json_ (data old) in
    check! is_text (field "account_id" saved) acct else "conflict"%string in
    done (bytes_of_json (field "payload" saved))
  else
    pure! _ := compare s fresh in
    let ar := ("account", acct)%string in
    pure! _ := require s ar in
    pure! changes := stage_obligations fresh c id acct
      (OMap.set r (bytes (JObj [("account_id", JStr acct); ("payload", json_of_bytes signed)]%string)) [(ar, account)]) otks in
    do! _ := commit fresh changes None in
    done signed.

(** ** Reserving a claim *)

Definition reserveClaim (s : snapshot) (id trust_id : string) (request : list Z) : prog (list Z) :=
  check! valid_id id && valid_id trust_id && (0 <? len request) else "invalid"%string in
  check! len request <=? Limits.record else "exhausted"%string in
  let r := ("claim", id)%string in
  do! fresh := extended s [r] in
  pure! c := control_in fresh in
  check! negb (sendingBlocked c) else "fenced"%string in
  pure! rev := trust fresh trust_id in
  pure! old := require fresh r in
  if exists_ old then
    pure! saved := json_ (data old) in
    check! is_text (field "accountID" saved) (accountID c) &&
           bool_decide (field "accountEpoch" saved = Some (JNum (accountEpoch c))) else "fenced"%string in
    check! is_text (field "trustID" saved) trust_id && bool_decide (field "trustRevision" saved = Some (JNum rev)) else "conflict"%string in
    do! _ := commit fresh [] None in
    done (bytes_of_json (field "request" saved))
  else
    pure! _ := compare s fresh in
    do! _ := commit fresh [(r, bytes (JObj [("accountID", JStr (accountID c)); ("accountEpoch", JNum (accountEpoch c));
                                            ("trustID", JStr trust_id); ("trustRevision", JNum rev);
                                            ("request", json_of_bytes request)]%string))] None in
    done request.

(** ** The outcome of an attempt *)

Definition manifest_digest (m : json) : result string string :=
  let! b := validateManifest m in Ok (digestBytes sha256 b).

Definition attempt_of (b : json) : option json := field_of "manifest" (present (field "attempt" b)).

(** [{manifest, digest, receipt?}] of a stored attempt. *)
Definition attemptStatusRequest (s : snapshot) (id : string) : prog (json * string * option json) :=
  let r := ("outbox", id)%string in
  do! fresh := validated s [r] in
  pure! old := require fresh r in
  check! exists_ old else "invalid"%string in
  pure! b := json_ (data old) in
  match attempt_of b with
  | None => throw "invalid"%string
  | Some m => pure! digest := manifest_digest m in done (m, digest, present (field "receipt" b))
  end.

Definition attemptRetirementRequest (s : snapshot) (id : string) : prog json :=
  do! (m, _, receipt) := attemptStatusRequest s id in
  match receipt with
  | None => throw "invalid"%string
  | Some rc => done (obj [("attempt_id", field "attempt_id" m); ("account_epoch", field "account_epoch" m);
                          ("digest", field "digest" rc)]%string)
  end.

Definition is_outcome (v : option json) : bool := is_text v "accepted" || is_text v "rejected" || is_text v "aborted".

Definition result_matches (m result : json) : bool :=
  forallb (fun k => strict_eq (field k result) (field k m)) ["server"; "account_epoch"; "attempt_id"; "logical_id"]%string.

(** Sessions of an accepted attempt drop their pending claim. *)
Fixpoint establish (snap : snapshot) (changes : list (ref * list Z)) (packets : list json) : result string (list (ref * list Z)) :=
  match packets with
  | [] => Ok changes
  | p :: l' =>
    let sr := ("session", str_of (field "sessionID" p))%string in
    let! v := require snap sr in
    guard! exists_ v else "corrupt"%string in
    let! st := json_ (data v) in
    establish snap (if truthy (field "pending" st) then OMap.set sr (bytes (jdel "pending" st)) changes else changes) l'
  end.

Definition applyAttemptResult (s : snapshot) (id : string) (result : json) : prog unit :=
  check! is_outcome (field "state" result) else "invalid"%string in
  let r := ("outbox", id)%string in
  pure! old := require s r in
  check! exists_ old else "invalid"%string in
  pure! b := json_ (data old) in
  match attempt_of b with
  | None => throw "invalid"%string
  | Some m =>
    pure! digest := manifest_digest m in
    check! result_matches m result && is_text (field "digest" result) digest &&
           (negb (is_text (field "state" result) "accepted") || truthy (field "message_id" result)) else "conflict"%string in
    match present (field "receipt" b) with
    | Some rc => check! equalJSON rc result else "conflict"%string in commit s [] None
    | None =>
      let lr := ("logical", str_of (field "logical_id" m))%string in
      pure! lrec := require s lr in
      pure! logical := json_ (data lrec) in
      check! is_text (field "attemptID" logical) id else "conflict"%string in
      let st := default JNull (field "state" result) in
      let b' := jset "status" st (jset "receipt" result b) in
      let changes := OMap.set lr (bytes (jset "state" st logical)) [(r, bytes b')] in
      if is_text (field "state" result) "accepted" then
        let ps := items (field "packets" b) in
        do! snap := extended s (map (fun p => ("session", str_of (field "sessionID" p))%string) ps) in
        pure! _ := compare s snap in
        pure! changes1 := establish snap changes ps in
        commit snap changes1 None
      else commit s changes None
    end
  end.

(** ** The account's authority *)

Record authority := Authority {
  au_account : string; au_epoch : Z; au_fence : Z; au_blocked : bool; au_next : Z; au_retired : Z * list Z
}.

Definition retired_for (epoch : Z) (c : control) : Z * list Z :=
  match retired c with
  | Some r => if r_epoch r =? epoch then (through r, above r) else (0, [])
  | None => (0, [])
  end.

Definition accountAuthority (s : snapshot) : prog authority :=
  do! fresh := validated s [] in
  pure! c := control_in fresh in
  done (Authority (accountID c) (accountEpoch c) (generation (s_fence fresh)) (sendingBlocked c) (nextAttempt c)
          (retired_for (accountEpoch c) c)).

Definition checkAccountAuthority (s : snapshot) (token_fence : Z) (token_account : string) (token_epoch : Z) : prog unit :=
  do! c := accountAuthority s in
  check! (au_fence c =? token_fence) && bool_decide (au_account c = token_account) && (au_epoch c =? token_epoch) &&
         negb (au_blocked c) else "fenced"%string in
  done tt.

(** [String(id).split(":")]: the first two pieces. *)
Fixpoint split_colon (s : string) : string * option string :=
  match s with
  | EmptyString => (EmptyString, None)
  | String a s' => if decide (a = Ascii.ascii_of_nat 58) then (EmptyString, Some s')
                   else let '(x, rest) := split_colon s' in (String a x, rest)
  end.
Definition id_parts (id : string) : string * option string :=
  let '(x, rest) := split_colon id in (x, (fun r => (split_colon r).1) <$> rest).

(** [Number(text)] of the decimal text of an integer; anything else is no epoch. *)
Definition js_number (s : string) : option Z :=
  match parse_nat (bytes_of s) with Some (n, []) => Some n | _ => None end.

(** The contiguous watermark moves over the sequences directly above it. *)
Fixpoint advance (through : Z) (above : list Z) : Z * list Z :=
  match above with
  | x :: rest => if x =? through + 1 then advance (through + 1) rest else (through, above)
  | [] => (through, [])
  end.

Definition insert_above (seq : Z) (above : list Z) : list Z := merge_sort Z.le (above ++ [seq]).

Definition noteRetired (s : snapshot) (id : string) : prog unit :=
  let '(epochText, seqText) := id_parts id in
  pure! seq := attemptSequence (JStr <$> seqText) in
  let r := ("outbox", id)%string in
  do! fresh := extended s [r] in
  pure! c := control_in fresh in
  pure! old := require fresh r in
  check! exists_ old else "invalid"%string in
  pure! b := json_ (data old) in
  check! truthy (field "receipt" b) && bool_decide (js_number epochText = Some (accountEpoch c)) else "invalid"%string in
  let '(thr, abv) := retired_for (accountEpoch c) c in
  if (seq <=? thr) || bool_decide (seq ∈ abv) then commit fresh [] None
  else
    let '(thr', abv') := advance thr (insert_above seq abv) in
    check! len abv' <=? 1024 else "exhausted"%string in
    commit fresh [] (Some (SetRetired (Retired (accountEpoch c) thr' abv'))).

(** ** Listing references *)

(** IDs of one kind after [after], in key order; an empty [after] starts at the
    beginning. *)
Definition refs_after (kind after : string) (limit : nat) (d : database) : list ref :=
  let ids := omap (fun kv : ref * raw_record => if decide (kv.1.1 = kind) then Some kv.1.2 else None) (map_to_list (records_of d)) in
  let later := filter (fun id => after = ""%string \/ (key_le after id /\ id <> after)) ids in
  map (fun id => (kind, id)) (take limit (merge_sort key_le later)).

Definition pendingRefs (kind after : string) (limit : Z) : prog (list ref) :=
  check! bool_decide (kind ∈ kinds) && (1 <=? limit) && (limit <=? 200) else "invalid"%string in
  do! f := identityFence in
  check! active f else "fenced"%string in
  view (refs_after kind after (Z.to_nat limit)).

(** ** Account transitions *)

Definition epoch_of (k : string) (v : json) : Z := num_or 0 (field k v).

(** The obligations of the abandoned candidate, page by page.  Each page but
    the last one moves [after] past 200 references, so [fuel] pages cover
    200 * [fuel] obligations. *)
Fixpoint candidate_refs (fuel : nat) (after : string) (acct : option json) (acc : list ref) : prog (list ref) :=
  match fuel with
  | O => throw "fuel"%string
  | S f =>
    do! page := pendingRefs "obligation" after 200 in
    do! records := read page in
    pure! mine := foldr (fun r rest =>
      let! v := require records r in
      let! o := json_ (data v) in
      let! l := rest in
      Ok (if strict_eq (field "account_id" o) acct then r :: l else l)) (Ok []) page in
    if len page <? 200 then done (acc ++ mine)
    else candidate_refs f (match last page with Some r => r.2 | None => after end) acct (acc ++ mine)
  end.

(** The listed keys of the candidate, by ID, and their obligations closed. *)
Definition bundle_keys (t : json) : list (option json * option json) :=
  foldl (fun m k => OMap.set (field "id" k) (field "key" k) m) []
    (items (field_of "one_time_keys" (field "bundle" t))).

Fixpoint close_obligations (fresh : snapshot) (id : string) (t : json) (keys : list (option json * option json))
    (changes : list (ref * list Z)) (refs : list ref) : result string (list (option json * option json) * list (ref * list Z)) :=
  match refs with
  | [] => Ok (keys, changes)
  | r :: l' =>
    let! v := require fresh r in
    let! o := json_ (data v) in
    guard! strict_eq (field "account_id" o) (field "account_id" t) && is_text (field "publication_id" o) id &&
           strict_eq (field "account_epoch" o) (field_of "new_epoch" (field "reset" t)) && truthy (field "public_key" o) &&
           match OMap.get (field "key_id" o) keys with Some k => strict_eq k (field "public_key" o) | None => false end &&
           negb (truthy (field "consumed" o)) else "conflict"%string in
    close_obligations fresh id t (OMap.del (field "key_id" o) keys)
      (if truthy (field "closed" o) then changes
       else OMap.set r (bytes (jset "closure_proof" (JStr ("abandoned-recovery:" +:+ id)) (jset "closed" (JBool true) o))) changes) l'
  end.

(** 500 pages hold the 100000 records a namespace may have. *)
Definition ABANDON_PAGES : nat := 501.

Definition abandonRecoveryTransition (s : snapshot) (id : string) : prog unit :=
  let r := ("transition", id)%string in
  pure! old := require s r in
  check! exists_ old else "invalid"%string in
  pure! t := json_ (data old) in
  check! truthy (field "recovery" t) && negb (truthy (field "receipt" t)) else "invalid"%string in
  if truthy (field "abandoned" t) then done tt else
  pure! c := control_in s in
  check! bool_decide (field "from_epoch" t = Some (JNum (accountEpoch c))) && sendingBlocked c &&
         negb (is_text (field "account_id" t) (accountID c)) else "fenced"%string in
  do! refs := candidate_refs ABANDON_PAGES "" (field "account_id" t) [] in
  do! fresh := extended s refs in
  pure! _ := compare s fresh in
  pure! (keys, changes) := close_obligations fresh id t (bundle_keys t) [] refs in
  check! len keys =? 0 else "conflict"%string in
  commit fresh (OMap.set r (bytes (jset "abandoned" (JBool true) t)) changes) (Some (SetBlocked false)).

Definition transition_args_ok (acct : string) (account : list Z) (reset bundle : json) (otks : list (string * json)) : bool :=
  valid_id acct && (0 <? len account) && is_text (field "server" reset) (n_server ns) &&
  is_text (field "principal" reset) (n_principal ns) && is_text (field "device" reset) (n_device ns) &&
  bool_decide (field "new_epoch" reset = Some (JNum (epoch_of "old_epoch" reset + 1))) &&
  strict_eq (field "new_epoch" reset) (field "account_epoch" bundle) &&
  strict_eq (field "generation" reset) (field "generation" bundle) &&
  strict_eq (field "new_identity" reset) (field "identity" bundle) &&
  strict_eq (field "new_signing" reset) (field "signing" bundle) &&
  (len otks =? count (field "one_time_keys" bundle)).

Definition transition_value (acct : string) (reset bundle : json) (recovery : bool) (c : control) : json :=
  JObj ([("account_id", JStr acct); ("reset", reset); ("bundle", bundle)]%string ++
        (if recovery then [("recovery", JBool true); ("from_epoch", JNum (accountEpoch c))]%string else [])).

Fixpoint stage_candidate (fresh : snapshot) (acct : string) (reset bundle : json) (seen : list (option json))
    (changes : list (ref * list Z)) (l : list (string * json)) : result string (list (ref * list Z)) :=
  match l with
  | [] => Ok changes
  | (id, o) :: l' =>
    let r := ("obligation", id)%string in
    let! old := require fresh r in
    guard! negb (exists_ old) && open_obligation o && is_text (field "account_id" o) acct &&
           strict_eq (field "account_epoch" o) (field "new_epoch" reset) &&
           strict_eq (field "publication_id" o) (field "transition_id" reset) &&
           negb (bool_decide (field "key_id" o ∈ seen)) &&
           existsb (fun k => strict_eq (field "id" k) (field "key_id" o) && strict_eq (field "key" k) (field "public_key" o))
             (items (field "one_time_keys" bundle)) else "conflict"%string in
    stage_candidate fresh acct reset bundle (field "key_id" o :: seen) (OMap.set r (bytes o) changes) l'
  end.

Definition prepareAccountTransition (s : snapshot) (acct : string) (account : list Z) (reset bundle : json)
    (otks : list (string * json)) (recovery : bool) : prog unit :=
  pure! _ := resetTranscript cv reset in
  pure! digest := publicationDigest cv sha256 bundle in
  check! is_text (field "publication_digest" reset) digest else "invalid"%string in
  check! transition_args_ok acct account reset bundle otks else "invalid"%string in
  let tid := str_of (field "transition_id" reset) in
  let r := ("transition", tid)%string in
  let ar := ("account", acct)%string in
  let pr := ("publication", tid)%string in
  do! fresh := extended s (r :: ar :: pr :: map (fun e => ("obligation", e.1)%string) otks) in
  pure! _ := compare s fresh in
  pure! c := control_in fresh in
  let expected := transition_value acct reset bundle recovery c in
  pure! old := require fresh r in
  if exists_ old then
    pure! prior := json_ (data old) in
    check! equalJSON (jdel "receipt" prior) expected else "conflict"%string in
    commit fresh [] None
  else
    pure! acc := require fresh ar in
    check! negb (sendingBlocked c) &&
           (if recovery then accountEpoch c <=? epoch_of "old_epoch" reset
            else bool_decide (field "old_epoch" reset = Some (JNum (accountEpoch c)))) &&
           negb (bool_decide (accountID c = acct)) && negb (exists_ acc) else "fenced"%string in
    let changes := OMap.set pr (bytes (JObj [("account_id", JStr acct); ("payload", json_of_bytes (jsonBytes bundle))]%string))
                     (OMap.set ar account [(r, bytes expected)]) in
    pure! changes1 := stage_candidate fresh acct reset bundle [] changes otks in
    commit fresh changes1 (Some (SetBlocked true)).

Definition prepareRecoveryTransition (s : snapshot) (acct : string) (account : list Z) (reset bundle : json)
    (otks : list (string * json)) : prog unit :=
  check! is_text (field "reason" reset) "lost" || is_text (field "reason" reset) "restored" else "invalid"%string in
  prepareAccountTransition s acct account reset bundle otks true.

Definition receipt_matches (reset receipt : json) : bool :=
  strict_eq (field "server" receipt) (field "server" reset) && strict_eq (field "device" receipt) (field "device" reset) &&
  strict_eq (field "transition_id" receipt) (field "transition_id" reset) &&
  strict_eq (field "account_epoch" receipt) (field "new_epoch" reset) &&
  strict_eq (field "publication_digest" receipt) (field "publication_digest" reset) &&
  is_text (field "digest" receipt) (resetDigest sha256 reset).

Definition promoteAccount (s : snapshot) (id : string) (receipt : json) : prog unit :=
  let r := ("transition", id)%string in
  pure! old := require s r in
  check! exists_ old else "invalid"%string in
  pure! t := json_ (data old) in
  let reset := default JNull (field "reset" t) in
  check! receipt_matches reset receipt else "conflict"%string in
  match present (field "receipt" t) with
  | Some rc => check! equalJSON rc receipt else "conflict"%string in commit s [] None
  | None =>
    check! negb (truthy (field "abandoned" t)) else "fenced"%string in
    pure! c := control_in s in
    check! bool_decide ((if truthy (field "recovery" t) then field "from_epoch" t else field "old_epoch" reset) =
                        Some (JNum (accountEpoch c))) && sendingBlocked c else "fenced"%string in
    commit s [(r, bytes (jset "receipt" receipt t))]
      (Some (Promote (str_of (field "account_id" t)) (epoch_of "new_epoch" reset)))
  end.

Definition accountTransitionRequest (s : snapshot) (id : string) : prog json :=
  let r := ("transition", id)%string in
  do! fresh := extended s [r] in
  pure! old := require fresh r in
  check! exists_ old else "invalid"%string in
  pure! out := json_ (data old) in
  do! _ := commit fresh [] None in
  done out.

(** ** Retiring keys and sessions *)

Definition closure_digest (p : json) : string :=
  digestBytes sha256 (jsonBytes (obj [("server", field "server" p); ("device", field "device" p);
    ("account_epoch", field "account_epoch" p); ("key_id", field "key_id" p); ("state", field "state" p);
    ("proof", Some (JStr ""))]%string)).

Fixpoint stage_closures (s : snapshot) (acct : string) (changes : list (ref * list Z)) (l : list (string * json))
    : result string (list (ref * list Z)) :=
  match l with
  | [] => Ok changes
  | (id, p) :: l' =>
    let r := ("obligation", id)%string in
    let! v := require s r in
    guard! exists_ v else "invalid"%string in
    let! o := json_ (data v) in
    guard! is_text (field "state" p) "closed" && is_text (field "server" p) (n_server ns) &&
           is_text (field "device" p) (n_device ns) && strict_eq (field "account_epoch" p) (field "account_epoch" o) &&
           strict_eq (field "key_id" p) (field "key_id" o) && is_text (field "account_id" o) acct && open_obligation o &&
           truthy (field "public_key" o) && hex64 (String_of (field "proof" p)) else "conflict"%string in
    guard! is_text (field "proof" p) (closure_digest p) else "conflict"%string in
    stage_closures s acct
      (OMap.set r (bytes (jset "closure_proof" (default JNull (field "proof" p)) (jset "closed" (JBool true) o))) changes) l'
  end.

Definition retireUnsubmittedKeys (s : snapshot) (acct : string) (account : list Z) (proofs : list (string * json)) : prog unit :=
  check! (0 <? len account) && (1 <=? len proofs) && (len proofs <=? 100) else "invalid"%string in
  let ar := ("account", acct)%string in
  pure! _ := require s ar in
  pure! changes := stage_closures s acct [(ar, account)] proofs in
  commit s changes None.

Fixpoint stage_retired (s : snapshot) (reset : json) (changes : list (ref * list Z)) (ids : list string)
    : result string (list (ref * list Z)) :=
  match ids with
  | [] => Ok changes
  | id :: l' =>
    let r := ("session", id)%string in
    let! v := require s r in
    guard! exists_ v else "invalid"%string in
    let! st := json_ (data v) in
    let c := default JNull (field "context" st) in
    guard! strict_eq (field "peer_principal" c) (field "principal" reset) &&
           strict_eq (field "peer_device" c) (field "device" reset) &&
           strict_eq (field "peer_epoch" c) (field "old_epoch" reset) &&
           strict_eq (field "peer_identity" c) (field "old_identity" reset) else "conflict"%string in
    stage_retired s reset (OMap.set r (bytes (jset "retired" (JBool true) st)) changes) l'
  end.

Definition retirePeerSessions (s : snapshot) (trust_id : string) (reset : json) (ids : list string) : prog unit :=
  check! (1 <=? len ids) && (len ids <=? 160) && is_text (field "server" reset) (n_server ns) else "invalid"%string in
  pure! _ := trust s trust_id in
  pure! changes := stage_retired s reset [] ids in
  commit s changes None.
End store.
