(* ===== verification/RatchetCommit.v ===== *)
(** * The commit of the ratchet store

    What the database of one namespace means ([abs]: a finite map from
    references to revisions and plaintexts), the invariant every transaction
    keeps ([Inv]: every record decrypts, the quotas of the control record are
    exact), what one transaction may do ([Guar]: revisions only grow, and each
    kind of record changes only the way its life allows), and the proof that a
    commit on a snapshot that was read from this database keeps both, whatever
    other tabs do in between ([commit_safe]). *)

From stdpp Require Import base gmap list strings sorting.
From Stdlib Require Import ZArith Lia.
From S2P Require Import Prelude Json Text OlmAdmission OlmReset Db RatchetStore.

(** The reference is of none of the kinds in question. *)
Ltac other_kind := let Hk := fresh in intros Hk; exfalso; revert Hk; cbn [fst]; apply (bool_decide_unpack _); exact I.

(** ** Sums over finite maps *)

Section total.
Context {K : Type} `{Countable K} {V : Type}.
Implicit Types (f : K -> V -> Z) (m : gmap K V).

Definition total f m : Z := map_fold (fun k v n => f k v + n) 0 m.

Lemma total_empty f : total f ∅ = 0.
Proof. apply map_fold_empty. Qed.

Lemma total_insert_new f m k v : m !! k = None -> total f (<[k := v]> m) = f k v + total f m.
Proof. intros. unfold total. apply (map_fold_insert_L (fun k v n => f k v + n)); [intros; lia|done]. Qed.

Lemma total_insert f m k v :
  total f (<[k := v]> m) = total f m + f k v - match m !! k with Some w => f k w | None => 0 end.
Proof.
  destruct (m !! k) as [w|] eqn:E; [|rewrite total_insert_new by done; lia].
  pose proof (total_insert_new f (delete k m) k v (lookup_delete_eq m k)) as H1.
  pose proof (total_insert_new f (delete k m) k w (lookup_delete_eq m k)) as H2.
  rewrite insert_delete_eq in H1. rewrite (insert_delete_id m k w E) in H2. lia.
Qed.
End total.

(** ** What a database means *)

Section commit.
Context `{Cipher}.
Variable ns : names.

Definition plain_of (key : list Z) (r : ref) (raw : raw_record) : option (list Z) :=
  decrypt key (iv (raw_sealed raw)) (aad ns r (raw_revision raw)) (sealed (raw_sealed raw)).

Definition rec_of_raw (d : database) (r : ref) (raw : raw_record) : rec :=
  Rec (raw_revision raw) (default [] (wrapping_key d ≫= fun key => plain_of key r raw)).

Definition abs (d : database) : gmap ref rec := map_imap (fun r raw => Some (rec_of_raw d r raw)) (records_of ns d).

Lemma lookup_abs d r : abs d !! r = rec_of_raw d r <$> records_of ns d !! r.
Proof. unfold abs. rewrite map_lookup_imap. by destruct (records_of ns d !! r). Qed.

(** The record a snapshot would hold. *)
Definition rec_in (d : database) (r : ref) : rec := default absent (abs d !! r).

Definition decodable (d : database) : Prop :=
  forall r raw, records_of ns d !! r = Some raw -> 1 <= raw_revision raw /\
    exists key p, wrapping_key d = Some key /\ plain_of key r raw = Some p.

(** *** The quotas *)

Definition one (r : ref) (_ : rec) : Z := if decide (r = ctl) then 0 else 1.
Definition size_ (r : ref) (v : rec) : Z := if decide (r = ctl) then 0 else len (data v).
Definition open_ (r : ref) (v : rec) : Z :=
  if decide (r.1 = "obligation"%string)
  then match parse (data v) with Some o => if open_obligation o then 1 else 0 | None => 0 end else 0.

(** The control record counts exactly what the namespace holds. *)
Definition counted (m : gmap ref rec) (c : control) : Prop :=
  count_ c = total one m /\ bytes_ c = total size_ m /\ obligations c = total open_ m.

Definition within (c : control) : Prop :=
  count_ c <= Limits.records /\ bytes_ c <= Limits.bytes /\ obligations c <= Limits.otks.

(** *** Attempts *)

(** The account epoch and sequence of a stored attempt. *)
Definition attempt_id_of (b : json) : option (Z * Z) :=
  match attempt_of b with
  | Some m => match field "account_epoch" m, attemptSequence (field "attempt_id" m) with
              | Some (JNum e), Ok n => Some (e, n)
              | _, _ => None
              end
  | None => None
  end.
Definition attempt_at (m : gmap ref rec) (r : ref) (e n : Z) : Prop :=
  r.1 = "outbox"%string /\ exists v b, m !! r = Some v /\ parse (data v) = Some b /\ attempt_id_of b = Some (e, n).

(** The outcome of a logical ID, and the attempt it stands for. *)
Definition accepted (l : json) : bool := is_text (field "state" l) "accepted".
Definition attempt_ref (l : json) : ref := ("outbox", str_of (field "attemptID" l))%string.
Definition receipt_in (o : option rec) : Prop := exists v b, o = Some v /\ parse (data v) = Some b /\ truthy (field "receipt" b) = true.

Definition accepted_ok (m : gmap ref rec) : Prop :=
  forall (r : ref) v l, r.1 = "logical"%string -> m !! r = Some v -> parse (data v) = Some l -> accepted l = true ->
    receipt_in (m !! attempt_ref l).

Definition attempts_ok (m : gmap ref rec) (c : control) : Prop :=
  (forall r e n, attempt_at m r e n -> e < accountEpoch c \/ (e = accountEpoch c /\ n <= nextAttempt c)) /\
  (forall r1 r2 e n, attempt_at m r1 e n -> attempt_at m r2 e n -> r1 = r2) /\
  accepted_ok m.

(** *** Stored transitions *)

Definition transition_ok (t : json) : Prop :=
  exists reset, field "reset" t = Some reset /\
    epoch_of "new_epoch" reset = epoch_of "old_epoch" reset + 1 /\
    (forall n, truthy (field "recovery" t) = true -> field "from_epoch" t = Some (JNum n) -> n <= epoch_of "old_epoch" reset) /\
    (truthy (field "receipt" t) && truthy (field "abandoned" t) = false).

(** Kinds whose records are JSON values with a life of their own. *)
Definition json_kinds : list string :=
  ["trust"; "inbox"; "claim"; "outbox"; "logical"; "session"; "obligation"; "transition"]%string.

Definition record_ok (r : ref) (v : rec) : Prop :=
  (r.1 ∈ json_kinds -> is_Some (parse (data v))) /\
  (r.1 = "transition"%string -> forall t, parse (data v) = Some t -> transition_ok t).

(** *** The invariant *)

Definition control_at (m : gmap ref rec) (c : control) : Prop :=
  exists rev, m !! ctl = Some (Rec rev (bytes (control_json c))).

Definition meaning_ok (m : gmap ref rec) : Prop :=
  m = ∅ \/ exists c, control_at m c /\ counted m c /\ within c /\ attempts_ok m c /\ len (coreKey_ c) = 32 /\
    (forall r v, m !! r = Some v -> record_ok r v).

Definition Inv (d : database) : Prop := decodable d /\ meaning_ok (abs d).

(** ** How records may change *)

Definition same_fields (ks : list string) (a b : json) : Prop := forall k, k ∈ ks -> field k a = field k b.
Definition sticky (k : string) (a b : json) : Prop := truthy (field k a) = true -> truthy (field k b) = true.
Definition final (k : string) (a b : json) : Prop := truthy (field k a) = true -> field k b = field k a.

Definition final_with (k k' : string) (a b : json) : Prop := truthy (field k a) = true -> field k' b = field k' a.

(** The life of a record, by kind, from one value to a later one. *)
Definition life (kind : string) (a b : json) : Prop :=
  if decide (kind = "trust"%string) then sticky "revoked" a b
  else if decide (kind = "inbox"%string \/ kind = "claim"%string) then a = b
  else if decide (kind = "outbox"%string) then
    same_fields ["packets"; "archive"; "attempt"]%string a b /\ final "receipt" a b /\
    (truthy (field "attempt" a) = true -> final_with "receipt" "status" a b)
  else if decide (kind = "logical"%string) then accepted a = true -> a = b
  else if decide (kind = "session"%string) then
    same_fields ["context"]%string a b /\ sticky "retired" a b /\
    (truthy (field "pending" b) = true -> field "pending" b = field "pending" a)
  else if decide (kind = "obligation"%string) then
    same_fields ["account_id"; "account_epoch"; "publication_id"; "key_id"; "public_key"]%string a b /\
    sticky "consumed" a b /\ sticky "closed" a b
  else if decide (kind = "transition"%string) then
    same_fields ["account_id"; "reset"; "bundle"; "recovery"; "from_epoch"]%string a b /\
    final "receipt" a b /\ sticky "abandoned" a b
  else True.

(** The control record keeps its core key; the account epoch and, within one
    epoch, the attempt counter never go back. *)
Definition control_life (a b : control) : Prop :=
  coreKey_ b = coreKey_ a /\
  (accountEpoch a < accountEpoch b \/ (accountEpoch a = accountEpoch b /\ nextAttempt a <= nextAttempt b)).

Definition data_life (r : ref) (a b : list Z) : Prop :=
  if decide (r = ctl) then
    forall ca, a = bytes (control_json ca) -> exists cb, b = bytes (control_json cb) /\ control_life ca cb
  else if decide (r.1 ∈ json_kinds) then
    forall ja, parse a = Some ja -> exists jb, parse b = Some jb /\ life r.1 ja jb
  else True.

(** One record, earlier and later: the same, or written since. *)
Definition evolves (r : ref) (a b : option rec) : Prop :=
  match a, b with
  | None, _ => True
  | Some _, None => False
  | Some u, Some v => u = v \/ (revision u < revision v /\ data_life r (data u) (data v))
  end.

(** Records that only an account that may send creates. *)
Definition sending_kinds : list string := ["outbox"; "claim"; "publication"; "transition"]%string.

Definition created_unblocked (m m' : gmap ref rec) : Prop :=
  forall r : ref, r.1 ∈ sending_kinds -> m !! r = None -> is_Some (m' !! r) ->
  exists c, control_at m c /\ sendingBlocked c = false.

Definition key_kept (d d' : database) : Prop := forall key, wrapping_key d = Some key -> wrapping_key d' = Some key.

(** One transaction: the wrapping key stays; a new generation, or the same one
    in which every record evolves. *)
Definition Guar (d d' : database) : Prop :=
  key_kept d d' /\
  (generation (current d) < generation (current d') \/
   (generation (current d) = generation (current d') /\
    (forall r, evolves r (abs d !! r) (abs d' !! r)) /\ created_unblocked (abs d) (abs d'))).

(** ** Basic facts *)

Lemma json_bytes x : json_ (bytes x) = Ok x.
Proof. unfold json_, bytes. by rewrite parse_stringify. Qed.

Lemma bytes_json_of_bytes l : bytes_of_json (Some (json_of_bytes l)) = l.
Proof. unfold bytes_of_json, json_of_bytes. rewrite map_map. simpl. apply map_id. Qed.

Lemma control_roundtrip_ c : control_of (control_json c) = Some c.
Proof.
  destruct c as [k n b o a e sb x [[re th ab]|]]; unfold control_of, control_json; simpl;
    rewrite ?bytes_json_of_bytes; unfold json_of_bytes, bytes_of_json; rewrite ?map_map; simpl; rewrite ?map_id; done.
Qed.

Lemma bytes_inj x y : bytes x = bytes y -> x = y.
Proof. apply stringify_inj. Qed.

Lemma control_json_inj a b : control_json a = control_json b -> a = b.
Proof. intros E. apply (f_equal control_of) in E. rewrite !control_roundtrip_ in E. congruence. Qed.

Lemma control_at_inj m a b : control_at m a -> control_at m b -> a = b.
Proof. intros [r1 H1] [r2 H2]. rewrite H1 in H2. apply control_json_inj, bytes_inj. congruence. Qed.

Lemma evolves_refl r o : evolves r o o.
Proof. destruct o; simpl; auto. Qed.

Lemma Guar_refl d : Guar d d.
Proof.
  split; [by intros ?|]. right. split; [done|]. split; [intros; apply evolves_refl|].
  intros r _ Hn [v Hs]. congruence.
Qed.

Lemma life_trans kind a b c : life kind a b -> life kind b c -> life kind a c.
Proof.
  unfold life. repeat case_decide; try done.
  - unfold sticky. auto.
  - congruence.
  - unfold same_fields, final, final_with. intros (L1 & L2 & L3) (L4 & L5 & L6). split_and!.
    + intros k Hk. by rewrite L1, L4.
    + intros Ht. rewrite L5; [auto|]. by rewrite L2.
    + intros Hat Ht. rewrite L6; [by apply L3| |by rewrite L2].
      rewrite <- (L1 "attempt"%string); [done|]. by right; right; left.
  - intros L1 L2 Ha. rewrite <- L2; [by apply L1|]. by rewrite <- L1.
  - unfold same_fields, sticky. intros (L1 & L2 & L3) (L4 & L5 & L6). split_and!; [|auto|].
    + intros k Hk. by rewrite L1, L4.
    + intros Ht. rewrite L6 by done. apply L3. by rewrite <- L6.
  - unfold same_fields, sticky. intros (L1 & L2 & L3) (L4 & L5 & L6). split_and!; auto.
    intros k Hk. by rewrite L1, L4.
  - unfold same_fields, sticky, final. intros (L1 & L2 & L3) (L4 & L5 & L6). split_and!; auto.
    + intros k Hk. by rewrite L1, L4.
    + intros Ht. rewrite L5; [auto|]. by rewrite L2.
Qed.

Lemma control_life_trans a b c : control_life a b -> control_life b c -> control_life a c.
Proof. unfold control_life. intros [-> H1] [-> H2]. split; [done|]. lia. Qed.

Lemma data_life_trans r a b c : data_life r a b -> data_life r b c -> data_life r a c.
Proof.
  unfold data_life. case_decide; [|case_decide; [|done]].
  - intros M1 M2 ca Ea. destruct (M1 ca Ea) as (cb & Eb & L1). destruct (M2 cb Eb) as (cc & Ec & L2).
    exists cc. split; [done|]. by eapply control_life_trans.
  - intros M1 M2 ja Ea. destruct (M1 ja Ea) as (jb & Eb & L1). destruct (M2 jb Eb) as (jc & Ec & L2).
    exists jc. split; [done|]. by eapply life_trans.
Qed.

Lemma evolves_trans r a b c : evolves r a b -> evolves r b c -> evolves r a c.
Proof.
  destruct a as [u|], b as [v|], c as [w|]; simpl; try done. intros [->|[H1 L1]] [->|[H2 L2]]; auto.
  right. split; [lia|]. by eapply data_life_trans.
Qed.

(** ** Snapshots *)

(** The snapshot was read from an earlier state of this generation: a record
    whose revision is still current is the record of the database. *)
Definition snap_ok (s : snapshot) (d : database) : Prop :=
  s_names s = ns /\ OMap.wf (s_records s) /\ generation (s_fence s) <= generation (current d) /\
  (generation (s_fence s) = generation (current d) ->
   forall r v, get_rec r s = Some v -> revision v <= revision (rec_in d r) /\
     (revision v = revision (rec_in d r) -> v = rec_in d r)).

(** The snapshot is the current state. *)
Definition agrees (s : snapshot) (d : database) : Prop := forall r v, get_rec r s = Some v -> v = rec_in d r.

Lemma rec_in_evolves d d' r : (forall r, evolves r (abs d !! r) (abs d' !! r)) -> Inv d' ->
  revision (rec_in d r) <= revision (rec_in d' r) /\
  (revision (rec_in d r) = revision (rec_in d' r) -> rec_in d r = rec_in d' r).
Proof.
  intros He [Hdec _]. specialize (He r). unfold rec_in in *.
  destruct (abs d !! r) as [u|] eqn:Eu, (abs d' !! r) as [v|] eqn:Ev; simpl in *; try done.
  - destruct He as [->|[Hlt _]]; [done|]. split; lia.
  - rewrite lookup_abs in Ev. destruct (records_of ns d' !! r) as [raw|] eqn:Er; [|done].
    simplify_eq/=. destruct (Hdec r raw Er) as [H1 _]. split; lia.
Qed.

Lemma snap_ok_stable s : stable Inv Guar (snap_ok s).
Proof.
  intros d d' (Hn & Hwf & Hg & Hr) _ HI' [_ [Hlt|(Heq & Hev & _)]].
  - split_and!; [done|done|lia|]. intros. lia.
  - split_and!; [done|done|lia|]. intros Hg' r v Hv. destruct (Hr ltac:(lia) r v Hv) as [H1 H2].
    destruct (rec_in_evolves d d' r Hev HI') as [H3 H4]. split; [lia|].
    intros E. rewrite H2 by lia. apply H4. lia.
Qed.

Lemma Guar_rely d d' : rely Inv Guar d d' -> key_kept d d' /\ generation (current d) <= generation (current d').
Proof.
  induction 1 as [d|d d1 d2 (_ & _ & [Hk Hg]) _ [IHk IHg]].
  - split; [by intros ?|lia].
  - split; [intros key Hkey; auto|]. destruct Hg as [?|[? _]]; lia.
Qed.

(** A frame: what the others cannot break holds to the end. *)
Lemma safe_frame {A} (p : prog A) P Q d : stable Inv Guar P -> P d ->
  safe Inv Guar p Q d -> safe Inv Guar p (fun r d' => Q r d' /\ P d') d.
Proof. apply safe_keep. Qed.

Lemma key_stable key : stable Inv Guar (fun d => wrapping_key d = Some key).
Proof. intros d d' Hk _ _ [Hkept _]. auto. Qed.

Lemma view_safe {A} (f : database -> A) Q d :
  (forall d', rely Inv Guar d d' -> Inv d' -> Q (Ok (f d')) d') -> safe Inv Guar (view f) Q d.
Proof. intros Hq. apply safe_view; [|done]. intros. apply Guar_refl. Qed.

(** ** Keys and encodings *)

Lemma no_key_no_records d : Inv d -> wrapping_key d = None -> records_of ns d = ∅.
Proof.
  intros [Hdec _] Hk. apply map_eq. intros r. rewrite lookup_empty.
  destruct (records_of ns d !! r) as [raw|] eqn:E; [|done]. destruct (Hdec r raw E) as (_ & key & p & Hk' & _). congruence.
Qed.

Lemma choose_key_ok key d : Inv d ->
  Inv (choose_key key d).2 /\ Guar d (choose_key key d).2 /\
  forall k, (choose_key key d).1 = Ok k -> wrapping_key (choose_key key d).2 = Some k.
Proof.
  intros HI. unfold choose_key. destruct (wrapping_key d) as [w|] eqn:Ew.
  { split_and!; [done|apply Guar_refl|]. simpl. congruence. }
  destruct (holds_data d); [split_and!; [done|apply Guar_refl|done]|].
  pose proof (no_key_no_records d HI Ew) as He. cbn [fst snd].
  assert (Hr : records_of ns (d <| wrapping_key := Some key |>) = ∅) by exact He.
  assert (Ha : abs (d <| wrapping_key := Some key |>) = abs d) by (unfold abs; rewrite Hr, He; done).
  split_and!.
  - split; [|rewrite Ha; apply HI]. intros r raw. rewrite Hr. by rewrite lookup_empty.
  - split; [intros k; congruence|]. right. rewrite Ha. split; [done|].
    split; [intros; apply evolves_refl|]. intros r _ Hn [v Hv]. congruence.
  - intros k [= <-]. done.
Qed.

Lemma wrappingKey_safe create d :
  safe Inv Guar (wrappingKey create) (fun r d' => forall key, r = Ok key -> wrapping_key d' = Some key) d.
Proof.
  unfold wrappingKey. apply safe_bind, view_safe. intros d1 _ HI.
  destruct (wrapping_key d1) as [w|] eqn:Ew; [simpl; congruence|]. destruct create; [|done].
  simpl. intros l _ d2 _ HI2. destruct (choose_key_ok l d2 HI2) as (? & ? & ?). auto.
Qed.

Lemma seal_safe plain ad d :
  safe Inv Guar (seal plain ad) (fun r d' => forall v, r = Ok v ->
    exists key, wrapping_key d' = Some key /\ decrypt key (iv v) ad (sealed v) = Some plain) d.
Proof.
  intros l _. apply safe_bind. eapply safe_mono; [|apply wrappingKey_safe].
  intros [key|e] d' Hk; simpl; [|done]. intros v [= <-]. exists key. split; [auto|]. apply decrypt_encrypt.
Qed.

Definition encoded (r : ref) (rev : Z) (plain : list Z) (raw : raw_record) (d : database) : Prop :=
  raw_revision raw = rev /\ 1 <= rev /\ exists key, wrapping_key d = Some key /\ plain_of key r raw = Some plain.

Lemma encoded_stable r rev plain raw : stable Inv Guar (encoded r rev plain raw).
Proof. intros d d' (? & ? & key & Hk & ?) _ _ [Hkept _]. split_and!; [done..|]. exists key. auto. Qed.

Lemma encode_safe r rev plain d :
  safe Inv Guar (encode ns r rev plain) (fun x d' => forall raw, x = Ok raw -> encoded r rev plain raw d') d.
Proof.
  unfold encode, version. apply safe_pure. destruct (is_safe_integer rev && (1 <=? rev)) eqn:Ev; [|done].
  apply andb_true_iff in Ev as [_ Hrev]. apply safe_bind. eapply safe_mono; [|apply seal_safe].
  intros [v|e] d' Hv; simpl; [|done]. intros raw [= <-]. destruct (Hv v eq_refl) as (key & Hk & Hd).
  split_and!; [done|simpl; lia|]. exists key. done.
Qed.

(** The writes of a commit, encoded with the next revision of each record. *)
Definition prepared_ok (s : snapshot) (l : list (ref * list Z)) (prepared : list (ref * raw_record)) (d : database) : Prop :=
  Forall2 (fun w p => w.1 = p.1 /\ exists old, get_rec w.1 s = Some old /\
    encoded w.1 (revision old + 1) w.2 p.2 d) l prepared.

Lemma encode_all_safe s l d :
  safe Inv Guar (encode_all ns s l) (fun x d' => forall prepared, x = Ok prepared -> prepared_ok s l prepared d') d.
Proof.
  revert d. induction l as [|[r plain] l IH]; intros d; cbn [encode_all].
  { intros prepared [= <-]. constructor. }
  apply safe_pure. unfold require. destruct (get_rec r s) as [old|] eqn:Eo; [|done].
  apply safe_bind. eapply safe_mono; [|apply encode_safe]. intros [raw|e] d1 He; simpl; [|done].
  specialize (He raw eq_refl). apply safe_bind.
  eapply safe_mono; [|eapply (safe_frame _ (encoded _ _ _ _)); [apply encoded_stable|exact He|apply IH]].
  intros [rest|e] d2 [Hr Hraw]; simpl; [|done]. intros prepared [= <-].
  constructor; [|by apply Hr]. split; [done|]. exists old. done.
Qed.

(** ** The effect of the writes *)

Definition apply_recs (l : list (ref * rec)) (m : gmap ref rec) : gmap ref rec :=
  foldl (fun m kv => <[kv.1 := kv.2]> m) m l.

Lemma records_put_all l d :
  records_of ns (put_all ns l d) = foldl (fun m kv => <[kv.1 := kv.2]> m) (records_of ns d) l.
Proof. unfold records_of at 1, put_all. simpl. by rewrite lookup_insert_eq. Qed.

Lemma abs_put_all l d :
  abs (put_all ns l d) = apply_recs (map (fun kv => (kv.1, rec_of_raw d kv.1 kv.2)) l) (abs d).
Proof.
  unfold abs. rewrite records_put_all.
  assert (Hgen : forall m : gmap ref raw_record,
    map_imap (fun r raw => Some (rec_of_raw (put_all ns l d) r raw)) (foldl (fun m kv => <[kv.1 := kv.2]> m) m l) =
    apply_recs (map (fun kv => (kv.1, rec_of_raw d kv.1 kv.2)) l) (map_imap (fun r raw => Some (rec_of_raw d r raw)) m)).
  { change (rec_of_raw (put_all ns l d)) with (rec_of_raw d).
    induction l as [|[r raw] l IH]; intros m; [done|]. cbn [foldl map fst snd]. rewrite IH.
    assert (E : map_imap (fun r raw => Some (rec_of_raw d r raw)) (<[r := raw]> m) =
                <[r := rec_of_raw d r raw]> (map_imap (fun r raw => Some (rec_of_raw d r raw)) m)).
    { apply map_eq. intros r'. rewrite map_lookup_imap. destruct (decide (r = r')) as [->|Hne].
      - by rewrite !lookup_insert_eq.
      - rewrite !lookup_insert_ne by done. by rewrite map_lookup_imap. }
    by rewrite E. }
  apply Hgen.
Qed.

Lemma lookup_inserts {V} (l : list (ref * V)) (m : gmap ref V) r : NoDup l.*1 ->
  foldl (fun m kv => <[kv.1 := kv.2]> m) m l !! r = match OMap.get r l with Some v => Some v | None => m !! r end.
Proof.
  revert m. induction l as [|[r0 v0] l IH]; intros m; [done|].
  rewrite fmap_cons, NoDup_cons. intros [Hni Hnd]. cbn [foldl OMap.get fst snd].
  rewrite IH by done. destruct (decide (r = r0)) as [->|Hne].
  - rewrite (proj2 (OMap.get_None_keys r0 l)) by done. by rewrite lookup_insert_eq.
  - by rewrite lookup_insert_ne by congruence.
Qed.

Lemma lookup_apply_recs l r0 v0 m r : NoDup l.*1 -> r <> r0 ->
  apply_recs (l ++ [(r0, v0)]) m !! r = match OMap.get r l with Some v => Some v | None => m !! r end.
Proof.
  intros Hnd Hne. unfold apply_recs. rewrite foldl_app. cbn [foldl fst snd]. rewrite lookup_insert_ne by congruence.
  by apply lookup_inserts.
Qed.

Lemma total_apply_recs f l m : NoDup l.*1 ->
  total f (apply_recs l m) =
  total f m + foldr (fun kv n => f kv.1 kv.2 - match m !! kv.1 with Some w => f kv.1 w | None => 0 end + n) 0 l.
Proof.
  unfold apply_recs. revert m. induction l as [|[r v] l IH]; intros m; cbn [foldl foldr fmap list_fmap fst snd].
  { intros _. lia. }
  rewrite NoDup_cons. intros [Hni Hnd]. rewrite IH by done. rewrite total_insert.
  enough (E : forall m' : gmap ref rec, (forall r', r' ∈ l.*1 -> m' !! r' = m !! r') ->
    foldr (fun kv n => f kv.1 kv.2 - match m' !! kv.1 with Some w => f kv.1 w | None => 0 end + n) 0 l =
    foldr (fun kv n => f kv.1 kv.2 - match m !! kv.1 with Some w => f kv.1 w | None => 0 end + n) 0 l).
  { rewrite E; [lia|]. intros r' Hr'. apply lookup_insert_ne. intros ->. done. }
  clear. intros m' Hm. induction l as [|[r' v'] l IH]; [done|]. cbn [foldr fst snd].
  rewrite IH by (intros; apply Hm; by right). rewrite Hm by (by left). done.
Qed.

(** ** What a commit must bring *)

Definition change_ok (d : database) (r : ref) (plain : list Z) : Prop :=
  (forall v, abs d !! r = Some v -> data_life r (data v) plain) /\ record_ok r (Rec 0 plain).

Definition update_ok (c : control) (u : option authority_update) : Prop :=
  match u with
  | Some (SetNextAttempt n) => n = nextAttempt c + 1
  | Some (Promote _ e) => accountEpoch c < e
  | _ => True
  end.

Definition updated (c : control) (u : option authority_update) : control :=
  match u with Some u => apply_update u c | None => c end.

(** The changes of an operation, in the state where they are committed. *)
Record staged (d : database) (c : control) (changes : list (ref * list Z)) (u : option authority_update) : Prop := {
  st_nodup : NoDup changes.*1;
  st_change : forall (r : ref) plain, (r, plain) ∈ changes -> change_ok d r plain;
  st_update : update_ok c u;
  st_created : forall (r : ref) plain, (r, plain) ∈ changes -> r.1 ∈ sending_kinds -> abs d !! r = None ->
    sendingBlocked c = false;
  st_attempt : forall (r : ref) plain b e n, (r, plain) ∈ changes -> r.1 = "outbox"%string -> abs d !! r = None ->
    parse plain = Some b -> attempt_id_of b = Some (e, n) ->
    e = accountEpoch c /\ n = nextAttempt c + 1 /\ u = Some (SetNextAttempt n);
  st_single : forall (r1 : ref) p1 (r2 : ref) p2, (r1, p1) ∈ changes -> (r2, p2) ∈ changes -> r1.1 = "outbox"%string ->
    r2.1 = "outbox"%string -> abs d !! r1 = None -> abs d !! r2 = None -> r1 = r2;
  st_accepted : forall (r : ref) plain l, (r, plain) ∈ changes -> r.1 = "logical"%string -> parse plain = Some l -> accepted l = true ->
    exists po o, (attempt_ref l, po) ∈ changes /\ parse po = Some o /\ truthy (field "receipt" o) = true
}.

Lemma updated_life c u : update_ok c u -> control_life c (updated c u).
Proof. unfold control_life. destruct u as [[]|]; simpl; intros; split; try done; lia. Qed.

(** The quota fields aside, [account_changes] keeps the control record. *)
Definition same_authority (a b : control) : Prop :=
  coreKey_ b = coreKey_ a /\ accountID b = accountID a /\ accountEpoch b = accountEpoch a /\
  sendingBlocked b = sendingBlocked a /\ nextAttempt b = nextAttempt a /\ retired b = retired a.

(** What the changes add to a sum over the namespace. *)
Definition added (f : ref -> rec -> Z) (m : gmap ref rec) (changes : list (ref * list Z)) : Z :=
  foldr (fun kv n => f kv.1 (Rec 0 kv.2) - match m !! kv.1 with Some w => f kv.1 w | None => 0 end + n) 0 changes.

Lemma added_cons f m r plain l : added f m ((r, plain) :: l) =
  f r (Rec 0 plain) - match m !! r with Some w => f r w | None => 0 end + added f m l.
Proof. done. Qed.

Lemma one_not_ctl r v : r <> ctl -> one r v = 1.
Proof. intros. unfold one. by rewrite decide_False. Qed.

Lemma size_not_ctl r v : r <> ctl -> size_ r v = len (data v).
Proof. intros. unfold size_. by rewrite decide_False. Qed.

Lemma agrees_abs s d r v : decodable d -> agrees s d -> get_rec r s = Some v ->
  abs d !! r = if exists_ v then Some v else None.
Proof.
  intros Hdec Ha Hg. rewrite (Ha r v Hg). unfold rec_in. destruct (abs d !! r) as [w|] eqn:E; [|done].
  rewrite lookup_abs in E. destruct (records_of ns d !! r) as [raw|] eqn:Er; [|done]. simplify_eq/=.
  destruct (Hdec r raw Er) as [Hrev _]. unfold exists_. simpl. destruct (Z.eqb_spec (raw_revision raw) 0); [lia|done].
Qed.

Lemma validRef_not_ctl r : validRef r = true -> r <> ctl.
Proof. intros Hv ->. by vm_compute in Hv. Qed.

Lemma open_delta d r old plain delta :
  change_ok d r plain -> abs d !! r = (if exists_ old then Some old else None) ->
  obligation_delta r old plain = Ok delta ->
  delta = open_ r (Rec 0 plain) - match abs d !! r with Some w => open_ r w | None => 0 end.
Proof.
  intros [Hlife _] Ha. unfold obligation_delta, open_. destruct (decide (r.1 = "obligation"%string)) as [Hk|Hk]; cycle 1.
  { rewrite bool_decide_false by done. intros [= <-]. destruct (abs d !! r); lia. }
  rewrite bool_decide_true by done. rewrite rbind_Ok. intros (before & Hb & Hd). rewrite rbind_Ok in Hd.
  destruct Hd as (after & Hafter & [= <-]).
  unfold json_ in Hafter. cbn [data]. destruct (parse plain) as [jb|] eqn:Ep; [|done]. simplify_eq.
  destruct (exists_ old) eqn:Ee; rewrite Ha; [|simplify_eq; by destruct (open_obligation after)].
  rewrite rbind_Ok in Hb. destruct Hb as (ja & Hja & [= <-]). unfold json_ in Hja.
  destruct (parse (data old)) as [jo|] eqn:Eo; [|done]. simplify_eq.
  assert (Hs : open_obligation ja = false -> open_obligation after = false).
  { specialize (Hlife old ltac:(by rewrite Ha)). unfold data_life in Hlife.
    rewrite decide_False in Hlife by (intros ->; done). rewrite decide_True in Hlife by (rewrite Hk; apply (bool_decide_unpack _); exact I).
    destruct (Hlife ja Eo) as (jb & Hjb & Hl). simplify_eq. rewrite Hk in Hl. unfold life in Hl. simpl in Hl.
    destruct Hl as (_ & Hc & Hcl). unfold sticky, open_obligation in *.
    destruct (truthy (field "consumed" ja)), (truthy (field "closed" ja)); simpl; try done; intros _.
    - by rewrite Hc.
    - by rewrite Hc.
    - rewrite Hcl by done. by rewrite andb_false_r. }
  destruct (open_obligation ja), (open_obligation after); simpl; (lia || by specialize (Hs eq_refl)).
Qed.

Lemma account_changes_spec d s c t changes c' t' :
  decodable d -> agrees s d -> (forall r plain, (r, plain) ∈ changes -> change_ok d r plain) ->
  account_changes s c t changes = Ok (c', t') ->
  same_authority c c' /\ (forall r plain, (r, plain) ∈ changes -> r <> ctl /\ is_Some (get_rec r s)) /\
  count_ c' = count_ c + added one (abs d) changes /\ bytes_ c' = bytes_ c + added size_ (abs d) changes /\
  obligations c' = obligations c + added open_ (abs d) changes.
Proof.
  intros Hdec Ha. revert c t. induction changes as [|[r plain] changes IH]; intros c t Hch.
  { cbn [account_changes added foldr]. intros [= <- <-]. split_and!; try done; try lia.
    intros ? ? Hin. by apply elem_of_nil in Hin. }
  cbn [account_changes]. destruct (validRef r && (0 <? len plain)) eqn:Ev; [|done]. destruct (_ <=? _); [|done].
  rewrite rbind_Ok. intros (old & Hold & Hrest). rewrite rbind_Ok in Hrest. destruct Hrest as (delta & Hdelta & Hrest).
  unfold require in Hold. destruct (get_rec r s) as [old'|] eqn:Eg; [|done]. simplify_eq.
  pose proof (agrees_abs s d r old Hdec Ha Eg) as Hab.
  apply andb_true_iff in Ev as [Ev _]. apply validRef_not_ctl in Ev.
  apply (open_delta d) in Hdelta; [|apply Hch; left|done].
  apply IH in Hrest as (Hsame & Hin & Hc & Hb & Ho); [|intros; apply Hch; by right].
  split_and!.
  - exact Hsame.
  - intros r' plain' [[= -> ->]|Hin']%elem_of_cons; [by split|eauto].
  - rewrite Hc, added_cons, one_not_ctl by done. rewrite Hab. simpl.
    destruct (exists_ old); [rewrite one_not_ctl by done|]; lia.
  - rewrite Hb, added_cons, size_not_ctl by done. rewrite Hab. cbn [data].
    destruct (exists_ old) eqn:Ee; [rewrite size_not_ctl by done; simpl; lia|].
    assert (data old = []) as Hd. { rewrite (Ha r old Eg). unfold rec_in. by rewrite Hab. }
    simpl. rewrite Hd. unfold len at 2. simpl. lia.
  - rewrite Ho, added_cons. simpl. lia.
Qed.

(** ** The effect of a commit *)

(** The records a list of writes puts in place. *)
Definition news (d : database) (writes : list (ref * list Z)) : list (ref * rec) :=
  map (fun kv => (kv.1, Rec (revision (rec_in d kv.1) + 1) kv.2)) writes.

Lemma news_keys d writes : (news d writes).*1 = writes.*1.
Proof. unfold news. induction writes as [|[r p] l IH]; [done|]. cbn. by rewrite IH. Qed.

Lemma news_app d l r p : news d (l ++ [(r, p)]) = news d l ++ [(r, Rec (revision (rec_in d r) + 1) p)].
Proof. unfold news. by rewrite map_app. Qed.

Lemma get_news d writes r :
  OMap.get r (news d writes) = (fun p => Rec (revision (rec_in d r) + 1) p) <$> OMap.get r writes.
Proof.
  unfold news. induction writes as [|[r0 p] l IH]; [done|]. cbn [map OMap.get fst snd].
  case_decide; [by subst|done].
Qed.

Lemma prepared_news s d writes prepared : agrees s d -> prepared_ok s writes prepared d ->
  map (fun kv => (kv.1, rec_of_raw d kv.1 kv.2)) prepared = news d writes /\ prepared.*1 = writes.*1 /\
  forall r raw, OMap.get r prepared = Some raw -> 1 <= raw_revision raw /\
    exists key p, wrapping_key d = Some key /\ plain_of key r raw = Some p.
Proof.
  intros Ha. induction 1 as [|[r plain] [r' raw] writes prepared [He (old & Hold & Hr & H1 & key & Hk & Hp)] _ (IH1 & IH2 & IH3)].
  { done. }
  cbn [fst snd] in *. subst r'. split_and!.
  - cbn [map fst snd]. rewrite IH1. unfold news. cbn [map fst snd]. f_equal. f_equal.
    unfold rec_of_raw. rewrite Hk. simpl. rewrite Hp. simpl. by rewrite Hr, (Ha r old Hold).
  - cbn. by rewrite IH2.
  - intros r0 raw0. cbn [OMap.get]. case_decide; [|apply IH3]. intros [= <-]. subst.
    split; [lia|]. exists key, plain. done.
Qed.

Lemma abs_commit s d writes prepared : agrees s d -> prepared_ok s writes prepared d ->
  abs (put_all ns prepared d) = apply_recs (news d writes) (abs d).
Proof. intros Ha Hp. rewrite abs_put_all. by rewrite (proj1 (prepared_news s d writes prepared Ha Hp)). Qed.

Lemma decodable_commit s d writes prepared : agrees s d -> prepared_ok s writes prepared d -> NoDup writes.*1 ->
  decodable d -> decodable (put_all ns prepared d).
Proof.
  intros Ha Hp Hnd Hdec r raw. destruct (prepared_news s d writes prepared Ha Hp) as (_ & Hk & Hnew).
  rewrite records_put_all, lookup_inserts by (by rewrite Hk).
  destruct (OMap.get r prepared) as [raw'|] eqn:E; [|apply Hdec]. intros [= ->]. by apply Hnew.
Qed.

(** A sum that looks at plaintexts only. *)
Definition by_data (f : ref -> rec -> Z) : Prop := forall r v, f r v = f r (Rec 0 (data v)).

Lemma total_commit f d changes c : by_data f -> (forall v, f ctl v = 0) ->
  NoDup (changes ++ [(ctl, bytes (control_json c))]).*1 ->
  total f (apply_recs (news d (changes ++ [(ctl, bytes (control_json c))])) (abs d)) =
  total f (abs d) + added f (abs d) changes.
Proof.
  intros Hf Hctl Hnd. rewrite total_apply_recs by (by rewrite news_keys). f_equal.
  unfold news, added. rewrite map_app, foldr_app. cbn [map foldr fst snd]. rewrite Hctl.
  assert (match abs d !! ctl with Some w => f ctl w | None => 0 end = 0) as -> by (case_match; auto).
  induction changes as [|[r p] l IH]; [done|]. cbn [map foldr fst snd]. rewrite IH.
  - by rewrite (Hf r (Rec _ _)).
  - rewrite fmap_app in *. cbn in Hnd. apply NoDup_cons in Hnd. tauto.
Qed.

Lemma sums_by_data : by_data one /\ by_data size_ /\ by_data open_.
Proof. by split_and!; intros r v. Qed.

Section effect.
Variables (d : database) (s : snapshot) (changes : list (ref * list Z)) (u : option authority_update).
Variables (c0 c : control) (prepared : list (ref * raw_record)).
Let writes := changes ++ [(ctl, bytes (control_json c))].
Hypothesis Hinv : Inv d.
Hypothesis Hagrees : agrees s d.
Hypothesis Hctl : control_at (abs d) c0.
Hypothesis Hstaged : staged d c0 changes u.
Hypothesis Hauth : same_authority (updated c0 u) c.
Hypothesis Hrefs : forall r plain, (r, plain) ∈ changes -> r <> ctl /\ is_Some (get_rec r s).
Hypothesis Hcounts : count_ c = count_ (updated c0 u) + added one (abs d) changes /\
  bytes_ c = bytes_ (updated c0 u) + added size_ (abs d) changes /\
  obligations c = obligations (updated c0 u) + added open_ (abs d) changes.
Hypothesis Hwithin : within c.
Hypothesis Hprepared : prepared_ok s writes prepared d.

Lemma writes_nodup : NoDup writes.*1.
Proof.
  unfold writes. rewrite fmap_app. apply NoDup_app. split_and!; [apply Hstaged| |apply NoDup_singleton].
  intros r Hin ->%list_elem_of_singleton. apply list_elem_of_fmap in Hin as ([r' p] & E & Hin).
  simpl in E. subst r'. by apply Hrefs in Hin as [].
Qed.

Lemma lookup_after r : abs (put_all ns prepared d) !! r =
  match OMap.get r writes with
  | Some p => Some (Rec (revision (rec_in d r) + 1) p)
  | None => abs d !! r
  end.
Proof.
  rewrite (abs_commit s d writes prepared) by done. unfold apply_recs.
  rewrite lookup_inserts by (rewrite news_keys; apply writes_nodup). rewrite get_news.
  by destruct (OMap.get r writes).
Qed.

Lemma get_writes r p : OMap.get r writes = Some p -> r = ctl /\ p = bytes (control_json c) \/ (r, p) ∈ changes.
Proof.
  intros Hg. apply OMap.get_elem in Hg. unfold writes in Hg. apply elem_of_app in Hg as [Hg|Hg]; [by right|].
  apply list_elem_of_singleton in Hg. left. by simplify_eq.
Qed.

Lemma control_after : control_at (abs (put_all ns prepared d)) c.
Proof.
  exists (revision (rec_in d ctl) + 1). rewrite lookup_after.
  assert (OMap.get ctl writes = Some (bytes (control_json c))) as ->; [|done].
  apply OMap.elem_get; [apply writes_nodup|]. unfold writes. apply elem_of_app. right. by left.
Qed.

Lemma authority_life : control_life c0 c.
Proof.
  pose proof (updated_life c0 u (st_update _ _ _ _ Hstaged)) as [H1 H2].
  destruct Hauth as (E1 & _ & E2 & _ & E3 & _). split; [congruence|]. rewrite E2, E3. done.
Qed.

Lemma counted_after : counted (abs d) c0 -> counted (abs (put_all ns prepared d)) c.
Proof.
  intros (C1 & C2 & C3). destruct Hcounts as (D1 & D2 & D3). destruct sums_by_data as (B1 & B2 & B3).
  assert (Hq : count_ (updated c0 u) = count_ c0 /\ bytes_ (updated c0 u) = bytes_ c0 /\
               obligations (updated c0 u) = obligations c0) by (by destruct u as [[]|]).
  destruct Hq as (Q1 & Q2 & Q3). rewrite (abs_commit s d writes prepared) by done.
  unfold counted, writes. rewrite !total_commit by (done || apply writes_nodup). lia.
Qed.

Lemma evolves_after r : evolves r (abs d !! r) (abs (put_all ns prepared d) !! r).
Proof.
  rewrite lookup_after. destruct (OMap.get r writes) as [p|] eqn:E; [|apply evolves_refl].
  destruct (abs d !! r) as [v|] eqn:Ev; simpl; [|done]. right. unfold rec_in. rewrite Ev. simpl. split; [lia|].
  apply get_writes in E as [[-> ->]|Hin].
  - destruct Hctl as [rev Hc]. rewrite Hc in Ev. injection Ev as <-. unfold data_life. rewrite decide_True by done.
    cbn [data]. intros ca Hca. apply bytes_inj, control_json_inj in Hca as <-. exists c. split; [done|]. apply authority_life.
  - by apply (st_change _ _ _ _ Hstaged) in Hin as [Hl _]; apply Hl.
Qed.

Lemma record_ok_data r v w : data v = data w -> record_ok r v -> record_ok r w.
Proof. unfold record_ok. by intros ->. Qed.

Lemma records_after : (forall r v, abs d !! r = Some v -> record_ok r v) ->
  forall r v, abs (put_all ns prepared d) !! r = Some v -> record_ok r v.
Proof.
  intros Hok r v. rewrite lookup_after. destruct (OMap.get r writes) as [p|] eqn:E; [|apply Hok].
  intros [= <-]. apply get_writes in E as [[-> ->]|Hin].
  - split; [|done]. intros Hin. exfalso. revert Hin. apply (bool_decide_unpack _). exact I.
  - eapply record_ok_data; [|apply (st_change _ _ _ _ Hstaged _ _ Hin)]. done.
Qed.

(** An attempt after the commit is one from before, or the one just made. *)
Lemma attempt_after r e n : (forall r v, abs d !! r = Some v -> record_ok r v) ->
  attempt_at (abs (put_all ns prepared d)) r e n ->
  attempt_at (abs d) r e n \/
  (abs d !! r = None /\ (exists p, (r, p) ∈ changes) /\ r.1 = "outbox"%string /\ e = accountEpoch c0 /\
   n = nextAttempt c0 + 1 /\ u = Some (SetNextAttempt n)).
Proof.
  intros Hok [Hk (v & b & Hv & Hb & Hid)]. rewrite lookup_after in Hv.
  destruct (OMap.get r writes) as [p|] eqn:E; cycle 1.
  { left. split; [done|]. exists v, b. done. }
  injection Hv as <-. cbn [data] in Hb. apply get_writes in E as [[-> _]|Hin]; [done|].
  destruct (abs d !! r) as [w|] eqn:Ew; cycle 1.
  { right. split_and!; try done; [by eauto|..]; by eapply (st_attempt _ _ _ _ Hstaged). }
  left. split; [done|]. destruct (st_change _ _ _ _ Hstaged _ _ Hin) as [Hl _]. specialize (Hl w Ew).
  unfold data_life in Hl. rewrite decide_False in Hl by (intros ->; done).
  rewrite decide_True in Hl by (rewrite Hk; apply (bool_decide_unpack _); exact I).
  destruct (Hok r w Ew) as [Hp _]. destruct Hp as [jw Hjw]; [rewrite Hk; apply (bool_decide_unpack _); exact I|].
  destruct (Hl jw Hjw) as (jb & Hjb & Hlf). assert (jb = b) as -> by congruence.
  rewrite Hk in Hlf. unfold life in Hlf. simpl in Hlf. destruct Hlf as (Hs & _).
  exists w, jw. split_and!; [done|done|]. unfold attempt_id_of, attempt_of in *.
  rewrite (Hs "attempt"%string); [done|]. by right; right; left.
Qed.

(** A receipt that is there stays. *)
Lemma receipt_after (r : ref) : (forall r v, abs d !! r = Some v -> record_ok r v) -> r.1 = "outbox"%string -> receipt_in (abs d !! r) ->
  receipt_in (abs (put_all ns prepared d) !! r).
Proof.
  intros Hok Hk (v & b & Hv & Hb & Ht). pose proof (evolves_after r) as He. rewrite Hv in He.
  destruct (abs (put_all ns prepared d) !! r) as [w|] eqn:Ew; [|done]. destruct He as [<-|[_ Hl]]; [by exists v, b|].
  unfold data_life in Hl. rewrite decide_False in Hl by (intros ->; done).
  rewrite decide_True in Hl by (rewrite Hk; apply (bool_decide_unpack _); exact I).
  destruct (Hl b Hb) as (b' & Hb' & Hlf). exists w, b'. split_and!; [done|done|].
  rewrite Hk in Hlf. unfold life in Hlf. simpl in Hlf. destruct Hlf as (_ & Hf & _). by rewrite Hf.
Qed.

Lemma accepted_after : (forall r v, abs d !! r = Some v -> record_ok r v) -> accepted_ok (abs d) -> accepted_ok (abs (put_all ns prepared d)).
Proof.
  intros Hok Hacc r v l Hk Hv Hl Ha. rewrite lookup_after in Hv. destruct (OMap.get r writes) as [p|] eqn:E.
  - injection Hv as <-. cbn [data] in Hl. apply get_writes in E as [[-> _]|Hin]; [done|].
    destruct (st_accepted _ _ _ _ Hstaged r p l Hin Hk Hl Ha) as (po & o & Hpo & Ho & Ht).
    eexists _, o. rewrite lookup_after. rewrite (OMap.elem_get _ po); [split_and!; [done|exact Ho|exact Ht]|apply writes_nodup|].
    unfold writes. apply elem_of_app. by left.
  - apply receipt_after; [done|done|]. by eapply Hacc.
Qed.

Lemma attempts_after : (forall r v, abs d !! r = Some v -> record_ok r v) ->
  attempts_ok (abs d) c0 -> attempts_ok (abs (put_all ns prepared d)) c.
Proof.
  intros Hok (Hle & Huniq & Hacc). destruct authority_life as [_ Hlex].
  destruct Hauth as (_ & _ & Ee & _ & En & _). split_and!.
  - intros r e n [Hat|(_ & _ & _ & -> & -> & Hu)]%attempt_after; [|..|done].
    + destruct (Hle r e n Hat); lia.
    + rewrite Ee, En, Hu. simpl. lia.
  - intros r1 r2 e n Ha1 Ha2. apply attempt_after in Ha1; [|done]. apply attempt_after in Ha2; [|done].
    destruct Ha1 as [Ha1|(N1 & [p1 I1] & K1 & E1 & F1 & _)], Ha2 as [Ha2|(N2 & [p2 I2] & K2 & E2 & F2 & _)].
    + eauto.
    + apply Hle in Ha1. lia.
    + apply Hle in Ha2. lia.
    + by eapply (st_single _ _ _ _ Hstaged).
  - by apply accepted_after.
Qed.

Lemma created_after : created_unblocked (abs d) (abs (put_all ns prepared d)).
Proof.
  intros r Hk Hn [v Hv]. rewrite lookup_after in Hv. destruct (OMap.get r writes) as [p|] eqn:E; [|by rewrite Hn in Hv].
  apply get_writes in E as [[-> _]|Hin].
  - exfalso. revert Hk. apply (bool_decide_unpack _). exact I.
  - exists c0. split; [done|]. by eapply (st_created _ _ _ _ Hstaged).
Qed.

Lemma commit_effect : Inv (put_all ns prepared d) /\ Guar d (put_all ns prepared d).
Proof.
  destruct Hinv as [Hdec [He|(c0' & Hc & Hcnt & _ & Hatt & Hkey & Hok)]].
  { exfalso. destruct Hctl as [rev Hc]. rewrite He in Hc. by rewrite lookup_empty in Hc. }
  assert (c0' = c0) as -> by (by eapply control_at_inj). split; [split|].
  - by eapply decodable_commit; [..|apply writes_nodup|].
  - right. exists c. split_and!; [apply control_after|by apply counted_after|done|by apply attempts_after| |by apply records_after].
    rewrite (proj1 authority_life). done.
  - split; [by intros key|]. right. split; [done|]. split; [apply evolves_after|apply created_after].
Qed.
End effect.

(** ** Reading is a snapshot of one instant *)

Lemma rely_stable d1 : stable Inv Guar (fun d => rely Inv Guar d1 d).
Proof. intros d d' Hr HI HI' HG. eapply rtc_r; [exact Hr|]. auto. Qed.

Lemma decode_safe d1 d r : Inv d1 -> rely Inv Guar d1 d ->
  safe Inv Guar (decode ns r (records_of ns d1 !! r)) (fun x _ => forall v, x = Ok v -> v = rec_in d1 r) d.
Proof.
  intros [Hdec _] Hrely. unfold decode, rec_in. rewrite lookup_abs.
  destruct (records_of ns d1 !! r) as [raw|] eqn:Er; [|intros v [= <-]; done].
  destruct (Hdec r raw Er) as (_ & key & p & Hk & Hp). apply safe_pure. unfold version.
  destruct (_ && _); [|done]. apply safe_settle. unfold unseal. apply safe_bind.
  eapply safe_mono; [|eapply (safe_frame _ (fun d => rely Inv Guar d1 d)); [apply rely_stable|exact Hrely|apply wrappingKey_safe]].
  intros [key'|e] d' [Hkey Hr']; [|done]. specialize (Hkey key' eq_refl).
  apply Guar_rely in Hr' as [Hkept _]. specialize (Hkept key Hk). assert (key' = key) as -> by congruence.
  unfold plain_of in Hp. rewrite Hp. intros v [= <-]. unfold rec_of_raw, plain_of. rewrite Hk. simpl. by rewrite Hp.
Qed.

Lemma decode_all_safe d1 refs acc t d : Inv d1 -> rely Inv Guar d1 d ->
  OMap.wf acc -> (forall r v, OMap.get r acc = Some v -> v = rec_in d1 r) ->
  safe Inv Guar (decode_all ns acc t (map (fun r => (r, records_of ns d1 !! r)) refs))
    (fun x d' => rely Inv Guar d1 d' /\ forall l, x = Ok l ->
       OMap.wf l /\ (forall r v, OMap.get r l = Some v -> v = rec_in d1 r) /\
       (forall r, is_Some (OMap.get r acc) \/ r ∈ refs -> is_Some (OMap.get r l))) d.
Proof.
  intros HI. revert acc t d. induction refs as [|r refs IH]; intros acc t d Hr Hwf Hacc; cbn [map decode_all].
  { split; [done|]. intros l [= <-]. split_and!; [done|done|]. intros r [?|Hin]; [done|]. by apply elem_of_nil in Hin. }
  apply safe_bind. eapply safe_mono;
    [|eapply (safe_frame _ (fun d => rely Inv Guar d1 d)); [apply rely_stable|exact Hr|by apply decode_safe]].
  intros [v|e] d' [Hv Hr']; [|by split]. specialize (Hv v eq_refl). destruct (_ <? _); [by split|].
  eapply safe_mono; [|apply IH].
  - intros x d2 [Hd2 Hx]. split; [done|]. intros l Hl. destruct (Hx l Hl) as (W & G & C). split_and!; [done|done|].
    intros r' [Hs|[->|Hin]%elem_of_cons]; apply C; [|left|by right].
    + left. rewrite OMap.get_set. case_decide; [by eexists|done].
    + rewrite OMap.get_set_eq. by eexists.
  - done.
  - by auto with omap.
  - intros r' v'. rewrite OMap.get_set. case_decide; [|apply Hacc]. intros [= <-]. by subst.
Qed.

(** [s] is the state of its references at one instant between [d] and [d']. *)
Definition read_at (s : snapshot) (refs : list ref) (d1 : database) : Prop :=
  Inv d1 /\ s_names s = ns /\ OMap.wf (s_records s) /\ s_fence s = current d1 /\ agrees s d1 /\
  (forall r, r ∈ ctl :: refs -> is_Some (get_rec r s)).

Lemma read_at_snap s refs d1 d : read_at s refs d1 -> rely Inv Guar d1 d -> snap_ok s d.
Proof.
  intros (HI & Hn & Hwf & Hf & Ha & _) Hr. eapply stable_rely; [apply snap_ok_stable|exact Hr|].
  split_and!; [done|done|rewrite Hf; lia|]. intros _ r v Hv. rewrite (Ha r v Hv). done.
Qed.

Lemma read_safe refs d :
  safe Inv Guar (read ns refs) (fun x d' => forall s, x = Ok s ->
    exists d1, rely Inv Guar d d1 /\ read_at s refs d1 /\ rely Inv Guar d1 d') d.
Proof.
  unfold read. apply safe_pure. destruct (validateRefs refs); [|done].
  apply safe_bind, view_safe. intros d1 Hr1 HI1. destruct (active (current d1)); [|done].
  apply safe_bind. eapply safe_mono; [|apply (decode_all_safe d1 (ctl :: refs)); [done|apply rtc_refl|constructor|done]].
  intros [l|e] d2 [Hr2 Hl]; [|done]. destruct (Hl l eq_refl) as (Hwf & Hg & Hc). destruct (exists_ _); [|done].
  intros s [= <-]. exists d1. split; [done|]. split; [|done].
  split; [done|]. split; [done|]. split; [exact Hwf|]. split; [done|]. split; [exact Hg|].
  intros r Hin. apply Hc. by right.
Qed.

Lemma extended_safe s refs d : 
  safe Inv Guar (extended ns s refs) (fun x d' => forall fresh, x = Ok fresh ->
    snap_ok fresh d' /\ generation (s_fence fresh) = generation (s_fence s)) d.
Proof.
  unfold extended. apply safe_pure. destruct (validate ns s); [|done]. apply safe_bind.
  eapply safe_mono; [|apply read_safe]. intros [fresh|e] d' Hread; [|done].
  destruct (Hread fresh eq_refl) as (d1 & _ & Hat & Hr). destruct (Z.eqb_spec (generation (s_fence fresh)) (generation (s_fence s))); [|done].
  intros f [= <-]. split; [|done]. by eapply read_at_snap.
Qed.

(** ** A commit is safe *)

Lemma control_in_at s d c : decodable d -> meaning_ok (abs d) -> agrees s d -> control_in s = Ok c -> control_at (abs d) c.
Proof.
  intros Hdec Hm Ha. unfold control_in, require. destruct (get_rec ctl s) as [v|] eqn:Eg; [|done]. cbn [rbind].
  pose proof (agrees_abs s d ctl v Hdec Ha Eg) as Hab. unfold json_. intros Hc.
  destruct (parse (data v)) as [j|] eqn:Ep; [|done]. cbn [rbind] in Hc.
  destruct (exists_ v) eqn:Ee; cycle 1.
  { rewrite (Ha ctl v Eg) in Ep. unfold rec_in in Ep. rewrite Hab in Ep. done. }
  destruct Hm as [He|(c' & [rev Hc'] & _)]; [rewrite He in Hab; by rewrite lookup_empty in Hab|].
  rewrite Hab in Hc'. injection Hc' as ->. cbn [data] in Ep. unfold bytes in Ep. rewrite parse_stringify in Ep.
  injection Ep as <-. rewrite control_roundtrip_ in Hc. injection Hc as <-. by exists rev.
Qed.

Lemma commit_tx_agrees s d : snap_ok s d -> generation (current d) = generation (s_fence s) ->
  forallb (fun kv => revision_in ns d kv.1 =? revision kv.2) (s_records s) = true -> agrees s d.
Proof.
  intros (_ & _ & _ & Hs) Hg Hall r v Hv. rewrite forallb_forall in Hall.
  apply (Hs (eq_sym Hg) r v Hv). apply OMap.get_elem, list_elem_of_In in Hv.
  apply Hall in Hv. cbn [fst snd] in Hv. apply Z.eqb_eq in Hv. rewrite <- Hv.
  unfold revision_in, rec_in. rewrite lookup_abs. by destruct (records_of ns d !! r).
Qed.

(** What a successful commit has done: at one instant, in the generation of the
    snapshot and with every record of the snapshot current, all its writes took
    effect together. *)
Definition committed (s : snapshot) (changes : list (ref * list Z)) (u : option authority_update) (d' : database) : Prop :=
  exists d1, Inv d1 /\ current d' = current d1 /\ generation (current d1) = generation (s_fence s) /\ active (current d1) = true /\ agrees s d1 /\
  match changes, u with
  | [], None => abs d' = abs d1
  | _, _ => exists c0 c, control_in s = Ok c0 /\ same_authority (updated c0 u) c /\
      abs d' = apply_recs (news d1 (changes ++ [(ctl, bytes (control_json c))])) (abs d1)
  end.

Lemma commit_correct s changes u d : snap_ok s d ->
  (forall d' c, rely Inv Guar d d' -> Inv d' -> generation (current d') = generation (s_fence s) -> agrees s d' ->
     control_in s = Ok c -> control_at (abs d') c -> staged d' c changes u) ->
  safe Inv Guar (commit ns s changes u) (fun r d' => r = Ok tt -> committed s changes u d') d.
Proof.
  intros Hsnap Hst. unfold commit. apply safe_pure. destruct (validate ns s); [|done].
  apply safe_pure. destruct (control_in s) as [c0|] eqn:Ec; [|done].
  fold (updated c0 u). apply safe_pure. destruct (account_changes _ _ _ _) as [[c t]|] eqn:Ea; [|done].
  destruct ((t <=? _) && _ && _ && _) eqn:El; [|done].
  rewrite !andb_true_iff, !Z.leb_le in El. destruct El as [[[_ L1] L2] L3].
  set (writes := if match changes, u with [], None => true | _, _ => false end then [] else _).
  apply safe_bind. eapply safe_mono;
    [|eapply (safe_frame _ (fun d' => rely Inv Guar d d' /\ snap_ok s d'));
      [|split; [apply rtc_refl|exact Hsnap]|apply encode_all_safe]].
  2: { intros d1 d2 [Hr1 Hs1] HI1 HI2 HG. split; [by eapply rely_stable|by eapply snap_ok_stable]. }
  intros [prepared|e] d1 [Hprep [Hr1 Hs1]]; [|done]. specialize (Hprep prepared eq_refl).
  intros d2 Hr2 HI2. assert (Hs2 : snap_ok s d2) by (eapply stable_rely; [apply snap_ok_stable|exact Hr2|done]).
  unfold commit_tx. destruct (negb (active _) || negb (_ =? _)) eqn:Ef; [split_and!; [done|apply Guar_refl|done]|].
  destruct (forallb _ _) eqn:Eall; [|split_and!; [done|apply Guar_refl|done]]. cbn [fst snd].
  apply orb_false_iff in Ef as [Hact Hg]. apply negb_false_iff in Hact. apply negb_false_iff, Z.eqb_eq in Hg.
  pose proof (commit_tx_agrees s d2 Hs2 Hg Eall) as Hag.
  destruct HI2 as [Hdec Hm]. pose proof (control_in_at s d2 c0 Hdec Hm Hag Ec) as Hctl.
  assert (Hstg : staged d2 c0 changes u) by (apply Hst; [by etrans|by split|done|done|done|done]).
  assert (Hp2 : prepared_ok s writes prepared d2).
  { eapply Forall2_impl; [exact Hprep|]. intros w p [E (old & Ho & He)]. split; [done|]. exists old. split; [done|].
    eapply stable_rely; [apply encoded_stable|exact Hr2|done]. }
  destruct (account_changes_spec d2 s _ _ changes c t Hdec Hag (st_change _ _ _ _ Hstg) Ea) as (A1 & A2 & A3 & A4 & A5).
  destruct (match changes, u with [], None => true | _, _ => false end) eqn:Ew.
  - assert (prepared = []) as ->. { subst writes. by inversion Hp2. }
    destruct changes; [|done]. destruct u; [done|].
    assert (Habs : abs (put_all ns [] d2) = abs d2) by (by rewrite abs_put_all).
    split_and!; [|split; [by intros key|]; right; rewrite Habs; split_and!|intros _; exists d2; split_and!; try done; by split].
    + split; [|by rewrite Habs]. intros r raw. rewrite records_put_all. apply Hdec.
    + done.
    + intros r. apply evolves_refl.
    + intros r _ Hn [v Hv]. congruence.
  - destruct (commit_effect d2 s changes u c0 c prepared) as [E1 E2]; try done.
    split_and!; [done|done|]. intros _. exists d2.
    split; [by split|]. split; [done|]. split; [done|]. split; [done|]. split; [done|].
    pose proof (abs_commit s d2 writes prepared Hag Hp2) as Hab. subst writes.
    destruct changes, u; try done; exists c0, c; done.
Qed.

Lemma commit_safe s changes u d : snap_ok s d ->
  (forall d' c, rely Inv Guar d d' -> Inv d' -> generation (current d') = generation (s_fence s) -> agrees s d' ->
     control_in s = Ok c -> control_at (abs d') c -> staged d' c changes u) ->
  safe Inv Guar (commit ns s changes u) (fun _ _ => True) d.
Proof. intros Hs Hst. eapply safe_mono; [|by apply commit_correct]. done. Qed.


End commit.
