(* ===== verification/RatchetSafety.v ===== *)
(** * Safety of the ratchet store's operations

    Every operation of [RatchetStore], run by any number of tabs whose
    transactions interleave in any order, keeps the quotas of the control
    record exact and lets every record change only the way its kind allows.
    [staged] is proved for the changes of each operation; [commit_safe] does
    the rest. *)

From stdpp Require Import base gmap list strings sorting.
From Stdlib Require Import ZArith Lia.
From S2P Require Import Prelude Json Text OlmAdmission OlmReset Db RatchetStore RatchetCommit.

Section safety.
Context `{Cipher}.
Variable sha256 : list Z -> list Z.
Variable cv : curves.
Variable ns : names.

#[local] Abbreviation abs := (abs ns).
#[local] Abbreviation Inv := (Inv ns).
#[local] Abbreviation Guar := (Guar ns).
#[local] Abbreviation agrees := (agrees ns).
#[local] Abbreviation snap_ok := (snap_ok ns).
#[local] Abbreviation staged := (staged ns).
#[local] Abbreviation change_ok := (change_ok ns).
#[local] Notation Safe p d := (safe Inv Guar p (fun _ _ => True) d) (only parsing).

(** ** Building the changes of an operation *)

Lemma compare_agrees s fresh d : compare s fresh = Ok tt -> snap_ok s d ->
  generation (current d) = generation (s_fence s) -> agrees fresh d -> agrees s d.
Proof.
  unfold compare. destruct (forallb _ _) eqn:E; [|done]. intros _ (_ & _ & _ & Hs) Hg Hf r v Hv.
  apply (Hs (eq_sym Hg) r v Hv). rewrite forallb_forall in E.
  apply OMap.get_elem, list_elem_of_In, E in Hv. cbn [fst snd] in Hv.
  destruct (get_rec r fresh) as [w|] eqn:Ew; [|done]. apply Z.eqb_eq in Hv. by rewrite <- Hv, (Hf r w Ew).
Qed.

Lemma staged_nil d c u : update_ok c u -> staged d c [] u.
Proof. intros Hu. split; try done; [constructor|..]; intros; by match goal with Hin : _ ∈ [] |- _ => apply elem_of_nil in Hin end. Qed.

(** Writes that create no send. *)
Lemma staged_set d c changes u (r : ref) plain : staged d c changes u -> change_ok d r plain ->
  (r.1 ∈ sending_kinds -> abs d !! r = None -> sendingBlocked c = false) ->
  (r.1 = "outbox"%string -> is_Some (abs d !! r)) ->
  (r.1 = "outbox"%string -> changes = []) ->
  (r.1 = "logical"%string -> forall l, parse plain = Some l -> accepted l = true ->
     exists po o, (attempt_ref l, po) ∈ changes /\ parse po = Some o /\ truthy (field "receipt" o) = true) ->
  staged d c (OMap.set r plain changes) u.
Proof.
  intros Hst Hc Hsend Hout Hno Hacc. destruct Hst as [S1 S2 S3 S4 S5 S6 S7]. split.
  - apply (OMap.wf_set r _ changes), S1.
  - intros r' p [[-> ->]|Hin]%OMap.elem_set; [done|by apply S2].
  - done.
  - intros r' p [[-> ->]|Hin]%OMap.elem_set; [done|by eapply S4].
  - intros r' p b e n [[-> ->]|Hin]%OMap.elem_set; [|by eapply S5].
    intros Hk Hn. destruct (Hout Hk) as [? Hs]. by rewrite Hn in Hs.
  - intros r1 p1 r2 p2 [[-> ->]|Hin1]%OMap.elem_set [[-> ->]|Hin2]%OMap.elem_set; [done| | |by eapply S6].
    + intros Hk _ Hn. destruct (Hout Hk) as [? Hs]. by rewrite Hn in Hs.
    + intros _ Hk _ Hn. destruct (Hout Hk) as [? Hs]. by rewrite Hn in Hs.
  - assert (Hmore : forall l po, (attempt_ref l, po) ∈ changes -> (attempt_ref l, po) ∈ OMap.set r plain changes).
    { intros l po Hin. apply OMap.elem_set_ne; [|done]. intros <-. rewrite Hno in Hin by done. by apply elem_of_nil in Hin. }
    intros r' p l [[-> ->]|Hin]%OMap.elem_set Hk Hl Ha.
    + destruct (Hacc Hk l Hl Ha) as (po & o & Hpo & Ho). exists po, o. auto.
    + destruct (S7 r' p l Hin Hk Hl Ha) as (po & o & Hpo & Ho). exists po, o. auto.
Qed.

(** The record of a new send, the only one among the changes. *)
Lemma staged_send d c changes u (r : ref) b : staged d c changes u -> (forall (r' : ref) p, (r', p) ∈ changes -> r'.1 <> "outbox"%string) ->
  r.1 = "outbox"%string -> abs d !! r = None -> sendingBlocked c = false ->
  (forall e n, attempt_id_of b = Some (e, n) -> e = accountEpoch c /\ n = nextAttempt c + 1 /\ u = Some (SetNextAttempt n)) ->
  staged d c (OMap.set r (bytes b) changes) u.
Proof.
  intros [S1 S2 S3 S4 S5 S6 S7] Hno Hk Hn Hsend Hatt. split.
  - apply (OMap.wf_set r _ changes), S1.
  - intros r' p [[-> ->]|Hin]%OMap.elem_set; [|by apply S2]. split; [congruence|].
    split; [intros _; cbn [data]; unfold bytes; rewrite parse_stringify; by eexists|]. intros Hk'. congruence.
  - done.
  - intros r' p [[-> ->]|Hin]%OMap.elem_set; [done|by eapply S4].
  - intros r' p b' e n [[-> ->]|Hin]%OMap.elem_set; [|by eapply S5].
    intros _ _ Hp Hid. unfold bytes in Hp. rewrite parse_stringify in Hp. injection Hp as <-. auto.
  - intros r1 p1 r2 p2 [[-> ->]|Hin1]%OMap.elem_set [[-> ->]|Hin2]%OMap.elem_set Hk1 Hk2; [done|..].
    + by apply Hno in Hin2.
    + by apply Hno in Hin1.
    + by apply Hno in Hin1.
  - intros r' p l [[-> _]|Hin]%OMap.elem_set Hk' Hl Ha; [congruence|].
    destruct (S7 r' p l Hin Hk' Hl Ha) as (po & o & Hpo & _). by apply Hno in Hpo.
Qed.

(** *** One record *)

(** A record whose kind has no life of its own. *)
Lemma change_free d (r : ref) plain : r.1 ∉ json_kinds -> r <> ctl -> change_ok d r plain.
Proof.
  intros Hk Hc. split.
  - intros v _. unfold data_life. by rewrite decide_False, decide_False by done.
  - split; [done|]. intros Ht. exfalso. apply Hk. rewrite Ht. apply (bool_decide_unpack _). exact I.
Qed.

(** A JSON record: new, or with a life that continues the old value. *)
Lemma change_json d s (r : ref) v new : decodable ns d -> agrees s d -> get_rec r s = Some v -> r <> ctl ->
  (exists_ v = true -> exists old, parse (data v) = Some old /\ life r.1 old new) ->
  (r.1 = "transition"%string -> transition_ok new) -> change_ok d r (bytes new).
Proof.
  intros Hdec Ha Hg Hc Hlife Ht. split; [|split].
  - intros w Hw. rewrite (agrees_abs ns s d r v Hdec Ha Hg) in Hw. destruct (exists_ v) eqn:Ev; [|done].
    injection Hw as <-. unfold data_life. rewrite decide_False by done. case_decide; [|done].
    intros ja Hja. exists new. split; [apply parse_stringify|]. destruct (Hlife eq_refl) as (old & Ho & Hl).
    by assert (ja = old) as -> by congruence.
  - intros _. cbn [data]. unfold bytes. rewrite parse_stringify. by eexists.
  - cbn [data]. unfold bytes. rewrite parse_stringify. intros Hk t [= <-]. auto.
Qed.

Lemma present_None v : present v = None -> truthy v = false.
Proof. unfold present. destruct (truthy v) eqn:E; [|done]. intros ->. done. Qed.

Lemma stored_ok r v : stored v = Ok r ->
  match r with Some j => exists_ v = true /\ parse (data v) = Some j | None => exists_ v = false end.
Proof.
  unfold stored, json_. destruct (exists_ v); [|by intros [= <-]]. destruct (parse (data v)); [|done].
  intros [= <-]. done.
Qed.

Lemma json_ok_ v j : json_ v = Ok j -> parse v = Some j.
Proof. unfold json_. destruct (parse v); congruence. Qed.

Lemma require_ok s r v : require s r = Ok v -> get_rec r s = Some v.
Proof. unfold require. destruct (get_rec r s); congruence. Qed.

Lemma abs_absent s d (r : ref) v : decodable ns d -> agrees s d -> get_rec r s = Some v -> exists_ v = false -> abs d !! r = None.
Proof. intros Hdec Ha Hg He. rewrite (agrees_abs ns s d r v Hdec Ha Hg). by rewrite He. Qed.

Lemma abs_present s d (r : ref) v : decodable ns d -> agrees s d -> get_rec r s = Some v -> exists_ v = true -> abs d !! r = Some v.
Proof. intros Hdec Ha Hg He. rewrite (agrees_abs ns s d r v Hdec Ha Hg). by rewrite He. Qed.

Lemma same_text_eq a b : same_text a b = true -> a = b.
Proof.
  unfold same_text. rewrite bool_decide_eq_true. destruct a, b; simpl; try done. intros [= E]. f_equal. by apply stringify_inj.
Qed.

Lemma session_value_ok now d s (r : ref) st ctx recv cl value : decodable ns d -> agrees s d -> r.1 = "session"%string ->
  sessionValue now s r st ctx recv cl = Ok value -> change_ok d r value.
Proof.
  intros Hdec Ha Hk. unfold sessionValue. destruct (_ && _ && _); [|done].
  rewrite rbind_Ok. intros (old & Hold%require_ok & Hrest). rewrite rbind_Ok in Hrest.
  destruct Hrest as (previous & Hprev%stored_ok & Hrest). destruct (negb _ || recv) eqn:Er; [|done].
  destruct (match previous with Some _ => _ | None => _ end) eqn:Ec; [|done].
  rewrite rbind_Ok in Hrest. destruct Hrest as (pending & Hpend & [= <-]).
  eapply change_json; [done|done|exact Hold|by intros ->| |by rewrite Hk].
  intros Hex. destruct previous as [p|]; [|by rewrite Hprev in Hex]. destruct Hprev as [_ Hp].
  exists p. split; [done|]. rewrite Hk. unfold life. simpl decide. unfold same_fields, sticky.
  rewrite !field_obj by reflexivity. simpl OMap.get. cbn iota.
  apply same_text_eq in Ec. split_and!.
  - intros k ->%list_elem_of_singleton. by rewrite field_obj.
  - unfold present. cbn [field_of]. intros Ht. rewrite Ht. by destruct (field "retired" p).
  - unfold next_pending in Hpend. destruct (_ || _ || _); [|done]. destruct (match cl with Some _ => _ | None => _ end); [|done].
    injection Hpend as <-. destruct recv; [done|]. unfold present. by destruct (truthy (field "pending" p)).
Qed.

(** ** Proof steps of an operation *)

Lemma safe_ret {A B} (p : prog A) (k : A -> prog B) d :
  (forall a, exists r, k a = Ret r) -> Safe p d -> Safe (pbind p k) d.
Proof.
  intros Hk Hp. apply safe_bind. eapply safe_mono; [|exact Hp]. intros [a|e] d' _; [|done].
  destruct (Hk a) as [r ->]. done.
Qed.

Lemma extended_then {A} s refs (k : snapshot -> prog A) d : snap_ok s d ->
  (forall fresh d1, snap_ok s d1 -> snap_ok fresh d1 -> generation (s_fence fresh) = generation (s_fence s) -> Safe (k fresh) d1) ->
  Safe (pbind (extended ns s refs) k) d.
Proof.
  intros Hs Hk. apply safe_bind. eapply safe_mono;
    [|eapply (safe_frame ns _ (fun d' => snap_ok s d')); [apply snap_ok_stable|exact Hs|apply extended_safe]].
  intros [fresh|e] d1 [Hf Hs1]; [|done]. destruct (Hf fresh eq_refl). auto.
Qed.

(** The snapshot an operation was given agrees too, once compared. *)
Lemma compared s fresh u d d' : snap_ok s d -> rely Inv Guar d d' -> compare s fresh = Ok u ->
  generation (s_fence fresh) = generation (s_fence s) -> generation (current d') = generation (s_fence fresh) ->
  agrees fresh d' -> agrees s d'.
Proof.
  intros Hs Hr Hc Hg Hg' Ha. destruct u. eapply compare_agrees; [done| |congruence|done].
  eapply stable_rely; [apply snap_ok_stable|exact Hr|done].
Qed.

(** A commit that only validates. *)
Lemma commit_nil_safe s u d : snap_ok s d -> (forall c, control_in s = Ok c -> update_ok c u) -> Safe (commit ns s [] u) d.
Proof. intros Hs Hu. apply commit_safe; [done|]. intros d' c _ _ _ _ Hc _. apply staged_nil. auto. Qed.

Ltac check E := lazymatch goal with |- safe _ _ (if ?b then _ else _) _ _ => destruct b eqn:E; [|exact I] end.
Tactic Notation "take" simple_intropattern(x) "as" ident(E) :=
  apply safe_pure; lazymatch goal with |- match ?m with Ok _ => _ | Err _ => _ end => destruct m as [x|] eqn:E; [|exact I] end.
Ltac validate_only := first [apply commit_nil_safe; [assumption|done]
  |apply safe_ret; [by eauto|apply commit_nil_safe; [assumption|done]]].

Ltac kinds_ok := first [done | other_kind | by (intros; congruence)].

Lemma validated_safe s refs d : snap_ok s d ->
  safe Inv Guar (validated ns s refs) (fun x d' => forall f, x = Ok f -> snap_ok f d') d.
Proof.
  unfold validated. generalize 16%nat as rounds. intros rounds Hs. revert d Hs.
  induction rounds as [|rounds IH]; intros d Hs; cbn [validated_rounds]; apply safe_bind;
    (eapply safe_mono; [|eapply (safe_frame ns _ (fun d' => snap_ok s d')); [apply snap_ok_stable|exact Hs|apply extended_safe]]);
    (intros [fresh|e] d1 [Hf Hs1]; [|done]); destruct (Hf fresh eq_refl) as [Hfr _]; apply safe_settle;
    (eapply safe_mono; [|eapply (safe_frame ns _ (fun d' => snap_ok s d' /\ snap_ok fresh d'));
       [|split; [exact Hs1|exact Hfr]|apply commit_nil_safe; [done|by intros]]]).
  2, 4: intros d2 d3 [? ?] ? ? ?; split; by eapply snap_ok_stable.
  - intros [[]|e] d2 [_ [_ Hf2]]; [|done]. intros f [= <-]. done.
  - intros [[]|e] d2 [_ [Hs2 Hf2]]; [intros f [= <-]; done|]. destruct (is_conflict e); [|done]. by apply IH.
Qed.

(** ** Trust, acknowledgement, claims *)

Lemma setTrust_safe s id value revoked d : snap_ok s d -> Safe (setTrust ns s id value revoked) d.
Proof.
  intros Hs. unfold setTrust. take old as Eo. take previous as Ep. check Er. apply require_ok in Eo. apply stored_ok in Ep.
  apply commit_safe; [done|]. intros d' c _ [Hdec _] _ Ha _ _. apply (staged_set d' c []); [by apply staged_nil| |kinds_ok..].
  eapply change_json; [done|done|exact Eo|done| |done]. intros Hex.
  destruct previous as [p|]; [|congruence]. destruct Ep as [_ Hp]. exists p. split; [done|].
  unfold life. simpl decide. unfold sticky. cbn [field_of] in Er. intros Ht. rewrite Ht in Er. simpl in Er. rewrite Er. reflexivity.
Qed.

Lemma ack_safe s id d : snap_ok s d -> Safe (ack ns s id) d.
Proof.
  intros Hs. unfold ack. take old as Eo. check Ee. take b as Eb. check Ea. destruct (is_text _ _); [validate_only|].
  apply require_ok in Eo. apply json_ok_ in Eb.
  apply commit_safe; [done|]. intros d' c _ [Hdec _] _ Hag _ _.
  pose proof (abs_present s d' _ old Hdec Hag Eo Ee) as Hpr.
  apply (staged_set d' c []); [by apply staged_nil| |by rewrite Hpr|by rewrite Hpr|done|done].
  eapply change_json; [done|done|exact Eo|done| |done]. intros _. exists b. split; [done|].
  unfold life. simpl decide. unfold same_fields, final. split_and!.
  - intros k Hk. rewrite field_jset_ne; [done|]. intros ->. revert Hk. other_kind.
  - intros _. by autorewrite with fields.
  - apply negb_true_iff in Ea. congruence.
Qed.

Lemma reserveClaim_safe s id tid request d : snap_ok s d -> Safe (reserveClaim ns s id tid request) d.
Proof.
  intros Hs. unfold reserveClaim. check E1. check E2. apply extended_then; [done|]. intros fresh d1 Hs1 Hf1 Hg.
  take c as Ec. check Eb. take rev as Er. take old as Eo. apply require_ok in Eo. destruct (exists_ old) eqn:Ee.
  { take saved as Esv. check E3. check E4. validate_only. }
  take u as Ecmp. apply safe_ret; [by eauto|]. apply commit_safe; [done|].
  intros d' c' _ [Hdec _] _ Ha Hc _. assert (c' = c) as -> by congruence.
  apply negb_true_iff in Eb. apply (staged_set d' c []); [by apply staged_nil| |kinds_ok..].
  eapply change_json; [done|done|exact Eo|done| |done]. congruence.
Qed.

(** ** Sending *)

Definition no_send (changes : list (ref * list Z)) : Prop := forall (r : ref) p, (r, p) ∈ changes -> r.1 <> "outbox"%string.

Lemma no_send_set changes (r : ref) p : no_send changes -> r.1 <> "outbox"%string -> no_send (OMap.set r p changes).
Proof. intros Hn Hk r' p' [[-> ->]|Hin]%OMap.elem_set; [done|by eapply Hn]. Qed.

(** Setting one member that is none of those that must stay. *)
Lemma same_fields_jset ks k x v : k ∉ ks -> same_fields ks v (jset k x v).
Proof. intros Hk k' Hin. rewrite field_jset_ne; [done|]. by intros ->. Qed.

Lemma retire_session_life v : life "session" v (jset "retired" (JBool true) v).
Proof.
  unfold life. simpl decide. split_and!.
  - apply same_fields_jset. other_kind.
  - intros _. by rewrite field_jset_eq.
  - intros _. by autorewrite with fields.
Qed.

Lemma stage_packet_ok now d c s att changes u p changes' saved : decodable ns d -> agrees s d ->
  staged d c changes u -> no_send changes ->
  stage_packet now s att changes p = Ok (changes', saved) -> staged d c changes' u /\ no_send changes'.
Proof.
  intros Hdec Ha Hst Hns. unfold stage_packet. rewrite rbind_Ok. intros (old & Hold & Hrest).
  destruct (_ && _); [|done]. destruct (negb _); [|done].
  rewrite rbind_Ok in Hrest. destruct Hrest as (rev & _ & Hrest).
  rewrite rbind_Ok in Hrest. destruct Hrest as (value & Hv & Hrest).
  assert (Hst1 : staged d c (OMap.set ("session", sessionID p)%string value changes) u).
  { apply staged_set; [done|by eapply session_value_ok|kinds_ok..]. }
  assert (Hns1 : no_send (OMap.set ("session", sessionID p)%string value changes)) by (by apply no_send_set).
  destruct (nonempty_text (replaces p)) as [oid|]; [|by simplify_eq].
  rewrite rbind_Ok in Hrest. destruct Hrest as (rep & Hrep%require_ok & Hrest). destruct (_ && _ && _ && _); [|done].
  rewrite rbind_Ok in Hrest. destruct Hrest as (prev & Hp%json_ok_ & Hrest). destruct (_ && _); [|done].
  simplify_eq. split; [|by apply no_send_set]. apply staged_set; [done| |kinds_ok..].
  eapply change_json; [done|done|exact Hrep|done| |done]. intros _. exists prev. split; [done|]. apply retire_session_life.
Qed.

Lemma stage_packets_ok now d c s att u packets : forall changes changes' saved, decodable ns d -> agrees s d ->
  staged d c changes u -> no_send changes ->
  stage_packets now s att changes packets = Ok (changes', saved) -> staged d c changes' u /\ no_send changes'.
Proof.
  induction packets as [|p packets IH]; intros changes changes' saved Hdec Ha Hst Hns; cbn [stage_packets].
  { intros [= <- _]. done. }
  rewrite rbind_Ok. intros ([changes1 sv] & H1 & Hrest). rewrite rbind_Ok in Hrest.
  destruct Hrest as ([changes2 rest] & H2 & [= <- _]).
  destruct (stage_packet_ok _ _ _ _ _ _ _ _ _ _ Hdec Ha Hst Hns H1) as [Hst1 Hns1]. by eapply IH.
Qed.

Lemma sendAuthority_ok s ctxs att c : sendAuthority s ctxs att = Ok c -> control_in s = Ok c /\ sendingBlocked c = false /\
  (forall a, att = Some a -> field_of "account_epoch" (field "manifest" a) = Some (JNum (accountEpoch c))).
Proof.
  unfold sendAuthority. rewrite rbind_Ok. intros (c' & Hc & Hrest). destruct (_ && _ && _ && _ && _) eqn:E; [|done].
  destruct (forallb _ _); [|done]. simplify_eq. rewrite !andb_true_iff in E. destruct E as [[[[E _] _] _] Ea].
  apply negb_true_iff in E. split_and!; [done|done|]. intros a ->. by apply bool_decide_eq_true in Ea.
Qed.

(** The value of a new send: its attempt is the one that was passed. *)
Definition send_value (saved : list json) (archive : list Z) (a : option attempt) : json :=
  obj [("status", Some (JStr "pending")); ("packets", Some (JArr saved));
       ("archive", Some (json_of_bytes archive)); ("attempt", attempt_json <$> a)]%string.

Lemma send_value_attempt saved archive a e n : attempt_id_of (send_value saved archive a) = Some (e, n) ->
  exists a', a = Some a' /\ field "account_epoch" (manifest a') = Some (JNum e) /\
             attemptSequence (field "attempt_id" (manifest a')) = Ok n.
Proof.
  unfold attempt_id_of, attempt_of, send_value. rewrite field_obj by reflexivity. simpl OMap.get. cbn iota.
  destruct a as [a|]; [|done]. change (present (attempt_json <$> Some a)) with (Some (attempt_json a)).
  cbn [field_of]. change (field "manifest" (attempt_json a)) with (Some (manifest a)). intros Hid. exists a. split; [done|]. cbn iota in Hid.
  destruct (field "account_epoch" (manifest a)) as [[]|]; try done. destruct (attemptSequence _); [|done]. by simplify_eq.
Qed.

Lemma stage_attempt_ok d c s id a changes u : decodable ns d -> agrees s d -> control_in s = Ok c -> stage_attempt s id a = Ok (changes, u) ->
  staged d c changes (Some u) /\ no_send changes /\ u = SetNextAttempt (nextAttempt c + 1) /\
  attemptSequence (field "attempt_id" (manifest a)) = Ok (nextAttempt c + 1).
Proof.
  intros Hdec Ha Hc. unfold stage_attempt. rewrite Hc. cbn [rbind]. rewrite rbind_Ok. intros (seq & Hseq & Hrest).
  destruct (Z.eqb_spec seq (nextAttempt c + 1)) as [->|]; [|done].
  rewrite rbind_Ok in Hrest. destruct Hrest as (old & Hold%require_ok & Hrest). rewrite rbind_Ok in Hrest.
  destruct Hrest as (prev & Hprev%stored_ok & Hrest). destruct (match prev with Some _ => _ | None => _ end) eqn:Hst; [|done].
  injection Hrest as <- <-. split_and!; [|..|done|done].
  - set (lr := ("logical", str_of (field "logical_id" (manifest a)))%string).
    apply (staged_set d c []); [by apply staged_nil| |kinds_ok..|].
    + eapply (change_json d s lr); [done|done|exact Hold|done| |done]. intros Hex. destruct prev as [l|]; [|by rewrite Hprev in Hex].
      destruct Hprev as [_ Hp]. exists l. split; [done|]. unfold life. cbn. intros Hacc. unfold accepted, is_text in *.
      apply bool_decide_eq_true in Hacc. rewrite Hacc in Hst. done.
    + intros _ l. unfold bytes. rewrite parse_stringify. intros [= <-] Hacc. done.
  - intros r p [= -> ->]%list_elem_of_singleton. done.
Qed.

Lemma commitSend_safe s id packets archive a d : snap_ok s d -> Safe (commitSend sha256 ns s id packets archive a) d.
Proof.
  intros Hs. unfold commitSend. take u0 as E0. check E1. check E2. check E3.
  apply extended_then; [done|]. intros fresh d1 Hs1 Hf1 Hg. take old as Eo. apply require_ok in Eo.
  destruct (exists_ old) eqn:Ee.
  { take b as Eb. check Esame. take c as Eau. take t as Et. validate_only. }
  take u1 as Ecmp. take c as Eau. apply sendAuthority_ok in Eau as (Hc & Hblk & Hep).
  take [changes0 u] as Est. intros now. take [changes saved] as Epk. fold (send_value saved archive a).
  apply safe_ret; [by eauto|]. apply commit_safe; [done|].
  intros d' c' Hr [Hdec Hm] Hg' Ha Hc' Hat. assert (c' = c) as -> by congruence.
  assert (Hags : agrees s d') by (by eapply compared).
  assert (H0 : staged d' c changes0 u /\ no_send changes0 /\
    (forall a', a = Some a' -> u = Some (SetNextAttempt (nextAttempt c + 1)) /\
       attemptSequence (field "attempt_id" (manifest a')) = Ok (nextAttempt c + 1))).
  { destruct a as [a|].
    - rewrite rbind_Ok in Est. destruct Est as ([ch u'] & Est & [= <- <-]).
      destruct (stage_attempt_ok d' c fresh id a ch u' Hdec Ha Hc Est) as (S1 & S2 & -> & S3). split_and!; [done|done|].
      intros a' [= <-]. done.
    - injection Est as <- <-. split_and!; [by apply staged_nil| |done]. intros r p Hin. by apply elem_of_nil in Hin. }
  destruct H0 as (S1 & S2 & S3).
  destruct (stage_packets_ok _ _ _ _ _ _ _ _ _ _ Hdec Hags S1 S2 Epk) as [S4 S5].
  apply staged_send; [done|done|done|exact (abs_absent fresh d' _ old Hdec Ha Eo Ee)|done|].
  intros e n (a' & -> & Hae & Has)%send_value_attempt. destruct (S3 a' eq_refl) as [-> Hseq].
  specialize (Hep _ eq_refl). change (field "manifest" (attempt_json a')) with (Some (manifest a')) in Hep.
  cbn [field_of] in Hep. rewrite Hae in Hep. rewrite Has in Hseq. simplify_eq. done.
Qed.

Lemma commitAttempt_safe s m ps packets archive d : snap_ok s d -> Safe (commitAttempt sha256 ns s m ps packets archive) d.
Proof. apply commitSend_safe. Qed.

Lemma retrySend_safe s id d : snap_ok s d -> Safe (retrySend ns s id) d.
Proof.
  unfold retrySend. generalize 16%nat as rounds. intros rounds. revert s d. induction rounds as [|rounds IH]; intros s d Hs;
    cbn [retry_rounds]; (apply extended_then; [done|]); intros fresh d1 Hs1 Hf1 _; take old as Eo; check Ee; take saved as Esv;
    (apply extended_then; [done|]); intros checked d2 _ Hc2 _.
  - destruct (is_ok _); [|done]. take c as Eau. check E1. take t as Et. apply safe_settle.
    eapply safe_mono; [|apply commit_nil_safe; [exact Hc2|done]]. intros [w|e] d3 _; [done|]. by destruct (is_conflict e).
  - destruct (is_ok _); [|by apply IH]. take c as Eau. check E1. take t as Et. apply safe_settle.
    eapply safe_mono; [|eapply (safe_frame ns _ (fun d' => snap_ok checked d'));
      [apply snap_ok_stable|exact Hc2|apply commit_nil_safe; [exact Hc2|done]]].
    intros [w|e] d3 [_ Hc3]; [done|]. destruct (is_conflict e); [by apply IH|done].
Qed.

Lemma attemptWire_safe s id d : snap_ok s d -> Safe (attemptWire ns s id) d.
Proof.
  intros Hs. unfold attemptWire. apply safe_bind. eapply safe_mono; [|by apply retrySend_safe].
  intros [saved|e] d' _; [|done]. take b as Eb. check E. take ps as Eps. done.
Qed.

(** ** Receiving and publishing *)

(** A record that is not there yet may hold any value. *)
Lemma change_new d s (r : ref) v new : decodable ns d -> agrees s d -> get_rec r s = Some v -> exists_ v = false -> r <> ctl ->
  (r.1 = "transition"%string -> transition_ok new) -> change_ok d r (bytes new).
Proof. intros. eapply change_json; [done|done|done|done| |done]. congruence. Qed.

(** Marking an obligation, with a proof or without. *)
Lemma obligation_life v k : k = "consumed"%string \/ k = "closed"%string -> life "obligation" v (jset k (JBool true) v).
Proof.
  intros Hk. unfold life. simpl decide. split_and!.
  - apply same_fields_jset. destruct Hk as [-> | ->]; other_kind.
  - intros Ht. rewrite field_jset. by case_decide.
  - intros Ht. rewrite field_jset. by case_decide.
Qed.

Lemma obligation_note_life v x : life "obligation" v (jset "closure_proof" x v).
Proof.
  unfold life. simpl decide. split_and!.
  - apply same_fields_jset. other_kind.
  - intros Ht. by autorewrite with fields.
  - intros Ht. by autorewrite with fields.
Qed.

Lemma close_life v x : life "obligation" v (jset "closure_proof" x (jset "closed" (JBool true) v)).
Proof. eapply life_trans; [apply obligation_life; by right|apply obligation_note_life]. Qed.

Lemma staged_obligation d c s changes u id v o new : decodable ns d -> agrees s d -> staged d c changes u ->
  get_rec ("obligation", id)%string s = Some v -> parse (data v) = Some o -> life "obligation" o new ->
  staged d c (OMap.set ("obligation", id)%string (bytes new) changes) u.
Proof.
  intros Hdec Ha Hst Hg Hp Hl. apply staged_set; [done| |kinds_ok..].
  eapply change_json; [done|done|exact Hg|done| |done]. intros _. by exists o.
Qed.

Lemma staged_free d c changes u (r : ref) plain : staged d c changes u -> r.1 ∉ json_kinds -> r <> ctl ->
  r.1 ∉ sending_kinds -> staged d c (OMap.set r plain changes) u.
Proof.
  intros Hst Hk Hc Hs. apply staged_set; [done|by apply change_free|done|..]; intros Ho; exfalso; apply Hk; rewrite Ho;
    apply (bool_decide_unpack _); exact I.
Qed.

(** The changes of a receipt. *)
Lemma receive_staged now d c s fresh (p : delivery) id old value digest changes1 changes2 : decodable ns d -> agrees fresh d -> agrees s d ->
  get_rec ("inbox", id)%string fresh = Some old -> exists_ old = false ->
  sessionValue now s ("session", d_sessionID p)%string (d_session p) (d_context p) true None = Ok value ->
  stage_account s p (OMap.set ("inbox", id)%string
    (bytes (JObj [("digest", JStr digest); ("archive", json_of_bytes (d_archive p))]%string)) [(("session", d_sessionID p)%string, value)]) = Ok changes1 ->
  stage_consumed s p changes1 = Ok changes2 -> staged d c changes2 None.
Proof.
  intros Hdec Ha Hags Eo Ee Ev Ea1 Ea2.
  assert (S1 : staged d c [(("session", d_sessionID p)%string, value)] None).
  { apply (staged_set d c []); [by apply staged_nil|by eapply session_value_ok|kinds_ok..]. }
  assert (S2 : staged d c changes1 None).
  { unfold stage_account in Ea1. set (base := OMap.set _ _ _) in Ea1.
    assert (Sb : staged d c base None).
    { apply staged_set; [done| |kinds_ok..]. by apply (change_new d fresh _ old _ Hdec Ha Eo Ee). }
    clearbody base. destruct (d_account p); [|by simplify_eq]. rewrite rbind_Ok in Ea1. destruct Ea1 as (? & _ & [= <-]).
    apply staged_free; [done|other_kind|done|other_kind]. }
  unfold stage_consumed in Ea2. destruct (nonempty_text _) as [otk|]; [|by simplify_eq].
  rewrite rbind_Ok in Ea2. destruct Ea2 as (v & Hv%require_ok & Ea2). destruct (_ && _); [|done].
  rewrite rbind_Ok in Ea2. destruct Ea2 as (o & Ho%json_ok_ & Ea2). destruct (_ && _); [|done]. injection Ea2 as <-.
  eapply staged_obligation; [done|exact Hags|done|exact Hv|exact Ho|]. apply obligation_life. by left.
Qed.

(** ... hold the archived message, once. *)
Lemma receive_archived s (p : delivery) id value digest changes1 changes2 :
  stage_account s p (OMap.set ("inbox", id)%string
    (bytes (JObj [("digest", JStr digest); ("archive", json_of_bytes (d_archive p))]%string)) [(("session", d_sessionID p)%string, value)]) = Ok changes1 ->
  stage_consumed s p changes1 = Ok changes2 ->
  OMap.wf changes2 /\
  OMap.get ("inbox", id)%string changes2 = Some (bytes (JObj [("digest", JStr digest); ("archive", json_of_bytes (d_archive p))]%string)).
Proof.
  unfold stage_account, stage_consumed. set (plain := bytes _). set (base := OMap.set _ plain _). intros E1 E2.
  assert (Hb : OMap.wf base /\ OMap.get ("inbox", id)%string base = Some plain).
  { split; [apply OMap.wf_set, NoDup_singleton|apply OMap.get_set_eq]. }
  clearbody base. assert (H1 : OMap.wf changes1 /\ OMap.get ("inbox", id)%string changes1 = Some plain).
  { destruct (d_account p); [|by simplify_eq]. rewrite rbind_Ok in E1. destruct E1 as (? & _ & [= <-]).
    rewrite OMap.get_set_ne by done. destruct Hb. by auto with omap. }
  destruct (nonempty_text _) as [otk|]; [|by simplify_eq].
  rewrite rbind_Ok in E2. destruct E2 as (v & _ & E2). destruct (_ && _); [|done].
  rewrite rbind_Ok in E2. destruct E2 as (o & _ & E2). destruct (_ && _); [|done]. injection E2 as <-.
  rewrite OMap.get_set_ne by done. destruct H1. by auto with omap.
Qed.

Lemma commitReceive_safe s id p d : snap_ok s d -> Safe (commitReceive sha256 ns s id p) d.
Proof.
  intros Hs. unfold commitReceive. check E1. check E2. check E3. apply extended_then; [done|]. intros fresh d1 Hs1 Hf1 Hg.
  take old as Eo. apply require_ok in Eo. destruct (exists_ old) eqn:Ee.
  { take b as Eb. check E4. validate_only. }
  take u as Ecmp. take rev as Et. intros now. take value as Ev. take changes1 as Ea1. take changes2 as Ea2.
  apply safe_ret; [by eauto|]. apply commit_safe; [done|]. intros d' c Hr [Hdec Hm] Hg' Ha Hc Hat.
  by eapply (receive_staged now d' c s fresh); [..|by eapply compared|exact Eo|exact Ee|exact Ev|exact Ea1|exact Ea2].
Qed.

Lemma stage_obligations_ok d c fresh c0 id acct u otks : forall changes changes', decodable ns d -> agrees fresh d ->
  staged d c changes u -> stage_obligations fresh c0 id acct changes otks = Ok changes' -> staged d c changes' u.
Proof.
  induction otks as [|e otks IH]; intros changes changes' Hdec Ha Hst; cbn [stage_obligations]; [by intros [= <-]|].
  rewrite rbind_Ok. intros (ch & Hch & Hrest). eapply IH; [done|done| |exact Hrest].
  unfold stage_obligation in Hch. rewrite rbind_Ok in Hch. destruct Hch as (old & Hold%require_ok & Hch).
  destruct (_ && _ && _) eqn:E; [|done]. destruct (_ || _); [|done]. injection Hch as <-.
  rewrite !andb_true_iff in E. destruct E as [[E _] _]. apply negb_true_iff in E.
  apply staged_set; [done| |kinds_ok..]. by apply (change_new d fresh _ old _ Hdec Ha Hold E).
Qed.

Lemma commitPublication_safe s id account signed otks acct d : snap_ok s d ->
  Safe (commitPublication ns s id account signed otks acct) d.
Proof.
  intros Hs. unfold commitPublication. check E1. check E2. apply extended_then; [done|]. intros fresh d1 Hs1 Hf1 Hg.
  take c as Ec. check Eb. take old as Eo. apply require_ok in Eo. destruct (exists_ old) eqn:Ee.
  { apply safe_bind. eapply safe_mono; [|by apply commit_nil_safe]. intros [w|e] d2 _; [|done]. take saved as Esv.
    check E3. done. }
  take u as Ecmp. take ar as Ear. take changes as Est. apply safe_ret; [by eauto|]. apply commit_safe; [done|].
  intros d' c' Hr [Hdec Hm] Hg' Ha Hc Hat. assert (c' = c) as -> by congruence.
  apply andb_true_iff in Eb as [Eb _]. apply negb_true_iff in Eb.
  eapply stage_obligations_ok; [done|done| |exact Est]. apply staged_set; [|apply change_free; [other_kind|done]|kinds_ok..].
  apply (staged_free d' c []); [by apply staged_nil|other_kind|done|other_kind].
Qed.

(** ** The outcome of an attempt *)

Lemma establish_ok d c u snap packets : forall changes changes', decodable ns d -> agrees snap d ->
  staged d c changes u -> establish snap changes packets = Ok changes' -> staged d c changes' u.
Proof.
  induction packets as [|p packets IH]; intros changes changes' Hdec Ha Hst; cbn [establish]; [by intros [= <-]|].
  rewrite rbind_Ok. intros (v & Hv%require_ok & Hrest). destruct (exists_ v); [|done].
  rewrite rbind_Ok in Hrest. destruct Hrest as (st & Hp%json_ok_ & Hrest).
  eapply IH; [done|done| |exact Hrest]. destruct (truthy _); [|done]. apply staged_set; [done| |kinds_ok..].
  eapply change_json; [done|done|exact Hv|done| |done]. intros _. exists st. split; [done|].
  unfold life. simpl decide. split_and!.
  - intros k ->%list_elem_of_singleton. by rewrite field_jdel.
  - intros Ht. by rewrite field_jdel.
  - by rewrite field_jdel.
Qed.

(** No receipt, so no accepted logical ID stands for the attempt. *)
Lemma not_accepted d s id lr v old b logical : Inv d -> agrees s d -> get_rec ("outbox", id)%string s = Some old ->
  parse (data old) = Some b -> present (field "receipt" b) = None -> abs d !! lr = Some v -> parse (data v) = Some logical ->
  lr.1 = "logical"%string -> is_text (field "attemptID" logical) id = true -> accepted logical = false.
Proof.
  intros [Hdec Hm] Ha Hold Hb Hrc Hv Hl Hlr Hid. destruct (accepted logical) eqn:Hacc; [|done].
  destruct Hm as [He|(c & _ & _ & _ & (_ & _ & Hok) & _)]; [by rewrite He, lookup_empty in Hv|].
  destruct (Hok lr v logical Hlr Hv Hl Hacc) as (w & o & Hw & Ho & Ht). unfold attempt_ref in Hw.
  apply bool_decide_eq_true in Hid. rewrite Hid in Hw. cbn [str_of] in Hw.
  rewrite (agrees_abs ns s d _ old Hdec Ha Hold) in Hw. destruct (exists_ old); [|done]. injection Hw as <-.
  apply present_None in Hrc. congruence.
Qed.

Lemma staged_result d c s id old b (lr : ref) lrec logical result : Inv d -> agrees s d ->
  get_rec ("outbox", id)%string s = Some old -> exists_ old = true -> parse (data old) = Some b ->
  present (field "receipt" b) = None -> lr.1 = "logical"%string -> get_rec lr s = Some lrec -> parse (data lrec) = Some logical ->
  is_text (field "attemptID" logical) id = true -> is_outcome (field "state" result) = true ->
  staged d c (OMap.set lr (bytes (jset "state" (default JNull (field "state" result)) logical))
    [(("outbox", id)%string, bytes (jset "status" (default JNull (field "state" result)) (jset "receipt" result b)))]) None.
Proof.
  intros HI Ha Hold He Hb Hrc Hlr Hlog Hlp Hid Hout. pose proof HI as [Hdec _].
  pose proof (abs_present s d _ old Hdec Ha Hold He) as Hpr. apply staged_set; [| |rewrite Hlr; kinds_ok..|].
  - apply (staged_set d c []); [by apply staged_nil| |by rewrite Hpr|by rewrite Hpr|done|done].
    apply present_None in Hrc as Hno.
    eapply change_json; [done|done|exact Hold|done| |done]. intros _. exists b. split; [done|].
    unfold life. simpl decide. split_and!.
    + intros k Hk. rewrite !field_jset_ne; [done|..]; intros ->; revert Hk; other_kind.
    + intros Ht. congruence.
    + intros _ Ht. congruence.
  - eapply change_json; [done|done|exact Hlog|intros ->; done| |by rewrite Hlr]. intros Hex. exists logical. split; [done|].
    rewrite Hlr. unfold life. cbn. intros Hacc. exfalso.
    rewrite (not_accepted d s id lr lrec old b logical) in Hacc; try done. by apply (abs_present s).
  - intros _ l. unfold bytes. rewrite parse_stringify. intros [= <-] Hacc. eexists _, _. split_and!; [|apply parse_stringify|].
    + apply list_elem_of_singleton. unfold attempt_ref. rewrite field_jset_ne by done. apply bool_decide_eq_true in Hid. by rewrite Hid.
    + rewrite field_jset_ne, field_jset_eq by done. destruct result; try done; by cbn in Hout.
Qed.

Lemma applyAttemptResult_safe s id result d : snap_ok s d -> Safe (applyAttemptResult sha256 ns s id result) d.
Proof.
  intros Hs. unfold applyAttemptResult. check E1. take old as Eo. apply require_ok in Eo. check Ee. take b as Eb.
  apply json_ok_ in Eb. destruct (attempt_of b) as [m|]; [|done]. take digest as Ed. check E2.
  destruct (present (field "receipt" b)) as [rc|] eqn:Erc; [check E3; validate_only|].
  take lrec as El. apply require_ok in El. take logical as Elg. apply json_ok_ in Elg. check E4.
  set (lr := ("logical", str_of (field "logical_id" m))%string).
  destruct (is_text (field "state" result) "accepted").
  - apply extended_then; [done|]. intros snap d1 Hs1 Hf1 Hg. take u as Ecmp. take changes1 as Est.
    apply commit_safe; [done|]. intros d' c Hr [Hdec Hm] Hg' Ha Hc Hat.
    assert (Hags : agrees s d') by (by eapply compared).
    eapply (establish_ok d' c None snap); [done|done| |exact Est]. by eapply (staged_result d' c s id old b lr lrec).
  - apply commit_safe; [done|]. intros d' c Hr HI Hg' Ha Hc Hat. by eapply (staged_result d' c s id old b lr lrec).
Qed.

(** ** Authority *)

Lemma safe_weaken {A} (p : prog A) Q d : safe Inv Guar p Q d -> Safe p d.
Proof. intros Hp. eapply safe_mono; [|exact Hp]. done. Qed.

(** Reads and pure steps before the rest of an operation. *)
Lemma safe_seq {A B} (p : prog A) (k : A -> prog B) P d : stable Inv Guar P -> P d -> Safe p d ->
  (forall a d', P d' -> Safe (k a) d') -> Safe (pbind p k) d.
Proof.
  intros Hst HP Hp Hk. apply safe_bind. eapply safe_mono; [|apply (safe_frame ns _ _ _ _ Hst HP Hp)].
  intros [a|e] d' [_ HP']; [by apply Hk|done].
Qed.

Lemma attemptStatusRequest_safe s id d : snap_ok s d -> Safe (attemptStatusRequest sha256 ns s id) d.
Proof.
  intros Hs. unfold attemptStatusRequest. eapply safe_seq; [apply snap_ok_stable|exact Hs|by eapply safe_weaken, validated_safe|].
  intros fresh d1 _. take old as Eo. check Ee. take b as Eb. destruct (attempt_of b); [|done]. take dg as Ed. done.
Qed.

Lemma attemptRetirementRequest_safe s id d : snap_ok s d -> Safe (attemptRetirementRequest sha256 ns s id) d.
Proof.
  intros Hs. unfold attemptRetirementRequest.
  eapply safe_seq; [apply snap_ok_stable|exact Hs|by apply attemptStatusRequest_safe|].
  intros [[m dg] rc] d1 _. by destruct rc.
Qed.

Lemma accountAuthority_safe s d : snap_ok s d -> Safe (accountAuthority ns s) d.
Proof.
  intros Hs. unfold accountAuthority. eapply safe_seq; [apply snap_ok_stable|exact Hs|by eapply safe_weaken, validated_safe|].
  intros fresh d1 _. take c as Ec. done.
Qed.

Lemma checkAccountAuthority_safe s f a e d : snap_ok s d -> Safe (checkAccountAuthority ns s f a e) d.
Proof.
  intros Hs. unfold checkAccountAuthority. eapply safe_seq; [apply snap_ok_stable|exact Hs|by apply accountAuthority_safe|].
  intros c d1 _. check E. done.
Qed.

Lemma noteRetired_safe s id d : snap_ok s d -> Safe (noteRetired ns s id) d.
Proof.
  intros Hs. unfold noteRetired. destruct (id_parts id) as [et st]. take seq as Es.
  apply extended_then; [done|]. intros fresh d1 _ Hf _. take c as Ec. take old as Eo. check Ee. take b as Eb. check E1.
  destruct (retired_for _ _) as [thr abv]. destruct (_ || _); [validate_only|].
  destruct (advance _ _) as [thr' abv']. check E2. by apply commit_nil_safe.
Qed.

(** ** Account transitions *)

Lemma pendingRefs_safe kind after limit d : Safe (pendingRefs ns kind after limit) d.
Proof.
  unfold pendingRefs. check E. apply safe_bind, view_safe. intros d1 _ _. check E1. by apply view_safe.
Qed.

Lemma candidate_refs_safe acct fuel : forall after acc d, Safe (candidate_refs ns fuel after acct acc) d.
Proof.
  induction fuel as [|fuel IH]; intros after acc d; cbn [candidate_refs]; [done|].
  apply safe_bind. eapply safe_mono; [|apply pendingRefs_safe]. intros [page|e] d1 _; [|done].
  apply safe_bind. eapply safe_mono; [|apply safe_weaken with (1 := read_safe ns page d1)]. intros [records|e] d2 _; [|done].
  take mine as Em. destruct (_ <? _); [done|]. apply IH.
Qed.

Lemma close_obligations_ok d c u fresh id t refs : forall keys changes keys' changes', decodable ns d -> agrees fresh d ->
  (forall r, r ∈ refs -> r.1 = "obligation"%string) ->
  staged d c changes u -> close_obligations fresh id t keys changes refs = Ok (keys', changes') -> staged d c changes' u.
Proof.
  induction refs as [|r refs IH]; intros keys changes keys' changes' Hdec Ha Hk Hst; cbn [close_obligations].
  { intros [= _ <-]. done. }
  rewrite rbind_Ok. intros (v & Hv%require_ok & Hrest). rewrite rbind_Ok in Hrest. destruct Hrest as (o & Ho%json_ok_ & Hrest).
  destruct (_ && _ && _ && _ && _ && _); [|done]. eapply IH; [done|done| | |exact Hrest].
  { intros r' Hin. apply Hk. by right. }
  destruct (truthy _); [done|]. assert (Hkr : r.1 = "obligation"%string) by (apply Hk; left).
  destruct r as [k oid]. simpl in Hkr. subst k. eapply staged_obligation; [done|done|done|exact Hv|exact Ho|apply close_life].
Qed.

(** The references a page lists are all obligations. *)
Lemma candidate_kinds acct fuel : forall after acc d, (forall r, r ∈ acc -> r.1 = "obligation"%string) ->
  safe Inv Guar (candidate_refs ns fuel after acct acc) (fun x _ => forall refs, x = Ok refs ->
    forall r, r ∈ refs -> r.1 = "obligation"%string) d.
Proof.
  induction fuel as [|fuel IH]; intros after acc d Hacc; cbn [candidate_refs]; [done|].
  apply safe_bind. unfold pendingRefs. destruct (_ && _ && _); [|done]. apply safe_bind, view_safe. intros d1 _ _.
  destruct (active _); [|done]. apply view_safe. intros d2 _ _.
  set (page := refs_after _ _ _ _ _). assert (Hpage : forall r, r ∈ page -> r.1 = "obligation"%string).
  { subst page. unfold refs_after. intros r Hr. change (map ?f ?l) with (f <$> l) in Hr.
    apply list_elem_of_fmap in Hr as (x & -> & _). done. }
  clearbody page. apply safe_bind. eapply safe_mono; [|apply safe_weaken with (1 := read_safe ns page d2)].
  intros [records|e] d3 _; [|done]. apply safe_pure.
  match goal with |- match ?m with Ok _ => _ | Err _ => _ end => destruct m as [mine|] eqn:Em; [|done] end.
  assert (Hmine : forall r, r ∈ acc ++ mine -> r.1 = "obligation"%string).
  { intros r [Hr|Hr]%elem_of_app; [by apply Hacc|]. clear Hacc IH. revert mine Em Hr.
    induction page as [|r0 page IHp]; intros mine Em Hr; simpl in Em.
    - injection Em as <-. by apply elem_of_nil in Hr.
    - rewrite rbind_Ok in Em. destruct Em as (v & _ & Em). rewrite rbind_Ok in Em. destruct Em as (o & _ & Em).
      rewrite rbind_Ok in Em. destruct Em as (l & Hl & [= <-]).
      assert (Hl' : r ∈ l -> r.1 = "obligation"%string) by (apply IHp; [intros; apply Hpage; by right|done]).
      destruct (strict_eq _ _); [|by apply Hl']. apply elem_of_cons in Hr as [->|Hr]; [apply Hpage; left|by apply Hl']. }
  destruct (_ <? _); [intros refs [= <-]; done|]. by apply IH.
Qed.

Lemma transition_at d s id v t : Inv d -> agrees s d -> get_rec ("transition", id)%string s = Some v -> exists_ v = true ->
  parse (data v) = Some t -> transition_ok t.
Proof.
  intros [Hdec Hm] Ha Hg He Hp. pose proof (abs_present s d _ v Hdec Ha Hg He) as Hv.
  destruct Hm as [Hm|(c & _ & _ & _ & _ & _ & Hok)]; [rewrite Hm in Hv; by rewrite lookup_empty in Hv|].
  by apply (proj2 (Hok _ _ Hv)).
Qed.

Lemma abandon_safe s id d : snap_ok s d -> Safe (abandonRecoveryTransition ns s id) d.
Proof.
  intros Hs. unfold abandonRecoveryTransition. take old as Eo. check Ee. take t as Et. check E1.
  apply require_ok in Eo. apply json_ok_ in Et.
  destruct (truthy (field "abandoned" t)) eqn:Eab; [done|]. take c0 as Ec0. check E2. apply safe_bind.
  eapply safe_mono; [|eapply (safe_frame ns _ (fun d' => snap_ok s d')); [apply snap_ok_stable|exact Hs|apply candidate_kinds]].
  2: { intros r Hr. by apply elem_of_nil in Hr. }
  intros [refs|e] d1 [Hrefs Hs1]; [|done]. specialize (Hrefs refs eq_refl).
  apply extended_then; [done|]. intros fresh d2 Hs2 Hf2 Hg. take u as Ecmp. take [keys changes] as Ecl. check E3.
  apply commit_safe; [done|]. intros d' c Hr HI Hg' Ha Hc Hat. pose proof HI as [Hdec _].
  assert (Hags : agrees s d') by (by eapply compared).
  pose proof (transition_at d' s id old t HI Hags Eo Ee Et) as (reset & T1 & T2 & T3 & T4).
  pose proof (abs_present s d' _ old Hdec Hags Eo Ee) as Hpr.
  apply andb_true_iff in E1 as [_ Erc]. apply negb_true_iff in Erc.
  apply staged_set; [eapply close_obligations_ok; [done|exact Ha|done| |exact Ecl]; by apply staged_nil| |by rewrite Hpr|done|done|done].
  eapply change_json; [done|exact Hags|exact Eo|done|..].
  - intros _. exists t. split; [done|]. unfold life. simpl decide. split_and!.
    + apply same_fields_jset. other_kind.
    + intros Ht. by autorewrite with fields.
    + intros Ht. by rewrite field_jset_eq.
  - intros _. exists reset. autorewrite with fields. split_and!; try done. rewrite Erc. done.
Qed.

Lemma stage_candidate_ok d c u fresh acct reset bundle otks : forall seen changes changes', decodable ns d -> agrees fresh d ->
  staged d c changes u -> stage_candidate fresh acct reset bundle seen changes otks = Ok changes' -> staged d c changes' u.
Proof.
  induction otks as [|[id o] otks IH]; intros seen changes changes' Hdec Ha Hst; cbn [stage_candidate]; [by intros [= <-]|].
  rewrite rbind_Ok. intros (old & Hold%require_ok & Hrest).
  destruct (_ && _ && _ && _ && _ && _ && _) eqn:E; [|done]. rewrite !andb_true_iff in E.
  destruct E as [[[[[[E _] _] _] _] _] _]. apply negb_true_iff in E.
  eapply IH; [done|done| |exact Hrest]. apply staged_set; [done| |kinds_ok..].
  by apply (change_new d fresh _ old _ Hdec Ha Hold E).
Qed.

(** What [prepareAccountTransition] stores is a well-formed transition. *)
Lemma transition_value_ok acct account reset bundle otks recovery c :
  transition_args_ok ns acct account reset bundle otks = true ->
  (recovery = true -> accountEpoch c <= epoch_of "old_epoch" reset) ->
  transition_ok (transition_value acct reset bundle recovery c).
Proof.
  intros Hargs Hrec. exists reset. unfold transition_args_ok in Hargs. rewrite !andb_true_iff in Hargs.
  destruct_and!. split_and!.
  - by destruct recovery.
  - match goal with Hn : bool_decide (field "new_epoch" reset = _) = true |- _ => apply bool_decide_eq_true in Hn end.
    unfold epoch_of at 1. by match goal with Hn : field "new_epoch" reset = _ |- _ => rewrite Hn end.
  - intros n. destruct recovery; [|done]. intros _ [= <-]. auto.
  - by destruct recovery.
Qed.

Lemma prepare_safe s acct account reset bundle otks recovery d : snap_ok s d ->
  Safe (prepareAccountTransition sha256 cv ns s acct account reset bundle otks recovery) d.
Proof.
  intros Hs. unfold prepareAccountTransition. take t0 as E1. take dg as E2. check E3. check Eargs.
  apply extended_then; [done|]. intros fresh d1 Hs1 Hf1 Hg. take u as Ecmp. take c as Ec. take old as Eo.
  apply require_ok in Eo. destruct (exists_ old) eqn:Ee; [take prior as Epr; check E4; validate_only|].
  take acc as Eacc. check Eok. take changes1 as Est. apply commit_safe; [done|].
  intros d' c' Hr [Hdec Hm] Hg' Ha Hc Hat. assert (c' = c) as -> by congruence.
  rewrite !andb_true_iff in Eok. destruct Eok as [[[Eb Eep] _] _]. apply negb_true_iff in Eb.
  eapply stage_candidate_ok; [done|exact Ha| |exact Est]. apply staged_set; [|apply change_free; [other_kind|done]|kinds_ok..].
  apply staged_free; [|other_kind|done|other_kind]. apply (staged_set d' c []); [by apply staged_nil| |done|done|done|done].
  apply (change_new d' fresh _ old _ Hdec Ha Eo Ee); [done|]. intros _. eapply transition_value_ok; [exact Eargs|].
  intros ->. by apply Z.leb_le in Eep.
Qed.

Lemma prepareRecovery_safe s acct account reset bundle otks d : snap_ok s d ->
  Safe (prepareRecoveryTransition sha256 cv ns s acct account reset bundle otks) d.
Proof. intros Hs. unfold prepareRecoveryTransition. check E. by apply prepare_safe. Qed.

Lemma promoteAccount_safe s id receipt d : snap_ok s d -> Safe (promoteAccount sha256 ns s id receipt) d.
Proof.
  intros Hs. unfold promoteAccount. take old as Eo. check Ee. take t as Et. check E1. apply require_ok in Eo. apply json_ok_ in Et.
  destruct (present (field "receipt" t)) as [rc|] eqn:Erc; [check E2; validate_only|]. check Eab. take c as Ec. check E3.
  apply commit_safe; [done|]. intros d' c' Hr HI Hg' Ha Hc Hat. assert (c' = c) as -> by congruence.
  pose proof HI as [Hdec _]. pose proof (transition_at d' s id old t HI Ha Eo Ee Et) as (reset & T1 & T2 & T3 & T4).
  pose proof (abs_present s d' _ old Hdec Ha Eo Ee) as Hpr. apply negb_true_iff in Eab.
  apply andb_true_iff in E3 as [E3 _]. apply bool_decide_eq_true in E3.
  assert (Hres : default JNull (field "reset" t) = reset) by (by rewrite T1). rewrite Hres in E3 |- *.
  apply present_None in Erc as Hno.
  apply (staged_set d' c []); [apply staged_nil; unfold update_ok| |by rewrite Hpr|done|done|done].
  - rewrite T2. destruct (truthy (field "recovery" t)) eqn:Erec; [specialize (T3 _ eq_refl E3); lia|].
    unfold epoch_of. rewrite E3. simpl. lia.
  - eapply change_json; [done|exact Ha|exact Eo|done|..].
    + intros _. exists t. split; [done|]. unfold life. simpl decide. split_and!.
      * apply same_fields_jset. other_kind.
      * intros Ht. congruence.
      * intros Ht. congruence.
    + intros _. exists reset. autorewrite with fields. split_and!; try done.
      rewrite Eab. apply andb_false_r.
Qed.

Lemma accountTransitionRequest_safe s id d : snap_ok s d -> Safe (accountTransitionRequest ns s id) d.
Proof.
  intros Hs. unfold accountTransitionRequest. apply extended_then; [done|]. intros fresh d1 _ Hf _.
  take old as Eo. check Ee. take out as Eout. validate_only.
Qed.

(** ** Retiring *)

Lemma stage_closures_ok d c u s acct proofs : forall changes changes', decodable ns d -> agrees s d ->
  staged d c changes u -> stage_closures sha256 ns s acct changes proofs = Ok changes' -> staged d c changes' u.
Proof.
  induction proofs as [|[id p] proofs IH]; intros changes changes' Hdec Ha Hst; cbn [stage_closures]; [by intros [= <-]|].
  rewrite rbind_Ok. intros (v & Hv%require_ok & Hrest). destruct (exists_ v); [|done].
  rewrite rbind_Ok in Hrest. destruct Hrest as (o & Ho%json_ok_ & Hrest).
  destruct (_ && _ && _ && _ && _ && _ && _ && _ && _); [|done]. destruct (is_text _ (closure_digest _ _)); [|done].
  eapply IH; [done|done| |exact Hrest]. eapply staged_obligation; [done|done|done|exact Hv|exact Ho|apply close_life].
Qed.

Lemma retireUnsubmittedKeys_safe s acct account proofs d : snap_ok s d ->
  Safe (retireUnsubmittedKeys sha256 ns s acct account proofs) d.
Proof.
  intros Hs. unfold retireUnsubmittedKeys. check E1. take ar as Ear. take changes as Est.
  apply commit_safe; [done|]. intros d' c Hr [Hdec Hm] Hg' Ha Hc Hat. eapply stage_closures_ok; [done|exact Ha| |exact Est].
  apply (staged_free d' c []); [by apply staged_nil|other_kind|done|other_kind].
Qed.

Lemma stage_retired_ok d c u s reset ids : forall changes changes', decodable ns d -> agrees s d ->
  staged d c changes u -> stage_retired s reset changes ids = Ok changes' -> staged d c changes' u.
Proof.
  induction ids as [|id ids IH]; intros changes changes' Hdec Ha Hst; cbn [stage_retired]; [by intros [= <-]|].
  rewrite rbind_Ok. intros (v & Hv%require_ok & Hrest). destruct (exists_ v); [|done].
  rewrite rbind_Ok in Hrest. destruct Hrest as (st & Hp%json_ok_ & Hrest). destruct (_ && _ && _ && _); [|done].
  eapply IH; [done|done| |exact Hrest]. apply staged_set; [done| |kinds_ok..].
  eapply change_json; [done|done|exact Hv|done| |done]. intros _. exists st. split; [done|]. apply retire_session_life.
Qed.

Lemma retirePeerSessions_safe s tid reset ids d : snap_ok s d -> Safe (retirePeerSessions ns s tid reset ids) d.
Proof.
  intros Hs. unfold retirePeerSessions. check E1. take rev as Et. take changes as Est.
  apply commit_safe; [done|]. intros d' c Hr [Hdec Hm] Hg' Ha Hc Hat. eapply stage_retired_ok; [done|exact Ha| |exact Est].
  by apply staged_nil.
Qed.
End safety.
