(* ===== verification/RatchetHistory.v ===== *)
(** * Histories of the ratchet store

    Any number of tabs share the database.  Each starts operations of the store
    on snapshots that some operation returned, and may sign out, sign in or
    replace the account; the transactions of all running operations interleave
    in any order ([rstep]).  The theorems hold in every state this reaches:
    the quotas are exact, records live only forward, no attempt number is used
    twice, and a blocked account creates nothing. *)

From stdpp Require Import base gmap list strings sorting.
From Stdlib Require Import ZArith Lia.
From S2P Require Import Prelude Json Text OlmAdmission OlmReset Db RatchetStore RatchetCommit RatchetSafety.

Section history.
Context `{Cipher}.
Variable sha256 : list Z -> list Z.
Variable cv : curves.
Variable ns : names.

#[local] Abbreviation abs := (abs ns).
#[local] Abbreviation Inv := (Inv ns).
#[local] Abbreviation Guar := (Guar ns).
#[local] Abbreviation snap_ok := (snap_ok ns).
#[local] Notation Safe p d := (safe Inv Guar p (fun _ _ => True) d) (only parsing).

(** ** Operations outside the namespace *)

(** A transaction that leaves the namespace, the key and the generation alone. *)
Lemma aside d d' : Inv d -> records_of ns d' = records_of ns d -> wrapping_key d' = wrapping_key d ->
  generation (current d') = generation (current d) -> Inv d' /\ Guar d d'.
Proof.
  intros [Hdec Hm] Hr Hk Hg.
  assert (Ha : abs d' = abs d) by (unfold RatchetCommit.abs, rec_of_raw; rewrite Hr, Hk; done).
  split; [split; [|by rewrite Ha]|].
  - intros r raw. rewrite Hr, Hk. apply Hdec.
  - split; [intros key; by rewrite Hk|]. right. rewrite Ha. split; [done|].
    split; [intros; apply evolves_refl|]. intros r _ Hn [v Hv]. congruence.
Qed.

(** A new generation: the namespace is as it was, or empty. *)
Lemma new_generation d d' : Inv d -> wrapping_key d' = wrapping_key d ->
  records_of ns d' = records_of ns d \/ records_of ns d' = ∅ ->
  generation (current d) < generation (current d') -> Inv d' /\ Guar d d'.
Proof.
  intros [Hdec Hm] Hk Hr Hg. split; [|split; [intros key; by rewrite Hk|by left]]. destruct Hr as [Hr|Hr].
  - assert (Ha : abs d' = abs d) by (unfold RatchetCommit.abs, rec_of_raw; rewrite Hr, Hk; done).
    split; [|by rewrite Ha]. intros r raw. rewrite Hr, Hk. apply Hdec.
  - assert (Ha : abs d' = ∅) by (unfold RatchetCommit.abs; rewrite Hr; done).
    split; [|by left]. intros r raw. by rewrite Hr, lookup_empty.
Qed.

Lemma clearIdentity_safe expected d : Safe (clearIdentity expected) d.
Proof.
  intros d' _ HI. cbv beta zeta. destruct (match expected with Some e => negb (generation (current d') =? generation e) | None => false end); [split_and!; [done|apply Guar_refl|done]|].
  destruct (_ <=? _); [split_and!; [done|apply Guar_refl|done]|]. cbn [fst snd].
  destruct (new_generation d' (wiped (Fence (generation (current d') + 1) false) d') HI) as [? ?];
    [done|by right|simpl; lia|]. done.
Qed.

Lemma seal_then {A} plain ad (k : record_ -> prog A) d : (forall r d', Safe (k r) d') -> Safe (pbind (seal plain ad) k) d.
Proof. intros Hk. apply safe_bind. eapply safe_mono; [|apply (seal_safe ns)]. intros [r|e] d' _; [apply Hk|done]. Qed.

Lemma saveIdentity_safe i meta onboarding given replaceAccount d : Safe (saveIdentity i meta onboarding given replaceAccount) d.
Proof.
  unfold saveIdentity. destruct (negb (onboarding && _)); [|done]. destruct (negb (replaceAccount && negb onboarding)) eqn:Er; [|done].
  destruct (identity_sizes_ok i); [|done].
  assert (Hrest : forall f d, Safe (pbind (seal (identity_bytes i) []) (fun r =>
     fencedWrite f onboarding (fun cur d =>
       if onboarding && (MAX_SAFE_INTEGER <=? generation cur) then Err "identity generation exhausted"%string
       else let next := if onboarding then Fence (generation cur + 1) true else cur in
            let d1 := if replaceAccount then wiped next d else d in
            Ok (next, d1 <| fence_rec := Some next |> <| identity_rec := Some (r, meta) |>)))) d).
  { intros f d0. apply seal_then. intros r d1 d2 _ HI. cbv beta zeta. destruct (_ && (_ || _)); [|split_and!; [done|apply Guar_refl|done]].
    destruct (onboarding && _); [split_and!; [done|apply Guar_refl|done]|]. cbn [fst snd].
    destruct onboarding.
    - assert (HH : forall d3, d3 = (if replaceAccount then wiped (Fence (generation (current d2) + 1) true) d2 else d2)
         <| fence_rec := Some (Fence (generation (current d2) + 1) true) |> <| identity_rec := Some (r, meta) |> ->
         Inv d3 /\ Guar d2 d3); [|destruct (HH _ eq_refl); done].
      intros d3 ->. apply new_generation; [done|by destruct replaceAccount|destruct replaceAccount; [by right|by left]|simpl; lia].
    - destruct replaceAccount; [done|]. split_and!; [apply (aside d2); done|apply (aside d2); done|done]. }
  destruct given as [f|]; [apply safe_pure, Hrest|]. apply safe_bind, view_safe. intros d1 _ _. apply Hrest.
Qed.

(** The sealed stores. *)
Lemma putSealedIn_safe expected store key value d : Safe (putSealedIn expected store key value) d.
Proof.
  unfold putSealedIn. apply seal_then. intros r d1 d2 _ HI. cbv beta zeta. destruct (_ && _); [|split_and!; [done|apply Guar_refl|done]].
  cbn [fst snd]. destruct (aside d2 (put_record store key r d2) HI); done.
Qed.

Lemma update_attempts_safe store key mutate expected n : forall d, Safe (update_attempts n store key mutate expected) d.
Proof.
  induction n as [|n IH]; intros d; cbn [update_attempts]; [done|]. apply safe_bind, view_safe. intros d1 _ _.
  assert (Hrest : forall before value d, Safe (match mutate value with
    | None => Db.done value
    | Some next => pbind (seal (stringify next) []) (fun r =>
        pbind (match expected with Some f => Db.done f | None => identityFence end) (fun f =>
        pbind (fencedWrite f false (fun _ d => swap store key before r d)) (fun won =>
          if (won : bool) then Db.done (Some next) else update_attempts n store key mutate expected)))
    end) d).
  { intros before value d2. destruct (mutate value) as [next|]; [|done]. apply seal_then. intros r d3.
    assert (Hw : forall f d, Safe (pbind (fencedWrite f false (fun _ d => swap store key before r d)) (fun won =>
          if (won : bool) then Db.done (Some next) else update_attempts n store key mutate expected)) d).
    { intros f d4. apply safe_bind. intros d5 _ HI. cbv beta zeta. destruct (_ && _); [|split_and!; [done|apply Guar_refl|done]].
      unfold swap. destruct (sameRecord _ _); cbn [fst snd].
      - destruct (aside d5 (put_record store key r d5) HI); done.
      - split_and!; [done|apply Guar_refl|]. apply IH. }
    destruct expected as [f|]; [apply safe_pure, Hw|]. apply safe_bind, view_safe. intros. apply Hw. }
  destruct (stores d1 !! (store, key)) as [r|]; [|apply safe_pure, Hrest].
  apply safe_bind, safe_settle. unfold read_value, unseal. apply safe_bind, safe_bind.
  eapply safe_mono; [|apply (wrappingKey_safe ns)]. intros [k|e] d2 _; [|done].
  destruct (decrypt _ _ _ _) as [plain|]; [|exact I]. unfold Db.done at 1. cbn [safe].
  destruct (parse plain); [|exact I]. apply Hrest.
Qed.

(** ** Initialization *)

Lemma init_ok d r f key : Inv d -> length key = 32%nat -> encoded ns ctl 1 (bytes (control_json (initial_control key))) r d ->
  Inv (init_tx ns f r d) /\ Guar d (init_tx ns f r d).
Proof.
  intros HI Hlen Henc. unfold init_tx. destruct (records_of ns d !! ctl) as [old|] eqn:Ectl; [split; [done|apply Guar_refl]|].
  pose proof HI as [Hdec [He|(c & [rev Hc] & _)]]; [|rewrite lookup_abs, Ectl in Hc; done].
  set (d' := (put_all ns [(ctl, r)] d) <| markers := _ |>).
  assert (Habs : abs d' = {[ctl := Rec 1 (bytes (control_json (initial_control key)))]}).
  { transitivity (abs (put_all ns [(ctl, r)] d)); [done|]. rewrite abs_put_all, He. cbn.
    destruct Henc as (Hrev & _ & k & Hk & Hp). unfold rec_of_raw. rewrite Hk. simpl. by rewrite Hp, Hrev. }
  assert (Hrec : records_of ns d' = {[ctl := r]}).
  { transitivity (records_of ns (put_all ns [(ctl, r)] d)); [done|]. rewrite records_put_all. cbn.
    assert (records_of ns d = ∅) as ->; [|done]. apply map_eq. intros q. rewrite lookup_empty.
    destruct (records_of ns d !! q) as [raw|] eqn:E; [|done].
    assert (abs d !! q = None) as Hq by (by rewrite He, lookup_empty). by rewrite lookup_abs, E in Hq. }
  split; [split|].
  - intros q raw. rewrite Hrec. destruct (decide (q = ctl)) as [->|Hne]; cycle 1.
    { by rewrite lookup_singleton_ne. }
    rewrite lookup_singleton_eq. intros [= <-]. destruct Henc as (Hrev & H1 & k & Hk & Hp). split; [lia|]. eauto.
  - right. rewrite Habs. exists (initial_control key). split_and!.
    + exists 1. apply lookup_singleton_eq.
    + unfold counted, total. rewrite !map_fold_singleton. done.
    + done.
    + split_and!; [intros q e n [Hq (v & b & Hv & _)]|intros q1 q2 e n [Hq (v & b & Hv & _)] _|intros q v l Hq Hv _ _];
        (apply lookup_singleton_Some in Hv as [<- _]; done).
    + simpl. unfold len. by rewrite Hlen.
    + intros q v [<- _]%lookup_singleton_Some. split; [|done]. other_kind.
  - split; [by intros k|]. right. rewrite Habs, He. split_and!; [done|intros q; by rewrite lookup_empty|].
    intros q Hq _ [v [<- _]%lookup_singleton_Some]. exfalso. revert Hq. other_kind.
Qed.

Lemma decode_plain d1 d r : Inv d1 -> rely Inv Guar d1 d -> Safe (decode ns r (records_of ns d1 !! r)) d.
Proof. intros. eapply safe_mono; [|by apply decode_safe]. done. Qed.

Lemma initialize_safe d : Safe (initialize ns) d.
Proof.
  unfold initialize. apply safe_bind, view_safe. intros d1 _ HI1. cbn [map]. destruct (active _); [|done].
  destruct (records_of ns d1 !! ctl) as [raw|] eqn:Eraw.
  { apply safe_bind. eapply safe_mono; [|rewrite <- Eraw; apply decode_plain; [done|apply rtc_refl]].
    intros [r|e] d2 _; [|done]. apply safe_pure. destruct (json_ (data r)); [|done]. by destruct (control_usable _). }
  destruct (negb _); [|done]. apply safe_bind, view_safe. intros d2 _ HI2. destruct (_ =? 0)%nat.
  - intros key Hkey. apply safe_bind. eapply safe_mono; [|apply (encode_safe ns)]. intros [raw|e] d3 He; [|done].
    specialize (He raw eq_refl). intros d4 Hr4 HI4. cbv beta zeta. destruct (_ && _); [|split_and!; [done|apply Guar_refl|done]].
    cbn [fst snd]. destruct (init_ok d4 raw (generation (current d1)) key HI4 Hkey) as [H1 H2]; [|done].
    eapply stable_rely; [apply encoded_stable|exact Hr4|done].
  - apply safe_bind, view_safe. intros d3 _ HI3. cbn [map]. destruct (records_of ns d3 !! ctl) as [raw|] eqn:E3; [|done].
    apply safe_bind. eapply safe_mono; [|rewrite <- E3; apply decode_plain; [done|apply rtc_refl]]. by intros [r|e] d4 _.
Qed.

(** ** Tabs *)

(** Every operation a tab may start, with its arguments. *)
Inductive call :=
| Initialize
| Read (refs : list ref)
| Validated (s : snapshot) (refs : list ref)
| SetTrust (s : snapshot) (id : string) (value : json) (revoked : bool)
| CommitSend (s : snapshot) (id : string) (packets : list packet) (archive : list Z) (a : option attempt)
| CommitAttempt (s : snapshot) (m : json) (ps : list (list Z)) (packets : list packet) (archive : list Z)
| Ack (s : snapshot) (id : string)
| CommitReceive (s : snapshot) (id : string) (p : delivery)
| CommitPublication (s : snapshot) (id : string) (account signed : list Z) (otks : list (string * json)) (acct : string)
| ReserveClaim (s : snapshot) (id tid : string) (request : list Z)
| RetrySend (s : snapshot) (id : string)
| AttemptWire (s : snapshot) (id : string)
| AttemptStatus (s : snapshot) (id : string)
| AttemptRetirement (s : snapshot) (id : string)
| ApplyAttemptResult (s : snapshot) (id : string) (result : json)
| AccountAuthority (s : snapshot)
| CheckAuthority (s : snapshot) (f : Z) (a : string) (e : Z)
| NoteRetired (s : snapshot) (id : string)
| PrepareTransition (s : snapshot) (acct : string) (account : list Z) (reset bundle : json) (otks : list (string * json))
| PrepareRecovery (s : snapshot) (acct : string) (account : list Z) (reset bundle : json) (otks : list (string * json))
| AbandonRecovery (s : snapshot) (id : string)
| PromoteAccount (s : snapshot) (id : string) (receipt : json)
| TransitionRequest (s : snapshot) (id : string)
| RetireKeys (s : snapshot) (acct : string) (account : list Z) (proofs : list (string * json))
| RetireSessions (s : snapshot) (tid : string) (reset : json) (ids : list string)
| PendingRefs (kind after : string) (limit : Z)
| ClearIdentity (expected : option fence)
| SaveIdentity (i : Db.identity) (meta : json) (onboarding : bool) (given : option fence) (replaceAccount : bool)
| PutSealed (expected : fence) (store key : string) (value : json)
| UpdateSealed (store key : string) (mutate : option json -> option json) (expected : option fence).

(** The snapshots a call was given. *)
Definition given_snapshots (c : call) : list snapshot :=
  match c with
  | Initialize | Read _ | PendingRefs _ _ _ | ClearIdentity _ | SaveIdentity _ _ _ _ _ | PutSealed _ _ _ _
  | UpdateSealed _ _ _ _ => []
  | Validated s _ | SetTrust s _ _ _ | CommitSend s _ _ _ _ | CommitAttempt s _ _ _ _ | Ack s _ | CommitReceive s _ _
  | CommitPublication s _ _ _ _ _ | ReserveClaim s _ _ _ | RetrySend s _ | AttemptWire s _ | AttemptStatus s _
  | AttemptRetirement s _ | ApplyAttemptResult s _ _ | AccountAuthority s | CheckAuthority s _ _ _ | NoteRetired s _
  | PrepareTransition s _ _ _ _ _ | PrepareRecovery s _ _ _ _ _ | AbandonRecovery s _ | PromoteAccount s _ _
  | TransitionRequest s _ | RetireKeys s _ _ _ | RetireSessions s _ _ _ => [s]
  end.

Definition quiet {A} (p : prog A) : prog (option snapshot) := pbind p (fun _ => Db.done None).
Definition keep_snapshot (p : prog snapshot) : prog (option snapshot) := pbind p (fun s => Db.done (Some s)).

(** The program of a call; [read] and [validated] hand a snapshot back. *)
Definition run (c : call) : prog (option snapshot) :=
  match c with
  | Initialize => quiet (openRatchetStore ns)
  | Read refs => keep_snapshot (read ns refs)
  | Validated s refs => keep_snapshot (validated ns s refs)
  | SetTrust s id value revoked => quiet (setTrust ns s id value revoked)
  | CommitSend s id packets archive a => quiet (commitSend sha256 ns s id packets archive a)
  | CommitAttempt s m ps packets archive => quiet (commitAttempt sha256 ns s m ps packets archive)
  | Ack s id => quiet (ack ns s id)
  | CommitReceive s id p => quiet (commitReceive sha256 ns s id p)
  | CommitPublication s id account signed otks acct => quiet (commitPublication ns s id account signed otks acct)
  | ReserveClaim s id tid request => quiet (reserveClaim ns s id tid request)
  | RetrySend s id => quiet (retrySend ns s id)
  | AttemptWire s id => quiet (attemptWire ns s id)
  | AttemptStatus s id => quiet (attemptStatusRequest sha256 ns s id)
  | AttemptRetirement s id => quiet (attemptRetirementRequest sha256 ns s id)
  | ApplyAttemptResult s id result => quiet (applyAttemptResult sha256 ns s id result)
  | AccountAuthority s => quiet (accountAuthority ns s)
  | CheckAuthority s f a e => quiet (checkAccountAuthority ns s f a e)
  | NoteRetired s id => quiet (noteRetired ns s id)
  | PrepareTransition s acct account reset bundle otks => quiet (prepareAccountTransition sha256 cv ns s acct account reset bundle otks false)
  | PrepareRecovery s acct account reset bundle otks => quiet (prepareRecoveryTransition sha256 cv ns s acct account reset bundle otks)
  | AbandonRecovery s id => quiet (abandonRecoveryTransition ns s id)
  | PromoteAccount s id receipt => quiet (promoteAccount sha256 ns s id receipt)
  | TransitionRequest s id => quiet (accountTransitionRequest ns s id)
  | RetireKeys s acct account proofs => quiet (retireUnsubmittedKeys sha256 ns s acct account proofs)
  | RetireSessions s tid reset ids => quiet (retirePeerSessions ns s tid reset ids)
  | PendingRefs kind after limit => quiet (pendingRefs ns kind after limit)
  | ClearIdentity expected => quiet (clearIdentity expected)
  | SaveIdentity i meta onboarding given replaceAccount => quiet (saveIdentity i meta onboarding given replaceAccount)
  | PutSealed expected store key value => quiet (putSealedIn expected store key value)
  | UpdateSealed store key mutate expected => quiet (updateSealed store key mutate expected)
  end.

(** The database, the snapshots handed out so far, the running operations. *)
Record world := World { w_db : database; w_snaps : list snapshot; w_pool : list (prog (option snapshot)) }.

Inductive rstep : world -> world -> Prop :=
| r_start d snaps pool c : (forall s, s ∈ given_snapshots c -> s ∈ snaps) ->
    rstep (World d snaps pool) (World d snaps (pool ++ [run c]))
| r_tx d snaps pool i B (tx : database -> B * database) k : pool !! i = Some (Atomic tx k) ->
    rstep (World d snaps pool) (World (tx d).2 snaps (<[i := k (tx d).1]> pool))
| r_random d snaps pool i n k l : pool !! i = Some (Random n k) -> length l = n ->
    rstep (World d snaps pool) (World d snaps (<[i := k l]> pool))
| r_clock d snaps pool i k t : pool !! i = Some (Clock k) ->
    rstep (World d snaps pool) (World d snaps (<[i := k t]> pool))
| r_result d snaps pool i s : pool !! i = Some (Ret (Ok (Some s))) ->
    rstep (World d snaps pool) (World d (s :: snaps) pool).

Definition reachable (w : world) : Prop := rtc rstep (World empty_database [] []) w.

(** A finished operation hands out only snapshots that were read. *)
Definition handed (r : result string (option snapshot)) (d : database) : Prop := forall s, r = Ok (Some s) -> snap_ok s d.

Lemma quiet_safe {A} (p : prog A) d : Safe p d -> safe Inv Guar (quiet p) handed d.
Proof. intros Hp. apply safe_bind. eapply safe_mono; [|exact Hp]. intros [a|e] d' _; intros s; congruence. Qed.

Lemma keep_safe p d : safe Inv Guar p (fun x d' => forall s, x = Ok s -> snap_ok s d') d -> safe Inv Guar (keep_snapshot p) handed d.
Proof.
  intros Hp. apply safe_bind. eapply safe_mono; [|exact Hp]. intros [s|e] d' Hs; [|intros s; congruence].
  intros s' [= <-]. auto.
Qed.

Lemma call_safe c d : (forall s, s ∈ given_snapshots c -> snap_ok s d) -> safe Inv Guar (run c) handed d.
Proof.
  intros Hs. destruct c; cbn [run given_snapshots] in *;
    try (pose proof (Hs _ (list_elem_of_here _ _)) as Hok; clear Hs);
    lazymatch goal with |- safe _ _ (quiet _) _ _ => apply quiet_safe | _ => apply keep_safe end;
    eauto using setTrust_safe, commitSend_safe, commitAttempt_safe, ack_safe, commitReceive_safe, commitPublication_safe,
      reserveClaim_safe, retrySend_safe, attemptWire_safe, attemptStatusRequest_safe, attemptRetirementRequest_safe,
      applyAttemptResult_safe, accountAuthority_safe, checkAccountAuthority_safe, noteRetired_safe, prepare_safe,
      prepareRecovery_safe, abandon_safe, promoteAccount_safe, accountTransitionRequest_safe, retireUnsubmittedKeys_safe,
      retirePeerSessions_safe, pendingRefs_safe, clearIdentity_safe, saveIdentity_safe, putSealedIn_safe, validated_safe.
  - unfold openRatchetStore. destruct (valid_names ns); [|done]. apply initialize_safe.
  - eapply safe_mono; [|apply read_safe]. intros [s|e] d' Hr s' E; [|done]. injection E as <-.
    destruct (Hr s eq_refl) as (d1 & _ & Hat & Hrel). by eapply read_at_snap.
  - apply update_attempts_safe.
Qed.

Definition rworld_ok (w : world) : Prop :=
  Inv (w_db w) /\ Forall (fun s => snap_ok s (w_db w)) (w_snaps w) /\
  Forall (fun p => exists d, rely Inv Guar d (w_db w) /\ safe Inv Guar p handed d) (w_pool w).

Lemma rworld_ok_insert d snaps pool i p d0 : rworld_ok (World d snaps pool) -> rely Inv Guar d0 d -> safe Inv Guar p handed d0 ->
  rworld_ok (World d snaps (<[i := p]> pool)).
Proof.
  intros (HI & Hsn & Hp) Hr Hsafe. split_and!; [done|done|]. simpl in *. apply Forall_insert; [done|]. by exists d0.
Qed.

Lemma rstep_ok w w' : rworld_ok w -> rstep w w' -> rworld_ok w' /\ rely Inv Guar (w_db w) (w_db w').
Proof.
  intros Hok Hs. destruct Hs as [d snaps pool c Hc|d snaps pool i B tx k Hi|d snaps pool i n k l Hi Hl|d snaps pool i k t Hi|d snaps pool i s Hi];
    pose proof Hok as (HI & Hsn & Hp); simpl in *; rewrite Forall_lookup in Hp.
  - split; [|apply rtc_refl]. split_and!; [done|done|]. apply Forall_app. split; [by apply Forall_lookup|].
    constructor; [|constructor]. exists d. split; [apply rtc_refl|]. apply call_safe. intros s Hin.
    rewrite Forall_forall in Hsn. auto.
  - destruct (Hp i _ Hi) as (d0 & Hr & Hsafe). destruct (Hsafe d Hr HI) as (HI' & HG & Hk).
    assert (Hstep : rely Inv Guar d (tx d).2) by (apply rtc_once; auto). split; [|done].
    eapply rworld_ok_insert; [|apply rtc_refl|exact Hk]. split_and!; [done|..]; simpl.
    + eapply Forall_impl; [exact Hsn|]. intros s Hs. eapply stable_rely; [apply snap_ok_stable|exact Hstep|done].
    + apply Forall_lookup. intros j q Hq. destruct (Hp j q Hq) as (d1 & Hr1 & Hs1). exists d1. split; [by etrans|done].
  - split; [|apply rtc_refl]. destruct (Hp i _ Hi) as (d0 & Hr & Hsafe). eapply rworld_ok_insert; [done|exact Hr|by apply Hsafe].
  - split; [|apply rtc_refl]. destruct (Hp i _ Hi) as (d0 & Hr & Hsafe). eapply rworld_ok_insert; [done|exact Hr|by apply Hsafe].
  - split; [|apply rtc_refl]. destruct (Hp i _ Hi) as (d0 & Hr & Hsafe). split_and!; [done| |by apply Forall_lookup]. simpl.
    constructor; [|done]. eapply stable_rely; [apply snap_ok_stable|exact Hr|]. by apply Hsafe.
Qed.

Lemma rsteps_ok w w' : rtc rstep w w' -> rworld_ok w -> rworld_ok w' /\ rely Inv Guar (w_db w) (w_db w').
Proof.
  induction 1 as [w|w w1 w2 Hs _ IH]; intros Hok; [split; [done|apply rtc_refl]|].
  destruct (rstep_ok _ _ Hok Hs) as [Hok1 Hr1]. destruct (IH Hok1) as [Hok2 Hr2]. split; [done|by etrans].
Qed.

Lemma reachable_ok w : reachable w -> rworld_ok w.
Proof.
  intros Hr. apply (rsteps_ok _ _ Hr). split_and!; [|constructor..]. simpl.
  assert (Hrec : records_of ns empty_database = ∅) by done. split.
  - intros r raw. by rewrite Hrec, lookup_empty.
  - left. unfold RatchetCommit.abs. by rewrite Hrec.
Qed.

(** ** The theorems *)

(** C4: however the operations of any number of tabs interleave, the control
    record counts exactly what the namespace holds: the number of its records,
    the sum of their sizes and the number of one-time keys that are neither
    consumed nor closed; and none of the three exceeds its limit.  (Before the
    first tab has initialized the store, and after a sign-out, the namespace is
    empty.) *)
Theorem quotas_exact w : reachable w ->
  abs (w_db w) = ∅ \/
  exists c, control_at (abs (w_db w)) c /\
    count_ c = total one (abs (w_db w)) /\ bytes_ c = total size_ (abs (w_db w)) /\ obligations c = total open_ (abs (w_db w)) /\
    count_ c <= Limits.records /\ bytes_ c <= Limits.bytes /\ obligations c <= Limits.otks.
Proof.
  intros ([_ Hm] & _)%reachable_ok. destruct Hm as [Hm|(c & Hc & (H1 & H2 & H3) & (H4 & H5 & H6) & _)]; [by left|].
  right. by exists c.
Qed.

Lemma rely_evolves d d' : rely Inv Guar d d' -> generation (current d) = generation (current d') ->
  forall r, evolves r (abs d !! r) (abs d' !! r).
Proof.
  induction 1 as [d|d d1 d2 (_ & _ & [_ Hg]) Hrest IH]; intros He r; [apply evolves_refl|].
  apply Guar_rely in Hrest as [_ Hmono]. destruct Hg as [Hlt|(Heq & Hev & _)]; [lia|].
  eapply evolves_trans; [apply Hev|apply IH; lia].
Qed.

(** C5: records live only forward.  Between any two moments of one generation
    a record either is the same or has a higher revision, and then: a revoked
    trust record stays revoked; received messages and claims never change; a
    send keeps its packets, archive and frozen attempt, and its receipt and
    outcome are final; a session keeps its context, stays retired and never
    acquires a claim; a one-time key stays consumed or closed; a transition
    keeps its reset, its receipt is final and it stays abandoned; the core key
    never changes, and the account epoch, and within an epoch the attempt
    counter, never go back. *)
Theorem records_live_forward w w' : reachable w -> rtc rstep w w' ->
  generation (current (w_db w)) = generation (current (w_db w')) ->
  forall r, evolves r (abs (w_db w) !! r) (abs (w_db w') !! r).
Proof. intros Hr Hs Hg. apply rely_evolves; [|done]. by apply (rsteps_ok _ _ Hs), reachable_ok. Qed.

(** An attempt number is used once: two sends that carry a frozen attempt
    of the same account epoch and sequence are the same record, and no stored
    attempt is ahead of the counter of the control record. *)
Theorem attempts_unique w r1 r2 e n : reachable w ->
  attempt_at (abs (w_db w)) r1 e n -> attempt_at (abs (w_db w)) r2 e n ->
  r1 = r2 /\ exists c, control_at (abs (w_db w)) c /\ (e < accountEpoch c \/ e = accountEpoch c /\ n <= nextAttempt c).
Proof.
  intros ([_ Hm] & _)%reachable_ok Ha1 Ha2. destruct Hm as [Hm|(c & Hc & _ & _ & [Hle Hu] & _)].
  { destruct Ha1 as [_ (v & b & Hv & _)]. rewrite Hm in Hv. by rewrite lookup_empty in Hv. }
  split; [by eapply Hu|]. exists c. split; [done|]. by eapply Hle.
Qed.

Lemma rstep_guar w w' : rworld_ok w -> rstep w w' -> Guar (w_db w) (w_db w').
Proof.
  intros (HI & _ & Hp) Hs.
  destruct Hs as [| d snaps pool i B tx k Hi | | |]; simpl in *; try apply Guar_refl.
  rewrite Forall_lookup in Hp. destruct (Hp i _ Hi) as (d0 & Hr & Hsafe). by destruct (Hsafe d Hr HI) as (_ & ? & _).
Qed.

(** A blocked account creates nothing: in one generation a step adds a
    send, a claim, a publication or a transition only when the control record
    says, at that very moment, that sending is not blocked. *)
Theorem blocked_creates_nothing w w' (r : ref) : reachable w -> rstep w w' ->
  generation (current (w_db w)) = generation (current (w_db w')) -> r.1 ∈ sending_kinds ->
  abs (w_db w) !! r = None -> is_Some (abs (w_db w') !! r) ->
  exists c, control_at (abs (w_db w)) c /\ sendingBlocked c = false.
Proof.
  intros Hr Hs Hg Hk Hn Hy. destruct (rstep_guar w w' (reachable_ok w Hr) Hs) as [_ [Hlt|(_ & _ & Hc)]]; [lia|].
  by eapply Hc.
Qed.

(** ** Running one operation *)

(** [n] steps of a program, with [rand] for random bytes and [now] for the clock. *)
Fixpoint steps {A} (n : nat) (rand : nat -> list Z) (now : Z) (p : prog A) (d : database) : prog A * database :=
  match n with
  | O => (p, d)
  | S n' => match p with
            | Ret r => (p, d)
            | Atomic tx k => steps n' rand now (k (tx d).1) (tx d).2
            | Random m k => steps n' rand now (k (rand m)) d
            | Clock k => steps n' rand now (k now) d
            end
  end.

Lemma steps_world n rand now p d snaps pool i : (forall m, length (rand m) = m) -> pool !! i = Some p ->
  rtc rstep (World d snaps pool) (World (steps n rand now p d).2 snaps (<[i := (steps n rand now p d).1]> pool)).
Proof.
  intros Hrand. revert p d pool. induction n as [|n IH]; intros p d pool Hi; cbn [steps fst snd].
  { rewrite list_insert_id by done. apply rtc_refl. }
  assert (Hset : forall q, (<[i := q]> pool) !! i = Some q).
  { intros q. apply list_lookup_insert_eq. by eapply lookup_lt_Some. }
  destruct p as [r|B tx k|m k|k]; cbn [fst snd].
  - rewrite list_insert_id by done. apply rtc_refl.
  - eapply rtc_l; [by apply (r_tx d snaps pool i B tx k)|].
    specialize (IH (k (tx d).1) (tx d).2 (<[i := k (tx d).1]> pool) (Hset _)). by rewrite list_insert_insert_eq in IH.
  - eapply rtc_l; [by apply (r_random d snaps pool i m k (rand m))|].
    specialize (IH (k (rand m)) d (<[i := k (rand m)]> pool) (Hset _)). by rewrite list_insert_insert_eq in IH.
  - eapply rtc_l; [by apply (r_clock d snaps pool i k now)|].
    specialize (IH (k now) d (<[i := k now]> pool) (Hset _)). by rewrite list_insert_insert_eq in IH.
Qed.

(** Start a call and run its first [n] steps. *)
Definition launch (n : nat) (rand : nat -> list Z) (now : Z) (c : call) (w : world) : world :=
  let r := steps n rand now (run c) (w_db w) in
  World r.2 (w_snaps w) (w_pool w ++ [r.1]).

(** Collect the snapshot of the last call. *)
Definition collect_last (w : world) : world :=
  match last (w_pool w) with
  | Some (Ret (Ok (Some s))) => World (w_db w) (s :: w_snaps w) (w_pool w)
  | _ => w
  end.

Lemma launch_steps n rand now c w : (forall m, length (rand m) = m) -> (forall s, s ∈ given_snapshots c -> s ∈ w_snaps w) ->
  rtc rstep w (launch n rand now c w).
Proof.
  intros Hrand Hs. destruct w as [d snaps pool]. unfold launch. simpl in *.
  eapply rtc_l; [by apply r_start|].
  pose proof (steps_world n rand now (run c) d snaps (pool ++ [run c]) (length pool) Hrand) as Hst.
  rewrite insert_app_r_alt in Hst by lia. rewrite Nat.sub_diag in Hst. simpl in Hst. apply Hst.
  rewrite lookup_app_r by lia. by rewrite Nat.sub_diag.
Qed.

Lemma collect_steps w : rtc rstep w (collect_last w).
Proof.
  destruct w as [d snaps pool]. unfold collect_last. simpl. destruct (last pool) as [p|] eqn:El; [|apply rtc_refl].
  destruct p as [[[s|]|e]| | |]; try apply rtc_refl. apply rtc_once. rewrite last_lookup in El. by eapply r_result.
Qed.

Lemma reach_launch n rand now c w : (forall m, length (rand m) = m) -> reachable w ->
  (forall s, s ∈ given_snapshots c -> s ∈ w_snaps w) -> reachable (launch n rand now c w).
Proof. intros Hrand Hr Hs. unfold reachable. etrans; [exact Hr|by apply launch_steps]. Qed.

Lemma reach_collect w : reachable w -> reachable (collect_last w).
Proof. intros Hr. unfold reachable. etrans; [exact Hr|apply collect_steps]. Qed.
(** Does the program still have a step to make? *)
Definition unfinished {A} (p : prog A) : bool := match p with Ret _ => false | _ => true end.

Lemma steps_S {A} n rand now (p : prog A) d :
  steps (S n) rand now p d = steps 1 rand now (steps n rand now p d).1 (steps n rand now p d).2.
Proof.
  revert p d. induction n as [|n IH]; intros p d; [by destruct p|].
  destruct p as [r|B tx k|m k|k]; [done|..]; exact (IH _ _).
Qed.

Lemma launch_S n rand now c w : (forall m, length (rand m) = m) ->
  unfinished (steps n rand now (run c) (w_db w)).1 = true -> rstep (launch n rand now c w) (launch (S n) rand now c w).
Proof.
  intros Hrand. unfold launch. rewrite steps_S. destruct (steps n rand now (run c) (w_db w)) as [p d]. cbn [fst snd].
  set (pool := w_pool w). assert (Hlast : (pool ++ [p]) !! length pool = Some p) by (rewrite lookup_app_r by lia; by rewrite Nat.sub_diag).
  assert (Hset : forall q, pool ++ [q] = <[length pool := q]> (pool ++ [p])).
  { intros q. rewrite insert_app_r_alt by lia. by rewrite Nat.sub_diag. }
  destruct p as [r|B tx k|m k|k]; intros Hu; [done|..]; cbn [steps fst snd].
  - rewrite (Hset (k (tx d).1)). by apply r_tx with (tx := tx).
  - rewrite (Hset (k (rand m))). by apply r_random with (n := m).
  - rewrite (Hset (k now)). by apply r_clock.
Qed.
End history.
