(* ===== verification/RatchetFence.v ===== *)
(** * Operations of the ratchet store stay in their generation

    Every operation of the ratchet store works on a snapshot, and a snapshot
    carries the identity generation it was read in.  With the logic [only] of
    DbAtomic.v, [operations_stay_in_generation] shows that an operation
    never writes a ratchet record in a generation other than its snapshot's. *)

From stdpp Require Import base gmap list strings.
From Stdlib Require Import ZArith Lia.
From S2P Require Import Prelude Json Text OlmAdmission OlmReset Db DbAtomic RatchetStore RatchetCommit RatchetSafety RatchetHistory.

(** ** Fenced writes *)

Section fenced.
Context `{Cipher}.
Variable sha256 : list Z -> list Z.
Variable cv : curves.
Variable ns : names.
Variable g : Z.

(** Nothing moves the fence; records change only in generation [g]. *)
Definition within_generation (d d' : database) : Prop :=
  current d' = current d /\ (ratchet d' = ratchet d \/ generation (current d) = g /\ active (current d) = true).
Abbreviation fenced p := (only within_generation p (fun _ => True)).
Abbreviation fresh_snapshot := (fun f : snapshot => generation (s_fence f) = g).

Lemma within_refl d : within_generation d d.
Proof. split; [done|by left]. Qed.

Lemma view_fenced {A} (f : database -> A) : fenced (view f).
Proof. intros d. split; [apply within_refl|done]. Qed.

Lemma wrappingKey_fenced create : fenced (wrappingKey create).
Proof.
  eapply only_bind; [apply view_fenced|]. intros [k|] _; [exact I|]. destruct create; [|exact I]. intros b d.
  split; [|destruct (choose_key b d).1; exact I]. cbn [fst snd]. unfold choose_key. destruct (wrapping_key d); [apply within_refl|].
  destruct (holds_data d); [apply within_refl|]. split; [done|by left].
Qed.

Lemma seal_fenced plain aad : fenced (seal plain aad).
Proof. intros b. eapply only_bind; [apply wrappingKey_fenced|]. intros k _. exact I. Qed.

Lemma unseal_fenced x aad : fenced (unseal x aad).
Proof. eapply only_bind; [apply wrappingKey_fenced|]. intros k _. destruct (decrypt _ _ _ _); exact I. Qed.

Lemma decode_fenced r raw : fenced (decode ns r raw).
Proof.
  unfold decode. destruct raw as [x|]; [|exact I]. apply only_pure. intros v _.
  eapply only_settle; [apply unseal_fenced|intros; exact I..].
Qed.

Lemma encode_all_fenced s l : fenced (encode_all ns s l).
Proof.
  induction l as [|[r plain] l IH]; [exact I|]. cbn [encode_all]. apply only_pure. intros rec _.
  eapply only_bind with (Q := fun _ => True).
  - unfold encode. apply only_pure. intros v _. eapply only_bind; [apply seal_fenced|intros; exact I].
  - intros raw _. eapply only_bind; [exact IH|intros; exact I].
Qed.

Lemma read_fenced refs : fenced (read ns refs).
Proof.
  unfold read. apply only_pure. intros _ _. eapply only_bind; [apply view_fenced|]. intros [[f m] raws] _.
  destruct (active f); [|exact I]. eapply only_bind with (Q := fun _ => True).
  - generalize (@nil (ref * rec)), 0. induction raws as [|[r raw] raws IH]; intros acc total; [exact I|]. cbn [decode_all].
    eapply only_bind; [apply decode_fenced|]. intros v _. destruct (_ <? _); [exact I|apply IH].
  - intros records _. destruct (exists_ _); exact I.
Qed.

Lemma commit_fenced s changes u : generation (s_fence s) = g -> fenced (commit ns s changes u).
Proof.
  intros Hg. unfold commit. apply only_pure. intros _ _. apply only_pure. intros c0 _. apply only_pure. intros [c total] _.
  destruct (_ && _); [|exact I]. eapply only_bind; [apply encode_all_fenced|]. intros prepared _ d.
  split; [|destruct (commit_tx ns s prepared d).1; exact I]. unfold commit_tx.
  destruct (active (current d)) eqn:Ea; [|apply within_refl]. cbn [negb orb].
  destruct (Z.eqb_spec (generation (current d)) (generation (s_fence s))) as [E|]; [|apply within_refl]. cbn [negb].
  destruct (forallb _ _); [|apply within_refl]. split; [done|]. right. split; [congruence|done].
Qed.

Lemma extended_fenced s refs : generation (s_fence s) = g -> only within_generation (extended ns s refs) fresh_snapshot.
Proof.
  intros Hg. unfold extended. apply only_pure. intros _ _. eapply only_bind; [apply read_fenced|]. intros f _.
  destruct (Z.eqb_spec (generation (s_fence f)) (generation (s_fence s))); [|exact I]. cbn. congruence.
Qed.

(** ** The operations *)

(** One step of a program that is a chain of reads, checks and commits. *)
Ltac fenced_step :=
  match goal with
  | |- only _ (pbind (Ret _) _) _ => apply only_pure; intros ? ?
  | |- only _ (pbind (extended _ _ _) _) _ => eapply only_bind; [apply extended_fenced; assumption|intros ? ?]
  | |- only _ (pbind (commit _ _ _ _) _) _ => eapply only_bind; [apply commit_fenced; assumption|intros _ _]
  | |- only _ (settle (commit _ _ _ _) _) _ => eapply only_settle; [apply commit_fenced; assumption|intros _ _|intros ?]
  | |- only _ (Clock _) _ => intros ?
  | |- only _ (if ?b then _ else _) _ => destruct b
  | |- only _ (match ?x with _ => _ end) _ => destruct x
  | |- only _ (commit _ _ _ _) _ => apply commit_fenced; assumption
  | |- only _ (let _ := _ in _) _ => cbv zeta
  | |- only _ (Db.done _) _ => first [exact I | assumption]
  | |- only _ (throw _) _ => exact I
  | |- only _ (Ret (Err _)) _ => exact I
  end.
Ltac fenced := repeat fenced_step.

Lemma validated_fenced s refs : generation (s_fence s) = g -> only within_generation (validated ns s refs) fresh_snapshot.
Proof.
  intros Hg. unfold validated. generalize 16%nat. intros n. induction n as [|n IH]; cbn [validated_rounds]; fenced. exact IH.
Qed.

Lemma retry_fenced n s id : generation (s_fence s) = g -> fenced (retry_rounds ns n s id).
Proof. revert s. induction n as [|n IH]; intros s Hg; cbn [retry_rounds]; fenced; by apply IH. Qed.

Lemma candidate_fenced n after acct acc : fenced (candidate_refs ns n after acct acc).
Proof.
  revert after acc. induction n as [|n IH]; intros after acc; [exact I|]. cbn [candidate_refs]. eapply only_bind with (Q := fun _ => True).
  - unfold pendingRefs. destruct (_ && _); [|exact I]. eapply only_bind; [apply view_fenced|]. intros f _.
    destruct (active f); [|exact I]. apply view_fenced.
  - intros page _. eapply only_bind; [apply read_fenced|]. intros records _. apply only_pure. intros mine _.
    destruct (_ <? _); [exact I|apply IH].
Qed.

Lemma status_fenced s id : generation (s_fence s) = g -> fenced (attemptStatusRequest sha256 ns s id).
Proof. intros Hg. unfold attemptStatusRequest. eapply only_bind; [by apply validated_fenced|]. intros f Hf. fenced. Qed.

Lemma authority_fenced s : generation (s_fence s) = g -> fenced (accountAuthority ns s).
Proof. intros Hg. unfold accountAuthority. eapply only_bind; [by apply validated_fenced|]. intros f Hf. fenced. Qed.

Lemma prepare_fenced s acct account reset bundle otks recovery : generation (s_fence s) = g ->
  fenced (prepareAccountTransition sha256 cv ns s acct account reset bundle otks recovery).
Proof. intros Hg. unfold prepareAccountTransition. fenced. Qed.

(** Every operation that is given a snapshot of generation [g]. *)
Lemma run_fenced c s : given_snapshots c = [s] -> generation (s_fence s) = g ->
  only within_generation (run sha256 cv ns c) (fun _ => True).
Proof.
  intros Hs Hg.
  assert (Hq : forall A (p : prog A) (Q : A -> Prop), only within_generation p Q -> fenced (quiet p)).
  { intros A p Q Hp. eapply only_bind; [exact Hp|]. intros a _. exact I. }
  assert (Hk : forall p (Q : snapshot -> Prop), only within_generation p Q -> fenced (keep_snapshot p)).
  { intros p Q Hp. eapply only_bind; [exact Hp|]. intros a _. exact I. }
  destruct c; cbn [given_snapshots] in Hs; try discriminate; injection Hs as ->; cbn [run];
    first [eapply Hk, validated_fenced; exact Hg | eapply Hq with (Q := fun _ => True)];
    try (by apply retry_fenced); try (by apply status_fenced); try (by apply authority_fenced);
    try (by apply prepare_fenced); unfold setTrust, commitAttempt, commitSend, ack, commitReceive, commitPublication, reserveClaim, attemptWire,
      attemptRetirementRequest, applyAttemptResult, checkAccountAuthority, noteRetired, prepareRecoveryTransition,
      abandonRecoveryTransition, promoteAccount, accountTransitionRequest, retireUnsubmittedKeys, retirePeerSessions;
    try (eapply only_bind; [by apply retry_fenced|intros ? ?]);
    try (eapply only_bind; [by apply status_fenced|intros ? ?]);
    try (eapply only_bind; [by apply authority_fenced|intros ? ?]);
    fenced; try (by apply prepare_fenced).
  eapply only_bind; [apply candidate_fenced|intros refs _]. fenced.
Qed.
End fenced.

(** C24: an operation stays in its snapshot's generation.  Whatever happens
    between its transactions (sign-out, another account, other tabs), an
    operation of the ratchet store never moves the identity fence, and each of
    its transactions that changes a ratchet record runs while the identity is
    active and of the generation the snapshot was read in: after a sign-out
    nothing of the old account is written back. *)
Theorem operations_stay_in_generation `{Cipher} sha256 cv ns env c s d l r d' : given_snapshots c = [s] ->
  exec env (run sha256 cv ns c) d l r d' ->
  Forall (fun t => current t.2 = current t.1 /\
    (ratchet t.2 = ratchet t.1 \/ generation (current t.1) = generation (s_fence s) /\ active (current t.1) = true)) l.
Proof.
  intros Hs He. exact (only_exec _ env _ _ _ _ _ _ (run_fenced sha256 cv ns (generation (s_fence s)) c s Hs eq_refl) He).
Qed.
