(* ===== verification/RatchetRetired.v ===== *)
(** * The retirement watermark ([noteRetired], ratchet-store.js)

    The control record remembers which attempts of an epoch are retired as a
    contiguous watermark and the sparse sequences above it.  [noteRetired]
    inserts one sequence and moves the watermark over what became contiguous. *)

From stdpp Require Import base list sorting.
From Stdlib Require Import ZArith Lia.
From S2P Require Import Prelude Json Text OlmAdmission Db RatchetStore.

(** The sequences a watermark and a list above it stand for. *)
Definition is_retired (thr : Z) (abv : list Z) (n : Z) : Prop := n <= thr \/ n ∈ abv.

(** The list is strictly increasing and starts beyond the watermark's
    successor: the watermark is as high as it can be. *)
Definition normal (thr : Z) (abv : list Z) : Prop := StronglySorted Z.lt abv /\ Forall (fun n => thr + 1 < n) abv.

Lemma sorted_lt l : StronglySorted Z.le l -> NoDup l -> StronglySorted Z.lt l.
Proof.
  induction 1 as [|x l _ IH Hx]; intros Hn; [constructor|]. apply NoDup_cons in Hn as [Hni Hn]. constructor; [auto|].
  rewrite Forall_forall in *. intros y Hy. specialize (Hx y Hy). assert (x <> y) by (intros ->; done). lia.
Qed.

Lemma insert_above_spec seq abv : StronglySorted Z.lt abv -> seq ∉ abv ->
  StronglySorted Z.lt (insert_above seq abv) /\ forall n, n ∈ insert_above seq abv <-> n ∈ abv \/ n = seq.
Proof.
  intros Hs Hni. unfold insert_above. assert (Hp : merge_sort Z.le (abv ++ [seq]) ≡ₚ abv ++ [seq]) by apply merge_sort_Permutation.
  split.
  - apply sorted_lt; [apply StronglySorted_merge_sort; apply _|]. rewrite Hp. apply NoDup_app. split_and!.
    + clear -Hs. induction Hs as [|x l _ IH Hx]; [constructor|]. constructor; [|done]. intros Hin. rewrite Forall_forall in Hx.
      specialize (Hx x Hin). lia.
    + intros x Hx ->%list_elem_of_singleton. done.
    + apply NoDup_singleton.
  - intros n. rewrite Hp, elem_of_app, list_elem_of_singleton. done.
Qed.

Lemma advance_spec thr l : StronglySorted Z.lt l -> Forall (fun n => thr < n) l ->
  let (thr', abv') := advance thr l in
  normal thr' abv' /\ thr <= thr' /\ forall n, is_retired thr' abv' n <-> is_retired thr l n.
Proof.
  revert thr. induction l as [|x l IH]; intros thr Hs Hl; cbn [advance].
  - split_and!; [by repeat constructor|lia|done].
  - inversion Hs as [|? ? Hs' Hx]; subst. apply Forall_cons in Hl as [Hlt Hl]. rewrite Forall_forall in Hx.
    destruct (Z.eqb_spec x (thr + 1)) as [->|Hne].
    + specialize (IH (thr + 1) Hs'). destruct (advance (thr + 1) l) as [thr' abv']. destruct IH as (Hn & Hle & Hiff).
      { apply Forall_forall. intros y Hy. by apply Hx. }
      split_and!; [done|lia|]. intros n. rewrite Hiff. unfold is_retired. rewrite elem_of_cons.
      split; [|intros [?|[?|?]]; [left; lia|left; lia|by right]].
      intros [H|H]; [|auto]. destruct (decide (n = thr + 1)); [auto|left; lia].
    + split_and!; [|lia|done]. split; [done|]. constructor; [lia|]. apply Forall_forall. intros y Hy. specialize (Hx y Hy). lia.
Qed.

(** Retiring an attempt that was not retired adds exactly its sequence: the
    new watermark and list stand for the old sequences and the new one and no
    other, the watermark never goes back and is as high as it can be, so the
    list stays strictly increasing and free of what the watermark covers. *)
Theorem retire_adds_one thr abv seq : normal thr abv -> ~ is_retired thr abv seq ->
  let (thr', abv') := advance thr (insert_above seq abv) in
  normal thr' abv' /\ thr <= thr' /\ forall n, is_retired thr' abv' n <-> is_retired thr abv n \/ n = seq.
Proof.
  intros [Hs Hl] Hn. assert (Hni : seq ∉ abv) by (intros ?; apply Hn; by right). assert (Hlt : thr < seq) by (destruct (decide (seq <= thr)); [exfalso; apply Hn; by left|lia]).
  destruct (insert_above_spec seq abv Hs Hni) as [Hs' Hin]. pose proof (advance_spec thr _ Hs') as Ha.
  destruct (advance thr (insert_above seq abv)) as [thr' abv']. destruct Ha as (H1 & H2 & H3).
  - apply Forall_forall. intros n [Hn'| ->]%Hin; [|done]. rewrite Forall_forall in Hl. specialize (Hl n Hn'). lia.
  - split_and!; [done|done|]. intros n. rewrite H3. unfold is_retired. rewrite Hin. tauto.
Qed.

Lemma retire_adds_one_witness : advance 2 (insert_above 3 [5; 9]) = (3, [5; 9]) /\ normal 3 [5; 9].
Proof.
  assert (Hn : normal 2 [5; 9]) by (split; repeat constructor; lia).
  pose proof (retire_adds_one 2 [5; 9] 3 Hn) as H. split; [vm_compute; reflexivity|]. apply H. intros [H1|H1]; [lia|].
  rewrite !elem_of_cons in H1. destruct H1 as [H1|[H1|H1]]; [lia..|]. by apply not_elem_of_nil in H1.
Defined.
