(* ===== verification/RatchetDemo.v ===== *)
(** * A history of the ratchet store, run

    One tab initializes the store, trusts a peer's device, reserves a claim and
    commits a send attempt; the transparent cipher stands for AES-GCM.  The
    run is evaluated and gives every theorem of [RatchetHistory] a state where
    its hypotheses hold. *)

From stdpp Require Import base gmap list strings sorting.
From Stdlib Require Import ZArith Lia.
From S2P Require Import Prelude Json Text OlmAdmission OlmReset Db DbAtomic RatchetStore RatchetCommit RatchetSafety RatchetHistory RatchetFence.

Module RatchetDemo.
Open Scope string_scope.

#[export] Program Instance plain_cipher : Cipher :=
  {| encrypt _ _ _ p := p; decrypt _ _ _ c := Some c |}.
Solve Obligations with done.

Definition rand (n : nat) : list Z := repeat 7 n.
Lemma rand_length m : length (rand m) = m.
Proof. apply repeat_length. Qed.

Definition ns : names := Names Sample.server "alice" "a1".
Definition cv : curves := ResetSample.cv.
Definition sha := Sample.sha.

(** The copy for bob's device, on a first-contact session with its claim. *)
Definition copy : json := jset "claim_id" (JStr "c1") Sample.copy.
Definition frozen : json * list (list Z) :=
  Eval vm_compute in match freezeAttempt sha Sample.manifest [copy] with Ok r => r | Err _ => (JNull, []) end.

Definition ctx : json :=
  JObj [("peer_principal", JStr "bob"); ("peer_device", JStr "b1"); ("peer_identity", JStr "id-b1");
        ("scope", JStr DEVICE_PAIR_SCOPE); ("protocol", JStr "noxa-olm-v1"); ("local_account_id", JStr "local");
        ("local_epoch", JNum 1); ("peer_epoch", JNum 2)].
Definition envelope_bytes : list Z := jsonBytes Sample.envelope.
Definition the_packet : packet :=
  Packet "olm:s1" "t1" envelope_bytes [1; 2; 3] (Some ctx)
    (Some (JObj [("claim_id", JStr "c1"); ("claim_until", JNum 1800000000)])) None.

Definition refs : list ref := [("trust", "t1"); ("session", "olm:s1"); ("claim", "c1")].
Definition empty_world : world := World empty_database [] [].
Definition empty_snapshot : snapshot := Snapshot ns defaultFence [].
Definition newest (w : world) : snapshot := default empty_snapshot (head (w_snaps w)).

Definition go (n : nat) (c : call) (w : world) : world := launch sha cv ns n rand 1700000000 c w.
Definition read_all (w : world) : world := collect_last (go 60 (Read refs) w).

Definition w1 : world := read_all (go 60 Initialize empty_world).
Definition w2 : world := go 60 (SetTrust (newest w1) "t1" (JStr "bob") false) w1.
Definition w3 : world := read_all w2.
Definition send : call := CommitAttempt (newest w3) frozen.1 frozen.2 [the_packet] [9; 9].
(** The attempt just before, and just after, its commit transaction. *)
Definition w4 (n : nat) : world := go n send w3.

(** Every world of the run is reachable. *)
Abbreviation reached := (reachable sha cv ns).

Lemma start_reachable : reached empty_world.
Proof. apply rtc_refl. Qed.

Lemma go_reachable n c w : reached w -> (forall s, s ∈ given_snapshots c -> s ∈ w_snaps w) -> reached (go n c w).
Proof. intros. by apply reach_launch; [apply rand_length|..]. Qed.

Lemma read_all_reachable w : reached w -> reached (read_all w).
Proof. intros. apply reach_collect, go_reachable; [done|]. intros s Hs. by apply not_elem_of_nil in Hs. Qed.

Lemma w1_reachable : reached w1.
Proof. apply read_all_reachable, go_reachable; [apply start_reachable|]. intros s Hs. by apply not_elem_of_nil in Hs. Qed.

Lemma newest_given w s : bool_decide (is_Some (head (w_snaps w))) = true -> s ∈ [newest w] -> s ∈ w_snaps w.
Proof.
  intros [s' Hs]%bool_decide_eq_true ->%list_elem_of_singleton. unfold newest. destruct (w_snaps w); [done|]. left.
Qed.

Lemma w3_reachable : reached w3.
Proof. apply read_all_reachable, go_reachable; [apply w1_reachable|]. intros s. apply newest_given. by vm_compute. Qed.

Lemma send_given s : s ∈ given_snapshots send -> s ∈ w_snaps w3.
Proof. apply newest_given. by vm_compute. Qed.

Lemma w4_reachable n : reached (w4 n).
Proof. apply go_reachable; [apply w3_reachable|apply send_given]. Qed.

(** The send is committed by the thirteenth step of its operation. *)
Definition sent : ref := ("outbox", "1:1").

Lemma send_step : rstep sha cv ns (w4 12) (w4 13).
Proof. unfold w4, go. apply (launch_S sha cv ns 12 rand 1700000000 send w3 rand_length). by vm_compute. Qed.

Lemma sent_before : abs ns (w_db (w4 12)) !! sent = None.
Proof. by vm_compute. Qed.
Lemma sent_after : is_Some (abs ns (w_db (w4 13)) !! sent).
Proof. apply (bool_decide_unpack _). by vm_compute. Qed.
Lemma same_generation : generation (current (w_db (w4 12))) = generation (current (w_db (w4 13))).
Proof. by vm_compute. Qed.

Lemma attempt_found (m : gmap ref rec) (r : ref) e n : r.1 = "outbox" ->
  (m !! r) ≫= (fun v => parse (data v) ≫= attempt_id_of) = Some (e, n) -> attempt_at m r e n.
Proof. intros Hk (v & Hv & (b & Hb & Hid)%bind_Some)%bind_Some. split; [done|]. by exists v, b. Qed.

Lemma sent_attempt : attempt_at (abs ns (w_db (w4 13))) sent 1 1.
Proof. apply attempt_found; [reflexivity|]. vm_compute. reflexivity. Qed.

(** ** Witnesses *)

Lemma quotas_exact_witness :
  abs ns (w_db (w4 13)) = ∅ \/
  exists c, control_at (abs ns (w_db (w4 13))) c /\
    count_ c = total one (abs ns (w_db (w4 13))) /\ bytes_ c = total size_ (abs ns (w_db (w4 13))) /\
    obligations c = total open_ (abs ns (w_db (w4 13))) /\
    count_ c <= Limits.records /\ bytes_ c <= Limits.bytes /\ obligations c <= Limits.otks.
Proof. apply (quotas_exact sha cv ns). apply w4_reachable. Defined.

Lemma records_live_forward_witness :
  evolves sent (abs ns (w_db (w4 12)) !! sent) (abs ns (w_db (w4 13)) !! sent).
Proof.
  apply (records_live_forward sha cv ns (w4 12) (w4 13)); [apply w4_reachable| |apply same_generation].
  apply rtc_once, send_step.
Defined.

Lemma attempts_unique_witness :
  exists c, control_at (abs ns (w_db (w4 13))) c /\ (1 < accountEpoch c \/ 1 = accountEpoch c /\ 1 <= nextAttempt c).
Proof.
  apply (attempts_unique sha cv ns (w4 13) sent sent 1 1); [apply w4_reachable|apply sent_attempt..].
Defined.

Lemma blocked_creates_nothing_witness :
  exists c, control_at (abs ns (w_db (w4 12))) c /\ sendingBlocked c = false.
Proof.
  apply (blocked_creates_nothing sha cv ns (w4 12) (w4 13) sent);
    [apply w4_reachable|apply send_step|apply same_generation|by left|apply sent_before|apply sent_after].
Defined.

(** The send, run on its own. *)
Lemma alone_ok {A} n (p : prog A) d : match alone n rand 1700000000 p d with Some (_, Ok _, _) => true | _ => false end = true ->
  exists l r d', exec eq p d l (Ok r) d'.
Proof.
  destruct (alone n rand 1700000000 p d) as [[[l [r|e]] d']|] eqn:E; [|discriminate..]. intros _. exists l, r, d'.
  by eapply alone_exec; [apply _|apply rand_length|].
Qed.

Lemma send_exec : exists l r d', exec eq (run sha cv ns send) (w_db w3) l (Ok r) d'.
Proof. apply (alone_ok 60). vm_compute. reflexivity. Qed.

Lemma send_snapshot : given_snapshots send = [newest w3].
Proof. reflexivity. Qed.

Lemma operations_stay_in_generation_witness : exists l r d', exec eq (run sha cv ns send) (w_db w3) l (Ok r) d' /\
  Forall (fun t => current t.2 = current t.1 /\
    (ratchet t.2 = ratchet t.1 \/ generation (current t.1) = generation (s_fence (newest w3)) /\ active (current t.1) = true)) l.
Proof.
  destruct send_exec as (l & r & d' & He). exists l, r, d'.
  exact (conj He (operations_stay_in_generation sha cv ns eq send (newest w3) (w_db w3) l (Ok r) d' send_snapshot He)).
Defined.
End RatchetDemo.
