(* ===== verification/RatchetConsumer.v ===== *)
(** * The message consumer ([ratchet-consumer.js])

    One instance belongs to one authenticated connection and drives the ratchet
    store: it pins the devices of other accounts, receives and decrypts what the
    server holds for this device, resolves what was sent, and hands received
    messages on.  Its operations run one at a time ([#serial]) on the instance's
    own state ([consumer]); the database they share with other tabs is [Db]'s.
    An operation is a program that also threads the instance's state ([M]).

    Outside the model, as parameters: the Olm core ([core]: the pinned WebAssembly
    module), the server ([admission]), the device keys of the root chain
    ([deviceKey]), a pending identity confirmation ([trustReset]), and
    [check], which fails once the connection or account is no longer current
    ([#check]).  What the instance hands on is the list [emitted] of its state, and
    what it asks of the server the list [asked].

    An error is its code; an error without a code is the empty text, or the
    message of [olm-reset.js].  Times are whole seconds where the source divides
    the clock by 1000. *)

From stdpp Require Import base gmap list strings sorting.
From Stdlib Require Import ZArith Lia.
From S2P Require Import Prelude Json Text OlmAdmission OlmControl OlmPayload Db OlmReset RatchetStore.

Definition RATCHET_PROTOCOL : string := "noxa-olm-v1".
Definition retireWindow : nat := 64.
Definition TERMINAL : list string := ["accepted"; "rejected"; "aborted"]%string.
Definition HISTORICAL_RECEIVE_WINDOW : Z := 7 * 24 * 3600.
Definition LOCAL_RETRY : nat := 3.
Definition DEADLINE_MARGIN : Z := 30.
Definition DETERMINISTIC_RECEIVE : list string :=
  ["invalid"; "unauthenticated"; "invalid_evidence"; "lost_key"; "fenced_copy"; "untrusted_device"; "revoked";
   "account_changed"; "identity_changed"; "legacy_session"; "session_mismatch"; "digest_mismatch"]%string.
Definition TRANSIENT_RECEIVE : list string :=
  ["core_unavailable"; "fenced"; "rate-limit"; "unavailable"; "conflict"; "aborted"; "local_conflict"]%string.
Definition RACE_RECEIVE : list string := ["lost_key"; "unauthenticated"]%string.

(** Does an error carry a code? *)
Definition coded (e : string) : bool := negb (bool_decide (e = ""%string)) && negb (bool_decide (e = bad)).

(** ** Pure helpers *)

(** [Number(id.split(":")[1])] of an attempt's ID "epoch:sequence". *)
Definition attempt_number (id : string) : option Z := snd (id_parts id) ≫= js_number.
Definition by_number (x y : string) : Prop := default 0 (attempt_number x) <= default 0 (attempt_number y).
#[global] Instance by_number_dec x y : Decision (by_number x y).
Proof. unfold by_number. apply _. Defined.

(** The unretired attempts one drain resolves: the oldest and the newest window. *)
Definition resolveOrder (ids : list string) (window : nat) : list string :=
  let sorted := merge_sort by_number ids in
  if (length sorted <=? 2 * window)%nat then sorted
  else take window sorted ++ drop (length sorted - window) sorted.

(** Attempts ordered by epoch and sequence; a later one replaces an earlier one
    of the same logical ID, in the place of the earlier. *)
Definition attempt_order (id : string) : Z * Z :=
  (default 0 (js_number (fst (id_parts id))), default 0 (attempt_number id)).
Definition attempt_le (x y : string * json) : Prop :=
  let '(ex, sx) := attempt_order x.1 in let '(ey, sy) := attempt_order y.1 in ex < ey \/ ex = ey /\ sx <= sy.
#[global] Instance attempt_le_dec x y : Decision (attempt_le x y).
Proof. unfold attempt_le. destruct (attempt_order x.1), (attempt_order y.1). apply _. Defined.
Definition latestAttempts (entries : list (string * json)) : list (string * json) :=
  OMap.values (foldl (fun m e => OMap.set (field "logicalID" e.2) e m) [] (merge_sort attempt_le entries)).

Inductive disposition := Retry | Skip | Quarantine.
Definition receiveDisposition (code : string) (committedElsewhere : bool) : disposition :=
  if negb (bool_decide (code ∈ DETERMINISTIC_RECEIVE)) then Retry
  else if committedElsewhere && bool_decide (code ∈ RACE_RECEIVE) then Skip
  else Quarantine.

Definition semanticKey (sender logicalID : json) : json :=
  JStr (text (stringify (JArr [JStr RATCHET_PROTOCOL; sender; logicalID]))).

Definition retiredIn (retired : Z * list Z) (id : string) : bool :=
  match attempt_number id with
  | Some seq => (seq <=? retired.1) || bool_decide (seq ∈ retired.2)
  | None => false
  end.

(** The one-time key named by an Olm prekey message: version 3, then field 1. *)
Definition initialOneTimeKey (body : option json) : result string string :=
  match body with
  | Some (JStr s) =>
    guard! utf16_length s <=? 8192 else "invalid"%string in
    match atob (s +:+ text (repeat 61 (Z.to_nat ((4 - utf16_length s `mod` 4) `mod` 4)))) with
    | None => Err ""%string
    | Some bytes =>
      guard! (35 <=? len bytes) && bool_decide (take 3 bytes = [3; 10; 32]) else "invalid"%string in
      Ok (text (strip_equals (b64 (take 32 (drop 3 bytes)))))
    end
  | _ => Err "invalid"%string
  end.

Definition trust_id (principal device : string) : string := text (stringify (JArr [JStr principal; JStr device])).

(** ** The instance *)

(** What is handed on: a record to the projections, a control to its handlers. *)
Inductive event := Projected (record : json) (isNew : bool) | Dispatched (control : json).

(** A readiness: the published identity, its epoch and its expiry. *)
Record readiness := Readiness { rd_identity : string; rd_epoch : Z; rd_expires : Z }.
(** A verified claim that is not committed yet. *)
Record kept_claim := Kept { k_id : string; k_key : option json; k_until : Z }.

Record consumer := Consumer {
  c_identity : string;                            (* this.identity *)
  c_ready : option (readiness * Z);               (* this.readiness, settled, with readyAt; readyValue is its value *)
  c_sticky : bool;                                (* this.sticky: recovery_required *)
  c_claims : list (string * kept_claim);          (* this.claims *)
  c_unretirable : list string;                    (* this.unretirable *)
  c_sessions : option (list (string * string));   (* this.sessions: JSON(context) -> session *)
  c_retired : list string;                        (* this.retired *)
  c_skewed : list string;                         (* this.skewed *)
  c_quarantined : list (string * json);           (* this.quarantined *)
  emitted : list event;
  asked : list json                               (* the requests to the server, in order *)
}.
#[global] Instance eta_consumer : Eta consumer := fun c =>
  Consumer (c_identity c) (c_ready c) (c_sticky c) (c_claims c) (c_unretirable c) (c_sessions c) (c_retired c) (c_skewed c) (c_quarantined c) (emitted c) (asked c).

Definition M (A : Type) : Type := consumer -> prog (result string A * consumer).
Definition mret {A} (a : A) : M A := fun c => Db.done (Ok a, c).
Definition mthrow {A} (e : string) : M A := fun c => Db.done (Err e, c).
Definition mtry {A B} (m : M A) (k : result string A -> M B) : M B := fun c => do! x := m c in k x.1 x.2.
Definition mbind_ {A B} (m : M A) (k : A -> M B) : M B :=
  mtry m (fun r => match r with Ok a => k a | Err e => mthrow e end).
Definition lift {A} (p : prog A) : M A := fun c => settle p (fun r => Db.done (r, c)).
Definition pure_ {A} (r : result string A) : M A := fun c => Db.done (r, c).
Definition mget : M consumer := fun c => Db.done (Ok c, c).
Definition mset (f : consumer -> consumer) : M unit := fun c => Db.done (Ok tt, f c).
Definition clock : M Z := lift (Clock (fun ms => Db.done ms)).

Notation "'m!' x ':=' m 'in' k" := (mbind_ m (fun x => k)) (at level 10, x pattern, k at level 200) : js_scope.
Notation "'test!' b 'else' e 'in' k" := (if b then k else mthrow e) (at level 10, k at level 200) : js_scope.

Definition mcatch {A} (m : M A) (h : string -> M A) : M A :=
  mtry m (fun r => match r with Ok a => mret a | Err e => h e end).

(** One verification stage: an unknown failure gets the stage's code. *)
Definition deterministic {A} (code : string) (m : M A) : M A :=
  mcatch m (fun e => mthrow (if bool_decide (e ∈ DETERMINISTIC_RECEIVE) || bool_decide (e ∈ TRANSIENT_RECEIVE) then e else code)).

Section consumer.
Context `{Cipher}.
Variable sha256 : list Z -> list Z.
Variable cv : curves.
Variable ns : names.
Variable check : prog unit.                                   (* #check *)
Variable admission : json -> prog json.                       (* frame 202 *)
Variable core : json -> prog json.                            (* core.apply *)
Variable deviceKey : string -> string -> prog (list Z).       (* the key bytes; [] when there is none *)
Variable trustReset : string -> prog string.                  (* a confirmed change's token, or "" *)
Variable trustResetDone : string -> string -> prog unit.
Variable projectors : nat.                                    (* how many projections are registered *)

Definition check_ : M unit := lift check.
Definition now : M Z := m! ms := clock in mret (ms / 1000).

(** ** The server *)

(** A rate limit is waited for, at most seven times. *)
Fixpoint net {A} (left_ : nat) (p : prog A) : M A :=
  m! _ := check_ in
  mtry (lift p) (fun r =>
    match r with
    | Ok x => m! _ := check_ in mret x
    | Err e =>
      if bool_decide (e = "rate-limit"%string) then match left_ with O => mthrow e | S l => net l p end else mthrow e
    end).

Definition call_ (request : json) : M json :=
  m! _ := mset (fun c => c <| asked := asked c ++ [request] |>) in
  net 7 (admission request).

Definition authority_ : M authority :=
  m! _ := check_ in
  m! s := lift (read ns []) in
  m! a := lift (accountAuthority ns s) in
  m! _ := check_ in
  test! negb (au_blocked a) && negb (bool_decide (au_account a = ""%string)) && (1 <=? au_epoch a) else "recovery_required"%string in
  mret a.

Definition handoff (a : authority) (request : json) : M json :=
  m! s := lift (read ns []) in
  m! _ := lift (checkAccountAuthority ns s (au_fence a) (au_account a) (au_epoch a)) in
  call_ (spread (JObj [("account_epoch", JNum (au_epoch a))]%string) request).

(** ** Listing records *)

(** Pages of 200; the namespace holds at most 100000 records. *)
Definition REF_PAGES : nat := 501.
Fixpoint refs_from (pages : nat) (kind after : string) (acc : list ref) : M (list ref) :=
  match pages with
  | O => mthrow "exhausted"%string
  | S more =>
    m! page := lift (pendingRefs ns kind after 200) in
    m! _ := check_ in
    match last page with
    | Some r => if (length page <? 200)%nat then mret (acc ++ page) else refs_from more kind r.2 (acc ++ page)
    | None => mret acc
    end
  end.
Definition refs (kind : string) : M (list ref) := refs_from REF_PAGES kind "" [].

Fixpoint chunks {A} (fuel : nat) (n : nat) (l : list A) : list (list A) :=
  match fuel, l with
  | S f, _ :: _ => take n l :: chunks f n (drop n l)
  | _, _ => []
  end.
Fixpoint read_chunks (l : list (list ref)) (acc : list (ref * rec)) : M (list (ref * rec)) :=
  match l with
  | [] => mret acc
  | c :: rest =>
    m! s := lift (read ns c) in
    m! _ := check_ in
    read_chunks rest (acc ++ map (fun r => (r, rec_of r s)) c)
  end.
Definition readMany (l : list ref) : M (list (ref * rec)) := read_chunks (chunks (length l) 200 l) [].

(** ** Trust *)

(** Idempotent steps retried after another tab won the compare-and-swap. *)
Fixpoint cas_retry {A} (left_ : nat) (m : M A) : M A :=
  mtry m (fun r =>
    match r with
    | Ok a => mret a
    | Err e => match left_ with
               | S l => if bool_decide (e = "conflict"%string) then m! _ := check_ in cas_retry l m else mthrow e
               | O => mthrow e
               end
    end).
Definition casRetry {A} (m : M A) : M A := cas_retry LOCAL_RETRY m.

Record trusted := Trusted { t_id : string; t_key : list Z; t_pin : option json; t_history : list json }.

(** The first two members of the reference's text, when it is an array. *)
Definition trust_ref (id : string) : option (json * option json) :=
  match parse (bytes_of id) with
  | Some (JArr (p :: rest)) => Some (p, head rest)
  | _ => None
  end.

Fixpoint reset_refs (principal : string) (l : list ref) : M unit :=
  match l with
  | [] => mret tt
  | r :: rest =>
    match trust_ref r.2 with
    | Some (p, device) =>
      if bool_decide (p = JStr principal) then
        m! s := lift (read ns [r]) in
        m! saved := pure_ (json_ (data (rec_of r s))) in
        if truthy (field "revoked" saved) then reset_refs principal rest
        else
          m! _ := lift (setTrust ns s r.2 (obj [("principal", Some (JStr principal)); ("device", device); ("noxa", Some JNull)]%string) false) in
          m! _ := check_ in
          reset_refs principal rest
      else reset_refs principal rest
    | None => reset_refs principal rest
    end
  end.

Definition resetTrustRecords (principal : string) : M unit :=
  m! l := refs "trust" in
  m! _ := reset_refs principal l in
  mset (fun c => c <| c_quarantined := filter (fun q => is_text (field "sender" q.2) principal = false) (c_quarantined c) |>).

Definition pinned (principal device : string) (key : list Z) : json :=
  JObj [("principal", JStr principal); ("device", JStr device); ("noxa", JStr (toBase64 key))]%string.

Definition trustOnce (principal device : string) : M trusted :=
  m! key := lift (deviceKey principal device) in
  m! _ := check_ in
  m! token := lift (trustReset principal) in
  let confirmed := negb (bool_decide (token = ""%string)) in
  m! _ := if confirmed then m! _ := check_ in m! _ := resetTrustRecords principal in check_ else mret tt in
  test! len key =? 32 else "untrusted_device"%string in
  let id := trust_id principal device in
  m! s := lift (read ns [("trust", id)%string]) in
  let r := rec_of ("trust", id)%string s in
  let pin_anew :=
    m! _ := lift (setTrust ns s id (pinned principal device key) false) in
    m! _ := check_ in
    m! _ := if confirmed then m! _ := lift (trustResetDone principal token) in check_ else mret tt in
    mret (Trusted id key None []) in
  if negb (exists_ r) then pin_anew
  else
    m! saved := pure_ (json_ (data r)) in
    test! negb (truthy (field "revoked" saved)) else "revoked"%string in
    let noxa := field_of "noxa" (field "value" saved) in
    if bool_decide (noxa = Some JNull) then pin_anew
    else
      test! is_text noxa (toBase64 key) else "account_changed"%string in
      mret (Trusted id key (present (field_of "pin" (field "value" saved))) (items (present (field_of "history" (field "value" saved))))).

Definition trust_ (principal device : string) : M trusted := casRetry (trustOnce principal device).

(** ** Moving a pin *)

Definition pin_of (p : json) : pin :=
  Pin (num_or 0 (field "epoch" p)) (str_of (field "identity" p)) (str_of (field "signing" p)).
Definition pin_json (p : pin) : json :=
  JObj [("epoch", JNum (epoch p)); ("identity", JStr (identity p)); ("signing", JStr (signing p))]%string.
Definition pin_is (p : json) (epoch_ : Z) (identity_ : option json) : bool :=
  bool_decide (field "epoch" p = Some (JNum epoch_)) && strict_eq (field "identity" p) identity_.

(** [verifyResetChain] with the pages fetched from the server: one page after
    the other, each walked from the pin reached so far. *)
Fixpoint chain_m (pages : nat) (fetch : Z -> M json) (o : owner) (target : Z) (cur : pin) (passed : list pin)
    : M (pin * list pin) :=
  if epoch cur <? target then
    match pages with
    | O => mthrow bad
    | S more =>
      m! page := fetch (epoch cur) in
      match page with
      | JArr l =>
        match by_old [] l with
        | None => mthrow bad
        | Some m =>
          m! (cur', passed') := pure_ (walk cv (length m) m o target cur passed) in
          if epoch cur' =? epoch cur then mthrow bad else chain_m more fetch o target cur' passed'
        end
      | _ => mthrow bad
      end
    end
  else mret (cur, passed).

Definition verify_chain (from : pin) (epoch_ : Z) (identity_ : option json) (o : owner) (fetch : Z -> M json)
    : M (pin * list pin) :=
  test! epoch from <? epoch_ else bad in
  m! (cur, passed) := chain_m MAX_RESET_CHAIN_PAGES fetch o epoch_ from [] in
  test! (epoch cur =? epoch_) && strict_eq (Some (JStr (identity cur))) identity_ else bad in
  mret (cur, passed).

Definition with_pin (t : trusted) (p : json) : trusted := Trusted (t_id t) (t_key t) (Some p) (t_history t).

(** The saved trust record, when it still holds the trusted key. *)
Definition saved_value (t : trusted) (s : snapshot) : M json :=
  m! saved := pure_ (json_ (data (rec_of ("trust", t_id t)%string s))) in
  test! negb (truthy (field "revoked" saved)) else "revoked"%string in
  mret (default JNull (field "value" saved)).

Definition fetch_page (a : authority) (device : string) (after : Z) : M json :=
  m! page := handoff a (JObj [("action", JStr "reset_chain"); ("target_device", JStr device); ("after_epoch", JNum after)]%string) in
  m! _ := check_ in
  mret page.

Definition passed_json (retiredAt : Z) (p : pin) : json := jset "retired_at" (JNum retiredAt) (pin_json p).

Definition promoteOnce (a : authority) (t : trusted) (principal device : string) (epoch_ : Z) (identity_ : option json) : M trusted :=
  m! s0 := lift (read ns [("trust", t_id t)%string]) in
  m! v0 := saved_value t s0 in
  test! is_text (field "noxa" v0) (toBase64 (t_key t)) else "account_changed"%string in
  match present (field "pin" v0) with
  | None => mthrow "account_changed"%string
  | Some from =>
    if pin_is from epoch_ identity_ then mret (Trusted (t_id t) (t_key t) (Some from) (items (present (field "history" v0))))
    else
      m! (cur, passed) :=
        mcatch (verify_chain (pin_of from) epoch_ identity_ (Owner (n_server ns) principal device (t_key t)) (fetch_page a device))
          (fun e => mthrow (if coded e then e else "account_changed"%string)) in
      m! s := lift (read ns [("trust", t_id t)%string]) in
      m! v := saved_value t s in
      test! is_text (field "noxa" v) (toBase64 (t_key t)) &&
            match field "pin" v with Some p => equalJSON p from | None => false end else "conflict"%string in
      m! retiredAt := now in
      let history := items (present (field "history" v)) ++ map (passed_json retiredAt) passed in
      let kept := drop (length history - 32) history in
      m! _ := lift (setTrust ns s (t_id t) (jset "history" (JArr kept) (jset "pin" (pin_json cur) v)) false) in
      m! _ := check_ in
      mret (Trusted (t_id t) (t_key t) (Some (pin_json cur)) kept)
  end.

(** A pin left behind still receives, for a while. *)
Definition historical (ms : Z) (epoch_ : Z) (identity_ : option json) (h : json) : bool :=
  pin_is h epoch_ identity_ && (0 <? num_or 0 (field "retired_at" h)) &&
  (ms / 1000 - num_or 0 (field "retired_at" h) <=? HISTORICAL_RECEIVE_WINDOW).

Definition promote (a : authority) (t : trusted) (principal device : string) (epoch_ : Z) (identity_ : option json)
    (receiveOnly : bool) : M trusted :=
  match t_pin t with
  | None => mret t
  | Some p =>
    if pin_is p epoch_ identity_ then mret t
    else if epoch_ <? num_or 0 (field "epoch" p) then
      m! ms := clock in
      match List.find (historical ms epoch_ identity_) (t_history t) with
      | Some old =>
        test! receiveOnly else "account_changed"%string in
        mret (with_pin t (obj [("epoch", field "epoch" old); ("identity", field "identity" old); ("signing", field "signing" old)]%string))
      | None => mthrow "account_changed"%string
      end
    else if epoch_ =? num_or 0 (field "epoch" p) then mthrow "account_changed"%string
    else casRetry (promoteOnce a t principal device epoch_ identity_)
  end.

Definition bundle_pin (bundle : json) : json :=
  obj [("epoch", field "account_epoch" bundle); ("identity", field "identity" bundle); ("signing", field "signing" bundle)]%string.

Definition adoptOnce (t : trusted) (bundle : json) : M trusted :=
  match t_pin t with
  | Some p =>
    test! strict_eq (field "epoch" p) (field "account_epoch" bundle) && strict_eq (field "identity" p) (field "identity" bundle) &&
          (negb (truthy (field "signing" p)) || strict_eq (field "signing" p) (field "signing" bundle)) else "account_changed"%string in
    mret t
  | None =>
    m! s := lift (read ns [("trust", t_id t)%string]) in
    m! saved := pure_ (json_ (data (rec_of ("trust", t_id t)%string s))) in
    let v := default JNull (field "value" saved) in
    test! is_text (field "noxa" v) (toBase64 (t_key t)) else "account_changed"%string in
    match present (field "pin" v) with
    | Some p =>
      test! strict_eq (field "epoch" p) (field "account_epoch" bundle) && strict_eq (field "identity" p) (field "identity" bundle)
        else "account_changed"%string in
      mret (with_pin t p)
    | None =>
      m! _ := lift (setTrust ns s (t_id t) (jset "pin" (bundle_pin bundle) v) false) in
      m! _ := check_ in
      mret (with_pin t (bundle_pin bundle))
    end
  end.
Definition adopt (t : trusted) (bundle : json) : M trusted := casRetry (adoptOnce t bundle).

(** ** Handing on *)

Definition status_text (s : control_status) : string :=
  match s with Delivered => "delivered" | Expired => "expired" | Invalid => "invalid" end.

Definition control_out (record b : json) : json :=
  obj [("sender", field "sender" record); ("senderDevice", field "senderDevice" record); ("logicalID", field "logicalID" record);
       ("kind", field "kind" b); ("scope", field "scope" b); ("epoch", field "epoch" b); ("expiresAt", field "expires_at" b);
       ("data", field "data" b); ("delivery", field_of "delivery" (field "transport" record))]%string.

Definition emitControl (record : json) (isNew : bool) : M unit :=
  if negb isNew || negb (is_text (field "status" record) "delivered") ||
     negb (truthy (field_of "delivery" (field "transport" record))) || is_text (field "senderDevice" record) (n_device ns) then mret tt
  else match field "body" record with
       | Some b => if is_object (Some b) then mset (fun c => c <| emitted := emitted c ++ [Dispatched (control_out record b)] |>) else mret tt
       | None => mret tt
       end.

Fixpoint project (n : nat) (record : json) (isNew : bool) : M unit :=
  match n with
  | O => mret tt
  | S k =>
    m! _ := mset (fun c => c <| emitted := emitted c ++ [Projected record isNew] |>) in
    m! _ := check_ in
    project k record isNew
  end.

Definition emit (record : json) (isNew : bool) : M unit :=
  m! _ := check_ in
  if is_text (field "purpose" record) "control" then emitControl record isNew else project projectors record isNew.

(** ** Receiving *)

Definition context_ (a : authority) (t : json) : json :=
  obj [("local_account_id", Some (JStr (au_account a))); ("local_epoch", Some (JNum (au_epoch a))); ("peer_epoch", field "account_epoch" t);
       ("peer_principal", field "principal" t); ("peer_device", field "device" t); ("peer_identity", field "identity" t);
       ("scope", Some (JStr DEVICE_PAIR_SCOPE)); ("protocol", Some (JStr RATCHET_PROTOCOL))]%string.

Definition delivery_ok (d : json) : bool :=
  match field "manifest" d with Some m => is_ok (validateManifest m) | None => false end &&
  validID (field "id" d) && truthy (field "copy" d) && is_object (field "copy" d) &&
  truthy (field "source_bundle" d) && truthy (field "target_bundle" d).

(** Is the copy this device's, under this account? *)
Definition own_copy (a : authority) (m c : json) : bool :=
  is_text (field "server" m) (n_server ns) && is_text (field "principal" c) (n_principal ns) &&
  is_text (field "device" c) (n_device ns) && bool_decide (field "account_epoch" c = Some (JNum (au_epoch a))).

Definition same_device (principal device : option json) (t : json) : bool :=
  strict_eq (field "device" t) device && strict_eq (field "principal" t) principal.

(** The manifest names this device's current identity as the copy's target. *)
Definition target_current (identity_ : string) (a : authority) (d m c : json) : bool :=
  match List.find (same_device (field "principal" c) (field "device" c)) (items (field "targets" m)) with
  | None => false
  | Some own =>
    negb (is_local own) && is_text (field "identity" own) identity_ &&
    bool_decide (field "account_epoch" own = Some (JNum (au_epoch a))) &&
    is_text (field_of "identity" (field "target_bundle" d)) identity_ &&
    bool_decide (field_of "account_epoch" (field "target_bundle" d) = Some (JNum (au_epoch a)))
  end.

Definition source_target (m : json) : option json :=
  List.find (fun t => same_device (field "sender" m) (field "device" m) t && is_local t) (items (field "targets" m)).

(** The pinned source of a copy: its device is trusted, its pin moved where the
    signed resets allow, and its bundle adopted. *)
Definition receive_source (a : authority) (m bundle : json) : M (trusted * json) :=
  match source_target m with
  | None => mthrow "invalid"%string
  | Some source =>
    test! strict_eq (field "account_epoch" source) (field "account_epoch" m) else "invalid"%string in
    let principal := str_of (field "sender" m) in
    let device := str_of (field "device" m) in
    let epoch_ := num_or 0 (field "account_epoch" m) in
    m! t0 := trust_ principal device in
    m! t1 := promote a t0 principal device epoch_ (field "identity" bundle) true in
    m! _ := deterministic "invalid_evidence"
      (pure_ (verifyBundleEvidence cv bundle (Evidence (t_key t1) (str_of (field "server" m)) principal device epoch_
         (match present (field_of "identity" (t_pin t1)) with Some i => str_of (Some i) | None => str_of (field "identity" bundle) end)))) in
    test! strict_eq (field "identity" bundle) (field "identity" source) else "invalid"%string in
    m! t2 := adopt t1 bundle in
    mret (t2, obj [("principal", field "sender" m); ("device", field "device" m); ("account_epoch", field "account_epoch" m);
                   ("identity", field_of "identity" (t_pin t2))]%string)
  end.

(** The open obligation of this account for a one-time key. *)
Fixpoint find_open (a : authority) (otk : string) (l : list (ref * rec)) : result string (option string) :=
  match l with
  | [] => Ok None
  | (r, v) :: rest =>
    let! o := json_ (data v) in
    if is_text (field "account_id" o) (au_account a) && is_text (field "public_key" o) otk &&
       negb (truthy (field "closed" o)) && negb (truthy (field "consumed" o)) then Ok (Some r.2) else find_open a otk rest
  end.

(** Only a prekey message with a retained obligation may open a session. *)
Definition claim_obligation (a : authority) (c : json) : M string :=
  let message := field_of "message" (field "envelope" c) in
  test! bool_decide (field_of "type" message = Some (JNum 0)) else "lost_key"%string in
  m! otk := pure_ (initialOneTimeKey (field_of "body" message)) in
  m! l := refs "obligation" in
  m! recs := readMany l in
  m! found := pure_ (find_open a otk recs) in
  match found with Some id => mret id | None => mthrow "lost_key"%string end.

Definition bytes_at (k : string) (v : json) : list Z := bytes_of (str_of (field k v)).

(** [core.apply] on the stored session, or on the account for a first message. *)
Definition decrypt_copy (a : authority) (s : snapshot) (session consumed : string) (m c source context : json) : M json :=
  let existing := rec_of ("session", session)%string s in
  m! key := pure_ (coreKey ns s) in
  let common := [("key", Some (json_of_bytes key)); ("binding", Some (expectedBinding m c)); ("envelope", field "envelope" c)]%string in
  if exists_ existing then
    test! bool_decide (consumed = ""%string) else "conflict"%string in
    m! state := pure_ (json_ (data existing)) in
    test! is_text (field_of "scope" (field "context" state)) DEVICE_PAIR_SCOPE else "legacy_session"%string in
    test! same_text (field "context" state) (Some context) else "session_mismatch"%string in
    deterministic "unauthenticated" (lift (core (obj ([("op", Some (JStr "decrypt"));
      ("session", Some (JStr (text (bytes_of_json (field "snapshot" state)))))]%string ++ common))))
  else
    test! negb (bool_decide (consumed = ""%string)) else "conflict"%string in
    m! result := deterministic "unauthenticated" (lift (core (obj ([("op", Some (JStr "inbound"));
      ("account", Some (JStr (text (data (rec_of ("account", au_account a)%string s))))); ("peer_identity", field "identity" source)]%string ++ common)))) in
    test! bool_decide (sessionRef (String_of (field "session_id" result)) = session) else "invalid"%string in
    mret result.

(** The sender's own time, when the body names one. *)
Definition sent_at (body : json) (ms : Z) : json :=
  match field "sentAt" body with
  | Some (JNum n) => if n =? 0 then JNum (ms / 1000) else JNum n
  | Some (JBool true) => JNum 1
  | Some (JStr t) => match js_number t with Some n => if n =? 0 then JNum (ms / 1000) else JNum n | None => JNum (ms / 1000) end
  | _ => JNum (ms / 1000)
  end.

Definition received_record (m body : json) (id : option json) (ms : Z) : json :=
  let self := is_text (field "sender" m) (n_principal ns) in
  let reference := field_or "reference" (JStr "") m in
  let direct := is_text (field "scope" m) "direct" in
  let key_for (r : option json) := Some (semanticKey (default JNull (field "sender" m)) (default JNull r)) in
  obj [("protocol", Some (JStr RATCHET_PROTOCOL)); ("provenance", Some (JStr "authenticated")); ("sender", field "sender" m);
       ("senderDevice", field "device" m); ("logicalID", field "logical_id" m); ("key", key_for (field "logical_id" m));
       ("scope", field "scope" m); ("peer", if direct then (if self then field "peer" m else field "sender" m) else Some (JStr ""));
       ("conversation", if is_text (field "scope" m) "group" then field "conversation" m else Some (JStr ""));
       ("purpose", field "purpose" m); ("reference", reference);
       ("referenceKey", if truthy (field "reference" m) then key_for (field "reference" m) else Some (JStr ""));
       ("body", Some body); ("sentAt", Some (sent_at body ms)); ("self", Some (JBool self)); ("copied", Some (JBool self));
       ("transport", Some (obj [("delivery", id)]))]%string.

(** A control keeps its disposition, and its body only when it is delivered. *)
Definition received_control (record : json) (device : option json) (judged : control_status * option json) (ms : Z) : json :=
  jset "body" (match judged.1, judged.2 with Delivered, Some b => b | _, _ => JNull end)
    (jset "sentAt" (JNum (ms / 1000)) (jset "status" (JStr (status_text judged.1)) (put_opt "device" device record))).

Definition archive_of (m record : json) : json :=
  if is_text (field "purpose" m) "control" then jset "body" (default JNull (controlArchiveBody (field "body" record))) record else record.

Definition envelope_digest (c : json) : string := hex_text (sha256 (jsonBytes (default JNull (field "envelope" c)))).

(** Committed before a lost acknowledgement: the exact stored outcome. *)
Definition stored_outcome (c : json) (saved : rec) : M json :=
  m! prior := pure_ (json_ (data saved)) in
  test! is_text (field "digest" prior) (envelope_digest c) else "digest_mismatch"%string in
  pure_ (json_ (bytes_of_json (field "archive" prior))).

(** The first receipt of a copy, up to its durable commit. *)
Definition receive_new (a : authority) (d m c : json) (id : string) : M json :=
  m! st := mget in
  test! target_current (c_identity st) a d m c else "fenced_copy"%string in
  m! (t, source) := receive_source a m (default JNull (field "source_bundle" d)) in
  let context := context_ a source in
  let session := sessionRef (String_of (field "session_id" c)) in
  m! s0 := lift (read ns [("session", session)%string]) in
  m! consumed := if exists_ (rec_of ("session", session)%string s0) then mret ""%string else claim_obligation a c in
  m! s := lift (read ns ([("trust", t_id t); ("session", session); ("inbox", id); ("account", au_account a)]%string ++
                         if bool_decide (consumed = ""%string) then [] else [("obligation", consumed)%string])) in
  m! _ := check_ in
  m! result := decrypt_copy a s session consumed m c source context in
  m! _ := check_ in
  m! (body, raw) := deterministic "invalid"
    (pure_ match field "plaintext" result with
           | Some (JStr p) => match openPayloadRaw m c (bytes_of p) with Some x => Ok x | None => Err invalid end
           | _ => Err invalid
           end) in
  m! ms := clock in
  let plain := received_record m body (field "id" d) ms in
  let record := if is_text (field "purpose" m) "control"
                then received_control plain (field "device" c) (match raw with Some r => judgeControl r (ms / 1000) | None => (Invalid, None) end) ms
                else plain in
  m! _ := lift (commitReceive sha256 ns s id
    (RatchetStore.Delivery (jsonBytes (default JNull (field "envelope" c))) (jsonBytes (archive_of m record)) (bytes_at "session" result)
      session (t_id t) (Some context)
      (if bool_decide (consumed = ""%string) then None else Some (bytes_at "account" result))
      (if bool_decide (consumed = ""%string) then ""%string else au_account a)
      (if bool_decide (consumed = ""%string) then None else Some consumed))) in
  m! _ := check_ in
  m! _ := mset (fun k => k <| c_sessions := OMap.set (text (stringify context)) session <$> c_sessions k |>) in
  mret record.

(** The record of a delivery, and whether this call is its first receipt. *)
Definition receive_record (a : authority) (d : json) : M (json * bool) :=
  test! delivery_ok d else "invalid"%string in
  let m := default JNull (field "manifest" d) in
  let c := default JNull (field "copy" d) in
  let id := str_of (field "id" d) in
  test! own_copy a m c else "fenced_copy"%string in
  test! checkEnvelope m c else "invalid"%string in
  m! s := lift (read ns [("inbox", id)%string]) in
  let saved := rec_of ("inbox", id)%string s in
  if exists_ saved then m! record := stored_outcome c saved in mret (record, false)
  else m! record := receive_new a d m c id in mret (record, true).

(** [#receive]: [Some e] when only the acknowledgement failed, after the commit. *)
Definition receive (a : authority) (d : json) : M (option string) :=
  m! (record, isNew) := receive_record a d in
  m! _ := emit record isNew in
  mtry (handoff a (obj [("action", Some (JStr "receive_ack")); ("delivery_id", field "id" d); ("digest", field "digest" d)]%string))
    (fun r => mret match r with Ok _ => None | Err e => Some e end).

(** ** Resolving what was sent *)

(** The stored operation of an attempt, and the record of its archive. *)
Definition outcome_ (id : string) : M (json * json) :=
  m! s := lift (read ns [("outbox", id)%string]) in
  let r := rec_of ("outbox", id)%string s in
  test! exists_ r else "invalid"%string in
  m! op := pure_ (json_ (data r)) in
  m! record := pure_ (json_ (bytes_of_json (field "archive" op))) in
  mret (op, record).

Definition terminal (v : option json) : bool := match v with Some (JStr s) => bool_decide (s ∈ TERMINAL) | _ => false end.

Definition abort_ (m : json) : M json :=
  call_ (obj [("action", Some (JStr "abort")); ("account_epoch", field "account_epoch" m); ("manifest", Some m)]%string).

(** The server refuses to begin: a skewed clock, or a deadline that is past. *)
Definition begin_ (a : authority) (id : string) (m wire_manifest : json) : M json :=
  mcatch (handoff a (JObj [("action", JStr "begin"); ("manifest", wire_manifest)]%string)) (fun e =>
    test! bool_decide (e = "invalid"%string) else e in
    m! t := now in
    if t + DEADLINE_MARGIN <? num_or 0 (field "deadline" m) then
      m! _ := mset (fun c => c <| c_skewed := id :: c_skewed c |>) in mthrow "clock_skew"%string
    else abort_ m).

Fixpoint put_parts (a : authority) (m : json) (part : Z) (l : list (list Z)) : M unit :=
  match l with
  | [] => mret tt
  | p :: rest =>
    m! _ := handoff a (obj [("action", Some (JStr "put_part")); ("attempt_id", field "attempt_id" m); ("part", Some (JNum part));
                            ("data", Some (JStr (toBase64 p)))]%string) in
    put_parts a m (part + 1) rest
  end.

(** The packets of the attempt, while they may still be handed out. *)
Definition wire_of (id : string) : M (option (json * list (list Z))) :=
  m! s := lift (read ns []) in
  mtry (lift (attemptWire ns s id)) (fun r =>
    match r with
    | Ok w => mret (Some w)
    | Err e => if bool_decide (e ∈ ["fenced"; "revoked"; "conflict"]%string) then mret None else mthrow e
    end).

(** The attempt's terminal result from the server. *)
Definition settle_attempt (a : authority) (id : string) (m : json) : M json :=
  m! status := call_ (obj [("action", Some (JStr "status")); ("account_epoch", field "account_epoch" m);
                           ("attempt_id", field "attempt_id" m)]%string) in
  m! t := now in
  let expired := num_or 0 (field "deadline" m) <=? t + DEADLINE_MARGIN in
  m! st := mget in
  test! expired || negb (bool_decide (id ∈ c_skewed st)) || terminal (field "state" status) else "clock_skew"%string in
  if terminal (field "state" status) then mret status
  else
    m! wire := wire_of id in
    m! _ := check_ in
    match wire with
    | Some (wm, parts) =>
      if bool_decide (field "account_epoch" m = Some (JNum (au_epoch a))) && negb (expired && is_text (field "state" status) "absent") then
        m! result := begin_ a id m wm in
        if terminal (field "state" result) then mret result
        else
          m! _ := put_parts a m 0 parts in
          handoff a (obj [("action", Some (JStr "finalize")); ("attempt_id", field "attempt_id" m)]%string)
      else abort_ m
    | None => abort_ m
    end.

Definition apply_result (id : string) (m result : json) : M unit :=
  casRetry (m! s := lift (read ns [("outbox", id); ("logical", str_of (field "logical_id" m))]%string) in
            lift (applyAttemptResult sha256 ns s id result)).

(** The committed attempt with its receipt, asked for when there is none yet. *)
Definition settled (a : authority) (id : string) (op record : json) : M (json * json) :=
  if truthy (field "receipt" op) then mret (op, record)
  else
    m! s := lift (read ns []) in
    m! (m, _, _) := lift (attemptStatusRequest sha256 ns s id) in
    m! result := settle_attempt a id m in
    test! terminal (field "state" result) else "uncertain"%string in
    m! _ := apply_result id m result in
    m! _ := check_ in
    outcome_ id.

(** Retirement of the receipt: repeated by a later drain when it fails. *)
Definition retire_ (id : string) : M unit :=
  mcatch
    (m! st := mget in
     m! old := if bool_decide (id ∈ c_retired st) then mret true
               else m! s := lift (read ns []) in m! a := lift (accountAuthority ns s) in mret (retiredIn (au_retired a) id) in
     m! _ := (if (old : bool) then mret tt
      else
        m! s1 := lift (read ns []) in
        m! request := lift (attemptRetirementRequest sha256 ns s1 id) in
        m! _ := mcatch (call_ (spread (JObj [("action", JStr "retire_receipt")]%string) request))
          (fun e => if bool_decide (e = "retired"%string) then mret JNull else mthrow e) in
        m! s2 := lift (read ns []) in
        lift (noteRetired ns s2 id)) in
     mset (fun c => c <| c_retired := id :: c_retired c |>))
    (fun e => if bool_decide (e = "fenced"%string) then mthrow e else mret tt).

Definition text_or_empty (v : option json) : json := match present v with Some x => x | None => JStr "" end.

Definition projected (id : string) (record receipt : json) : json :=
  jset "reason" (text_or_empty (field "reason" receipt)) (put_opt "status" (field "state" receipt)
    (jset "transport" (JObj [("message", text_or_empty (field "message_id" receipt)); ("attempt", JStr id)]%string) record)).

(** The code of an attempt that the server did not accept. *)
Definition refusal_code (receipt : json) : string :=
  match present (field "reason" receipt) with Some r => String_of (Some r) | None => String_of (field "state" receipt) end.

(** Resolves one committed attempt.  An inner error carries the committed
    original ([e.committed]), an outer one does not. *)
Definition resolve_outcome (a : authority) (id : string) : M (result string (json * json)) :=
  m! (op0, record0) := outcome_ id in
  mtry (settled a id op0 record0) (fun r =>
    match r with
    | Err e => mret (Err e)
    | Ok (op, record) =>
      mtry (retire_ id) (fun retired =>
        match retired with
        | Err e => mret (Err e)
        | Ok _ =>
          let receipt := default JNull (field "receipt" op) in
          let shown := projected id record receipt in
          m! _ := mcatch (emit shown false) (fun e => if bool_decide (e = "fenced"%string) then mret tt else mthrow e) in
          mret (if is_text (field "state" receipt) "accepted" then Ok (shown, receipt) else Err (refusal_code receipt))
        end)
    end).

Definition resolve (a : authority) (id : string) : M (json * json) := m! r := resolve_outcome a id in pure_ r.

(** ** Draining *)

Fixpoint resolve_all (a : authority) (ids : list string) : M unit :=
  match ids with
  | [] => mret tt
  | id :: rest =>
    m! _ := mtry (resolve a id) (fun r =>
      match r with
      | Err e => if bool_decide (e = "fenced"%string) then mthrow e else mret tt
      | Ok _ => mret tt
      end) in
    resolve_all a rest
  end.

(** Did another tab commit this delivery? *)
Definition committed_elsewhere (qid : string) (d : json) (code : string) : M bool :=
  if is_text (field "id" d) qid && bool_decide (code ∈ RACE_RECEIVE) then
    mtry (lift (read ns [("inbox", qid)%string])) (fun r =>
      mret match r with Ok s => exists_ (rec_of ("inbox", qid)%string s) | Err _ => false end)
  else mret false.

(** The placeholder of a copy that cannot be read. *)
Definition placeholder (qid code : string) (d : json) (ms : Z) : json :=
  let m := match field "manifest" d with Some m => if is_object (Some m) then m else JObj [] | None => JObj [] end in
  let own := is_text (field "sender" m) (n_principal ns) in
  let plain v := Some (JStr (str_of v)) in
  obj [("id", Some (JStr qid)); ("sender", plain (field "sender" m)); ("code", Some (JStr code)); ("scope", plain (field "scope" m));
       ("control", if is_text (field "purpose" m) "control" then Some (JBool true) else None);
       ("peer", if is_text (field "scope" m) "direct" then plain (if own then field "peer" m else field "sender" m) else Some (JStr ""));
       ("conversation", if is_text (field "scope" m) "group" then plain (field "conversation" m) else Some (JStr ""));
       ("seenAt", Some (JNum (ms / 1000)))]%string.

Definition quarantine_id (after : json) (i : Z) (d : json) : string :=
  if validID (field "id" d) then str_of (field "id" d)
  else "malformed:" +:+ js_String after +:+ ":" +:+ text (print_num i).

Definition drain_one (a : authority) (after : json) (i : Z) (d : json) : M unit :=
  let qid := quarantine_id after i d in
  m! st := mget in
  if OMap.has qid (c_quarantined st) then mret tt
  else
    mtry (receive a d) (fun r =>
      match r with
      | Ok None => mset (fun c => c <| c_quarantined := OMap.del qid (c_quarantined c) |>)
      | Ok (Some e) => mthrow e
      | Err e =>
        if bool_decide (e = "fenced"%string) then mthrow e
        else
          m! elsewhere := committed_elsewhere qid d e in
          match receiveDisposition e elsewhere with
          | Quarantine =>
            m! ms := clock in
            mset (fun c => c <| c_quarantined := OMap.set qid (placeholder qid e d ms) (c_quarantined c) |>)
          | _ => mret tt
          end
      end).

Fixpoint drain_page (a : authority) (after : json) (i : Z) (l : list json) : M unit :=
  match l with
  | [] => mret tt
  | d :: rest => m! _ := drain_one a after i d in drain_page a after (i + 1) rest
  end.

Fixpoint drain_pages (pages : nat) (a : authority) (after : json) : M (list json) :=
  match pages with
  | O => mthrow "exhausted"%string
  | S more =>
    m! page := handoff a (JObj [("action", JStr "deliveries"); ("after", after)]%string) in
    test! is_array (field "deliveries" page) else "invalid"%string in
    m! _ := drain_page a after 0 (items (field "deliveries" page)) in
    if negb (truthy (field "has_more" page)) then
      m! st := mget in mret (filter (fun q => truthy (field "control" q) = false) (OMap.values (c_quarantined st)))
    else
      match present (field "after" page) with
      | Some next => test! negb (strict_eq (Some next) (Some after)) else "invalid"%string in drain_pages more a next
      | None => mthrow "invalid"%string
      end
  end.

Definition unretired (a : authority) (st : consumer) (l : list ref) : list string :=
  filter (fun id => String.prefix (text (print_num (au_epoch a)) +:+ ":") id = true /\
                    retiredIn (au_retired a) id = false /\ id ∉ c_retired st) (map snd l).

Definition drain : M (list json) :=
  m! a := authority_ in
  m! l := refs "outbox" in
  m! st := mget in
  m! _ := resolve_all a (resolveOrder (unretired a st l) retireWindow) in
  drain_pages 4096 a (JStr "").
End consumer.
