(* ===== verification/RatchetAccount.v ===== *)
(** * The consumer's own account ([ratchet-consumer.js])

    Readiness, publication, the closure of expired one-time keys, recovery of a
    lost account, and the replay of the archives.  [ready] decides from the
    instance's state whether the publication step runs; the source lets calls that
    arrive meanwhile share its promise, here the operations of one instance run one
    after the other, as [#serial] queues them.

    Outside the model, as parameters: the directory ([directory], frame 200), the
    signatures with the device's key ([signBundle], [signReset]) and that key
    itself ([ownKey]).  A value the server or the core sends is taken apart the
    way [field] does; the text of an absent member stands for [undefined]. *)

From stdpp Require Import base gmap list strings sorting.
From Stdlib Require Import ZArith Lia.
From S2P Require Import Prelude Json Text OlmAdmission Db OlmReset RatchetStore RatchetConsumer.

Definition prekeys : nat := 20.
Definition refill : nat := 10.

(** [crypto.randomUUID()] on its 16 random bytes. *)
Definition uuid_of (b : list Z) : string :=
  let b := <[6%nat := Z.lor 64 (Z.land 15 (nth 6 b 0))]> (<[8%nat := Z.lor 128 (Z.land 63 (nth 8 b 0))]> b) in
  hex_text (take 4 b) +:+ "-" +:+ hex_text (take 2 (drop 4 b)) +:+ "-" +:+ hex_text (take 2 (drop 6 b)) +:+ "-" +:+
  hex_text (take 2 (drop 8 b)) +:+ "-" +:+ hex_text (take 6 (drop 10 b)).
Definition randomUUID : M string := lift (Random 16 (fun b => Db.done (uuid_of b))).

(** [String(generation).padStart(10, "0")], and a publication's ID. *)
Definition padded (n : Z) : string :=
  let digits := print_num n in text (repeat 48 (10 - length digits) ++ digits).
Definition publication_id (account : string) (generation : Z) : string :=
  "pub:" +:+ account +:+ ":" +:+ padded generation.

Definition id_le (x y : ref) : Prop := String.leb x.2 y.2 = true.
#[global] Instance id_le_dec x y : Decision (id_le x y).
Proof. unfold id_le. apply _. Defined.

(** The record of a resolved or pending attempt, as the history shows it. *)
Definition history_entry (id : string) (op record : json) : string * json :=
  let receipt := default JNull (field "receipt" op) in
  (id, jset "reason" (text_or_empty (field "reason" receipt))
        (jset "status" (match present (field "state" receipt) with Some s => s | None => JStr "pending" end)
          (jset "transport" (JObj [("message", text_or_empty (field "message_id" receipt)); ("attempt", JStr id)]%string) record))).

Definition sent_before (x y : json) : Prop := num_or 0 (field "sentAt" x) <= num_or 0 (field "sentAt" y).
#[global] Instance sent_before_dec x y : Decision (sent_before x y).
Proof. unfold sent_before. apply _. Defined.

(** What a device's own state says about a recorded reset. *)
Inductive recovery_evidence := Applied | NotApplied | Unknown.
#[global] Instance recovery_evidence_eq_dec : EqDecision recovery_evidence.
Proof. solve_decision. Defined.

Section account.
Context `{Cipher}.
Variable sha256 : list Z -> list Z.
Variable cv : curves.
Variable ns : names.
Variable check : prog unit.
Variable admission core : json -> prog json.
Variable directory_request : json -> prog json.               (* frame 200 *)
Variable signBundle : json -> prog json.
Variable signReset : option (json -> prog json).
Variable ownKey : option (list Z).
Variable refreshMS : Z.

#[local] Abbreviation check_ := (check_ check).
#[local] Abbreviation authority_ := (authority_ ns check).
#[local] Abbreviation handoff := (handoff ns check admission).
#[local] Abbreviation call_ := (call_ check admission).
#[local] Abbreviation refs := (refs ns check).
#[local] Abbreviation readMany := (readMany ns check).

Definition directory (request : json) : M json := net check 7 (directory_request request).
(** [#serial]: an operation starts only while the instance is current. *)
Definition serial {A} (work : M A) : M A := m! _ := check_ in work.

(** ** Own publication *)

Definition public_keys (created : json) : list json :=
  map (fun k => obj [("id", field "id" k); ("key", field "key" k)]%string)
      (items (field_of "one_time_keys" (field "bundle" created))).

Definition bundle_body (epoch_ generation issued : Z) (identity_ signing_ : option json) (keys : list json) : json :=
  obj [("version", Some (JStr OLM_DIRECTORY_VERSION)); ("protocol", Some (JStr RATCHET_PROTOCOL)); ("server", Some (JStr (n_server ns)));
       ("principal", Some (JStr (n_principal ns))); ("device_id", Some (JStr (n_device ns))); ("account_epoch", Some (JNum epoch_));
       ("generation", Some (JNum generation)); ("issued_at", Some (JNum issued)); ("expires_at", Some (JNum (issued + 6 * 86400)));
       ("identity", identity_); ("signing", signing_); ("one_time_keys", Some (JArr keys))]%string.

(** The obligations of a publication, by account and key. *)
Definition obligations_of (account publication : string) (expires : option json) (keys : list json)
    (extra : list (string * option json)) : list (string * json) :=
  foldl (fun m k => OMap.set (account +:+ ":" +:+ String_of (field "id" k))
    (obj ([("publication_id", Some (JStr publication)); ("expires_at", expires); ("key_id", field "id" k); ("public_key", field "key" k);
           ("account_id", Some (JStr account))]%string ++ extra)) m) [] keys.

Definition commitBundle (s : snapshot) (a : authority) (created : json) (generation : Z) (previous : option json) : M unit :=
  m! issued := now in
  let from := match previous with Some p => Some p | None => field "bundle" created end in
  let bundle := bundle_body (au_epoch a) generation issued (field_of "identity" from) (field_of "signing" from) (public_keys created) in
  m! signed := lift (signBundle bundle) in
  m! _ := check_ in
  let id := publication_id (au_account a) generation in
  m! _ := lift (commitPublication ns s id (bytes_at "account" created) (jsonBytes signed)
    (obligations_of (au_account a) id (field "expires_at" bundle) (items (field "one_time_keys" bundle)) []) (au_account a)) in
  check_.

(** The newest publication of the account, and its bundle. *)
Definition latestPublication (account : string) : M (option (string * json)) :=
  m! l := refs "publication" in
  match last (merge_sort id_le (filter (fun r : ref => String.prefix ("pub:" +:+ account +:+ ":") r.2 = true) l)) with
  | None => mret None
  | Some r =>
    m! s := lift (read ns [r]) in
    m! v := pure_ (json_ (data (rec_of r s))) in
    m! bundle := pure_ (json_ (bytes_of_json (field "payload" v))) in
    mret (Some (r.2, bundle))
  end.

(** ** Closing expired one-time keys *)

(** An open obligation of this account whose publication has expired. *)
Definition is_due (a : authority) (st : consumer) (t : Z) (r : ref) (o : json) : bool :=
  is_text (field "account_id" o) (au_account a) && negb (truthy (field "consumed" o)) && negb (truthy (field "closed" o)) &&
  match field "expires_at" o with Some (JNum n) => n <=? t | _ => false end && negb (bool_decide (r.2 ∈ c_unretirable st)).

Fixpoint due_keys (a : authority) (l : list (ref * rec)) (acc : list (string * json)) : M (list (string * json)) :=
  match l with
  | [] => mret acc
  | (r, v) :: rest =>
    m! o := pure_ (json_ (data v)) in
    m! t := now in
    m! st := mget in
    due_keys a rest (if is_due a st t r o then acc ++ [(r.2, o)] else acc)
  end.

(** The keys the server reports closed, by key. *)
Definition closed_keys (lifecycle : list json) : list (option json * json) :=
  foldl (fun m l => if is_text (field "state" l) "closed" then OMap.set (field "key_id" l) l m else m) [] lifecycle.

(** The core retires each closed key that is still open; a key that it does not
    hold stays open and is not asked about again. *)
Fixpoint retire_keys (s : snapshot) (closed : list (option json * json)) (l : list (string * json))
    (account : list Z) (proofs : list (string * json)) : M (list Z * list (string * json)) :=
  match l with
  | [] => mret (account, proofs)
  | (id, o) :: rest =>
    m! current := pure_ (json_ (data (rec_of ("obligation", id)%string s))) in
    if truthy (field "closed" current) || truthy (field "consumed" current) then retire_keys s closed rest account proofs
    else
      mtry (m! key := pure_ (coreKey ns s) in
            lift (core (obj [("op", Some (JStr "retire_prekey")); ("key", Some (json_of_bytes key)); ("account", Some (JStr (text account)));
                             ("one_time_key", field "public_key" o)]%string)))
        (fun r => match r with
         | Err e =>
           if coded e then mthrow e
           else m! _ := mset (fun c => c <| c_unretirable := id :: c_unretirable c |>) in retire_keys s closed rest account proofs
         | Ok next =>
           m! _ := check_ in
           retire_keys s closed rest (bytes_at "account" next)
             (match OMap.get (field "key_id" o) closed with Some p => OMap.set id p proofs | None => proofs end)
         end)
  end.

Definition close_batch (a : authority) (batch : list (string * json)) : M unit :=
  m! lifecycle := handoff a (JObj [("action", JStr "close_keys");
    ("keys", JArr (map (fun e => default JNull (field "key_id" e.2)) batch))]%string) in
  m! _ := check_ in
  match lifecycle with
  | JArr l =>
    let closed := closed_keys l in
    match filter (fun e => OMap.has (field "key_id" e.2) closed = true) batch with
    | [] => mret tt
    | closing =>
      casRetry check (
        m! s := lift (read ns (("account", au_account a)%string :: map (fun e => ("obligation", e.1)%string) closing)) in
        m! _ := check_ in
        m! (account, proofs) := retire_keys s closed closing (data (rec_of ("account", au_account a)%string s)) [] in
        match proofs with
        | [] => mret tt
        | _ => m! _ := lift (retireUnsubmittedKeys sha256 ns s (au_account a) account proofs) in check_
        end)
    end
  | _ => mthrow "invalid"%string
  end.

Fixpoint close_batches (a : authority) (l : list (list (string * json))) : M unit :=
  match l with
  | [] => mret tt
  | b :: rest => m! _ := close_batch a b in close_batches a rest
  end.

Definition closeKeys (a : authority) : M unit :=
  m! l := refs "obligation" in
  m! recs := readMany l in
  m! due := due_keys a recs [] in
  close_batches a (chunks (length due) 100 due).

(** ** Readiness *)

Definition new_keys (op : string) (n : nat) (rest : list (string * option json)) (s : snapshot) : M json :=
  m! key := pure_ (coreKey ns s) in
  lift (core (obj ([("op", Some (JStr op)); ("key", Some (json_of_bytes key))]%string ++ rest ++ [("count", Some (JNum (Z.of_nat n)))]%string))).

(** Only a fresh namespace of the first epoch creates an account. *)
Definition first_publication (a : authority) : M unit :=
  m! s := lift (read ns [("account", au_account a)%string]) in
  if exists_ (rec_of ("account", au_account a)%string s) then mret tt
  else
    test! au_epoch a =? 1 else "recovery_required"%string in
    m! created := new_keys "new_account" prekeys [] s in
    m! _ := check_ in
    commitBundle s a created 1 None.

(** A bundle that expires within a day is replaced by its next generation. *)
Definition refreshed (a : authority) (bundle : json) : M json :=
  m! t := now in
  if num_or 0 (field "expires_at" bundle) - t <? 86400 then
    m! s := lift (read ns [("account", au_account a)%string]) in
    m! next := new_keys "prekeys" refill
      [("account", Some (JStr (text (data (rec_of ("account", au_account a)%string s)))))]%string s in
    m! _ := check_ in
    m! _ := commitBundle s a next (num_or 0 (field "generation" bundle) + 1) (Some bundle) in
    m! latest := latestPublication (au_account a) in
    match latest with Some (_, b) => mret b | None => mthrow ""%string end
  else mret bundle.

Definition publish (a : authority) (bundle : json) : M unit :=
  mcatch (m! s := lift (read ns []) in
          m! _ := lift (checkAccountAuthority ns s (au_fence a) (au_account a) (au_epoch a)) in
          m! id := randomUUID in
          m! _ := directory (JObj [("action", JStr "publish"); ("request_id", JStr id); ("bundle", bundle)]%string) in
          mret tt)
    (fun e => mthrow (if bool_decide (e = "account-change-required"%string) then "recovery_required"%string else e)).

(** [#ready] *)
Definition prepare : M readiness :=
  m! a := authority_ in
  m! _ := first_publication a in
  m! latest := latestPublication (au_account a) in
  match latest with
  | None => mthrow "recovery_required"%string
  | Some (_, b0) =>
    m! _ := mcatch (closeKeys a) (fun e => if bool_decide (e ∈ ["fenced"; "recovery_required"]%string) then mthrow e else mret tt) in
    m! bundle := refreshed a b0 in
    m! _ := publish a bundle in
    m! _ := check_ in
    let id := str_of (field "identity" bundle) in
    m! _ := mset (fun c => c <| c_identity := id |>) in
    mret (Readiness id (au_epoch a) (num_or 0 (field "expires_at" bundle)))
  end.

(** Is a readiness still in force? *)
Definition in_force (v : readiness) (t : Z) : bool := t + 300 <? rd_expires v.

(** [ready]: the last good readiness stays in force while its publication is
    valid; only an account that the server refuses is final. *)
Definition ready : M readiness :=
  m! st := mget in
  if c_sticky st then mthrow "recovery_required"%string
  else
    match c_ready st with
    | Some (v, readyAt) =>
      m! ms := clock in
      if negb (readyAt =? 0) && (refreshMS <? ms - readyAt) then
        mtry (serial prepare) (fun r =>
          match r with
          | Ok v' =>
            m! t := clock in
            m! _ := mset (fun c => c <| c_ready := Some (v', t) |>) in
            mret (if in_force v (ms / 1000) then v else v')
          | Err e =>
            m! t := clock in
            m! _ := mset (fun c =>
              if bool_decide (e = "recovery_required"%string) then c <| c_sticky := true |> <| c_ready := None |>
              else if in_force v (t / 1000) then c <| c_ready := Some (v, t - refreshMS + 60000) |>
              else c <| c_ready := None |>) in
            if in_force v (ms / 1000) then mret v else mthrow e
          end)
      else mret v
    | None =>
      mtry (serial prepare) (fun r =>
        match r with
        | Ok v => m! t := clock in m! _ := mset (fun c => c <| c_ready := Some (v, t) |>) in mret v
        | Err e =>
          m! _ := mset (fun c => if bool_decide (e = "recovery_required"%string) then c <| c_sticky := true |> else c) in
          mthrow e
        end)
    end.

(** ** Recovery *)

Definition promoteRecovery (id : string) (receipt : json) : M unit :=
  m! _ := check_ in
  m! s := lift (read ns [("transition", id)%string]) in
  m! _ := lift (promoteAccount sha256 ns s id receipt) in
  m! _ := check_ in
  mset (fun c => c <| c_sticky := false |> <| c_ready := None |>).

Definition own_state : M json :=
  m! id := randomUUID in directory (JObj [("action", JStr "own_state"); ("request_id", JStr id)]%string).

(** The bundle of this device's own state, under its own key. *)
Definition own_evidence (b : json) : result string json :=
  verifyBundleEvidence cv b (Evidence (default [] ownKey) (str_of (field "server" b)) (n_principal ns) (n_device ns)
    (num_or 0 (field "account_epoch" b)) (str_of (field "identity" b))).

(** A verified own state shows the reset applied, or its old account unchanged. *)
Definition judge_own (r b : json) : result string recovery_evidence :=
  let! _ := own_evidence b in
  let! digest := publicationDigest cv sha256 b in
  Ok (if is_text (field "server" b) (n_server ns) && strict_eq (field "account_epoch" b) (field "new_epoch" r) &&
         is_text (field "publication_digest" r) digest then Applied
      else if strict_eq (field "account_epoch" b) (field "old_epoch" r) && negb (is_text (field "publication_digest" r) digest) then NotApplied
      else Unknown).

Definition recoveryEvidence (r : json) : M recovery_evidence :=
  mcatch (m! own := own_state in
          match present (field "error" own), present (field "bundle" own) with
          | None, Some b => pure_ (judge_own r b)
          | _, _ => mret Unknown
          end)
    (fun _ => mret Unknown).

Definition abandon (id : string) : M unit :=
  m! s := lift (read ns [("transition", id)%string]) in
  lift (abandonRecoveryTransition ns s id).

Definition REFUSED : list string := ["authority-required"; "account-change-required"; "conflict"; "invalid"; "limit"]%string.

(** Submits the recorded reset; a refusal alone never abandons it. *)
Definition finishRecovery (t : json) (id : string) : M unit :=
  let r := default JNull (field "reset" t) in
  mtry (call_ (obj [("action", Some (JStr "reset")); ("account_epoch", field "old_epoch" r); ("reset", Some r); ("bundle", field "bundle" t)]%string))
    (fun x => match x with
     | Ok receipt => promoteRecovery id receipt
     | Err e =>
       m! evidence := recoveryEvidence r in
       match evidence with
       | Applied => promoteRecovery id (recoveryReceipt sha256 r)
       | NotApplied => if bool_decide (e ∈ REFUSED) then m! _ := abandon id in mthrow e else mthrow "recovery_pending"%string
       | Unknown => mthrow "recovery_pending"%string
       end
     end).

(** The first recorded recovery that is neither promoted nor abandoned. *)
Fixpoint pending_recovery (l : list ref) : M (option (string * json)) :=
  match l with
  | [] => mret None
  | r :: rest =>
    m! s := lift (read ns [r]) in
    m! t := mcatch (lift (accountTransitionRequest ns s r.2)) (fun _ => mret JNull) in
    if truthy (field "recovery" t) && negb (truthy (field "receipt" t)) && negb (truthy (field "abandoned" t)) then mret (Some (r.2, t))
    else pending_recovery rest
  end.

(** The own state that a recovery starts from. *)
Definition recoverable (local_ : authority) : M json :=
  m! own := mcatch own_state (fun e => mthrow (if bool_decide (e = "absent"%string) then "not_needed"%string else e)) in
  m! _ := check_ in
  test! negb (is_text (field "error" own) "absent") else "not_needed"%string in
  match present (field "error" own), present (field "bundle" own) with
  | None, Some cur =>
    test! is_ok (own_evidence cur) else "invalid_evidence"%string in
    test! is_safe_integer (num_or 0 (field "account_epoch" cur)) && (1 <=? num_or 0 (field "account_epoch" cur)) &&
          (au_epoch local_ <=? num_or 0 (field "account_epoch" cur)) && is_safe_integer (num_or 0 (field "generation" cur)) &&
          (1 <=? num_or 0 (field "generation" cur)) else "invalid_evidence"%string in
    m! latest := mcatch (latestPublication (au_account local_)) (fun _ => mret None) in
    test! negb match latest with
               | Some (_, b) => strict_eq (field "account_epoch" b) (field "account_epoch" cur) && strict_eq (field "identity" b) (field "identity" cur)
               | None => false
               end else "not_needed"%string in
    mret cur
  | _, _ => mthrow "unavailable"%string
  end.

Definition reset_body (cur bundle : json) (transition digest reason : string) (epoch_ generation : Z) : json :=
  obj [("version", Some (JStr "noxa-olm-reset-v1")); ("server", Some (JStr (n_server ns))); ("principal", Some (JStr (n_principal ns)));
       ("device", Some (JStr (n_device ns))); ("transition_id", Some (JStr transition)); ("old_epoch", field "account_epoch" cur);
       ("old_identity", field "identity" cur); ("old_signing", field "signing" cur); ("new_epoch", Some (JNum epoch_));
       ("new_identity", field "identity" bundle); ("new_signing", field "signing" bundle); ("generation", Some (JNum generation));
       ("publication_digest", Some (JStr digest)); ("reason", Some (JStr reason))]%string.

(** A fresh account, its bundle and its signed reset, recorded before they are submitted. *)
Definition start_recovery (sign_reset : json -> prog json) (cur : json) (reason : string) : M unit :=
  m! s := lift (read ns []) in
  m! created := new_keys "new_account" prekeys [] s in
  m! _ := check_ in
  let epoch_ := num_or 0 (field "account_epoch" cur) + 1 in
  let generation := num_or 0 (field "generation" cur) + 1 in
  m! id := randomUUID in
  let account := "epoch-" +:+ text (print_num epoch_) +:+ "-" +:+ id in
  let transition := publication_id account generation in
  m! issued := now in
  m! bundle := lift (signBundle (bundle_body epoch_ generation issued (field_of "identity" (field "bundle" created))
    (field_of "signing" (field "bundle" created)) (public_keys created))) in
  m! _ := check_ in
  m! digest := pure_ (publicationDigest cv sha256 bundle) in
  m! reset := lift (sign_reset (reset_body cur bundle transition digest reason epoch_ generation)) in
  m! _ := check_ in
  m! s1 := lift (read ns []) in
  m! _ := lift (prepareRecoveryTransition sha256 cv ns s1 account (bytes_at "account" created) reset bundle
    (obligations_of account transition (field "expires_at" bundle) (items (field "one_time_keys" bundle))
      [("account_epoch", Some (JNum epoch_)); ("consumed", Some (JBool false)); ("closed", Some (JBool false))]%string)) in
  m! _ := check_ in
  finishRecovery (JObj [("account_id", JStr account); ("reset", reset); ("bundle", bundle)]%string) transition.

Definition recover (reason : string) : M unit :=
  test! bool_decide (reason ∈ ["restored"; "lost"]%string) else "invalid"%string in
  match signReset, ownKey with
  | Some sign_reset, Some k =>
    test! len k =? 32 else "unavailable"%string in
    m! s := lift (read ns []) in
    m! local_ := lift (accountAuthority ns s) in
    m! _ := check_ in
    m! l := refs "transition" in
    m! found := pending_recovery l in
    match found with
    | Some (id, t) => finishRecovery t id
    | None =>
      test! negb (au_blocked local_) else "fenced"%string in
      m! cur := recoverable local_ in
      start_recovery sign_reset cur reason
    end
  | _, _ => mthrow "unavailable"%string
  end.

(** [cancelRecovery]: "completed" or "cancelled", only on evidence. *)
Definition cancelRecovery : M string :=
  m! _ := check_ in
  m! l := refs "transition" in
  m! found := pending_recovery l in
  match found with
  | None => mthrow "not_needed"%string
  | Some (id, t) =>
    let r := default JNull (field "reset" t) in
    m! evidence := recoveryEvidence r in
    match evidence with
    | Applied => m! _ := promoteRecovery id (recoveryReceipt sha256 r) in mret "completed"%string
    | NotApplied => m! _ := abandon id in mret "cancelled"%string
    | Unknown => mthrow "recovery_unknown"%string
    end
  end.

(** ** The archives *)

Fixpoint inbox_records (l : list (ref * rec)) : result string (list json) :=
  match l with
  | [] => Ok []
  | (_, v) :: rest =>
    let! b := json_ (data v) in
    let! record := json_ (bytes_of_json (field "archive" b)) in
    let! out := inbox_records rest in
    Ok (if is_text (field "purpose" record) "control" then out else record :: out)
  end.

Fixpoint outbox_entries (l : list (ref * rec)) : result string (list (string * json)) :=
  match l with
  | [] => Ok []
  | (r, v) :: rest =>
    let! op := json_ (data v) in
    if truthy (field "attempt" op) then
      let! record := json_ (bytes_of_json (field "archive" op)) in
      let! out := outbox_entries rest in
      Ok (if is_text (field "purpose" record) "control" then out else history_entry r.2 op record :: out)
    else outbox_entries rest
  end.

Definition history : M (list json) :=
  m! inbox := refs "inbox" in
  m! received := readMany inbox in
  m! records := pure_ (inbox_records received) in
  m! outbox := refs "outbox" in
  m! sent := readMany outbox in
  m! attempts := pure_ (outbox_entries sent) in
  mret (merge_sort sent_before (records ++ map snd (latestAttempts attempts))).
End account.
