(* ===== verification/RatchetSend.v ===== *)
(** * Sending ([ratchet-consumer.js])

    A send seals a message for every device of the server's roster and commits the
    attempt, or takes up the attempt that its logical ID already has; then it
    resolves that attempt with the server.  Losing a race against another tab
    before the commit starts the send over.

    An [intent]'s members have the defaults of [#seal]; a target's members are
    taken as the texts and numbers that a valid roster has. *)

From stdpp Require Import base gmap list strings.
From Stdlib Require Import ZArith Lia.
From S2P Require Import Prelude Json Text OlmAdmission OlmControl Db OlmReset RatchetStore RatchetConsumer RatchetAccount.

(** [Limits.direct] and [Limits.group]. *)
Definition fanout_limit (scope : string) : Z := if bool_decide (scope = "direct"%string) then 20 else 160.
Definition checkFanout (scope : string) (targets : option json) : result string unit :=
  guard! is_array targets && negb (count targets =? 0) && (count targets <=? fanout_limit scope) else "fanout_limit"%string in Ok tt.

Record intent := Intent {
  i_logical : string; i_scope : string; i_peer : string; i_conversation : string; i_purpose : string;
  i_reference : string; i_device : string; i_body : json
}.

(** A claim of a one-time key: newly reserved, or kept from a lost race. *)
Record claim_ := Claim { cl_id : string; cl_key : option json; cl_until : Z; cl_cache : string }.

(** How one device will be reached. *)
Record plan := Plan {
  p_target : json; p_trusted : trusted; p_binding : json; p_context : json;
  p_prior : option string; p_claim : option claim_; p_pending : option json; p_replaces : option string
}.

(** What is sent on again when an attempt was refused or aborted. *)
Definition resealed (r : json) : intent :=
  Intent (str_of (field "logicalID" r)) (str_of (field "scope" r))
    (if is_text (field "scope" r) "direct" then str_of (field "peer" r) else "") (str_of (field "conversation" r))
    (str_of (field "purpose" r)) (str_of (field "reference" r)) "" (default JNull (field "body" r)).

Definition is_control (i : intent) : bool := bool_decide (i_purpose i = "control"%string).
Definition is_direct (i : intent) : bool := bool_decide (i_scope i = "direct"%string).

Definition intent_ok (i : intent) : bool :=
  bool_decide (i_scope i ∈ ["direct"; "group"]%string) && bool_decide (i_purpose i ∈ ["chat"; "edit"; "delete"; "control"]%string) &&
  negb (Bool.eqb (bool_decide (i_purpose i = "chat"%string) || is_control i) (negb (bool_decide (i_reference i = ""%string)))).

Definition not_null (v : json) : bool := negb (bool_decide (v = JNull)).
Definition is_device (p d : string) (t : json) : bool := is_text (field "principal" t) p && is_text (field "device" t) d.

(** A control is for exactly the named device, and the local archive. *)
Definition control_targets (i : intent) (m : json) : result string json :=
  match field "targets" m with
  | Some (JArr l) =>
    guard! forallb not_null l else ""%string in
    let kept := filter (fun t => is_local t || is_device (i_peer i) (i_device i) t = true) l in
    guard! len kept =? 2 else "device_unavailable"%string in Ok (jset "targets" (JArr kept) m)
  | _ => Err ""%string
  end.

(** The one local target is this device, under its current account. *)
Definition local_ok (identity_ : string) (a : authority) (m : json) : bool :=
  match filter (fun t => is_local t = true) (items (field "targets" m)) with
  | [t] => strict_eq (field "principal" t) (field "sender" m) && strict_eq (field "device" t) (field "device" m) &&
           bool_decide (field "account_epoch" t = Some (JNum (au_epoch a))) && is_text (field "identity" t) identity_
  | _ => false
  end.

(** The cache key of a claim. *)
Definition claim_key (a : authority) (t : json) : string :=
  text (stringify (JArr [JStr (au_account a); JNum (au_epoch a); default JNull (field "principal" t); default JNull (field "device" t);
                         default JNull (field "account_epoch" t); default JNull (field "identity" t)])).

Definition claim_json (c : claim_) : json := JObj [("claim_id", JStr (cl_id c)); ("claim_until", JNum (cl_until c))]%string.
(** The claim that the new session's first packet carries. *)
Definition session_claim (p : plan) : option json := match p_claim p with Some c => Some (claim_json c) | None => p_pending p end.

Definition claim_until_of (pending : json) : Z := num_or 0 (field "claim_until" pending).

(** [trusted.pin?.identity || t.identity] *)
Definition pinned_identity (tr : trusted) (t : json) : option json :=
  match present (field_of "identity" (t_pin tr)) with Some i => Some i | None => field "identity" t end.

(** A message sealed for its devices, before it is committed. *)
Record sealed_message := Sealed {
  s_before : snapshot; s_manifest : json; s_plans : list plan; s_packets : list packet; s_copies : list json; s_archive : json
}.

Section send.
Context `{Cipher}.
Variable sha256 : list Z -> list Z.
Variable cv : curves.
Variable ns : names.
Variable check : prog unit.
Variable admission core : json -> prog json.
Variable deviceKey : string -> string -> prog (list Z).
Variable trustReset : string -> prog string.
Variable trustResetDone : string -> string -> prog unit.
Variable projectors : nat.
Variable directory_request : json -> prog json.
Variable signBundle : json -> prog json.
Variable refreshMS : Z.
Variable attemptTTL : Z.

#[local] Abbreviation check_ := (check_ check).
#[local] Abbreviation handoff := (handoff ns check admission).
#[local] Abbreviation directory := (directory check directory_request).
#[local] Abbreviation ready := (ready sha256 ns check admission core directory_request signBundle refreshMS).
#[local] Abbreviation serial := (serial check).

(** ** What is sealed *)

(** The deadline of the attempt, and the checked body of a control. *)
Definition deadline_of (i : intent) : M (Z * option json) :=
  m! t := now in
  let deadline := t + attemptTTL in
  if is_control i then
    m! t1 := now in
    match validateControlSend (i_body i) t1 with
    | None => mthrow "invalid"%string
    | Some b =>
      test! is_direct i && negb (bool_decide (i_device i = ""%string)) && negb (bool_decide (i_device i = n_device ns)) else "invalid"%string in
      m! t2 := now in
      let least := Z.min (Z.min deadline (expires_of b)) (t2 + MAX_CONTROL_TTL) in
      m! t3 := now in
      test! DEADLINE_MARGIN + 5 <=? least - t3 else "invalid"%string in
      mret (least, Some b)
    end
  else
    test! bool_decide (i_device i = ""%string) else "invalid"%string in
    mret (deadline, None).

Definition roster_of (a : authority) (i : intent) : M json :=
  mcatch (handoff a (obj [("action", Some (JStr "snapshot")); ("scope", Some (JStr (i_scope i)));
      ("peer", if is_direct i then Some (JStr (i_peer i)) else None);
      ("conversation", if is_direct i then None else Some (JStr (i_conversation i)));
      ("target_device", if is_control i then Some (JStr (i_device i)) else None)]%string))
    (fun e => mthrow (if bool_decide (e = "exhausted"%string) then "device_unpublished"%string else e)).

Definition manifest_of (a : authority) (i : intent) (deadline : Z) (roster : json) : json :=
  obj [("version", Some (JStr ADMISSION_VERSION)); ("server", Some (JStr (n_server ns))); ("sender", Some (JStr (n_principal ns)));
       ("device", Some (JStr (n_device ns))); ("account_epoch", Some (JNum (au_epoch a)));
       ("attempt_id", Some (JStr (text (print_num (au_next a + 1))))); ("logical_id", Some (JStr (i_logical i)));
       ("purpose", Some (JStr (i_purpose i)));
       ("reference", if bool_decide (i_reference i = ""%string) then None else Some (JStr (i_reference i)));
       ("scope", Some (JStr (i_scope i)));
       ("peer", if is_direct i then Some (JStr (i_peer i)) else None);
       ("conversation", if is_direct i then None else Some (JStr (i_conversation i)));
       ("revision", if is_direct i then None else field "revision" roster);
       ("epoch", if is_direct i then None else field "epoch" roster);
       ("deadline", Some (JNum deadline)); ("rosters", field "rosters" roster); ("targets", field "targets" roster)]%string.

(** The manifest of a new attempt, before its parts. *)
Definition addressed (a : authority) (i : intent) (deadline : Z) (roster : json) (identity_ : string) : result string json :=
  guard! not_null roster else ""%string in
  let m0 := manifest_of a i deadline roster in
  let! m := if is_control i then control_targets i m0 else Ok m0 in
  let! _ := checkFanout (i_scope i) (field "targets" m) in
  guard! forallb not_null (items (field "targets" m)) else ""%string in
  guard! local_ok identity_ a m else "local_identity_mismatch"%string in
  Ok m.

(** ** Sessions *)

(** Legacy per-conversation and retired sessions are never used for sending. *)
Fixpoint index_sessions (l : list (ref * rec)) (acc : list (string * string)) : result string (list (string * string)) :=
  match l with
  | [] => Ok acc
  | (r, v) :: rest =>
    let! st := json_ (data v) in
    index_sessions rest
      (if negb (truthy (field "retired" st)) && is_text (field_of "scope" (field "context" st)) DEVICE_PAIR_SCOPE
       then OMap.set (text (stringify (default JNull (field "context" st)))) r.2 acc else acc)
  end.

Definition sessionIndex : M (list (string * string)) :=
  m! st := mget in
  match c_sessions st with
  | Some m => mret m
  | None =>
    m! l := refs ns check "session" in
    m! recs := readMany ns check l in
    m! m := pure_ (index_sessions recs []) in
    m! _ := mset (fun c => c <| c_sessions := Some m |>) in
    mret m
  end.

(** A claim must cover the new attempt's deadline plus a margin. *)
Definition covers (t until : Z) : bool := t + attemptTTL + 60 <? until.

(** A session whose first packet was never accepted is used again with its own
    claim while that covers the attempt, and replaced otherwise. *)
Definition pending_session (session : string) : M (option string * option json * option string) :=
  m! s := lift (read ns [("session", session)%string]) in
  let r := rec_of ("session", session)%string s in
  test! exists_ r else "local_conflict"%string in
  m! st := pure_ (json_ (data r)) in
  m! t := now in
  mret match present (field "pending" st) with
       | Some p => if covers t (claim_until_of p) then (Some session, Some p, None) else (None, None, Some session)
       | None => (Some session, None, None)
       end.

(** A fresh claim, reserved durably before the directory is asked. *)
Definition reserve (a : authority) (m t : json) (trusted0 : trusted) (key : string) : M (trusted * claim_) :=
  m! id := randomUUID in
  m! t0 := now in
  let until := t0 + 3600 in
  let request := obj [("action", Some (JStr "claim")); ("request_id", Some (JStr id)); ("principal", field "principal" t);
    ("device_id", field "device" t); ("account_epoch", Some (JNum (au_epoch a))); ("claim_until", Some (JNum until))]%string in
  m! s := lift (read ns [("trust", t_id trusted0); ("claim", id)]%string) in
  m! _ := lift (reserveClaim ns s id (t_id trusted0) (jsonBytes request)) in
  m! s1 := lift (read ns []) in
  m! _ := lift (checkAccountAuthority ns s1 (au_fence a) (au_account a) (au_epoch a)) in
  m! _ := check_ in
  m! result := directory request in
  m! _ := check_ in
  let bundle := default JNull (field "bundle" result) in
  m! t1 := now in
  m! selected := pure_ (match pinned_identity trusted0 t with
    | Some (JStr identity_) =>
      verifyReservedClaim cv bundle (Evidence (t_key trusted0) (n_server ns) (str_of (field "principal" t)) (str_of (field "device" t))
        (num_or 0 (field "account_epoch" t)) identity_) (str_of (field "key_id" result)) until t1
    | _ => Err bad
    end) in
  m! trusted1 := adopt ns check trusted0 bundle in
  let c := Claim id (field "key" selected) until key in
  m! _ := mset (fun k => k <| c_claims := OMap.set key (Kept id (field "key" selected) until) (c_claims k) |>) in
  mret (trusted1, c).

(** The claim of a target without a usable session: one kept from a lost race
    while it covers the attempt, or a fresh one. *)
Definition claim_for (a : authority) (m t : json) (trusted0 : trusted) : M (trusted * claim_) :=
  let key := claim_key a t in
  m! st := mget in
  m! t0 := now in
  match OMap.get key (c_claims st), t_pin trusted0 with
  | Some k, Some _ => if covers t0 (k_until k) then mret (trusted0, Claim (k_id k) (k_key k) (k_until k) key) else reserve a m t trusted0 key
  | _, _ => reserve a m t trusted0 key
  end.

(** How a target is reached: its device is trusted and its pin is the target's. *)
Definition plan_target (a : authority) (m : json) (sessions : list (string * string)) (t : json) : M plan :=
  let principal := str_of (field "principal" t) in
  let device := str_of (field "device" t) in
  m! t0 := trust_ ns check deviceKey trustReset trustResetDone principal device in
  m! t1 := promote cv ns check admission a t0 principal device (num_or 0 (field "account_epoch" t)) (field "identity" t) false in
  let binding := expectedBinding m t in
  let context := context_ a t in
  m! (prior, pending, replaces) :=
    match (if bool_decide (is_Some (t_pin t1)) then OMap.get (text (stringify context)) sessions else None) with
    | Some session => pending_session session
    | None => mret (None, None, None)
    end in
  match prior with
  | Some _ => mret (Plan t t1 binding context prior None pending replaces)
  | None =>
    m! (t2, c) := claim_for a m t t1 in
    mret (Plan t t2 binding context None (Some c) pending replaces)
  end.

(** Every other device is required: one that cannot be verified fails the send. *)
Fixpoint plan_targets (a : authority) (m : json) (sessions : list (string * string)) (l : list json) : M (list plan) :=
  match l with
  | [] => mret []
  | t :: rest =>
    if is_local t then plan_targets a m sessions rest
    else
      m! p := plan_target a m sessions t in
      m! ps := plan_targets a m sessions rest in
      mret (p :: ps)
  end.

(** ** Sealing *)

Definition plan_refs (p : plan) : list ref :=
  ("trust", t_id (p_trusted p))%string ::
  match p_prior p with Some s => [("session", s)%string] | None => [] end ++
  match p_replaces p with Some s => [("session", s)%string] | None => [] end.

(** The session a plan relies on is still what was planned with. *)
Definition prior_state (before : snapshot) (p : plan) : result string (option json) :=
  match p_prior p with
  | None => Ok None
  | Some session =>
    let r := rec_of ("session", session)%string before in
    guard! exists_ r else "local_conflict"%string in
    let! st := json_ (data r) in
    guard! negb (truthy (field "retired" st)) && same_text (field "context" st) (Some (p_context p)) else "local_conflict"%string in
    guard! equalJSON (default JNull (present (field "pending" st))) (default JNull (p_pending p)) else "local_conflict"%string in
    Ok (Some st)
  end.

(** Only a session that is still pending with a claim too short is replaced. *)
Definition replaceable (before : snapshot) (p : plan) (t : Z) : result string unit :=
  match p_replaces p with
  | None => Ok tt
  | Some session =>
    let r := rec_of ("session", session)%string before in
    guard! exists_ r else "local_conflict"%string in
    let! st := json_ (data r) in
    guard! negb (truthy (field "retired" st)) &&
           match present (field "pending" st) with Some c => claim_until_of c <=? t + attemptTTL + 60 | None => false end
      else "local_conflict"%string in
    Ok tt
  end.

(** The core encrypts for one device; what is stored and what is sent of it. *)
Definition seal_copy (m body : json) (before : snapshot) (key account : list Z) (p : plan) : M (packet * json) :=
  m! prior := pure_ (prior_state before p) in
  m! t := now in
  m! _ := pure_ (replaceable before p t) in
  m! plaintext := pure_ (sealPayload m (p_target p) body) in
  m! result := lift (core (obj (
    [("op", Some (JStr (if prior then "encrypt" else "outbound"))); ("key", Some (json_of_bytes key))]%string ++
    match prior with
    | Some st => [("session", Some (JStr (text (bytes_of_json (field "snapshot" st)))))]%string
    | None => [("account", Some (JStr (text account))); ("peer_identity", field "identity" (p_target p));
               ("one_time_key", p_claim p ≫= cl_key)]%string
    end ++
    [("binding", Some (p_binding p)); ("plaintext", Some (json_of_bytes plaintext))]%string))) in
  m! _ := check_ in
  let session := sessionRef (String_of (field "session_id" result)) in
  test! match p_prior p with Some s => bool_decide (s = session) | None => true end else "local_conflict"%string in
  let envelope := default JNull (field "envelope" result) in
  let c := session_claim p in
  mret (Packet session (t_id (p_trusted p)) (jsonBytes envelope) (bytes_at "session" result) (Some (p_context p)) c (p_replaces p),
        obj [("principal", field "principal" (p_target p)); ("device", field "device" (p_target p));
             ("account_epoch", field "account_epoch" (p_target p)); ("session_id", field "session_id" result);
             ("claim_id", match c with Some c => field "claim_id" c | None => None end); ("envelope", field "envelope" result)]%string).

Fixpoint seal_copies (m body : json) (before : snapshot) (key account : list Z) (l : list plan) : M (list packet * list json) :=
  match l with
  | [] => mret ([], [])
  | p :: rest =>
    m! (k, c) := seal_copy m body before key account p in
    m! (ks, cs) := seal_copies m body before key account rest in
    mret (k :: ks, c :: cs)
  end.

(** The archived record of a send; a control keeps no data. *)
Definition sent_record (i : intent) (control : option json) (ms : Z) : json :=
  let key_for (id : string) := semanticKey (JStr (n_principal ns)) (JStr id) in
  let plain := obj [("protocol", Some (JStr RATCHET_PROTOCOL)); ("provenance", Some (JStr "authenticated"));
       ("sender", Some (JStr (n_principal ns))); ("senderDevice", Some (JStr (n_device ns))); ("logicalID", Some (JStr (i_logical i)));
       ("key", Some (key_for (i_logical i))); ("scope", Some (JStr (i_scope i)));
       ("peer", Some (JStr (if is_direct i then i_peer i else "")));
       ("conversation", Some (JStr (if is_direct i then "" else i_conversation i))); ("purpose", Some (JStr (i_purpose i)));
       ("reference", Some (JStr (i_reference i)));
       ("referenceKey", Some (if bool_decide (i_reference i = ""%string) then JStr "" else key_for (i_reference i)));
       ("body", Some (i_body i)); ("sentAt", Some (sent_at (i_body i) ms)); ("self", Some (JBool true)); ("copied", Some (JBool false));
       ("device", if is_control i then Some (JStr (i_device i)) else None)]%string in
  match control with Some b => jset "body" (default JNull (controlArchiveBody (Some b))) plain | None => plain end.

(** The sealed copies are frozen, and committed against the exact records they
    were made from. *)
Definition commit_sealed (before : snapshot) (m : json) (packets : list packet) (copies : list json) (record : json) : M unit :=
  m! (manifest, parts) := pure_ (freezeAttempt sha256 m copies) in
  m! (_, reused) := mcatch
    (m! s := lift (extended ns before (map (fun p => ("session", sessionID p)%string) packets)) in
     m! _ := pure_ (compare before s) in
     lift (commitAttempt sha256 ns s manifest parts packets (jsonBytes record)))
    (fun e => mthrow (if bool_decide (e = "conflict"%string) then "local_conflict"%string else e)) in
  test! negb reused else "local_conflict"%string in
  mret tt.

Definition forget_claims (l : list plan) (claims : list (string * kept_claim)) : list (string * kept_claim) :=
  foldl (fun m p => match p_claim p with Some c => OMap.del (cl_cache c) m | None => m end) claims l.
Definition note_sessions (l : list packet) (m : list (string * string)) : list (string * string) :=
  foldl (fun m p => OMap.set (text (stringify (default JNull (context p)))) (sessionID p) m) m l.

(** [#seal], up to the encrypted copies. *)
Definition sealed (a : authority) (i : intent) : M sealed_message :=
  test! intent_ok i else "invalid"%string in
  m! (deadline, control) := deadline_of i in
  m! roster := roster_of a i in
  m! st := mget in
  m! m := pure_ (addressed a i deadline roster (c_identity st)) in
  m! sessions := sessionIndex in
  m! plans := plan_targets a m sessions (items (field "targets" m)) in
  m! before := lift (read ns ([("logical", i_logical i); ("account", au_account a)]%string ++ (plans ≫= plan_refs))) in
  m! _ := check_ in
  m! key := pure_ (coreKey ns before) in
  let account := data (rec_of ("account", au_account a)%string before) in
  m! ms := clock in
  let record := sent_record i control ms in
  m! (packets, copies) := seal_copies m (i_body i) before key account plans in
  mret (Sealed before m plans packets copies record).

(** [#seal], up to the attempt that is to be resolved. *)
Definition seal (a : authority) (i : intent) : M string :=
  m! s := sealed a i in
  m! _ := commit_sealed (s_before s) (s_manifest s) (s_packets s) (s_copies s) (s_archive s) in
  m! _ := mset (fun k => k <| c_claims := forget_claims (s_plans s) (c_claims k) |>) in
  m! _ := check_ in
  m! _ := mset (fun k => k <| c_sessions := note_sessions (s_packets s) <$> c_sessions k |>) in
  mret (text (print_num (au_epoch a)) +:+ ":" +:+ str_of (field "attempt_id" (s_manifest s))).

(** ** Sending *)

(** The attempt a send resolves: the one its logical ID already has, unless that
    was refused or aborted and may be sealed again with its original content. *)
Definition attempt_for (a : authority) (i : intent) : M (string * bool) :=
  m! s := lift (read ns [("logical", i_logical i)%string]) in
  let r := rec_of ("logical", i_logical i)%string s in
  if exists_ r then
    m! logical := pure_ (json_ (data r)) in
    let id := str_of (field "attemptID" logical) in
    m! (_, record) := outcome_ ns id in
    if negb (is_text (field "state" logical) "rejected" || is_text (field "state" logical) "aborted") then mret (id, true)
    else if is_text (field "purpose" record) "control" then mret (id, true)
    else m! id' := seal a (resealed record) in mret (id', true)
  else m! id := seal a i in mret (id, false).

(** [#send]; an inner error carries the committed original. *)
Definition send_once (i : intent) : M (result string (json * json * bool)) :=
  m! a := authority_ ns check in
  m! (id, reused) := attempt_for a i in
  m! r := resolve_outcome sha256 ns check admission projectors a id in
  mret match r with Ok (record, receipt) => Ok (record, receipt, reused) | Err e => Err e end.

(** [send]: started over after a lost race, at most three times. *)
Fixpoint send_tries (left_ : nat) (i : intent) : M (json * json * bool) :=
  m! _ := ready in
  mtry (serial (send_once i)) (fun r =>
    let failed (e : string) : M (json * json * bool) :=
      if bool_decide (e = "local_conflict"%string) then
        match left_ with
        | O => mthrow e
        | S l => m! _ := mset (fun c => c <| c_sessions := None |>) in send_tries l i
        end
      else mthrow e in
    match r with
    | Ok (Ok x) => mret x
    | Ok (Err e) => failed e
    | Err e => failed (if bool_decide (e = "conflict"%string) then "local_conflict"%string else e)
    end).
Definition send (i : intent) : M (json * json * bool) := send_tries LOCAL_RETRY i.

Definition sendControl (logical principal device : string) (body : json) : M (json * json * bool) :=
  send (Intent logical "direct" principal "" "control" "" device body).
End send.
