(* ===== verification/ConsumerLogic.v ===== *)
(** * Reasoning about the consumer's operations

    [keeps] and [uses]: an operation of an instance is safe on the shared store,
    from any state or on a snapshot that was read before.  [spec] adds what holds
    of its result, [hushed] that it hands nothing on.  The tactics [keep] and
    [hush] follow the structure of an operation; the lemmas on the operations it
    calls are in the hint databases of the same names. *)

From stdpp Require Import base gmap list strings.
From Stdlib Require Import ZArith Lia.
From S2P Require Import Prelude Json Text Db DbAtomic RatchetStore RatchetCommit RatchetSafety RatchetConsumer.

Section logic.
Context `{Cipher}.
Variable ns : names.

#[local] Abbreviation Inv := (Inv ns).
#[local] Abbreviation Guar := (Guar ns).
#[local] Abbreviation snap_ok := (snap_ok ns).
#[local] Notation Safe p d := (safe Inv Guar p (fun _ _ => True) d) (only parsing).

(** ** Operations of an instance *)

(** [keeps m]: the operation is safe from any state; [uses s m]: on a snapshot
    that was read before. *)
Definition keeps {A} (m : M A) : Prop := forall c d, Safe (m c) d.
Definition uses {A} (s : snapshot) (m : M A) : Prop := forall c d, snap_ok s d -> Safe (m c) d.

Lemma keeps_uses {A} s (m : M A) : keeps m -> uses s m.
Proof. intros Hm c d _. apply Hm. Qed.

Lemma keeps_done {A} (r : result string A) : keeps (fun c => Db.done (r, c)).
Proof. done. Qed.

Lemma keeps_get : keeps mget.
Proof. done. Qed.
Lemma keeps_set f : keeps (mset f).
Proof. done. Qed.

Lemma keeps_try {A B} (m : M A) (k : result string A -> M B) : keeps m -> (forall r, keeps (k r)) -> keeps (mtry m k).
Proof.
  intros Hm Hk c d. apply safe_bind. eapply safe_mono; [|apply Hm]. intros [x|e] d' _; [|exact I]. apply Hk.
Qed.

Lemma uses_try {A B} s (m : M A) (k : result string A -> M B) : uses s m -> (forall r, uses s (k r)) -> uses s (mtry m k).
Proof.
  intros Hm Hk c d Hs. apply (safe_seq ns _ _ (fun d => snap_ok s d)); [apply snap_ok_stable|done|by apply Hm|].
  intros x d' Hs'. by apply Hk.
Qed.

Lemma keeps_bind {A B} (m : M A) (k : A -> M B) : keeps m -> (forall a, keeps (k a)) -> keeps (mbind_ m k).
Proof. intros Hm Hk. apply keeps_try; [done|]. intros [a|e]; [apply Hk|done]. Qed.

Lemma uses_bind {A B} s (m : M A) (k : A -> M B) : uses s m -> (forall a, uses s (k a)) -> uses s (mbind_ m k).
Proof. intros Hm Hk. apply uses_try; [done|]. intros [a|e]; [apply Hk|by apply keeps_uses]. Qed.

Lemma lift_safe {A} (p : prog A) c d : Safe p d -> Safe (lift p c) d.
Proof. intros Hp. apply safe_settle. eapply safe_mono; [|exact Hp]. done. Qed.

Lemma keeps_lift {A} (p : prog A) : (forall d, Safe p d) -> keeps (lift p).
Proof. intros Hp c d. by apply lift_safe. Qed.

Lemma uses_lift {A} s (p : prog A) : (forall d, snap_ok s d -> Safe p d) -> uses s (lift p).
Proof. intros Hp c d Hs. by apply lift_safe, Hp. Qed.

Lemma keeps_read {A} refs (k : snapshot -> M A) : (forall s, uses s (k s)) -> keeps (m! s := lift (read ns refs) in k s).
Proof.
  intros Hk c d. apply safe_bind, safe_settle. eapply safe_mono; [|apply read_safe].
  intros [s|e] d' Hs; [|exact I]. apply Hk. destruct (Hs s eq_refl) as (d1 & _ & Hat & Hr). by eapply read_at_snap.
Qed.

(** Extending a snapshot reads a new one that is current again. *)
Lemma uses_extended {A} s refs (k : snapshot -> M A) :
  (forall s', uses s' (k s')) -> uses s (m! s' := lift (extended ns s refs) in k s').
Proof.
  intros Hk c d Hs. apply safe_bind, safe_settle. eapply safe_mono; [|apply extended_safe].
  intros [s'|e] d' Hx; [|exact I]. apply Hk. by destruct (Hx s' eq_refl) as [? _].
Qed.

Lemma keeps_catch {A} (m : M A) (h : string -> M A) : keeps m -> (forall e, keeps (h e)) -> keeps (mcatch m h).
Proof. intros Hm Hh. apply keeps_try; [done|]. intros [a|e]; [done|apply Hh]. Qed.
Lemma uses_catch {A} s (m : M A) (h : string -> M A) : uses s m -> (forall e, uses s (h e)) -> uses s (mcatch m h).
Proof. intros Hm Hh. apply uses_try; [done|]. intros [a|e]; [by apply keeps_uses|apply Hh]. Qed.

(** ** Specifications of an instance's operations *)

(** Started where [P] holds, which the others cannot break, the operation is
    safe, and a result satisfies [Q] in the state it is returned in. *)
Definition spec {A} (P : database -> Prop) (m : M A) (Q : A -> database -> Prop) : Prop := forall c d, P d ->
  safe Inv Guar (m c) (fun r d' => forall a c', r = Ok (Ok a, c') -> Q a d') d.

Lemma spec_weaken {A} (P P' : database -> Prop) (m : M A) Q : (forall d, P d -> P' d) -> spec P' m Q -> spec P m Q.
Proof. intros HP Hm c d Hd. by apply Hm, HP. Qed.

Lemma spec_seq {A B} P (m : M A) (k : A -> M B) Q : stable Inv Guar P -> keeps m -> (forall a, spec P (k a) Q) -> spec P (mbind_ m k) Q.
Proof.
  intros Hst Hm Hk c d HP. apply safe_bind. eapply safe_mono; [|apply (safe_frame ns _ _ _ _ Hst HP (Hm c d))].
  intros [[[a|e] c']|e] d' [_ HP']; [by apply Hk|done|done].
Qed.

Lemma spec_then {A B} P (m : M A) (k : A -> M B) R Q : spec P m R -> (forall a, spec (R a) (k a) Q) -> spec P (mbind_ m k) Q.
Proof.
  intros Hm Hk c d HP. apply safe_bind. eapply safe_mono; [|by apply Hm].
  intros [[[a|e] c']|e] d' HR; [by eapply Hk, HR|done|done].
Qed.

Lemma keeps_spec {A} (m : M A) Q : spec (fun _ => True) m Q -> keeps m.
Proof. intros Hm c d. eapply safe_mono; [|by apply Hm]. done. Qed.

Lemma uses_spec {A} s (m : M A) : uses s m -> spec (snap_ok s) m (fun _ _ => True).
Proof. intros Hm c d Hs. eapply safe_mono; [|by apply Hm]. done. Qed.

Lemma stable_True : stable Inv Guar (fun _ => True).
Proof. done. Qed.

Lemma spec_lift {A} P (p : prog A) (R : A -> database -> Prop) :
  (forall d, P d -> safe Inv Guar p (fun r d' => forall x, r = Ok x -> R x d') d) -> spec P (lift p) R.
Proof.
  intros Hp c d HP. apply safe_settle. eapply safe_mono; [|by apply Hp]. intros [x|e] d' Hx a c' [= <- <-]. by apply Hx.
Qed.

Lemma spec_fail {A} P e (Q : A -> database -> Prop) : spec P (mthrow e) Q.
Proof. intros c d _ a c' [=]. Qed.
Lemma spec_ret {A} (P : database -> Prop) (a : A) (Q : A -> database -> Prop) : (forall d, P d -> Q a d) -> spec P (mret a) Q.
Proof. intros HQ c d Hd b c' [= <- <-]. by apply HQ. Qed.
Lemma spec_pure {A B} P (r : result string A) (k : A -> M B) Q : (forall a, r = Ok a -> spec P (k a) Q) -> spec P (m! a := pure_ r in k a) Q.
Proof.
  intros Hk c d HP. destruct r as [a|e]; [by apply Hk|]. intros x c' [=].
Qed.

(** A snapshot was current at one instant [d1], where [P] held too. *)
Lemma spec_read {A} P refs (k : snapshot -> M A) Q : stable Inv Guar P ->
  (forall s d1, P d1 -> read_at ns s refs d1 -> spec (fun d => P d /\ snap_ok s d /\ rely Inv Guar d1 d) (k s) Q) ->
  spec P (m! s := lift (read ns refs) in k s) Q.
Proof.
  intros Hst Hk c d HP. apply safe_bind, safe_settle. eapply safe_mono; [|apply read_safe].
  intros [s|e] d' Hs; [|done]. destruct (Hs s eq_refl) as (d1 & Hr1 & Hat & Hr2).
  assert (P1 : P d1) by (by eapply stable_rely). apply (Hk s d1 P1 Hat). split_and!; [by eapply stable_rely|by eapply read_at_snap|done].
Qed.

Lemma stable_and P Q : stable Inv Guar P -> stable Inv Guar Q -> stable Inv Guar (fun d => P d /\ Q d).
Proof. intros HP HQ d d' [] HI HI' HG. split; [by eapply HP|by eapply HQ]. Qed.

Definition not_before (g : Z) (d : database) : Prop := g <= generation (current d).
Lemma not_before_stable g : stable Inv Guar (not_before g).
Proof. unfold not_before. intros d d' Hle _ _ [_ [?|[? _]]]; lia. Qed.

(** In a later generation there is nothing to show. *)
Lemma spec_expired {A} g (m : M A) (Q : A -> database -> Prop) : keeps m ->
  spec (not_before (g + 1)) m (fun a d => generation (current d) = g -> Q a d).
Proof.
  intros Hm c d Hd. eapply safe_mono; [|apply (safe_frame ns _ _ _ _ (not_before_stable (g + 1)) Hd (Hm c d))].
  intros r d' [_ Hlow] a c' _ Hg. unfold not_before in Hlow. lia.
Qed.

(** What holds as long as the generation has not changed. *)
Lemma spec_same {A} g (P : database -> Prop) (fact : Prop) (m : M A) (Q : A -> database -> Prop) :
  (forall d, P d -> not_before g d) -> keeps m ->
  (fact -> spec P m (fun a d => generation (current d) = g -> Q a d)) ->
  spec (fun d => P d /\ (generation (current d) = g -> fact)) m (fun a d => generation (current d) = g -> Q a d).
Proof.
  intros Hlow Hm Hk c d [HP Hf]. destruct (Z.eq_dec (generation (current d)) g) as [E|E]; [by apply Hk; auto|].
  apply spec_expired; [done|]. apply Hlow in HP. unfold not_before in *. lia.
Qed.

Lemma spec_try {A B} P (m : M A) (k : result string A -> M B) R Q : stable Inv Guar P -> spec P m R ->
  (forall a, spec (fun d => P d /\ R a d) (k (Ok a)) Q) -> (forall e, spec P (k (Err e)) Q) -> spec P (mtry m k) Q.
Proof.
  intros Hst Hm Hok Herr c d HP. apply safe_bind. eapply safe_mono; [|apply (safe_frame ns _ _ _ _ Hst HP (Hm c d HP))].
  intros [[[a|e] c']|e] d' [HR HP']; [by apply Hok; eauto|by apply Herr|done].
Qed.

(** The record of a reference, when the snapshot was current. *)
Lemma read_rec s refs d1 (r : ref) : read_at ns s refs d1 -> r ∈ refs -> rec_of r s = rec_in ns d1 r.
Proof.
  intros (_ & _ & _ & _ & Ha & Hin) Hr. unfold rec_of. destruct (Hin r) as [v Hv]; [by right|]. by rewrite Hv, (Ha _ _ Hv).
Qed.

Lemma exec_spec {A} P (m : M A) Q c d l a c' d' : Inv d -> P d -> spec P m Q -> exec (rely Inv Guar) (m c) d l (Ok (Ok a, c')) d' -> Q a d'.
Proof. intros HI HP Hm He. destruct (safe_exec _ _ _ _ _ _ _ _ HI (Hm c d HP) He) as (_ & _ & HQ). by eapply HQ. Qed.

Lemma exec_mtry {A B} env (m : M A) (k : result string A -> M B) c d l r d' : exec env (mtry m k c) d l (Ok r) d' ->
  exists x c1 l1 d1 l2, exec env (m c) d l1 (Ok (x, c1)) d1 /\ exec env (k x c1) d1 l2 (Ok r) d' /\ l = l1 ++ l2.
Proof. intros [([x c1] & l1 & d1 & l2 & H1 & H2 & ->)|(e & _ & ?)]%exec_bind; [|done]. by exists x, c1, l1, d1, l2. Qed.

End logic.

(** ** Handing on *)

(** The acknowledgements asked of the server. *)
Definition is_ack (request : json) : bool := is_text (field "action" request) "receive_ack".
Definition acks (c : consumer) : list json := filter (fun r => is_ack r = true) (asked c).

(** Nothing is handed on, and nothing is acknowledged. *)
Definition same_voice (c c' : consumer) : Prop := emitted c' = emitted c /\ acks c' = acks c.
#[export] Instance same_voice_refl : Reflexive same_voice.
Proof. by split. Qed.
Lemma same_voice_trans c1 c2 c3 : same_voice c1 c2 -> same_voice c2 c3 -> same_voice c1 c3.
Proof. intros [? ?] [? ?]. split; congruence. Qed.
Definition hushed {A} (m : M A) : Prop := forall c, only (fun _ _ => True) (m c) (fun x => same_voice c x.2).

Lemma hushed_done {A} (r : result string A) : hushed (fun c => Db.done (r, c)).
Proof. intros c. apply same_voice_refl. Qed.
Lemma hushed_get : hushed mget.
Proof. intros c. apply same_voice_refl. Qed.
Lemma hushed_set f : (forall c, same_voice c (f c)) -> hushed (mset f).
Proof. intros Hf c. apply Hf. Qed.
Lemma hushed_try {A B} (m : M A) (k : result string A -> M B) : hushed m -> (forall r, hushed (k r)) -> hushed (mtry m k).
Proof.
  intros Hm Hk c. eapply only_bind; [apply Hm|]. intros [r c'] Hc. eapply only_mono; [|apply Hk]. cbn. intros x Hx. by eapply same_voice_trans.
Qed.
Lemma hushed_bind {A B} (m : M A) (k : A -> M B) : hushed m -> (forall a, hushed (k a)) -> hushed (mbind_ m k).
Proof. intros Hm Hk. apply hushed_try; [done|]. intros [a|e]; [apply Hk|apply hushed_done]. Qed.
Lemma hushed_lift {A} (p : prog A) : hushed (lift p).
Proof. intros c. eapply only_settle; [apply only_result|intros; apply same_voice_refl..]. Qed.
Lemma hushed_catch {A} (m : M A) (h : string -> M A) : hushed m -> (forall e, hushed (h e)) -> hushed (mcatch m h).
Proof. intros Hm Hh. apply hushed_try; [done|]. intros [a|e]; [apply hushed_done|apply Hh]. Qed.
Lemma acks_ask request (c : consumer) :
  acks (c <| asked := asked c ++ [request] |>) = acks c ++ (if is_ack request then [request] else []).
Proof.
  unfold acks. change (asked (c <| asked := asked c ++ [request] |>)) with (asked c ++ [request]). rewrite filter_app.
  cbn [filter list_filter]. by destruct (is_ack request).
Qed.
Lemma hushed_ask request : is_ack request = false -> hushed (mset (fun c => c <| asked := asked c ++ [request] |>)).
Proof. intros Hr. apply hushed_set. intros c. split; [done|]. by rewrite acks_ask, Hr, app_nil_r. Qed.

(** ** Results *)

(** Whatever the database answers, a result satisfies [R]. *)
Definition yields {A} (m : M A) (R : A -> Prop) : Prop :=
  forall c, only (fun _ _ => True) (m c) (fun x => forall a, x.1 = Ok a -> R a).

Lemma yields_any {A} (m : M A) : yields m (fun _ => True).
Proof. intros c. eapply only_mono; [|apply only_result]. done. Qed.
Lemma yields_mono {A} (m : M A) (R S : A -> Prop) : yields m R -> (forall a, R a -> S a) -> yields m S.
Proof. intros Hm HRS c. eapply only_mono; [|apply Hm]. cbn. auto. Qed.
Lemma yields_bind {A B} (m : M A) (k : A -> M B) (R : A -> Prop) S : yields m R -> (forall a, R a -> yields (k a) S) -> yields (mbind_ m k) S.
Proof. intros Hm Hk c. eapply only_bind; [apply Hm|]. intros [[a|e] c'] Ha; cbn [fst snd] in *; [by apply Hk, Ha|done]. Qed.
Lemma yields_then {A B} (m : M A) (k : A -> M B) S : (forall a, yields (k a) S) -> yields (mbind_ m k) S.
Proof. intros Hk. eapply yields_bind; [apply yields_any|auto]. Qed.
Lemma yields_pure {A B} (r : result string A) (k : A -> M B) S : (forall a, r = Ok a -> yields (k a) S) -> yields (m! a := pure_ r in k a) S.
Proof. intros Hk c. destruct r as [a|e]; [by apply Hk|]. intros a. done. Qed.
Lemma yields_ret {A} (a : A) (R : A -> Prop) : R a -> yields (mret a) R.
Proof. intros Ha c b [= <-]. done. Qed.
Lemma yields_fail {A} e (R : A -> Prop) : yields (mthrow e) R.
Proof. intros c a [=]. Qed.
Lemma yields_try {A B} (m : M A) (k : result string A -> M B) (R : A -> Prop) S :
  yields m R -> (forall a, R a -> yields (k (Ok a)) S) -> (forall e, yields (k (Err e)) S) -> yields (mtry m k) S.
Proof. intros Hm Hok Herr c. eapply only_bind; [apply Hm|]. intros [[a|e] c'] Ha; cbn [fst snd] in *; [by apply Hok, Ha|apply Herr]. Qed.
Lemma yields_catch {A} (m : M A) (h : string -> M A) R : yields m R -> (forall e, yields (h e) R) -> yields (mcatch m h) R.
Proof. intros Hm Hh. eapply yields_try; [exact Hm| |exact Hh]. intros a. apply yields_ret. Qed.
Lemma yields_casRetry {A} check (m : M A) R : yields m R -> yields (casRetry check m) R.
Proof.
  intros Hm. unfold casRetry. induction LOCAL_RETRY as [|n IH]; cbn [cas_retry]; (eapply yields_try; [exact Hm|intros a; apply yields_ret|]);
    intros e; [apply yields_fail|]. case_bool_decide; [|apply yields_fail]. apply yields_then. auto.
Qed.

(** ** Tactics *)

(** Steps over an operation until its result. *)
Ltac yield_step :=
  lazymatch goal with
  | |- yields (m! _ := pure_ _ in _) _ => apply yields_pure; intros
  | |- yields (mbind_ _ _) _ => apply yields_then; intros
  | |- yields (mthrow _) _ => apply yields_fail
  | |- yields (match ?x with _ => _ end) _ => destruct x eqn:?
  | |- yields (let _ := _ in _) _ => cbv zeta
  end.
Ltac yielding := repeat yield_step.

Create HintDb keeps discriminated.
#[export] Hint Resolve keeps_done keeps_get keeps_set : keeps.

Ltac keep_step :=
  lazymatch goal with
  | |- keeps _ (mbind_ (lift (read _ _)) _) => apply keeps_read; intro
  | |- keeps _ (mbind_ _ _) => apply keeps_bind; [|intro]
  | |- keeps _ (mtry _ _) => apply keeps_try; [|intro]
  | |- keeps _ (mcatch _ _) => apply keeps_catch; [|intro]
  | |- keeps _ (deterministic _ _) => apply keeps_catch; [|intro]
  | |- keeps _ (match ?x with _ => _ end) => destruct x
  | |- keeps _ (let _ := _ in _) => cbv zeta
  | |- keeps _ (lift _) => apply keeps_lift; solve [eauto with keeps]
  | |- keeps _ _ => solve [apply keeps_done | eauto with keeps]
  | |- uses _ _ (mbind_ (lift (read _ _)) _) => apply keeps_uses
  | |- uses _ _ (mbind_ (lift (extended _ _ _)) _) => apply uses_extended; intro
  | |- uses _ _ (mbind_ _ _) => apply uses_bind; [|intro]
  | |- uses _ _ (mtry _ _) => apply uses_try; [|intro]
  | |- uses _ _ (mcatch _ _) => apply uses_catch; [|intro]
  | |- uses _ _ (deterministic _ _) => apply uses_catch; [|intro]
  | |- uses _ _ (match ?x with _ => _ end) => destruct x
  | |- uses _ _ (let _ := _ in _) => cbv zeta
  | |- uses _ _ (lift _) => apply uses_lift; intros; solve [eauto with keeps]
  | |- uses _ _ _ => first [solve [eauto with keeps] | apply keeps_uses]
  end.
Ltac keep := repeat keep_step.


Create HintDb hushed discriminated.
#[export] Hint Resolve hushed_done hushed_get hushed_lift : hushed.
Ltac hush :=
  repeat lazymatch goal with
  | |- hushed (mbind_ _ _) => apply hushed_bind; [|intro]
  | |- hushed (mtry _ _) => apply hushed_try; [|intro]
  | |- hushed (mcatch _ _) => apply hushed_catch; [|intro]
  | |- hushed (deterministic _ _) => apply hushed_catch; [|intro]
  | |- hushed (match ?x with _ => _ end) => destruct x
  | |- hushed (let _ := _ in _) => cbv zeta
  | |- hushed (mset _) => apply hushed_set; intros; by split
  | |- hushed _ => solve [apply hushed_done | apply hushed_lift | eauto with hushed]
  end.
