(* ===== verification/RatchetReceive.v ===== *)
(** * The consumer on the shared store

    The consumer's operations are composed of the store's; each reads its own
    snapshots, so whatever the server answers and the other tabs do, a drain
    keeps the store's invariant and its records live only forward
    ([drain_keeps]).  A call that received a message leaves it durably
    in the store before it is handed on or acknowledged ([receive_durable]), and
    a delivery that is already there is replayed from the store and never handed
    on as new ([receive_replays]). *)

From stdpp Require Import base gmap list strings.
From Stdlib Require Import ZArith Lia.
From S2P Require Import Prelude Json Text OlmAdmission OlmControl OlmPayload Db DbAtomic OlmReset RatchetStore RatchetCommit RatchetSafety RatchetConsumer ConsumerLogic.

Section receive.
Context `{Cipher}.
Variable sha256 : list Z -> list Z.
Variable cv : curves.
Variable ns : names.
Variable check : prog unit.
Variable admission core : json -> prog json.
Variable deviceKey : string -> string -> prog (list Z).
Variable trustReset : string -> prog string.
Variable trustResetDone : string -> string -> prog unit.
Variable projectors : nat.

#[local] Abbreviation abs := (abs ns).
#[local] Abbreviation Inv := (Inv ns).
#[local] Abbreviation Guar := (Guar ns).
#[local] Abbreviation snap_ok := (snap_ok ns).
#[local] Notation Safe p d := (safe Inv Guar p (fun _ _ => True) d) (only parsing).
#[local] Abbreviation keeps := (keeps ns).
#[local] Abbreviation spec := (spec ns).

(** What surrounds the consumer keeps to the store's rules too. *)
Class Surroundings : Prop := {
  check_safe d : Safe check d;
  admission_safe r d : Safe (admission r) d;
  core_safe r d : Safe (core r) d;
  deviceKey_safe p v d : Safe (deviceKey p v) d;
  trustReset_safe p d : Safe (trustReset p) d;
  trustResetDone_safe p t d : Safe (trustResetDone p t) d
}.
Context `{!Surroundings}.

#[local] Hint Resolve check_safe admission_safe core_safe deviceKey_safe trustReset_safe trustResetDone_safe : keeps.
#[local] Hint Resolve setTrust_safe pendingRefs_safe accountAuthority_safe checkAccountAuthority_safe commitReceive_safe
  attemptWire_safe attemptStatusRequest_safe attemptRetirementRequest_safe applyAttemptResult_safe noteRetired_safe : keeps.

(** ** The consumer's operations, one by one *)

Lemma check_keeps : keeps (check_ check).
Proof. unfold check_. keep. Qed.
#[local] Hint Resolve check_keeps : keeps.

Lemma clock_keeps : keeps clock.
Proof. apply keeps_lift. intros d t. exact I. Qed.
#[local] Hint Resolve clock_keeps : keeps.

Lemma now_keeps : keeps now.
Proof. unfold now. keep. Qed.
#[local] Hint Resolve now_keeps : keeps.

Lemma net_keeps {A} n (p : prog A) : (forall d, Safe p d) -> keeps (net check n p).
Proof. intros Hp. induction n as [|n IH]; cbn [net]; keep. Qed.

Lemma call_keeps request : keeps (call_ check admission request).
Proof. unfold call_. pose proof (net_keeps 7 (admission request)). keep. Qed.
#[local] Hint Resolve call_keeps : keeps.

Lemma authority_keeps : keeps (authority_ ns check).
Proof. unfold authority_. keep. Qed.
#[local] Hint Resolve authority_keeps : keeps.

Lemma handoff_keeps a request : keeps (handoff ns check admission a request).
Proof. unfold handoff. keep. Qed.
#[local] Hint Resolve handoff_keeps : keeps.

Lemma refs_keeps n kind after acc : keeps (refs_from ns check n kind after acc).
Proof. revert after acc. induction n as [|n IH]; intros after acc; cbn [refs_from]; keep. Qed.
#[local] Hint Resolve refs_keeps : keeps.

Lemma read_chunks_keeps l acc : keeps (read_chunks ns check l acc).
Proof. revert acc. induction l as [|x l IH]; intros acc; cbn [read_chunks]; keep. Qed.
#[local] Hint Resolve read_chunks_keeps : keeps.

Lemma casRetry_keeps {A} (m : M A) : keeps m -> keeps (casRetry check m).
Proof. intros Hm. unfold casRetry. induction LOCAL_RETRY as [|n IH]; cbn [cas_retry]; keep. Qed.
#[local] Hint Resolve casRetry_keeps : keeps.

Lemma reset_refs_keeps p l : keeps (reset_refs ns check p l).
Proof. induction l as [|x l IH]; cbn [reset_refs]; keep. Qed.
#[local] Hint Resolve reset_refs_keeps : keeps.

Lemma resetTrust_keeps p : keeps (resetTrustRecords ns check p).
Proof. unfold resetTrustRecords, refs. keep. Qed.
#[local] Hint Resolve resetTrust_keeps : keeps.

Lemma trust_keeps p v : keeps (trust_ ns check deviceKey trustReset trustResetDone p v).
Proof. apply casRetry_keeps. unfold trustOnce. keep. Qed.
#[local] Hint Resolve trust_keeps : keeps.

Lemma chain_keeps n fetch o target cur passed : (forall e, keeps (fetch e)) -> keeps (chain_m cv n fetch o target cur passed).
Proof. intros Hf. revert cur passed. induction n as [|n IH]; intros cur passed; cbn [chain_m]; keep. Qed.
#[local] Hint Resolve chain_keeps : keeps.

Lemma fetch_keeps a device e : keeps (fetch_page ns check admission a device e).
Proof. unfold fetch_page. keep. Qed.
#[local] Hint Resolve fetch_keeps : keeps.

Lemma promoteOnce_keeps a t p v e i : keeps (promoteOnce cv ns check admission a t p v e i).
Proof. unfold promoteOnce, saved_value, verify_chain. keep. Qed.
#[local] Hint Resolve promoteOnce_keeps : keeps.

Lemma promote_keeps a t p v e i b : keeps (promote cv ns check admission a t p v e i b).
Proof. unfold promote. keep. Qed.
#[local] Hint Resolve promote_keeps : keeps.

Lemma adopt_keeps t b : keeps (adopt ns check t b).
Proof. apply casRetry_keeps. unfold adoptOnce. keep. Qed.
#[local] Hint Resolve adopt_keeps : keeps.

Lemma project_keeps n r b : keeps (project check n r b).
Proof. induction n as [|n IH]; cbn [project]; keep. Qed.
#[local] Hint Resolve project_keeps : keeps.

Lemma emit_keeps r b : keeps (emit ns check projectors r b).
Proof. unfold emit, emitControl. keep. Qed.
#[local] Hint Resolve emit_keeps : keeps.

Lemma source_keeps a m b : keeps (receive_source cv ns check admission deviceKey trustReset trustResetDone a m b).
Proof. unfold receive_source. keep. Qed.
#[local] Hint Resolve source_keeps : keeps.

Lemma claim_keeps a c : keeps (claim_obligation ns check a c).
Proof. unfold claim_obligation, refs, readMany. keep. Qed.
#[local] Hint Resolve claim_keeps : keeps.

Lemma decrypt_keeps a s session consumed m c source context : keeps (decrypt_copy ns core a s session consumed m c source context).
Proof. unfold decrypt_copy. keep. Qed.
#[local] Hint Resolve decrypt_keeps : keeps.

Lemma receive_new_keeps a d m c id :
  keeps (receive_new sha256 cv ns check admission core deviceKey trustReset trustResetDone a d m c id).
Proof. unfold receive_new. keep. Qed.
#[local] Hint Resolve receive_new_keeps : keeps.

Lemma receive_record_keeps a d :
  keeps (receive_record sha256 cv ns check admission core deviceKey trustReset trustResetDone a d).
Proof. unfold receive_record, stored_outcome. keep. Qed.
#[local] Hint Resolve receive_record_keeps : keeps.

Lemma receive_keeps a d :
  keeps (receive sha256 cv ns check admission core deviceKey trustReset trustResetDone projectors a d).
Proof. unfold receive. keep. Qed.
#[local] Hint Resolve receive_keeps : keeps.

Lemma outcome_keeps id : keeps (outcome_ ns id).
Proof. unfold outcome_. keep. Qed.
#[local] Hint Resolve outcome_keeps : keeps.

Lemma begin_keeps a id m w : keeps (begin_ ns check admission a id m w).
Proof. unfold begin_, abort_. keep. Qed.
#[local] Hint Resolve begin_keeps : keeps.

Lemma put_parts_keeps a m n l : keeps (put_parts ns check admission a m n l).
Proof. revert n. induction l as [|x l IH]; intros n; cbn [put_parts]; keep. Qed.
#[local] Hint Resolve put_parts_keeps : keeps.

Lemma wire_keeps id : keeps (wire_of ns id).
Proof. unfold wire_of. keep. Qed.
#[local] Hint Resolve wire_keeps : keeps.

Lemma settle_attempt_keeps a id m : keeps (settle_attempt ns check admission a id m).
Proof. unfold settle_attempt, abort_. keep. Qed.
#[local] Hint Resolve settle_attempt_keeps : keeps.

Lemma apply_result_keeps id m r : keeps (apply_result sha256 ns check id m r).
Proof. apply casRetry_keeps. keep. Qed.
#[local] Hint Resolve apply_result_keeps : keeps.

Lemma settled_keeps a id op r : keeps (settled sha256 ns check admission a id op r).
Proof. unfold settled. keep. Qed.
#[local] Hint Resolve settled_keeps : keeps.

Lemma retire_keeps id : keeps (retire_ sha256 ns check admission id).
Proof. unfold retire_. keep. Qed.
#[local] Hint Resolve retire_keeps : keeps.

Lemma resolve_outcome_keeps a id : keeps (resolve_outcome sha256 ns check admission projectors a id).
Proof. unfold resolve_outcome. keep. Qed.
#[local] Hint Resolve resolve_outcome_keeps : keeps.

Lemma resolve_keeps a id : keeps (resolve sha256 ns check admission projectors a id).
Proof. unfold resolve. keep. Qed.
#[local] Hint Resolve resolve_keeps : keeps.

Lemma resolve_all_keeps a ids : keeps (resolve_all sha256 ns check admission projectors a ids).
Proof. induction ids as [|id ids IH]; cbn [resolve_all]; keep. Qed.
#[local] Hint Resolve resolve_all_keeps : keeps.

Lemma committed_elsewhere_keeps qid d code : keeps (committed_elsewhere ns qid d code).
Proof.
  unfold committed_elsewhere. destruct (_ && _); [|keep]. apply keeps_try; [|intros r; keep]. apply keeps_lift. intros d'.
  eapply safe_weaken, read_safe.
Qed.
#[local] Hint Resolve committed_elsewhere_keeps : keeps.

Lemma drain_one_keeps a after i d :
  keeps (drain_one sha256 cv ns check admission core deviceKey trustReset trustResetDone projectors a after i d).
Proof. unfold drain_one. keep. Qed.
#[local] Hint Resolve drain_one_keeps : keeps.

Lemma drain_page_keeps a after i l :
  keeps (drain_page sha256 cv ns check admission core deviceKey trustReset trustResetDone projectors a after i l).
Proof. revert i. induction l as [|x l IH]; intros i; cbn [drain_page]; keep. Qed.
#[local] Hint Resolve drain_page_keeps : keeps.

Lemma drain_pages_keeps n a after :
  keeps (drain_pages sha256 cv ns check admission core deviceKey trustReset trustResetDone projectors n a after).
Proof. revert after. induction n as [|n IH]; intros after; cbn [drain_pages]; keep. Qed.
#[local] Hint Resolve drain_pages_keeps : keeps.

Lemma drain_keeps : keeps (drain sha256 cv ns check admission core deviceKey trustReset trustResetDone projectors).
Proof. unfold drain, refs. keep. Qed.

(** ** Received messages stay *)

(** The stored receipt of a delivery: the digest of its envelope, its archive. *)
Definition inbox_ref (id : string) : ref := ("inbox", id)%string.
Definition receipt_at (id digest : string) (b : json) (d : database) : Prop :=
  exists v, abs d !! inbox_ref id = Some v /\ parse (data v) = Some b /\ is_text (field "digest" b) digest = true.

(** In generation [g], the delivery is stored; a later generation has its own store. *)
Definition holds (g : Z) (id digest : string) (d : database) : Prop :=
  g <= generation (current d) /\ (generation (current d) = g -> exists b, receipt_at id digest b d).

Lemma receipt_evolves id digest b d d' : (forall r, evolves r (abs d !! r) (abs d' !! r)) ->
  receipt_at id digest b d -> receipt_at id digest b d'.
Proof.
  intros He (v & Hv & Hp & Hd). specialize (He (inbox_ref id)). rewrite Hv in He.
  destruct (abs d' !! inbox_ref id) as [w|] eqn:Ew; [|done]. destruct He as [<-|[_ Hl]]; [by exists v|].
  destruct (Hl b Hp) as (b' & Hp' & Heq). assert (b = b') as <- by exact Heq. by exists w.
Qed.

Lemma holds_stable g id digest : stable Inv Guar (holds g id digest).
Proof.
  intros d d' [Hle Hh] _ _ [_ [Hlt|(Heq & Hev & _)]]; split; try lia.
  intros Hg. destruct Hh as (b & Hb); [lia|]. exists b. by eapply receipt_evolves.
Qed.

Lemma commitReceive_holds s id p d : snap_ok s d ->
  safe Inv Guar (commitReceive sha256 ns s id p)
    (fun r d' => forall x, r = Ok x -> holds (generation (s_fence s)) id (hex_text (sha256 (d_envelope p))) d') d.
Proof.
  intros Hs. unfold commitReceive. destruct (Bool.eqb _ _); [|done]. destruct (_ && _); [|done]. destruct (_ && _ && _); [|done].
  apply safe_bind. eapply safe_mono; [|eapply (safe_frame ns _ (fun d' => snap_ok s d')); [apply snap_ok_stable|exact Hs|apply extended_safe]].
  intros [fresh|e] d1 [Hf Hs1]; [|done]. destruct (Hf fresh eq_refl) as [Hf1 Hg].
  apply safe_pure. destruct (require fresh _) as [old|] eqn:Eo; [|done]. apply require_ok in Eo. destruct (exists_ old) eqn:Ee.
  - apply safe_pure. destruct (json_ (data old)) as [b|] eqn:Eb; [|done]. destruct (is_text _ _) eqn:Ed; [|done].
    apply safe_bind. eapply safe_mono; [|apply commit_correct; [done|]; intros; by apply staged_nil].
    intros [[]|e] d' Hc; [|done]. intros x _. destruct (Hc eq_refl) as (d2 & [Hdec _] & Hcur & Hg2 & _ & Ha & Habs).
    split; [rewrite Hcur; lia|]. intros _. exists b, old. rewrite Habs.
    split_and!; [by eapply abs_present|by apply json_ok_|done].
  - apply safe_pure. destruct (compare s fresh) as [u|] eqn:Ecmp; [|done].
    apply safe_pure. destruct (trust s _) as [rev|]; [|done]. intros now.
    apply safe_pure. destruct (sessionValue _ _ _ _ _ _ _) as [value|] eqn:Ev; [|done].
    apply safe_pure. destruct (stage_account s p _) as [changes1|] eqn:Ea1; [|done].
    apply safe_pure. destruct (stage_consumed s p changes1) as [changes2|] eqn:Ea2; [|done].
    assert (Hst : forall d' c, rely Inv Guar d1 d' -> Inv d' -> generation (current d') = generation (s_fence fresh) ->
      agrees ns fresh d' -> staged ns d' c changes2 None).
    { intros d' c Hr [Hdec Hm] Hg' Ha.
      by eapply (receive_staged ns now d' c s fresh); [..|by eapply compared|exact Eo|exact Ee|exact Ev|exact Ea1|exact Ea2]. }
    apply safe_bind. eapply safe_mono;
      [|eapply (safe_frame ns _ (fun d' => rely Inv Guar d1 d')); [apply rely_stable|apply rtc_refl|apply commit_correct; [done|by eauto]]].
    intros [[]|e] d' [Hc _]; [|done]. intros x _. destruct (Hc eq_refl) as (d2 & HI2 & Hcur & Hg2 & _ & Ha & Habs).
    split; [rewrite Hcur; lia|]. intros _. destruct (receive_archived s p id value _ changes1 changes2 Ea1 Ea2) as [Hwf Hget].
    destruct changes2 as [|ch changes2]; [done|]. destruct Habs as (c0 & c & _ & _ & Habs).
    eexists. eexists. rewrite Habs. split_and!.
    + rewrite news_app.
      rewrite lookup_apply_recs; [|by rewrite news_keys|done]. rewrite get_news.
      match type of Hget with _ = Some ?x => assert (Hg' : OMap.get (inbox_ref id) (ch :: changes2) = Some x) by exact Hget end.
      rewrite Hg'. reflexivity.
    + cbn [data]. unfold bytes. apply parse_stringify.
    + apply bool_decide_eq_true. reflexivity.
Qed.

#[local] Abbreviation receive_new := (receive_new sha256 cv ns check admission core deviceKey trustReset trustResetDone).
#[local] Abbreviation receive_record := (receive_record sha256 cv ns check admission core deviceKey trustReset trustResetDone).
#[local] Abbreviation receive := (receive sha256 cv ns check admission core deviceKey trustReset trustResetDone projectors).

(** Stored in a generation not before [g]. *)
Definition durable (g : Z) (id digest : string) (d : database) : Prop := exists g', g <= g' /\ holds g' id digest d.

Lemma durable_stable g id digest : stable Inv Guar (durable g id digest).
Proof. intros d d' (g' & Hg & Hh) HI HI' HG. exists g'. split; [done|]. by eapply holds_stable. Qed.

Lemma receive_new_spec g a x m c id : spec (not_before g) (receive_new a x m c id) (fun _ => durable g id (envelope_digest sha256 c)).
Proof.
  unfold RatchetConsumer.receive_new. apply spec_seq; [apply not_before_stable|keep|]. intros st.
  destruct (target_current _ _ _ _ _); [|apply spec_fail]. apply spec_seq; [apply not_before_stable|keep|]. intros [t source]. cbv zeta.
  apply spec_read; [apply not_before_stable|]. intros s0 d0 _ _. eapply spec_weaken; [intros d []; eassumption|].
  apply spec_seq; [apply not_before_stable|keep|]. intros consumed. apply spec_read; [apply not_before_stable|].
  intros s d1 Hlow (_ & _ & _ & Hf & _). assert (Hg : g <= generation (s_fence s)) by (by rewrite Hf).
  eapply spec_weaken; [intros d (_ & Hs & _); exact Hs|]. pose proof (snap_ok_stable ns s) as Hst.
  do 3 (apply spec_seq; [done|keep|]; intros ?). apply spec_seq; [done|keep|]. intros [body raw].
  apply spec_seq; [done|keep|]. intros ms. eapply spec_then.
  { apply spec_lift. intros d Hs. by apply commitReceive_holds. }
  intros archive. eapply (spec_weaken ns _ (durable g id (envelope_digest sha256 c))); [by exists (generation (s_fence s))|].
  do 2 (apply spec_seq; [apply durable_stable|keep|]; intros ?). by apply spec_ret.
Qed.

(** The receipt a snapshot holds, when it was current. *)
Lemma read_receipt s d1 id : read_at ns s [("inbox", id)%string] d1 -> rec_of ("inbox", id)%string s = rec_in ns d1 (inbox_ref id).
Proof. intros Hat. apply (read_rec ns s _ d1 (inbox_ref id) Hat). by left. Qed.

Lemma rec_in_present d r : decodable ns d -> exists_ (rec_in ns d r) = true -> abs d !! r = Some (rec_in ns d r).
Proof. intros _. unfold rec_in. by destruct (abs d !! r). Qed.

Lemma stored_outcome_spec P c v (Q : json -> database -> Prop) :
  (forall b record d, P d -> parse (data v) = Some b -> is_text (field "digest" b) (envelope_digest sha256 c) = true ->
     json_ (bytes_of_json (field "archive" b)) = Ok record -> Q record d) ->
  spec P (stored_outcome sha256 c v) Q.
Proof.
  intros HQ. apply spec_pure. intros b Hb%json_ok_. destruct (is_text _ _) eqn:Ed; [|apply spec_fail].
  intros k d HP r k' [= E <-]. by eapply HQ.
Qed.

Lemma receive_record_spec g a x : spec (not_before g) (receive_record a x)
  (fun _ => durable g (str_of (field "id" x)) (envelope_digest sha256 (default JNull (field "copy" x)))).
Proof.
  unfold RatchetConsumer.receive_record. destruct (delivery_ok x); [|apply spec_fail]. cbv zeta. set (id := str_of (field "id" x)).
  set (c := default JNull (field "copy" x)). destruct (own_copy _ _ _ _); [|apply spec_fail]. destruct (checkEnvelope _ _); [|apply spec_fail].
  apply spec_read; [apply not_before_stable|]. intros s d1 Hlow Hat. rewrite (read_receipt s d1 id Hat). destruct Hat as ([Hdec _] & _).
  destruct (exists_ _) eqn:Ee.
  - eapply spec_then; [|intros r; apply spec_ret; intros d Hd; exact Hd]. apply stored_outcome_spec. intros b record d (_ & _ & Hr) Hb Hd _.
    eapply stable_rely; [apply durable_stable|exact Hr|]. exists (generation (current d1)). split; [exact Hlow|]. split; [done|].
    intros _. exists b, (rec_in ns d1 (inbox_ref id)). split_and!; [by apply rec_in_present|done|done].
  - eapply spec_weaken; [intros d []; eassumption|]. eapply spec_then; [apply receive_new_spec|]. intros r. by apply spec_ret.
Qed.
Lemma net_hushed {A} n (p : prog A) : hushed (net check n p).
Proof. induction n as [|n IH]; cbn [net]; unfold check_; hush. Qed.
#[local] Hint Resolve net_hushed : hushed.
#[local] Hint Extern 0 (is_ack _ = false) => reflexivity : hushed.
Lemma call_hushed r : is_ack r = false -> hushed (call_ check admission r).
Proof. intros Hr. unfold call_. apply hushed_bind; [by apply hushed_ask|intro; hush]. Qed.
(** What [#handoff] asks of the server. *)
Definition sent_as (a : authority) (r : json) : json := spread (JObj [("account_epoch", JNum (au_epoch a))]%string) r.
Lemma handoff_hushed a r : is_ack (sent_as a r) = false -> hushed (handoff ns check admission a r).
Proof. intros Hr. unfold handoff. do 2 (apply hushed_bind; [hush|]; intro). by apply call_hushed. Qed.
#[local] Hint Resolve handoff_hushed : hushed.
Lemma refs_hushed n kind after acc : hushed (refs_from ns check n kind after acc).
Proof. revert after acc. induction n as [|n IH]; intros after acc; cbn [refs_from]; unfold check_; hush. Qed.
#[local] Hint Resolve refs_hushed : hushed.
Lemma read_chunks_hushed l acc : hushed (read_chunks ns check l acc).
Proof. revert acc. induction l as [|x l IH]; intros acc; cbn [read_chunks]; unfold check_; hush. Qed.
#[local] Hint Resolve read_chunks_hushed : hushed.
Lemma casRetry_hushed {A} (m : M A) : hushed m -> hushed (casRetry check m).
Proof. intros Hm. unfold casRetry. induction LOCAL_RETRY as [|n IH]; cbn [cas_retry]; unfold check_; hush. Qed.
Lemma reset_refs_hushed p l : hushed (reset_refs ns check p l).
Proof. induction l as [|x l IH]; cbn [reset_refs]; unfold check_; hush. Qed.
#[local] Hint Resolve reset_refs_hushed : hushed.
Lemma trust_hushed p v : hushed (trust_ ns check deviceKey trustReset trustResetDone p v).
Proof. apply casRetry_hushed. unfold trustOnce, resetTrustRecords, refs, check_. hush. Qed.
#[local] Hint Resolve trust_hushed : hushed.
Lemma chain_hushed n a device o target cur passed : hushed (chain_m cv n (fetch_page ns check admission a device) o target cur passed).
Proof. revert cur passed. induction n as [|n IH]; intros cur passed; cbn [chain_m]; unfold fetch_page, check_; hush. Qed.
#[local] Hint Resolve chain_hushed : hushed.
Lemma promote_hushed a t p v e i b : hushed (promote cv ns check admission a t p v e i b).
Proof.
  unfold promote. destruct (t_pin t); [|hush]. destruct (pin_is _ _ _); [hush|]. destruct (_ <? _); [unfold clock; hush|].
  destruct (_ =? _); [hush|]. apply casRetry_hushed. unfold promoteOnce, saved_value, verify_chain, now, clock, check_. hush.
Qed.
#[local] Hint Resolve promote_hushed : hushed.
Lemma adopt_hushed t b : hushed (adopt ns check t b).
Proof. apply casRetry_hushed. unfold adoptOnce, check_. hush. Qed.
#[local] Hint Resolve adopt_hushed : hushed.
Lemma source_hushed a m b : hushed (receive_source cv ns check admission deviceKey trustReset trustResetDone a m b).
Proof. unfold receive_source. hush. Qed.
#[local] Hint Resolve source_hushed : hushed.
Lemma claim_hushed a c : hushed (claim_obligation ns check a c).
Proof. unfold claim_obligation, refs, readMany. hush. Qed.
#[local] Hint Resolve claim_hushed : hushed.
Lemma decrypt_hushed a s session consumed m c source context : hushed (decrypt_copy ns core a s session consumed m c source context).
Proof. unfold decrypt_copy. hush. Qed.
#[local] Hint Resolve decrypt_hushed : hushed.
Lemma receive_record_hushed a x : hushed (receive_record a x).
Proof. unfold RatchetConsumer.receive_record, stored_outcome, RatchetConsumer.receive_new, clock, check_. hush. Qed.

(** The events of one record: only a first receipt dispatches a control. *)
Definition events_of (record : json) (isNew : bool) (e : event) : Prop :=
  e = Projected record isNew \/ isNew = true /\ exists b, e = Dispatched (control_out record b).

(** Handing a record on: its events are added, nothing is acknowledged. *)
Definition spoke (record : json) (isNew : bool) (c c' : consumer) : Prop :=
  (exists evs, emitted c' = emitted c ++ evs /\ Forall (events_of record isNew) evs) /\ acks c' = acks c.

Lemma spoke_hushed record isNew c c1 c2 : same_voice c c1 -> spoke record isNew c1 c2 -> spoke record isNew c c2.
Proof. intros [He Ha] [(evs & Hx & Hevs) Hs]. split; [exists evs; by rewrite Hx, He|congruence]. Qed.
Lemma hushed_spoke record isNew c c1 : same_voice c c1 -> spoke record isNew c c1.
Proof. intros [He Ha]. split; [exists []; by rewrite app_nil_r|done]. Qed.
Lemma spoke_event record isNew c c1 c2 e : events_of record isNew e -> emitted c1 = emitted c ++ [e] -> acks c1 = acks c ->
  spoke record isNew c1 c2 -> spoke record isNew c c2.
Proof.
  intros He H1 Ha [(evs & Hx & Hevs) Hs]. split; [|congruence]. exists (e :: evs). rewrite Hx, H1, <- app_assoc. by split; [|constructor].
Qed.

Lemma project_events n record isNew c : only (fun _ _ => True) (project check n record isNew c) (fun x => spoke record isNew c x.2).
Proof.
  revert c. induction n as [|n IH]; intros c; cbn [project]; [by apply hushed_spoke|].
  assert (Hone : forall c1 c2, same_voice (c <| emitted := emitted c ++ [Projected record isNew] |>) c1 -> spoke record isNew c1 c2 -> spoke record isNew c c2).
  { intros c1 c2 Hv Hs. eapply spoke_event; [by left| | |eapply spoke_hushed; [exact Hv|exact Hs]]; done. }
  unfold mbind_ at 1, mtry at 1. cbn. eapply only_bind; [apply (hushed_lift check)|]. intros [[[]|e] c'] Hc; cbn [fst snd] in *.
  - eapply only_mono; [|apply IH]. intros x Hs. by eapply Hone.
  - eapply Hone; [exact Hc|]. by apply hushed_spoke.
Qed.

Lemma emit_events record isNew c : only (fun _ _ => True) (emit ns check projectors record isNew c) (fun x => spoke record isNew c x.2).
Proof.
  eapply only_bind; [apply (hushed_lift check)|]. intros [[[]|e] c'] Hc; cbn [fst snd] in *; [|by apply hushed_spoke].
  destruct (is_text _ _); [|eapply only_mono; [|apply project_events]; intros x Hs; by eapply spoke_hushed].
  unfold emitControl. destruct (negb isNew || _ || _ || _) eqn:E; [by apply hushed_spoke|].
  destruct (field "body" record) as [b|]; [|by apply hushed_spoke]. destruct (is_object (Some b)); [|by apply hushed_spoke].
  eapply spoke_hushed; [exact Hc|]. set (e := Dispatched (control_out record b)).
  apply (spoke_event record isNew c' (c' <| emitted := emitted c' ++ [e] |>) _ e); [|done..|by apply hushed_spoke].
  right. split; [by destruct isNew|by exists b].
Qed.

(** The acknowledgement of a delivery. *)
Definition ack_of (x : json) : json := obj [("action", Some (JStr "receive_ack")); ("delivery_id", field "id" x); ("digest", field "digest" x)]%string.

Lemma ack_of_is_ack a x : is_ack (sent_as a (ack_of x)) = true.
Proof. unfold ack_of, sent_as. by destruct (field "id" x), (field "digest" x). Qed.

Lemma hushed_then {A B} (m : M A) (k : A -> M B) c (P : result string B * consumer -> Prop) : hushed m ->
  (forall e c', same_voice c c' -> P (Err e, c')) -> (forall a c', same_voice c c' -> only (fun _ _ => True) (k a c') P) ->
  only (fun _ _ => True) (mbind_ m k c) P.
Proof. intros Hm Herr Hk. eapply only_bind; [apply Hm|]. intros [[a|e] c'] Hc; [by apply Hk|by apply Herr]. Qed.

Definition may_ask (request : json) (c c' : consumer) : Prop :=
  emitted c' = emitted c /\ (acks c' = acks c \/ acks c' = acks c ++ [request]).
Lemma hushed_may_ask r c c' : same_voice c c' -> may_ask r c c'.
Proof. intros [? ?]. split; auto. Qed.

Lemma handoff_asks a r c : is_ack (sent_as a r) = true ->
  only (fun _ _ => True) (handoff ns check admission a r c) (fun x => may_ask (sent_as a r) c x.2).
Proof.
  intros Hack. unfold handoff. apply hushed_then; [hush|intros; by apply hushed_may_ask|]. intros s c1 H1.
  apply hushed_then; [hush|intros e c2 H2; eapply hushed_may_ask, same_voice_trans; eassumption|]. intros [] c2 H2.
  pose proof (same_voice_trans _ _ _ H1 H2) as [He Ha]. eapply only_mono; [|apply (net_hushed 7 (admission (sent_as a r)))].
  intros x [He' Ha']. split; [rewrite He'; exact He|right]. rewrite Ha'. cbn [snd]. rewrite acks_ask. unfold sent_as in *. by rewrite Hack, Ha.
Qed.

(** *** The theorems *)

(** What follows the receipt: handing on, and the acknowledgement. *)
Lemma hand_on_keeps a x record isNew : keeps (m! _ := emit ns check projectors record isNew in
  mtry (handoff ns check admission a (obj [("action", Some (JStr "receive_ack")); ("delivery_id", field "id" x); ("digest", field "digest" x)]%string))
    (fun r => mret match r with Ok _ => None | Err e => Some e end)).
Proof. keep. Qed.

Lemma hand_on_says a x record isNew c : only (fun _ _ => True)
  ((m! _ := emit ns check projectors record isNew in
    mtry (handoff ns check admission a (obj [("action", Some (JStr "receive_ack")); ("delivery_id", field "id" x); ("digest", field "digest" x)]%string))
      (fun r => mret match r with Ok _ => None | Err e => Some e end)) c)
  (fun r => (exists evs, emitted r.2 = emitted c ++ evs /\ Forall (events_of record isNew) evs) /\
            (acks r.2 = acks c \/ acks r.2 = acks c ++ [sent_as a (ack_of x)])).
Proof.
  eapply only_bind; [apply emit_events|]. intros [[[]|e] c2] [(evs & He & Hevs) Ha]; cbn [fst snd] in *; [|split; [by exists evs|by left]].
  eapply only_bind; [apply handoff_asks, ack_of_is_ack|]. intros [y c3] [He3 Ha3]. cbn [fst snd] in *. cbn. rewrite He3, He.
  split; [by exists evs|]. by rewrite Ha in Ha3.
Qed.

Lemma receive_split a x c d l r d' : Inv d -> exec (rely Inv Guar) (receive a x c) d l (Ok r) d' ->
  exists l1 l2 dm out c1, l = l1 ++ l2 /\ exec (rely Inv Guar) (receive_record a x c) d l1 (Ok (out, c1)) dm /\
    same_voice c c1 /\ Inv dm /\ rely Inv Guar d dm /\ rely Inv Guar dm d' /\
    match out with
    | Ok (record, isNew) =>
      (exists evs, emitted r.2 = emitted c ++ evs /\ Forall (events_of record isNew) evs) /\
      (acks r.2 = acks c \/ acks r.2 = acks c ++ [sent_as a (ack_of x)])
    | Err e => r = (Err e, c1)
    end.
Proof.
  intros HI (out & c1 & l1 & dm & l2 & H1 & H2 & ->)%exec_mtry.
  destruct (safe_exec _ _ _ _ _ _ _ _ HI (receive_record_keeps a x c d) H1) as (HIm & Hr1 & _).
  pose proof (only_exec_result _ _ _ _ _ _ _ (receive_record_hushed a x c) H1) as Hh. cbn [fst snd] in *.
  exists l1, l2, dm, out, c1. split_and!; [done|done|done|done|done|..].
  - destruct out as [[record isNew]|e].
    + by destruct (safe_exec _ _ _ _ _ _ _ _ HIm (hand_on_keeps a x record isNew c1 dm) H2) as (_ & ? & _).
    + destruct H2 as (_ & _ & ->). apply rtc_refl.
  - destruct out as [[record isNew]|e]; [|by destruct H2 as (_ & [= ->] & _)]. destruct Hh as [<- <-].
    exact (only_exec_result (rely Inv Guar) _ _ dm l2 r d' (hand_on_says a x record isNew c1) H2).
Qed.

(** C25: what is handed on and acknowledged is durable.  A call that receives a
    delivery without an error has a moment up to which it handed nothing on and
    asked the server for no acknowledgement ([acks]), and at which, if the
    identity has not changed since the call began, the store holds the delivery
    with the digest of its envelope.  After that moment it asks for at most one
    acknowledgement, the one of this delivery with its digest. *)
Theorem receive_durable a x c d l out c' d' : Inv d -> exec (rely Inv Guar) (receive a x c) d l (Ok (Ok out, c')) d' ->
  exists l1 l2 dm record isNew c1, l = l1 ++ l2 /\
    exec (rely Inv Guar) (receive_record a x c) d l1 (Ok (Ok (record, isNew), c1)) dm /\
    emitted c1 = emitted c /\ acks c1 = acks c /\
    (generation (current dm) = generation (current d) ->
     exists b, receipt_at (str_of (field "id" x)) (envelope_digest sha256 (default JNull (field "copy" x))) b dm) /\
    (acks c' = acks c \/ acks c' = acks c ++ [sent_as a (ack_of x)]).
Proof.
  intros HI He. destruct (receive_split a x c d l _ d' HI He) as (l1 & l2 & dm & o & c1 & -> & H1 & [Hh Ha] & HIm & _ & _ & Ho).
  destruct o as [[record isNew]|e]; [|done]. exists l1, l2, dm, record, isNew, c1. split_and!; [done|done|done|done|..|apply Ho].
  intros Hg. destruct (exec_spec ns _ _ _ c d l1 (record, isNew) c1 dm HI (Z.le_refl _) (receive_record_spec (generation (current d)) a x) H1)
    as (g & Hle & Hmax & Hh'). apply Hh'. lia.
Qed.

(** The receipt [b] is stored in generation [g]. *)
Definition stored_in (g : Z) (id digest : string) (b : json) (d : database) : Prop :=
  g <= generation (current d) /\ (generation (current d) = g -> receipt_at id digest b d).

Lemma stored_in_stable g id digest b : stable Inv Guar (stored_in g id digest b).
Proof.
  intros d d' [Hle Hh] _ _ [_ [Hlt|(Heq & Hev & _)]]; split; try lia. intros Hg. eapply receipt_evolves; [done|]. apply Hh. lia.
Qed.

Lemma receive_record_replays g a x digest b : spec (stored_in g (str_of (field "id" x)) digest b) (receive_record a x)
  (fun out d => generation (current d) = g -> out.2 = false /\ json_ (bytes_of_json (field "archive" b)) = Ok out.1).
Proof.
  unfold RatchetConsumer.receive_record. destruct (delivery_ok x); [|apply spec_fail]. cbv zeta. set (id := str_of (field "id" x)).
  destruct (own_copy _ _ _ _); [|apply spec_fail]. destruct (checkEnvelope _ _); [|apply spec_fail].
  apply spec_read; [apply stored_in_stable|]. intros s d1 [Hle Hst] Hat. rewrite (read_receipt s d1 id Hat).
  destruct (Z.eq_dec (generation (current d1)) g) as [Hg|Hne].
  - destruct (Hst Hg) as (v & Hv & Hp & _).
    assert (Hrec : rec_in ns d1 (inbox_ref id) = v) by (unfold rec_in; by rewrite Hv). rewrite Hrec.
    assert (Hex : exists_ v = true).
    { destruct Hat as ([Hdec _] & _). rewrite lookup_abs in Hv. destruct (records_of ns d1 !! inbox_ref id) as [raw|] eqn:Er; [|done].
      injection Hv as <-. destruct (Hdec _ _ Er) as [H1 _]. unfold exists_. cbn [rec_of_raw revision].
      destruct (Z.eqb_spec (raw_revision raw) 0); [lia|done]. }
    rewrite Hex. eapply spec_then; [|intros r; apply spec_ret; intros d Hd; exact Hd].
    apply stored_outcome_spec. intros b' record d _ Hb _ Hr _. cbn [fst snd]. split; [done|]. rewrite Hp in Hb. by injection Hb as <-.
  - eapply (spec_weaken ns _ (not_before (g + 1))).
    { intros d (_ & _ & Hr). eapply stable_rely; [apply not_before_stable|exact Hr|]. unfold not_before. lia. }
    apply spec_expired. unfold stored_outcome. keep.
Qed.

(** C26: a delivery that the store already holds is replayed, never received
    again: whatever the call's outcome, if the identity has not changed since,
    everything it hands on is the stored record, marked as not new, and no
    control is dispatched to its handlers again. *)
Theorem receive_replays a x c d l r d' digest b : Inv d -> receipt_at (str_of (field "id" x)) digest b d ->
  exec (rely Inv Guar) (receive a x c) d l (Ok r) d' -> generation (current d') = generation (current d) ->
  exists evs, emitted r.2 = emitted c ++ evs /\
    Forall (fun e => exists record, e = Projected record false /\ json_ (bytes_of_json (field "archive" b)) = Ok record) evs.
Proof.
  intros HI Hb He Hg. destruct (receive_split a x c d l r d' HI He) as (l1 & l2 & dm & o & c1 & -> & H1 & Hh & HIm & Hr1 & Hr2 & Ho).
  destruct o as [[record isNew]|e]; [|exists []; subst r; cbn; rewrite app_nil_r; by split; [apply Hh|]].
  destruct Ho as [(evs & Hev & Hall) _]. exists evs. split; [done|].
  assert (Hgm : generation (current dm) = generation (current d)).
  { apply Guar_rely in Hr1 as [_ ?]. apply Guar_rely in Hr2 as [_ ?]. lia. }
  destruct (exec_spec ns _ _ _ c d l1 (record, isNew) c1 dm HI (conj (Z.le_refl _) (fun _ => Hb))
    (receive_record_replays (generation (current d)) a x digest b) H1 Hgm) as [Hf Har]. cbn [fst snd] in *. subst isNew.
  eapply Forall_impl; [exact Hall|]. intros e [->|[? _]]; [by exists record|done].
Qed.

End receive.

#[export] Hint Resolve check_keeps clock_keeps now_keeps call_keeps authority_keeps handoff_keeps refs_keeps read_chunks_keeps
  resetTrust_keeps trust_keeps promote_keeps adopt_keeps emit_keeps receive_keeps outcome_keeps settled_keeps retire_keeps resolve_outcome_keeps drain_keeps : keeps.
