(* ===== verification/RatchetOperations.v ===== *)
(** * Every operation of the consumer on the shared store

    The operations a page calls ([operation], run by [perform]): readiness,
    sending, draining, the history, recovery and the reset of trust.  Each is
    composed of the store's operations on its own snapshots, so whatever the
    server, the core and the signatures answer and the other tabs do, the store
    keeps its invariant ([consumers_keep_store]). *)

From stdpp Require Import base gmap list strings.
From Stdlib Require Import ZArith Lia.
From S2P Require Import Prelude Json Text OlmAdmission OlmControl Db DbAtomic OlmReset RatchetStore RatchetCommit RatchetSafety RatchetConsumer RatchetAccount RatchetSend ConsumerLogic RatchetReceive.

Inductive operation :=
| Ready
| Send (i : intent)
| SendControl (logical principal device : string) (body : json)
| Drain
| History
| Recover (reason : string)
| CancelRecovery
| ResetTrust (principal : string).

Section operations.
Context `{Cipher}.
Variable sha256 : list Z -> list Z.
Variable cv : curves.
Variable ns : names.
Variable check : prog unit.
Variable admission core : json -> prog json.
Variable deviceKey : string -> string -> prog (list Z).
Variable trustReset : string -> prog string.
Variable trustResetDone : string -> string -> prog unit.
Variable projectors : nat.
Variable directory_request signBundle : json -> prog json.
Variable signReset : option (json -> prog json).
Variable ownKey : option (list Z).
Variable refreshMS attemptTTL : Z.

#[local] Abbreviation Inv := (Inv ns).
#[local] Abbreviation Guar := (Guar ns).
#[local] Notation Safe p d := (safe Inv Guar p (fun _ _ => True) d) (only parsing).
#[local] Abbreviation keeps := (keeps ns).
#[local] Abbreviation uses := (uses ns).
#[local] Abbreviation serial := (serial check).
#[local] Abbreviation ready := (ready sha256 ns check admission core directory_request signBundle refreshMS).

(** [m.then(() => undefined)] *)
Definition ignore {A} (m : M A) : M unit := m! _ := m in mret tt.

(** One call of the instance, as the page makes it. *)
Definition perform (o : operation) : M unit :=
  match o with
  | Ready => ignore ready
  | Send i => ignore (send sha256 cv ns check admission core deviceKey trustReset trustResetDone projectors directory_request signBundle
                        refreshMS attemptTTL i)
  | SendControl logical principal device body =>
    ignore (sendControl sha256 cv ns check admission core deviceKey trustReset trustResetDone projectors directory_request signBundle
              refreshMS attemptTTL logical principal device body)
  | Drain => m! _ := ready in ignore (serial (drain sha256 cv ns check admission core deviceKey trustReset trustResetDone projectors))
  | History => m! _ := ready in ignore (serial (history ns check))
  | Recover reason => serial (recover sha256 cv ns check admission core directory_request signBundle signReset ownKey reason)
  | CancelRecovery => ignore (serial (cancelRecovery sha256 cv ns check directory_request ownKey))
  | ResetTrust principal => serial (resetTrustRecords ns check principal)
  end.

(** The directory and the signatures keep to the store's rules too. *)
Class Signatures : Prop := {
  directory_safe r d : Safe (directory_request r) d;
  signBundle_safe b d : Safe (signBundle b) d;
  signReset_safe f r d : signReset = Some f -> Safe (f r) d
}.
Context `{HS : !Surroundings ns check admission core deviceKey trustReset trustResetDone} `{!Signatures}.

#[local] Hint Resolve HS : keeps.
#[local] Hint Resolve directory_safe signBundle_safe signReset_safe check_safe admission_safe core_safe : keeps.
#[local] Hint Resolve setTrust_safe pendingRefs_safe accountAuthority_safe checkAccountAuthority_safe commitPublication_safe reserveClaim_safe
  commitAttempt_safe retireUnsubmittedKeys_safe promoteAccount_safe abandon_safe accountTransitionRequest_safe prepareRecovery_safe : keeps.

Lemma directory_keeps r : keeps (directory check directory_request r).
Proof. apply (net_keeps ns check admission core deviceKey trustReset trustResetDone). eauto with keeps. Qed.
#[local] Hint Resolve directory_keeps : keeps.

Lemma serial_keeps {A} (m : M A) : keeps m -> keeps (serial m).
Proof. intros Hm. unfold RatchetAccount.serial. keep. Qed.
#[local] Hint Resolve serial_keeps : keeps.

Lemma uuid_keeps : keeps randomUUID.
Proof. apply keeps_lift. intros d b _. exact I. Qed.
#[local] Hint Resolve uuid_keeps : keeps.

Lemma casRetry_keeps' {A} (m : M A) : keeps m -> keeps (casRetry check m).
Proof. apply (casRetry_keeps ns check admission core deviceKey trustReset trustResetDone). Qed.
#[local] Hint Resolve casRetry_keeps' : keeps.

(** ** The account *)

Lemma commitBundle_uses s a created g p : uses s (commitBundle ns check signBundle s a created g p).
Proof. unfold commitBundle. keep. Qed.
#[local] Hint Resolve commitBundle_uses : keeps.

Lemma latestPublication_keeps a : keeps (latestPublication ns check a).
Proof. unfold latestPublication. keep. Qed.
#[local] Hint Resolve latestPublication_keeps : keeps.

Lemma due_keys_keeps a l acc : keeps (due_keys a l acc).
Proof. revert acc. induction l as [|[r v] l IH]; intros acc; cbn [due_keys]; keep. Qed.
#[local] Hint Resolve due_keys_keeps : keeps.

Lemma retire_keys_keeps s closed l account proofs : keeps (retire_keys ns check core s closed l account proofs).
Proof. revert account proofs. induction l as [|[id o] l IH]; intros account proofs; cbn [retire_keys]; keep. Qed.
#[local] Hint Resolve retire_keys_keeps : keeps.

Lemma close_batch_keeps a b : keeps (close_batch sha256 ns check admission core a b).
Proof. unfold close_batch. keep; apply casRetry_keeps'; keep. Qed.
#[local] Hint Resolve close_batch_keeps : keeps.

Lemma close_batches_keeps a l : keeps (close_batches sha256 ns check admission core a l).
Proof. induction l as [|b l IH]; cbn [close_batches]; keep. Qed.
#[local] Hint Resolve close_batches_keeps : keeps.

Lemma closeKeys_keeps a : keeps (closeKeys sha256 ns check admission core a).
Proof. unfold closeKeys, readMany. keep. Qed.
#[local] Hint Resolve closeKeys_keeps : keeps.

Lemma new_keys_keeps op n rest s : keeps (new_keys ns core op n rest s).
Proof. unfold new_keys. keep. Qed.
#[local] Hint Resolve new_keys_keeps : keeps.

Lemma first_publication_keeps a : keeps (first_publication ns check core signBundle a).
Proof. unfold first_publication. keep. Qed.
#[local] Hint Resolve first_publication_keeps : keeps.

Lemma refreshed_keeps a b : keeps (refreshed ns check core signBundle a b).
Proof. unfold refreshed. keep. Qed.
#[local] Hint Resolve refreshed_keeps : keeps.

Lemma publish_keeps a b : keeps (publish ns check directory_request a b).
Proof. unfold publish. keep. Qed.
#[local] Hint Resolve publish_keeps : keeps.

Lemma prepare_keeps : keeps (prepare sha256 ns check admission core directory_request signBundle).
Proof. unfold prepare. keep. Qed.
#[local] Hint Resolve prepare_keeps : keeps.

Lemma ready_keeps : keeps ready.
Proof. unfold RatchetAccount.ready. keep. Qed.
#[local] Hint Resolve ready_keeps : keeps.

(** ** Recovery and the archives *)

Lemma promoteRecovery_keeps id r : keeps (promoteRecovery sha256 ns check id r).
Proof. unfold promoteRecovery. keep. Qed.
#[local] Hint Resolve promoteRecovery_keeps : keeps.

Lemma own_state_keeps : keeps (own_state check directory_request).
Proof. unfold own_state. keep. Qed.
#[local] Hint Resolve own_state_keeps : keeps.

Lemma recoveryEvidence_keeps own r : keeps (recoveryEvidence sha256 cv ns check directory_request own r).
Proof. unfold recoveryEvidence. keep. Qed.
#[local] Hint Resolve recoveryEvidence_keeps : keeps.

Lemma abandon_keeps id : keeps (abandon ns id).
Proof. unfold abandon. keep. Qed.
#[local] Hint Resolve abandon_keeps : keeps.

Lemma finishRecovery_keeps own t id : keeps (finishRecovery sha256 cv ns check admission directory_request own t id).
Proof. unfold finishRecovery. keep. Qed.
#[local] Hint Resolve finishRecovery_keeps : keeps.

Lemma pending_recovery_keeps l : keeps (pending_recovery ns l).
Proof. induction l as [|r l IH]; cbn [pending_recovery]; keep. Qed.
#[local] Hint Resolve pending_recovery_keeps : keeps.

Lemma recoverable_keeps own a : keeps (recoverable cv ns check directory_request own a).
Proof. unfold recoverable. keep. Qed.
#[local] Hint Resolve recoverable_keeps : keeps.

Lemma recover_keeps reason : keeps (recover sha256 cv ns check admission core directory_request signBundle signReset ownKey reason).
Proof. unfold recover, start_recovery. destruct signReset eqn:E; keep. Qed.
#[local] Hint Resolve recover_keeps : keeps.

Lemma cancelRecovery_keeps : keeps (cancelRecovery sha256 cv ns check directory_request ownKey).
Proof. unfold cancelRecovery. keep. Qed.
#[local] Hint Resolve cancelRecovery_keeps : keeps.

Lemma history_keeps : keeps (history ns check).
Proof. unfold history, readMany. keep. Qed.
#[local] Hint Resolve history_keeps : keeps.

(** ** Sending *)

Lemma deadline_keeps i : keeps (deadline_of ns attemptTTL i).
Proof. unfold deadline_of. keep. Qed.
#[local] Hint Resolve deadline_keeps : keeps.

Lemma roster_keeps a i : keeps (roster_of ns check admission a i).
Proof. unfold roster_of. keep. Qed.
#[local] Hint Resolve roster_keeps : keeps.

Lemma sessionIndex_keeps : keeps (sessionIndex ns check).
Proof. unfold sessionIndex, readMany. keep. Qed.
#[local] Hint Resolve sessionIndex_keeps : keeps.

Lemma pending_session_keeps s : keeps (pending_session ns attemptTTL s).
Proof. unfold pending_session. keep. Qed.
#[local] Hint Resolve pending_session_keeps : keeps.

Lemma reserve_keeps a m t t0 key : keeps (reserve cv ns check directory_request a m t t0 key).
Proof. unfold reserve. keep. Qed.
#[local] Hint Resolve reserve_keeps : keeps.

Lemma claim_for_keeps a m t t0 : keeps (claim_for cv ns check directory_request attemptTTL a m t t0).
Proof. unfold claim_for. keep. Qed.
#[local] Hint Resolve claim_for_keeps : keeps.

#[local] Abbreviation plan_target := (plan_target cv ns check admission deviceKey trustReset trustResetDone directory_request attemptTTL).
#[local] Abbreviation plan_targets := (plan_targets cv ns check admission deviceKey trustReset trustResetDone directory_request attemptTTL).

Lemma plan_target_keeps a m sessions t : keeps (plan_target a m sessions t).
Proof. unfold RatchetSend.plan_target. keep. Qed.
#[local] Hint Resolve plan_target_keeps : keeps.

Lemma plan_targets_keeps a m sessions l : keeps (plan_targets a m sessions l).
Proof. induction l as [|t l IH]; cbn [RatchetSend.plan_targets]; keep. Qed.
#[local] Hint Resolve plan_targets_keeps : keeps.

Lemma seal_copy_keeps m b s k ac p : keeps (seal_copy check core attemptTTL m b s k ac p).
Proof. unfold seal_copy. keep. Qed.
#[local] Hint Resolve seal_copy_keeps : keeps.

Lemma seal_copies_keeps m b s k ac l : keeps (seal_copies check core attemptTTL m b s k ac l).
Proof. induction l as [|p l IH]; cbn [seal_copies]; keep. Qed.
#[local] Hint Resolve seal_copies_keeps : keeps.

Lemma commit_sealed_uses s m ps cs r : uses s (commit_sealed sha256 ns s m ps cs r).
Proof. unfold commit_sealed. keep. Qed.
#[local] Hint Resolve commit_sealed_uses : keeps.

#[local] Abbreviation sealed := (sealed cv ns check admission core deviceKey trustReset trustResetDone directory_request attemptTTL).
#[local] Abbreviation seal := (seal sha256 cv ns check admission core deviceKey trustReset trustResetDone directory_request attemptTTL).
#[local] Abbreviation attempt_for := (attempt_for sha256 cv ns check admission core deviceKey trustReset trustResetDone directory_request attemptTTL).
#[local] Abbreviation send_once := (send_once sha256 cv ns check admission core deviceKey trustReset trustResetDone projectors directory_request attemptTTL).

(** The records a message was sealed with are a snapshot of one instant. *)
Lemma sealed_spec a i : spec ns (fun _ => True) (sealed a i) (fun s d => snap_ok ns (s_before s) d).
Proof.
  unfold RatchetSend.sealed. destruct (intent_ok i); [|apply spec_fail].
  apply spec_seq; [apply stable_True|keep|]. intros [deadline control]. do 5 (apply spec_seq; [apply stable_True|keep|]; intros ?).
  apply spec_read; [apply stable_True|]. intros s d1 _ _. eapply spec_weaken; [intros d (_ & Hs & _); exact Hs|].
  do 3 (apply spec_seq; [apply snap_ok_stable|keep|]; intros ?). apply spec_seq; [apply snap_ok_stable|keep|]. intros [packets copies].
  by apply spec_ret.
Qed.

Lemma seal_keeps a i : keeps (seal a i).
Proof.
  eapply keeps_spec, spec_then; [apply sealed_spec|]. intros s. apply (uses_spec ns (s_before s)). keep.
Qed.
#[local] Hint Resolve seal_keeps : keeps.

Lemma attempt_for_keeps a i : keeps (attempt_for a i).
Proof. unfold RatchetSend.attempt_for. keep. Qed.
#[local] Hint Resolve attempt_for_keeps : keeps.

Lemma send_once_keeps i : keeps (send_once i).
Proof. unfold RatchetSend.send_once. keep. Qed.
#[local] Hint Resolve send_once_keeps : keeps.

Lemma send_keeps i : keeps (send sha256 cv ns check admission core deviceKey trustReset trustResetDone projectors directory_request signBundle
                        refreshMS attemptTTL i).
Proof. unfold send. induction LOCAL_RETRY as [|n IH]; cbn [send_tries]; keep. Qed.
#[local] Hint Resolve send_keeps : keeps.

(** *** The theorem *)

Lemma ignore_keeps {A} (m : M A) : keeps m -> keeps (ignore m).
Proof. intros Hm. unfold ignore. keep. Qed.

Lemma perform_keeps o : keeps (perform o).
Proof.
  destruct o; cbn [perform].
  - apply ignore_keeps, ready_keeps.
  - apply ignore_keeps, send_keeps.
  - apply ignore_keeps, send_keeps.
  - apply keeps_bind; [apply ready_keeps|]. intros _. apply ignore_keeps, serial_keeps. by apply drain_keeps.
  - apply keeps_bind; [apply ready_keeps|]. intros _. apply ignore_keeps, serial_keeps, history_keeps.
  - apply serial_keeps, recover_keeps.
  - apply ignore_keeps, serial_keeps, cancelRecovery_keeps.
  - apply serial_keeps. by apply (resetTrust_keeps ns check admission core deviceKey trustReset trustResetDone).
Qed.

(** The consumers of any number of tabs keep the store.  Whatever the
    server, the directory and the core answer and the other tabs do, every
    operation that a page calls (readiness, sending, draining, the history,
    recovery, the reset of trust) keeps the store's invariant (every record
    decrypts, the quotas are exact, attempt numbers are unique), and every record
    lives only forward. *)
Theorem consumers_keep_store d w : Inv d ->
  rtc (wstep (result string unit * consumer) (fun _ p => exists o c, p = perform o c)) (d, []) w ->
  Inv w.1 /\ rely Inv Guar d w.1.
Proof.
  intros HI Hw. eapply (world_safe Inv Guar _ _ (fun _ _ => True)) in Hw as [[HIw _] Hr]; [done| |done].
  intros d0 p _ (o & c & ->). apply perform_keeps.
Qed.
End operations.

#[export] Hint Resolve directory_keeps serial_keeps seal_keeps ready_keeps send_once_keeps : keeps.
