(* ===== verification/RatchetSendSafety.v ===== *)
(** * What a send promises

    A logical ID whose message was accepted always yields that message: whatever
    content a later send names, and whatever other tabs do, it resolves to the
    stored archive and receipt ([send_yields_original]).  A message is sealed for
    exactly the remote devices of its roster, each under the identity pinned for
    the device ([seal_covers_targets]). *)

From stdpp Require Import base gmap list strings.
From Stdlib Require Import ZArith Lia.
From S2P Require Import Prelude Json Text OlmAdmission OlmControl Db DbAtomic OlmReset RatchetStore RatchetCommit RatchetSafety RatchetConsumer RatchetAccount RatchetSend ConsumerLogic RatchetReceive RatchetOperations.

Section send.
Context `{Cipher}.
Variable sha256 : list Z -> list Z.
Variable cv : curves.
Variable ns : names.
Variable check : prog unit.
Variable admission core : json -> prog json.
Variable deviceKey : string -> string -> prog (list Z).
Variable trustReset : string -> prog string.
Variable trustResetDone : string -> string -> prog unit.
Variable projectors : nat.
Variable directory_request signBundle : json -> prog json.
Variable signReset : option (json -> prog json).
Variable refreshMS attemptTTL : Z.
Context `{HS : !Surroundings ns check admission core deviceKey trustReset trustResetDone}.
Context `{HG : !Signatures ns directory_request signBundle signReset}.

#[local] Abbreviation abs := (abs ns).
#[local] Abbreviation Inv := (Inv ns).
#[local] Abbreviation Guar := (Guar ns).
#[local] Abbreviation keeps := (keeps ns).
#[local] Abbreviation spec := (spec ns).
#[local] Abbreviation send_once := (send_once sha256 cv ns check admission core deviceKey trustReset trustResetDone projectors directory_request attemptTTL).
#[local] Abbreviation attempt_for := (attempt_for sha256 cv ns check admission core deviceKey trustReset trustResetDone directory_request attemptTTL).
#[local] Abbreviation resolve_outcome := (resolve_outcome sha256 ns check admission projectors).
#[local] Abbreviation send := (send sha256 cv ns check admission core deviceKey trustReset trustResetDone projectors directory_request signBundle refreshMS attemptTTL).

(** ** An accepted logical ID *)

Definition logical_ref (logical : string) : ref := ("logical", logical)%string.
Definition outbox_ref (id : string) : ref := ("outbox", id)%string.

(** The archive and the receipt of a stored attempt. *)
Definition outcome_at (id : string) (archive : option json) (receipt : json) (d : database) : Prop :=
  exists w b, abs d !! outbox_ref id = Some w /\ parse (data w) = Some b /\ field "archive" b = archive /\ field "receipt" b = Some receipt.

(** The logical ID was accepted as the attempt [id]. *)
Definition accepted_as (logical id : string) (d : database) : Prop :=
  exists v l, abs d !! logical_ref logical = Some v /\ parse (data v) = Some l /\ accepted l = true /\ str_of (field "attemptID" l) = id.

Definition sent_as (logical id : string) (archive : option json) (receipt : json) (d : database) : Prop :=
  accepted_as logical id d /\ outcome_at id archive receipt d /\ truthy (Some receipt) = true.

Definition sent_in (g : Z) (logical id : string) (archive : option json) (receipt : json) (d : database) : Prop :=
  g <= generation (current d) /\ (generation (current d) = g -> sent_as logical id archive receipt d).

Lemma json_life (r : ref) a d d' v j : (forall r, evolves r (abs d !! r) (abs d' !! r)) -> r.1 ∈ json_kinds -> r <> ctl -> r.1 = a ->
  abs d !! r = Some v -> parse (data v) = Some j ->
  exists v' j', abs d' !! r = Some v' /\ parse (data v') = Some j' /\ (v' = v /\ j' = j \/ life a j j').
Proof.
  intros He Hk Hc <- Hv Hj. specialize (He r). rewrite Hv in He. destruct (abs d' !! r) as [w|]; [|done].
  destruct He as [<-|[_ Hl]]; [exists v, j; auto|]. unfold data_life in Hl. rewrite decide_False, decide_True in Hl by done.
  destruct (Hl j Hj) as (j' & Hj' & Hlife). exists w, j'. auto.
Qed.

Lemma sent_stable g logical id archive receipt : stable Inv Guar (sent_in g logical id archive receipt).
Proof.
  intros d d' [Hle Hs] _ _ [_ [Hlt|(Heq & Hev & _)]]; split; try lia. intros Hg.
  destruct Hs as ((v & l & Hv & Hl & Ha & Hid) & (w & b & Hw & Hb & Har & Hrc) & Ht); [lia|]. split_and!; [| |done].
  - destruct (json_life (logical_ref logical) "logical" d d' v l Hev) as (v' & l' & Hv' & Hl' & Hlife); try done.
    { apply (bool_decide_unpack _). exact I. }
    exists v', l'. destruct Hlife as [[-> ->]|Hlife]; [done|]. assert (l = l') as <- by (by apply Hlife). done.
  - destruct (json_life (outbox_ref id) "outbox" d d' w b Hev) as (w' & b' & Hw' & Hb' & Hlife); try done.
    { apply (bool_decide_unpack _). exact I. }
    exists w', b'. destruct Hlife as [[-> ->]|(Hsame & Hfin & _)]; [done|]. split_and!; [done|done| |].
    + rewrite <- (Hsame "archive"%string); [done|]. right; by left.
    + rewrite Hfin; [done|]. by rewrite Hrc.
Qed.

Lemma sent_low g logical id archive receipt d : sent_in g logical id archive receipt d -> not_before g d.
Proof. by intros [? _]. Qed.

(** Everything but the resolved outcome stays as it is. *)
Definition is_outcome_of (archive : option json) (receipt record op : json) : Prop :=
  json_ (bytes_of_json archive) = Ok record /\ field "receipt" op = Some receipt.

Lemma present_in_view d r v : Inv d -> abs d !! r = Some v -> exists_ v = true.
Proof.
  intros [Hdec _] Hv. rewrite lookup_abs in Hv. destruct (records_of ns d !! r) as [raw|] eqn:Er; [|done]. injection Hv as <-.
  destruct (Hdec _ _ Er) as [Hr _]. unfold exists_. cbn [rec_of_raw revision]. destruct (Z.eqb_spec (raw_revision raw) 0); [lia|done].
Qed.

Lemma rec_in_at d r v : abs d !! r = Some v -> rec_in ns d r = v.
Proof. unfold rec_in. by intros ->. Qed.

Lemma outcome_spec g logical id archive receipt :
  spec (sent_in g logical id archive receipt) (outcome_ ns id)
    (fun x d => generation (current d) = g -> is_outcome_of archive receipt x.2 x.1).
Proof.
  unfold outcome_. apply spec_read; [apply sent_stable|]. intros s d1 [Hle Hs] Hat.
  pose proof (read_rec ns s _ d1 (outbox_ref id) Hat (list_elem_of_here _ _)) as Hrec. unfold outbox_ref in Hrec.
  change (("outbox", id)%string) with (outbox_ref id) in *. rewrite Hrec.
  destruct (Z.eq_dec (generation (current d1)) g) as [Hg|Hne].
  - destruct (Hs Hg) as (_ & (w & b & Hw & Hb & Har & Hrc) & Ht). rewrite (rec_in_at d1 (outbox_ref id) w Hw).
    destruct (exists_ w); [|apply (spec_fail ns)]. apply spec_pure. intros op Hop%json_ok_. assert (op = b) as -> by congruence.
    apply spec_pure. intros record Hrecd. apply spec_ret. intros d _ _. split; [by rewrite <- Har|done].
  - eapply (spec_weaken ns _ (not_before (g + 1))).
    { intros d (_ & _ & Hr). eapply stable_rely; [apply not_before_stable|exact Hr|]. unfold not_before. lia. }
    apply spec_expired. keep.
Qed.

Lemma spec_step {A B} (P : database -> Prop) (m : M A) (k : result string A -> M B) Q : stable Inv Guar P -> keeps m ->
  (forall r, spec P (k r) Q) -> spec P (mtry m k) Q.
Proof.
  intros Hst Hm Hk. eapply (spec_try ns P m k (fun _ _ => True)); [done| | |done].
  - intros c d HP. eapply safe_mono; [|apply (Hm c d)]. done.
  - intros a. eapply spec_weaken; [|apply Hk]. by intros d [].
Qed.

Lemma resolve_spec g a logical id archive receipt :
  spec (sent_in g logical id archive receipt) (resolve_outcome a id)
    (fun x d => generation (current d) = g -> forall shown rc, x = Ok (shown, rc) ->
       rc = receipt /\ exists record, json_ (bytes_of_json archive) = Ok record /\ shown = projected id record receipt).
Proof.
  unfold RatchetConsumer.resolve_outcome. eapply (spec_try ns); [apply sent_stable|apply (outcome_spec g logical id archive receipt)| |].
  2: { intros e. apply (spec_fail ns). }
  intros [op0 record0]. cbn [fst snd]. eapply spec_same; [by intros d ?%sent_low|keep|]. intros [Hrec Hrc]. cbn [fst snd] in Hrec, Hrc.
  destruct (truthy (field "receipt" op0)) eqn:Ht; cycle 1.
  { intros c d (Hle & Hs). destruct (Z.eq_dec (generation (current d)) g) as [E|E].
    - destruct (Hs E) as (_ & _ & Htr). rewrite Hrc in Ht. congruence.
    - apply (spec_expired ns g); [keep|]. unfold not_before. lia. }
  unfold settled. rewrite Ht. cbn [mtry mret]. change (mtry (mret ?x) ?k) with (k (Ok x)). cbn iota beta.
  apply spec_step; [apply sent_stable|keep|]. intros [[]|e]; [|by apply spec_ret].
  rewrite Hrc. cbn [default]. apply spec_seq; [apply sent_stable|keep|]. intros _. apply spec_ret. intros d _ _ shown rc.
  destruct (is_text _ _); [|done]. intros [= <- <-]. split; [done|]. by exists record0.
Qed.

Lemma attempt_spec g a i id archive receipt :
  spec (sent_in g (i_logical i) id archive receipt) (attempt_for a i) (fun x d => generation (current d) = g -> x = (id, true)).
Proof.
  unfold RatchetSend.attempt_for. apply spec_read; [apply sent_stable|]. intros s d1 [Hle Hs] Hat.
  pose proof (read_rec ns s _ d1 (logical_ref (i_logical i)) Hat (list_elem_of_here _ _)) as Hrec.
  change (("logical", i_logical i)%string) with (logical_ref (i_logical i)) in *. rewrite Hrec.
  destruct (Z.eq_dec (generation (current d1)) g) as [Hg|Hne].
  - destruct (Hs Hg) as ((v & l & Hv & Hl & Ha & Hid) & _ & _). destruct Hat as (HI & _). rewrite (rec_in_at d1 _ v Hv).
    rewrite (present_in_view d1 _ v HI Hv). apply spec_pure. intros l' Hl'%json_ok_. assert (l' = l) as -> by congruence.
    eapply (spec_weaken ns _ (sent_in g (i_logical i) id archive receipt)); [by intros d []|].
    apply spec_seq; [apply sent_stable|keep|]. intros [op record]. unfold accepted, is_text in *. apply bool_decide_eq_true in Ha.
    rewrite Ha, Hid. cbn. by apply spec_ret.
  - eapply (spec_weaken ns _ (not_before (g + 1))).
    { intros d (_ & _ & Hr). eapply stable_rely; [apply not_before_stable|exact Hr|]. unfold not_before. lia. }
    apply spec_expired. keep.
Qed.

(** What a send of an accepted logical ID returns. *)
Definition original (id : string) (archive : option json) (receipt : json) (x : json * json * bool) : Prop :=
  x.2 = true /\ x.1.2 = receipt /\ exists record, json_ (bytes_of_json archive) = Ok record /\ x.1.1 = projected id record receipt.

Lemma send_once_spec g i id archive receipt :
  spec (sent_in g (i_logical i) id archive receipt) (send_once i)
    (fun r d => generation (current d) = g -> forall x, r = Ok x -> original id archive receipt x).
Proof.
  unfold RatchetSend.send_once. apply spec_seq; [apply sent_stable|by apply (authority_keeps ns check admission core deviceKey trustReset trustResetDone)|].
  intros a. eapply (spec_try ns); [apply sent_stable|apply (attempt_spec g a i id archive receipt)| |].
  2: { intros e. apply (spec_fail ns). }
  intros [id' reused]. eapply spec_same; [by intros d ?%sent_low|keep|]. intros [= -> ->].
  eapply (spec_then ns); [apply resolve_spec|]. intros [[shown rc]|e]; apply spec_ret; [|done].
  intros d Hd Hg x [= <-]. destruct (Hd Hg shown rc eq_refl) as [-> Hr]. done.
Qed.

Lemma send_tries_spec g n i id archive receipt :
  spec (sent_in g (i_logical i) id archive receipt)
    (send_tries sha256 cv ns check admission core deviceKey trustReset trustResetDone projectors directory_request signBundle refreshMS attemptTTL n i)
    (fun x d => generation (current d) = g -> original id archive receipt x).
Proof.
  induction n as [|n IH]; cbn [send_tries]; (apply spec_seq; [apply sent_stable|keep|]); intros _;
    (eapply (spec_try ns _ _ _ (fun r d => generation (current d) = g -> forall x, r = Ok x -> original id archive receipt x)); [apply sent_stable| | |]).
  1, 4: apply spec_seq; [apply sent_stable|keep|]; intros _; apply send_once_spec.
  1, 3: intros [x|e]; [apply spec_ret; intros d [_ Hd] Hg; by apply Hd|].
  3, 4: intros e.
  all: cbv zeta; case_bool_decide; try apply (spec_fail ns).
  all: eapply (spec_weaken ns _ (sent_in g (i_logical i) id archive receipt)); [by intros d; tauto|].
  all: apply spec_seq; [apply sent_stable|keep|]; intros _; apply IH.
Qed.

(** C27: a logical ID whose message was accepted always yields that message.
    Whatever content a later send of it names, however the server answers and the
    other tabs interfere, a send that returns in the same identity generation
    returns the stored archive of the accepted attempt with its receipt, marked
    as reused. *)
Theorem send_yields_original i c d l record receipt reused c' d' id archive receipt0 :
  Inv d -> sent_as (i_logical i) id archive receipt0 d ->
  exec (rely Inv Guar) (send i c) d l (Ok (Ok (record, receipt, reused), c')) d' -> generation (current d') = generation (current d) ->
  reused = true /\ receipt = receipt0 /\ exists original, json_ (bytes_of_json archive) = Ok original /\ record = projected id original receipt0.
Proof.
  intros HI Hs He Hg. pose proof (send_tries_spec (generation (current d)) LOCAL_RETRY i id archive receipt0) as Hsp.
  eapply (exec_spec ns _ _ _ c d) in Hsp; [|done| |exact He]; [by apply Hsp|by split].
Qed.

(** ** What is sealed *)

#[local] Abbreviation promote := (promote cv ns check admission).
#[local] Abbreviation trust_ := (trust_ ns check deviceKey trustReset trustResetDone).
#[local] Abbreviation reserve := (reserve cv ns check directory_request).
#[local] Abbreviation claim_for := (claim_for cv ns check directory_request attemptTTL).
#[local] Abbreviation plan_target := (plan_target cv ns check admission deviceKey trustReset trustResetDone directory_request attemptTTL).
#[local] Abbreviation plan_targets := (plan_targets cv ns check admission deviceKey trustReset trustResetDone directory_request attemptTTL).
#[local] Abbreviation sealed := (sealed cv ns check admission core deviceKey trustReset trustResetDone directory_request attemptTTL).

(** The device's pin is the epoch and the identity. *)
Definition pinned_at (e : Z) (identity_ : option json) (t : trusted) : Prop :=
  exists p, t_pin t = Some p /\ pin_is p e identity_ = true.

(** The device stays the one that was trusted, and its pin, when it has one, is
    the epoch and the identity. *)
Definition moved (t0 : trusted) (e : Z) (identity_ : option json) (t : trusted) : Prop :=
  t_id t = t_id t0 /\ t_key t = t_key t0 /\ (t_pin t = None \/ pinned_at e identity_ t).

Lemma verify_chain_yields from e identity_ o fetch :
  yields (verify_chain cv from e identity_ o fetch) (fun x => pin_is (pin_json x.1) e identity_ = true).
Proof.
  unfold verify_chain. destruct (_ <? _); [|apply yields_fail]. apply yields_then. intros [cur passed].
  destruct ((_ =? _) && _) eqn:E; [|apply yields_fail]. apply andb_true_iff in E as [He Hi]. apply yields_ret. unfold pin_is, pin_json.
  cbn [fst]. apply Z.eqb_eq in He. rewrite He. cbn. by rewrite bool_decide_true.
Qed.

Lemma promote_yields a t0 principal device e identity_ b : yields (promote a t0 principal device e identity_ b) (fun t => b = false -> moved t0 e identity_ t).
Proof.
  unfold RatchetConsumer.promote, moved. destruct (t_pin t0) as [p|] eqn:Ep; [|by apply yields_ret; auto].
  destruct (pin_is p e identity_) eqn:Hp; [apply yields_ret; intros _; split_and!; [done..|right; by exists p]|].
  destruct (e <? _).
  { apply yields_then. intros ms. destruct (List.find _ _); [|apply yields_fail]. destruct b; [by apply yields_ret|apply yields_fail]. }
  destruct (e =? _); [apply yields_fail|]. apply yields_casRetry. unfold promoteOnce.
  do 2 (apply yields_then; intros ?). destruct (is_text _ _); [|apply yields_fail]. destruct (present _) as [from|]; [|apply yields_fail].
  destruct (pin_is from e identity_) eqn:Hf; [apply yields_ret; intros _; split_and!; [done..|right; by exists from]|].
  eapply yields_bind; [apply yields_catch; [apply verify_chain_yields|intros; apply yields_fail]|]. intros [cur passed] Hcur.
  do 2 (apply yields_then; intros ?). destruct (_ && _); [|apply yields_fail]. do 3 (apply yields_then; intros ?).
  apply yields_ret. intros _. split_and!; [done..|right; by exists (pin_json cur)].
Qed.

(** A trusted device carries the key the device directory gave. *)
Lemma trust_yields principal device : yields (trust_ principal device) (fun t => t_id t = trust_id principal device /\ len (t_key t) = 32).
Proof.
  apply yields_casRetry. unfold trustOnce. do 4 (apply yields_then; intros ?). destruct (len _ =? 32) eqn:El; [|apply yields_fail].
  apply Z.eqb_eq in El. yielding; by apply yields_ret.
Qed.

(** A bundle for the epoch and the identity. *)
Definition bundle_for (e : Z) (identity_ : string) (b : json) : Prop :=
  field "account_epoch" b = Some (JNum e) /\ field "identity" b = Some (JStr identity_).

Lemma strict_num p e : strict_eq p (Some (JNum e)) = true -> p = Some (JNum e).
Proof. destruct p as [j|]; [|done]. intros [_ Hj%bool_decide_eq_true]%andb_true_iff. by subst. Qed.
Lemma strict_str p s : strict_eq p (Some (JStr s)) = true -> p = Some (JStr s).
Proof. destruct p as [j|]; [|done]. intros [_ Hj%bool_decide_eq_true]%andb_true_iff. by subst. Qed.
Lemma strict_str_refl s : strict_eq (Some (JStr s)) (Some (JStr s)) = true.
Proof. cbn. by rewrite bool_decide_true. Qed.

Lemma bundle_pin_is e i b : bundle_for e i b -> pin_is (bundle_pin b) e (Some (JStr i)) = true.
Proof.
  intros [He Hi]. unfold pin_is, bundle_pin. rewrite !field_obj by reflexivity. simpl OMap.get. cbn iota. rewrite He, Hi.
  rewrite bool_decide_true by done. apply strict_str_refl.
Qed.

(** Adopting a bundle gives a device without a pin the pin of the bundle. *)
Lemma adopt_yields t0 e i b : bundle_for e i b -> moved t0 e (Some (JStr i)) t0 ->
  yields (adopt ns check t0 b) (fun t => t_id t = t_id t0 /\ t_key t = t_key t0 /\ pinned_at e (Some (JStr i)) t).
Proof.
  intros Hb (_ & _ & Hpin). apply yields_casRetry. unfold adoptOnce. destruct (t_pin t0) as [p|] eqn:Ep.
  { destruct Hpin as [Hpin|Hpin]; [done|]. destruct (_ && _); [by apply yields_ret|apply yields_fail]. }
  do 2 (apply yields_then; intros ?). cbv zeta. destruct (is_text _ _); [|apply yields_fail]. destruct (present _) as [p|].
  - destruct (strict_eq _ _ && _) eqn:E; [|apply yields_fail]. apply andb_true_iff in E as [E1 E2]. destruct Hb as [He Hi].
    rewrite He in E1. rewrite Hi in E2. apply strict_num in E1. apply strict_str in E2. apply yields_ret. split_and!; [done..|].
    exists p. split; [done|]. unfold pin_is. rewrite E1, E2, bool_decide_true by done. apply strict_str_refl.
  - do 2 (apply yields_then; intros ?). apply yields_ret. split_and!; [done..|]. eexists. split; [done|]. by apply bundle_pin_is.
Qed.

Lemma reserved_bundle b e key until t k : verifyReservedClaim cv b e key until t = Ok k -> bundle_for (ev_epoch e) (pinnedOlmIdentity e) b.
Proof.
  unfold verifyReservedClaim. destruct (_ && _ && _); [|done]. rewrite rbind_Ok. intros (v & Hv & _). unfold verifyBundleEvidence in Hv.
  destruct (fromBase64 _); [|done]. destruct (_ && _ && _) eqn:E; [|done]. rewrite !andb_true_iff in E.
  destruct E as [[[[[[_ _] _] He] Hi] _] _]. apply bool_decide_eq_true in He, Hi. done.
Qed.

(** The epoch and the identity that a target's manifest entry names. *)
Definition target_epoch (t : json) : Z := num_or 0 (field "account_epoch" t).
Definition reached (t : json) (t0 t1 : trusted) : Prop :=
  t_id t1 = t_id t0 /\ t_key t1 = t_key t0 /\ pinned_at (target_epoch t) (field "identity" t) t1.

Lemma reserve_yields a m t t0 key : moved t0 (target_epoch t) (field "identity" t) t0 -> yields (reserve a m t t0 key) (fun x => reached t t0 x.1).
Proof.
  intros Hm. unfold RatchetSend.reserve. do 9 (apply yields_then; intros ?). cbv zeta. apply yields_then. intros t1.
  unfold pinned_identity. destruct Hm as (_ & _ & [Hn|(p & Hp & Hpin)]).
  - rewrite Hn. cbn. destruct (field "identity" t) as [[]|] eqn:Ei; try (apply yields_pure; intros; discriminate).
    apply yields_pure. intros k Hk%reserved_bundle. cbn [ev_epoch pinnedOlmIdentity] in Hk.
    eapply yields_bind; [apply (adopt_yields _ _ _ _ Hk); split_and!; auto|]. intros t2 (E1 & E2 & E3). apply yields_then. intros _.
    apply yields_ret. unfold reached. by rewrite Ei.
  - apply yields_then. intros k. eapply yields_bind.
    { instantiate (1 := fun t2 => t2 = t0). apply yields_casRetry. unfold adoptOnce. rewrite Hp. destruct (_ && _); [by apply yields_ret|apply yields_fail]. }
    intros ? ->. apply yields_then. intros _. apply yields_ret. split_and!; [done..|by exists p].
Qed.

Lemma claim_yields a m t t0 : moved t0 (target_epoch t) (field "identity" t) t0 -> yields (claim_for a m t t0) (fun x => reached t t0 x.1).
Proof.
  intros Hm. unfold RatchetSend.claim_for. cbv zeta. do 2 (apply yields_then; intros ?).
  destruct (OMap.get _ _) as [k|]; [|by apply reserve_yields]. destruct (t_pin t0) as [p|] eqn:Ep; [|by apply reserve_yields].
  destruct (covers _ _ _); [|by apply reserve_yields]. apply yields_ret. destruct Hm as (_ & _ & [Hn|Hp]); [congruence|done].
Qed.

(** A plan reaches its target under the identity that the manifest names. *)
Record planned (a : authority) (m t : json) (p : plan) : Prop := {
  pl_target : p_target p = t;
  pl_binding : p_binding p = expectedBinding m t;
  pl_context : p_context p = context_ a t;
  pl_trust : t_id (p_trusted p) = trust_id (str_of (field "principal" t)) (str_of (field "device" t));
  pl_pin : pinned_at (target_epoch t) (field "identity" t) (p_trusted p)
}.

Lemma pending_yields session : yields (pending_session ns attemptTTL session) (fun _ => True).
Proof. apply yields_any. Qed.

Lemma plan_yields a m sessions t : yields (plan_target a m sessions t) (planned a m t).
Proof.
  unfold RatchetSend.plan_target. cbv zeta. eapply yields_bind; [apply trust_yields|]. intros t0 [Hid _].
  eapply yields_bind; [apply promote_yields|]. intros t1 Hm. specialize (Hm eq_refl). destruct Hm as (Ei & Ek & Hpin).
  eapply (yields_bind _ _ (fun x => is_Some x.1.1 -> is_Some (t_pin t1))).
  { case_bool_decide as Hs; [|apply yields_ret; by intros [? ?]]. destruct (OMap.get _ _); [|apply yields_ret; by intros [? ?]].
    eapply yields_mono; [apply yields_any|]. done. }
  intros [[prior pending] replaces] Hprior. cbn [fst snd] in Hprior. destruct prior as [session|].
  - apply yields_ret. destruct (Hprior ltac:(by eexists)) as [p Hp]. destruct Hpin as [Hn|Hp']; [congruence|].
    split; cbn [p_target p_binding p_context p_trusted]; [done..|by rewrite Ei|exact Hp'].
  - eapply yields_bind; [apply claim_yields; by split_and!|]. intros [t2 c] (E1 & E2 & E3). apply yields_ret. cbn [fst] in E1, E3.
    split; cbn [p_target p_binding p_context p_trusted]; [done..|by rewrite E1, Ei|exact E3].
Qed.

Definition remote (m : json) : list json := filter (fun t => is_local t = false) (items (field "targets" m)).

Lemma plans_yield a m sessions l : yields (plan_targets a m sessions l) (Forall2 (planned a m) (filter (fun t => is_local t = false) l)).
Proof.
  induction l as [|t l IH]; cbn [RatchetSend.plan_targets]; [by apply yields_ret|]. rewrite filter_cons. destruct (is_local t); [exact IH|].
  case_decide; [|done]. eapply yields_bind; [apply plan_yields|]. intros p Hp. eapply yields_bind; [apply IH|]. intros ps Hps.
  apply yields_ret. by constructor.
Qed.

(** What is stored and what is sent for one device. *)
Record addressed_to (a : authority) (t : json) (k : packet) (c : json) : Prop := {
  ad_context : context k = Some (context_ a t);
  ad_trust : trustID k = trust_id (str_of (field "principal" t)) (str_of (field "device" t));
  ad_device : field "principal" c = field "principal" t /\ field "device" c = field "device" t /\
              field "account_epoch" c = field "account_epoch" t;
  ad_envelope : envelope k = jsonBytes (default JNull (field "envelope" c))
}.

Lemma seal_copy_yields m b s key account a m0 t p : planned a m0 t p ->
  yields (seal_copy check core attemptTTL m b s key account p) (fun x => addressed_to a t x.1 x.2).
Proof.
  intros [Ht Hb Hc Htr Hp]. unfold seal_copy. do 5 (apply yields_then; intros ?). apply yields_then. intros _. cbv zeta.
  destruct (match p_prior p with Some _ => _ | None => _ end); [|apply yields_fail]. apply yields_ret. rewrite Ht.
  split; cbn [fst snd context trustID envelope]; [by rewrite Hc|done|..].
  - rewrite !field_obj by reflexivity. done.
  - rewrite !field_obj by reflexivity. done.
Qed.

Lemma seal_copies_yield m b s key account a m0 targets plans : Forall2 (planned a m0) targets plans ->
  yields (seal_copies check core attemptTTL m b s key account plans) (fun x => Forall3 (addressed_to a) targets x.1 x.2).
Proof.
  induction 1 as [|t p targets plans Hp _ IH]; cbn [seal_copies]; [apply yields_ret; constructor|].
  eapply yields_bind; [by apply (seal_copy_yields _ _ _ _ _ a m0 t)|]. intros [k c] Hkc. eapply yields_bind; [apply IH|]. intros [ks cs] Hs.
  apply yields_ret. by constructor.
Qed.

(** The remote target of a control is the named device, alone. *)
Lemma control_remote a i deadline roster identity_ m : addressed ns a i deadline roster identity_ = Ok m -> is_control i = true ->
  exists t, remote m = [t] /\ is_device (i_peer i) (i_device i) t = true.
Proof.
  unfold addressed. destruct (not_null roster); [|done]. rewrite rbind_Ok. intros (m' & Hm & Hrest) Hc. rewrite Hc in Hm.
  rewrite rbind_Ok in Hrest. destruct Hrest as (_ & _ & Hrest). destruct (forallb _ _); [|done]. destruct (local_ok _ _ _) eqn:Hl; [|done].
  injection Hrest as <-. unfold control_targets in Hm. destruct (field "targets" _) as [[]|]; try done. destruct (forallb _ _); [|done].
  destruct (len _ =? 2) eqn:E2; [|done]. apply Z.eqb_eq in E2. injection Hm as <-. unfold remote, local_ok in *.
  rewrite field_jset_eq in Hl |- *. cbn [items] in *.
  set (kept := filter _ l) in *. assert (Hk : Forall (fun t => is_local t = true \/ is_device (i_peer i) (i_device i) t = true) kept).
  { apply Forall_forall. intros t Ht. apply list_elem_of_filter in Ht as [Ht _]. destruct (is_local t); auto. }
  clearbody kept. destruct kept as [|t1 [|t2 [|]]]; try (unfold len in E2; cbn [length] in E2; lia). rewrite !filter_cons, filter_nil in Hl |- *.
  inversion Hk as [|? ? H1 Hk1]; subst. inversion Hk1 as [|? ? H2 _]; subst.
  destruct (is_local t1) eqn:L1, (is_local t2) eqn:L2; cbn in Hl |- *; try done.
  - exists t2. split; [done|]. by destruct H2.
  - exists t1. split; [done|]. by destruct H1.
Qed.

Definition covered (a : authority) (i : intent) (s : sealed_message) : Prop :=
  Forall2 (planned a (s_manifest s)) (remote (s_manifest s)) (s_plans s) /\
  Forall3 (addressed_to a) (remote (s_manifest s)) (s_packets s) (s_copies s) /\
  (is_control i = true -> exists t, remote (s_manifest s) = [t] /\ is_device (i_peer i) (i_device i) t = true).

Lemma sealed_yields a i : yields (sealed a i) (covered a i).
Proof.
  unfold RatchetSend.sealed. destruct (intent_ok i); [|apply yields_fail]. apply yields_then. intros [deadline control].
  do 2 (apply yields_then; intros ?). apply yields_pure. intros m Hm. apply yields_then. intros sessions.
  eapply yields_bind; [apply plans_yield|]. intros plans Hplans. do 4 (apply yields_then; intros ?). cbv zeta.
  eapply yields_bind; [by apply (seal_copies_yield _ _ _ _ _ a m _ _ Hplans)|]. intros [packets copies] Hs.
  apply yields_ret. split_and!; [done|done|]. intros Hc. by eapply control_remote.
Qed.

(** C28: a message is sealed for exactly the remote devices of its roster.
    Whatever the server, the directory, the core and the other tabs answer, a
    sealed message has one packet and one copy for each remote target of its
    manifest, in the manifest's order and no others; each is for that target's
    session context and trust record, and the device's pin is the epoch and
    identity that the manifest names, so no copy is made for an unpinned
    identity.  A control has exactly one, for the named device. *)
Theorem seal_covers_targets env a i c d l s c' d' : exec env (sealed a i c) d l (Ok (Ok s, c')) d' -> covered a i s.
Proof. intros He. by apply (only_exec_result _ _ _ _ _ _ _ (sealed_yields a i c) He). Qed.
End send.
