(* ===== verification/RatchetReceiveDemo.v ===== *)
(** * Receiving, run

    Alice's device receives a control from Bob's over an existing session.  The
    run gives the theorems of [RatchetReceive] states where their hypotheses
    hold, and shows what happens when two tabs receive one delivery at once. *)

From stdpp Require Import base gmap list strings.
From Stdlib Require Import ZArith Lia.
From S2P Require Import Prelude Json Text OlmAdmission OlmControl OlmPayload Db DbAtomic OlmReset RatchetStore RatchetCommit RatchetSafety RatchetHistory RatchetDemo RatchetConsumer ConsumerLogic RatchetReceive.

Module ReceiveDemo.
Open Scope string_scope.
#[export] Existing Instance RatchetDemo.plain_cipher.

Definition ns : names := Names ResetSample.server "alice" "a1".
Definition cv : curves := ResetSample.cv.
Definition sha : list Z -> list Z := Sample.sha.
Definition rand : nat -> list Z := RatchetDemo.rand.
Definition now : Z := 1700000000000.

Definition target (p d identity : string) (extra : list (string * json)) : json :=
  JObj ([("principal", JStr p); ("device", JStr d); ("account_epoch", JNum 1); ("identity", JStr identity)] ++ extra).
Definition manifest : json :=
  JObj [("version", JStr ADMISSION_VERSION); ("server", JStr ResetSample.server); ("sender", JStr "bob");
        ("device", JStr "b1"); ("account_epoch", JNum 1); ("attempt_id", JStr "1"); ("logical_id", JStr "m-1");
        ("purpose", JStr "control"); ("scope", JStr "direct"); ("peer", JStr "alice"); ("deadline", JNum 1700000100);
        ("rosters", JArr [JObj [("principal", JStr "alice"); ("version", JNum 3)]; JObj [("principal", JStr "bob"); ("version", JNum 1)]]);
        ("targets", JArr [target "bob" "b1" (ResetSample.key 1) [("local", JBool true)]; target "alice" "a1" "id-a1" []]);
        ("parts", JArr [JObj [("digest", JStr (hex_text (repeat 5 32))); ("length", JNum 100)]])].
Definition body : json :=
  JObj [("kind", JStr "media-key"); ("scope", JObj [("type", JStr "voice"); ("id", JStr "7")]); ("epoch", JNum 1);
        ("expires_at", JNum 1700000200)].
Definition copy0 : json := target "alice" "a1" "id-a1" [("session_id", JStr "s1")].
Definition envelope : json :=
  JObj [("version", JStr "noxa-olm-v1"); ("session_id", JStr "s1"); ("binding", expectedBinding manifest copy0);
        ("message", JObj [("type", JNum 1); ("body", JStr "x")])].
Definition copy : json := jset "envelope" envelope copy0.
Definition plaintext : string := match sealPayload manifest copy body with Ok t => text t | Err _ => "" end.
Definition delivery : json :=
  JObj [("id", JStr "d-1"); ("digest", JStr "x"); ("manifest", manifest); ("copy", copy); ("source_bundle", ResetSample.bundle);
        ("target_bundle", JObj [("identity", JStr "id-a1"); ("account_epoch", JNum 1)])].

(** The surroundings: a core that opens the envelope, a server that answers. *)
Definition core (_ : json) : prog json := Db.done (JObj [("session", JStr "next"); ("plaintext", JStr plaintext)]).
Definition admission (_ : json) : prog json := Db.done JNull.
Definition deviceKey (_ _ : string) : prog (list Z) := Db.done (repeat 3 32).
Definition trustReset (_ : string) : prog string := Db.done "".
Definition trustResetDone (_ _ : string) : prog unit := Db.done tt.

#[export] Instance surroundings : Surroundings ns (Db.done tt) admission core deviceKey trustReset trustResetDone.
Proof. split; done. Qed.

(** The store, with the session on which the delivery arrives. *)
Definition au : authority := Authority "local" 1 1 false 0 (0, []).
Definition context : json := context_ au (target "bob" "b1" (ResetSample.key 1) []).
Definition go (n : nat) (c : call) (w : world) : world := launch sha cv ns n rand now c w.
Definition w1 : world := collect_last (go 60 (Read [("trust", "t0")]) (go 60 Initialize RatchetDemo.empty_world)).
Definition w2 : world := collect_last (go 60 (Read [("trust", "t0"); ("session", "olm:s1")]) (go 60 (SetTrust (RatchetDemo.newest w1) "t0" (JStr "bob") false) w1)).
Definition first : RatchetStore.delivery := RatchetStore.Delivery [1] [1] [1] "olm:s1" "t0" (Some context) None "" None.
Definition w3 : world := go 60 (CommitReceive (RatchetDemo.newest w2) "d-0" first) w2.
Definition ready : database := w_db w3.

Definition tab : consumer := Consumer "id-a1" None false [] [] None [] [] [] [] [].
Definition receive_in (c : consumer) := receive sha cv ns (Db.done tt) admission core deviceKey trustReset trustResetDone 1 au delivery c.
(** Bob's device is pinned. *)
Definition pin_bob : M (trusted * json) :=
  receive_source cv ns (Db.done tt) admission deviceKey trustReset trustResetDone au manifest ResetSample.bundle.
Definition pinning := alone 200 rand now (pin_bob tab) ready.
Definition db_of {A} (x : option (list (database * database) * result string A * database)) : database :=
  match x with Some (_, _, d) => d | None => empty_database end.
Definition start : database := db_of pinning.
Definition received := alone 200 rand now (receive_in tab) start.
Definition after_first : database := db_of received.

Definition dispatched : event :=
  Dispatched (JObj [("sender", JStr "bob"); ("senderDevice", JStr "b1"); ("logicalID", JStr "m-1"); ("kind", JStr "media-key");
    ("scope", JObj [("type", JStr "voice"); ("id", JStr "7")]); ("epoch", JNum 1); ("expiresAt", JNum 1700000200); ("delivery", JStr "d-1")]).
Definition acknowledged : json :=
  JObj [("account_epoch", JNum 1); ("action", JStr "receive_ack"); ("delivery_id", JStr "d-1"); ("digest", JStr "x")].
Definition tab_after : consumer := Consumer "id-a1" None false [] [] None [] [] [] [dispatched] [acknowledged].
(** After a replay: nothing handed on, the delivery acknowledged again. *)
Definition tab_again : consumer := Consumer "id-a1" None false [] [] None [] [] [] [] [acknowledged].

(** The other tab's receipt falls between the second tab's reading of the
    session and its commit. *)
Definition others (n : nat) (d : database) : database := if (n =? 186)%nat then after_first else d.
Definition overlapping := among others 200 rand now (receive_in tab) start.

(** ** Every state of the run is a state of the store *)

Abbreviation Inv := (RatchetCommit.Inv ns).
Abbreviation Guar := (RatchetCommit.Guar ns).

Lemma newest_handed w s : bool_decide (is_Some (head (w_snaps w))) = true -> s ∈ [RatchetDemo.newest w] -> s ∈ w_snaps w.
Proof. apply RatchetDemo.newest_given. Qed.

Lemma play_on_reachable n c w : reachable sha cv ns w -> (forall s, s ∈ given_snapshots c -> s ∈ w_snaps w) -> reachable sha cv ns (go n c w).
Proof. intros. by apply reach_launch; [apply RatchetDemo.rand_length|..]. Qed.

Lemma enrolled_reachable : reachable sha cv ns w1.
Proof.
  apply reach_collect, play_on_reachable; [|by intros s ?%not_elem_of_nil]. apply play_on_reachable; [apply rtc_refl|by intros s ?%not_elem_of_nil].
Qed.
Lemma published_reachable : reachable sha cv ns w2.
Proof.
  apply reach_collect, play_on_reachable; [|by intros s ?%not_elem_of_nil]. apply play_on_reachable; [apply enrolled_reachable|].
  intros s. apply newest_handed. by vm_compute.
Qed.
Lemma ready_Inv : Inv ready.
Proof.
  apply (reachable_ok sha cv ns w3). apply play_on_reachable; [apply published_reachable|]. intros s. apply newest_handed. by vm_compute.
Qed.

#[local] Instance rely_refl : Reflexive (rely Inv Guar).
Proof. intros d. apply rtc_refl. Qed.

Lemma alone_rely {A} n (p : prog A) d l r d' : alone n rand now p d = Some (l, r, d') -> exec (rely Inv Guar) p d l r d'.
Proof. apply alone_exec; [apply _|apply RatchetDemo.rand_length]. Qed.

Lemma alone_db {A} (x : option (list (database * database) * result string A * database)) r : result_of x = Some r ->
  exists l, x = Some (l, r, db_of x).
Proof. destruct x as [[[l r'] d]|]; [|done]. intros [= ->]. by exists l. Qed.

Lemma run_Inv {A} n (m : M A) c d : keeps ns m -> Inv d -> Inv (db_of (alone n rand now (m c) d)) \/ alone n rand now (m c) d = None.
Proof.
  intros Hm HI. destruct (alone n rand now (m c) d) as [[[l r] d']|] eqn:E; [left|by right].
  by destruct (safe_exec _ _ _ _ _ _ _ _ HI (Hm c d) (alone_rely _ _ _ _ _ _ E)).
Qed.

Lemma pinned_some : match pinning with Some _ => true | None => false end = true.
Proof. vm_compute. reflexivity. Qed.

Lemma pinning_run : pinning = alone 200 rand now (pin_bob tab) ready.
Proof. reflexivity. Qed.
Lemma start_db : start = db_of pinning.
Proof. reflexivity. Qed.
Lemma pin_keeps : keeps ns pin_bob.
Proof. unfold pin_bob. apply (source_keeps cv ns (Db.done tt) admission core). apply _. Qed.

Lemma start_Inv : Inv start.
Proof.
  pose proof pinned_some as Hs. rewrite start_db. rewrite pinning_run in *.
  destruct (run_Inv 200 pin_bob tab ready pin_keeps ready_Inv) as [HI|E]; [exact HI|]. rewrite E in Hs. discriminate Hs.
Qed.

Lemma after_db : after_first = db_of received.
Proof. reflexivity. Qed.
Lemma received_run : received = alone 200 rand now (receive_in tab) start.
Proof. reflexivity. Qed.

Lemma first_receipt : exists l, received = Some (l, Ok (Ok None, tab_after), after_first).
Proof.
  destruct (alone_db received (Ok (Ok None, tab_after))) as [l E]; [vm_compute; reflexivity|]. exists l. rewrite after_db. exact E.
Qed.

Lemma first_exec : exists l, exec (rely Inv Guar) (receive_in tab) start l (Ok (Ok None, tab_after)) after_first.
Proof. destruct first_receipt as [l E]. rewrite received_run in E. exists l. exact (alone_rely _ _ _ _ _ _ E). Qed.

Lemma receive_durable_witness : exists l, exec (rely Inv Guar) (receive_in tab) start l (Ok (Ok None, tab_after)) after_first /\
  acks tab = [] /\ acks tab_after = [acknowledged] /\
  exists l1 l2 dm record isNew c1, l = (l1 ++ l2)%list /\
    exec (rely Inv Guar) (receive_record sha cv ns (Db.done tt) admission core deviceKey trustReset trustResetDone au delivery tab)
      start l1 (Ok (Ok (record, isNew), c1)) dm /\ emitted c1 = [] /\ acks c1 = [].
Proof.
  destruct first_exec as [l He]. exists l. split; [exact He|]. split; [reflexivity|]. split; [reflexivity|].
  destruct (receive_durable sha cv ns (Db.done tt) admission core deviceKey trustReset trustResetDone 1 au delivery tab start l None tab_after after_first
    start_Inv He) as (l1 & l2 & dm & record & isNew & c1 & H1 & H2 & H3 & H4 & _).
  exists l1, l2, dm, record, isNew, c1. exact (conj H1 (conj H2 (conj H3 H4))).
Defined.

(** The same delivery again. *)
Lemma after_Inv : Inv after_first.
Proof.
  destruct first_exec as [l He].
  by destruct (safe_exec _ _ _ _ _ _ _ _ start_Inv
    (receive_keeps sha cv ns (Db.done tt) admission core deviceKey trustReset trustResetDone 1 au delivery tab start) He).
Qed.

Definition stored_receipt (d : database) : option json := abs ns d !! inbox_ref "d-1" ≫= fun v => parse (data v).
Definition receipt : json := Eval vm_compute in default JNull (stored_receipt after_first).
Definition digest : string := Eval vm_compute in envelope_digest sha copy.

Lemma receipt_stored : stored_receipt after_first = Some receipt.
Proof. vm_compute. reflexivity. Qed.
Lemma receipt_digest : is_text (field "digest" receipt) digest = true.
Proof. vm_compute. reflexivity. Qed.
Lemma receipt_there : receipt_at ns "d-1" digest receipt after_first.
Proof.
  pose proof receipt_stored as Hs. unfold stored_receipt in Hs. apply bind_Some in Hs as (v & Hv & Hp). exists v.
  exact (conj Hv (conj Hp receipt_digest)).
Qed.

Definition again := alone 200 rand now (receive_in tab) after_first.
Lemma again_run : again = alone 200 rand now (receive_in tab) after_first.
Proof. reflexivity. Qed.
Lemma again_result : result_of again = Some (Ok (Ok None, tab_again)).
Proof. vm_compute. reflexivity. Qed.
Lemma again_same : generation (current (db_of again)) = generation (current after_first).
Proof. vm_compute. reflexivity. Qed.

Lemma receive_replays_witness : exists l, exec (rely Inv Guar) (receive_in tab) after_first l (Ok (Ok None, tab_again)) (db_of again) /\
  exists evs, emitted tab_again = (emitted tab ++ evs)%list /\
    Forall (fun e => exists record, e = Projected record false /\ json_ (bytes_of_json (field "archive" receipt)) = Ok record) evs.
Proof.
  destruct (alone_db again _ again_result) as [l E]. pose proof again_same as Hg. generalize dependent (db_of again). intros d' E Hg.
  rewrite again_run in E. apply alone_rely in E. exists l. split; [exact E|].
  exact (receive_replays sha cv ns (Db.done tt) admission core deviceKey trustReset trustResetDone 1 au delivery tab after_first l
    (Ok None, tab_again) d' digest receipt after_Inv receipt_there E Hg).
Defined.

(** ** Two tabs at once *)

Lemma overlapping_run : overlapping = among others 200 rand now (receive_in tab) start.
Proof. reflexivity. Qed.
Lemma overlapping_result : result_of overlapping = Some (Ok (Ok None, tab_after)).
Proof. vm_compute. reflexivity. Qed.

Definition trace_of {A} (x : option (list (database * database) * result string A * database)) : list (database * database) :=
  match x with Some (l, _, _) => l | None => [] end.
Definition has_receipt (d : database) : bool := bool_decide (is_Some (records_of ns d !! inbox_ref "d-1")).
Lemma overlapping_trace : map (fun t => has_receipt t.1) (trace_of overlapping) = (repeat false 12 ++ repeat true 11)%list.
Proof. vm_compute. reflexivity. Qed.
Lemma overlapping_some : exists d2, overlapping = Some (trace_of overlapping, Ok (Ok None, tab_after), d2).
Proof.
  pose proof overlapping_result as Hr. destruct overlapping as [[[l r] d]|]; [|discriminate Hr]. injection Hr as ->. by exists d.
Qed.

(** A delivery that two tabs receive at the same time is new in both.  One
    tab has received it and handed its control to the handlers; another tab, whose
    first twelve transactions run before that and whose later ones run after it,
    is told by the store that the delivery is already there, and hands
    the same control to its handlers once more. *)
Theorem concurrent_receipts_both_new : exists l1 l2 d2,
  exec eq (receive_in tab) start l1 (Ok (Ok None, tab_after)) after_first /\
  exec (fun d d' => d' = d \/ d' = after_first) (receive_in tab) start l2 (Ok (Ok None, tab_after)) d2 /\
  map (fun t => has_receipt t.1) l2 = (repeat false 12 ++ repeat true 11)%list /\
  emitted tab = [] /\ emitted tab_after = [dispatched].
Proof.
  destruct first_receipt as [l1 E1]. rewrite received_run in E1. destruct overlapping_some as [d2 E2].
  pose proof overlapping_trace as T1. generalize dependent (trace_of overlapping). intros l2 E2 T1.
  rewrite overlapping_run in E2. exists l1, l2, d2. split_and!; [| |exact T1|reflexivity|reflexivity].
  - exact (alone_exec eq 200 rand now _ _ _ _ _ RatchetDemo.rand_length E1).
  - refine (among_exec _ others 200 rand now _ _ _ _ _ _ RatchetDemo.rand_length E2).
    intros n d. unfold others. destruct (n =? 186)%nat; [right|left]; reflexivity.
Qed.
End ReceiveDemo.
