(* ===== verification/RatchetSendDemo.v ===== *)
(** * Sending, on a concrete store

    Alice's device sends a message to Bob's from the store of [RatchetReceiveDemo];
    the runs show that the theorems on sending apply. *)

From stdpp Require Import base gmap list strings.
From Stdlib Require Import ZArith Lia.
From S2P Require Import Prelude Json Text OlmAdmission OlmControl OlmPayload Db DbAtomic OlmReset RatchetStore RatchetCommit RatchetSafety RatchetHistory RatchetDemo RatchetConsumer RatchetAccount RatchetSend ConsumerLogic RatchetReceive RatchetOperations RatchetSendSafety RatchetReceiveDemo.

Module SendDemo.
Import RatchetReceiveDemo.ReceiveDemo.
Open Scope string_scope.

Definition bundle : json := jset "issued_at" (JNum 1699990000) (jset "expires_at" (JNum 1700090000) ResetSample.bundle).
Definition key_id : json := default JNull (field "id" (hd JNull (items (field "one_time_keys" bundle)))).
Definition roster : json :=
  JObj [("rosters", JArr [JObj [("principal", JStr "alice"); ("version", JNum 3)]; JObj [("principal", JStr "bob"); ("version", JNum 1)]]);
        ("targets", JArr [target "alice" "a1" "id-a1" [("local", JBool true)]; target "bob" "b1" (ResetSample.key 1) []])].

(** The server accepts what it is asked about. *)
Definition outcome : json :=
  JObj [("state", JStr "accepted"); ("server", JStr ResetSample.server); ("account_epoch", JNum 1); ("attempt_id", JStr "1");
        ("logical_id", JStr "m-9"); ("digest", JStr (hex_text (repeat 7 32))); ("message_id", JStr "srv-1")].
Definition answers (r : json) : prog json :=
  Db.done (if is_text (field "action" r) "snapshot" then roster else if is_text (field "action" r) "status" then outcome else JNull).
Definition lookup_keys (r : json) : prog json := Db.done (JObj [("bundle", bundle); ("key_id", key_id)]).
Definition encrypts (r : json) : prog json :=
  Db.done (JObj [("session", JStr "next"); ("session_id", JStr "s1");
    ("envelope", JObj [("version", JStr "noxa-olm-v1"); ("session_id", JStr "s1"); ("binding", default JNull (field "binding" r));
                       ("message", JObj [("type", JNum 0); ("body", JStr "x")])])]).
Definition signs (b : json) : prog json := Db.done b.

Definition sender : consumer :=
  Consumer "id-a1" (Some (Readiness "id-a1" 1 1700090000, 1699999999999)) false [] [] None [] [] [] [] [].
Definition message (body : json) : intent := Intent "m-9" "direct" "bob" "" "chat" "" "" body.
Definition hello : json := JObj [("text", JStr "hello")].
Definition other : json := JObj [("text", JStr "something else")].
Definition send_from (i : intent) (c : consumer) :=
  send sha cv ns (Db.done tt) answers encrypts deviceKey trustReset trustResetDone 1 lookup_keys signs 3600000 300 i c.
Definition sending := alone 400 rand now (send_from (message hello) sender) start.
Definition after_send : database := db_of sending.
(** Another tab sends another text under the same logical ID. *)
Definition resending := alone 400 rand now (send_from (message other) sender) after_send.

#[export] Instance server_safe : Surroundings ns (Db.done tt) answers encrypts deviceKey trustReset trustResetDone.
Proof. split; done. Qed.
#[export] Instance signatures_safe : Signatures ns lookup_keys signs (Some signs).
Proof. split; try done. by intros f r d [= <-]. Qed.

Lemma sending_run : sending = alone 400 rand now (send_from (message hello) sender) start.
Proof. reflexivity. Qed.
Lemma sending_some : match sending with Some _ => true | None => false end = true.
Proof. vm_compute. reflexivity. Qed.
Lemma send_from_keeps i : keeps ns (send_from i).
Proof. apply (send_keeps sha cv ns (Db.done tt) answers encrypts deviceKey trustReset trustResetDone 1 lookup_keys signs (Some signs)); apply _. Qed.
Lemma after_send_db : after_send = db_of sending.
Proof. reflexivity. Qed.
Lemma after_send_Inv : Inv after_send.
Proof.
  pose proof sending_some as Hs. rewrite after_send_db. rewrite sending_run in *.
  destruct (run_Inv 400 (send_from (message hello)) sender start (send_from_keeps _) start_Inv) as [HI|E]; [exact HI|]. rewrite E in Hs. discriminate Hs.
Qed.

(** What is stored about the message. *)
Definition stored_at (r : ref) (d : database) : option json := abs ns d !! r ≫= fun v => parse (data v).
Definition operation_of (d : database) : json := default JNull (stored_at (outbox_ref "1:1") d).
Definition archived : json := Eval vm_compute in default JNull (field "archive" (operation_of after_send)).
Definition receipt : json := Eval vm_compute in default JNull (field "receipt" (operation_of after_send)).
Definition logical_now : json := Eval vm_compute in default JNull (stored_at (logical_ref "m-9") after_send).

Lemma operation_stored : (fun b => (field "archive" b, field "receipt" b)) <$> stored_at (outbox_ref "1:1") after_send = Some (Some archived, Some receipt).
Proof. vm_compute. reflexivity. Qed.
Lemma logical_stored : stored_at (logical_ref "m-9") after_send = Some logical_now.
Proof. vm_compute. reflexivity. Qed.

Lemma sent_there : sent_as ns "m-9" "1:1" (Some archived) receipt after_send.
Proof.
  pose proof logical_stored as Hl. pose proof operation_stored as Ho. generalize dependent after_send. intros d Hl Ho.
  apply bind_Some in Hl as (v & Hv & Hl). apply fmap_Some in Ho as (b & Ho & Hf). apply bind_Some in Ho as (w & Hw & Hb).
  injection Hf as Har Hrc. split_and!; [exists v, logical_now|exists w, b|]; [split_and!; [exact Hv|exact Hl|reflexivity..]|split_and!; congruence|reflexivity].
Qed.

Definition run_of (A : Type) : Type := option (list (database * database) * result string (result string A * consumer) * database).
Definition value_of {A} (x : run_of A) : option A := match result_of x with Some (Ok (Ok v, _)) => Some v | _ => None end.
Lemma value_run {A} (x : run_of A) v : value_of x = Some v -> exists l c, x = Some (l, Ok (Ok v, c), db_of x).
Proof.
  unfold value_of. destruct (result_of x) as [[[[y|e] c]|e]|] eqn:E; try discriminate. intros [= ->].
  destruct (alone_db x _ E) as [l El]. by exists l, c.
Qed.

Definition original_record : json :=
  Eval vm_compute in match value_of resending with Some (r, _, _) => r | None => JNull end.
Lemma resent_original : value_of resending = Some (original_record, receipt, true).
Proof. vm_compute. reflexivity. Qed.
Lemma resending_run : resending = alone 400 rand now (send_from (message other) sender) after_send.
Proof. reflexivity. Qed.
Lemma resending_same : generation (current (db_of resending)) = generation (current after_send).
Proof. vm_compute. reflexivity. Qed.

Lemma resent_exec : exists l c d, exec (rely Inv Guar) (send_from (message other) sender) after_send l (Ok (Ok (original_record, receipt, true), c)) d /\
  generation (current d) = generation (current after_send).
Proof.
  destruct (value_run resending _ resent_original) as (l & c & El). pose proof resending_same as Hg.
  generalize dependent (db_of resending). intros d El Hg. rewrite resending_run in El. apply alone_rely in El. exists l, c, d. exact (conj El Hg).
Qed.

Lemma send_yields_original_witness : exists l c d,
  exec (rely Inv Guar) (send_from (message other) sender) after_send l (Ok (Ok (original_record, receipt, true), c)) d /\
  is_text (field_of "text" (field "body" original_record)) "hello" = true /\
  true = true /\ receipt = receipt /\ exists original, json_ (bytes_of_json (Some archived)) = Ok original /\ original_record = projected "1:1" original receipt.
Proof.
  destruct resent_exec as (l & c & d & He & Hg). exists l, c, d. split; [exact He|]. split; [reflexivity|].
  exact (send_yields_original sha cv ns (Db.done tt) answers encrypts deviceKey trustReset trustResetDone 1 lookup_keys signs (Some signs) 3600000 300
    (message other) sender after_send l original_record receipt true c d "1:1" (Some archived) receipt after_send_Inv sent_there He Hg).
Defined.

(** A message and a control, sealed. *)
Definition key_body : json :=
  JObj [("kind", JStr "media-key"); ("scope", JObj [("type", JStr "voice"); ("id", JStr "7")]); ("epoch", JNum 1); ("expires_at", JNum 1700000200)].
Definition control : intent := Intent "c-1" "direct" "bob" "" "control" "" "b1" key_body.
Definition seal_in (i : intent) := sealed cv ns (Db.done tt) answers encrypts deviceKey trustReset trustResetDone lookup_keys 300 au i.
Definition sealing := alone 400 rand now (seal_in control sender) start.
Definition targets_of (s : sealed_message) : list json := map (fun p => default JNull (field "device" (p_target p))) (s_plans s).
Lemma sealing_targets : targets_of <$> value_of sealing = Some [JStr "b1"].
Proof. vm_compute. reflexivity. Qed.
Lemma sealing_run : sealing = alone 400 rand now (seal_in control sender) start.
Proof. reflexivity. Qed.

Lemma sealing_exec : exists l s c d, exec (rely Inv Guar) (seal_in control sender) start l (Ok (Ok s, c)) d /\ targets_of s = [JStr "b1"].
Proof.
  pose proof sealing_targets as Ht. apply fmap_Some in Ht as (s & Hs & Ht). destruct (value_run sealing s Hs) as (l & c & El).
  generalize dependent (db_of sealing). intros d El. rewrite sealing_run in El. apply alone_rely in El. exists l, s, c, d. exact (conj El (eq_sym Ht)).
Qed.

Lemma seal_covers_targets_witness : exists l s c d,
  exec (rely Inv Guar) (seal_in control sender) start l (Ok (Ok s, c)) d /\ targets_of s = [JStr "b1"] /\ covered au control s.
Proof.
  destruct sealing_exec as (l & s & c & d & He & Ht). exists l, s, c, d. split; [exact He|]. split; [exact Ht|].
  unfold seal_in in He. exact (seal_covers_targets cv ns (Db.done tt) answers encrypts deviceKey trustReset trustResetDone lookup_keys 300 (rely Inv Guar) au control sender start l s c d He).
Defined.

End SendDemo.
