(* ===== verification/DeviceTrust.v ===== *)
(** * Which devices of an account are trusted ([dm-trust.js], [olm-directory.js])

    An account is the signing key of its key record.  Its first device holds that
    key; every other device carries an approval signed by a device that is already
    trusted.  The listing of an account comes from the server, so it is any JSON
    value here; [trustedDevices] returns exactly the devices that a chain of
    signatures from the pinned key vouches for ([trusted_devices_exact]).  What a
    signature covers names the account, the approver and both keys
    ([approval_binds]).

    Also here: the key record itself and its round trip, and what
    [olm-directory.js] does with a trusted device ([signBundle], [verifyOlmClaim])
    and the server's certificate ([serverBinding]). *)

From stdpp Require Import base list strings.
From Stdlib Require Import ZArith Lia.
From S2P Require Import Prelude Json Text Crypto OlmAdmission OlmReset.

Definition RECORD_PREFIX : string := "noxa-dm-key-v1:".

(** [v || ""]. *)
Definition or_empty (v : option json) : option json := if truthy v then v else Some (JStr "").

(** [/-----(BEGIN|END) PUBLIC KEY-----/g] removed: [skip] bytes of a match are
    still to be dropped. *)
Definition marker (l : list Z) : nat :=
  if strip (bytes_of "-----BEGIN PUBLIC KEY-----") l then 26%nat
  else if strip (bytes_of "-----END PUBLIC KEY-----") l then 24%nat else 0%nat.
Fixpoint without_markers (skip : nat) (l : list Z) : list Z :=
  match l with
  | [] => []
  | c :: r =>
    match skip with
    | S n => without_markers n r
    | O => match marker l with O => c :: without_markers 0 r | S n => without_markers n r end
    end
  end.

(** [ed25519FromPEM]; characters that no byte holds make [atob] throw. *)
Definition ed25519FromPEM (pem : string) : option (list Z) :=
  match without_spaces (text (without_markers 0 (bytes_of pem))) with
  | Some cps =>
    if forallb (fun c => c <? 128) cps then
      match atob (text cps) with
      | Some raw => if Z.of_nat (length raw) =? 32 then Some raw else None
      | None => None
      end
    else None
  | None => None
  end.

Definition approvalTranscript (principal approverID edPublicPEM xPublicB64 : string) : list Z :=
  joined ["noxa-device-approval-v1"; principal; approverID; edPublicPEM; xPublicB64]%string.

(** [toBase64(bytes).replace(/=+$/, "")]. *)
Definition raw_key (bytes : list Z) : option json := Some (JStr (text (strip_equals (b64 bytes)))).

(** A valid entry of the listing, as the code keeps it. *)
Record trusted_device := Device {
  deviceID : string; d_kind : option json; d_signing : list Z; d_x25519 : list Z; x25519B64 : string; d_first : bool
}.

(** The key record's signed text. *)
Definition record_message (uid : string) (signingKey encryptionKey : list Z) : list Z :=
  bytes_of "noxa/dm-identity/v1" ++ 0 ::
  (bytes_of "{" ++ [34] ++ bytes_of "UID" ++ [34; 58] ++ html (print_str uid) ++ [44; 34] ++ bytes_of "SigningKey" ++ [34; 58; 34] ++ b64 signingKey ++
   [34; 44; 34] ++ bytes_of "EncryptionKey" ++ [34; 58; 34] ++ b64 encryptionKey ++ [34] ++ bytes_of "}").

Section trust.
Variable nc : nacl.
Variable cv : curves.

(** ** Key records *)

Definition record_fields (encoded : option json) : option json :=
  match encoded with
  | Some (JStr s) =>
    if (utf16_length s <=? 2048) && String.prefix RECORD_PREFIX s then
      match atob (text (drop (String.length RECORD_PREFIX) (bytes_of s))) with
      | Some bytes => parse (bytes_of (decode bytes))
      | None => None
      end
    else None
  | _ => None
  end.

Definition parseKeyRecord (encoded : option json) (uid : string) : option (list Z * list Z) :=
  match record_fields encoded with
  | None => None
  | Some record =>
    match field "uid" record, field "signing_key" record, field "encryption_key" record with
    | Some (JStr u), Some (JStr sk), Some (JStr ek) =>
      if bool_decide (u = uid) then
        match atob sk, atob ek, fromBase64 (or_empty (field "signature" record)) with
        | Some signingKey, Some encryptionKey, Some signature =>
          if (Z.of_nat (length signingKey) =? 32) && (Z.of_nat (length encryptionKey) =? 32) && (Z.of_nat (length signature) =? 64) &&
             verify_detached nc (record_message uid signingKey encryptionKey) signature signingKey
          then Some (signingKey, encryptionKey) else None
        | _, _, _ => None
        end
      else None
    | _, _, _ => None
    end
  end.

Definition record_json (uid : string) (signingKey xPublic signature : list Z) : json :=
  JObj [("uid", JStr uid); ("signing_key", JStr (toBase64 signingKey)); ("encryption_key", JStr (toBase64 xPublic));
        ("signature", JStr (toBase64 signature))]%string.

Definition signKeyRecord (uid : string) (xPublic edSecret : list Z) : string :=
  let signingKey := take 32 (drop 32 edSecret) in
  let signature := sign_detached nc (record_message uid signingKey xPublic) edSecret in
  (RECORD_PREFIX +:+ toBase64 (stringify (record_json uid signingKey xPublic signature)))%string.

(** ** The listing of an account *)

Definition device_entry (d : json) : option trusted_device :=
  match field "ed25519_public_key" d, field "x25519_public_key" d with
  | Some (JStr pem), Some (JStr x) =>
    if (utf16_length pem <=? 256) && (utf16_length x =? 44) then
      match atob x, ed25519FromPEM pem with
      | Some x25519, Some signingKey =>
        if negb (truthy (field "revoked_at" d)) && bool_decide (toBase64 x25519 = x) &&
           validSigning cv (raw_key signingKey) && validCurve cv (raw_key x25519)
        then Some (Device (str_of (field "device_id" d)) (field "kind" d) signingKey x25519 (toBase64 x25519) (truthy (field "first_device" d)))
        else None
      | _, _ => None
      end
    else None
  | _, _ => None
  end.

Definition put_entry (d : json) (valid : list (string * trusted_device)) : list (string * trusted_device) :=
  match device_entry d with Some v => OMap.set (str_of (field "device_id" d)) v valid | None => valid end.

(** One pass over the listing: every device has an ID of its own, at most one is
    the first device; the valid ones are kept. *)
Fixpoint scan_devices (l : list json) (byID : list string) (first : option json) (valid : list (string * trusted_device))
    : option (option json * list (string * trusted_device)) :=
  match l with
  | [] => Some (first, valid)
  | d :: rest =>
    if negb (truthy (Some d)) || negb (key_text (field "device_id" d)) || bool_decide (str_of (field "device_id" d) ∈ byID) then None
    else
      let byID := str_of (field "device_id" d) :: byID in
      if truthy (field "first_device" d) then
        match first with
        | Some _ => None
        | None => scan_devices rest byID (Some d) (put_entry d valid)
        end
      else scan_devices rest byID first (put_entry d valid)
  end.

(** [trusted.has(v)] of a value that need not be a text. *)
Definition is_member (v : option json) (s : list string) : bool := match v with Some (JStr t) => bool_decide (t ∈ s) | _ => false end.

(** The approval of a valid device, under the key of its (trusted) approver. *)
Definition approved (principal : string) (valid : list (string * trusted_device)) (d : json) : bool :=
  match fromBase64 (or_empty (field "approval_signature" d)), OMap.get (str_of (field "approved_by" d)) valid with
  | Some signature, Some approver =>
    (Z.of_nat (length signature) =? 64) && is_text (field "approval_signature" d) (toBase64 signature) &&
    verifySignature cv signature
      (approvalTranscript principal (str_of (field "approved_by" d)) (str_of (field "ed25519_public_key" d)) (str_of (field "x25519_public_key" d)))
      (d_signing approver)
  | _, _ => false
  end.

(** One round over the listing, and whether it added a device. *)
Fixpoint trust_round (principal : string) (valid : list (string * trusted_device)) (l : list json) (trusted : list string) (changed : bool)
    : list string * bool :=
  match l with
  | [] => (trusted, changed)
  | d :: rest =>
    let id := str_of (field "device_id" d) in
    if bool_decide (id ∈ trusted) || negb (is_member (field "approved_by" d) trusted) || negb (OMap.has id valid)
    then trust_round principal valid rest trusted changed
    else if approved principal valid d then trust_round principal valid rest (trusted ++ [id]) true
    else trust_round principal valid rest trusted changed
  end.

(** Rounds until nothing changes; each adds a device, so one more round than
    there are devices is enough ([trust_rounds_closed]). *)
Fixpoint trust_rounds (principal : string) (valid : list (string * trusted_device)) (fuel : nat) (l : list json) (trusted : list string) : list string :=
  match fuel with
  | O => trusted
  | S n => let '(t, changed) := trust_round principal valid l trusted false in
           if changed then trust_rounds principal valid n l t else t
  end.

Definition trustedDevices (principal : string) (devices : option json) (pinned encryptionKey : option (list Z)) : list trusted_device :=
  match encryptionKey with
  | None => []
  | Some enc =>
    if key_text (Some (JStr principal)) && is_array devices && (count devices <=? 64) then
      match scan_devices (items devices) [] None [] with
      | None | Some (None, _) => []
      | Some (Some first, valid) =>
        let id := str_of (field "device_id" first) in
        match OMap.get id valid with
        | None => []
        | Some root =>
          if bool_decide (Some (d_signing root) = pinned) && bool_decide (d_x25519 root = enc) then
            let trusted := trust_rounds principal valid (S (length (items devices))) (items devices) [id] in
            root :: omap (fun d => OMap.get (str_of (field "device_id" d)) valid)
              (filter (fun d => negb (bool_decide (str_of (field "device_id" d) = id)) && bool_decide (str_of (field "device_id" d) ∈ trusted) = true) (items devices))
          else []
        end
      end
    else []
  end.

(** ** [olm-directory.js] *)

(** [/^(?:[0-9a-fA-F]{2}:){31}[0-9a-fA-F]{2}$/] and [/^[0-9a-fA-F]{64}$/]. *)
Definition is_hex (c : Z) : bool := is_hex_lower c || ((65 <=? c) && (c <=? 70)).
Fixpoint hex_pairs (l : list Z) : bool :=
  match l with
  | [a; b] => is_hex a && is_hex b
  | a :: b :: c :: r => is_hex a && is_hex b && (c =? 58) && hex_pairs r
  | _ => false
  end.
Definition lower (c : Z) : Z := if (65 <=? c) && (c <=? 90) then c + 32 else c.

Definition serverBinding (fingerprint : option json) : option string :=
  match fingerprint with
  | Some (JStr s) =>
    let l := bytes_of s in
    let f := if (Z.of_nat (length l) =? 95) && hex_pairs l then filter (fun c => c <> 58) l else l in
    if (Z.of_nat (length f) =? 64) && forallb is_hex f then Some ("tls-sha256:" +:+ text (map lower f))%string else None
  | _ => None
  end.

Definition signBundle (bundle : json) (noxaSecret : list Z) : result string json :=
  let! t := bundleTranscript cv bundle in
  Ok (jset "signature" (JStr (toBase64 (sign_detached nc t noxaSecret))) bundle).

Definition signReset (r : json) (secret : list Z) : result string json :=
  let! t := resetTranscript cv r in
  Ok (jset "signature" (JStr (toBase64 (sign_detached nc t secret))) r).

(** What a claim is checked against. *)
Record claim_check := ClaimCheck {
  cc_server : string; cc_principal : string; cc_device : string; cc_pinned : string; cc_epoch : Z; cc_until : Z; cc_key : option json;
  cc_root : option (list Z); cc_encryption : option (list Z); cc_devices : option json; cc_now : Z
}.

Definition claim_in_time (b : json) (c : claim_check) : bool :=
  if cc_until c =? 0 then cc_now c <? num_or 0 (field "expires_at" b)
  else is_safe_integer (cc_until c) && (cc_now c <? cc_until c) && (cc_until c <=? num_or 0 (field "expires_at" b) + 3600).

Definition verifyOlmClaim (bundle : json) (c : claim_check) : result string json :=
  guard! is_safe_integer (cc_now c) && (1 <=? cc_now c) else "invalid verification time" in
  match List.find (fun d => bool_decide (deviceID d = cc_device c)) (trustedDevices (cc_principal c) (cc_devices c) (cc_root c) (cc_encryption c)) with
  | None => Err "untrusted device directory"%string
  | Some device =>
    let! t := bundleTranscript cv bundle in
    match fromBase64 (field "signature" bundle) with
    | None => Err "invalid signature"%string
    | Some signature =>
      guard! (Z.of_nat (length signature) =? 64) && is_text (field "signature" bundle) (toBase64 signature) &&
        is_text (field "server" bundle) (cc_server c) && is_text (field "principal" bundle) (cc_principal c) &&
        is_text (field "device_id" bundle) (cc_device c) && (num_or 0 (field "issued_at" bundle) <=? cc_now c + 300) &&
        claim_in_time bundle c && ((cc_epoch c =? 0) || bool_decide (field "account_epoch" bundle = Some (JNum (cc_epoch c)))) &&
        verifySignature cv signature t (d_signing device) else "invalid Olm bundle" in
      guard! bool_decide (cc_pinned c = ""%string) || is_text (field "identity" bundle) (cc_pinned c)
        else "Olm account identity changed; explicit approval required" in
      match List.find (fun k => strict_eq (field "id" k) (cc_key c)) (items (field "one_time_keys" bundle)) with
      | Some k => Ok k
      | None => Err "unlisted one-time key"%string
      end
    end
  end.
End trust.

(** ** The reference: who is vouched for

    The first device is vouched for when it holds the pinned key and the
    authenticated encryption key; any other valid device by a signature of a device
    that is vouched for, over the approval of exactly these keys. *)

Definition dev_id (d : json) : string := str_of (field "device_id" d).
Definition is_first (d : json) : bool := truthy (field "first_device" d).

(** A device of the listing that could be trusted: not revoked, with canonical
    texts of valid keys. *)
Record valid_entry (cv : curves) (d : json) (v : trusted_device) : Prop := {
  ve_signing : exists pem, field "ed25519_public_key" d = Some (JStr pem) /\ utf16_length pem <= 256 /\ ed25519FromPEM pem = Some (d_signing v);
  ve_x25519 : field "x25519_public_key" d = Some (JStr (x25519B64 v)) /\ utf16_length (x25519B64 v) = 44 /\
    atob (x25519B64 v) = Some (d_x25519 v) /\ toBase64 (d_x25519 v) = x25519B64 v;
  ve_live : truthy (field "revoked_at" d) = false;
  ve_keys : validSigning cv (raw_key (d_signing v)) = true /\ validCurve cv (raw_key (d_x25519 v)) = true;
  ve_rest : deviceID v = dev_id d /\ d_kind v = field "kind" d /\ d_first v = is_first d
}.

Lemma entry_valid cv d v : device_entry cv d = Some v <-> valid_entry cv d v.
Proof.
  unfold device_entry. split.
  - destruct (field "ed25519_public_key" d) as [[| | |pem| |]|] eqn:Ep; try done. destruct (field "x25519_public_key" d) as [[| | |x| |]|] eqn:Ex; try done.
    destruct (_ && _) eqn:El; [|done]. rewrite andb_true_iff, Z.leb_le, Z.eqb_eq in El. destruct El as [El Ex44].
    destruct (atob x) as [raw|] eqn:Ea; [|done]. destruct (ed25519FromPEM pem) as [key|] eqn:Ek; [|done].
    destruct (negb _ && _ && _ && _) eqn:E; [|done]. rewrite !andb_true_iff, negb_true_iff, bool_decide_eq_true in E. destruct E as [[[E1 E2] E3] E4].
    intros [= <-]. subst x. split; cbn [d_signing d_x25519 x25519B64 deviceID d_kind d_first]; [by exists pem|by split_and!|done|by split|by split_and!].
  - intros [(pem & Ep & El & Ek) (Ex & Ex44 & Ea & Eb) Er [Es Ec] (E1 & E2 & E3)]. rewrite Ep, Ex, Ea, Ek, Er, Es, Ec.
    rewrite (proj2 (Z.leb_le _ _) El), (proj2 (Z.eqb_eq _ _) Ex44), bool_decide_true by done. cbn [negb andb]. destruct v. cbn in *. by subst.
Qed.

Section reference.
Variable cv : curves.
Variable principal : string.
Variable devices : list json.
Variables pin enc : list Z.

(** [a]'s key signed the approval of [d]. *)
Definition signed_by (a : trusted_device) (d : json) : Prop :=
  exists signature, fromBase64 (field "approval_signature" d) = Some signature /\ length signature = 64%nat /\
    field "approval_signature" d = Some (JStr (toBase64 signature)) /\ field "approved_by" d = Some (JStr (deviceID a)) /\
    verifySignature cv signature
      (approvalTranscript principal (deviceID a) (str_of (field "ed25519_public_key" d)) (str_of (field "x25519_public_key" d))) (d_signing a) = true.

Inductive vouched : trusted_device -> Prop :=
| vouched_first d v :
    d ∈ devices -> is_first d = true -> valid_entry cv d v -> d_signing v = pin -> d_x25519 v = enc -> vouched v
| vouched_by a d v :
    vouched a -> d ∈ devices -> valid_entry cv d v -> signed_by a d -> vouched v.

(** A listing that is read at all. *)
Record listing : Prop := {
  ls_principal : key_text (Some (JStr principal)) = true;
  ls_count : Z.of_nat (length devices) <= 64;
  ls_devices : Forall (fun d => truthy (Some d) = true /\ key_text (field "device_id" d) = true) devices;
  ls_ids : NoDup (map dev_id devices);
  ls_first : (length (filter (fun d => is_first d = true) devices) <= 1)%nat
}.

(** Its first device is valid and holds the pinned keys. *)
Definition rooted : Prop :=
  exists d v, d ∈ devices /\ is_first d = true /\ valid_entry cv d v /\ d_signing v = pin /\ d_x25519 v = enc.
End reference.

(** ** The scan *)

Section scan.
Variable cv : curves.
#[local] Abbreviation device_entry := (device_entry cv).
#[local] Abbreviation put_entry := (put_entry cv).

Definition firsts (l : list json) : list json := filter (fun d => is_first d = true) l.
Definition dev_ok (d : json) : Prop := truthy (Some d) = true /\ key_text (field "device_id" d) = true.
Definition entries (l : list json) (valid : list (string * trusted_device)) : list (string * trusted_device) :=
  foldl (fun m d => put_entry d m) valid l.
Definition readable (l : list json) (byID : list string) (first : option json) : Prop :=
  Forall dev_ok l /\ NoDup (map dev_id l) /\ (forall id, id ∈ map dev_id l -> id ∉ byID) /\ (length (option_list first ++ firsts l) <= 1)%nat.

Lemma readable_cons d l byID first : readable (d :: l) byID first <->
  dev_ok d /\ dev_id d ∉ byID /\ (is_first d = true -> first = None) /\ readable l (dev_id d :: byID) (if is_first d then Some d else first).
Proof.
  unfold readable, firsts. rewrite Forall_cons, map_cons, NoDup_cons, filter_cons. setoid_rewrite elem_of_cons. split.
  - intros ([Hd Hl] & [Hn Hnd] & Hb & Hf). split_and!; try done.
    + apply Hb. by left.
    + intros Hi. rewrite decide_True in Hf by done. destruct first; [cbn in Hf; lia|done].
    + intros id Hid [->|Hin]; [done|]. by apply (Hb id); [right|].
    + destruct (is_first d); [|done]. rewrite decide_True in Hf by done. destruct first; cbn in Hf |- *; lia.
  - intros (Hd & Hb & Hi & Hl & Hnd & Hb' & Hf). split_and!; try done.
    + intros Hin. apply (Hb' _ Hin). by left.
    + intros id [->|Hin]; [done|]. intros H. apply (Hb' _ Hin). by right.
    + destruct (is_first d); [rewrite decide_True by done|by rewrite decide_False]. by rewrite (Hi eq_refl).
Qed.

Lemma scan_spec l byID first valid :
  match scan_devices cv l byID first valid with
  | Some (f, v) => readable l byID first /\ f = head (option_list first ++ firsts l) /\ v = entries l valid
  | None => ~ readable l byID first
  end.
Proof.
  revert byID first valid. induction l as [|d l IH]; intros byID first valid; cbn [scan_devices].
  - unfold readable, firsts, entries. cbn. split_and!; [constructor|constructor|by intros ? ?%elem_of_nil|by destruct first; cbn; lia|by destruct first|done].
  - fold (dev_id d). destruct (_ || _ || _) eqn:E.
    { rewrite readable_cons. intros ([H1 H2] & H3 & _). rewrite !orb_true_iff, !negb_true_iff, bool_decide_eq_true in E.
      destruct E as [[E|E]|E]; congruence. }
    rewrite !orb_false_iff, !negb_false_iff, bool_decide_eq_false in E. destruct E as [[E1 E2] E3]. fold (is_first d).
    assert (Hent : entries (d :: l) valid = entries l (put_entry d valid)) by done. destruct (is_first d) eqn:Ef.
    + assert (Hfs : firsts (d :: l) = d :: firsts l) by (unfold firsts; by rewrite filter_cons_True).
      destruct first as [f|].
      { rewrite readable_cons. intros (_ & _ & Hf & _). by specialize (Hf Ef). }
      specialize (IH (dev_id d :: byID) (Some d) (put_entry d valid)). destruct (scan_devices _ _ _ _ _) as [[f v]|].
      * destruct IH as (H1 & H2 & H3). rewrite readable_cons, Ef, Hfs, Hent. by split_and!.
      * rewrite readable_cons, Ef. tauto.
    + assert (Hfs : firsts (d :: l) = firsts l) by (unfold firsts; rewrite filter_cons_False; congruence).
      specialize (IH (dev_id d :: byID) first (put_entry d valid)). destruct (scan_devices _ _ _ _ _) as [[f v]|].
      * destruct IH as (H1 & H2 & H3). rewrite readable_cons, Ef, Hfs, Hent. by split_and!.
      * rewrite readable_cons, Ef. tauto.
Qed.

Lemma entry_id d v : device_entry d = Some v -> deviceID v = dev_id d.
Proof.
  unfold DeviceTrust.device_entry. destruct (field "ed25519_public_key" d) as [[]|]; try done. destruct (field "x25519_public_key" d) as [[]|]; try done.
  destruct (_ && _); [|done]. destruct (atob _); [|done]. destruct (ed25519FromPEM _); [|done]. destruct (_ && _); [|done]. by intros [= <-].
Qed.

(** The keys of an entry are those of the listing. *)
Lemma entry_keys d v : device_entry d = Some v ->
  str_of (field "x25519_public_key" d) = toBase64 (d_x25519 v) /\ all_bytes (d_x25519 v) = true /\
  ed25519FromPEM (str_of (field "ed25519_public_key" d)) = Some (d_signing v).
Proof.
  unfold DeviceTrust.device_entry. destruct (field "ed25519_public_key" d) as [[| | |pem| |]|]; try done.
  destruct (field "x25519_public_key" d) as [[| | |x| |]|]; try done.
  destruct (_ && _); [|done]. destruct (atob x) as [raw|] eqn:Ex; [|done]. destruct (ed25519FromPEM pem) as [key|] eqn:Ek; [|done].
  destruct (negb _ && _ && _ && _) eqn:E; [|done]. rewrite !andb_true_iff, bool_decide_eq_true in E. destruct E as [[[_ E] _] _].
  intros [= <-]. cbn [str_of d_x25519 d_signing]. by pose proof (atob_bytes _ _ Ex).
Qed.

Lemma get_entries_other l valid id : id ∉ map dev_id l -> OMap.get id (entries l valid) = OMap.get id valid.
Proof.
  revert valid. induction l as [|d l IH]; intros valid; [done|]. rewrite map_cons, not_elem_of_cons. intros [Hd Hl].
  cbn [entries foldl]. fold (entries l (put_entry d valid)). rewrite IH by done. unfold DeviceTrust.put_entry. fold (dev_id d).
  destruct (device_entry d); [|done]. by apply OMap.get_set_ne.
Qed.

Lemma get_entries l d : NoDup (map dev_id l) -> d ∈ l -> OMap.get (dev_id d) (entries l []) = device_entry d.
Proof.
  assert (forall valid, OMap.get (dev_id d) valid = None -> NoDup (map dev_id l) -> d ∈ l -> OMap.get (dev_id d) (entries l valid) = device_entry d) as H.
  2: { by apply H. }
  induction l as [|e l IH]; intros valid Hv; [by intros _ ?%elem_of_nil|]. rewrite map_cons, NoDup_cons, elem_of_cons. intros [He Hnd] Hd.
  cbn [entries foldl]. fold (entries l (put_entry e valid)). destruct Hd as [<-|Hd].
  - rewrite get_entries_other by done. unfold DeviceTrust.put_entry. fold (dev_id d). destruct (device_entry d) eqn:E; [|done]. by rewrite OMap.get_set_eq.
  - apply IH; [|done|done]. unfold DeviceTrust.put_entry. fold (dev_id e). destruct (device_entry e); [|done]. rewrite OMap.get_set_ne; [done|].
    intros Heq. apply He. rewrite <- Heq. by apply list_elem_of_fmap_2.
Qed.
End scan.

(** ** The rounds reach the least set that is closed under approval *)

Section rounds.
Variable cv : curves.
Variable principal : string.
Variable valid : list (string * trusted_device).
#[local] Abbreviation approved := (approved cv principal valid).
#[local] Abbreviation trust_round := (trust_round cv principal valid).
#[local] Abbreviation trust_rounds := (trust_rounds cv principal valid).

(** A device that the set [t] would add. *)
Definition addable (t : list string) (d : json) : Prop :=
  is_member (field "approved_by" d) t = true /\ OMap.has (dev_id d) valid = true /\ approved d = true.
Definition closed (l : list json) (t : list string) : Prop := forall d, d ∈ l -> addable t d -> dev_id d ∈ t.

Lemma trust_round_spec l t changed :
  let '(t', changed') := trust_round l t changed in
  (exists new, t' = t ++ new /\ (changed' = false -> new = [] /\ closed l t) /\ (changed = false -> changed' = true -> new <> [])) /\
  (NoDup t -> NoDup t') /\ (forall id, id ∈ t' -> id ∈ t \/ id ∈ map dev_id l) /\ (changed = true -> changed' = true) /\
  (forall P : string -> Prop, (forall t d, d ∈ l -> Forall P t -> addable t d -> P (dev_id d)) -> Forall P t -> Forall P t').
Proof.
  revert t changed. induction l as [|d l IH]; intros t changed; cbn [DeviceTrust.trust_round].
  - split_and!; try done; [|auto]. exists []. rewrite app_nil_r. split_and!; [done|split; [done|by intros ? ?%elem_of_nil]|congruence].
  - cbv zeta. fold (dev_id d). destruct (_ || _ || _) eqn:Eskip.
    + specialize (IH t changed). destruct (trust_round l t changed) as [t' changed']. destruct IH as ((new & -> & Hn & Hc) & Hnd & Hin & Hch & HP).
      split_and!; [|done| |done|].
      * exists new. split_and!; [done| |done]. intros Hf. destruct (Hn Hf) as [-> Hcl]. split; [done|]. intros e [->|He]%elem_of_cons Ha; [|by apply Hcl].
        destruct Ha as (H1 & H2 & _). rewrite !orb_true_iff, !negb_true_iff, bool_decide_eq_true in Eskip. destruct Eskip as [[?|?]|?]; [done|congruence..].
      * intros id Hid. rewrite map_cons, elem_of_cons. destruct (Hin id Hid); auto.
      * intros P HPl. apply HP. intros t0 e He. apply HPl. by right.
    + rewrite !orb_false_iff, !negb_false_iff, bool_decide_eq_false in Eskip. destruct Eskip as [[E1 E2] E3]. destruct (approved d) eqn:Ea.
      * specialize (IH (t ++ [dev_id d]) true). destruct (trust_round l (t ++ [dev_id d]) true) as [t' changed'].
        destruct IH as ((new & -> & Hn & Hc) & Hnd & Hin & Hch & HP). specialize (Hch eq_refl). subst changed'. split_and!; [|..|done|].
        -- exists (dev_id d :: new). split_and!; [by rewrite <- app_assoc|done|done].
        -- intros Ht. apply Hnd, NoDup_app. split_and!; [done| |apply NoDup_singleton]. by intros x Hx ->%list_elem_of_singleton.
        -- intros id Hid. rewrite map_cons, elem_of_cons. destruct (Hin id Hid) as [[?|?%list_elem_of_singleton]%elem_of_app|?]; auto.
        -- intros P HPl HPt. apply HP; [intros t0 e He; apply HPl; by right|]. apply Forall_app. split; [done|]. constructor; [|constructor].
           by apply (HPl t); [left| |].
      * specialize (IH t changed). destruct (trust_round l t changed) as [t' changed']. destruct IH as ((new & -> & Hn & Hc) & Hnd & Hin & Hch & HP).
        split_and!; [|done| |done|].
        -- exists new. split_and!; [done| |done]. intros Hf. destruct (Hn Hf) as [-> Hcl]. split; [done|]. intros e [->|He]%elem_of_cons Ha; [|by apply Hcl].
           destruct Ha as (_ & _ & H3). congruence.
        -- intros id Hid. rewrite map_cons, elem_of_cons. destruct (Hin id Hid); auto.
        -- intros P HPl. apply HP. intros t0 e He. apply HPl. by right.
Qed.

(** Each round that changes something adds a device of the listing: [S (length l)]
    rounds end, in a closed set. *)
Lemma trust_rounds_closed l fuel t : NoDup t -> t ⊆ map dev_id l -> (length l < fuel + length t)%nat ->
  closed l (trust_rounds fuel l t) /\ t ⊆ trust_rounds fuel l t.
Proof.
  revert t. induction fuel as [|n IH]; intros t Hnd Hsub Hf.
  { exfalso. assert (length t <= length (map dev_id l))%nat by (by apply submseteq_length, NoDup_submseteq). rewrite length_map in *. lia. }
  cbn [DeviceTrust.trust_rounds]. pose proof (trust_round_spec l t false) as H. destruct (trust_round l t false) as [t' changed'].
  destruct H as ((new & -> & Hn & Hc) & Hnd' & Hin & _ & _). destruct changed'.
  - destruct (IH (t ++ new)) as [H1 H2]; [auto|intros id Hid; destruct (Hin id Hid); auto| |].
    + specialize (Hc eq_refl eq_refl). rewrite length_app. destruct new; [done|cbn; lia].
    + split; [done|]. intros id Hid. apply H2, elem_of_app. by left.
  - destruct (Hn eq_refl) as [-> Hcl]. by rewrite app_nil_r.
Qed.

Lemma trust_rounds_sound l (P : string -> Prop) fuel t :
  (forall t d, d ∈ l -> Forall P t -> addable t d -> P (dev_id d)) -> Forall P t -> Forall P (trust_rounds fuel l t).
Proof.
  intros HP. revert t. induction fuel as [|n IH]; intros t Ht; [done|]. cbn [DeviceTrust.trust_rounds].
  pose proof (trust_round_spec l t false) as H. destruct (trust_round l t false) as [t' changed']. destruct H as (_ & _ & _ & _ & H).
  destruct changed'; [apply IH|]; by apply H.
Qed.
End rounds.

Section exact.
Variable cv : curves.
Variable principal : string.
Variable l : list json.
Variables pin enc : list Z.
#[local] Abbreviation vouched := (vouched cv principal l pin enc).
#[local] Abbreviation valid := (entries cv l []).

Lemma same_id d e : NoDup (map dev_id l) -> d ∈ l -> e ∈ l -> dev_id d = dev_id e -> d = e.
Proof.
  intros Hnd [i Hi]%list_elem_of_lookup [j Hj]%list_elem_of_lookup E. assert (i = j) as ->; [|congruence].
  eapply (NoDup_lookup (map dev_id l)); [done|by rewrite list_lookup_fmap, Hi|by rewrite list_lookup_fmap, Hj, E].
Qed.

Lemma has_entry d : NoDup (map dev_id l) -> d ∈ l -> OMap.has (dev_id d) valid = true <-> is_Some (device_entry cv d).
Proof.
  intros Hnd Hd. unfold OMap.has. rewrite get_entries by done. destruct (device_entry cv d); [naive_solver|].
  split; [done|]. by intros [? ?].
Qed.

(** An approval that the code accepts is one signed by the approver's key. *)
Lemma approved_signed t a d : NoDup (map dev_id l) -> d ∈ l -> addable cv principal valid t d ->
  (forall id, id ∈ t -> exists e v, e ∈ l /\ dev_id e = id /\ device_entry cv e = Some v /\ a v) ->
  exists v w, device_entry cv d = Some w /\ a v /\ signed_by cv principal v d.
Proof.
  intros Hnd Hd (Hm & Hh & Ha) Ht. apply has_entry in Hh as [w Hw]; [|done..]. unfold is_member in Hm.
  destruct (field "approved_by" d) as [[| | |id| |]|] eqn:Eid; try done. apply bool_decide_eq_true in Hm.
  destruct (Ht id Hm) as (e & v & He & <- & Hv & Hav). exists v, w. split_and!; [done..|]. unfold approved in Ha. rewrite Eid in Ha. cbn [str_of] in Ha.
  rewrite get_entries, Hv in Ha by done. destruct (fromBase64 _) as [signature|] eqn:Es; [|done]. rewrite !andb_true_iff in Ha. destruct Ha as [[H1 H2] H3].
  apply Z.eqb_eq in H1. apply bool_decide_eq_true in H2. rewrite H2 in Es. exists signature. rewrite (entry_id cv e v Hv). split_and!; [|lia|done|done|done].
  rewrite H2. unfold or_empty in Es. destruct (truthy _) eqn:Et; [done|]. cbn in Es. injection Es as <-. done.
Qed.

Lemma signed_approved t a d : NoDup (map dev_id l) -> d ∈ l -> is_Some (device_entry cv d) -> deviceID a ∈ t ->
  (exists e, e ∈ l /\ device_entry cv e = Some a) -> signed_by cv principal a d -> addable cv principal valid t d.
Proof.
  intros Hnd Hd Hv Ht (e & He & Ha) (signature & H1 & H2 & H3 & H4 & H5). split_and!.
  - unfold is_member. rewrite H4. by apply bool_decide_eq_true.
  - by apply has_entry.
  - unfold approved. rewrite H4. cbn [str_of]. rewrite (entry_id cv e a Ha), get_entries, Ha by done.
    assert (or_empty (field "approval_signature" d) = field "approval_signature" d) as ->.
    { unfold or_empty. rewrite H3 in H1 |- *. cbn [truthy]. destruct (bool_decide (toBase64 signature = ""%string)) eqn:E; [|done].
      apply bool_decide_eq_true in E. rewrite E in H1. cbn in H1. injection H1 as <-. done. }
    rewrite H1, H3. unfold is_text. rewrite bool_decide_true by done. rewrite (entry_id cv e a Ha) in H5. rewrite H5, H2. done.
Qed.

Lemma first_of d : (length (firsts l) <= 1)%nat -> d ∈ l -> is_first d = true -> head (firsts l) = Some d.
Proof.
  intros Hl Hd Hf. assert (d ∈ firsts l) as Hin by (by apply list_elem_of_filter). destruct (firsts l) as [|e [|]]; [by apply elem_of_nil in Hin| |cbn in Hl; lia].
  by apply list_elem_of_singleton in Hin as ->.
Qed.

#[local] Abbreviation final first := (trust_rounds cv principal valid (S (length l)) l [dev_id first]).

(** The final set is the devices that are vouched for. *)
Lemma final_vouched first root : NoDup (map dev_id l) -> (length (firsts l) <= 1)%nat -> first ∈ l -> is_first first = true ->
  device_entry cv first = Some root -> d_signing root = pin -> d_x25519 root = enc ->
  forall d v, d ∈ l -> device_entry cv d = Some v -> dev_id d ∈ final first <-> vouched v.
Proof.
  intros Hnd Hone Hin Hf Hr Hp He.
  assert (Hsound : Forall (fun id => exists e v, e ∈ l /\ dev_id e = id /\ device_entry cv e = Some v /\ vouched v) (final first)).
  { apply trust_rounds_sound.
    - intros t d Hd Ht Ha. destruct (approved_signed t vouched d Hnd Hd Ha) as (v & w & Hw & Hv & Hs).
      { intros id Hid. rewrite Forall_forall in Ht. by apply Ht. }
      exists d, w. split_and!; [done..|]. apply entry_valid in Hw. by apply (vouched_by _ _ _ _ _ v d).
    - constructor; [|constructor]. exists first, root. split_and!; [done..|]. apply entry_valid in Hr. by apply (vouched_first _ _ _ _ _ first). }
  destruct (trust_rounds_closed cv principal valid l (S (length l)) [dev_id first]) as [Hcl Hsub].
  { apply NoDup_singleton. } { intros id ->%list_elem_of_singleton. by apply list_elem_of_fmap_2. } { cbn. lia. }
  assert (Hcomplete : forall v, vouched v -> exists d, d ∈ l /\ device_entry cv d = Some v /\ dev_id d ∈ final first).
  { induction 1 as [d v Hd Hfd Hv _ _|a d v _ (e & He' & Ha & Hea) Hd Hv Hs]; apply entry_valid in Hv.
    - exists d. split_and!; [done..|]. apply Hsub. pose proof (first_of d Hone Hd Hfd) as H1. pose proof (first_of first Hone Hin Hf) as H2.
      assert (d = first) as -> by congruence. by apply list_elem_of_singleton.
    - exists d. split_and!; [done..|]. apply Hcl; [done|]. apply (signed_approved _ a); [done..|by eexists| |by exists e|done].
      by rewrite (entry_id cv e a Ha). }
  intros d v Hd Hv. split.
  - intros Hid. rewrite Forall_forall in Hsound. destruct (Hsound _ Hid) as (e & w & He' & Hie & Hw & Hvo).
    assert (e = d) as -> by (by apply same_id). congruence.
  - intros Hvo. destruct (Hcomplete v Hvo) as (e & He' & Hw & Hie). rewrite <- (entry_id cv d v Hv), (entry_id cv e v Hw). done.
Qed.
End exact.

Lemma NoDup_map_filter {A B} (f : A -> B) (P : A -> Prop) `{!forall x, Decision (P x)} (l : list A) : NoDup (map f l) -> NoDup (map f (filter P l)).
Proof.
  induction l as [|x l IH]; [done|]. rewrite map_cons, NoDup_cons, filter_cons. intros [Hx Hl]. case_decide; [|auto].
  rewrite map_cons, NoDup_cons. split; [|auto]. intros (y & E & [_ Hy]%list_elem_of_filter)%list_elem_of_fmap. apply Hx. rewrite E. by apply list_elem_of_fmap_2.
Qed.

(** The entries of some of the devices, in order, have IDs of their own. *)
Lemma ids_once cv l k : NoDup (map dev_id l) -> k ⊆ l -> NoDup (map dev_id k) ->
  NoDup (map deviceID (omap (fun d => OMap.get (str_of (field "device_id" d)) (entries cv l [])) k)).
Proof.
  intros Hl. induction k as [|d k IH]; intros Hsub; [intros _; constructor|]. rewrite map_cons, NoDup_cons. intros [Hd Hk]. cbn [omap list_omap].
  fold (dev_id d). rewrite get_entries by (try done; apply Hsub; by left). specialize (IH ltac:(intros x Hx; apply Hsub; by right) Hk).
  destruct (device_entry cv d) as [v|] eqn:Ev; [|done]. rewrite map_cons, NoDup_cons. split; [|done]. rewrite (entry_id cv d v Ev).
  intros (w & E & (e & He & Hw)%list_elem_of_omap)%list_elem_of_fmap. fold (dev_id e) in Hw. rewrite get_entries in Hw by (try done; apply Hsub; by right).
  rewrite (entry_id cv e w Hw) in E. apply Hd. rewrite E. by apply list_elem_of_fmap_2.
Qed.

(** C6: the devices that [trustedDevices] returns are exactly the devices that a
    chain of signatures from the pinned account key vouches for, and each once.
    For a readable listing whose first device is valid and holds the pinned signing
    key and the authenticated encryption key, a device is returned if and only if
    it is that first device, or carries an approval of exactly its keys signed by
    a returned device; for any other listing nothing is returned. *)
Theorem trusted_devices_exact cv principal l pin enc :
  let out := trustedDevices cv principal (Some (JArr l)) (Some pin) (Some enc) in
  (listing principal l /\ rooted cv l pin enc -> forall v, v ∈ out <-> vouched cv principal l pin enc v) /\
  (~ (listing principal l /\ rooted cv l pin enc) -> out = []) /\
  NoDup (map deviceID out).
Proof.
  cbv zeta. unfold trustedDevices, count. cbn [is_array items].
  destruct (key_text _ && _ && _) eqn:Eg.
  2: { split_and!; [|done|constructor]. intros [[H1 H2 _ _ _] _]. rewrite H1 in Eg. apply Z.leb_gt in Eg. lia. }
  rewrite !andb_true_iff in Eg. destruct Eg as [[Hp _] Hc%Z.leb_le]. pose proof (scan_spec cv l [] None []) as Hscan.
  assert (Hiff : readable l [] None <-> listing principal l).
  { unfold readable, firsts. cbn [option_list option_rect app]. split; [intros (H1 & H2 & _ & H4); constructor; [exact Hp|exact Hc|exact H1|exact H2|exact H4]|]. intros [_ _ H1 H2 H3]. split_and!; try done.
    by intros id _ ?%elem_of_nil. }
  destruct (scan_devices cv l [] None []) as [[f valid]|].
  2: { split_and!; [|done|constructor]. by intros [H%Hiff _]. }
  destruct Hscan as (Hread & Hf & ->). pose proof Hread as [H1 (Hnd & _ & Hone)]. cbn [option_list option_rect app] in Hf, Hone. destruct f as [first|].
  2: { split_and!; [|done|constructor]. intros [_ (d & v & Hd & Hfd & _)]. rewrite (first_of l d) in Hf by done. done. }
  assert (Hfirst : first ∈ l /\ is_first first = true).
  { assert (first ∈ firsts l) as Hin by (destruct (firsts l); [done|injection Hf as ->; by left]). by apply list_elem_of_filter in Hin as [? ?]. }
  destruct Hfirst as [Hin Hff]. fold (dev_id first). rewrite get_entries by done.
  assert (Hroot : forall d v, d ∈ l -> is_first d = true -> device_entry cv d = Some v -> device_entry cv first = Some v).
  { intros d v Hd Hfd Hv. rewrite (first_of l d) in Hf by done. congruence. }
  destruct (device_entry cv first) as [root|] eqn:Hr.
  2: { split_and!; [|done|constructor]. intros [_ (d & v & Hd & Hfd & Hv%entry_valid & _)]. by specialize (Hroot d v Hd Hfd Hv). }
  destruct (bool_decide _ && bool_decide _) eqn:Ek.
  2: { split_and!; [|done|constructor]. intros [_ (d & v & Hd & Hfd & Hv%entry_valid & Hs & Hx)]. specialize (Hroot d v Hd Hfd Hv). injection Hroot as ->.
       rewrite !bool_decide_true in Ek by congruence. done. }
  rewrite andb_true_iff, !bool_decide_eq_true in Ek. destruct Ek as [[= Hs] Hx].
  pose proof (final_vouched cv principal l pin enc first root Hnd Hone Hin Hff Hr Hs Hx) as Hfv.
  set (final := trust_rounds _ _ _ _ _ _) in *. set (rest := filter _ l).
  assert (Hrest : forall d, d ∈ rest <-> dev_id d <> dev_id first /\ dev_id d ∈ final /\ d ∈ l).
  { intros d. subst rest. rewrite list_elem_of_filter. fold (dev_id d). rewrite andb_true_iff, negb_true_iff, bool_decide_eq_false, bool_decide_eq_true. tauto. }
  split_and!.
  - intros _ v. rewrite elem_of_cons, list_elem_of_omap. split.
    + intros [->|(d & (Hne & Hid & Hd)%Hrest & Hv)]; [apply entry_valid in Hr; by apply (vouched_first _ _ _ _ _ first)|].
      fold (dev_id d) in Hv. rewrite get_entries in Hv by done. by apply (Hfv d v Hd Hv).
    + intros Hv. assert (exists d, d ∈ l /\ device_entry cv d = Some v) as (d & Hd & Hdv) by (destruct Hv as [? ? ? ? ?%entry_valid|? ? ? ? ? ?%entry_valid]; eauto).
      destruct (decide (dev_id d = dev_id first)) as [E|E].
      * left. rewrite (same_id l d first) in Hdv by done. congruence.
      * right. exists d. rewrite Hrest. fold (dev_id d). rewrite get_entries by done. split_and!; [done|by apply (Hfv d v)|done|done].
  - intros H. exfalso. apply H. split; [by apply Hiff|]. apply entry_valid in Hr. by exists first, root.
  - cbn [map]. rewrite NoDup_cons. split.
    + rewrite (entry_id cv first root Hr). intros (v & E & (d & (Hne & _ & Hd)%Hrest & Hv)%list_elem_of_omap)%list_elem_of_fmap.
      fold (dev_id d) in Hv. rewrite get_entries in Hv by done. rewrite (entry_id cv d v Hv) in E. by apply Hne.
    + apply (ids_once cv l rest Hnd); [by intros d (_ & _ & ?)%Hrest|by apply NoDup_map_filter].
Qed.

(** ** What an approval signs *)

(** A separator that one side does not hold. *)
Lemma sep_split x (a b c d : list Z) : x ∉ a -> x ∉ c -> a ++ x :: b = c ++ x :: d -> a = c /\ b = d.
Proof.
  revert c. induction a as [|y a IH]; intros [|z c] Ha Hc; cbn [app]; [by intros [= ->]|..].
  - intros [= <- _]. exfalso. apply Hc. by left.
  - intros [= -> _]. exfalso. apply Ha. by left.
  - intros [= -> H]. apply not_elem_of_cons in Ha as [_ Ha], Hc as [_ Hc]. by destruct (IH c Ha Hc H) as [-> ->].
Qed.

Lemma sep_split_last x (a b c d : list Z) : x ∉ b -> x ∉ d -> a ++ x :: b = c ++ x :: d -> a = c /\ b = d.
Proof.
  intros Hb Hd E. apply (f_equal reverse) in E. rewrite !reverse_app, !reverse_cons, <- !app_assoc in E. cbn [app] in E.
  apply sep_split in E as [E1 E2]; [|by rewrite elem_of_reverse..]. by rewrite <- (reverse_involutive a), E2, reverse_involutive, <- (reverse_involutive b), E1, reverse_involutive.
Qed.

Definition line_split := sep_split 10.
Definition line_split_last := sep_split_last 10.

Lemma approval_lines p a k x p' a' k' x' : one_line p -> one_line a -> one_line x -> one_line p' -> one_line a' -> one_line x' ->
  approvalTranscript p a k x = approvalTranscript p' a' k' x' -> p = p' /\ a = a' /\ k = k' /\ x = x'.
Proof.
  unfold approvalTranscript, joined. intros Hp Ha Hx Hp' Ha' Hx'. cbn [map]. rewrite !join_cons2. cbn [join]. intros E.
  apply app_inv_head in E. injection E as E. apply line_split in E as [Ep E]; [|done..]. apply line_split in E as [Ea E]; [|done..].
  apply line_split_last in E as [Ek Ex]; [|done..]. by rewrite (bytes_of_inj p p'), (bytes_of_inj a a'), (bytes_of_inj k k'), (bytes_of_inj x x').
Qed.

Lemma key_text_line s : key_text (Some (JStr s)) = true -> one_line s.
Proof. cbn [key_text]. rewrite !andb_true_iff, negb_true_iff. intros [_ H]. by apply one_line_text. Qed.

(** A device approval names one account, one approver and one pair of keys.
    If the approvals of two valid devices have the same signed text, the accounts
    and the approving devices are the same, and so are both keys: a signature of an
    approval cannot stand for another account, approver or key. *)
Theorem approval_binds cv p a d v p' a' d' v' :
  key_text (Some (JStr p)) = true -> key_text (Some (JStr p')) = true -> key_text (Some (JStr a)) = true -> key_text (Some (JStr a')) = true ->
  device_entry cv d = Some v -> device_entry cv d' = Some v' ->
  approvalTranscript p a (str_of (field "ed25519_public_key" d)) (str_of (field "x25519_public_key" d)) =
  approvalTranscript p' a' (str_of (field "ed25519_public_key" d')) (str_of (field "x25519_public_key" d')) ->
  p = p' /\ a = a' /\ d_signing v = d_signing v' /\ d_x25519 v = d_x25519 v'.
Proof.
  intros Hp Hp' Ha Ha' Hv Hv' E. pose proof (entry_keys cv d v Hv) as (H1 & H2 & H3). pose proof (entry_keys cv d' v' Hv') as (H1' & H2' & H3').
  apply approval_lines in E as (-> & -> & E1 & E2); try (by apply key_text_line); [|rewrite H1; by apply one_line_b64|rewrite H1'; by apply one_line_b64].
  rewrite E1 in H3. rewrite H1, H1' in E2. split_and!; [done..|congruence|]. apply (f_equal atob) in E2. rewrite !atob_toBase64 in E2 by done. congruence.
Qed.

(** ** Key records *)

Section records.
Variable nc : nacl.

Lemma well_formed_b64 l : all_bytes l = true -> well_formed (b64 l).
Proof.
  intros Hl. apply well_formed_ascii. eapply Forall_impl; [by apply b64_chars|]. intros c [H| ->]; [apply b64_digit_spec in H|]; lia.
Qed.

(** The record's text is well-formed, and short enough to be read back. *)
Lemma record_text uid sk xp sg : all_bytes sk = true -> all_bytes xp = true -> all_bytes sg = true -> length sk = 32%nat -> length xp = 32%nat ->
  length sg = 64%nat -> key_text (Some (JStr uid)) = true ->
  well_formed (stringify (record_json uid sk xp sg)) /\
  utf16_length (RECORD_PREFIX +:+ toBase64 (stringify (record_json uid sk xp sg))) <= 2048.
Proof.
  intros Hs Hx Hg Ls Lx Lg Hu. assert (Hlen : Z.of_nat (length (bytes_of uid)) <= 128 /\ well_formed (bytes_of uid)).
  { rewrite bytes_of_length. cbn [key_text] in Hu. unfold utf8_length, has_class in Hu. rewrite !andb_true_iff, negb_true_iff in Hu. destruct Hu as [[_ Hu] Hc].
    split; [lia|]. unfold well_formed. by destruct (code_points (bytes_of uid)). }
  destruct Hlen as [Hlen Hwf].
  assert (E : stringify (record_json uid sk xp sg) =
    123 :: print_str "uid" ++ 58 :: 34 :: escaped (bytes_of uid) ++ 34 :: 44 :: print_str "signing_key" ++ 58 :: 34 :: b64 sk ++ 34 :: 44 ::
    print_str "encryption_key" ++ 58 :: 34 :: b64 xp ++ 34 :: 44 :: print_str "signature" ++ 58 :: 34 :: b64 sg ++ [34; 125]).
  { unfold stringify, record_json. cbn [print_json map]. rewrite !join_cons2. cbn [join fst snd print_json]. unfold print_str, print_str_with.
    rewrite !b64_text_bytes, !escaped_b64 by done. repeat (progress (cbn [app]; rewrite <- ?app_assoc)). reflexivity. }
  rewrite E. split.
  - repeat first [apply well_formed_escaped; assumption | apply well_formed_b64; assumption | apply well_formed_cons; [lia|]
      | apply well_formed_app; [first [apply well_formed_escaped; assumption | apply well_formed_b64; assumption
                                       | apply well_formed_ascii; apply (bool_decide_unpack _); vm_compute; exact I]|] | by exists []].
  - eapply Z.le_trans; [apply utf16_le_utf8|]. unfold utf8_length. rewrite <- bytes_of_length, bytes_of_app, length_app, <- E.
    rewrite b64_text_bytes by apply stringify_bytes. pose proof (b64_length (stringify (record_json uid sk xp sg))) as Hb. rewrite E in Hb |- *.
    pose proof (escaped_length_le (bytes_of uid)) as He.
    pose proof (b64_length sk). pose proof (b64_length xp). pose proof (b64_length sg).
    assert (forall s, Z.of_nat (length (print_str s)) <= 6 * Z.of_nat (length (bytes_of s)) + 2) as Hps.
    { intros s. unfold print_str, print_str_with. cbn [length]. rewrite length_app. pose proof (escaped_length_le (bytes_of s)). cbn [length]. lia. }
    pose proof (Hps "uid"%string) as P1. pose proof (Hps "signing_key"%string) as P2. pose proof (Hps "encryption_key"%string) as P3.
    pose proof (Hps "signature"%string) as P4. cbn [bytes_of length] in P1, P2, P3, P4. rewrite Ls, Lx, Lg in *.
    repeat (rewrite length_app in Hb || (progress cbn [length] in Hb)). cbn [String.length RECORD_PREFIX bytes_of length]. 
    repeat (rewrite length_app || (progress cbn [length])).
    Z.to_euclidean_division_equations. lia.
Qed.

(** The parts of a key record: its secret's public half, and a signature scheme
    that verifies what it signed. *)
Record signs (sk : list Z) : Prop := {
  sg_bytes : all_bytes sk = true;
  sg_length : length sk = 64%nat;
  sg_signature m : length (sign_detached nc m sk) = 64%nat /\ all_bytes (sign_detached nc m sk) = true;
  sg_verify m : verify_detached nc m (sign_detached nc m sk) (drop 32 sk) = true
}.

Lemma prefix_append p s : String.prefix p (p +:+ s) = true.
Proof. induction p as [|a p IH]; [by destruct s|]. change (String a p +:+ s) with (String a (p +:+ s)); simpl. destruct (Ascii.ascii_dec a a) as [|Hn]; [exact IH|by destruct Hn]. Qed.

Lemma all_bytes_drop n l : all_bytes l = true -> all_bytes (drop n l) = true.
Proof. unfold all_bytes. rewrite !forallb_forall. intros H x Hx%list_elem_of_In. apply H, list_elem_of_In. by apply (subseteq_drop n). Qed.

(** An identity's own key record is read back.  The record that
    [signKeyRecord] makes for an account is accepted by [parseKeyRecord] for that
    account and gives the signing key, the public half of the secret, and the
    encryption key that were put into it. *)
Theorem key_record_roundtrip uid xPublic sk : signs sk -> key_text (Some (JStr uid)) = true -> all_bytes xPublic = true -> length xPublic = 32%nat ->
  parseKeyRecord nc (Some (JStr (signKeyRecord nc uid xPublic sk))) uid = Some (drop 32 sk, xPublic).
Proof.
  intros [Hs Ls Hsig Hver] Hu Hx Lx. assert (Htake : take 32 (drop 32 sk) = drop 32 sk) by (apply take_ge; rewrite length_drop; lia).
  unfold parseKeyRecord, record_fields, signKeyRecord. rewrite Htake. set (m := record_message _ _ _). destruct (Hsig m) as [Lg Hg].
  assert (Hd : all_bytes (drop 32 sk) = true /\ length (drop 32 sk) = 32%nat) by (split; [by apply all_bytes_drop|rewrite length_drop; lia]). destruct Hd as [Hd Ld].
  destruct (record_text uid (drop 32 sk) xPublic (sign_detached nc m sk)) as [Hwf Hlen]; [done..|].
  rewrite (proj2 (Z.leb_le _ _) Hlen), prefix_append. cbn [andb]. rewrite bytes_of_app, drop_app_length'; [|by rewrite bytes_of_length].
  change (text ?l) with (string_of l). rewrite string_of_bytes_of, atob_toBase64 by apply stringify_bytes.
  rewrite decode_bytes, parse_stringify; [|apply stringify_bytes|exact Hwf|reflexivity].
  set (r := record_json _ _ _ _).
  assert (field "uid" r = Some (JStr uid) /\ field "signing_key" r = Some (JStr (toBase64 (drop 32 sk))) /\
          field "encryption_key" r = Some (JStr (toBase64 xPublic)) /\
          field "signature" r = Some (JStr (toBase64 (sign_detached nc m sk)))) as (-> & -> & -> & ->) by (by split_and!).
  rewrite bool_decide_true by done. rewrite !atob_toBase64 by done.
  assert (or_empty (Some (JStr (toBase64 (sign_detached nc m sk)))) = Some (JStr (toBase64 (sign_detached nc m sk)))) as ->.
  { unfold or_empty. by destruct (truthy _) eqn:E; [|apply negb_false_iff, bool_decide_eq_true in E as ->]. }
  cbn [fromBase64]. unfold fromBase64, String_of. cbn [js_String]. rewrite atob_toBase64, Ld, Lx, Lg, Hver by done. reflexivity.
Qed.
End records.

(** ** A concrete account

    Keys are runs of one byte; a signature is its signer's key, twice. *)
Module TrustDemo.
Definition cv : curves :=
  Curves (fun _ => Some [1]) (fun b => Some (b, false)) (fun signature _ key => bool_decide (signature = key ++ key)).
Definition key (n : Z) : list Z := repeat n 32.
Definition device (id : string) (n : Z) (rest : list (string * json)) : json :=
  JObj ([("device_id", JStr id); ("ed25519_public_key", JStr (publicKeyPEM (key n))); ("x25519_public_key", JStr (toBase64 (key (n + 100))))]%string ++ rest).
Definition approval (approver : string) (n : Z) : list (string * json) :=
  [("approved_by", JStr approver); ("approval_signature", JStr (toBase64 (key n ++ key n)))]%string.

(** A phone approved by the desktop, a tablet approved by the phone, a device
    whose approval is by the wrong key, and a revoked one. *)
Definition listed : list json :=
  [device "tablet" 3 (approval "phone" 2); device "desk" 1 [("first_device", JBool true)]%string; device "phone" 2 (approval "desk" 1);
   device "thief" 4 (approval "desk" 4); device "old" 5 (("revoked_at", JNum 7)%string :: approval "desk" 1)]%string.
Definition found : list trusted_device := Eval vm_compute in trustedDevices cv "alice" (Some (JArr listed)) (Some (key 1)) (Some (key 101)).

Lemma found_is : trustedDevices cv "alice" (Some (JArr listed)) (Some (key 1)) (Some (key 101)) = found.
Proof. vm_compute. reflexivity. Qed.

Example found_ids : map deviceID found = ["desk"; "tablet"; "phone"]%string.
Proof. vm_compute. reflexivity. Qed.

Lemma listed_ok : listing "alice" listed /\ rooted cv listed (key 1) (key 101).
Proof.
  split.
  - constructor; [by vm_compute|by vm_compute| |apply (bool_decide_unpack _); by vm_compute|vm_compute; lia].
    repeat constructor; by vm_compute.
  - exists (device "desk" 1 [("first_device", JBool true)]%string). eexists. split_and!; [by right; left|done|apply entry_valid; vm_compute; reflexivity|vm_compute; reflexivity|vm_compute; reflexivity].
Qed.

Definition tablet : trusted_device := Eval vm_compute in Device "tablet" None (key 3) (key 103) (toBase64 (key 103)) false.
Lemma tablet_found : tablet ∈ trustedDevices cv "alice" (Some (JArr listed)) (Some (key 1)) (Some (key 101)).
Proof. rewrite found_is. right. left. Qed.

Lemma trusted_devices_exact_witness : (listing "alice" listed /\ rooted cv listed (key 1) (key 101)) /\ vouched cv "alice" listed (key 1) (key 101) tablet.
Proof.
  split; [exact listed_ok|]. pose proof (proj1 (trusted_devices_exact cv "alice" listed (key 1) (key 101)) listed_ok tablet) as [H _].
  apply H, tablet_found.
Defined.

(** The approvals of the phone, in the listing and in another reply of the server. *)
Definition phone : json := device "phone" 2 (approval "desk" 1).
Definition phone_entry : trusted_device := Eval vm_compute in Device "phone" None (key 2) (key 102) (toBase64 (key 102)) false.
Lemma phone_is : device_entry cv phone = Some phone_entry.
Proof. vm_compute. reflexivity. Qed.

Lemma approval_binds_witness : key_text (Some (JStr "alice")) = true /\ key_text (Some (JStr "desk")) = true /\ "alice"%string = "alice"%string.
Proof.
  split; [vm_compute; reflexivity|]. split; [vm_compute; reflexivity|].
  apply (approval_binds cv "alice" "desk" phone phone_entry "alice" "desk" phone phone_entry); (exact phone_is || reflexivity || (vm_compute; reflexivity)).
Defined.

(** A signature scheme: the signature repeats the public half of the secret. *)
Definition nc : nacl :=
  Nacl (fun m _ _ => m) (fun m _ _ => Some m) (fun m _ _ _ => m) (fun m _ _ _ => Some m)
    (fun _ secret => drop 32 secret ++ drop 32 secret) (fun _ signature key => bool_decide (signature = key ++ key)).
Definition secret : list Z := key 7 ++ key 1.
Lemma secret_signs : signs nc secret.
Proof. split; [by vm_compute|by vm_compute|intros m; by vm_compute|intros m; by vm_compute]. Qed.

Lemma key_record_roundtrip_witness : signs nc secret /\ parseKeyRecord nc (Some (JStr (signKeyRecord nc "alice" (key 101) secret))) "alice" = Some (drop 32 secret, key 101).
Proof.
  split; [exact secret_signs|]. apply (key_record_roundtrip nc "alice" (key 101) secret secret_signs); vm_compute; reflexivity.
Defined.
End TrustDemo.
