(* ===== verification/DeviceLink.v ===== *)
(** * Linking and confirming devices ([device.js], [link-binding.js], [devices.js])

    A phone is linked by a code that a signed-in desktop shows: it claims the link
    with a proof over its own keys, and the desktop signs the server's certificate
    binding for exactly these keys.  A confirmed device endorses another one with a
    device approval.  Signing in answers a challenge of the server; what is signed
    can never be one of the other statements ([signed_statements_separate], in
    [SignedStatements]).

    Requests to the server are the parameter [ask] (the message's name and its
    content to the reply); each message of a flow is sent once.  The name of the
    platform and the Unicode tables of [toUpperCase] are parameters too.  The
    conversions between JSON and the browser's WebAuthn objects are not modelled. *)

From stdpp Require Import base list strings.
From Stdlib Require Import ZArith Lia.
From S2P Require Import Prelude Json Text Crypto OlmAdmission OlmReset DeviceTrust.

(** ** The link in a QR code *)

Definition percent_byte (a b : Z) : option Z :=
  match unhex a, unhex b with Some x, Some y => Some (x * 16 + y) | _, _ => None end.
Fixpoint percent_decode (l : list Z) : list Z :=
  match l with
  | [] => []
  | c :: r =>
    match r with
    | a :: b :: r' => match (if c =? 37 then percent_byte a b else None) with
                      | Some x => x :: percent_decode r'
                      | None => c :: percent_decode r
                      end
    | _ => c :: percent_decode r
    end
  end.

(** The name and value of one piece of a query. *)
Definition decoded (l : list Z) : string := text (decode_from Start (percent_decode (replace_char 43 32 l))).
Fixpoint split_at (c : Z) (l : list Z) : list Z * option (list Z) :=
  match l with
  | [] => ([], None)
  | x :: r => if x =? c then ([], Some r) else let '(a, b) := split_at c r in (x :: a, b)
  end.
Fixpoint split_on (c : Z) (l acc : list Z) : list (list Z) :=
  match l with
  | [] => [acc]
  | x :: r => if x =? c then acc :: split_on c r [] else split_on c r (acc ++ [x])
  end.

(** [new URLSearchParams(s)]: its pairs in order. *)
Definition search_params (s : list Z) : list (string * string) :=
  let s := match s with 63 :: r => r | _ => s end in
  map (fun p => let '(n, v) := split_at 61 p in (decoded n, decoded (default [] v))) (filter (fun p => p <> []) (split_on 38 s [])).

Definition param (k : string) (l : list (string * string)) : option string :=
  snd <$> List.find (fun p => bool_decide (p.1 = k)) l.

Record link := Link { l_id : string; l_secret : list Z; l_approver : string }.

Definition parseLinkFragment (hash : string) : option link :=
  let l := bytes_of hash in
  let params := search_params (match l with 35 :: r => r | _ => l end) in
  if forallb (fun k => bool_decide (k ∈ ["id"; "k"; "a"]%string)) params.*1 && bool_decide (NoDup params.*1) then
    match param "id" params, param "k" params with
    | Some id, Some k =>
      if bool_decide (id = ""%string) || bool_decide (k = ""%string) then None
      else
        match fromBase64URL k with
        | Some secret => if Z.of_nat (length secret) =? 32 then Some (Link id secret (default "" (param "a" params))) else None
        | None => None
        end
    | _, _ => None
    end
  else None.

(** ** The keys of this device *)

Record identity := Identity { edPublic : list Z; edSecret : list Z; xPublic : list Z; xSecret : list Z }.
Definition own_pem (i : identity) : string := publicKeyPEM (edPublic i).
Definition own_x25519 (i : identity) : string := toBase64 (xPublic i).

(** What a claim was answered with. *)
Record claim_state := ClaimState {
  cs_link : option json; cs_state : option json; cs_expires : option json; cs_approver : option json; cs_sas : option string
}.

(** A link from a QR code, or a code typed by hand. *)
Inductive link_code := Scanned (l : link) | Typed (code : string).

Definition LOGIN_CHALLENGE_SIZE : Z := 32.
Definition LOGIN_CHALLENGE_SCHEME : string := "noxa-auth-challenge-v1".
Definition LOGIN_CHALLENGE_DOMAIN : list Z := line "noxa-auth-challenge-v1".

(** What a login signs: never a challenge that could be a statement. *)
Definition loginChallengeMessage (challenge : list Z) : result string (list Z) :=
  guard! (Z.of_nat (length challenge) =? LOGIN_CHALLENGE_SIZE) && negb (bool_decide (take 5 challenge = bytes_of "noxa-")) else "unsafe_challenge" in
  Ok (LOGIN_CHALLENGE_DOMAIN ++ challenge).

(** ** The desktop's statement of the server's binding *)

Definition linkBindingTranscript (principal approverDeviceID edPublicPEM xPublicB64 serverBinding : string) : list Z :=
  joined ["noxa-device-link-binding-v1"; principal; approverDeviceID; edPublicPEM; xPublicB64; serverBinding]%string.

Definition is_hex_pairs (l : list Z) : bool := (Z.of_nat (length l) =? 95) && hex_pairs l.

(** [fingerprint.toLowerCase()]: a character outside ASCII is no hexadecimal
    digit in any case but for the Kelvin sign, which is none either. *)
Definition announcedBinding (fingerprint : option json) : string :=
  match fingerprint with
  | Some (JStr s) =>
    let f := map lower (bytes_of s) in
    let f := if is_hex_pairs f then filter (fun c => c <> 58) f else f in
    if hex64 (text f) then ("tls-sha256:" +:+ text f)%string else ""
  | _ => ""
  end.

Record binding_statement := Statement { b_binding : option json; b_signature : string; b_approver : option json; b_key : option json; b_principal : option json }.

(** The signature is a text, or an array of bytes. *)
Definition linkBindingFromStatus (result : json) : option binding_statement :=
  if truthy (field "server_binding" result) then
    Some (Statement (field "server_binding" result)
      (match field "binding_signature" result with Some (JStr s) => s | v => toBase64 (map (fun n => n `mod` 256) (bytes_of_json (if truthy v then v else None))) end)
      (or_empty (field "approver_device_id" result)) (or_empty (field "approver_key" result)) (or_empty (field "principal" result)))
  else None.

(** ** Confirming another device *)

Definition needsConfirmation (device : json) : bool :=
  truthy (Some device) && negb (truthy (field "current" device)) && negb (truthy (field "first_device" device)) &&
  negb (truthy (field "confirmed" device)) && negb (truthy (field "revoked_at" device)).

(** [pem.replaceAll("\r\n", "\n")], ended by a line feed. *)
Fixpoint unix_lines (l : list Z) : list Z :=
  match l with
  | 13 :: (10 :: r) => 10 :: unix_lines r
  | c :: r => c :: unix_lines r
  | [] => []
  end.
Definition ends_line (l : list Z) : bool := match reverse l with 10 :: _ => true | _ => false end.
Definition benign (pem : string) : list Z := let l := unix_lines (bytes_of pem) in if ends_line l then l else l ++ [10].

(** The key between the marker lines: [A-Za-z0-9+/=]+. *)
Fixpoint span_b64 (l : list Z) : list Z * list Z :=
  match l with
  | c :: r => if is_b64_char c || (c =? 61) then let '(a, b) := span_b64 r in (c :: a, b) else ([], l)
  | [] => ([], [])
  end.
Definition pem_body (l : list Z) : option (list Z) :=
  match strip (line "-----BEGIN PUBLIC KEY-----") l with
  | Some r =>
    let '(body, rest) := span_b64 r in
    if negb (bool_decide (body = [])) && bool_decide (rest = 10 :: line "-----END PUBLIC KEY-----") then Some body else None
  | None => None
  end.

Definition validDeviceKeys (ed25519PEM x25519B64 : option json) : bool :=
  match ed25519PEM, x25519B64 with
  | Some (JStr pem), Some (JStr x) =>
    match pem_body (benign pem) with
    | None => false
    | Some body =>
      match atob (text body) with
      | Some ed =>
        (Z.of_nat (length ed) =? 32) && bool_decide (bytes_of (publicKeyPEM ed) = benign pem) &&
        match atob x with
        | Some b => (Z.of_nat (length b) =? 32) && existsb (fun c => negb (c =? 0)) b && bool_decide (toBase64 b = x)
        | None => false
        end
      | None => false
      end
    end
  | _, _ => false
  end.

(** The signed-in session that endorses. *)
Record session := Session { s_device : string; s_unique : string; s_identity : identity }.

(** A member of an array that is joined to a text. *)
Definition joined_field (v : option json) : string := match v with None | Some JNull => "" | Some j => js_String j end.

Definition delegationTranscript (principal issuer credential_id public_key rp_id origin algorithm : option json) : list Z :=
  joined ("noxa-passkey-delegation-v1"%string ::
    map joined_field [principal; issuer; credential_id; public_key; rp_id; origin; algorithm]).

(** The algorithms a delegation may name. *)
Definition ALGORITHMS : list Z := [-7; -35; -36; -257; -258; -259; -37; -38; -39; -8].

Section linking.
Variable hs : hashes.
Variable nc : nacl.
Variable cv : curves.
Variable platform : string.
Variable upper : string -> string.                         (* String.prototype.toUpperCase *)
Variable ask : string -> json -> result string json.

(** ** Claiming a link *)

Definition normalizeLinkCode (code : string) : string :=
  let s := upper code in
  match without_spaces s with Some cps => text (filter (fun c => c <> 45) cps ≫= utf8) | None => s end.

Definition claim_request (i : identity) (l : link_code) : json * list Z :=
  let rest := [("action", Some (JStr "link_claim")); ("ed25519_public_key", Some (JStr (own_pem i)));
               ("x25519_public_key", Some (JStr (own_x25519 i))); ("platform", Some (JStr platform))]%string in
  match l with
  | Typed code => let c := normalizeLinkCode code in (obj (rest ++ [("code", Some (JStr c))]%string), bytes_of c)
  | Scanned k =>
    (obj (rest ++ [("link_id", Some (JStr (l_id k)));
                   ("proof", Some (JStr (toBase64 (linkProof hs (l_secret k) (linkClaimTranscript (l_id k) (own_pem i) (own_x25519 i))))))]%string),
     l_secret k)
  end.

(** A claim answered for another desktop than the one that showed the code is refused. *)
Definition claimLink (i : identity) (l : link_code) : result string claim_state :=
  let '(request, linkKey) := claim_request i l in
  let! r := ask "DeviceRequest" request in
  if negb (is_text (field "state" r) "claimed") then
    Ok (ClaimState (or_empty (field "link_id" r)) (if truthy (field "state" r) then field "state" r else Some (JStr "expired")) None None None)
  else
    guard! match l with
           | Scanned k => bool_decide (l_approver k = ""%string) || is_text (field "approver_fingerprint" r) (l_approver k)
           | Typed _ => true
           end else "approver_mismatch" in
    Ok (ClaimState (field "link_id" r) (field "state" r) (field "expires_at" r) (field "approver_fingerprint" r)
         (Some (linkSAS hs linkKey (linkClaimTranscript (String_of (field "link_id" r)) (own_pem i) (own_x25519 i))))).

(** ** Signing in *)

Definition signIn (i : identity) (version nickname serverPassword : json) : result string json :=
  let! first := ask "Authenticate" (JObj [("client_version", version); ("authorization_models", JArr [JStr "roles-v1"]);
    ("username", JStr (uniqueIDFromPublicKey hs (edPublic i))); ("anonymous", JBool true); ("nickname", nickname);
    ("server_password", serverPassword); ("x25519_public_key", JStr (own_x25519 i))]%string) in
  guard! truthy (field "challenge" first) else String_of (field "reason" first) in
  guard! is_text (field "scheme" first) LOGIN_CHALLENGE_SCHEME else "outdated" in
  match fromBase64 (field "challenge" first) with
  | None => Err "InvalidCharacterError"%string
  | Some challenge =>
    let! m := loginChallengeMessage challenge in
    let! response := ask "AuthSignature" (JObj [("unique_id", JStr ""); ("public_key", JStr (own_pem i));
      ("signature", JStr (toBase64 (sign_detached nc m (edSecret i)))); ("x25519_public_key", JStr (own_x25519 i))]%string) in
    guard! truthy (field "ok" response) else String_of (field "reason" response) in
    Ok response
  end.

(** ** Verifying the desktop's statement *)

Definition verifyLinkBinding (statement : option binding_statement) (i : identity) (principal approverFingerprint : string) : result string json :=
  match statement with
  | Some s =>
    match (if truthy (b_binding s) then b_binding s else None), b_key s with
    | Some binding, Some (JStr key) =>
      guard! tls_sha256 (js_String binding) && truthy (b_approver s) && truthy (b_principal s) else "server_binding_mismatch" in
      match ed25519FromPEM key with
      | None => Err "server_binding_mismatch"%string
      | Some approver =>
        guard! bool_decide (principal = ""%string) || is_text (b_principal s) principal else "server_binding_mismatch" in
        guard! negb (bool_decide (approverFingerprint = ""%string)) && bool_decide (keyFingerprint hs key = approverFingerprint)
          else "server_binding_mismatch" in
        match atob (b_signature s) with
        | None => Err "server_binding_mismatch"%string
        | Some signature =>
          guard! (Z.of_nat (length signature) =? 64) &&
            verifySignature cv signature
              (linkBindingTranscript (String_of (b_principal s)) (String_of (b_approver s)) (own_pem i) (own_x25519 i) (js_String binding)) approver
            else "server_binding_mismatch" in
          Ok binding
        end
      end
    | Some _, _ => Err "server_binding_mismatch"%string
    | None, _ => Err "server_binding_unavailable"%string
    end
  | None => Err "server_binding_unavailable"%string
  end.

(** ** Endorsing a device *)

Definition endorsement (se : session) (target : json) : result string (list Z) :=
  guard! negb (bool_decide (s_device se = ""%string)) else "this device is not registered yet" in
  guard! truthy (Some target) && negb (is_text (field "device_id" target) (s_device se)) && negb (truthy (field "first_device" target)) &&
    negb (truthy (field "revoked_at" target)) else "this device can no longer be confirmed" in
  guard! truthy (field "ed25519_public_key" target) && truthy (field "x25519_public_key" target)
    else "the server does not share this device's keys" in
  match field "ed25519_public_key" target with
  | Some (JStr pem) =>
    guard! is_text (field "fingerprint" target) (keyFingerprint hs pem) else "the device's key does not match its fingerprint" in
    guard! validDeviceKeys (Some (JStr pem)) (field "x25519_public_key" target) else "the device's keys are invalid" in
    Ok (approvalTranscript (s_unique se) (s_device se) pem (str_of (field "x25519_public_key" target)))
  | _ => Err "TypeError"%string
  end.

Definition endorseDevice (se : session) (target : json) : result string (option json) :=
  let! m := endorsement se target in
  let signature := sign_detached nc m (edSecret (s_identity se)) in
  let! r := ask "DeviceRequest" (obj [("action", Some (JStr "endorse")); ("device_id", field "device_id" target);
    ("signature", Some (JStr (toBase64 signature)))]%string) in
  Ok (field "device" r).

(** ** Passkeys: the certificate that lets a passkey approve devices *)

Definition dmCertificate (se : session) (template : option json) (rp_id origin : string) (rawId : option (list Z)) (spki : option (list Z))
    (algorithm : option Z) : option json :=
  match template, spki, algorithm with
  | Some t, Some key, Some alg =>
    if truthy template && bool_decide (alg ∈ ALGORITHMS) && is_text (field "principal" t) (s_unique se) &&
       is_text (field "issuer" t) (s_device se) && is_text (field "rp_id" t) rp_id then
      let c := put_opt "credential_id" (JStr ∘ toBase64URL <$> rawId) (jset "origin" (JStr origin) (jset "algorithm" (JNum alg) t)) in
      let c := jset "public_key" (JStr (toBase64 key)) c in
      let m := delegationTranscript (field "principal" c) (field "issuer" c) (field "credential_id" c) (field "public_key" c) (field "rp_id" c)
                 (field "origin" c) (Some (JNum alg)) in
      Some (jset "signature" (JStr (toBase64 (sign_detached nc m (edSecret (s_identity se))))) c)
    else None
  | _, _, _ => None
  end.
End linking.

(** ** What is signed *)

Lemma prefix_split p s : String.prefix p s = true -> exists r, s = (p +:+ r)%string.
Proof.
  revert s. induction p as [|a p IH]; intros s H; [by exists s|]. destruct s as [|b s]; [done|]. simpl in H.
  destruct (Ascii.ascii_dec a b) as [->|]; [|done]. destruct (IH s H) as [r ->]. by exists r.
Qed.

Lemma substring_full r n : String.length r = n -> String.substring 0 n r = r.
Proof. revert n. induction r as [|a r IH]; intros n <-; [done|]. simpl. by rewrite IH. Qed.

Lemma substring_app p r n : String.substring (String.length p) n (p +:+ r) = String.substring 0 n r.
Proof. induction p as [|a p IH]; [done|]. change (String a p +:+ r) with (String a (p +:+ r)). simpl. exact IH. Qed.

Lemma one_line_tls s : tls_sha256 s = true -> one_line s.
Proof.
  unfold tls_sha256. rewrite !andb_true_iff. intros [[Hp Hl] H]. apply prefix_split in Hp as [r ->]. unfold utf8_length in Hl.
  assert (String.length r = 64%nat) as Hr
    by (rewrite <- bytes_of_length, bytes_of_app, length_app, !bytes_of_length in Hl; apply Z.eqb_eq in Hl;
        change (String.length "tls-sha256:") with 11%nat in Hl; lia).
  assert (String.substring 11 64 ("tls-sha256:" +:+ r) = r) as Es
    by (rewrite (substring_app "tls-sha256:"); by apply substring_full). rewrite Es in H.
  unfold hex64 in H. apply andb_true_iff in H as [H _]. unfold all_chars in H. unfold one_line. rewrite bytes_of_app, elem_of_app. intros [Hin|Hin].
  - by apply (bool_decide_pack _) in Hin.
  - rewrite forallb_forall in H. by apply list_elem_of_In, H in Hin.
Qed.

(** A key text is four lines around base 64. *)
Lemma pem_bytes raw : all_bytes raw = true ->
  bytes_of (publicKeyPEM raw) = bytes_of "-----BEGIN PUBLIC KEY-----" ++ 10 :: b64 raw ++ 10 :: bytes_of "-----END PUBLIC KEY-----" ++ [10].
Proof.
  intros Hr. unfold publicKeyPEM, text, line. rewrite bytes_of_string_of; [rewrite <- !app_assoc; reflexivity|].
  rewrite !all_bytes_app, <- (b64_text_bytes raw Hr), !bytes_of_range. done.
Qed.

Lemma b64_inj raw raw' : all_bytes raw = true -> all_bytes raw' = true -> toBase64 raw = toBase64 raw' -> raw = raw'.
Proof. intros Hr Hr' E%(f_equal atob). rewrite !atob_toBase64 in E by done. congruence. Qed.

(** What ends in a key text ends in that key. *)
Lemma pem_end a a' raw raw' : all_bytes raw = true -> all_bytes raw' = true ->
  a ++ bytes_of (publicKeyPEM raw) = a' ++ bytes_of (publicKeyPEM raw') -> raw = raw'.
Proof.
  intros Hr Hr'. rewrite !pem_bytes by done. set (h := bytes_of "-----BEGIN PUBLIC KEY-----"). set (f := bytes_of "-----END PUBLIC KEY-----").
  assert (Hf : 10 ∉ f) by (intros H; by apply (bool_decide_pack _) in H). clearbody h f. intros E.
  assert (E3 : (((a ++ h) ++ 10 :: b64 raw) ++ 10 :: f) ++ 10 :: [] = (((a' ++ h) ++ 10 :: b64 raw') ++ 10 :: f) ++ 10 :: [])
    by (flat_apps; flat_apps in E; exact E).
  apply line_split_last in E3 as [E2 _]; [|by intros ?%elem_of_nil..]. apply line_split_last in E2 as [E1 _]; [|done..].
  apply line_split_last in E1 as [_ E0]; [|rewrite <- b64_text_bytes by done; by apply one_line_b64..].
  apply b64_inj; [done..|]. unfold toBase64. by rewrite E0.
Qed.

(** The keys of a device: bytes of the right length. *)
Record device_keys (i : identity) : Prop := { dk_ed : all_bytes (edPublic i) = true; dk_x : all_bytes (xPublic i) = true }.

(** The text of a statement names its keys and its binding, whatever account names it has. *)
Lemma transcript_keys p a ed x c p' a' ed' x' c' :
  all_bytes ed = true -> all_bytes x = true -> one_line c -> all_bytes ed' = true -> all_bytes x' = true -> one_line c' ->
  linkBindingTranscript p a (publicKeyPEM ed) (toBase64 x) c = linkBindingTranscript p' a' (publicKeyPEM ed') (toBase64 x') c' ->
  c = c' /\ ed = ed' /\ x = x'.
Proof.
  intros Hed Hx Hc Hed' Hx' Hc' E. unfold linkBindingTranscript, joined in E. cbn [map] in E. rewrite !join_cons2 in E.
  cbn [join] in E. apply app_inv_head in E. injection E as E.
  pose proof (one_line_b64 _ Hx) as Lx. pose proof (one_line_b64 _ Hx') as Lx'. unfold one_line in *.
  set (P := bytes_of p) in E. set (A := bytes_of a) in E. set (P' := bytes_of p') in E. set (A' := bytes_of a') in E.
  assert (E4 : ((P ++ 10 :: A ++ 10 :: bytes_of (publicKeyPEM ed)) ++ 10 :: bytes_of (toBase64 x)) ++ 10 :: bytes_of c =
    ((P' ++ 10 :: A' ++ 10 :: bytes_of (publicKeyPEM ed')) ++ 10 :: bytes_of (toBase64 x')) ++ 10 :: bytes_of c')
    by (flat_apps; flat_apps in E; exact E).
  apply line_split_last in E4 as [E3 Eb]; [|done..]. apply line_split_last in E3 as [E2 Ex]; [|done..].
  split; [by apply bytes_of_inj|]. split; [|by apply b64_inj, bytes_of_inj]. apply (pem_end (P ++ 10 :: A ++ [10]) (P' ++ 10 :: A' ++ [10])); [done..|].
  flat_apps. flat_apps in E2. exact E2.
Qed.

(** What was checked of a binding that is accepted. *)
Lemma accepted_binding hs cv s i p fp b : verifyLinkBinding hs cv (Some s) i p fp = Ok b ->
  one_line (js_String b) /\ (p <> ""%string -> b_principal s = Some (JStr p)) /\
  exists key k signature, b_key s = Some (JStr key) /\ ed25519FromPEM key = Some k /\ keyFingerprint hs key = fp /\
    verifySignature cv signature (linkBindingTranscript (String_of (b_principal s)) (String_of (b_approver s)) (own_pem i) (own_x25519 i) (js_String b)) k = true.
Proof.
  unfold verifyLinkBinding. destruct (if truthy _ then _ else _) as [x|]; [|done]. destruct (b_key s) as [[| | |key| |]|]; try done.
  destruct (tls_sha256 (js_String x) && _ && _) eqn:Eb; [|done]. rewrite !andb_true_iff in Eb. destruct Eb as [[Eb _] _].
  destruct (ed25519FromPEM key) as [k|] eqn:Ek; [|done]. destruct (_ || _) eqn:Ep; [|done].
  destruct (_ && bool_decide _) eqn:Ef; [|done]. apply andb_true_iff in Ef as [_ Ef%bool_decide_eq_true].
  destruct (atob _) as [signature|]; [|done]. destruct (_ && verifySignature _ _ _ _) eqn:Es; [|done]. apply andb_true_iff in Es as [_ Es].
  intros [= <-]. split; [by apply one_line_tls|]. split; [|by exists key, k, signature].
  intros Hp. apply orb_true_iff in Ep as [Ep%bool_decide_eq_true|Ep]; [done|]. by apply bool_decide_eq_true in Ep.
Qed.

(** C33: a desktop's statement is for one device and one certificate.  Let the desktop
    whose code was scanned hold the key [K], let no signature verify under [K] but of texts
    that it [signed], and let these include statements of a server's binding for the keys
    [ed0] and [x0] and the binding [c0] only, with whatever account names.  Then whatever
    statement the server relays, to whatever device: if it is accepted, the device has
    these keys and the binding is this one, and the statement names the account that was
    asked for; unless the server found another key with the fingerprint of [K]. *)
Theorem link_binding_binds hs cv (signed : list Z -> Prop) K ed0 x0 c0 :
  (forall signature m, verifySignature cv signature m K = true -> signed m) ->
  (forall p a k x c, signed (linkBindingTranscript p a k x c) ->
     exists p' a', linkBindingTranscript p a k x c = linkBindingTranscript p' a' (publicKeyPEM ed0) (toBase64 x0) c0) ->
  all_bytes ed0 = true -> all_bytes x0 = true -> one_line c0 ->
  forall s i p b, device_keys i -> verifyLinkBinding hs cv (Some s) i p (keyFingerprint hs (publicKeyPEM K)) = Ok b ->
  (js_String b = c0 /\ edPublic i = ed0 /\ xPublic i = x0 /\ (p <> ""%string -> b_principal s = Some (JStr p))) \/
  exists key k, b_key s = Some (JStr key) /\ ed25519FromPEM key = Some k /\ k <> K /\ keyFingerprint hs key = keyFingerprint hs (publicKeyPEM K).
Proof.
  intros Hunf Hsigned Hed Hx Hc s i p b [Hei Hxi] (Hb & Hp & key & k & signature & Hkey & Hk & Hf & Hv)%accepted_binding.
  destruct (decide (k = K)) as [->|Hne]; [left|right; by exists key, k]. apply Hunf, Hsigned in Hv as (p' & a' & E).
  unfold own_pem, own_x25519 in E. apply transcript_keys in E as (-> & -> & ->); done.
Qed.

(** The keys that a device may confirm are canonical texts of 32 bytes. *)
Record canonical_keys (pem x : string) (ed xb : list Z) : Prop := {
  ck_pem : benign pem = bytes_of (publicKeyPEM ed);
  ck_ed : length ed = 32%nat /\ all_bytes ed = true;
  ck_x : x = toBase64 xb /\ length xb = 32%nat /\ all_bytes xb = true /\ exists c, c ∈ xb /\ c <> 0
}.

Lemma valid_keys_canonical pem x : validDeviceKeys (Some (JStr pem)) (Some x) = true ->
  exists t ed xb, x = JStr t /\ canonical_keys pem t ed xb.
Proof.
  unfold validDeviceKeys. destruct x as [| | |t| |]; try done. destruct (pem_body _) as [body|]; [|done].
  destruct (atob (text body)) as [ed|] eqn:Eed; [|done]. rewrite !andb_true_iff, bool_decide_eq_true. intros [[Hl%Z.eqb_eq Hp] H].
  destruct (atob t) as [xb|] eqn:Ex; [|done]. rewrite !andb_true_iff, bool_decide_eq_true in H. destruct H as [[Hx%Z.eqb_eq Hnz] Hc].
  apply atob_bytes in Eed, Ex. exists t, ed, xb. split; [done|]. split; [done|by split; [lia|]|]. split_and!; [done|lia|done|].
  apply existsb_exists in Hnz as (c & Hin & Hc0). exists c. split; [by apply list_elem_of_In|]. by apply negb_true_iff, Z.eqb_neq in Hc0.
Qed.

(** What a device signs when its user confirms another device names exactly
    the confirmed keys.  If an endorsement is signed at all, the other device's key
    texts are canonical, their fingerprint is the one the user compared, and the
    signed text is the approval of these keys by this device for this account; no
    other account, approver or key can be read out of the same text. *)
Theorem endorsement_binds hs se target m : one_line (s_unique se) -> one_line (s_device se) -> endorsement hs se target = Ok m ->
  exists pem x ed xb, field "ed25519_public_key" target = Some (JStr pem) /\ field "x25519_public_key" target = Some (JStr x) /\
    canonical_keys pem x ed xb /\ field "fingerprint" target = Some (JStr (keyFingerprint hs pem)) /\
    m = approvalTranscript (s_unique se) (s_device se) pem x /\
    forall p a k y, one_line p -> one_line a -> one_line y -> approvalTranscript p a k y = m ->
      p = s_unique se /\ a = s_device se /\ k = pem /\ y = x.
Proof.
  intros Hu Hd. unfold endorsement. destruct (negb _); [|done]. destruct (truthy (Some target) && _ && _ && _); [|done]. destruct (_ && _); [|done].
  destruct (field "ed25519_public_key" target) as [[| | |pem| |]|]; try done. destruct (is_text (field "fingerprint" target) _) eqn:Ef; [|done].
  apply bool_decide_eq_true in Ef. destruct (validDeviceKeys _ _) eqn:Ek; [|done]. intros [= <-].
  destruct (field "x25519_public_key" target) as [x|]; [|done]. apply valid_keys_canonical in Ek as (t & ed & xb & -> & Hk). cbn [str_of].
  exists pem, t, ed, xb. split_and!; [done..|]. intros p a k y Hp Ha Hy E. destruct Hk as [_ _ (-> & _ & Hxb & _)].
  apply approval_lines in E as (-> & -> & -> & ->); [done..|by apply one_line_b64].
Qed.

(** A confirmed device is trusted everywhere.  When a trusted device signs an
    endorsement of another device's keys, and the listing shows that device with
    these keys and the signature, every client that pins the account's key trusts
    it. *)
Theorem endorsed_is_trusted hs nc cv se target m l pin enc a d v :
  endorsement hs se target = Ok m -> vouched cv (s_unique se) l pin enc a -> deviceID a = s_device se ->
  d ∈ l -> device_entry cv d = Some v ->
  field "ed25519_public_key" d = field "ed25519_public_key" target -> field "x25519_public_key" d = field "x25519_public_key" target ->
  field "approved_by" d = Some (JStr (s_device se)) ->
  field "approval_signature" d = Some (JStr (toBase64 (sign_detached nc m (edSecret (s_identity se))))) ->
  length (sign_detached nc m (edSecret (s_identity se))) = 64%nat -> all_bytes (sign_detached nc m (edSecret (s_identity se))) = true ->
  ed_verify cv (sign_detached nc m (edSecret (s_identity se))) m (d_signing a) = true ->
  vouched cv (s_unique se) l pin enc v.
Proof.
  set (g := sign_detached _ _ _). intros He Ha Hid Hd Hv%entry_valid E1 E2 E3 E4 Hl Hg Hver. apply (vouched_by _ _ _ _ _ a d); [done..|].
  exists g. rewrite Hid. split_and!; [|done..|].
  - rewrite E4. unfold fromBase64, String_of. cbn [js_String]. by apply atob_toBase64.
  - assert (m = approvalTranscript (s_unique se) (s_device se) (str_of (field "ed25519_public_key" d)) (str_of (field "x25519_public_key" d))) as <-; [|done].
    revert He. rewrite E1, E2. unfold endorsement. destruct (negb _); [|done]. destruct (truthy (Some target) && _ && _ && _); [|done]. destruct (_ && _); [|done].
    destruct (field "ed25519_public_key" target) as [[]|]; try done. destruct (is_text _ _); [|done]. destruct (validDeviceKeys _ _); [|done]. by intros [= <-].
Qed.

(** ** A concrete link and a concrete confirmation *)

Module LinkDemo.
Import TrustDemo.
Definition hs : hashes := Hashes (fun m => repeat (Z.of_nat (length m) `mod` 256) 32) (fun _ _ => repeat 8 32) (fun _ => repeat 9 24).
Definition desk : identity := Identity (key 1) secret (key 101) (key 201).
Definition phone_id : identity := Identity (key 2) (key 12 ++ key 2) (key 102) (key 202).

(** The desktop's statement for the phone. *)
Definition binding : string := "tls-sha256:" +:+ hex_text (key 17).
Definition stated : binding_statement :=
  Statement (Some (JStr binding)) (toBase64 (key 1 ++ key 1)) (Some (JStr "desk")) (Some (JStr (own_pem desk))) (Some (JStr "alice")).
Definition scanned : string := keyFingerprint hs (own_pem desk).

Lemma stated_ok : verifyLinkBinding hs cv (Some stated) phone_id "alice" scanned = Ok (JStr binding).
Proof. vm_compute. reflexivity. Qed.
Lemma phone_keys : device_keys phone_id.
Proof. split; by vm_compute. Qed.

(** Signatures of the desktop's key only verify for the statement it signed. *)
Definition strict_cv : curves :=
  Curves (shared_secret cv) (point cv)
    (fun signature m k => bool_decide (signature = k ++ k) && bool_decide (m = linkBindingTranscript "alice" "desk" (own_pem phone_id) (own_x25519 phone_id) binding)).
Definition other_id : identity := Identity (key 3) secret (key 103) (key 203).
Lemma stated_strict : verifyLinkBinding hs strict_cv (Some stated) phone_id "alice" scanned = Ok (JStr binding).
Proof. vm_compute. reflexivity. Qed.
Lemma binding_line : one_line binding.
Proof. apply one_line_tls. vm_compute. reflexivity. Qed.

Lemma link_binding_binds_witness :
  verifyLinkBinding hs strict_cv (Some stated) phone_id "alice" scanned = Ok (JStr binding) /\
  verifyLinkBinding hs strict_cv (Some stated) other_id "alice" scanned = Err "server_binding_mismatch"%string /\
  (edPublic phone_id = key 2 \/ exists t k, b_key stated = Some (JStr t) /\ ed25519FromPEM t = Some k /\ k <> key 1).
Proof.
  split; [exact stated_strict|]. split; [vm_compute; reflexivity|].
  destruct (link_binding_binds hs strict_cv (fun m => m = linkBindingTranscript "alice" "desk" (own_pem phone_id) (own_x25519 phone_id) binding)
    (key 1) (key 2) (key 102) binding
    ltac:(intros signature m [_ E]%andb_true_iff; exact (proj1 (bool_decide_eq_true _) E))
    ltac:(intros p a k x c E; exists "alice"%string, "desk"%string; exact E)
    ltac:(vm_compute; reflexivity) ltac:(vm_compute; reflexivity) binding_line stated phone_id "alice" (JStr binding) phone_keys stated_strict)
    as [(_ & H & _)|(t & k & H1 & H2 & H3 & _)]; [left; exact H|right; exists t, k; exact (conj H1 (conj H2 H3))].
Defined.

(** The desktop's user confirms the phone. *)
Definition at_desk : session := Session "desk" "alice" desk.
Definition target : json := jset "fingerprint" (JStr (keyFingerprint hs (publicKeyPEM (key 2)))) (device "phone" 2 []).
Definition approval_text : list Z := Eval vm_compute in approvalTranscript "alice" "desk" (publicKeyPEM (key 2)) (toBase64 (key 102)).
Lemma endorsement_ok : endorsement hs at_desk target = Ok approval_text.
Proof. vm_compute. reflexivity. Qed.
Lemma names_ok : one_line "alice" /\ one_line "desk".
Proof. split; intros H; by apply (bool_decide_pack _) in H. Qed.

Lemma endorsement_binds_witness : endorsement hs at_desk target = Ok approval_text /\
  exists pem x, field "ed25519_public_key" target = Some (JStr pem) /\ field "x25519_public_key" target = Some (JStr x).
Proof.
  split; [exact endorsement_ok|].
  destruct (endorsement_binds hs at_desk target approval_text (proj1 names_ok) (proj2 names_ok) endorsement_ok) as (pem & x & ed & xb & H1 & H2 & _).
  exists pem, x. exact (conj H1 H2).
Defined.

Definition desk_entry : trusted_device := Eval vm_compute in nth 0 found tablet.
Lemma desk_vouched : vouched cv "alice" listed (key 1) (key 101) desk_entry.
Proof.
  apply (vouched_first _ _ _ _ _ (device "desk" 1 [("first_device", JBool true)]%string)); [by right; left|done|apply entry_valid; vm_compute; reflexivity|vm_compute; reflexivity..].
Qed.

Lemma phone_listed : phone ∈ listed.
Proof. right. right. left. Qed.

Lemma endorsed_is_trusted_witness : endorsement hs at_desk target = Ok approval_text /\ vouched cv "alice" listed (key 1) (key 101) phone_entry.
Proof.
  split; [exact endorsement_ok|].
  apply (endorsed_is_trusted hs nc cv at_desk target approval_text listed (key 1) (key 101) desk_entry phone phone_entry endorsement_ok desk_vouched);
    first [exact phone_listed | exact phone_is | vm_compute; reflexivity].
Defined.
End LinkDemo.
