(* ===== verification/Backup.v ===== *)
(** * A passphrase-protected copy of a device's keys ([backup.js])

    The container is JSON text with the parameters of the key derivation and the
    sealed identity; a restored device keeps its link to the server only when the
    desktop's statement still verifies for exactly the restored keys.

    - [exportBackup] and [importBackup], with the layout of [JSON.stringify(v, null, 2)]
      for the flat container ([pretty]);
    - [linkStatement], [restored_meta]: what comes back besides the keys.

    PBKDF2 is the parameter [pbkdf2]; the salt and the initialisation vector are
    arguments, as random bytes are elsewhere.  The name of the downloaded file is
    not modelled. *)

From stdpp Require Import base list strings.
From Stdlib Require Import ZArith Lia.
From S2P Require Import Prelude Json JsonText Text Crypto Db OlmReset DeviceTrust DeviceLink.

Abbreviation len l := (Z.of_nat (length l)).

Definition BACKUP_TYPE : string := "noxa-device-backup".
Definition BACKUP_ITERATIONS : Z := 600000.
Definition MIN_ITERATIONS : Z := 1000.
Definition MAX_ITERATIONS : Z := 10000000.

(** [JSON.stringify(v, null, 2)] of an object whose members are texts and numbers. *)
Definition pretty_member (kv : string * json) : list Z := 10 :: 32 :: 32 :: print_str kv.1 ++ 58 :: 32 :: stringify kv.2.
Definition pretty (l : list (string * json)) : list Z := 123 :: join 44 (map pretty_member l) ++ [10; 125].

(** The statement fields of a backed-up link binding, or none. *)
Definition STATEMENT_FIELDS : list string := ["binding"; "signature"; "approverDeviceID"; "approverKey"; "principal"]%string.
Definition text_field (v : json) (f : string) : option (string * json) :=
  match field f v with Some (JStr s) => Some (f, JStr s) | _ => None end.
Definition linkStatement (value : option json) : option json :=
  match value with
  | Some (JObj l) => JObj <$> mapM (text_field (JObj l)) STATEMENT_FIELDS
  | _ => None
  end.

(** What [verifyLinkBinding] reads of a statement. *)
Definition as_statement (v : json) : binding_statement :=
  Statement (field "binding" v) (String_of (field "signature" v)) (field "approverDeviceID" v) (field "approverKey" v) (field "principal" v).

Record restored := Restored { r_identity : identity; r_meta : json; r_server : string; r_serverName : string }.

Section backup.
Context `{Cipher}.
Variable hs : hashes.
Variable cv : curves.
Variable pbkdf2 : list Z -> list Z -> Z -> list Z.          (* passphrase, salt, iterations *)

Definition deriveKey (passphrase : string) (salt : list Z) (iterations : Z) : list Z := pbkdf2 (bytes_of passphrase) salt iterations.

(** ** Exporting *)

Definition backup_body (i : identity) (meta : json) (server serverName : string) : json :=
  obj ([("server", Some (JStr server)); ("server_name", Some (JStr serverName));
        ("device_id", or_empty (field "deviceID" meta)); ("unique_id", or_empty (field "uniqueID" meta));
        ("nickname", or_empty (field "nickname" meta)); ("approver_fingerprint", or_empty (field "approverFingerprint" meta));
        ("via", or_empty (field "via" meta))]%string ++
       (if truthy (field "linkBinding" meta) && truthy (field "bindingAnchor" meta)
        then [("link_binding", field "linkBinding" meta); ("binding_anchor", field "bindingAnchor" meta)]%string else []) ++
       [("ed25519_public", Some (JStr (toBase64 (edPublic i)))); ("ed25519_secret", Some (JStr (toBase64 (edSecret i))));
        ("x25519_public", Some (JStr (toBase64 (xPublic i)))); ("x25519_secret", Some (JStr (toBase64 (xSecret i))))]%string).

Definition container (iterations : Z) (salt iv data : list Z) : list (string * json) :=
  [("v", JNum 1); ("type", JStr BACKUP_TYPE); ("kdf", JStr "PBKDF2-SHA256"); ("iter", JNum iterations);
   ("salt", JStr (toBase64 salt)); ("iv", JStr (toBase64 iv)); ("data", JStr (toBase64 data))]%string.

Definition exportBackup (salt iv : list Z) (i : identity) (meta : json) (passphrase : string) (iterations : Z)
    (server serverName : string) : result string string :=
  if utf16_length passphrase <? 8 then Err "passphrase too short"%string else
  let data := encrypt (deriveKey passphrase salt iterations) iv [] (stringify (backup_body i meta server serverName)) in
  Ok (text (pretty (container iterations salt iv data))).

(** ** Importing *)

Definition accepted_header (c : json) : option Z :=
  match field "iter" c with
  | Some (JNum n) =>
    if bool_decide (field "v" c = Some (JNum 1)) && is_text (field "type" c) BACKUP_TYPE && is_text (field "kdf" c) "PBKDF2-SHA256" &&
       negb (n <? MIN_ITERATIONS) && negb (MAX_ITERATIONS <? n) then Some n else None
  | _ => None
  end.

(** [fromBase64(v)] of a member. *)
Definition sealed_field (k : string) (c : json) : option (list Z) := atob (String_of (field k c)).

Definition key_field (body : json) (name : string) (size : Z) : option (list Z) :=
  match atob (String_of (or_empty (field name body))) with
  | Some k => if len k =? size then Some k else None
  | None => None
  end.

(** The four keys; the Ed25519 secret key carries its public half. *)
Definition restored_identity (body : json) : option identity :=
  match key_field body "ed25519_public" 32, key_field body "ed25519_secret" 64,
        key_field body "x25519_public" 32, key_field body "x25519_secret" 32 with
  | Some edp, Some eds, Some xp, Some xs => if bool_decide (drop 32 eds = edp) then Some (Identity edp eds xp xs) else None
  | _, _, _, _ => None
  end.

(** [meta.name = String(v)], when there is a [v]. *)
Definition text_member (name : string) (v : option json) : list (string * json) :=
  if truthy v then [(name, JStr (String_of v))] else [].
Definition restored_texts (body : json) : list (string * json) :=
  [("via"%string, match field "via" body with Some v => if truthy (Some v) then v else JStr "backup" | None => JStr "backup" end);
   ("restored"%string, JBool true)] ++
  text_member "deviceID" (field "device_id" body) ++ text_member "uniqueID" (field "unique_id" body) ++
  text_member "nickname" (field "nickname" body) ++ text_member "approverFingerprint" (field "approver_fingerprint" body).

Definition unique_of (body : json) : string := String_of (or_empty (field "unique_id" body)).
Definition restored_binding (body : json) (i : identity) : list (string * json) :=
  match linkStatement (field "link_binding" body), field "binding_anchor" body with
  | Some statement, Some (JStr anchor) =>
    if negb (bool_decide (anchor = ""%string)) && is_ok (verifyLinkBinding hs cv (Some (as_statement statement)) i (unique_of body) anchor)
    then [("linkBinding"%string, statement); ("bindingAnchor"%string, JStr anchor)] else []
  | _, _ => []
  end.
Definition restored_meta (body : json) (i : identity) : json := JObj (restored_texts body ++ restored_binding body i).

Definition importBackup (source passphrase : string) : result string restored :=
  match parse (bytes_of source) with
  | None => Err "format"%string
  | Some c =>
    match accepted_header c, sealed_field "salt" c, sealed_field "iv" c, sealed_field "data" c with
    | Some iter, Some salt, Some iv, Some data =>
      guard! negb (len salt <? 16) && (len iv =? 12) && negb (len data <? 16) else "format"%string in
      match decrypt (deriveKey passphrase salt iter) iv [] data with
      | None => Err "passphrase"%string
      | Some plain =>
        match parse (bytes_of (Crypto.decode plain)) with
        | None => Err "format"%string
        | Some body =>
          match restored_identity body with
          | None => Err "format"%string
          | Some i => Ok (Restored i (restored_meta body i) (String_of (or_empty (field "server" body))) (String_of (or_empty (field "server_name" body))))
          end
        end
      end
    | _, _, _, _ => Err "format"%string
    end
  end.
End backup.

(** ** The container's text *)

(** Texts and numbers, printed as a grammar's value. *)
Definition flat (v : json) : Prop := match v with JStr _ | JNum _ => True | _ => False end.

Lemma str_text_print s : str_text (escaped (bytes_of s)) (bytes_of s).
Proof.
  destruct (parse_str_inv _ _ _ (parse_str_of s [])) as (t & E & Ht). apply app_inv_tail in E. unfold escaped. by rewrite E.
Qed.

Lemma flat_text v : flat v -> value_text v (stringify v).
Proof.
  destruct v as [| |n|s| |]; try done; intros _.
  - apply vt_scalar, sc_num. pose proof (parse_num_print n [] I) as E. by rewrite app_nil_r in E.
  - pose proof (vt_str _ _ (str_text_print s)) as E. by rewrite string_of_bytes_of in E.
Qed.

Lemma pretty_members l : l <> [] -> Forall (fun kv : string * json => flat kv.2) l -> members_text l (join 44 (map pretty_member l) ++ [10]).
Proof.
  assert (W : ws [10; 32; 32] /\ ws [] /\ ws [32] /\ ws [10]) by (repeat split; repeat constructor). destruct W as (W1 & W2 & W3 & W4).
  assert (Name : forall kv r, pretty_member kv ++ r = [10; 32; 32] ++ 34 :: escaped (bytes_of kv.1) ++ 34 :: [] ++ 58 :: [32] ++ stringify kv.2 ++ r)
    by (intros kv r; unfold pretty_member, print_str, print_str_with; by flat_apps).
  induction l as [|[k v] l IH]; [done|]. intros _ [Hv Hl]%Forall_cons. destruct l as [|kv l].
  - cbn [map join]. rewrite Name. rewrite <- (string_of_bytes_of k) at 1. by apply mt_one; [..|apply str_text_print| | |apply flat_text|].
  - cbn [map]. rewrite join_cons2. change (pretty_member kv :: map pretty_member l) with (map pretty_member (kv :: l)).
    rewrite <- app_assoc, <- app_comm_cons, Name. rewrite <- (string_of_bytes_of k) at 1.
    apply (mt_cons _ _ _ [] [32] _ _ []); [done|apply str_text_print|done|done|by apply flat_text|done|by apply IH].
Qed.

Lemma parse_pretty l : l <> [] -> Forall (fun kv : string * json => flat kv.2) l -> parse (pretty l) = Some (JObj l).
Proof.
  intros Hn Hl. apply parse_json_text. exists [], (pretty l), []. repeat split; [by rewrite app_nil_r|constructor|constructor|].
  unfold pretty. replace (join 44 (map pretty_member l) ++ [10; 125]) with ((join 44 (map pretty_member l) ++ [10]) ++ [125]) by (by rewrite <- app_assoc).
  by apply vt_obj, pretty_members.
Qed.

(** ** What an accepted backup is *)

(** The keys of a device have their sizes, and the secret signing key ends in the
    public one. *)
Record sound_identity (i : identity) : Prop := {
  si_ed : all_bytes (edPublic i) = true /\ len (edPublic i) = 32;
  si_secret : all_bytes (edSecret i) = true /\ len (edSecret i) = 64;
  si_x : all_bytes (xPublic i) = true /\ len (xPublic i) = 32;
  si_xs : all_bytes (xSecret i) = true /\ len (xSecret i) = 32;
  si_half : drop 32 (edSecret i) = edPublic i
}.

Lemma key_field_sound body name size k : key_field body name size = Some k -> all_bytes k = true /\ len k = size.
Proof.
  unfold key_field. destruct (atob _) as [x|] eqn:E; [|done]. destruct (Z.eqb_spec (len x) size); [|done]. intros [= <-]. split; [by eapply atob_bytes|done].
Qed.

Lemma restored_sound body i : restored_identity body = Some i -> sound_identity i.
Proof.
  unfold restored_identity. destruct (key_field body "ed25519_public" 32) eqn:E1, (key_field body "ed25519_secret" 64) eqn:E2,
    (key_field body "x25519_public" 32) eqn:E3, (key_field body "x25519_secret" 32) eqn:E4; try done.
  case_bool_decide; [|done]. intros [= <-]. by split; try by eapply key_field_sound.
Qed.

(** The members of the restored meta, by name. *)
Lemma assoc_text_member k name v : assoc_last k (text_member name v) = if decide (k = name) then (if truthy v then Some (JStr (String_of v)) else None) else None.
Proof. unfold text_member. destruct (truthy v); cbn [assoc_last]; by case_decide. Qed.

Ltac pick_text := rewrite !assoc_last_app, !assoc_text_member; repeat (rewrite decide_False by done); rewrite ?decide_True by done.

Lemma restored_text k body : k <> "via"%string -> k <> "restored"%string ->
  assoc_last k (restored_texts body) =
  assoc_last k (text_member "deviceID" (field "device_id" body) ++ text_member "uniqueID" (field "unique_id" body) ++
    text_member "nickname" (field "nickname" body) ++ text_member "approverFingerprint" (field "approver_fingerprint" body)).
Proof. intros N1 N2. unfold restored_texts. rewrite assoc_last_app. destruct (assoc_last k (_ ++ _)); [done|]. cbn [assoc_last]. by rewrite !decide_False. Qed.

Section imported.
Context `{Cipher}.
Variable hs : hashes.
Variable cv : curves.
Variable pbkdf2 : list Z -> list Z -> Z -> list Z.

Lemma restored_texts_names body : assoc_last "linkBinding" (restored_texts body) = None /\ assoc_last "bindingAnchor" (restored_texts body) = None.
Proof. split; rewrite restored_text by done; by pick_text. Qed.

Lemma meta_text body i k : k <> "linkBinding"%string -> k <> "bindingAnchor"%string ->
  field k (restored_meta hs cv body i) = assoc_last k (restored_texts body).
Proof.
  intros N1 N2. unfold restored_meta, field. rewrite assoc_last_app. unfold restored_binding.
  destruct (linkStatement _) as [s|]; [|done]. destruct (field "binding_anchor" body) as [[| | |a| |]|]; try done.
  destruct (_ && _); [|done]. cbn [assoc_last]. by rewrite !decide_False.
Qed.

Lemma meta_unique body i : String_of (or_empty (field "uniqueID" (restored_meta hs cv body i))) = unique_of body.
Proof.
  rewrite meta_text, restored_text by done. pick_text. unfold unique_of, or_empty. destruct (truthy (field "unique_id" body)); cbn; [by case_bool_decide as E; rewrite ?E|done].
Qed.

(** C31: whatever file is imported, a device is only restored with keys of the right
    sizes whose halves agree, and it only keeps a desktop's statement that still
    verifies for exactly these keys, its account and the anchor that was scanned. *)
Theorem import_well_formed source passphrase r : importBackup hs cv pbkdf2 source passphrase = Ok r ->
  sound_identity (r_identity r) /\
  forall s, field "linkBinding" (r_meta r) = Some s ->
    exists anchor b, field "bindingAnchor" (r_meta r) = Some (JStr anchor) /\
      verifyLinkBinding hs cv (Some (as_statement s)) (r_identity r) (String_of (or_empty (field "uniqueID" (r_meta r)))) anchor = Ok b.
Proof.
  unfold importBackup. destruct (parse (bytes_of source)) as [c|]; [|done].
  destruct (accepted_header c), (sealed_field "salt" c), (sealed_field "iv" c), (sealed_field "data" c); try done.
  destruct (_ && _); [|done]. destruct (decrypt _ _ _ _) as [plain|]; [|done]. destruct (parse (bytes_of (Crypto.decode plain))) as [body|]; [|done].
  destruct (restored_identity body) as [i|] eqn:Ei; [|done]. intros [= <-]. cbn [r_identity r_meta]. split; [by eapply restored_sound|].
  intros s Hs. rewrite meta_unique. destruct (restored_texts_names body) as [T1 T2]. revert Hs.
  unfold restored_meta, field. rewrite !assoc_last_app, T1, T2. unfold restored_binding.
  destruct (linkStatement _) as [st|]; [|done]. destruct (field "binding_anchor" body) as [[| | |a| |]|]; try done.
  destruct (negb _); [|done]. destruct (verifyLinkBinding _ _ _ _ _ _) as [b|] eqn:Ev; [|done]. cbn. intros [= <-]. eauto.
Qed.
End imported.

(** ** Restoring what was exported *)

Definition value_or (v : option json) : json := match v with Some x => if truthy v then x else JStr "" | None => JStr "" end.
Lemma or_empty_value v : or_empty v = Some (value_or v).
Proof. unfold or_empty, value_or. destruct v as [x|]; [|done]. by destruct (truthy (Some x)). Qed.
Lemma truthy_value v : truthy (Some (value_or v)) = truthy v.
Proof. destruct v as [x|]; [|done]. unfold value_or. by destruct (truthy (Some x)) eqn:E. Qed.
Lemma text_value v : truthy v = true -> String_of (Some (value_or v)) = String_of v.
Proof. destruct v as [x|]; [|done]. unfold value_or. by intros ->. Qed.

(** The members of the body, each with its value. *)
Definition linked (meta : json) : bool := truthy (field "linkBinding" meta) && truthy (field "bindingAnchor" meta).
Definition link_members (meta : json) : list (string * json) :=
  if linked meta then [("link_binding", value_or (field "linkBinding" meta)); ("binding_anchor", value_or (field "bindingAnchor" meta))]%string else [].

Lemma body_members i meta server sn : backup_body i meta server sn =
  JObj ([("server", JStr server); ("server_name", JStr sn); ("device_id", value_or (field "deviceID" meta)); ("unique_id", value_or (field "uniqueID" meta));
         ("nickname", value_or (field "nickname" meta)); ("approver_fingerprint", value_or (field "approverFingerprint" meta));
         ("via", value_or (field "via" meta))]%string ++ link_members meta ++
        [("ed25519_public", JStr (toBase64 (edPublic i))); ("ed25519_secret", JStr (toBase64 (edSecret i)));
         ("x25519_public", JStr (toBase64 (xPublic i))); ("x25519_secret", JStr (toBase64 (xSecret i)))]%string).
Proof.
  unfold backup_body, obj, link_members, linked. rewrite !or_empty_value. destruct (truthy (field "linkBinding" meta)) eqn:E1; [|done].
  destruct (truthy (field "bindingAnchor" meta)) eqn:E2; [|done]. cbn [andb]. unfold value_or.
  destruct (field "linkBinding" meta); [|done]. destruct (field "bindingAnchor" meta); [|done]. by rewrite E1, E2.
Qed.

Lemma link_members_other k meta : k <> "link_binding"%string -> k <> "binding_anchor"%string -> assoc_last k (link_members meta) = None.
Proof. intros N1 N2. unfold link_members. destruct (linked meta); cbn [assoc_last]; [|done]. by rewrite !decide_False. Qed.

Ltac pick_body := rewrite body_members; unfold field at 1; rewrite !assoc_last_app, link_members_other by done; reflexivity.

Section body.
Context (i : identity) (meta : json) (server sn : string).
Notation body := (backup_body i meta server sn).

Lemma body_server : field "server" body = Some (JStr server) /\ field "server_name" body = Some (JStr sn).
Proof. split; pick_body. Qed.
Lemma body_texts : field "device_id" body = Some (value_or (field "deviceID" meta)) /\ field "unique_id" body = Some (value_or (field "uniqueID" meta)) /\
  field "nickname" body = Some (value_or (field "nickname" meta)) /\
  field "approver_fingerprint" body = Some (value_or (field "approverFingerprint" meta)).
Proof. repeat split; pick_body. Qed.
Lemma body_link : linked meta = true -> field "link_binding" body = Some (value_or (field "linkBinding" meta)) /\
  field "binding_anchor" body = Some (value_or (field "bindingAnchor" meta)).
Proof. intros E. rewrite body_members. unfold link_members. rewrite E. by split. Qed.

Lemma key_kept name k size : field name body = Some (JStr (toBase64 k)) -> all_bytes k = true -> len k = size -> size <> 0 -> key_field body name size = Some k.
Proof.
  intros E Hb Hl Hs. unfold key_field, or_empty. rewrite E. assert (Ht : truthy (Some (JStr (toBase64 k))) = true).
  { cbn. apply negb_true_iff, bool_decide_eq_false. intros Eb. assert (Ek : bytes_of (toBase64 k) = []) by (by rewrite Eb).
    rewrite b64_text_bytes in Ek by done. destruct k as [|? [|? [|? ?]]]; [cbn in Hl; lia|done..]. }
  rewrite Ht. cbn [String_of js_String]. rewrite atob_toBase64 by done. by rewrite Hl, Z.eqb_refl.
Qed.

Lemma body_identity : sound_identity i -> restored_identity body = Some i.
Proof.
  intros [[? ?] [? ?] [? ?] [? ?] Hh]. unfold restored_identity.
  rewrite (key_kept "ed25519_public" (edPublic i)), (key_kept "ed25519_secret" (edSecret i)), (key_kept "x25519_public" (xPublic i)),
    (key_kept "x25519_secret" (xSecret i)) by (done || pick_body). rewrite bool_decide_eq_true_2 by done. by destruct i.
Qed.
End body.

Lemma pretty_bytes l : all_bytes (pretty l) = true.
Proof.
  unfold pretty. cbn [all_bytes forallb]. fold (all_bytes (join 44 (map pretty_member l) ++ [10; 125])). rewrite all_bytes_app.
  rewrite join_bytes; [done|]. apply Forall_map, Forall_forall. intros [k v] _. unfold compose, pretty_member. cbn [all_bytes forallb].
  fold (all_bytes (print_str k ++ 58 :: 32 :: stringify v)). rewrite all_bytes_app, print_str_bytes. cbn [all_bytes forallb]. apply stringify_bytes.
Qed.

Lemma header_kept iterations salt iv data : MIN_ITERATIONS <= iterations <= MAX_ITERATIONS ->
  accepted_header (JObj (container iterations salt iv data)) = Some iterations.
Proof.
  intros Hi. unfold accepted_header. change (field "iter" _) with (Some (JNum iterations)). cbv iota.
  rewrite bool_decide_eq_true_2 by done. change (is_text _ _) with true. change (is_text (field "kdf" _) _) with true. cbn [andb]. by zcases.
Qed.

Lemma sealed_kept iterations salt iv data : all_bytes salt = true -> all_bytes iv = true -> all_bytes data = true ->
  let c := JObj (container iterations salt iv data) in
  sealed_field "salt" c = Some salt /\ sealed_field "iv" c = Some iv /\ sealed_field "data" c = Some data.
Proof. intros Hs Hi Hd. repeat split; unfold sealed_field; cbn [String_of js_String field assoc_last]; [change (atob (toBase64 salt) = Some salt)|change (atob (toBase64 iv) = Some iv)|change (atob (toBase64 data) = Some data)]; by apply atob_toBase64. Qed.

Section restoring.
Context `{Cipher}.
Variable hs : hashes.
Variable cv : curves.
Variable pbkdf2 : list Z -> list Z -> Z -> list Z.
(** What AES-GCM makes is bytes, and the plaintext with a tag of 16 bytes. *)
Hypothesis sealed_bytes : forall k n a p, all_bytes p = true -> all_bytes (encrypt k n a p) = true.
Hypothesis sealed_length : forall k n a p, len (encrypt k n a p) = len p + 16.

(** A backup's text, imported with its passphrase, gives back the body. *)
Lemma import_exported salt iv i meta passphrase iterations server sn :
  sound_identity i -> all_bytes salt = true /\ 16 <= len salt -> all_bytes iv = true /\ len iv = 12 ->
  MIN_ITERATIONS <= iterations <= MAX_ITERATIONS -> 8 <= utf16_length passphrase ->
  well_formed (stringify (backup_body i meta server sn)) ->
  exists source, exportBackup pbkdf2 salt iv i meta passphrase iterations server sn = Ok source /\
    importBackup hs cv pbkdf2 source passphrase = Ok (Restored i (restored_meta hs cv (backup_body i meta server sn) i) server sn).
Proof.
  intros Hi [Hs Ls] [Hv Lv] Hit Hp Hw. unfold exportBackup. destruct (Z.ltb_spec (utf16_length passphrase) 8); [lia|]. eexists. split; [reflexivity|].
  set (body := backup_body i meta server sn) in *. set (data := encrypt _ _ _ _). unfold importBackup, text. rewrite bytes_of_string_of by apply pretty_bytes.
  rewrite parse_pretty; [|done|repeat constructor]. rewrite header_kept by done.
  assert (Hd : all_bytes data = true) by (apply sealed_bytes, stringify_bytes).
  destruct (sealed_kept iterations salt iv data Hs Hv Hd) as (-> & -> & ->). assert (Ld : len data = len (stringify body) + 16) by apply sealed_length.
  replace (_ && _ && _) with true by (symmetry; rewrite !andb_true_iff, !negb_true_iff; zcases; lia).
  unfold data. rewrite decrypt_encrypt, decode_bytes; [|apply stringify_bytes|done|unfold body; by rewrite body_members].
  rewrite parse_stringify. unfold body. rewrite body_identity by done. destruct (body_server i meta server sn) as [-> ->].
  unfold or_empty. repeat f_equal; cbn; by case_bool_decide.
Qed.

(** The texts of the device record, and its link while that still verifies. *)
Lemma text_back k k' i meta server sn : (k, k') ∈ [("deviceID", "device_id"); ("uniqueID", "unique_id"); ("nickname", "nickname");
    ("approverFingerprint", "approver_fingerprint")]%string ->
  field k (restored_meta hs cv (backup_body i meta server sn) i) = if truthy (field k meta) then Some (JStr (String_of (field k meta))) else None.
Proof.
  intros Hk. destruct (body_texts i meta server sn) as (E1 & E2 & E3 & E4).
  assert (Hv : forall f, (if truthy (Some (value_or f)) then Some (JStr (String_of (Some (value_or f)))) else None) =
    if truthy f then Some (JStr (String_of f)) else None).
  { intros f. rewrite truthy_value. destruct (truthy f) eqn:Et; [|done]. by rewrite text_value. }
  rewrite !elem_of_cons, elem_of_nil in Hk. destruct Hk as [Hk|[Hk|[Hk|[Hk|[]]]]]; injection Hk as -> ->;
    (rewrite meta_text, restored_text by done); pick_text; rewrite ?E1, ?E2, ?E3, ?E4, Hv; by destruct (truthy _).
Qed.

Lemma link_back i meta server sn s anchor b :
  linkStatement (field "linkBinding" meta) = Some s -> field "bindingAnchor" meta = Some (JStr anchor) ->
  verifyLinkBinding hs cv (Some (as_statement s)) i (String_of (or_empty (field "uniqueID" meta))) anchor = Ok b ->
  field "linkBinding" (restored_meta hs cv (backup_body i meta server sn) i) = Some s /\
  field "bindingAnchor" (restored_meta hs cv (backup_body i meta server sn) i) = Some (JStr anchor).
Proof.
  intros Hs Ha Hv. assert (Hn : anchor <> ""%string).
  { intros ->. revert Hv. unfold verifyLinkBinding. destruct (if truthy _ then _ else _); [|done]. destruct (b_key _) as [[]|]; try done.
    destruct (_ && _ && _); [|done]. destruct (ed25519FromPEM _); [|done]. destruct (_ || _); [|done]. rewrite bool_decide_eq_true_2 by done. done. }
  assert (Hl : exists l, field "linkBinding" meta = Some (JObj l)) by (revert Hs; destruct (field "linkBinding" meta) as [[]|]; naive_solver).
  destruct Hl as [l El]. assert (Lk : linked meta = true) by (unfold linked; rewrite El, Ha; cbn; by rewrite bool_decide_eq_false_2).
  destruct (body_link i meta server sn Lk) as [E1 E2]. destruct (body_texts i meta server sn) as (_ & Eu & _).
  assert (V1 : value_or (field "linkBinding" meta) = JObj l) by (by rewrite El).
  assert (V2 : value_or (field "bindingAnchor" meta) = JStr anchor) by (rewrite Ha; cbn; by case_bool_decide).
  assert (V3 : unique_of (backup_body i meta server sn) = String_of (or_empty (field "uniqueID" meta))).
  { unfold unique_of. rewrite Eu, !or_empty_value. f_equal. f_equal. unfold value_or at 1. rewrite truthy_value. unfold value_or.
    destruct (field "uniqueID" meta) as [x|]; [|done]. by destruct (truthy (Some x)). }
  unfold restored_meta, field, restored_binding. rewrite E1, E2, V1, V2, <- El, Hs, V3, Hv, bool_decide_eq_false_2 by done. cbn [negb andb is_ok].
  by rewrite !assoc_last_app.
Qed.

(** C32: a backup that is exported is imported with its passphrase: the same keys, the
    server and its name, the device's texts that were set, and the desktop's
    statement with its anchor as long as it verifies for these keys. *)
Theorem backup_restores salt iv i meta passphrase iterations server sn :
  sound_identity i -> all_bytes salt = true /\ 16 <= len salt -> all_bytes iv = true /\ len iv = 12 ->
  MIN_ITERATIONS <= iterations <= MAX_ITERATIONS -> 8 <= utf16_length passphrase ->
  well_formed (stringify (backup_body i meta server sn)) ->
  exists source r, exportBackup pbkdf2 salt iv i meta passphrase iterations server sn = Ok source /\
    importBackup hs cv pbkdf2 source passphrase = Ok r /\
    r_identity r = i /\ r_server r = server /\ r_serverName r = sn /\
    Forall (fun k => field k (r_meta r) = if truthy (field k meta) then Some (JStr (String_of (field k meta))) else None)
      ["deviceID"; "uniqueID"; "nickname"; "approverFingerprint"]%string /\
    forall s anchor b, linkStatement (field "linkBinding" meta) = Some s -> field "bindingAnchor" meta = Some (JStr anchor) ->
      verifyLinkBinding hs cv (Some (as_statement s)) i (String_of (or_empty (field "uniqueID" meta))) anchor = Ok b ->
      field "linkBinding" (r_meta r) = Some s /\ field "bindingAnchor" (r_meta r) = Some (JStr anchor).
Proof.
  intros Hi Hs Hv Hit Hp Hw. destruct (import_exported salt iv i meta passphrase iterations server sn Hi Hs Hv Hit Hp Hw) as (source & E1 & E2).
  exists source. eexists. split; [exact E1|]. split; [exact E2|]. cbn [r_identity r_meta r_server r_serverName].
  do 3 (split; [done|]). split; [|intros s anchor b; apply link_back].
  repeat (apply Forall_cons; split); [..|by apply Forall_nil]; eapply text_back; repeat constructor.
Qed.
End restoring.

(** ** A linked device, exported and restored *)

Module BackupDemo.
Import TrustDemo LinkDemo.

(** A cipher with the layout of AES-GCM: the plaintext and a tag. *)
#[local] Program Instance tagged : Cipher := {|
  encrypt _ _ _ p := p ++ repeat 7 16;
  decrypt _ _ _ c := let p := take (length c - 16) c in if decide (drop (length c - 16) c = repeat 7 16) then Some p else None |}.
Next Obligation.
  intros k n a p. cbv beta zeta. rewrite length_app. change (length (repeat 7 16)) with 16%nat. rewrite Nat.add_sub, take_app_length, drop_app_length. by case_decide.
Qed.

Definition pbkdf2 (passphrase salt : list Z) (iterations : Z) : list Z := take 32 (passphrase ++ salt ++ repeat 0 32).
Definition salt : list Z := repeat 3 16.
Definition iv : list Z := repeat 4 12.
Definition statement : json := Eval vm_compute in JObj [("binding", JStr binding); ("signature", JStr (b_signature stated));
  ("approverDeviceID", JStr "desk"); ("approverKey", JStr (own_pem desk)); ("principal", JStr "alice")]%string.
Definition meta : json := Eval vm_compute in JObj [("deviceID", JStr "phone"); ("uniqueID", JStr "alice"); ("approverFingerprint", JStr scanned); ("via", JStr "code");
  ("linkBinding", statement); ("bindingAnchor", JStr scanned)]%string.
Definition exported : string := Eval vm_compute in match exportBackup pbkdf2 salt iv phone_id meta "correct horse" 600000 "https://noxa.example" "Home" with Ok t => t | Err _ => "" end.
Definition back : restored := Eval vm_compute in match importBackup hs cv pbkdf2 exported "correct horse" with Ok r => r | Err _ => Restored phone_id JNull "" "" end.

Lemma imported : importBackup hs cv pbkdf2 exported "correct horse" = Ok back.
Proof. vm_compute. reflexivity. Qed.

Lemma import_well_formed_witness : field "linkBinding" (r_meta back) = Some statement /\ sound_identity (r_identity back).
Proof. split; [reflexivity|]. exact (proj1 (import_well_formed hs cv pbkdf2 exported "correct horse" back imported)). Defined.

Lemma phone_sound : sound_identity phone_id.
Proof. split; try split; vm_compute; reflexivity. Qed.
Lemma tagged_bytes k n a p : all_bytes p = true -> all_bytes (encrypt k n a p) = true.
Proof. intros Hp. cbn [encrypt tagged]. by rewrite all_bytes_app, Hp. Qed.
Lemma tagged_length k n a p : len (encrypt k n a p) = len p + 16.
Proof. cbn [encrypt tagged]. rewrite length_app. change (length (repeat 7 16)) with 16%nat. lia. Qed.
Lemma text_ok : well_formed (stringify (backup_body phone_id meta "https://noxa.example" "Home")).
Proof. eexists. vm_compute. reflexivity. Qed.

Lemma backup_restores_witness : exists source r,
  exportBackup pbkdf2 salt iv phone_id meta "correct horse" 600000 "https://noxa.example" "Home" = Ok source /\
  importBackup hs cv pbkdf2 source "correct horse" = Ok r /\ r_identity r = phone_id.
Proof.
  destruct (backup_restores hs cv pbkdf2 tagged_bytes tagged_length salt iv phone_id meta "correct horse" 600000 "https://noxa.example" "Home" phone_sound)
    as (source & r & E1 & E2 & E3 & _); [split; vm_compute; reflexivity || discriminate|split; reflexivity|split; vm_compute; discriminate|vm_compute; discriminate|exact text_ok|].
  exists source, r. auto.
Defined.

(** A passphrase of fewer than eight units is refused. *)
Lemma short_passphrase : utf16_length "short" = 5 /\ exportBackup pbkdf2 salt iv phone_id meta "short" 600000 "" "" = Err "passphrase too short"%string.
Proof. split; reflexivity. Qed.
End BackupDemo.
