(* ===== verification/SafetyQr.v ===== *)
(** * Safety-number codes ([safety-qr.js])

    Two users compare the keys they see for each other: each shows a code with the
    account that shows it, the account it is for and a digest of the material, and
    scans the other's code.

    - [buildSafetyPayload], [parseSafetyPayload], [checkSafetyScan]: the code's text;
    - [fingerprintPairDigest]: the digest over both accounts' fingerprints. *)

From stdpp Require Import base list strings.
From Stdlib Require Import ZArith Lia.
From S2P Require Import Prelude Json Text Crypto DeviceTrust DeviceLink.

Definition SAFETY_QR_PREFIX : string := "noxa-sn:v1".
Module SafetyScheme.
Definition pairwise : string := "o".
Definition fingerprint : string := "f".
End SafetyScheme.
Inductive SafetyScan := match_ | mismatch | wrongPair | otherScheme | invalid.
#[global] Instance SafetyScan_eq_dec : EqDecision SafetyScan.
Proof. solve_decision. Defined.

Definition is_scheme (s : string) : bool := bool_decide (s = SafetyScheme.pairwise) || bool_decide (s = SafetyScheme.fingerprint).

(** [/^[A-Za-z0-9+/=_-]{1,128}$/]. *)
Definition unique_id_char (c : Z) : bool :=
  ((65 <=? c) && (c <=? 90)) || ((97 <=? c) && (c <=? 122)) || is_digit c || (c =? 43) || (c =? 47) || (c =? 61) || (c =? 95) || (c =? 45).
Definition unique_id (s : string) : bool := all_chars unique_id_char s && (1 <=? utf8_length s) && (utf8_length s <=? 128).

(** [toLowerCase()]: no character outside ASCII has a hexadecimal digit as its lower case. *)
Definition lowered (s : string) : string := text (map lower (bytes_of s)).

Record safety := Safety { scheme : string; from : string; to : string; digest : string }.

Definition payload_text (s : safety) : string :=
  (SAFETY_QR_PREFIX +:+ ":" +:+ scheme s +:+ ":" +:+ from s +:+ ":" +:+ to s +:+ ":" +:+ digest s)%string.
Definition valid (s : safety) : bool := is_scheme (scheme s) && unique_id (from s) && unique_id (to s) && hex64 (digest s).

Definition buildSafetyPayload (sch me peer dig : string) : result string string :=
  let s := Safety sch me peer (lowered dig) in
  guard! valid s else "invalid safety QR payload"%string in Ok (payload_text s).

Definition parseSafetyPayload (source : string) : option safety :=
  if 400 <? utf16_length source then None else
  match split_on 58 (bytes_of (trim source)) [] with
  | [p0; p1; sch; f; t; d] =>
    let s := Safety (text sch) (text f) (text t) (text d) in
    if bool_decide ((text p0 +:+ ":" +:+ text p1)%string = SAFETY_QR_PREFIX) && valid s then Some s else None
  | _ => None
  end.

(** The comparison that does not stop at a difference. *)
Fixpoint difference (a b : list Z) (diff : Z) : Z :=
  match a, b with
  | x :: a', y :: b' => difference a' b' (Z.lor diff (Z.lxor x y))
  | _, _ => diff
  end.
Definition sameDigest (a b : string) : bool :=
  if utf8_length a =? utf8_length b then difference (bytes_of a) (bytes_of b) 0 =? 0 else false.

Definition checkSafetyScan (source sch me peer dig : string) : SafetyScan :=
  match parseSafetyPayload source with
  | None => invalid
  | Some scanned =>
    if negb (bool_decide (scheme scanned = sch)) then otherScheme
    else if negb (bool_decide (from scanned = peer)) || negb (bool_decide (to scanned = me)) then wrongPair
    else if sameDigest (digest scanned) (lowered dig) then match_ else mismatch
  end.

(** ** The digest of the fingerprint scheme *)

Definition normalizedFingerprint (value : string) : list Z := map lower (filter (fun c => is_hex c = true) (bytes_of value)).
Definition safety_entry (uniqueID fingerprint : string) : list Z := bytes_of uniqueID ++ 61 :: normalizedFingerprint fingerprint.

(** The order of [sort()] compares UTF-16 units: the order of the UTF-8 bytes, except that
    the code points above U+FFFF come before U+E000 and its successors. *)
Definition utf16_rank (b : Z) : Z := if (b =? 238) || (b =? 239) then 2 * b + 513 else 2 * b.
Fixpoint text_leb (a b : list Z) : bool :=
  match a, b with
  | [], _ => true
  | _ :: _, [] => false
  | x :: a', y :: b' => if x =? y then text_leb a' b' else utf16_rank x <? utf16_rank y
  end.
Definition sorted_pair (a b : list Z) : list (list Z) := if text_leb a b then [a; b] else [b; a].

Definition pair_transcript (a b : string * string) : result string (list Z) :=
  if bool_decide (normalizedFingerprint a.2 = []) || bool_decide (normalizedFingerprint b.2 = []) then Err "fingerprint unavailable"%string
  else Ok (bytes_of "noxa-safety-fp:v1|" ++ join 124 (sorted_pair (safety_entry a.1 a.2) (safety_entry b.1 b.2))).
Definition fingerprintPairDigest (hs : hashes) (a b : string * string) : result string string :=
  let! data := pair_transcript a b in Ok (hex_text (sha256 hs data)).

(** ** ASCII text *)

Definition printable (c : Z) : Prop := 33 <= c < 127.

Lemma code_points_ascii l : Forall (fun c => c < 128) l -> code_points l = Some l.
Proof. induction 1 as [|c l Hc _ IH]; [done|]. cbn [code_points]. by rewrite (proj2 (Z.ltb_lt _ _) Hc), IH. Qed.

Lemma drop_printable l : Forall printable l -> drop_spaces l = l.
Proof. intros H. destruct H as [|c l [H1 H2]]; [done|]. cbn [drop_spaces]. unfold is_space. zcases; done. Qed.

Lemma utf8_printable l : Forall printable l -> l ≫= utf8 = l.
Proof. induction 1 as [|c l [H1 H2] _ IH]; [done|]. rewrite bind_cons, IH. unfold utf8. zcases. done. Qed.

Lemma printable_ascii l : Forall printable l -> Forall (fun c => c < 128) l.
Proof. intros H. eapply Forall_impl; [exact H|]. unfold printable. lia. Qed.

Lemma trim_printable s : Forall printable (bytes_of s) -> trim s = s.
Proof.
  intros H. unfold trim. rewrite code_points_ascii by by apply printable_ascii.
  rewrite (drop_printable (bytes_of s)) by done. rewrite drop_printable by by apply Forall_reverse. rewrite reverse_involutive, utf8_printable by done.
  apply string_of_bytes_of.
Qed.

Lemma utf16_printable s : Forall printable (bytes_of s) -> utf16_length s = Z.of_nat (length (bytes_of s)).
Proof.
  intros H. unfold utf16_length. rewrite code_points_ascii by by apply printable_ascii.
  induction H as [|c l [H1 H2] _ IH]; [done|]. cbn [foldr length]. rewrite IH. zcases. lia.
Qed.

(** ** Pieces of a text *)

Lemma split_on_piece c a r acc : c ∉ a -> split_on c (a ++ c :: r) acc = (acc ++ a) :: split_on c r [].
Proof.
  revert acc. induction a as [|x a IH]; intros acc Hc; cbn [app split_on]; [by rewrite Z.eqb_refl, app_nil_r|].
  apply not_elem_of_cons in Hc as [Hx Ha]. destruct (Z.eqb_spec x c); [done|]. by rewrite IH, <- app_assoc.
Qed.

Lemma split_on_last c a acc : c ∉ a -> split_on c a acc = [acc ++ a].
Proof.
  revert acc. induction a as [|x a IH]; intros acc Hc; cbn [split_on]; [by rewrite app_nil_r|].
  apply not_elem_of_cons in Hc as [Hx Ha]. destruct (Z.eqb_spec x c); [done|]. by rewrite IH, <- app_assoc.
Qed.

Lemma split_on_nonempty c l acc : split_on c l acc <> [].
Proof. revert acc. induction l as [|x l IH]; intros acc; cbn [split_on]; [done|]. by destruct (x =? c). Qed.

Lemma join_split_on c l acc : join c (split_on c l acc) = acc ++ l.
Proof.
  revert acc. induction l as [|x l IH]; intros acc; cbn [split_on]; [by rewrite app_nil_r|]. destruct (Z.eqb_spec x c) as [->|].
  - destruct (split_on c l []) as [|p ps] eqn:E; [by apply split_on_nonempty in E|]. rewrite join_cons2, <- E, IH. done.
  - by rewrite IH, <- app_assoc.
Qed.

Lemma text_of s : text (bytes_of s) = s.
Proof. apply string_of_bytes_of. Qed.

Lemma split_on_bytes c l acc : all_bytes acc = true -> all_bytes l = true -> Forall (fun p => all_bytes p = true) (split_on c l acc).
Proof.
  revert acc. induction l as [|x l IH]; intros acc Ha Hl; cbn [split_on]; [by repeat constructor|].
  unfold all_bytes in Hl. cbn [forallb] in Hl. apply andb_true_iff in Hl as [Hx Hl]. destruct (x =? c); [apply Forall_cons; split; auto|].
  apply IH; [|done]. rewrite all_bytes_app, Ha. unfold all_bytes. cbn [forallb]. by rewrite Hx.
Qed.

(** ** The code's text *)

Lemma unique_id_chars s : unique_id s = true -> Forall printable (bytes_of s) /\ 58 ∉ bytes_of s /\ 124 ∉ bytes_of s.
Proof.
  unfold unique_id, all_chars. rewrite !andb_true_iff, forallb_forall. intros [[H _] _].
  assert (Hc : forall c, c ∈ bytes_of s -> printable c /\ c <> 58 /\ c <> 124).
  { intros c Hc. apply list_elem_of_In, H in Hc. unfold unique_id_char, is_digit in Hc. unfold printable. lia. }
  split; [apply Forall_forall; intros c [Hp _]%Hc; exact Hp|]. split; intros (_ & ? & ?)%Hc; done.
Qed.

Lemma hex64_chars s : hex64 s = true -> Forall printable (bytes_of s) /\ 58 ∉ bytes_of s.
Proof.
  unfold hex64, all_chars. rewrite !andb_true_iff, forallb_forall. intros [H _].
  assert (Hc : forall c, c ∈ bytes_of s -> printable c /\ c <> 58).
  { intros c Hc. apply list_elem_of_In, H in Hc. unfold is_hex_lower, is_digit in Hc. unfold printable. lia. }
  split; [apply Forall_forall; intros c [Hp _]%Hc; exact Hp|]. intros [_ ?]%Hc. done.
Qed.

Lemma scheme_chars s : is_scheme s = true -> Forall printable (bytes_of s) /\ 58 ∉ bytes_of s /\ length (bytes_of s) = 1%nat.
Proof.
  unfold is_scheme. rewrite orb_true_iff, !bool_decide_eq_true.
  intros [-> | ->]; [change (bytes_of _) with [111]|change (bytes_of _) with [102]]; (split; [apply Forall_singleton; by vm_compute|]; split; [by rewrite list_elem_of_singleton|done]).
Qed.

Lemma payload_bytes s : bytes_of (payload_text s) =
  join 58 [bytes_of "noxa-sn"; bytes_of "v1"; bytes_of (scheme s); bytes_of (from s); bytes_of (to s); bytes_of (digest s)].
Proof. unfold payload_text. rewrite !bytes_of_app. rewrite !join_cons2. cbn [join]. by flat_apps. Qed.

Lemma payload_printable s : valid s = true -> Forall printable (bytes_of (payload_text s)) /\ utf16_length (payload_text s) <= 400.
Proof.
  unfold valid. rewrite !andb_true_iff. intros [[[Hs Hf] Ht] Hd]. destruct (scheme_chars _ Hs) as (Ps & _ & Ls), (unique_id_chars _ Hf) as [Pf _],
    (unique_id_chars _ Ht) as [Pt _], (hex64_chars _ Hd) as [Pd _].
  assert (P : Forall printable (bytes_of (payload_text s))).
  { unfold payload_text. rewrite !bytes_of_app. repeat (apply Forall_app; split); try done; by repeat constructor. }
  split; [done|]. rewrite utf16_printable by done. unfold payload_text. rewrite !bytes_of_app, !length_app, Ls.
  unfold unique_id, hex64 in *. rewrite !andb_true_iff in *. unfold utf8_length in *. rewrite !bytes_of_length. cbn [String.length SAFETY_QR_PREFIX]. lia.
Qed.

(** Scanning is exact: a text is read as a code exactly if it is, up to white space
    around it, the text that [buildSafetyPayload] writes for it, and not too long. *)
Lemma parse_safety source s :
  parseSafetyPayload source = Some s <-> valid s = true /\ trim source = payload_text s /\ utf16_length source <= 400.
Proof.
  unfold parseSafetyPayload. destruct (Z.ltb_spec 400 (utf16_length source)) as [Hl|Hl]; [split; [done|lia]|]. split.
  - destruct (split_on 58 (bytes_of (trim source)) []) as [|p0 [|p1 [|sch [|f [|t [|d [|]]]]]]] eqn:E; try done.
    destruct (bool_decide _) eqn:Ep; [|done]. cbn [andb]. destruct (valid _) eqn:Ev; [|done]. intros [= <-]. split; [done|]. split; [|done].
    apply bool_decide_eq_true in Ep. apply bytes_of_inj. pose proof (join_split_on 58 (bytes_of (trim source)) []) as J.
    pose proof (split_on_bytes 58 _ [] eq_refl (bytes_of_range (trim source))) as B. rewrite E in J, B. cbn [app] in J. rewrite <- J.
    rewrite !Forall_cons in B. destruct B as (B0 & B1 & B2 & B3 & B4 & B5 & _). apply (f_equal bytes_of) in Ep. unfold text in Ep.
    rewrite !bytes_of_app, !bytes_of_string_of in Ep by done. rewrite payload_bytes. cbn [scheme from to digest]. unfold text. rewrite !bytes_of_string_of by done.
    rewrite !join_cons2. change (p0 ++ 58 :: p1 = bytes_of "noxa-sn" ++ 58 :: bytes_of "v1") in Ep.
    replace (p0 ++ 58 :: p1 ++ 58 :: sch ++ 58 :: f ++ 58 :: t ++ 58 :: join 58 [d]) with ((p0 ++ 58 :: p1) ++ 58 :: sch ++ 58 :: f ++ 58 :: t ++ 58 :: join 58 [d])
      by (by flat_apps). rewrite Ep. by flat_apps.
  - intros (Hv & -> & _). pose proof Hv as Hv'. unfold valid in Hv'. rewrite !andb_true_iff in Hv'. destruct Hv' as [[[Hs Hf] Ht] Hd].
    destruct (scheme_chars _ Hs) as (_ & Cs & _), (unique_id_chars _ Hf) as (_ & Cf & _), (unique_id_chars _ Ht) as (_ & Ct & _), (hex64_chars _ Hd) as [_ Cd].
    assert (C0 : 58 ∉ bytes_of "noxa-sn") by (apply (bool_decide_unpack _); by vm_compute).
    assert (C1 : 58 ∉ bytes_of "v1") by (apply (bool_decide_unpack _); by vm_compute).
    rewrite payload_bytes, !join_cons2. cbn [join]. rewrite !split_on_piece, split_on_last by (done).
    cbn [app]. rewrite !text_of. rewrite bool_decide_eq_true_2 by done. destruct s. cbn [scheme from to digest] in *. by rewrite Hv.
Qed.

Lemma difference_zero a b d : length a = length b -> difference a b d = 0 <-> d = 0 /\ a = b.
Proof.
  revert b d. induction a as [|x a IH]; intros [|y b] d L; try done; cbn [difference]; [naive_solver|].
  rewrite IH by (cbn in L; lia). rewrite Z.lor_eq_0_iff, Z.lxor_eq_0_iff. naive_solver.
Qed.

Lemma sameDigest_spec a b : sameDigest a b = true <-> a = b.
Proof.
  unfold sameDigest, utf8_length. destruct (Z.eqb_spec (Z.of_nat (String.length a)) (Z.of_nat (String.length b))) as [L|L].
  - rewrite Z.eqb_eq, difference_zero by (rewrite !bytes_of_length; lia). split; [intros [_ E]; by apply bytes_of_inj|by intros ->].
  - split; [done|]. by intros ->.
Qed.

(** A scanned code matches exactly if the other side shows these accounts with this digest. *)
Lemma scan_matches source sch me peer dig :
  checkSafetyScan source sch me peer dig = match_ <-> parseSafetyPayload source = Some (Safety sch peer me (lowered dig)).
Proof.
  unfold checkSafetyScan. destruct (parseSafetyPayload source) as [[sch' f t d]|]; [|done]. cbn [scheme from to digest].
  destruct (bool_decide_reflect (sch' = sch)) as [->|]; [|naive_solver]. destruct (bool_decide_reflect (f = peer)) as [->|]; [|naive_solver].
  destruct (bool_decide_reflect (t = me)) as [->|]; [|naive_solver]. cbn [negb orb].
  destruct (sameDigest d (lowered dig)) eqn:E; [apply sameDigest_spec in E as ->; done|]. split; [done|]. intros [= ->]. by rewrite (proj2 (sameDigest_spec _ _) eq_refl) in E.
Qed.

Lemma shown_scans sch me peer dig code : buildSafetyPayload sch me peer dig = Ok code -> parseSafetyPayload code = Some (Safety sch me peer (lowered dig)).
Proof.
  unfold buildSafetyPayload. destruct (valid _) eqn:Hv; [|done]. intros [= <-]. destruct (payload_printable _ Hv) as [Hp Hl].
  apply parse_safety. split; [done|]. split; [by apply trim_printable|done].
Qed.

(** ** Both sides' digests *)

Lemma utf16_rank_inj x y : utf16_rank x = utf16_rank y -> x = y.
Proof. unfold utf16_rank. zcases; lia. Qed.

Lemma text_leb_total a b : text_leb a b = true \/ text_leb b a = true.
Proof.
  revert b. induction a as [|x a IH]; intros [|y b]; [by left|by left|by right|]. cbn [text_leb]. rewrite (Z.eqb_sym y x).
  destruct (Z.eqb_spec x y) as [->|N]; [apply IH|]. rewrite !Z.ltb_lt. pose proof (utf16_rank_inj x y). lia.
Qed.

Lemma text_leb_antisym a b : text_leb a b = true -> text_leb b a = true -> a = b.
Proof.
  revert b. induction a as [|x a IH]; intros [|y b]; [done..|]. cbn [text_leb]. rewrite (Z.eqb_sym y x).
  destruct (Z.eqb_spec x y) as [->|N]; [intros H1 H2; f_equal; auto|]. rewrite !Z.ltb_lt. lia.
Qed.

Lemma sorted_pair_sym a b : sorted_pair a b = sorted_pair b a.
Proof.
  unfold sorted_pair. destruct (text_leb a b) eqn:E1, (text_leb b a) eqn:E2; try done; [by rewrite (text_leb_antisym a b)|].
  destruct (text_leb_total a b); congruence.
Qed.

Lemma sorted_pair_inj a b c d : sorted_pair a b = sorted_pair c d -> (a = c /\ b = d) \/ (a = d /\ b = c).
Proof. unfold sorted_pair. destruct (text_leb a b), (text_leb c d); intros [= -> ->]; auto. Qed.

Lemma normalized_chars v c : c ∈ normalizedFingerprint v -> is_hex_lower c = true.
Proof.
  unfold normalizedFingerprint. rewrite list_elem_of_fmap. intros (x & -> & [Hx _]%list_elem_of_filter). revert Hx. unfold is_hex, lower, is_hex_lower, is_digit.
  destruct ((65 <=? x) && (x <=? 90)) eqn:E; lia.
Qed.

Lemma entry_inj u u' v v' : safety_entry u v = safety_entry u' v' -> u = u' /\ normalizedFingerprint v = normalizedFingerprint v'.
Proof.
  unfold safety_entry. intros E. apply sep_split_last in E as [E1 E2]; [by split; [apply bytes_of_inj|]|by intros ?%normalized_chars..].
Qed.

Lemma entry_bar u v : unique_id u = true -> 124 ∉ safety_entry u v.
Proof.
  intros Hu. unfold safety_entry. rewrite elem_of_app, elem_of_cons. intros [H|[?|H]]; [|done|by apply normalized_chars in H].
  by destruct (unique_id_chars _ Hu) as (_ & _ & H').
Qed.

Lemma joined_pair_inj a b c d : 124 ∉ a -> 124 ∉ b -> 124 ∉ c -> 124 ∉ d ->
  join 124 (sorted_pair a b) = join 124 (sorted_pair c d) -> sorted_pair a b = sorted_pair c d.
Proof.
  intros Ha Hb Hc Hd. unfold sorted_pair. destruct (text_leb a b), (text_leb c d); rewrite !join_cons2; cbn [join];
    intros [-> ->]%sep_split; done.
Qed.

Section digests.
Variable hs : hashes.
Hypothesis sha_bytes : forall l, all_bytes (sha256 hs l) = true.

Lemma lowered_hex l : all_bytes l = true -> lowered (hex_text l) = hex_text l.
Proof.
  intros Hl. unfold lowered. rewrite <- (text_of (hex_text l)) at 2. f_equal.
  pose proof (hex_text_chars (fun c => lower c =? c) l Hl eq_refl) as F. rewrite forallb_forall in F.
  rewrite <- (map_id (bytes_of (hex_text l))) at 2. apply map_ext_in. intros c Hc. by apply F, Z.eqb_eq in Hc.
Qed.

(** C14: two users who each show the other's code find a match exactly if their digests
    have the same input up to a collision of SHA-256, and the inputs agree exactly
    if both devices see the same fingerprint for each of the two accounts. *)
Theorem safety_codes_agree me peer own_mine peer_mine own_theirs peer_theirs d d' code :
  me <> peer -> fingerprintPairDigest hs (me, own_mine) (peer, peer_mine) = Ok d ->
  fingerprintPairDigest hs (peer, own_theirs) (me, peer_theirs) = Ok d' ->
  buildSafetyPayload SafetyScheme.fingerprint peer me d' = Ok code ->
  exists T T', pair_transcript (me, own_mine) (peer, peer_mine) = Ok T /\ pair_transcript (peer, own_theirs) (me, peer_theirs) = Ok T' /\
    (checkSafetyScan code SafetyScheme.fingerprint me peer d = match_ <-> sha256 hs T = sha256 hs T') /\
    (T = T' <-> normalizedFingerprint own_mine = normalizedFingerprint peer_theirs /\ normalizedFingerprint peer_mine = normalizedFingerprint own_theirs).
Proof.
  intros Hn H H' Hc. unfold fingerprintPairDigest in H, H'. apply rbind_Ok in H as (T & HT & [= <-]), H' as (T' & HT' & [= <-]).
  exists T, T'. split; [done|]. split; [done|]. pose proof (shown_scans _ _ _ _ _ Hc) as Hs. split.
  - rewrite scan_matches, Hs, !lowered_hex by done. split; [intros [= E]; symmetry; by apply hex_text_inj|by intros ->].
  - unfold buildSafetyPayload in Hc. destruct (valid _) eqn:Hv; [|done]. unfold valid in Hv. rewrite !andb_true_iff in Hv. destruct Hv as [[[_ Hp] Hm] _].
    cbn [from to] in *. unfold pair_transcript in HT, HT'. cbn [fst snd] in *. destruct (_ || _) in HT; [done|]. destruct (_ || _) in HT'; [done|].
    assert (Inj : forall x y, @Ok string (list Z) x = Ok y -> x = y) by congruence. apply Inj in HT as <-, HT' as <-. split.
    + intros E%app_inv_head. apply joined_pair_inj in E; [|by apply entry_bar..].
      apply sorted_pair_inj in E as [[E _]|[[_ E1]%entry_inj [_ E2]%entry_inj]]; [|done]. by apply entry_inj in E as [? _].
    + intros [E1 E2]. rewrite sorted_pair_sym. unfold safety_entry. by rewrite E1, E2.
Qed.
End digests.

(** ** Two users with the same view, and one with another key *)

Module SafetyDemo.
(** A toy hash that keeps the head and the length of its input. *)
Definition hs : hashes := Hashes (fun m => map (fun x => x `mod` 256) (take 32 (reverse m ++ repeat 0 32))) (fun _ _ => repeat 8 32) (fun _ => repeat 9 24).
Lemma demo_sha_bytes l : all_bytes (sha256 hs l) = true.
Proof.
  cbn [hs sha256]. unfold all_bytes. apply forallb_forall. intros x. rewrite in_map_iff. intros (y & <- & _). apply is_byte_spec, Z.mod_pos_bound. lia.
Qed.

Definition digest_a : string := Eval vm_compute in match fingerprintPairDigest hs ("alice", "aa11 22bb") ("bob=", "cc33 44dd") with Ok d => d | Err _ => "" end.
Definition code : string := Eval vm_compute in match buildSafetyPayload "f" "bob=" "alice" digest_a with Ok t => t | Err _ => "" end.

Lemma safety_codes_agree_witness : checkSafetyScan code SafetyScheme.fingerprint "alice" "bob=" digest_a = match_.
Proof.
  destruct (safety_codes_agree hs demo_sha_bytes "alice" "bob=" "aa11 22bb" "cc33 44dd" "CC33 44DD" "AA11 22BB" digest_a digest_a code)
    as (T & T' & _ & _ & Hm & Ht); [discriminate|vm_compute; reflexivity..|].
  apply Hm, (f_equal (sha256 hs)), Ht. split; reflexivity.
Defined.

(** Another key of bob is noticed, and so are a code for someone else and one of the other scheme. *)
Lemma other_key_noticed :
  (let! d := fingerprintPairDigest hs ("alice", "aa11 22bb") ("bob=", "cc33 44de") in Ok (checkSafetyScan code "f" "alice" "bob=" d)) = Ok mismatch /\
  checkSafetyScan code "f" "carol" "bob=" digest_a = wrongPair /\ checkSafetyScan code "o" "alice" "bob=" digest_a = otherScheme /\
  checkSafetyScan "noxa-sn:v1:f" "f" "alice" "bob=" digest_a = invalid.
Proof. repeat split; vm_compute; reflexivity. Qed.
End SafetyDemo.
