(* ===== verification/DirectTrust.v ===== *)
(** * Whose keys direct messages are sealed for ([direct.js])

    Before a message is sealed the client asks the server for the key record and
    the device listing of an account, and decides with what it holds itself: the
    pin of the contact (a sealed record of the database), and for its own account
    the desktop's signed link statement.

    - [ownAnchor], [ownRoot]: the root of this account, from local evidence only;
    - [lookup]: one answer of the server, judged against the pin;
    - [setVerified], [acknowledgeDevices], [trustNewIdentity], [ratchetResetPending],
      [clearRatchetReset]: what the user changes;
    - [devicesOf], [callKey], [historicalSenderKey], [canSend]: what others ask.

    The operations are programs of the database, so other calls and other tabs run
    between their transactions; the queue that orders the writes of one object
    allows fewer orders than that.  [opened t] says whether the object is still open
    at the time [t].  The directory cache is an argument ([cached]), and a request
    shared by concurrent lookups is one call.

    What is proved: the devices of this account are only trusted from local evidence
    ([own_root_local]); a contact's key is only replaced by one the user confirmed
    ([contact_key_confirmed]); a pin that cannot be read is no pin
    ([unreadable_pin_replaced]). *)

From stdpp Require Import base gmap list strings.
From Stdlib Require Import ZArith Lia.
From S2P Require Import Prelude Json Text Crypto OlmAdmission OlmReset DeviceTrust Db DbAtomic RatchetAccount DeviceLink.

Definition pins : string := "pins".
Definition DIRECTORY_TTL : Z := 300000.

Inductive trust_state := TrustOk | TrustChanged | TrustUnavailable.

(** What [directory] holds of an account. *)
Record entry := Entry {
  e_at : Z; e_trust : trust_state; e_devices : list trusted_device; e_fingerprint : string; e_verified : bool;
  e_new : list trusted_device; e_signing : option (list Z); e_encryption : option (list Z); e_block : option string
}.
#[export] Instance entry_eta : Eta entry := fun r =>
  Entry (e_at r) (e_trust r) (e_devices r) (e_fingerprint r) (e_verified r) (e_new r) (e_signing r) (e_encryption r) (e_block r).

(** The link metadata of this device. *)
Record link_meta := LinkMeta { m_guest : bool; m_anchor : string; m_binding : option binding_statement }.

Record direct := Direct {
  own_uid : string; own_device : string; own_identity : option identity; own_meta : link_meta;
  own_fence : option fence; opened : Z -> bool
}.

(** [{signingKey, encryptionKey, anchored, block}] *)
Record root := Root { r_signing : option (list Z); r_encryption : option (list Z); r_anchored : bool; r_block : option string }.

Section direct.
Context `{Cipher}.
Variable hs : hashes.
Variable nc : nacl.
Variable cv : curves.
Variable me : direct.

(** ** The root of this account *)

Definition ownAnchor : option (list Z * option json) :=
  match own_identity me, m_binding (own_meta me) with
  | Some i, Some b =>
    if bool_decide (m_anchor (own_meta me) = ""%string) then None
    else
      match verifyLinkBinding hs cv (Some b) i (own_uid me) (m_anchor (own_meta me)), b_key b with
      | Ok _, Some (JStr key) => (fun k => (k, b_approver b)) <$> ed25519FromPEM key
      | _, _ => None
      end
  | _, _ => None
  end.

Definition ownRoot (record : option (list Z * list Z)) : root :=
  if m_guest (own_meta me) then
    match own_identity me with
    | Some i => Root (Some (edPublic i)) (Some (xPublic i)) true None
    | None => Root None None false None
    end
  else
    match ownAnchor with
    | None => Root None None false (Some "server_binding_unavailable"%string)
    | Some (key, _) =>
      match record with
      | None => Root (Some key) None true None
      | Some (signingKey, encryptionKey) =>
        if bool_decide (signingKey = key) then Root (Some key) (Some encryptionKey) true None
        else Root None None false (Some "server_binding_mismatch"%string)
      end
    end.

(** ** Reading and writing *)

Definition assertOpen : prog unit := Clock (fun t => if opened me t then Db.done tt else Db.throw "fenced").

Definition assertActive : prog unit :=
  do! _ := assertOpen in
  do! _ := match own_fence me with
           | Some expected =>
             do! actual := currentFence in
             check! active actual && (generation actual =? generation expected) else "fenced"%string in Db.done tt
           | None => Db.done tt
           end in
  assertOpen.

Definition put (store key : string) (value : json) : prog unit :=
  do! _ := assertOpen in
  match own_fence me with
  | Some expected => putSealedIn expected store key value
  | None => Db.throw "identity storage unavailable"
  end.

Definition read (store key : string) : prog (option json) :=
  do! _ := assertActive in
  do! value := getSealed store key in
  do! _ := assertActive in
  Db.done value.

(** [#pin]: an unreadable record is no pin. *)
Definition pin_of (uid : string) : prog (option json) :=
  settle (read pins uid) (fun r =>
    match r with
    | Ok v => Db.done v
    | Err e => if bool_decide (e = "fenced"%string) then Db.throw e else Db.done None
    end).

(** [.catch(() => {})] of a write. *)
Definition attempt_put (uid : string) (value : json) : prog unit := settle (put pins uid value) (fun _ => Db.done tt).

(** ** Judging an answer of the server *)

Definition pin_field (k : string) (pinned : option json) : option json := pinned ≫= field k.
Definition base_of (pinned : option json) : json := default (JObj []) pinned.
Definition key_b64 (key : list Z) : string := toBase64 key.
Definition fingerprint_of (key : list Z) : string := keyFingerprint hs (publicKeyPEM key).

Definition unavailable (at_ : Z) (block : option string) : entry := Entry at_ TrustUnavailable [] "" false [] None None block.

(** A stale own pin never outranks the anchored root. *)
Definition anchor_pin (uid : string) (anchored : bool) (signingB64 : string) (pinned : option json) : prog (option json) :=
  if anchored && truthy (pin_field "signingKey" pinned) && negb (is_text (pin_field "signingKey" pinned) signingB64) then
    let fresh := jdel "devices" (jset "verified" (JBool false) (jset "signingKey" (JStr signingB64) (base_of pinned))) in
    do! _ := attempt_put uid fresh in Db.done (Some fresh)
  else Db.done pinned.

(** The pin no longer fits the key: another key is pinned, or only another one was confirmed. *)
Definition key_changed (pinned : option json) (signingB64 fingerprint : string) : bool :=
  (truthy (pin_field "signingKey" pinned) && negb (is_text (pin_field "signingKey" pinned) signingB64)) ||
  (negb (truthy (pin_field "signingKey" pinned)) && truthy (pin_field "confirmed" pinned) && negb (is_text (pin_field "confirmed" pinned) fingerprint)).

Definition id_list (l : list trusted_device) : json := JArr (map (fun d => JStr (deviceID d)) l).

(** The part of [#lookup] that has a key to judge. *)
Definition judge (uid : string) (own : option root) (e : entry) (devices : json) (signingKey : list Z) (encryptionKey : option (list Z)) : prog entry :=
  do! stored := pin_of uid in
  let signingB64 := key_b64 signingKey in
  let fingerprint := fingerprint_of signingKey in
  do! pinned := anchor_pin uid (match own with Some r => r_anchored r | None => false end) signingB64 stored in
  if key_changed pinned signingB64 fingerprint then
    do! _ := (if truthy (pin_field "verified" pinned) then attempt_put uid (jset "verified" (JBool false) (base_of pinned)) else Db.done tt) in
    Db.done (e <| e_trust := TrustChanged |> <| e_fingerprint := fingerprint |>
               <| e_block := match own with Some _ => Some "server_binding_mismatch"%string | None => e_block e end |>)
  else
    let list_ := trustedDevices cv uid (Some devices) (Some signingKey) encryptionKey in
    let ok := e <| e_trust := TrustOk |> <| e_fingerprint := fingerprint |> <| e_signing := Some signingKey |> <| e_encryption := encryptionKey |>
                <| e_devices := list_ |> <| e_verified := truthy (pin_field "verified" pinned) |> in
    if is_array (pin_field "devices" pinned) then
      Db.done (ok <| e_new := filter (fun d => JStr (deviceID d) ∉ items (pin_field "devices" pinned)) list_ |>)
    else
      Clock (fun now =>
        let at_ := if truthy (pin_field "at" pinned) then default JNull (pin_field "at" pinned) else JNum now in
        do! _ := attempt_put uid (jset "devices" (id_list list_) (jset "at" at_ (jset "signingKey" (JStr signingB64) (base_of pinned)))) in
        Db.done ok).

(** [#lookup]: [answer] is the server's, or the error of the request. *)
Definition lookup_ (uid : string) (answer : result string json) : prog entry :=
  pure! response := answer in
  do! _ := assertActive in
  let record := parseKeyRecord nc (field "public_key" response) uid in
  let devices := if truthy (field "devices" response) then default JNull (field "devices" response) else JArr [] in
  let own := if bool_decide (uid = own_uid me) then Some (ownRoot record) else None in
  let '(signingKey, encryptionKey) :=
    match own with Some r => (r_signing r, r_encryption r) | None => (fst <$> record, snd <$> record) end in
  Clock (fun now =>
    let e := unavailable now (own ≫= r_block) in
    do! e := match signingKey with Some k => judge uid own e devices k encryptionKey | None => Db.done e end in
    do! _ := assertActive in
    Db.done e).

Definition devicesOf (uid : string) (cached : option entry) (refresh : bool) (answer : result string json) : prog entry :=
  do! _ := assertActive in
  Clock (fun now =>
    match cached with
    | Some e => if negb refresh && (now - e_at e <? DIRECTORY_TTL) then Db.done e else lookup_ uid answer
    | None => lookup_ uid answer
    end).

(** ** What the user changes *)

(** Returns the cached entry as it is afterwards. *)
Definition setVerified (uid : string) (verified : bool) (fingerprint : option string) (cached : option entry) : prog (option entry) :=
  do! pinned := pin_of uid in
  check! truthy (pin_field "signingKey" pinned) else "no identity to verify"%string in
  check! negb verified || match fingerprint with
                          | Some f => bool_decide (keyFingerprint hs (text (line "-----BEGIN PUBLIC KEY-----" ++ bytes_of (String_of (pin_field "signingKey" pinned)) ++
                                        [10] ++ line "-----END PUBLIC KEY-----")) = f)
                          | None => true
                          end else "the contact's identity changed since the scan"%string in
  do! _ := put pins uid (jset "verified" (JBool verified) (base_of pinned)) in
  Db.done ((fun e => match e_trust e with TrustOk => e <| e_verified := verified |> | _ => e end) <$> cached).

Definition acknowledgeDevices (uid : string) (cached : option entry) : prog (option entry) :=
  do! pinned := pin_of uid in
  match cached with
  | Some e =>
    match e_trust e with
    | TrustOk =>
      if truthy (pin_field "signingKey" pinned) then
        do! _ := put pins uid (jset "devices" (id_list (e_devices e)) (base_of pinned)) in
        Db.done (Some (e <| e_new := [] |>))
      else Db.done cached
    | _ => Db.done cached
    end
  | None => Db.done cached
  end.

(** [trustNewIdentity] up to the reset of the ratchet's trust records, which is the
    consumer's ([RatchetConsumer.resetTrustRecords]). *)
Definition trustNewIdentity (uid fingerprint : string) (answer : result string json) : prog entry :=
  check! negb (bool_decide (fingerprint = ""%string)) else "the confirmed fingerprint is required"%string in
  Random 16 (fun b =>
    do! _ := put pins uid (JObj [("ratchetReset", JStr (uuid_of b)); ("confirmed", JStr fingerprint)]%string) in
    devicesOf uid None true answer).

Definition ratchetResetPending (uid : string) : prog string :=
  do! pinned := pin_of uid in
  Db.done (if truthy (pin_field "signingKey" pinned) then str_of (pin_field "ratchetReset" pinned) else ""%string).

Definition clearRatchetReset (uid token : string) : prog unit :=
  do! pinned := pin_of uid in
  if negb (bool_decide (token = ""%string)) && is_text (pin_field "ratchetReset" pinned) token
  then put pins uid (jset "ratchetReset" (JStr "") (base_of pinned)) else Db.done tt.

(** ** What others ask *)

Definition canSend (cached : option entry) (answer : result string json) : prog bool :=
  do! own := devicesOf (own_uid me) cached false answer in
  Db.done (existsb (fun d => bool_decide (deviceID d = own_device me)) (e_devices own)).

Definition historicalSenderKey (uid deviceID_ encoded : string) (chain : json) (cached : option entry) (answer : result string json) : prog (option (list Z)) :=
  if negb (is_array (Some chain)) || (count (Some chain) =? 0) || (64 <? count (Some chain)) then Db.done None
  else
    do! e := devicesOf uid cached false answer in
    match e_trust e, e_signing e with
    | TrustOk, Some k =>
      Db.done (d_x25519 <$> List.find (fun d => bool_decide (deviceID d = deviceID_) && bool_decide (x25519B64 d = encoded))
                              (trustedDevices cv uid (Some chain) (Some k) (e_encryption e)))
    | _, _ => Db.done None
    end.

(** One round of [callKey]: a key, no key at all ([None]), or another round. *)
Definition call_round (uid encoded deviceID_ : string) (cached : option entry) (refresh : bool) (answer : result string json)
    : prog (option (option (list Z))) :=
  settle (devicesOf uid cached refresh answer) (fun r =>
    match r with
    | Ok e =>
      match e_trust e with
      | TrustOk =>
        if negb (bool_decide (deviceID_ = ""%string)) then
          match List.find (fun d => bool_decide (deviceID d = deviceID_) && bool_decide (x25519B64 d = encoded)) (e_devices e) with
          | Some d => Db.done (Some (Some (d_x25519 d)))
          | None => Db.done None
          end
        else
          let record := parseKeyRecord nc (Some (JStr encoded)) uid in
          do! pinned := pin_of uid in
          match record with
          | Some (signingKey, encryptionKey) =>
            if is_text (pin_field "signingKey" pinned) (toBase64 signingKey) ||
               (bool_decide (uid = own_uid me) && existsb (fun d => bool_decide (x25519B64 d = toBase64 encryptionKey)) (e_devices e))
            then Db.done (Some (Some encryptionKey)) else Db.done None
          | None => Db.done None
          end
      | _ => Db.done (Some None)
      end
    | Err _ => Db.done (Some None)
    end).

Definition callKey (uid encoded deviceID_ : string) (cached : option entry) (first second : result string json) : prog (option (list Z)) :=
  do! r := call_round uid encoded deviceID_ cached false first in
  match r with
  | Some k => Db.done k
  | None =>
    do! r := call_round uid encoded deviceID_ cached true second in
    Db.done (default None r)
  end.
End direct.

(** ** What the root of this account rests on *)

Section own_root.
Context `{Cipher}.
Variable hs : hashes.
Variable nc : nacl.
Variable cv : curves.
Variable me : direct.

(** What a program returns, whatever transactions run. *)
#[local] Abbreviation returns p Q := (only (fun _ _ => True) p Q).

(** What this device holds itself: its own key (a guest), or a statement whose key
    has the fingerprint that came with the link, and signed the statement for exactly
    the keys of this device. *)
Definition local_root (k : list Z) : Prop :=
  exists i, own_identity me = Some i /\
  if m_guest (own_meta me) then k = edPublic i
  else exists s pem signature binding, m_binding (own_meta me) = Some s /\ b_key s = Some (JStr pem) /\ ed25519FromPEM pem = Some k /\
         m_anchor (own_meta me) <> ""%string /\ keyFingerprint hs pem = m_anchor (own_meta me) /\
         verifySignature cv signature (linkBindingTranscript (String_of (b_principal s)) (String_of (b_approver s)) (own_pem i) (own_x25519 i) binding) k = true.

Lemma anchor_local k a : m_guest (own_meta me) = false -> ownAnchor hs cv me = Some (k, a) -> local_root k.
Proof.
  intros Hg. unfold ownAnchor, local_root. destruct (own_identity me) as [i|]; [|done]. destruct (m_binding (own_meta me)) as [s|] eqn:Es; [|done].
  case_bool_decide as Ha; [done|]. destruct (verifyLinkBinding _ _ _ _ _ _) as [b|e] eqn:Ev; [|done].
  destruct (b_key s) as [[| | |pem| |]|] eqn:Ek; try done. intros (k' & Hk & [= <- _])%fmap_Some_1. exists i. split; [done|]. rewrite Hg.
  unfold verifyLinkBinding in Ev. destruct (if truthy _ then _ else _) as [x|]; [|done]. rewrite Ek in Ev. destruct (tls_sha256 _ && _ && _); [|done].
  rewrite Hk in Ev. destruct (_ || _); [|done]. destruct (_ && bool_decide _) eqn:Ef; [|done].
  apply andb_true_iff in Ef as [_ Ef%bool_decide_eq_true]. destruct (atob _) as [signature|]; [|done].
  destruct (_ && _) eqn:Esig; [|done]. apply andb_true_iff in Esig as [_ Esig].
  exists s, pem, signature, (js_String x). by split_and!.
Qed.

Lemma ownRoot_local record k : r_signing (ownRoot hs cv me record) = Some k -> local_root k.
Proof.
  unfold ownRoot. destruct (m_guest (own_meta me)) eqn:Hg.
  - destruct (own_identity me) as [i|] eqn:Ei; [|done]. intros [= <-]. exists i. by rewrite Ei, Hg.
  - destruct (ownAnchor hs cv me) as [[key a]|] eqn:Ea; [|done]. destruct record as [[s x]|]; [case_bool_decide|]; try done.
    all: intros [= <-]; by eapply anchor_local.
Qed.

(** What an answer of the server is judged to be. *)
Definition judged (uid : string) (devices : json) (k : list Z) (enc : option (list Z)) (e : entry) : Prop :=
  e_trust e = TrustOk ->
  e_signing e = Some k /\ e_encryption e = enc /\ e_devices e = trustedDevices cv uid (Some devices) (Some k) enc.

Lemma judge_judged uid own e devices k enc : e_trust e = TrustUnavailable ->
  returns (judge hs cv me uid own e devices k enc) (judged uid devices k enc).
Proof.
  intros He. unfold judge. eapply only_bind; [apply only_result|]. intros stored _. eapply only_bind; [apply only_result|]. intros pinned _.
  destruct (key_changed _ _ _).
  - eapply only_bind; [apply only_result|]. intros _ _. by intros ?.
  - destruct (is_array _); [by intros _|]. intros now. eapply only_bind; [apply only_result|]. intros _ _. by intros _.
Qed.

(** C8: the trust in this account's own devices never comes from the server alone.
    Whatever the server answers, whatever is stored and whatever other tabs do: when
    the devices of this account are trusted, the key they are trusted from is the key
    of this device (a guest), or the key of a statement that names exactly the keys of
    this device, is signed with this key, and whose fingerprint is the one that came
    with the link; and the devices are those that signatures from this key vouch
    for. *)
Theorem own_root_local env answer d l e d' :
  exec env (lookup_ hs nc cv me (own_uid me) answer) d l (Ok e) d' -> e_trust e = TrustOk ->
  exists k devices, local_root k /\ e_signing e = Some k /\
    e_devices e = trustedDevices cv (own_uid me) (Some devices) (Some k) (e_encryption e).
Proof.
  intros He. set (Q e := e_trust e = TrustOk -> exists k devices, local_root k /\ e_signing e = Some k /\
    e_devices e = trustedDevices cv (own_uid me) (Some devices) (Some k) (e_encryption e)).
  change (Q e). refine (only_exec_result env _ Q _ _ _ _ _ He). unfold lookup_.
  apply only_pure. intros response _. eapply only_bind; [apply only_result|]. intros _ _. rewrite bool_decide_true by done.
  set (record := parseKeyRecord _ _ _). set (devices := if truthy _ then _ else _). intros now.
  destruct (r_signing (ownRoot hs cv me record)) as [k|] eqn:Er.
  - eapply only_bind; [by apply judge_judged|]. intros e1 Hj. eapply only_bind; [apply only_result|]. intros _ _ Ht.
    destruct (Hj Ht) as (Hk & Henc & Hd). exists k, devices. split_and!; [by eapply ownRoot_local|done|by rewrite Henc].
  - eapply only_bind with (Q := fun e => e_trust e = TrustUnavailable); [done|]. intros e1 He1. eapply only_bind; [apply only_result|]. intros _ _. cbn [only Db.done]. congruence.
Qed.
End own_root.

(** ** Which key of a contact is pinned *)

Section pinned.
Context `{Cipher}.
Variable hs : hashes.
Variable nc : nacl.
Variable cv : curves.

(** The identity generation, the contact, the key that is pinned at first, and the
    fingerprints the user confirmed for this contact. *)
Variable g : Z.
Variable uid : string.
Variable K : string.
Variable C : string -> Prop.

Definition accepted (k : string) : Prop := k = K \/ exists raw, k = key_b64 raw /\ C (fingerprint_of hs raw).

(** A pin holds an accepted key, or none and a confirmed fingerprint. *)
Definition pin_ok (v : json) : Prop :=
  if truthy (field "signingKey" v) then exists k, field "signingKey" v = Some (JStr k) /\ accepted k
  else exists f, field "confirmed" v = Some (JStr f) /\ f <> ""%string /\ C f.

(** The record [r] opens to such a pin. *)
Definition fits (r : option record_) (d : database) : Prop := generation (current d) = g ->
  exists x wk v, r = Some x /\ wrapping_key d = Some wk /\ opens_to wk x v /\ pin_ok v.
Definition pin_kept (d : database) : Prop := g <= generation (current d) /\ fits (stores d !! (pins, uid)) d.
Definition moves (d d' : database) : Prop :=
  generation (current d) <= generation (current d') /\ (forall k, wrapping_key d = Some k -> wrapping_key d' = Some k).

Notation safe_ := (safe pin_kept moves).
Notation Safe p d := (safe pin_kept moves p (fun _ _ => True) d).

#[local] Instance moves_refl : Reflexive moves.
Proof. by split. Qed.

(** What is known in generation [g] stays known. *)
Lemma in_generation_stable (P : database -> Prop) :
  (forall d d', moves d d' -> P d -> P d') -> stable pin_kept moves (fun d => generation (current d) = g -> P d).
Proof. intros HP d d' H1 [H2 _] _ Hm Hg. apply (HP d); [done|]. apply H1. destruct Hm. lia. Qed.

Lemma fits_stable r : stable pin_kept moves (fits r).
Proof.
  apply (in_generation_stable (fun d => exists x wk v, r = Some x /\ wrapping_key d = Some wk /\ opens_to wk x v /\ pin_ok v)).
  intros d d' [_ Hk] (x & wk & v & H1 & H2 & H3). exists x, wk, v. split_and!; [done|by apply Hk|apply H3..].
Qed.

Lemma safe_true {A} (p : prog A) Q d : safe_ p Q d -> Safe p d.
Proof. by apply safe_mono. Qed.

Lemma look_safe {A} (f : database -> A) Q d : (forall d', rely pin_kept moves d d' -> pin_kept d' -> Q (Ok (f d')) d') -> safe_ (view f) Q d.
Proof. apply safe_view. intros; reflexivity. Qed.

(** A transaction that leaves the fence, the wrapping key and this pin alone. *)
Lemma pin_aside d d' : pin_kept d -> fence_rec d' = fence_rec d -> wrapping_key d' = wrapping_key d ->
  stores d' !! (pins, uid) = stores d !! (pins, uid) -> pin_kept d' /\ moves d d'.
Proof. unfold pin_kept, fits, moves, current. intros Hk -> -> ->. split; [exact Hk|]. by split. Qed.

Lemma key_safe create d : safe_ (wrappingKey create) (fun r d' => forall k, r = Ok k -> wrapping_key d' = Some k) d.
Proof.
  unfold wrappingKey. apply safe_bind, look_safe. intros d1 _ _. destruct (wrapping_key d1) eqn:E; [cbn; congruence|].
  destruct create; [|done]. intros b _ d2 _ HI. unfold choose_key. destruct (wrapping_key d2) eqn:E2; [cbn; by split_and!; [..|congruence]|].
  destruct (holds_data d2); [by split_and!|]. cbn. destruct HI as [H1 H2]. split_and!.
  - split; [done|]. intros Hg. destruct (H2 Hg) as (x & wk & v & _ & Hk & _). congruence.
  - split; [done|]. intros k. congruence.
  - congruence.
Qed.

Lemma sealing_safe plain d : safe_ (seal plain []) (fun r d' => forall v, r = Ok v ->
  exists k, wrapping_key d' = Some k /\ decrypt k (iv v) [] (sealed v) = Some plain) d.
Proof.
  intros b _. apply safe_bind. eapply safe_mono; [|apply key_safe]. intros [k|e] d' Hk; [|done]. intros v [= <-].
  exists k. split; [by apply Hk|apply decrypt_encrypt].
Qed.

(** A sealed write: of another record, in another generation, or of a fitting pin. *)
Definition may_put (f : fence) (store key : string) (w : json) (d : database) : Prop :=
  (store, key) = (pins, uid) -> generation f = g -> generation (current d) = g -> pin_ok w.

Lemma may_put_stable f store key w : stable pin_kept moves (may_put f store key w).
Proof. intros d d' H1 [H2 _] _ [H3 _] E Ef Hg. apply H1; [done..|lia]. Qed.

Lemma sealed_pin_safe f store key w d : may_put f store key w d -> Safe (putSealedIn f store key w) d.
Proof.
  intros Hw. apply safe_bind. eapply safe_mono; [|apply (safe_keep _ (may_put f store key w)); [apply may_put_stable|exact Hw|apply sealing_safe]].
  intros [r|e] d1 [Hr Hw1]; [|done]. destruct (Hr r eq_refl) as (k & Hk & Hd). intros d2 Hrel HI. cbv beta zeta.
  destruct (_ && _) eqn:Ef; [|by split_and!]. rewrite andb_true_iff, Z.eqb_eq in Ef. destruct Ef as [Ef _]. cbn [fst snd safe].
  destruct (decide ((store, key) = (pins, uid))) as [E|Hne].
  2: { destruct (pin_aside d2 (put_record store key r d2) HI) as [? ?]; [done|done| |by split_and!]. unfold put_record, set_field. cbn. by rewrite lookup_insert_ne. }
  injection E as -> ->. split_and!; [|by split|done]. destruct HI as [H1 H2]. split; [exact H1|]. intros Hg. change (generation (current d2) = g) in Hg.
  assert (stable pin_kept moves (fun d => wrapping_key d = Some k)) as Hst by (intros ?? ? _ _ [_ Hm]; by apply Hm).
  exists r, k, w. unfold put_record, set_field. cbn. rewrite lookup_insert_eq. split_and!; [done|by apply (stable_rely _ _ _ _ _ Hst Hrel)| |].
  - exists (stringify w). split; [done|apply parse_stringify].
  - assert (may_put f pins uid w d2) as Hw2; [|apply Hw2; congruence]. eapply stable_rely; [apply may_put_stable|exact Hrel|exact Hw1].
Qed.

Lemma value_safe x d : fits (Some x) d -> safe_ (read_value x) (fun r d' => generation (current d') = g -> exists v, r = Ok v /\ pin_ok v) d.
Proof.
  intros Hf. unfold read_value, unseal. apply safe_bind, safe_bind.
  assert (safe_ (wrappingKey false) (fun r d' => fits (Some x) d' /\ (r = Ok (default [] (wrapping_key d')) \/ wrapping_key d' = None)) d) as Hk.
  { unfold wrappingKey. apply safe_bind, look_safe. intros d1 Hr HI. assert (Hf1 : fits (Some x) d1) by (by eapply stable_rely; [apply fits_stable|..]).
    destruct (wrapping_key d1) eqn:E; cbn; (split; [done|]); [left|by right]. by rewrite E. }
  eapply safe_mono; [|exact Hk]. intros r d' [Hfits Hor]. destruct r as [k|e].
  - destruct (decrypt k (iv x) [] (sealed x)) as [plain|] eqn:Ed; cbn; [destruct (parse plain) as [v|] eqn:Ep; cbn|].
    all: intros Hg; destruct (Hfits Hg) as (x' & wk & v' & [= <-] & Hwk & (plain' & Hd & Hp) & Hok); destruct Hor as [[= ->]|Hor]; [|congruence].
    all: rewrite Hwk in Ed; cbn in Ed; try congruence.
    + exists v. split; [done|]. congruence.
  - intros Hg. destruct (Hfits Hg) as (x' & wk & v' & _ & Hwk & _). destruct Hor; congruence.
Qed.
(** *** One object *)

Section object.
Variable me : direct.

(** An object of the generation [g], and what it knows of the pin. *)
Definition ours : Prop := exists f, own_fence me = Some f /\ generation f = g.
Definition knows (u : string) (v : option json) (d : database) : Prop :=
  ours -> u = uid -> generation (current d) = g -> exists j, v = Some j /\ pin_ok j.

Lemma knows_stable u v : stable pin_kept moves (knows u v).
Proof.
  intros d d' H1 [H2 _] _ [H3 _] Ho Hu Hg. apply H1; [done..|lia].
Qed.

Lemma knows_set u k x v d : k <> "signingKey"%string -> k <> "confirmed"%string -> knows u v d -> knows u (Some (jset k x (base_of v))) d.
Proof.
  intros H1 H2 Hk Ho Hu Hg. destruct (Hk Ho Hu Hg) as (j & -> & Hj). eexists. split; [done|]. unfold pin_ok in *. cbn [base_of default].
  by rewrite !field_jset_ne.
Qed.

Lemma open_safe d : safe_ (assertOpen me) (fun r _ => match r with Ok _ => True | Err e => e = "fenced"%string end) d.
Proof. intros t. by destruct (opened me t). Qed.

Lemma active_safe d : safe_ (assertActive me) (fun r d' => match r with Ok _ => ours -> generation (current d') = g | Err e => e = "fenced"%string end) d.
Proof.
  apply safe_bind. eapply safe_mono; [|apply open_safe]. intros [[]|e] d1 He; [|done]. destruct (own_fence me) as [f|] eqn:Ef.
  - apply safe_bind, safe_bind, look_safe. intros d2 _ _. destruct (_ && _) eqn:Eg; [|done]. rewrite andb_true_iff, Z.eqb_eq in Eg. cbn [safe Db.done].
    intros t. destruct (opened me t); [|done]. intros (f' & Hf' & Hf). assert (f' = f) as -> by congruence. lia.
  - apply safe_pure. intros t. destruct (opened me t); [|done]. intros (f & ? & _). congruence.
Qed.

Lemma value_any x d : Safe (read_value x) d.
Proof.
  unfold read_value, unseal. apply safe_bind, safe_bind. eapply safe_mono; [|apply key_safe]. intros [k|e] d' _; [|done].
  destruct (decrypt _ _ _ _) as [plain|]; [|done]. cbn. by destruct (parse plain).
Qed.

Lemma getSealed_knows u d :
  safe_ (getSealed pins u) (fun r d' => u = uid -> generation (current d') = g -> exists j, r = Ok (Some j) /\ pin_ok j) d.
Proof.
  apply safe_bind, look_safe. intros d1 _ [_ Hf]. destruct (decide (u = uid)) as [->|Hne].
  - destruct (stores d1 !! (pins, uid)) as [x|].
    + apply safe_bind. eapply safe_mono; [|by apply value_safe]. intros [v|e] d2 Hv; cbn; intros _ Hg; destruct (Hv Hg) as (j & E & Hj); [|done].
      exists j. by injection E as ->.
    + cbn. intros _ Hg. by destruct (Hf Hg) as (x & _ & _ & ? & _).
  - destruct (stores d1 !! (pins, u)) as [x|]; [|by intros ?]. apply safe_bind. eapply safe_mono; [|apply value_any]. intros [v|e] d2 _; by intros ?.
Qed.

Lemma pin_of_safe u d : safe_ (pin_of me u) (fun r d' => forall v, r = Ok v -> knows u v d') d.
Proof.
  apply safe_settle, safe_bind. eapply safe_mono; [|apply active_safe]. intros [[]|e] d1 He; [|by subst].
  apply safe_bind. eapply safe_mono; [|apply getSealed_knows]. intros [v|e] d2 Hv.
  - apply safe_bind. eapply safe_mono; [|apply (safe_keep _ (knows u v)); [apply knows_stable| |apply active_safe]].
    + intros [[]|e] d3 [Hact Hk]; [|by subst]. cbn. by intros v' [= <-].
    + intros _ Hu Hg. destruct (Hv Hu Hg) as (j & [= ->] & Hj). by exists j.
  - case_bool_decide; [done|]. cbn. intros v [= <-] _ Hu Hg. by destruct (Hv Hu Hg) as (j & ? & _).
Qed.

Lemma put_safe u w d : knows u (Some w) d -> Safe (put me pins u w) d.
Proof.
  intros Hk. apply safe_bind. eapply safe_mono; [|apply (safe_keep _ (knows u (Some w))); [apply knows_stable|exact Hk|apply open_safe]].
  intros [[]|e] d1 [_ Hk1]; [|done]. destruct (own_fence me) as [f|] eqn:Ef; [|done]. apply sealed_pin_safe. intros [= ->] Hg Hg'.
  destruct (Hk1 ltac:(by exists f) eq_refl Hg') as (j & [= ->] & Hj). done.
Qed.
Lemma attempt_safe u w d : knows u (Some w) d -> Safe (attempt_put me u w) d.
Proof. intros Hk. apply safe_settle. eapply safe_mono; [|by apply put_safe]. done. Qed.

(** *** Its operations *)

Definition entry_ok (e : entry) : Prop := e_trust e = TrustOk -> exists k, e_signing e = Some k /\ accepted (key_b64 k).
Definition entries_ok (u : string) (c : option entry) : Prop := forall e, c = Some e -> ours -> u = uid -> entry_ok e.
Definition gives (u : string) (r : result string (option entry)) : Prop := forall c, r = Ok c -> entries_ok u c.

(** [uid] is a contact, not the account of the object itself. *)
Hypothesis contact : ours -> own_uid me <> uid.

Lemma anchor_safe u anchored b pinned d : (anchored = true -> u = own_uid me) -> knows u pinned d ->
  safe_ (anchor_pin me u anchored b pinned) (fun r d' => forall v, r = Ok v -> knows u v d') d.
Proof.
  intros Ho Hk. unfold anchor_pin. destruct (anchored && _ && _) eqn:E; [|by intros v [= <-]]. rewrite !andb_true_iff in E. destruct E as [[E _] _].
  assert (Hany : forall v d', knows u v d') by (intros v d' H1 H2; specialize (Ho E); specialize (contact H1); congruence).
  apply safe_bind. eapply safe_mono; [|by apply attempt_safe]. intros [[]|e] d' _; [|done]. by intros v [= <-].
Qed.

(** A key that still fits a good pin is an accepted one, and may be pinned. *)
Lemma fitting_accepted j b fingerprint : pin_ok j -> key_changed (Some j) b fingerprint = false ->
  field "signingKey" j = Some (JStr b) \/ truthy (field "signingKey" j) = false /\ field "confirmed" j = Some (JStr fingerprint) /\ C fingerprint /\ fingerprint <> ""%string.
Proof.
  unfold pin_ok, key_changed, pin_field, is_text. cbn [mbind option_bind]. destruct (truthy (field "signingKey" j)) eqn:Et; cbn [negb andb orb].
  - intros _. rewrite orb_false_r, negb_false_iff, bool_decide_eq_true. auto.
  - intros (f & -> & Hf & HC). cbn [truthy]. rewrite bool_decide_false by done. cbn [negb andb]. rewrite negb_false_iff, bool_decide_eq_true.
    intros [= <-]. by right.
Qed.

Lemma fits_accepted j k : pin_ok j -> key_changed (Some j) (key_b64 k) (fingerprint_of hs k) = false -> accepted (key_b64 k).
Proof.
  intros Hj Hc. destruct (fitting_accepted j _ _ Hj Hc) as [E|(_ & _ & HC & _)]; [|right; by exists k]. unfold pin_ok in Hj. rewrite E in Hj.
  destruct (truthy _) eqn:Et.
  - by destruct Hj as (k' & [= <-] & ?).
  - cbn in Et. unfold key_changed, pin_field in Hc. cbn [mbind option_bind] in Hc. rewrite E in Hc. cbn [truthy] in Hc. rewrite Et in Hc. cbn [andb orb] in Hc.
    destruct Hj as (f & Ef & Hne & HC). rewrite Ef in Hc. cbn [truthy negb andb] in Hc. rewrite bool_decide_false in Hc by done. cbn [negb andb] in Hc.
    unfold is_text in Hc. rewrite negb_false_iff, bool_decide_eq_true in Hc. injection Hc as ->. right. by exists k.
Qed.

Lemma pinned_ok j k l a : pin_ok j -> key_changed (Some j) (key_b64 k) (fingerprint_of hs k) = false ->
  pin_ok (jset "devices" l (jset "at" a (jset "signingKey" (JStr (key_b64 k)) j))).
Proof.
  intros Hj Hc. pose proof (fits_accepted j k Hj Hc) as Ha. destruct (fitting_accepted j _ _ Hj Hc) as [E|(Et & E & HC & Hne)]; unfold pin_ok in *; autorewrite with fields.
  - rewrite E in Hj. destruct (truthy _); [by exists (key_b64 k)|done].
  - destruct (truthy (Some _)); [by exists (key_b64 k)|]. by exists (fingerprint_of hs k).
Qed.

Lemma judge_safe u own e devices k enc d : (own <> None -> u = own_uid me) -> e_trust e = TrustUnavailable ->
  safe_ (judge hs cv me u own e devices k enc) (fun r d' => forall e', r = Ok e' -> ours -> u = uid -> generation (current d') = g -> entry_ok e') d.
Proof.
  intros Hown He. unfold judge. apply safe_bind. eapply safe_mono; [|apply pin_of_safe]. intros [stored|x] d1 Hst; [|done]. specialize (Hst stored eq_refl).
  apply safe_bind. eapply safe_mono; [|apply anchor_safe; [|exact Hst]]; [|intros H1; apply Hown; by destruct own]. intros [pinned|x] d2 Hk; [|done]. specialize (Hk pinned eq_refl).
  destruct (key_changed pinned _ _) eqn:Ec.
  - apply safe_bind. apply safe_mono with (Q := fun _ _ => True); [by intros [[]|x] d3 _; [intros e' [= <-] ? ? ? ?|]|].
    destruct (truthy _); [|done]. by apply attempt_safe, knows_set.
  - set (A d := ours -> u = uid -> generation (current d) = g -> accepted (key_b64 k)).
    assert (HA : A d2). { intros H1 H2 H3. destruct (Hk H1 H2 H3) as (j & -> & Hj). by eapply fits_accepted. }
    destruct (is_array _); [intros e' [= <-] ? ? ? ?; exists k; split; [done|by apply HA]|]. intros now.
    apply safe_bind. eapply safe_mono; [|apply (safe_keep _ A); [|exact HA|apply attempt_safe]].
    + intros [[]|x] d3 [_ HA3]; [|done]. intros e' [= <-] ? ? ? ?. exists k. split; [done|by apply HA3].
    + intros d3 d4 H1 [H2 _] _ [H3 _] Ho Hu Hg. apply H1; [done..|lia].
    + intros H1 H2 H3. destruct (Hk H1 H2 H3) as (j & -> & Hj). eexists. split; [done|]. by apply pinned_ok.
Qed.

Lemma lookup_safe u answer d : safe_ (lookup_ hs nc cv me u answer) (fun r _ => forall e, r = Ok e -> ours -> u = uid -> entry_ok e) d.
Proof.
  unfold lookup_. apply safe_pure. destruct answer as [response|]; [|done]. apply safe_bind. eapply safe_mono; [|apply active_safe]. intros [[]|x] d1 _; [|done].
  set (record := parseKeyRecord _ _ _). set (devices := if truthy _ then _ else _). set (own := if bool_decide _ then _ else _).
  assert (Hown : own <> None -> u = own_uid me) by (subst own; by case_bool_decide).
  destruct (match own with Some _ => _ | None => _ end) as [signing enc]. intros now. apply safe_bind.
  apply safe_mono with (Q := fun r d' => forall e', r = Ok e' -> ours -> u = uid -> generation (current d') = g -> entry_ok e').
  - intros [e|x] d2 He; [|done]. specialize (He e eq_refl).
    apply safe_bind. eapply safe_mono; [|apply (safe_keep _ (fun d => ours -> u = uid -> generation (current d) = g -> entry_ok e)); [|exact He|apply active_safe]].
    + intros [[]|x] d3 [Hact He3]; [|done]. intros e' [= <-] H1 H2. apply He3; auto.
    + intros d3 d4 H1 [H2 _] _ [H3 _] Ho Hu Hg. apply H1; [done..|lia].
  - destruct signing as [k|]; [by apply judge_safe|]. by intros e' [= <-] ? ? ? ?.
Qed.

Lemma devicesOf_safe u cached refresh answer d : entries_ok u cached ->
  safe_ (devicesOf hs nc cv me u cached refresh answer) (fun r _ => forall e, r = Ok e -> ours -> u = uid -> entry_ok e) d.
Proof.
  intros Hc. apply safe_bind. eapply safe_mono; [|apply active_safe]. intros [[]|x] d1 _; [|done]. intros now.
  destruct cached as [e|]; [|apply lookup_safe]. destruct (_ && _); [|apply lookup_safe]. intros e' [= <-]. by apply Hc.
Qed.

Lemma setVerified_safe u verified fingerprint cached d : entries_ok u cached ->
  safe_ (setVerified hs me u verified fingerprint cached) (fun r _ => gives u r) d.
Proof.
  intros Hc. apply safe_bind. eapply safe_mono; [|apply pin_of_safe]. intros [pinned|x] d1 Hk; [|done]. specialize (Hk pinned eq_refl).
  destruct (truthy _); [|done]. destruct (_ || _); [|done]. apply safe_bind. eapply safe_mono; [|by apply put_safe, knows_set].
  intros [[]|x] d2 _; [|done]. intros c [= <-] e' Ee Ho Hu. destruct cached as [e|]; [|done]. injection Ee as <-. specialize (Hc e eq_refl Ho Hu).
  destruct (e_trust e) eqn:E; [|done..]. intros Ht. apply Hc. done.
Qed.

Lemma acknowledge_safe u cached d : entries_ok u cached -> safe_ (acknowledgeDevices me u cached) (fun r _ => gives u r) d.
Proof.
  intros Hc. apply safe_bind. eapply safe_mono; [|apply pin_of_safe]. intros [pinned|x] d1 Hk; [|done]. specialize (Hk pinned eq_refl).
  assert (Hsame : gives u (Ok cached)) by (intros c [= <-]; exact Hc). destruct cached as [e|]; [|exact Hsame]. destruct (e_trust e) eqn:E; [|exact Hsame..].
  destruct (truthy _); [|exact Hsame]. apply safe_bind. eapply safe_mono; [|by apply put_safe, knows_set].
  intros [[]|x] d2 _; [|done]. intros c [= <-] e' [= <-] Ho Hu _. apply (Hc e eq_refl Ho Hu). done.
Qed.

Lemma trustNew_safe u fingerprint answer d : (ours -> u = uid -> C fingerprint) ->
  safe_ (trustNewIdentity hs nc cv me u fingerprint answer) (fun r _ => forall e, r = Ok e -> ours -> u = uid -> entry_ok e) d.
Proof.
  intros HC. unfold trustNewIdentity. case_bool_decide as Hne; [done|]. cbn [negb]. intros b _. apply safe_bind. eapply safe_mono; [|apply put_safe].
  - intros [[]|x] d1 _; [by apply devicesOf_safe|done].
  - intros Ho Hu _. eexists. split; [done|]. exists fingerprint. by split_and!; [..|apply HC].
Qed.

Lemma clearReset_safe u token d : Safe (clearRatchetReset me u token) d.
Proof.
  apply safe_bind. eapply safe_mono; [|apply pin_of_safe]. intros [pinned|x] d1 Hk; [|done]. specialize (Hk pinned eq_refl).
  destruct (_ && _); [|done]. by apply put_safe, knows_set.
Qed.

Lemma pin_any {A} u (k : option json -> prog A) d : (forall v d, Safe (k v) d) -> Safe (pbind (pin_of me u) k) d.
Proof. intros Hk. apply safe_bind. eapply safe_mono; [|apply pin_of_safe]. intros [v|x] d1 _; [apply Hk|done]. Qed.

Lemma devices_any {A} u cached refresh answer (k : result string entry -> prog A) d : entries_ok u cached -> (forall r d, Safe (k r) d) ->
  Safe (settle (devicesOf hs nc cv me u cached refresh answer) k) d.
Proof. intros Hc Hk. apply safe_settle. eapply safe_mono; [|by apply devicesOf_safe]. intros r d1 _. apply Hk. Qed.

Lemma historical_safe u id encoded chain cached answer d : entries_ok u cached ->
  Safe (historicalSenderKey hs nc cv me u id encoded chain cached answer) d.
Proof.
  intros Hc. unfold historicalSenderKey. destruct (_ || _); [done|]. apply devices_any; [done|]. intros [e|x] d1; [|done].
  destruct (e_trust e); [|done..]. by destruct (e_signing e).
Qed.

Lemma round_safe u encoded id cached refresh answer d : entries_ok u cached -> Safe (call_round hs nc cv me u encoded id cached refresh answer) d.
Proof.
  intros Hc. apply devices_any; [done|]. intros [e|x] d1; [|done]. destruct (e_trust e); [|done..].
  destruct (negb _); [by destruct (List.find _ _)|]. apply pin_any. intros v d2. destruct (parseKeyRecord _ _ _) as [[s x]|]; [|done]. by destruct (_ || _).
Qed.

Lemma callKey_safe u encoded id cached first second d : entries_ok u cached -> Safe (callKey hs nc cv me u encoded id cached first second) d.
Proof.
  intros Hc. apply safe_bind. eapply safe_mono; [|by apply round_safe]. intros [[k|]|x] d1 _; [done| |done].
  apply safe_bind. eapply safe_mono; [|by apply round_safe]. by intros [k|x] d2 _.
Qed.

Lemma canSend_safe cached answer d : Safe (canSend hs nc cv me cached answer) d.
Proof.
  apply safe_bind. eapply safe_mono; [|apply devicesOf_safe]; [by intros [e|x] d1 _|]. intros e _ Ho Hu. by apply contact in Ho.
Qed.
End object.

(** *** The rest of the application *)

Lemma clear_pin_safe expected d : Safe (clearIdentity expected) d.
Proof.
  intros d1 _ HI. cbv beta zeta. destruct (match expected with Some _ => _ | None => _ end); [by split_and!|]. destruct (_ <=? _); [by split_and!|]. cbn [fst snd].
  destruct HI as [H1 _]. split_and!; [|split|done].
  - split; cbn; [lia|]. intros Hg. cbn in Hg. lia.
  - cbn. lia.
  - done.
Qed.

Lemma save_pin_safe i meta onboarding given replaceAccount d : Safe (saveIdentity i meta onboarding given replaceAccount) d.
Proof.
  unfold saveIdentity. destruct (negb (onboarding && _)); [|done]. destruct (negb (replaceAccount && negb onboarding)) eqn:Er; [|done].
  destruct (identity_sizes_ok i); [|done]. apply safe_bind. apply safe_mono with (Q := fun _ _ => True); [|by destruct given as [f|]; [|apply look_safe]].
  intros [f|x] d1 _; [|done]. apply safe_bind. eapply safe_mono; [|apply sealing_safe]. intros [r|x] d2 _; [|done].
  intros d3 _ HI. cbv beta zeta. destruct (_ && (_ || _)); [|by split_and!]. destruct (onboarding && _); [by split_and!|]. cbn [fst snd].
  destruct onboarding.
  - destruct HI as [H1 _]. destruct replaceAccount; (split_and!; [split; [cbn; lia|intros Hg; cbn in Hg; lia]|split; [cbn; lia|done]|done]).
  - destruct replaceAccount; [done|]. by split_and!.
Qed.

Lemma seal_to_update f store key before r d : (store, key) <> (pins, uid) ->
  Safe (fencedWrite f false (fun _ d => swap store key before r d)) d.
Proof.
  intros Hne d1 _ HI. cbv beta zeta. destruct (_ && _); [|by split_and!]. unfold swap. destruct (sameRecord _ _); [|by split_and!]. cbn [fst snd].
  destruct (pin_aside d1 (put_record store key r d1) HI) as [? ?]; [done|done| |by split_and!]. unfold put_record, set_field. cbn. by rewrite lookup_insert_ne.
Qed.

Lemma update_safe n store key mutate expected : (store, key) <> (pins, uid) -> forall d, Safe (update_attempts n store key mutate expected) d.
Proof.
  intros Hne. induction n as [|n IH]; intros d; cbn [update_attempts]; [done|]. apply safe_bind, look_safe. intros d1 _ _. apply safe_bind.
  apply safe_mono with (Q := fun _ _ => True).
  - intros [v|x] d2 _; [|done]. destruct (mutate v) as [w|]; [|done]. apply safe_bind. eapply safe_mono; [|apply sealing_safe]. intros [r|x] d3 _; [|done].
    apply safe_bind. apply safe_mono with (Q := fun _ _ => True); [|by destruct expected as [f|]; [|apply look_safe]]. intros [f|x] d4 _; [|done].
    apply safe_bind. eapply safe_mono; [|by apply seal_to_update]. intros [[]|x] d5 _; [done|apply IH|done].
  - destruct (stores d1 !! (store, key)) as [x|]; [|done]. apply safe_settle. eapply safe_mono; [|apply value_any]. by intros [v|e] d2 _.
Qed.

(** *** Any number of objects, in any order *)

(** A call of an object, with the entry it has cached; or something else that the
    application does with the database. *)
Inductive call :=
| DevicesOf (me : direct) (u : string) (cached : option entry) (refresh : bool) (answer : result string json)
| SetVerified (me : direct) (u : string) (verified : bool) (fingerprint : option string) (cached : option entry)
| AcknowledgeDevices (me : direct) (u : string) (cached : option entry)
| TrustNewIdentity (me : direct) (u fingerprint : string) (answer : result string json)
| RatchetResetPending (me : direct) (u : string)
| ClearRatchetReset (me : direct) (u token : string)
| CanSend (me : direct) (cached : option entry) (answer : result string json)
| HistoricalSenderKey (me : direct) (u id encoded : string) (chain : json) (cached : option entry) (answer : result string json)
| CallKey (me : direct) (u encoded id : string) (cached : option entry) (first second : result string json)
| ClearIdentity (expected : option fence)
| SaveIdentity (i : Db.identity) (meta : json) (onboarding : bool) (given : option fence) (replaceAccount : bool)
| PutSealedIn (expected : fence) (store key : string) (value : json)
| UpdateSealed (store key : string) (mutate : option json -> option json) (expected : option fence).

(** The object of a call, the account it is about and the cached entry. *)
Definition of_object (c : call) : option (direct * string * option entry) :=
  match c with
  | DevicesOf me u cached _ _ | SetVerified me u _ _ cached | AcknowledgeDevices me u cached
  | HistoricalSenderKey me u _ _ _ cached _ | CallKey me u _ _ cached _ _ => Some (me, u, cached)
  | TrustNewIdentity me u _ _ | RatchetResetPending me u | ClearRatchetReset me u _ => Some (me, u, None)
  | CanSend me cached _ => Some (me, own_uid me, cached)
  | _ => None
  end.

(** What a call hands on: the entry of an account that an object caches. *)
Definition told : Type := option (direct * string * entry).
Definition tell (me : direct) (u : string) (p : prog entry) : prog told := do! e := p in Db.done (Some (me, u, e)).
Definition tells (me : direct) (u : string) (p : prog (option entry)) : prog told := do! e := p in Db.done (pair (me, u) <$> e).
Definition hush {A} (p : prog A) : prog told := do! _ := p in Db.done None.

Definition perform (c : call) : prog told :=
  match c with
  | DevicesOf me u cached refresh answer => tell me u (devicesOf hs nc cv me u cached refresh answer)
  | SetVerified me u verified fingerprint cached => tells me u (setVerified hs me u verified fingerprint cached)
  | AcknowledgeDevices me u cached => tells me u (acknowledgeDevices me u cached)
  | TrustNewIdentity me u fingerprint answer => tell me u (trustNewIdentity hs nc cv me u fingerprint answer)
  | RatchetResetPending me u => hush (ratchetResetPending me u)
  | ClearRatchetReset me u token => hush (clearRatchetReset me u token)
  | CanSend me cached answer => hush (canSend hs nc cv me cached answer)
  | HistoricalSenderKey me u id encoded chain cached answer => hush (historicalSenderKey hs nc cv me u id encoded chain cached answer)
  | CallKey me u encoded id cached first second => hush (callKey hs nc cv me u encoded id cached first second)
  | ClearIdentity expected => hush (clearIdentity expected)
  | SaveIdentity i meta onboarding given replaceAccount => hush (saveIdentity i meta onboarding given replaceAccount)
  | PutSealedIn expected store key value => hush (putSealedIn expected store key value)
  | UpdateSealed store key mutate expected => hush (updateSealed store key mutate expected)
  end.

(** An object of the generation is that of another account than the contact, caches
    only entries that calls handed on, and takes only fingerprints that the user
    confirmed; pins are written by these objects only. *)
Definition admissible (c : call) : Prop :=
  match of_object c with
  | Some (me, u, cached) => (ours me -> own_uid me <> uid) /\ entries_ok me u cached
  | None => True
  end /\
  match c with
  | TrustNewIdentity me u fingerprint _ => ours me -> u = uid -> C fingerprint
  | PutSealedIn _ store key _ | UpdateSealed store key _ _ => store <> pins
  | _ => True
  end.

Definition told_ok (r : result string told) : Prop := forall me u e, r = Ok (Some (me, u, e)) -> ours me -> u = uid -> entry_ok e.

Lemma hush_safe {A} (p : prog A) d : Safe p d -> safe_ (hush p) (fun r _ => told_ok r) d.
Proof. intros Hp. apply safe_bind. eapply safe_mono; [|exact Hp]. intros [a|x] d' _; [|done]. by intros ? ? ? ?. Qed.

Lemma tell_safe me u p d : safe_ p (fun r _ => forall e, r = Ok e -> ours me -> u = uid -> entry_ok e) d -> safe_ (tell me u p) (fun r _ => told_ok r) d.
Proof.
  intros Hp. apply safe_bind. eapply safe_mono; [|exact Hp]. intros [e|x] d' He; [|done]. intros me' u' e' [= <- <- <-]. by apply He.
Qed.

Lemma tells_safe me u p d : safe_ p (fun r _ => gives me u r) d -> safe_ (tells me u p) (fun r _ => told_ok r) d.
Proof.
  intros Hp. apply safe_bind. eapply safe_mono; [|exact Hp]. intros [c|x] d' Hc; [|done]. intros me' u' e' E. destruct c as [e|]; [|done].
  injection E as <- <- <-. by apply (Hc _ eq_refl).
Qed.

Lemma perform_safe c d : admissible c -> safe_ (perform c) (fun r _ => told_ok r) d.
Proof.
  intros [Ho Hc]. destruct c; cbn [perform of_object] in *; try destruct Ho as [H1 H2];
    first [apply tell_safe | apply tells_safe | apply hush_safe];
    eauto using devicesOf_safe, setVerified_safe, acknowledge_safe, trustNew_safe, clearReset_safe, canSend_safe, historical_safe, callKey_safe,
      clear_pin_safe, save_pin_safe.
  - apply pin_any. by intros v d'.
  - apply sealed_pin_safe. congruence.
  - apply update_safe. congruence.
Qed.

Definition runs_calls : database -> prog told -> Prop := fun _ p => exists c, admissible c /\ p = perform c.
End pinned.

Section contact.
Context `{Cipher}.
Variable hs : hashes.
Variable nc : nacl.
Variable cv : curves.

(** C7: a contact's key is only replaced after the user confirmed one.  Let an account be
    pinned to the key [K] at some moment of a generation of the identity, and let any calls
    of any number of objects and tabs run that begin from then on, interleaved in any way,
    with whatever answers of the server.  As long as the generation lasts, the stored pin
    holds [K] or a key whose fingerprint the user confirmed, or no key and such a
    fingerprint; and every lookup that ends with the account trusted gives such a key.
    Once a confirmed key is pinned and no call is under way, that moment can be taken for
    [K]: the earlier key is out.  While calls are under way it is not: a lookup that read
    the pin before a confirmation in another tab may write it back
    ([PinDemo.stale_lookup_restores_pin]). *)
Theorem contact_key_confirmed uid K C d x wk v w :
  stores d !! (pins, uid) = Some x -> wrapping_key d = Some wk -> opens_to wk x v -> field "signingKey" v = Some (JStr K) -> K <> ""%string ->
  let g := generation (current d) in
  rtc (wstep told (runs_calls hs nc cv g uid K C)) (d, []) w ->
  (generation (current w.1) = g -> exists x wk v, stores w.1 !! (pins, uid) = Some x /\ wrapping_key w.1 = Some wk /\ opens_to wk x v /\ pin_ok hs K C v) /\
  (forall me e, Ret (Ok (Some (me, uid, e))) ∈ w.2 -> ours g me -> e_trust e = TrustOk -> exists k, e_signing e = Some k /\ accepted hs K C (key_b64 k)).
Proof.
  intros Hx Hk Ho Hf Hne g Hr.
  assert (H0 : pin_kept hs g uid K C d).
  { split; [done|]. intros _. exists x, wk, v. split_and!; [done..|]. unfold pin_ok. rewrite Hf. cbn [truthy]. rewrite bool_decide_false by done.
    exists K. split; [done|by left]. }
  destruct (world_safe (pin_kept hs g uid K C) moves told (runs_calls hs nc cv g uid K C) (fun r _ => told_ok hs g uid K C r)) with (d := d) (w := w) as [[[_ H1] H2] _]; [|done|done|].
  { intros d1 p _ (c & Hc & ->). by apply perform_safe. }
  split; [exact H1|]. intros me e Hin Hours Ht. rewrite Forall_forall in H2. destruct (H2 _ Hin) as (d0 & _ & Hq). by apply (Hq me uid e).
Qed.
End contact.

(** ** A concrete contact *)
Module PinDemo.
Import TrustDemo.
#[export] Existing Instance Rising.transparent.
#[export] Existing Instance Rising.rising.

Definition hs : hashes := Hashes (fun m => repeat (foldl Z.add 0 m `mod` 256) 32) (fun _ _ => repeat 8 32) (fun _ => repeat 9 24).

(** Bob's first object; alice is pinned to [key 1], and the server answers with
    [key 2], whose fingerprint bob was told. *)
Definition bob : direct := Direct "bob" "phone" None (LinkMeta true "" None) (Some (Fence 1 true)) (fun _ => true).
Definition alice_pin : json := JObj [("signingKey", JStr (key_b64 (key 1)))]%string.
Definition K : string := Eval vm_compute in key_b64 (key 1).
Definition wk : list Z := repeat 7 32.
Definition stored : record_ := Sealed (repeat 1 12) (stringify alice_pin).
Definition start : database := put_record pins "alice" stored (empty_database <| wrapping_key := Some wk |>).
Definition answer : result string json := Ok (JObj [("public_key", JStr (signKeyRecord nc "alice" (key 102) (key 7 ++ key 2)))]%string).
Definition fingerprint : string := Eval vm_compute in fingerprint_of hs (key 2).
Definition confirmed (f : string) : Prop := f = fingerprint.

Definition taken : call := TrustNewIdentity bob "alice" fingerprint answer.
Definition asked : call := DevicesOf bob "alice" None false answer.

Definition entry_of (r : option (result string told)) : entry :=
  match r with Some (Ok (Some (_, _, e))) => e | _ => unavailable 0 None end.
Definition asked_entry : entry := Eval vm_compute in entry_of (result_of (alone 100 Rising.rand 5 (perform hs nc cv asked) start)).
Definition taken_entry : entry := Eval vm_compute in entry_of (result_of (alone 200 Rising.rand 5 (perform hs nc cv taken) start)).

Lemma asked_alone : exists l d', alone 100 Rising.rand 5 (perform hs nc cv asked) start = Some (l, Ok (Some (bob, "alice"%string, asked_entry)), d').
Proof. apply result_of_some. vm_compute. reflexivity. Qed.
Lemma taken_alone : exists l d', alone 200 Rising.rand 5 (perform hs nc cv taken) start = Some (l, Ok (Some (bob, "alice"%string, taken_entry)), d').
Proof. apply result_of_some. vm_compute. reflexivity. Qed.

(** The server's key is refused, and taken after its fingerprint was confirmed. *)
Example refused : e_trust asked_entry = TrustChanged /\ e_signing asked_entry = None.
Proof. by split. Qed.
Example replaced : e_trust taken_entry = TrustOk /\ e_signing taken_entry = Some (key 2).
Proof. by split. Qed.

(** A pin that cannot be read any more counts as none: the next key is pinned as on
    first contact, without a question to the user. *)
Definition broken : database := put_record pins "alice" (Sealed (repeat 1 12) [0]) (empty_database <| wrapping_key := Some wk |>).
Definition fresh_entry : entry := Eval vm_compute in entry_of (result_of (alone 200 Rising.rand 5 (perform hs nc cv asked) broken)).
Lemma unreadable_pin_replaced : (exists l d', alone 200 Rising.rand 5 (perform hs nc cv asked) broken = Some (l, Ok (Some (bob, "alice"%string, fresh_entry)), d')) /\
  e_trust fresh_entry = TrustOk /\ e_signing fresh_entry = Some (key 2).
Proof. split; [|by split]. apply result_of_some. vm_compute. reflexivity. Qed.

Lemma rand_vector m : length (Rising.rand m) = m.
Proof. apply repeat_length. Qed.

Lemma bob_calls c : c = asked \/ c = taken -> runs_calls hs nc cv 1 "alice" K confirmed start (perform hs nc cv c).
Proof. intros [-> | ->]; eexists; (split; [|done]); repeat split; done. Qed.

(** One call of bob, from its start to its end. *)
Lemma called c n l r d' : c = asked \/ c = taken -> alone n Rising.rand 5 (perform hs nc cv c) start = Some (l, r, d') ->
  rtc (wstep told (runs_calls hs nc cv 1 "alice" K confirmed)) (start, []) (d', [Ret r]).
Proof. intros Hc E. exact (alone_started _ n Rising.rand 5 _ _ l r d' rand_vector E (bob_calls c Hc)). Qed.

Lemma contact_key_confirmed_witness : exists d', rtc (wstep told (runs_calls hs nc cv 1 "alice" K confirmed)) (start, []) (d', [Ret (Ok (Some (bob, "alice"%string, taken_entry)))]) /\
  exists k, e_signing taken_entry = Some k /\ accepted hs K confirmed (key_b64 k).
Proof.
  destruct taken_alone as (l & d' & E). pose proof (called taken 200 l _ d' (or_intror eq_refl) E) as Hr. exists d'. split; [exact Hr|].
  refine (proj2 (contact_key_confirmed hs nc cv "alice" K confirmed start stored wk alice_pin _ eq_refl eq_refl _ eq_refl _ Hr) bob taken_entry _ _ eq_refl).
  - exists (stringify alice_pin). split; [reflexivity|]. apply parse_stringify.
  - done.
  - apply list_elem_of_singleton. reflexivity.
  - exists (Fence 1 true). split; reflexivity.
Defined.

(** ** A lookup that overlaps a confirmation *)

(** Alice is pinned to [key 1] and verified; one tab looks her up while in another the
    user confirms [key 2]. *)
Definition verified_pin : json := JObj [("signingKey", JStr K); ("verified", JBool true); ("devices", JArr [])]%string.
Definition verified_start : database :=
  put_record pins "alice" (Sealed (repeat 1 12) (stringify verified_pin)) (empty_database <| wrapping_key := Some wk |>).
Definition pin_key (d : database) : option string :=
  match stores d !! (pins, "alice"%string) with
  | Some (Sealed _ text) => match parse text with Some v => match field "signingKey" v with Some (JStr k) => Some k | _ => None end | None => None end
  | _ => None
  end.
Definition left_by {A} (x : option (list (database * database) * result string A * database)) : database :=
  match x with Some (_, _, d) => d | None => empty_database end.
Definition confirmation := alone 200 Rising.rand 5 (perform hs nc cv taken) verified_start.
(** The confirmation falls between the lookup's reading of the pin and its write. *)
Definition meanwhile (n : nat) (d : database) : database := if (n =? 91)%nat then left_by confirmation else d.
Definition overlapped := among meanwhile 100 Rising.rand 5 (perform hs nc cv asked) verified_start.

Lemma left_by_some {A} (x : option (list (database * database) * result string A * database)) :
  (if x then true else false) = true -> exists l r, x = Some (l, r, left_by x).
Proof. destruct x as [[[l r] d]|]; [|done]. by exists l, r. Qed.
Lemma confirmation_run : confirmation = alone 200 Rising.rand 5 (perform hs nc cv taken) verified_start.
Proof. reflexivity. Qed.
Lemma overlapped_run : overlapped = among meanwhile 100 Rising.rand 5 (perform hs nc cv asked) verified_start.
Proof. reflexivity. Qed.
Lemma confirmation_some : (if confirmation then true else false) = true.
Proof. vm_compute. reflexivity. Qed.
Lemma overlapped_some : (if overlapped then true else false) = true.
Proof. vm_compute. reflexivity. Qed.
Lemma meanwhile_moves n d : meanwhile n d = d \/ meanwhile n d = left_by confirmation.
Proof. unfold meanwhile. destruct (n =? 91)%nat; [right|left]; reflexivity. Qed.
Lemma overlapped_keys : pin_key verified_start = Some K /\ pin_key (left_by confirmation) = Some (key_b64 (key 2)) /\ pin_key (left_by overlapped) = Some K.
Proof. vm_compute. auto. Qed.

(** The new key is confirmed and pinned; the lookup, which finds it changed from the pin
    it read and only means to withdraw the verification, writes that pin back: the old
    key is pinned again, though the user confirmed the new one. *)
Theorem stale_lookup_restores_pin : exists l1 r1 d1 l2 r2 d2,
  exec eq (perform hs nc cv taken) verified_start l1 r1 d1 /\
  exec (fun d d' => d' = d \/ d' = d1) (perform hs nc cv asked) verified_start l2 r2 d2 /\
  pin_key verified_start = Some K /\ pin_key d1 = Some (key_b64 (key 2)) /\ pin_key d2 = Some K.
Proof.
  destruct (left_by_some confirmation confirmation_some) as (l1 & r1 & E1). destruct (left_by_some overlapped overlapped_some) as (l2 & r2 & E2).
  pose proof overlapped_keys as Hk. pose proof meanwhile_moves as Hm. pose proof confirmation_run as C1. pose proof overlapped_run as C2.
  generalize dependent (left_by confirmation). intros d1. generalize dependent (left_by overlapped). intros d2 E2 E1 Hk Hm.
  rewrite C1 in E1. rewrite C2 in E2. clear C1 C2. exists l1, r1, d1, l2, r2, d2. split; [|split; [|exact Hk]].
  - exact (alone_exec eq 200 Rising.rand 5 _ _ _ _ _ rand_vector E1).
  - exact (among_exec _ meanwhile 100 Rising.rand 5 _ _ _ _ _ Hm rand_vector E2).
Qed.

(** The phone of the desktop's account, with the statement that it got when it was linked. *)
Definition phone : direct :=
  Direct "alice" "phone" (Some LinkDemo.phone_id) (LinkMeta false LinkDemo.scanned (Some LinkDemo.stated)) (Some (Fence 1 true)) (fun _ => true).
Definition listing_answer : result string json := Ok (JObj [("public_key", JStr (signKeyRecord nc "alice" (key 101) secret)); ("devices", JArr listed)])%string.
Definition own_entry : entry := Eval vm_compute in
  entry_of (match result_of (alone 100 Rising.rand 5 (lookup_ LinkDemo.hs nc cv phone "alice" listing_answer) start) with
            | Some (Ok e) => Some (Ok (Some (phone, "alice"%string, e))) | _ => None end).

Lemma own_alone : exists l d', alone 100 Rising.rand 5 (lookup_ LinkDemo.hs nc cv phone "alice" listing_answer) (empty_database <| wrapping_key := Some wk |>) = Some (l, Ok own_entry, d').
Proof. apply result_of_some. vm_compute. reflexivity. Qed.
Example own_ids : map deviceID (e_devices own_entry) = ["desk"; "tablet"; "phone"]%string.
Proof. reflexivity. Qed.

Lemma own_root_local_witness : exists k devices, local_root LinkDemo.hs cv phone k /\ e_signing own_entry = Some k /\
  e_devices own_entry = trustedDevices cv "alice" (Some devices) (Some k) (e_encryption own_entry).
Proof.
  destruct own_alone as (l & d' & E).
  exact (own_root_local LinkDemo.hs nc cv phone eq listing_answer _ l own_entry d'
    (alone_exec eq 100 Rising.rand 5 _ _ l _ d' rand_vector E) eq_refl).
Defined.
End PinDemo.
