(* ===== verification/HistoryCopy.v ===== *)
(** * Copying the message history to another device ([devices.js], [history-envelope.js])

    The newest messages are packed into at most 256 chunks; each chunk is a JSON
    array under a signed header that names the two devices, the transfer and the
    chunk's place, and is sealed for the other device.  What is opened there is
    exactly what was packed, oldest first ([history_copy_delivered]), and no chunk
    is larger than the server takes ([history_chunks_bounded]).  All together may exceed
    what it takes by the headers, which the packing does not count
    ([HistoryDemo.full_copy_exceeds]). *)

From stdpp Require Import base list strings sorting.
From Stdlib Require Import ZArith Lia.
From S2P Require Import Prelude Json JsonText Text Crypto OlmAdmission OlmReset RatchetStore DeviceTrust.

Definition HISTORY_ENVELOPE_VERSION : string := "noxa-history-v1".
Definition HISTORY_ENVELOPE_RESERVE : Z := 1024.
Definition MAX_HISTORY_CHUNK : Z := 256 * 1024.
Definition MAX_HISTORY_CHUNKS : Z := 256.
Definition MAX_HISTORY_BYTES : Z := 50 * 1024 * 1024.
Definition MAX_HISTORY_MESSAGES : nat := 10000.
Definition SEAL_OVERHEAD : Z := 24 + 16.

(** [HISTORY_ENVELOPE_PREFIX]: the start of every header. *)
Definition HISTORY_ENVELOPE_PREFIX : list Z := 123 :: print_str "v" ++ 58 :: print_str HISTORY_ENVELOPE_VERSION.

(** ** The envelope of a chunk *)

(** [field] of history-envelope.js. *)
Definition envelope_field (v : option json) : bool :=
  match v with
  | Some (JStr s) => (0 <? utf16_length s) && (utf16_length s <=? 128) && forallb (fun c => negb ((c =? 13) || (c =? 10))) (bytes_of s)
  | _ => false
  end.

Definition historyChunkTranscript (h : json) : option (list Z) :=
  if is_text (field "v" h) HISTORY_ENVELOPE_VERSION && envelope_field (field "source" h) && envelope_field (field "target" h) &&
     envelope_field (field "transfer" h) && isSafeInteger (field "seq" h) && isSafeInteger (field "total" h) &&
     (0 <=? num_or 0 (field "seq" h)) && (1 <=? num_or 0 (field "total" h)) && (num_or 0 (field "total" h) <=? MAX_HISTORY_CHUNKS) &&
     (num_or 0 (field "seq" h) <? num_or 0 (field "total" h)) && hash (field "digest" h)
  then Some (joined ("noxa-history-chunk-v1"%string :: map (fun k => String_of (field k h)) ["source"; "target"; "transfer"; "seq"; "total"; "digest"]%string))
  else None.

(** Which chunk of which transfer. *)
Record place := Place { pl_source : string; pl_target : string; pl_transfer : string; pl_seq : Z; pl_total : Z }.

Definition header (digest : list Z -> string) (p : place) (records : list Z) : json :=
  JObj [("v", JStr HISTORY_ENVELOPE_VERSION); ("source", JStr (pl_source p)); ("target", JStr (pl_target p)); ("transfer", JStr (pl_transfer p));
        ("seq", JNum (pl_seq p)); ("total", JNum (pl_total p)); ("digest", JStr (digest records))]%string.

Definition isHistoryEnvelope (v : option json) : bool :=
  match v with Some (JStr s) => if strip HISTORY_ENVELOPE_PREFIX (bytes_of s) then true else false | _ => false end.

(** What a receiver expects of a chunk. *)
Record expected := Expected { e_source : string; e_target : string; e_seq : Z; e_total : Z; e_key : list Z }.

(** ** Packing *)

(** The messages of one chunk under way, newest first, and the finished ones. *)
Record packing := Packing { groups : list (list (list Z)); current_ : list (list Z); size_ : Z; total_ : Z; kept_ : nat }.

Definition close_group (s : packing) : packing :=
  match current_ s with
  | [] => Packing (groups s) [] 2 (total_ s) (kept_ s)
  | _ => Packing (groups s ++ [current_ s]) [] 2 (total_ s + size_ s + SEAL_OVERHEAD) (kept_ s)
  end.

Definition len (l : list Z) : Z := Z.of_nat (length l).

Fixpoint pack (maxPlain : Z) (s : packing) (l : list (list Z)) : packing :=
  match l with
  | [] => s
  | raw :: rest =>
    if maxPlain <? len raw + 2 then pack maxPlain s rest
    else
      let add := len raw + (if bool_decide (current_ s = []) then 0 else 1) in
      let full := maxPlain <? size_ s + add in
      let s1 := if full then close_group s else s in
      let add := if full then len raw else add in
      if bool_decide (current_ s1 = []) && (MAX_HISTORY_CHUNKS <=? Z.of_nat (length (groups s1))) then s1
      else if MAX_HISTORY_BYTES <? total_ s1 + size_ s1 + add + SEAL_OVERHEAD then s1
      else pack maxPlain (Packing (groups s1) (current_ s1 ++ [raw]) (size_ s1 + add) (total_ s1) (S (kept_ s1))) rest
  end.

Definition packed (maxPlain : Z) (messages : list json) : packing :=
  close_group (pack maxPlain (Packing [] [] 2 0 0) (map stringify messages)).

(** A group's records, oldest first. *)
Definition records_of (g : list (list Z)) : list Z := 91 :: join 44 (reverse g) ++ [93].

(** ** What is copied *)

(** [Math.floor(Number(m.sentAt) || 0)] *)
Definition sent_seconds (m : json) : Z :=
  match field "sentAt" m with
  | Some (JNum n) => n
  | Some (JBool true) => 1
  | Some (JStr t) => default 0 (js_number t)
  | _ => 0
  end.

Definition or_absent (v : option json) : option json := if truthy v then v else None.

Definition copied_message (ownUID : string) (conversation m : json) : json :=
  obj ([("peer", field "peer" conversation); ("peer_nickname", or_absent (field "nickname" conversation));
        ("from", if truthy (field "from" m) then field "from" m else if truthy (field "self" m) then Some (JStr ownUID) else field "peer" conversation);
        ("from_nickname", or_absent (field "fromNickname" m)); ("body", field "body" m); ("sent_at", Some (JNum (sent_seconds m)));
        ("self", if truthy (field "self" m) then Some (JBool true) else None); ("client_msg_id", or_absent (field "id" m))]%string ++
       if truthy (field "protocol" m)
       then [("protocol", field "protocol" m);
             ("provenance", Some (JStr (if is_text (field "provenance" m) "transferred" then "transferred" else "authenticated")))]%string
       else []).

(** Only readable, settled messages travel. *)
Definition travels (since : Z) (m : json) : bool :=
  match field "body" m with Some (JStr b) => negb (bool_decide (b = ""%string)) | _ => false end &&
  negb (truthy (field "deleted" m) || truthy (field "failed" m) || truthy (field "queued" m) || truthy (field "pending" m) ||
        bool_decide (field "verified" m = Some (JBool false))) &&
  negb (truthy (field "protocol" m) && (negb (is_text (field "protocol" m) "noxa-olm-v1") || truthy (field "quarantined" m))) &&
  (since <=? sent_seconds m).

Definition newer (x y : json) : Prop := num_or 0 (field "sent_at" y) <= num_or 0 (field "sent_at" x).
#[global] Instance newer_dec x y : Decision (newer x y).
Proof. unfold newer. apply _. Defined.

Definition historyMessagesSince (conversations : list json) (since : Z) (ownUID : string) : list json :=
  take MAX_HISTORY_MESSAGES (merge_sort newer
    (conversations ≫= fun c => map (copied_message ownUID c) (filter (fun m => travels since m = true) (items (field "messages" c))))).

Section history.
Variable hs : hashes.
Variable nc : nacl.
Variable cv : curves.

Definition digest_of (records : list Z) : string := hex_text (sha256 hs records).

Definition encodeHistoryChunk (p : place) (records edSecret : list Z) : option (list Z) :=
  let h := header digest_of p records in
  (fun t => stringify (jset "sig" (JStr (toBase64 (sign_detached nc t edSecret))) h) ++ 10 :: records) <$> historyChunkTranscript h.

(** The text before and after the first line feed. *)
Fixpoint first_line (l : list Z) : option (list Z * list Z) :=
  match l with
  | [] => None
  | c :: r => if c =? 10 then Some ([], r) else (fun x => (c :: x.1, x.2)) <$> first_line r
  end.

Definition decodeHistoryEnvelope (plain : option json) (e : expected) : option (json * list json) :=
  match plain with
  | Some (JStr s) =>
    if isHistoryEnvelope plain then
      match first_line (bytes_of s) with
      | Some (first, records) =>
        match parse first with
        | Some h =>
          match historyChunkTranscript h with
          | Some t =>
            if is_text (field "source" h) (e_source e) && is_text (field "target" h) (e_target e) &&
               bool_decide (field "seq" h = Some (JNum (e_seq e))) && bool_decide (field "total" h = Some (JNum (e_total e))) &&
               is_text (field "digest" h) (digest_of records) then
              match fromBase64 (field "sig" h) with
              | Some signature =>
                if verifySignature cv signature t (e_key e) then
                  match parse records with Some (JArr l) => Some (h, l) | _ => None end
                else None
              | None => None
              end
            else None
          | None => None
          end
        | None => None
        end
      | None => None
      end
    else None
  | _ => None
  end.

Definition decodeHistoryChunk (plain : option json) (e : expected) : option (list json) := snd <$> decodeHistoryEnvelope plain e.

(** The sealed chunks in order, oldest first; [nonces] are the random nonces. *)
Fixpoint seal_chunks (nonces : nat -> list Z) (source target transfer : string) (recipient senderSecret edSecret : list Z) (total : Z)
    (seq : nat) (l : list (list (list Z))) : option (list string) :=
  match l with
  | [] => Some []
  | g :: rest =>
    match encodeHistoryChunk (Place source target transfer (Z.of_nat seq) total) (records_of g) edSecret,
          seal_chunks nonces source target transfer recipient senderSecret edSecret total (S seq) rest with
    | Some plain, Some out => Some (sealDM nc (nonces seq) (text plain) recipient senderSecret :: out)
    | _, _ => None
    end
  end.

Definition buildHistoryChunks (nonces : nat -> list Z) (messages : list json) (recipient senderSecret : list Z) (maxChunk : Z)
    (source target transfer : string) (edSecret : list Z) : option (list string * nat) :=
  let p := packed (maxChunk - SEAL_OVERHEAD - HISTORY_ENVELOPE_RESERVE) messages in
  (fun chunks => (chunks, kept_ p)) <$>
    seal_chunks nonces source target transfer recipient senderSecret edSecret (Z.of_nat (length (groups p))) 0 (reverse (groups p)).

(** ** The transfer *)

Variable ask : string -> json -> result string json.

Fixpoint put_chunks (deviceID : string) (total seq : Z) (l : list string) : result string unit :=
  match l with
  | [] => Ok tt
  | c :: rest =>
    let! _ := ask "DeviceRequest" (JObj [("action", JStr "history_put"); ("device_id", JStr deviceID);
      ("history", JObj [("seq", JNum seq); ("total", JNum total); ("data", JStr c)])]%string) in
    put_chunks deviceID total (seq + 1) rest
  end.

(** [own] is the verified directory of the account's devices, which the target's key comes from. *)
Definition copyHistory (own : list trusted_device) (conversations : list json) (ownDevice ownUID : string) (xSecret edSecret : list Z)
    (nonces : nat -> list Z) (transfer target : string) (days now : Z) : result string (Z * nat) :=
  guard! negb (bool_decide (target = ""%string)) && negb (bool_decide (target = ownDevice)) else "choose another device" in
  guard! existsb (fun d => bool_decide (deviceID d = ownDevice)) own else "confirm this device before copying history" in
  match List.find (fun d => bool_decide (deviceID d = target)) own with
  | None => Err "this device is not confirmed for direct messages"%string
  | Some d =>
    let since := if 0 <? days then now - days * 86400 else 0 in
    match buildHistoryChunks nonces (historyMessagesSince conversations since ownUID) (d_x25519 d) xSecret MAX_HISTORY_CHUNK
            ownDevice target transfer edSecret with
    | None => Err "invalid history chunk envelope"%string
    | Some (chunks, kept) =>
      let! _ := put_chunks target (Z.of_nat (length chunks)) 0 chunks in Ok (Z.of_nat (length chunks), kept)
    end
  end.
End history.

(** ** Packing *)

Definition fits (maxPlain : Z) (raw : list Z) : bool := len raw + 2 <=? maxPlain.
Definition sealed_size (g : list (list Z)) : Z := len (records_of g) + SEAL_OVERHEAD.
Definition total_size (gs : list (list (list Z))) : Z := foldr (fun g n => sealed_size g + n) 0 gs.

(** The text of the group under way: its size is counted as the text will be. *)
Definition counted (g : list (list Z)) : Z := match g with [] => 2 | _ => len (records_of g) end.

Record packs (maxPlain : Z) (s : packing) : Prop := {
  pk_size : size_ s = counted (current_ s);
  pk_total : total_ s = total_size (groups s);
  pk_small : Forall (fun g => g <> [] /\ len (records_of g) <= maxPlain) (groups s);
  pk_current : counted (current_ s) <= maxPlain;
  pk_count : Z.of_nat (length (groups s)) + (if current_ s then 0 else 1) <= MAX_HISTORY_CHUNKS;
  pk_bytes : total_size (groups s) + (if current_ s then 0 else sealed_size (current_ s)) <= MAX_HISTORY_BYTES
}.

Lemma len_join ls : len (join 44 ls) = foldr (fun l n => len l + n) 0 ls + Z.max 0 (Z.of_nat (length ls) - 1).
Proof.
  unfold len. induction ls as [|l ls IH]; [done|]. destruct ls as [|l' ls]; [cbn; lia|]. rewrite join_cons2, length_app. cbn [length foldr] in *.
  rewrite Nat2Z.inj_add. rewrite !Nat2Z.inj_succ in *. lia.
Qed.

Lemma sum_app f (l k : list (list Z)) : foldr (fun x n => f x + n) 0 (l ++ k) = foldr (fun x n => f x + n) 0 l + foldr (fun x n => f x + n) 0 k.
Proof. induction l as [|x l IH]; [done|]. cbn [app foldr]. lia. Qed.

Lemma sum_reverse f (l : list (list Z)) : foldr (fun x n => f x + n) 0 (reverse l) = foldr (fun x n => f x + n) 0 l.
Proof. induction l as [|x l IH]; [done|]. rewrite reverse_cons, sum_app, IH. cbn [foldr]. lia. Qed.

Lemma len_records g : len (records_of g) = 2 + foldr (fun l n => len l + n) 0 g + Z.max 0 (Z.of_nat (length g) - 1).
Proof.
  unfold records_of. unfold len at 1. cbn [length]. rewrite length_app. cbn [length]. pose proof (len_join (reverse g)) as H. unfold len in H at 1.
  rewrite sum_reverse, length_reverse in H. lia.
Qed.

Lemma counted_snoc g raw : counted (g ++ [raw]) = counted g + len raw + (if bool_decide (g = []) then 0 else 1).
Proof.
  unfold counted. destruct (g ++ [raw]) eqn:E; [by destruct g|]. rewrite <- E. rewrite len_records, sum_app, length_app. cbn [foldr length].
  destruct g as [|x g]; [cbn; lia|]. rewrite bool_decide_false by done. rewrite len_records. cbn [length]. lia.
Qed.

Lemma total_size_snoc gs g : total_size (gs ++ [g]) = total_size gs + sealed_size g.
Proof. unfold total_size. induction gs as [|x gs IH]; cbn [app foldr]; [lia|]. rewrite IH. lia. Qed.

Lemma close_packs maxPlain s : 2 <= maxPlain -> packs maxPlain s -> packs maxPlain (close_group s) /\ current_ (close_group s) = [].
Proof.
  intros Hm [H1 H2 H3 H4 H5 H6]. unfold close_group. destruct (current_ s) as [|x g] eqn:E.
  - split; [|done]. constructor; cbn [size_ current_ total_ groups]; [done|done|done|done|lia|lia].
  - split; [|done]. cbn [counted] in H1, H4. constructor; cbn [size_ current_ total_ groups counted].
    + done.
    + rewrite total_size_snoc, H2. unfold sealed_size. lia.
    + apply Forall_app. split; [done|]. by constructor.
    + done.
    + rewrite length_app. cbn [length]. lia.
    + rewrite total_size_snoc. lia.
Qed.

Lemma add_packs maxPlain s raw : packs maxPlain s -> size_ s + (len raw + (if bool_decide (current_ s = []) then 0 else 1)) <= maxPlain ->
  (current_ s = [] -> Z.of_nat (length (groups s)) < MAX_HISTORY_CHUNKS) ->
  total_ s + size_ s + (len raw + (if bool_decide (current_ s = []) then 0 else 1)) + SEAL_OVERHEAD <= MAX_HISTORY_BYTES ->
  packs maxPlain (Packing (groups s) (current_ s ++ [raw]) (size_ s + (len raw + (if bool_decide (current_ s = []) then 0 else 1))) (total_ s) (S (kept_ s))).
Proof.
  intros [H1 H2 H3 H4 H5 H6] Hsize Hcount Hbytes. assert (Hne : forall A (a b : A), (if current_ s ++ [raw] then a else b) = b) by (intros; by destruct (current_ s)).
  pose proof (counted_snoc (current_ s) raw) as Hc. constructor; cbn [size_ current_ total_ groups]; rewrite ?Hne.
  - lia.
  - done.
  - done.
  - lia.
  - destruct (current_ s); [specialize (Hcount eq_refl)|]; lia.
  - unfold sealed_size. assert (len (records_of (current_ s ++ [raw])) = counted (current_ s ++ [raw])) as -> by (by destruct (current_ s)). lia.
Qed.

(** The invariant, and what has been packed: the newest messages that fit. *)
Lemma pack_spec maxPlain l s : 2 <= maxPlain -> packs maxPlain s ->
  packs maxPlain (pack maxPlain s l) /\
  exists n, concat (groups (pack maxPlain s l)) ++ current_ (pack maxPlain s l) =
    concat (groups s) ++ current_ s ++ take n (filter (fun raw => fits maxPlain raw = true) l) /\ kept_ (pack maxPlain s l) = (kept_ s + n)%nat /\
    (n <= length (filter (fun raw => fits maxPlain raw = true) l))%nat.
Proof.
  intros Hm. revert s. induction l as [|raw l IH]; intros s Hs; cbn [pack].
  - split; [done|]. exists 0%nat. rewrite take_0, app_nil_r. split_and!; [done|lia|lia].
  - rewrite !filter_cons. destruct (maxPlain <? len raw + 2) eqn:Ef.
    + rewrite !decide_False by (apply Z.ltb_lt in Ef; unfold fits; rewrite Z.leb_le; lia). by apply IH.
    + rewrite !decide_True by (apply Z.ltb_ge in Ef; by apply Z.leb_le). apply Z.ltb_ge in Ef. set (add := len raw + _). set (full := maxPlain <? size_ s + add).
      set (s1 := if full then close_group s else s). set (add1 := if full then len raw else add).
      assert (H1 : packs maxPlain s1 /\ concat (groups s1) ++ current_ s1 = concat (groups s) ++ current_ s /\ kept_ s1 = kept_ s /\
                   add1 = len raw + (if bool_decide (current_ s1 = []) then 0 else 1) /\ size_ s1 + add1 <= maxPlain).
      { subst s1 add1. destruct full eqn:Efull.
        - destruct (close_packs maxPlain s Hm Hs) as [Hp Hc]. split_and!; [done| |by unfold close_group; destruct (current_ s)| |].
          + unfold close_group. destruct (current_ s); cbn [groups current_]; [done|]. by rewrite concat_app, app_nil_r; cbn [concat]; rewrite app_nil_r.
          + rewrite bool_decide_true by done. lia.
          + rewrite (pk_size _ _ Hp), Hc. cbn [counted]. lia.
        - subst full add. apply Z.ltb_ge in Efull. by split_and!. }
      clearbody s1 add1. destruct H1 as (Hp & Hcont & Hk & -> & Hsz).
      destruct (_ && _) eqn:Eb.
      { split; [done|]. exists 0%nat. rewrite take_0, app_nil_r, Hcont, Hk. split_and!; [done|lia|lia]. }
      destruct (MAX_HISTORY_BYTES <? _) eqn:Et.
      { split; [done|]. exists 0%nat. rewrite take_0, app_nil_r, Hcont, Hk. split_and!; [done|lia|lia]. }
      apply Z.ltb_ge in Et. destruct (IH _ (add_packs maxPlain s1 raw Hp Hsz ltac:(intros E; rewrite bool_decide_true in Eb by done; cbn [andb] in Eb; by apply Z.leb_gt) Et))
        as (Hp' & n & E & Ek & Hn).
      split; [done|]. exists (S n). cbn [groups current_ kept_] in E, Ek. rewrite E, Ek, Hk. cbn [take length]. split_and!; [|lia|lia].
      rewrite <- (app_assoc (current_ s1)), (app_assoc (concat (groups s1))), Hcont. by flat_apps.
Qed.

(** What packing keeps, in one statement. *)
Lemma packed_spec maxPlain messages : 2 <= maxPlain ->
  let p := packed maxPlain messages in
  Z.of_nat (length (groups p)) <= MAX_HISTORY_CHUNKS /\
  Forall (fun g => g <> [] /\ len (records_of g) <= maxPlain) (groups p) /\
  total_size (groups p) <= MAX_HISTORY_BYTES /\
  concat (groups p) = take (kept_ p) (filter (fun raw => fits maxPlain raw = true) (map stringify messages)) /\
  length (concat (groups p)) = kept_ p.
Proof.
  intros Hm. cbv zeta. unfold packed. set (s0 := Packing [] [] 2 0 0).
  assert (H0 : packs maxPlain s0) by (constructor; cbn; (lia || done || constructor)).
  destruct (pack_spec maxPlain (map stringify messages) s0 Hm H0) as (Hp & n & E & Ek & Hn).
  destruct (close_packs maxPlain _ Hm Hp) as [[H1 H2 H3 H4 H5 H6] Hc]. rewrite Hc in H5, H6.
  assert (E1 : concat (groups (close_group (pack maxPlain s0 (map stringify messages)))) = take n (filter (fun raw => fits maxPlain raw = true) (map stringify messages))).
  { unfold close_group. destruct (current_ _) eqn:Ec; cbn [groups]; [by rewrite app_nil_r in E|]. rewrite concat_app. cbn [concat]. by rewrite app_nil_r. }
  assert (E2 : kept_ (close_group (pack maxPlain s0 (map stringify messages))) = n) by (unfold close_group; by destruct (current_ _)).
  rewrite E1, E2. split_and!; [lia|done|lia|done|]. rewrite length_take. lia.
Qed.

(** ** Opening *)

Lemma first_line_app a r : 10 ∉ a -> first_line (a ++ 10 :: r) = Some (a, r).
Proof.
  induction a as [|c a IH]; [done|]. rewrite not_elem_of_cons. intros [Hc Ha]. cbn [app first_line].
  destruct (c =? 10) eqn:E; [apply Z.eqb_eq in E; congruence|]. by rewrite IH.
Qed.

Lemma stringify_array l : stringify (JArr (reverse l)) = records_of (map stringify l).
Proof. unfold stringify, records_of. cbn [print_json]. change (map (print_json escaped) (reverse l)) with (print_json escaped <$> reverse l). by rewrite fmap_reverse. Qed.

(** A signature scheme whose signatures by [sk] verify under [key]. *)
Record verified (nc : nacl) (cv : curves) (sk key : list Z) : Prop := {
  vf_bytes m : all_bytes (sign_detached nc m sk) = true;
  vf_verify m : ed_verify cv (sign_detached nc m sk) m key = true
}.

(** A header that names its place. *)
Definition at_place (h : json) (p : place) : Prop :=
  field "source" h = Some (JStr (pl_source p)) /\ field "transfer" h = Some (JStr (pl_transfer p)) /\
  field "seq" h = Some (JNum (pl_seq p)) /\ field "total" h = Some (JNum (pl_total p)).

Section opening.
Variable hs : hashes.
Variable nc : nacl.
Variable cv : curves.
Variables sk key : list Z.
Hypothesis Hsign : verified nc cv sk key.

#[local] Abbreviation signed_header p records t := (jset "sig" (JStr (toBase64 (sign_detached nc t sk))) (header (digest_of hs) p records)).

Lemma header_starts p records t : exists r, stringify (signed_header p records t) = HISTORY_ENVELOPE_PREFIX ++ r.
Proof.
  unfold header, jset. cbn [members has_member existsb fst]. repeat (rewrite bool_decide_false by done). cbn [orb app].
  eexists. unfold stringify. cbn [print_json map]. rewrite join_cons2. unfold HISTORY_ENVELOPE_PREFIX. cbn [fst snd print_json].
  unfold print_str. flat_apps. reflexivity.
Qed.

Lemma header_fields p records t k : k <> "sig"%string -> field k (signed_header p records t) = field k (header (digest_of hs) p records).
Proof. intros Hk. by apply field_jset_ne. Qed.

Lemma transcript_same p records t : historyChunkTranscript (signed_header p records t) = historyChunkTranscript (header (digest_of hs) p records).
Proof. unfold historyChunkTranscript. cbn [map]. by rewrite !header_fields by done. Qed.

Lemma envelope_opens p l plain : encodeHistoryChunk hs nc p (records_of (map stringify l)) sk = Some plain -> well_formed plain ->
  Crypto.decode plain = text plain /\ all_bytes plain = true /\
  exists h, at_place h p /\
    decodeHistoryEnvelope hs cv (Some (JStr (text plain))) (Expected (pl_source p) (pl_target p) (pl_seq p) (pl_total p) key) = Some (h, reverse l).
Proof.
  unfold encodeHistoryChunk. rewrite <- stringify_array. set (records := stringify (JArr (reverse l))).
  intros (t & Ht & ->)%fmap_Some Hwf. set (first := stringify (signed_header p records t)) in *.
  assert (Hb : all_bytes (first ++ 10 :: records) = true).
  { change (10 :: records) with ([10] ++ records). rewrite !all_bytes_app. subst first records. by rewrite !stringify_bytes. }
  destruct (header_starts p records t) as [r Hr]. fold first in Hr.
  split; [|split; [done|]].
  - unfold Crypto.decode. rewrite Hr. unfold text. f_equal. rewrite <- app_assoc.
    replace (without_mark (HISTORY_ENVELOPE_PREFIX ++ r ++ 10 :: records)) with (HISTORY_ENVELOPE_PREFIX ++ r ++ 10 :: records) by reflexivity.
    rewrite app_assoc, <- Hr. by apply decode_well_formed.
  - exists (signed_header p records t). split; [by unfold at_place; rewrite !header_fields by done|].
    unfold decodeHistoryEnvelope, isHistoryEnvelope. unfold text. rewrite bytes_of_string_of by done.
    rewrite Hr, <- app_assoc, strip_app, app_assoc, <- Hr, first_line_app by apply stringify_line. subst first.
    rewrite parse_stringify, transcript_same, Ht, !header_fields by done.
    unfold is_text. cbn [e_source e_target e_seq e_total e_key]. rewrite !bool_decide_true by done. cbn [andb].
    rewrite field_jset_eq. unfold fromBase64, String_of. cbn [js_String]. destruct Hsign as [Hsb Hv]. rewrite atob_toBase64 by done.
    unfold verifySignature. rewrite Hv. subst records. by rewrite parse_stringify.
Qed.
End opening.

Lemma seal_chunks_spec hs nc nonces source target transfer rp ss sk total seq l out :
  seal_chunks hs nc nonces source target transfer rp ss sk total seq l = Some out ->
  length out = length l /\ forall i c, out !! i = Some c -> exists g plain, l !! i = Some g /\
    encodeHistoryChunk hs nc (Place source target transfer (Z.of_nat (seq + i)) total) (records_of g) sk = Some plain /\
    c = sealDM nc (nonces (seq + i)%nat) (text plain) rp ss.
Proof.
  revert seq out. induction l as [|g l IH]; intros seq out; cbn [seal_chunks]; [by intros [= <-]|].
  destruct (encodeHistoryChunk _ _ _ _ _) as [plain|] eqn:Ee; [|done]. destruct (seal_chunks _ _ _ _ _ _ _ _ _ _ (S seq) l) as [rest|] eqn:Es; [|done].
  intros [= <-]. destruct (IH _ _ Es) as [Hl Hi]. split; [cbn; lia|]. intros [|i] c Hc; cbn [lookup list_lookup] in Hc.
  - injection Hc as <-. exists g, plain. rewrite Nat.add_0_r. by split_and!.
  - destruct (Hi i c Hc) as (g' & plain' & Hg & He & Hcc). exists g', plain'. by rewrite <- Nat.add_succ_comm.
Qed.

(** ** The sizes of the sealed chunks *)

(** What the server stores of a chunk, and counts: its bytes. *)
Definition data_size (c : string) : Z := match atob c with Some raw => len raw | None => 0 end.
Definition data_total (l : list string) : Z := foldr (fun c n => data_size c + n) 0 l.

(** The sizes that signatures, boxes and nonces have. *)
Record sizes (nc : nacl) (nonces : nat -> list Z) (rp ss sk : list Z) : Prop := {
  sz_sign m : length (sign_detached nc m sk) = 64%nat /\ all_bytes (sign_detached nc m sk) = true;
  sz_box m n : all_bytes m = true -> all_bytes n = true -> all_bytes (box nc m n rp ss) = true /\ length (box nc m n rp ss) = (length m + 16)%nat;
  sz_nonce i : length (nonces i) = 24%nat /\ all_bytes (nonces i) = true
}.

Lemma print_num_short n : 0 <= n <= MAX_HISTORY_CHUNKS -> len (print_num n) <= 3.
Proof.
  intros Hn. assert (forallb (fun n => len (print_num n) <=? 3) (seqZ 0 257) = true) as H by (vm_compute; reflexivity).
  rewrite forallb_forall in H. apply Z.leb_le, H. apply list_elem_of_In, elem_of_seqZ. unfold MAX_HISTORY_CHUNKS in Hn. lia.
Qed.

Lemma print_hash s : hex64 s = true -> len (print_str s) = 66.
Proof.
  unfold hex64, all_chars, utf8_length. rewrite andb_true_iff, Z.eqb_eq. intros [H Hl]. rewrite <- bytes_of_length in Hl.
  unfold print_str, print_str_with, escaped, len. cbn [length]. rewrite length_app.
  assert (bytes_of s ≫= escape = bytes_of s) as ->; [|cbn [length]; lia].
  clear Hl. induction (bytes_of s) as [|c l IH]; [done|]. cbn [forallb mbind list_bind] in *. apply andb_true_iff in H as [Hc H]. rewrite IH by done.
  unfold is_hex_lower, is_digit in Hc. unfold escape. repeat match goal with |- context [if ?x =? ?y then _ else _] => destruct (Z.eqb_spec x y); [lia|] end.
  destruct (Z.ltb_spec c 32); [lia|done].
Qed.

Lemma print_base64 l : length l = 64%nat -> all_bytes l = true -> len (print_str (toBase64 l)) <= 90.
Proof.
  intros Hl Hb. unfold print_str, print_str_with. rewrite b64_text_bytes, escaped_b64 by done. unfold len. cbn [length]. rewrite length_app.
  pose proof (b64_length l) as H. rewrite Hl in H. cbn [length]. change (4 * (Z.of_nat 64 / 3) + 4) with 88 in H. lia.
Qed.

(** The header of a chunk takes no more than the space that packing leaves for it, when
    its three IDs take at most 773 bytes (three UUIDs take 114). *)
Lemma len_app (l k : list Z) : len (l ++ k) = len l + len k.
Proof. unfold len. rewrite length_app. lia. Qed.
Lemma len_cons c (l : list Z) : len (c :: l) = 1 + len l.
Proof. unfold len. cbn [length]. lia. Qed.

Lemma header_size hs nc p records sk plain : (forall m, length (sign_detached nc m sk) = 64%nat /\ all_bytes (sign_detached nc m sk) = true) ->
  len (print_str (pl_source p)) + len (print_str (pl_target p)) + len (print_str (pl_transfer p)) <= 773 ->
  encodeHistoryChunk hs nc p records sk = Some plain ->
  exists line, plain = line ++ 10 :: records /\ all_bytes line = true /\ len line + 1 <= HISTORY_ENVELOPE_RESERVE.
Proof.
  intros Hsig Hids. unfold encodeHistoryChunk. intros (t & Ht & ->)%fmap_Some. destruct (Hsig t) as [Hl Hb].
  eexists. split; [reflexivity|]. split; [apply stringify_bytes|].
  unfold historyChunkTranscript in Ht. match type of Ht with (if ?b then _ else _) = _ => destruct b eqn:Eb; [|done] end. clear Ht.
  change (field "seq" (header (digest_of hs) p records)) with (Some (JNum (pl_seq p))) in Eb.
  change (field "total" (header (digest_of hs) p records)) with (Some (JNum (pl_total p))) in Eb.
  change (hash (field "digest" (header (digest_of hs) p records))) with (hex64 (digest_of hs records)) in Eb. cbn [num_or] in Eb.
  rewrite !andb_true_iff, !Z.leb_le, Z.ltb_lt in Eb. destruct Eb as [[[[[_ E1] E2] E3] E4] E5]. cbn [num_or default] in *.
  unfold header, jset. cbn [members has_member existsb fst]. repeat (rewrite bool_decide_false by done). cbn [orb app].
  unfold stringify. cbn [print_json map fst snd]. rewrite !join_cons2. cbn [join].
  change (print_str_with escaped) with print_str. repeat (rewrite !len_app || rewrite !len_cons). rewrite (print_hash _ E5).
  pose proof (print_base64 _ Hl Hb) as H64. pose proof (print_num_short (pl_seq p) ltac:(lia)) as Hn1. pose proof (print_num_short (pl_total p) ltac:(lia)) as Hn2.
  change (len (print_str "v")) with 3. change (len (print_str HISTORY_ENVELOPE_VERSION)) with 17. change (len (print_str "source")) with 8.
  change (len (print_str "target")) with 8. change (len (print_str "transfer")) with 10. change (len (print_str "seq")) with 5. change (len (print_str "total")) with 7.
  change (len (print_str "digest")) with 8. change (len (print_str "sig")) with 5. change (len []) with 0. unfold HISTORY_ENVELOPE_RESERVE. lia.
Qed.

Section sealing.
Variables (hs : hashes) (nc : nacl) (nonces : nat -> list Z) (rp ss sk : list Z) (source target transfer : string).
Hypothesis Hsizes : sizes nc nonces rp ss sk.
Hypothesis Hids : len (print_str source) + len (print_str target) + len (print_str transfer) <= 773.

Lemma sealed_data n plain : all_bytes plain = true -> data_size (sealDM nc (nonces n) (text plain) rp ss) = len plain + SEAL_OVERHEAD.
Proof.
  intros Hp. destruct (sz_nonce _ _ _ _ _ Hsizes n) as [Hn Hb]. destruct (sz_box _ _ _ _ _ Hsizes plain (nonces n) Hp Hb) as [Hbb Hbl].
  unfold data_size, sealDM, text. rewrite bytes_of_string_of by done. rewrite atob_toBase64 by by rewrite all_bytes_app, Hb.
  unfold len, SEAL_OVERHEAD. rewrite length_app, Hbl, Hn. lia.
Qed.

(** A chunk's data: its records, the overhead, and a header within the reserve. *)
Lemma chunk_data n p g plain : pl_source p = source -> pl_target p = target -> pl_transfer p = transfer -> Forall (fun l => all_bytes l = true) g ->
  encodeHistoryChunk hs nc p (records_of g) sk = Some plain ->
  sealed_size g < data_size (sealDM nc (nonces n) (text plain) rp ss) <= sealed_size g + HISTORY_ENVELOPE_RESERVE.
Proof.
  intros E1 E2 E3 Hg He. destruct (header_size hs nc p _ sk plain (sz_sign _ _ _ _ _ Hsizes) ltac:(by rewrite E1, E2, E3) He) as (line & -> & Hl & Hr).
  assert (Hrec : all_bytes (records_of g) = true).
  { unfold records_of. change (91 :: ?l) with ([91] ++ l). rewrite !all_bytes_app. cbn [all_bytes forallb]. rewrite !andb_true_r. apply join_bytes.
    by apply Forall_reverse. }
  rewrite sealed_data by (change (10 :: records_of g) with ([10] ++ records_of g); by rewrite !all_bytes_app, Hl, Hrec).
  unfold sealed_size. rewrite len_app, len_cons. unfold len in *. lia.
Qed.

Lemma sealed_total total seq l out : Forall (Forall (fun l => all_bytes l = true)) l ->
  seal_chunks hs nc nonces source target transfer rp ss sk total seq l = Some out ->
  total_size l + Z.of_nat (length l) <= data_total out <= total_size l + HISTORY_ENVELOPE_RESERVE * Z.of_nat (length l) /\
  Forall2 (fun g c => data_size c <= sealed_size g + HISTORY_ENVELOPE_RESERVE) l out.
Proof.
  revert seq out. induction l as [|g l IH]; intros seq out Hl; cbn [seal_chunks]; [intros [= <-]; cbn; split; [lia|constructor]|].
  apply Forall_cons in Hl as [Hg Hl]. destruct (encodeHistoryChunk _ _ _ _ _) as [plain|] eqn:Ee; [|done].
  destruct (seal_chunks _ _ _ _ _ _ _ _ _ _ (S seq) l) as [rest|] eqn:Es; [|done]. intros [= <-]. destruct (IH _ _ Hl Es) as [H1 H2].
  pose proof (chunk_data seq (Place source target transfer (Z.of_nat seq) total) g plain eq_refl eq_refl eq_refl Hg Ee) as Hc. split; [|constructor; [lia|exact H2]].
  change (total_size (g :: l)) with (sealed_size g + total_size l). cbn [data_total foldr length]. fold (data_total rest). lia.
Qed.
End sealing.

Lemma total_size_reverse gs : total_size (reverse gs) = total_size gs.
Proof. induction gs as [|g gs IH]; [done|]. rewrite reverse_cons, total_size_snoc, IH. unfold total_size. cbn [foldr]. lia. Qed.

(** The texts that are packed are bytes. *)
Lemma packed_bytes maxPlain messages : 2 <= maxPlain -> Forall (Forall (fun l => all_bytes l = true)) (groups (packed maxPlain messages)).
Proof.
  intros Hm. destruct (packed_spec maxPlain messages Hm) as (_ & _ & _ & E & _). cbv zeta in E. apply Forall_concat. rewrite E.
  apply Forall_take, Forall_forall. intros l [_ Hl]%list_elem_of_filter. apply list_elem_of_In, in_map_iff in Hl as (m & <- & _). apply stringify_bytes.
Qed.

(** C34: the chunks of a copied history fit.  Whatever messages are copied, there are at
    most 256 chunks; the data of each, as the server gets it, is no longer than a chunk
    may be, and all together are within 50 MB and 1 KB for each chunk's header; each
    holds at least one message, and together they hold exactly the newest [kept] messages
    among those that fit into a chunk at all.  The IDs in the headers are assumed to take
    at most 773 bytes together, and signatures, boxes and nonces to have their sizes. *)
Theorem history_chunks_bounded hs nc nonces messages rp ss maxChunk source target transfer sk chunks kept :
  sizes nc nonces rp ss sk -> SEAL_OVERHEAD + HISTORY_ENVELOPE_RESERVE + 2 <= maxChunk ->
  len (print_str source) + len (print_str target) + len (print_str transfer) <= 773 ->
  buildHistoryChunks hs nc nonces messages rp ss maxChunk source target transfer sk = Some (chunks, kept) ->
  Z.of_nat (length chunks) <= MAX_HISTORY_CHUNKS /\
  Forall (fun c => data_size c <= maxChunk) chunks /\
  data_total chunks <= MAX_HISTORY_BYTES + HISTORY_ENVELOPE_RESERVE * Z.of_nat (length chunks) /\
  exists gs, length gs = length chunks /\ Forall (fun g => g <> []) gs /\ length (concat gs) = kept /\
    concat gs = take kept (filter (fun raw => fits (maxChunk - SEAL_OVERHEAD - HISTORY_ENVELOPE_RESERVE) raw = true) (map stringify messages)) /\
    forall i c, chunks !! i = Some c -> exists g plain, reverse gs !! i = Some g /\ c = sealDM nc (nonces i) (text plain) rp ss /\
      encodeHistoryChunk hs nc (Place source target transfer (Z.of_nat i) (Z.of_nat (length chunks))) (records_of g) sk = Some plain.
Proof.
  intros Hs Hm Hids. unfold buildHistoryChunks. set (maxPlain := maxChunk - _ - _). intros (cs & Hcs & [= -> ->])%fmap_Some.
  assert (Hmp : 2 <= maxPlain) by (subst maxPlain; lia). destruct (packed_spec maxPlain messages Hmp) as (P1 & P2 & P3 & P4 & P5). cbv zeta in *.
  pose proof (packed_bytes maxPlain messages Hmp) as Hb. set (p := packed maxPlain messages) in *.
  destruct (sealed_total hs nc nonces rp ss sk source target transfer Hs Hids _ _ _ _ ltac:(apply Forall_reverse; exact Hb) Hcs) as [Ht H2].
  rewrite total_size_reverse, length_reverse in Ht. pose proof (seal_chunks_spec _ _ _ _ _ _ _ _ _ _ _ _ _ Hcs) as [Hlen Hi]. rewrite length_reverse in Hlen.
  split; [lia|]. split.
  { apply Forall_forall. intros c (i & Hc)%list_elem_of_lookup. destruct (Forall2_lookup_r _ _ _ _ _ H2 Hc) as (g & Hg & Hle).
    apply list_elem_of_lookup_2 in Hg. rewrite elem_of_reverse in Hg. rewrite Forall_forall in P2. destruct (P2 g Hg) as [_ Hgl]. unfold sealed_size in Hle. subst maxPlain. lia. }
  split; [lia|]. exists (groups p). split_and!; [lia| |done|done|].
  - eapply Forall_impl; [exact P2|]. by intros g [].
  - intros i c Hc. destruct (Hi i c Hc) as (g & plain & Hg & He & ->). exists g, plain. rewrite Hlen. by split_and!.
Qed.

Lemma hex_ascii l : all_bytes l = true -> well_formed (bytes_of (hex_text l)) .
Proof.
  intros Hl. assert (Forall (fun c => 0 <= c < 128) (l ≫= fun b => [hex_digit (b / 16); hex_digit (b `mod` 16)])) as H.
  { unfold all_bytes in Hl. induction l as [|b l IH]; [constructor|]. cbn [forallb] in Hl. apply andb_true_iff in Hl as [Hb%is_byte_spec Hl].
    cbn [mbind list_bind app]. repeat constructor; [..|by apply IH]; unfold hex_digit; zcases; Z.to_euclidean_division_equations; lia. }
  unfold hex_text, text. rewrite bytes_of_string_of.
  - apply well_formed_ascii. eapply Forall_impl; [exact H|]. intros c Hc. cbn in *. lia.
  - unfold all_bytes. apply forallb_forall. intros c Hc%list_elem_of_In. rewrite Forall_forall in H. apply is_byte_spec. specialize (H c Hc). lia.
Qed.

(** The groups of raw texts are groups of messages. *)
Lemma groups_of_messages gs (ms : list json) : concat gs = map stringify ms -> exists mss, gs = map (map stringify) mss /\ concat mss = ms.
Proof.
  revert ms. induction gs as [|g gs IH]; intros ms E; cbn [concat] in E.
  - exists []. split; [done|]. by destruct ms.
  - symmetry in E. apply fmap_app_inv in E as (m1 & m2 & -> & E & ->). destruct (IH m2 E) as (mss & -> & <-). by exists (m1 :: mss).
Qed.

Lemma concat_reverse {A} (l : list (list A)) : concat (map reverse (reverse l)) = reverse (concat l).
Proof.
  induction l as [|x l IH]; [done|]. rewrite reverse_cons, map_app, concat_app, IH. cbn [map concat]. by rewrite app_nil_r, reverse_app.
Qed.

Lemma filter_map_take (P : list Z -> Prop) `{!forall x, Decision (P x)} n (ms : list json) :
  take n (filter P (map stringify ms)) = map stringify (take n (filter (fun m => P (stringify m)) ms)).
Proof.
  revert n. induction ms as [|m ms IH]; intros n; [by destruct n|]. cbn [map]. rewrite !filter_cons. case_decide; [|apply IH].
  destruct n as [|n]; [done|]. cbn [take map]. by rewrite IH.
Qed.

(** Both sides' keys: signatures verify, boxes open, the hash is bytes, and so are
    the nonces. *)
Record delivers (hs : hashes) (nc : nacl) (cv : curves) (nonces : nat -> list Z) (rp ss sp rs sk key : list Z) : Prop := {
  dv_sign : verified nc cv sk key;
  dv_box : boxes nc rp ss sp rs;
  dv_hash m : all_bytes (sha256 hs m) = true;
  dv_nonce i : length (nonces i) = 24%nat /\ all_bytes (nonces i) = true
}.

Lemma header_well_formed hs nc p records t sk : (forall m, all_bytes (sign_detached nc m sk) = true) -> (forall m, all_bytes (sha256 hs m) = true) ->
  well_formed (bytes_of (pl_source p)) -> well_formed (bytes_of (pl_target p)) -> well_formed (bytes_of (pl_transfer p)) ->
  well_formed (stringify (jset "sig" (JStr (toBase64 (sign_detached nc t sk))) (header (digest_of hs) p records))).
Proof.
  intros Hs Hh H1 H2 H3. unfold header, jset. cbn [members has_member existsb fst]. repeat (rewrite bool_decide_false by done). cbn [orb app].
  apply well_formed_obj. assert (Hascii : forall s : string, forallb (fun c => c <? 128) (bytes_of s) = true -> well_formed (bytes_of s)).
  { intros s H. apply well_formed_ascii, Forall_forall. intros c Hc%list_elem_of_In. rewrite forallb_forall in H. by apply Z.ltb_lt, H. }
  repeat (constructor; [cbn [fst snd]; split; [by apply Hascii; vm_compute|]|]); [..|constructor].
  all: first [apply well_formed_num | apply well_formed_print].
  - by apply Hascii; vm_compute.
  - done.
  - done.
  - done.
  - by apply hex_ascii.
  - rewrite b64_text_bytes by done. by apply well_formed_b64.
Qed.

(** What the recipient opens, with the headers. *)
Lemma built_opens hs nc cv nonces rp ss sp rs sk key messages maxChunk source target transfer chunks kept :
  delivers hs nc cv nonces rp ss sp rs sk key -> SEAL_OVERHEAD + HISTORY_ENVELOPE_RESERVE + 2 <= maxChunk ->
  well_formed (bytes_of source) -> well_formed (bytes_of target) -> well_formed (bytes_of transfer) ->
  Forall (fun m => well_formed (stringify m)) messages ->
  buildHistoryChunks hs nc nonces messages rp ss maxChunk source target transfer sk = Some (chunks, kept) ->
  exists lists, length lists = length chunks /\
    concat lists = reverse (take kept (filter (fun m => fits (maxChunk - SEAL_OVERHEAD - HISTORY_ENVELOPE_RESERVE) (stringify m) = true) messages)) /\
    forall i c, chunks !! i = Some c -> exists l s h, lists !! i = Some l /\ openDM nc c sp rs = Some (Some s) /\
      at_place h (Place source target transfer (Z.of_nat i) (Z.of_nat (length chunks))) /\
      decodeHistoryEnvelope hs cv (Some (JStr s)) (Expected source target (Z.of_nat i) (Z.of_nat (length chunks)) key) = Some (h, l).
Proof.
  intros [Hsign Hbox Hhash Hnonce] Hmax H1 H2 H3 Hms. unfold buildHistoryChunks. set (maxPlain := maxChunk - _ - _). intros (cs & Hcs & [= -> ->])%fmap_Some.
  destruct (packed_spec maxPlain messages ltac:(lia)) as (_ & _ & _ & Hcontent & _). cbv zeta in Hcontent. set (p := packed maxPlain messages) in *.
  rewrite filter_map_take in Hcontent. destruct (groups_of_messages _ _ Hcontent) as (mss & Hgs & Hmss).
  apply seal_chunks_spec in Hcs as [Hlen Hi]. rewrite length_reverse in Hlen.
  assert (Hwfs : Forall (Forall (fun m => well_formed (stringify m))) mss).
  { apply List.Forall_concat. rewrite Hmss. apply Forall_take, Forall_forall. intros m [_ Hm]%list_elem_of_filter.
    rewrite Forall_forall in Hms. by apply Hms. }
  exists (map reverse (reverse mss)). split; [|split; [by rewrite concat_reverse, Hmss|]].
  { rewrite length_map, length_reverse, Hlen, Hgs. by rewrite length_map. }
  intros i c Hc. destruct (Hi i c Hc) as (g & plain & Hg & He & ->). cbn [plus] in He. rewrite Hgs in Hg.
  change (map (map stringify) mss) with (map stringify <$> mss) in Hg. rewrite <- fmap_reverse, list_lookup_fmap in Hg.
  apply fmap_Some in Hg as (ms & Hm & ->). pose proof Hsign as [Hsb _].
  assert (Hwf : well_formed plain).
  { pose proof He as He'. unfold encodeHistoryChunk in He'. rewrite <- stringify_array in He'. apply fmap_Some in He' as (t & _ & ->).
    apply well_formed_app; [by apply header_well_formed|]. apply well_formed_cons; [lia|]. apply well_formed_array.
    rewrite Forall_forall in Hwfs. apply Forall_reverse, Hwfs. apply list_elem_of_lookup_2 in Hm. by rewrite elem_of_reverse in Hm. }
  destruct (envelope_opens hs nc cv sk key Hsign _ _ _ He Hwf) as (Hd & Hb & h & Hh & Hopen). cbn [pl_source pl_target pl_seq pl_total] in Hopen.
  exists (reverse ms), (text plain), h. rewrite Hlen. split_and!.
  - change (map reverse (reverse mss)) with (reverse <$> reverse mss). by rewrite list_lookup_fmap, Hm.
  - destruct (Hnonce i) as [Hn Hnb]. rewrite (openDM_sealDM nc rp ss sp rs _ _ Hbox Hn Hnb). unfold text. rewrite bytes_of_string_of by done. by rewrite Hd.
  - exact Hh.
  - exact Hopen.
Qed.

(** A copied history arrives whole.  Whatever messages are packed, every chunk
    that is sent is opened by the recipient as the chunk of its place, and the
    opened chunks in order are exactly the newest [kept] messages that fit, oldest
    first. *)
Theorem history_copy_delivered hs nc cv nonces rp ss sp rs sk key messages maxChunk source target transfer chunks kept :
  delivers hs nc cv nonces rp ss sp rs sk key -> SEAL_OVERHEAD + HISTORY_ENVELOPE_RESERVE + 2 <= maxChunk ->
  well_formed (bytes_of source) -> well_formed (bytes_of target) -> well_formed (bytes_of transfer) ->
  Forall (fun m => well_formed (stringify m)) messages ->
  buildHistoryChunks hs nc nonces messages rp ss maxChunk source target transfer sk = Some (chunks, kept) ->
  exists lists, length lists = length chunks /\
    concat lists = reverse (take kept (filter (fun m => fits (maxChunk - SEAL_OVERHEAD - HISTORY_ENVELOPE_RESERVE) (stringify m) = true) messages)) /\
    forall i c, chunks !! i = Some c -> exists l s, lists !! i = Some l /\ openDM nc c sp rs = Some (Some s) /\
      decodeHistoryChunk hs cv (Some (JStr s)) (Expected source target (Z.of_nat i) (Z.of_nat (length chunks)) key) = Some l.
Proof.
  intros Hd Hmax H1 H2 H3 Hms Hb. destruct (built_opens _ _ _ _ _ _ _ _ _ _ _ _ _ _ _ _ _ Hd Hmax H1 H2 H3 Hms Hb) as (lists & Hl & Hc & Hi).
  exists lists. split_and!; [done|done|]. intros i c (l & s & h & Hli & Ho & _ & He)%Hi. exists l, s. unfold decodeHistoryChunk. by rewrite He.
Qed.

(** ** A full copy *)

Definition sum_len (l : list (list Z)) : Z := foldr (fun raw n => len raw + 2 + SEAL_OVERHEAD + n) 0 l.

(** Texts of which no two fit into one chunk are packed one by one. *)
Lemma close_alone maxPlain l : forall gs x sz t k, sz = len x + 2 -> Forall (fun a => Forall (fun b => maxPlain < len a + len b + 3) (x :: l)) (x :: l) ->
  Forall (fun a => fits maxPlain a = true) l -> Z.of_nat (length gs + length l) < MAX_HISTORY_CHUNKS -> t + sum_len (x :: l) <= MAX_HISTORY_BYTES ->
  groups (close_group (pack maxPlain (Packing gs [x] sz t k) l)) = gs ++ map (fun a => [a]) (x :: l).
Proof.
  induction l as [|y l IH]; intros gs x sz t k -> Hbig Hfit Hn Ht; [done|]. apply Forall_cons in Hfit as [Hy Hfit].
  assert (Hl : 0 <= sum_len l) by (clear; unfold sum_len, SEAL_OVERHEAD, len; induction l; cbn [foldr]; lia).
  change (sum_len (x :: y :: l)) with (len x + 2 + SEAL_OVERHEAD + (len y + 2 + SEAL_OVERHEAD + sum_len l)) in Ht.
  apply Forall_cons in Hbig as [Hx Hbig]. apply Forall_cons in Hx as [_ Hx]. apply Forall_cons in Hx as [Hxy _].
  assert (Hxy' : (maxPlain <? len x + 2 + (len y + 1)) = true) by (apply Z.ltb_lt; lia).
  unfold fits in Hy. apply Z.leb_le in Hy. cbn [pack]. replace (maxPlain <? len y + 2) with false by (symmetry; apply Z.ltb_ge; lia).
  cbn [current_ size_]. rewrite !(bool_decide_false ([x] = [])) by done. rewrite Hxy'. cbn [close_group groups current_ size_ total_ kept_].
  rewrite bool_decide_true by done. cbn [andb length] in *. replace (MAX_HISTORY_CHUNKS <=? Z.of_nat (length (gs ++ [[x]]))) with false
    by (symmetry; apply Z.leb_gt; rewrite length_app; cbn [length]; lia).
  replace (MAX_HISTORY_BYTES <? t + (len x + 2) + SEAL_OVERHEAD + 2 + len y + SEAL_OVERHEAD) with false by (symmetry; apply Z.ltb_ge; lia).
  rewrite (IH (gs ++ [[x]]) y); [by rewrite <- app_assoc|lia| |done|rewrite length_app; cbn [length]; lia|].
  - eapply Forall_impl; [exact Hbig|]. intros b Hb. by apply Forall_cons in Hb as [_ Hb].
  - change (sum_len (y :: l)) with (len y + 2 + SEAL_OVERHEAD + sum_len l). lia.
Qed.

Lemma packed_alone maxPlain m ms : Forall (fun a => Forall (fun b => maxPlain < len a + len b + 3) (map stringify (m :: ms))) (map stringify (m :: ms)) ->
  Forall (fun a => fits maxPlain a = true) (map stringify (m :: ms)) -> Z.of_nat (length ms) < MAX_HISTORY_CHUNKS ->
  sum_len (map stringify (m :: ms)) <= MAX_HISTORY_BYTES -> groups (packed maxPlain (m :: ms)) = map (fun a => [a]) (map stringify (m :: ms)).
Proof.
  cbn [map]. intros Hbig Hfit Hn Ht. apply Forall_cons in Hfit as [Hx Hfit]. unfold packed. cbn [map pack].
  assert (Hl : 0 <= sum_len (map stringify ms)) by (clear; unfold sum_len, SEAL_OVERHEAD, len; induction (map stringify ms); cbn [foldr]; lia).
  pose proof Ht as Ht'. change (sum_len (stringify m :: map stringify ms)) with (len (stringify m) + 2 + SEAL_OVERHEAD + sum_len (map stringify ms)) in Ht'.
  unfold fits in Hx. apply Z.leb_le in Hx. replace (maxPlain <? len (stringify m) + 2) with false by (symmetry; apply Z.ltb_ge; lia).
  cbn [current_ size_]. rewrite !(bool_decide_true ([] = [])) by done. replace (maxPlain <? 2 + (len (stringify m) + 0)) with false by (symmetry; apply Z.ltb_ge; lia).
  cbn [groups current_ size_ total_ kept_ length]. rewrite bool_decide_true by done. cbn [andb].
  change (MAX_HISTORY_CHUNKS <=? Z.of_nat 0) with false. cbv iota.
  replace (MAX_HISTORY_BYTES <? 0 + 2 + (len (stringify m) + 0) + SEAL_OVERHEAD) with false by (symmetry; apply Z.ltb_ge; lia).
  rewrite (close_alone maxPlain (map stringify ms) [] (stringify m)); [done|lia|done|done|rewrite length_map; cbn [length]; lia|exact Ht].
Qed.

(** ** A concrete transfer *)

Module HistoryDemo.
Definition hs : hashes := Hashes (fun _ => repeat 7 32) (fun _ _ => repeat 8 32) (fun _ => repeat 9 24).
Definition nc : nacl :=
  Nacl (fun m _ _ => m) (fun m _ _ => Some m) (fun m _ _ _ => m) (fun m _ _ _ => Some m) (fun _ sk => sk ++ sk) (fun _ g key => bool_decide (g = key ++ key)).
Definition cv : curves := Curves (fun _ => Some [1]) (fun b => Some (b, false)) (fun g _ key => bool_decide (g = key ++ key)).
Definition nonces (_ : nat) : list Z := repeat 5 24.
Definition key : list Z := repeat 1 32.
Definition message (n : Z) : json := JObj [("body", JStr "hi"); ("sent_at", JNum n)]%string.
Definition messages : list json := [message 3; message 2; message 1].
Definition maxChunk : Z := SEAL_OVERHEAD + HISTORY_ENVELOPE_RESERVE + 60.

Definition built : list string * nat := Eval vm_compute in
  match buildHistoryChunks hs nc nonces messages [] [] maxChunk "desk" "phone" "t1" key with Some r => r | None => ([], 0%nat) end.
Lemma built_is : buildHistoryChunks hs nc nonces messages [] [] maxChunk "desk" "phone" "t1" key = Some (built.1, built.2).
Proof. vm_compute. reflexivity. Qed.

Lemma delivers_ok : delivers hs nc cv nonces [] [] [] [] key key.
Proof.
  split; [split; intros m; by vm_compute|split; [done|done]|intros m; by vm_compute|intros i; by vm_compute].
Qed.

Lemma messages_ok : Forall (fun m => well_formed (stringify m)) messages.
Proof. repeat constructor; eexists; by vm_compute. Qed.

Lemma ascii_ok (s : string) : forallb (fun c => c <? 128) (bytes_of s) = true -> well_formed (bytes_of s).
Proof. intros H. apply well_formed_ascii, Forall_forall. intros c Hc%list_elem_of_In. rewrite forallb_forall in H. by apply Z.ltb_lt, H. Qed.

(** Boxes with their overhead. *)
Definition sized_nc : nacl :=
  Nacl (fun m _ _ => m) (fun m _ _ => Some m) (fun m _ _ _ => repeat 0 16 ++ m) (fun m _ _ _ => Some (drop 16 m)) (fun _ sk => sk ++ sk) (fun _ g key => bool_decide (g = key ++ key)).
Lemma sizes_ok : sizes sized_nc nonces [] [] key.
Proof. split; [intros m; by split|intros m n Hm _|intros i; by split]. unfold sized_nc. cbn [box]. by rewrite all_bytes_app, Hm, length_app, Nat.add_comm. Qed.

Definition sized : list string * nat := Eval vm_compute in
  match buildHistoryChunks hs sized_nc nonces messages [] [] maxChunk "desk" "phone" "t1" key with Some r => r | None => ([], 0%nat) end.
Lemma sized_is : buildHistoryChunks hs sized_nc nonces messages [] [] maxChunk "desk" "phone" "t1" key = Some (sized.1, sized.2).
Proof. vm_compute. reflexivity. Qed.

Lemma history_chunks_bounded_witness : length sized.1 = 2%nat /\ sized.2 = 3%nat /\ Forall (fun c => data_size c <= maxChunk) sized.1.
Proof.
  split; [reflexivity|]. split; [reflexivity|].
  refine (proj1 (proj2 (history_chunks_bounded hs sized_nc nonces messages [] [] maxChunk "desk" "phone" "t1" key sized.1 sized.2 sizes_ok _ _ sized_is))).
  - vm_compute. discriminate.
  - vm_compute. discriminate.
Defined.

(** Two hundred messages that fill a chunk each, and one that fills what is left of 50 MB. *)
Definition long (n : Z) : json := JStr (string_of (repeat 97 (Z.to_nat n))).
Definition full_copy : list json := repeat (long 261076) 200 ++ [long 204756].

Lemma long_size n : 0 <= n -> len (stringify (long n)) = n + 2.
Proof.
  intros Hn. unfold long, stringify. cbn [print_json]. unfold print_str_with. rewrite bytes_of_string_of by (generalize (Z.to_nat n); intros k; by induction k).
  rewrite len_cons, len_app. assert (escaped (repeat 97 (Z.to_nat n)) = repeat 97 (Z.to_nat n)) as -> by (generalize (Z.to_nat n); intros k; induction k as [|k IH]; [done|]; cbn [repeat]; unfold escaped in *; cbn [mbind list_bind]; by rewrite IH).
  unfold len. rewrite repeat_length. cbn [length]. lia.
Qed.

Lemma full_copy_sizes : Forall (fun a => len a = 261078 \/ len a = 204758) (map stringify full_copy) /\ sum_len (map stringify full_copy) = MAX_HISTORY_BYTES.
Proof.
  pose proof (long_size 261076 ltac:(lia)) as H1. pose proof (long_size 204756 ltac:(lia)) as H2. unfold full_copy. rewrite map_app, map_repeat. cbn [map].
  revert H1 H2. generalize (stringify (long 261076)), (stringify (long 204756)). intros a b H1 H2. split.
  - apply Forall_app. split; [apply Forall_forall; intros x Hx%list_elem_of_In%repeat_spec; left; by rewrite Hx|]. constructor; [right; exact H2|constructor].
  - unfold sum_len. rewrite foldr_app. cbn [foldr]. rewrite H2. cbn [repeat foldr]. rewrite H1. reflexivity.
Qed.

Lemma headers_ok records n : 0 <= n < 201 -> is_Some (historyChunkTranscript (header (digest_of hs) (Place "desk" "phone" "t1" n 201) records)).
Proof.
  intros Hn. assert (forallb (fun n => if historyChunkTranscript (header (digest_of hs) (Place "desk" "phone" "t1" n 201) records) then true else false) (seqZ 0 201) = true) as H
    by (vm_compute; reflexivity).
  rewrite forallb_forall in H. specialize (H n ltac:(apply list_elem_of_In, elem_of_seqZ; lia)). by destruct (historyChunkTranscript _).
Qed.

Lemma sealed_all n l seq : Z.of_nat (seq + length l) <= n -> n = 201 ->
  is_Some (seal_chunks hs sized_nc nonces "desk" "phone" "t1" [] [] key n seq l).
Proof.
  intros Hl ->. revert seq Hl. induction l as [|g l IH]; intros seq Hl; cbn [seal_chunks length] in *; [done|].
  destruct (headers_ok (records_of g) (Z.of_nat seq) ltac:(lia)) as [t Ht]. unfold encodeHistoryChunk. rewrite Ht. cbn [fmap option_fmap option_map].
  destruct (IH (S seq) ltac:(lia)) as [out ->]. by eexists.
Qed.

Lemma full_copy_packed : groups (packed (MAX_HISTORY_CHUNK - SEAL_OVERHEAD - HISTORY_ENVELOPE_RESERVE) full_copy) = map (fun a => [a]) (map stringify full_copy).
Proof.
  destruct full_copy_sizes as [Hf Hs]. unfold full_copy at 1 2. change (repeat (long 261076) 200) with (long 261076 :: repeat (long 261076) 199). cbn [app].
  apply packed_alone; change (long 261076 :: repeat (long 261076) 199 ++ [long 204756]) with full_copy.
  - apply Forall_forall. intros a Ha. apply Forall_forall. intros b Hb. rewrite Forall_forall in Hf. change (MAX_HISTORY_CHUNK - SEAL_OVERHEAD - HISTORY_ENVELOPE_RESERVE) with 261080.
    destruct (Hf a Ha), (Hf b Hb); lia.
  - eapply Forall_impl; [exact Hf|]. intros a Ha. cbn beta in Ha. unfold fits. apply Z.leb_le. change (MAX_HISTORY_CHUNK - SEAL_OVERHEAD - HISTORY_ENVELOPE_RESERVE) with 261080. destruct Ha; lia.
  - rewrite length_app, repeat_length. vm_compute. reflexivity.
  - rewrite Hs. lia.
Qed.

Notation space := (MAX_HISTORY_CHUNK - SEAL_OVERHEAD - HISTORY_ENVELOPE_RESERVE).
Lemma space_is : 2 <= space.
Proof. by vm_compute. Qed.
Lemma ids_fit : len (print_str "desk") + len (print_str "phone") + len (print_str "t1") <= 773.
Proof. by vm_compute. Qed.

Lemma alone_size (l : list (list Z)) : total_size (map (fun a => [a]) l) = sum_len l /\ length (concat (map (fun a => [a]) l)) = length l.
Proof.
  induction l as [|x l [IH1 IH2]]; [done|]. cbn [map concat app length]. rewrite IH2. split; [|done].
  change (total_size ([x] :: map (fun a => [a]) l)) with (sealed_size [x] + total_size (map (fun a => [a]) l)).
  rewrite IH1. change (sum_len (x :: l)) with (len x + 2 + SEAL_OVERHEAD + sum_len l). unfold sealed_size. rewrite len_records. cbn [foldr length]. lia.
Qed.

Lemma alone_exceeds ms : groups (packed space ms) = map (fun a => [a]) (map stringify ms) -> sum_len (map stringify ms) = MAX_HISTORY_BYTES ->
  length ms = 201%nat -> exists chunks, buildHistoryChunks hs sized_nc nonces ms [] [] MAX_HISTORY_CHUNK "desk" "phone" "t1" key = Some (chunks, 201%nat) /\
  length chunks = 201%nat /\ MAX_HISTORY_BYTES < data_total chunks.
Proof.
  intros Hg Hsum Hlen. destruct (packed_spec space ms space_is) as (_ & _ & _ & _ & Hk). cbv zeta in Hk.
  pose proof (packed_bytes space ms space_is) as Hb. destruct (alone_size (map stringify ms)) as [Htotal Hc0]. rewrite <- Hg in Htotal, Hc0.
  rewrite Hk in Hc0. unfold buildHistoryChunks. set (p := packed space ms) in *.
  assert (Hn : length (groups p) = 201%nat) by by rewrite Hg, !length_map.
  destruct (sealed_all (Z.of_nat (length (groups p))) (reverse (groups p)) 0) as [chunks Hc]; [rewrite length_reverse; lia|lia|].
  exists chunks. rewrite Hc, Hc0, length_map, Hlen. split; [done|]. pose proof (seal_chunks_spec _ _ _ _ _ _ _ _ _ _ _ _ _ Hc) as [Hl _].
  rewrite length_reverse in Hl. split; [lia|].
  destruct (sealed_total hs sized_nc nonces [] [] key "desk" "phone" "t1" sizes_ok ids_fit _ _ _ _ ltac:(apply Forall_reverse; exact Hb) Hc) as [Ht _].
  rewrite total_size_reverse, length_reverse, Htotal in Ht. lia.
Qed.

(** The packing counts the records and the overhead of the box, not the headers: such a
    copy is packed whole, and is larger than the 50 MB that the server stores. *)
Theorem full_copy_exceeds : exists chunks,
  buildHistoryChunks hs sized_nc nonces full_copy [] [] MAX_HISTORY_CHUNK "desk" "phone" "t1" key = Some (chunks, 201%nat) /\
  length chunks = 201%nat /\ MAX_HISTORY_BYTES < data_total chunks.
Proof. apply alone_exceeds; [exact full_copy_packed|exact (proj2 full_copy_sizes)|]. unfold full_copy. by rewrite length_app, repeat_length. Qed.

Lemma history_copy_delivered_witness : length built.1 = 2%nat /\ built.2 = 3%nat /\
  exists lists : list (list json), length lists = length built.1.
Proof.
  split; [reflexivity|]. split; [reflexivity|].
  destruct (history_copy_delivered hs nc cv nonces [] [] [] [] key key messages maxChunk "desk" "phone" "t1" built.1 built.2
    delivers_ok ltac:(unfold maxChunk; lia) (ascii_ok "desk" eq_refl) (ascii_ok "phone" eq_refl) (ascii_ok "t1" eq_refl) messages_ok built_is) as (lists & H & _).
  exists lists. exact H.
Defined.
End HistoryDemo.
