(* ===== verification/SignedStatements.v ===== *)
(** * What a device's key signs

    One key signs everything a device states: device approvals, passkey
    delegations, chunks of a copied history, its key record, its Olm bundles and
    resets, a desktop's statement of the server's binding, and the answer to a
    login challenge.  The texts of two different kinds never coincide
    ([signed_statements_separate]), so a signature made for one kind, a login to a
    server that picks its challenge included, is never valid for another. *)

From stdpp Require Import base list strings.
From Stdlib Require Import ZArith Lia.
From S2P Require Import Prelude Json Text Crypto OlmAdmission OlmReset RatchetStore DeviceTrust DeviceLink HistoryCopy.

Inductive statement :=
| Login (challenge : list Z)
| Approval (principal approver pem x : string)
| LinkBinding (principal approver pem x binding : string)
| Delegation (principal issuer credential key rp origin algorithm : option json)
| KeyRecord (uid : string) (signingKey encryptionKey : list Z)
| HistoryChunk (h : json)
| Bundle (b : json)
| Reset (r : json).

Inductive kind := KLogin | KApproval | KLinkBinding | KDelegation | KKeyRecord | KHistoryChunk | KBundle | KReset.
Definition kind_of (s : statement) : kind :=
  match s with
  | Login _ => KLogin | Approval _ _ _ _ => KApproval | LinkBinding _ _ _ _ _ => KLinkBinding | Delegation _ _ _ _ _ _ _ => KDelegation
  | KeyRecord _ _ _ => KKeyRecord | HistoryChunk _ => KHistoryChunk | Bundle _ => KBundle | Reset _ => KReset
  end.

Section statements.
Variable cv : curves.

Definition ok {E A} (r : result E A) : option A := match r with Ok a => Some a | Err _ => None end.

(** The bytes that are signed; [None] where the code refuses to sign. *)
Definition signed_text (s : statement) : option (list Z) :=
  match s with
  | Login c => ok (loginChallengeMessage c)
  | Approval p a k x => Some (approvalTranscript p a k x)
  | LinkBinding p a k x b => Some (linkBindingTranscript p a k x b)
  | Delegation p i c k r o a => Some (delegationTranscript p i c k r o a)
  | KeyRecord u s e => Some (record_message u s e)
  | HistoryChunk h => historyChunkTranscript h
  | Bundle b => ok (bundleTranscript cv b)
  | Reset r => ok (resetTranscript cv r)
  end.

(** How the text of each kind starts. *)
Definition domain (k : kind) : list Z :=
  match k with
  | KLogin => line "noxa-auth-challenge-v1"
  | KApproval => line "noxa-device-approval-v1"
  | KLinkBinding => line "noxa-device-link-binding-v1"
  | KDelegation => line "noxa-passkey-delegation-v1"
  | KKeyRecord => bytes_of "noxa/dm-identity/v1" ++ [0]
  | KHistoryChunk => line "noxa-history-chunk-v1"
  | KBundle => netstring OLM_DIRECTORY_VERSION
  | KReset => netstring "noxa-olm-reset-v1"
  end.

Lemma joined_starts s t l : exists r, joined (s :: t :: l) = line s ++ r.
Proof. unfold joined. cbn [map]. rewrite join_cons2. eexists. unfold line. flat_apps. reflexivity. Qed.

Lemma text_starts s m : signed_text s = Some m -> exists r, m = domain (kind_of s) ++ r.
Proof.
  destruct s as [c|p a k x|p a k x b|p i c k r o a|u s e|h|b|r]; cbn [signed_text kind_of domain].
  - unfold loginChallengeMessage. destruct (_ && _); [|done]. intros [= <-]. by exists c.
  - intros [= <-]. apply joined_starts.
  - intros [= <-]. apply joined_starts.
  - intros [= <-]. apply joined_starts.
  - intros [= <-]. unfold record_message. eexists. flat_apps. reflexivity.
  - unfold historyChunkTranscript. destruct (_ && _); [|done]. intros [= <-]. apply joined_starts.
  - unfold bundleTranscript. destruct (bundle_shape cv b) eqn:Es; [|done]. destruct (key_fields _ _ _ _ _) as [ks|]; [|done]. cbn [rbind ok]. intros [= <-].
    unfold bundle_shape in Es. rewrite !andb_true_iff in Es. destruct_and!. unfold transcript, bundle_fields. cbn [map].
    assert (field "version" b = Some (JStr OLM_DIRECTORY_VERSION)) as -> by (unfold is_text in *; by eapply bool_decide_eq_true). cbn [String_of js_String app mbind list_bind].
    eexists. reflexivity.
  - unfold resetTranscript. destruct (reset_shape cv r) eqn:Es; [|done]. cbn [rbind ok]. intros [= <-].
    unfold reset_shape in Es. rewrite !andb_true_iff in Es. destruct_and!. unfold transcript, reset_members. cbn [map].
    assert (field "version" r = Some (JStr "noxa-olm-reset-v1")) as -> by (unfold is_text in *; by eapply bool_decide_eq_true). cbn [String_of js_String app mbind list_bind].
    eexists. reflexivity.
Qed.

(** No domain starts with another one. *)
Lemma domains_apart k k' r r' : domain k ++ r = domain k' ++ r' -> k = k'.
Proof. destruct k, k'; intros E; try reflexivity; exfalso; vm_compute in E; discriminate E. Qed.

(** C17: a signature is for one kind of statement.  Two statements of which the
    signed bytes are the same are of the same kind: whatever challenge a server
    sends at login and whatever it puts into the members of the other statements,
    no signature can be taken for a statement of another kind. *)
Theorem signed_statements_separate s s' m : signed_text s = Some m -> signed_text s' = Some m -> kind_of s = kind_of s'.
Proof. intros [r E]%text_starts [r' E']%text_starts. apply (domains_apart _ _ r r'). congruence. Qed.
End statements.

Lemma signed_statements_separate_witness :
  signed_text TrustDemo.cv (Login (repeat 3 32)) = Some (LOGIN_CHALLENGE_DOMAIN ++ repeat 3 32) /\ kind_of (Login (repeat 3 32)) = KLogin.
Proof.
  split; [vm_compute; reflexivity|].
  apply (signed_statements_separate TrustDemo.cv (Login (repeat 3 32)) (Login (repeat 3 32)) (LOGIN_CHALLENGE_DOMAIN ++ repeat 3 32)); vm_compute; reflexivity.
Defined.
