(* ===== verification/Frame.v ===== *)
(** * Control framing ([mobile/src/core/frame.js])

    Every control message is a frame: a 4-byte big-endian length (type and
    payload), a 2-byte big-endian type and a JSON payload.  A WebSocket message
    carries a piece of the byte stream, so a frame may be split or merged
    across messages; [FrameReader] reassembles them. *)

From stdpp Require Import base list strings.
From Stdlib Require Import ZArith Lia.
From S2P Require Import Prelude Json.

Definition MAX_FRAME_SIZE : Z := 1048576.

(** The message types the modelled handlers name. *)
Module Msg.
Definition Error : Z := 7.
Definition Ping : Z := 8.
Definition Pong : Z := 9.
End Msg.

Inductive frame_error :=
| FrameTooLarge
| InvalidFrameLength (n : Z)
| PayloadSyntax
| OutOfFuel.

(** [message ?? {}] *)
Definition or_empty (m : option json) : json :=
  match m with
  | None | Some JNull => JObj []
  | Some v => v
  end.

Definition encodeFrame (type : Z) (message : option json) : result frame_error (list Z) :=
  let payload := stringify (or_empty message) in
  let len := Z.of_nat (length payload) + 2 in
  if MAX_FRAME_SIZE <? len then Err FrameTooLarge
  else Ok (put_be32 len ++ put_be16 type ++ payload).

Record frame := Frame { ftype : Z; fpayload : json }.

(** [FrameReader]: the bytes received and not yet consumed. *)
Record reader := Reader { buffer : list Z }.
Definition new_reader : reader := Reader [].

(** One turn of the loop of [push] at the current offset. *)
Inductive head :=
| Wait                                     (** not enough bytes: the loop ends *)
| BadLength (n : Z)
| Whole (type : Z) (body rest : list Z).

Definition next_frame (buf : list Z) : head :=
  match buf with
  | a :: b :: c :: d :: r =>
    let len := be32 a b c d in
    if (len <? 2) || (MAX_FRAME_SIZE <? len) then BadLength len
    else if Z.of_nat (length r) <? len then Wait
    else match r with
         | t1 :: t2 :: r' =>
           let n := Z.to_nat (len - 2) in Whole (be16 t1 t2) (take n r') (drop n r')
         | _ => Wait
         end
  | _ => Wait
  end.

Definition decode_body (body : list Z) : option json :=
  match body with [] => Some (JObj []) | _ => parse body end.

Fixpoint read_frames (fuel : nat) (buf : list Z) : result frame_error (list frame * list Z) :=
  match fuel with
  | O => Err OutOfFuel
  | S f =>
    match next_frame buf with
    | Wait => Ok ([], buf)
    | BadLength n => Err (InvalidFrameLength n)
    | Whole type body rest =>
      match decode_body body with
      | None => Err PayloadSyntax
      | Some v => let! (fs, rem) := read_frames f rest in Ok (Frame type v :: fs, rem)
      end
    end
  end.

(** [push]: the buffer is replaced only when every frame was read; an
    exception leaves it as it was. *)
Definition push (r : reader) (chunk : list Z) : reader * result frame_error (list frame) :=
  let merged := buffer r ++ chunk in
  match read_frames (S (length merged)) merged with
  | Ok (fs, rem) => (Reader rem, Ok fs)
  | Err e => (r, Err e)
  end.

(** The chunks of a stream pushed one after the other. *)
Fixpoint push_all (r : reader) (chunks : list (list Z)) : reader * result frame_error (list frame) :=
  match chunks with
  | [] => (r, Ok [])
  | c :: cs =>
    match push r c with
    | (r1, Ok fs) => match push_all r1 cs with
                     | (r2, Ok fs') => (r2, Ok (fs ++ fs'))
                     | (r2, Err e) => (r2, Err e)
                     end
    | (r1, Err e) => (r1, Err e)
    end
  end.

(** The frame a receiver reads for an encoded message: the type is written as
    an unsigned 16-bit integer. *)
Definition frame_of (m : Z * option json) : frame := Frame (m.1 `mod` 65536) (or_empty m.2).

Fixpoint encode_all (ms : list (Z * option json)) : result frame_error (list Z) :=
  match ms with
  | [] => Ok []
  | m :: ms' => let! b := encodeFrame m.1 m.2 in let! bs := encode_all ms' in Ok (b ++ bs)
  end.

(** ** Facts about one frame *)

Lemma be32_put n : 0 <= n < two32 ->
  exists a b c d, put_be32 n = [a; b; c; d] /\ be32 a b c d = n.
Proof.
  intros Hn. eexists _, _, _, _. split; [reflexivity|]. unfold be32, two32 in *.
  rewrite (Z.mod_small (n / 16777216)) by
    (split; [apply Z.div_pos|apply Z.div_lt_upper_bound]; lia).
  pose proof (Z.div_mod n 256 ltac:(lia)). pose proof (Z.div_mod (n / 256) 256 ltac:(lia)) as H1.
  pose proof (Z.div_mod (n / 65536) 256 ltac:(lia)) as H2.
  rewrite Z.div_div in H1, H2 by lia. change (256 * 256) with 65536 in *.
  change (65536 * 256) with 16777216 in *. lia.
Qed.

Lemma be16_put n : exists a b, put_be16 n = [a; b] /\ be16 a b = n `mod` 65536.
Proof.
  eexists _, _. split; [reflexivity|]. unfold be16.
  pose proof (Z.div_mod n 256 ltac:(lia)). pose proof (Z.div_mod (n / 256) 256 ltac:(lia)) as H1.
  pose proof (Z.mod_pos_bound n 256 ltac:(lia)). pose proof (Z.mod_pos_bound (n / 256) 256 ltac:(lia)).
  apply Z.mod_unique with (n / 256 / 256); lia.
Qed.

(** A whole frame is consumed exactly, whatever follows it. *)
Lemma next_frame_app buf type body rest more :
  next_frame buf = Whole type body rest -> next_frame (buf ++ more) = Whole type body (rest ++ more).
Proof.
  unfold next_frame. destruct buf as [|a [|b [|c [|d r]]]]; try done. cbn [app].
  destruct ((be32 a b c d <? 2) || (MAX_FRAME_SIZE <? be32 a b c d)) eqn:Hb; [done|].
  rewrite length_app. destruct (Z.ltb_spec (Z.of_nat (length r)) (be32 a b c d)); [done|].
  destruct (Z.ltb_spec (Z.of_nat (length r + length more)) (be32 a b c d)); [lia|].
  destruct r as [|t1 [|t2 r]]; try done. cbn [app length] in *. intros [= <- <- <-].
  apply orb_false_iff in Hb as [Hb1 _]. apply Z.ltb_ge in Hb1.
  rewrite take_app_le, drop_app_le by lia. done.
Qed.

Lemma next_frame_bad_app buf n more : next_frame buf = BadLength n -> next_frame (buf ++ more) = BadLength n.
Proof.
  unfold next_frame. destruct buf as [|a [|b [|c [|d r]]]]; try done. cbn [app].
  destruct ((be32 a b c d <? 2) || (MAX_FRAME_SIZE <? be32 a b c d)); [done|].
  destruct (_ <? _); [done|]. destruct r as [|t1 [|t2 r]]; done.
Qed.

Lemma next_frame_shorter buf type body rest :
  next_frame buf = Whole type body rest -> (length rest < length buf)%nat.
Proof.
  unfold next_frame. destruct buf as [|a [|b [|c [|d r]]]]; try done.
  destruct (_ || _); [done|]. destruct (_ <? _); [done|].
  destruct r as [|t1 [|t2 r]]; try done. intros [= _ _ <-]. rewrite length_drop. simpl. lia.
Qed.

(** A buffer without a whole frame is shorter than the largest frame. *)
Lemma next_frame_wait_bound buf :
  next_frame buf = Wait -> Z.of_nat (length buf) < MAX_FRAME_SIZE + 4.
Proof.
  unfold next_frame, MAX_FRAME_SIZE. destruct buf as [|a [|b [|c [|d r]]]]; try (simpl; lia).
  destruct (Z.ltb_spec (be32 a b c d) 2) as [|]; [done|].
  destruct (Z.ltb_spec 1048576 (be32 a b c d)) as [|]; [done|]. simpl orb. cbn iota.
  destruct (Z.ltb_spec (Z.of_nat (length r)) (be32 a b c d)); [intros _; cbn [length]; lia|].
  destruct r as [|t1 [|t2 r]]; cbn [length]; try lia. done.
Qed.

(** ** The loop *)

Lemma read_frames_S f buf :
  read_frames (S f) buf =
  match next_frame buf with
  | Wait => Ok ([], buf)
  | BadLength n => Err (InvalidFrameLength n)
  | Whole type body rest =>
    match decode_body body with
    | None => Err PayloadSyntax
    | Some v => let! (fs, rem) := read_frames f rest in Ok (Frame type v :: fs, rem)
    end
  end.
Proof. done. Qed.

(** The length of the buffer is enough fuel: the loop always ends. *)
Lemma read_frames_fuel f buf : (length buf < f)%nat -> read_frames f buf <> Err OutOfFuel.
Proof.
  revert buf. induction f as [|f IH]; intros buf Hf; [lia|]. cbn [read_frames].
  destruct (next_frame buf) eqn:E; try done. destruct (decode_body body); [|done].
  apply next_frame_shorter in E. intros [?|([??] & ? & ?)]%rbind_Err; [|done].
  by apply (IH rest); [lia|].
Qed.

Lemma read_frames_more f1 f2 buf :
  (length buf < f1)%nat -> (length buf < f2)%nat -> read_frames f1 buf = read_frames f2 buf.
Proof.
  revert f2 buf. induction f1 as [|f1 IH]; intros f2 buf H1 H2; [lia|].
  destruct f2 as [|f2]; [lia|]. cbn [read_frames]. destruct (next_frame buf) eqn:E; try done.
  destruct (decode_body body); [|done]. apply next_frame_shorter in E.
  rewrite (IH f2 rest) by lia. done.
Qed.

(** What is left in the buffer holds no whole frame. *)
Lemma read_frames_left f buf fs rem :
  read_frames f buf = Ok (fs, rem) -> next_frame rem = Wait.
Proof.
  revert buf fs. induction f as [|f IH]; intros buf fs; cbn [read_frames]; [done|].
  destruct (next_frame buf) eqn:E; try done; [by intros [= <- <-]|].
  destruct (decode_body body); [|done]. intros ([fs' l'] & H & [= <- <-])%rbind_Ok. eauto.
Qed.

(** Reading a longer stream continues where a shorter one stopped. *)
Lemma read_frames_app f buf fs rem more f' :
  read_frames f buf = Ok (fs, rem) -> (length (buf ++ more) < f')%nat ->
  read_frames f' (buf ++ more) =
  match read_frames (S (length (rem ++ more))) (rem ++ more) with
  | Ok (fs', rem') => Ok (fs ++ fs', rem')
  | Err e => Err e
  end.
Proof.
  revert buf fs f'. induction f as [|f IH]; intros buf fs f' H Hf; [done|]. cbn [read_frames] in H.
  destruct (next_frame buf) as [|n|type body rest] eqn:E; [| done |].
  - injection H as <- <-. rewrite (read_frames_more (S (length (buf ++ more))) f') by lia.
    destruct (read_frames f' _) as [[]|]; done.
  - destruct (decode_body body) as [v|] eqn:Ev; [|done].
    apply rbind_Ok in H as ([fs' l'] & H & [= <- <-]).
    destruct f' as [|f']; [lia|]. rewrite (read_frames_S f').
    erewrite next_frame_app by exact E. cbn iota. rewrite Ev. apply next_frame_shorter in E.
    rewrite (IH rest fs' f') by (done || (rewrite length_app in *; lia)).
    destruct (read_frames _ _) as [[]|]; done.
Qed.

(** [push_all] over any split of a stream reads what one [push] of the whole
    stream reads. *)
Lemma push_all_concat r chunks fs rem :
  read_frames (S (length (buffer r ++ concat chunks))) (buffer r ++ concat chunks) = Ok (fs, rem) ->
  next_frame (buffer r) = Wait ->
  push_all r chunks = (Reader rem, Ok fs).
Proof.
  revert r fs. induction chunks as [|c cs IH]; intros [b] fs Hr Hw; cbn [concat buffer push_all] in *.
  { rewrite app_nil_r in Hr. cbn [read_frames] in Hr. rewrite Hw in Hr. by simplify_eq. }
  rewrite app_assoc in Hr. unfold push. cbn [buffer].
  destruct (read_frames (S (length (b ++ c))) (b ++ c)) as [[fs1 rem1]|e] eqn:E.
  - rewrite (read_frames_app _ _ _ _ (concat cs) (S (length ((b ++ c) ++ concat cs))) E ltac:(lia)) in Hr.
    destruct (read_frames _ _) as [[fs2 rem2]|e] eqn:E2; [|done]. simplify_eq.
    rewrite (IH (Reader rem1) fs2); [done|exact E2|]. by apply read_frames_left in E.
  - exfalso. assert (Herr : forall f buf e more f', read_frames f buf = Err e -> (length buf < f)%nat ->
        (length (buf ++ more) < f')%nat -> read_frames f' (buf ++ more) = Err e).
    { clear. induction f as [|f IH]; intros buf e more f' H Hf Hf'; [lia|].
      destruct f' as [|f']; [lia|]. cbn [read_frames] in *.
      destruct (next_frame buf) as [|n|type body rest] eqn:E; [done| |].
      - by rewrite (next_frame_bad_app _ _ more E).
      - rewrite (next_frame_app _ _ _ _ more E). destruct (decode_body body); [|done].
        apply next_frame_shorter in E. apply rbind_Err in H as [H|([] & ? & ?)]; [|done].
        rewrite (IH _ _ more f' H) by (rewrite ?length_app in *; lia). done. }
    rewrite (Herr _ _ _ (concat cs) _ E) in Hr by (rewrite ?length_app; lia). done.
Qed.

(** ** An encoded frame *)

Lemma encodeFrame_next type m b more :
  encodeFrame type m = Ok b ->
  next_frame (b ++ more) = Whole (type `mod` 65536) (stringify (or_empty m)) more.
Proof.
  unfold encodeFrame. destruct (Z.ltb_spec MAX_FRAME_SIZE (Z.of_nat (length (stringify (or_empty m))) + 2)) as [|Hl];
    [done|]. set (p := stringify (or_empty m)) in *. intros H.
  assert (b = put_be32 (Z.of_nat (length p) + 2) ++ put_be16 type ++ p) as -> by congruence.
  clear H. unfold MAX_FRAME_SIZE in *.
  destruct (be32_put (Z.of_nat (length p) + 2)) as (a & b & c & d & -> & Hlen); [unfold two32; lia|].
  destruct (be16_put type) as (t1 & t2 & -> & Ht). cbn [app next_frame]. rewrite Hlen, Ht.
  unfold MAX_FRAME_SIZE. cbn [length]. rewrite length_app. zcases.
  replace (Z.to_nat (Z.of_nat (length p) + 2 - 2)) with (length p) by lia.
  by rewrite take_app_length, drop_app_length.
Qed.

Lemma decode_body_stringify v : decode_body (stringify v) = Some v.
Proof.
  unfold decode_body. destruct (stringify v) eqn:E; [by apply stringify_nonempty in E|].
  rewrite <- E. apply parse_stringify.
Qed.

Lemma read_frames_encoded ms bytes tail f :
  encode_all ms = Ok bytes -> next_frame tail = Wait -> (length (bytes ++ tail) < f)%nat ->
  read_frames f (bytes ++ tail) = Ok (map frame_of ms, tail).
Proof.
  revert bytes f. induction ms as [|[t m] ms IH]; intros bytes f He Hw Hf; cbn [encode_all] in He.
  - simplify_eq/=. destruct f; [lia|]. cbn [read_frames]. by rewrite Hw.
  - apply rbind_Ok in He as (b & Hb & He). apply rbind_Ok in He as (bs & Hbs & He). simplify_eq/=.
    destruct f as [|f]; [lia|]. cbn [read_frames]. rewrite <- app_assoc.
    pose proof (encodeFrame_next t m b (bs ++ tail) Hb) as Hn. rewrite Hn, decode_body_stringify.
    apply next_frame_shorter in Hn. rewrite <- app_assoc in Hf.
    rewrite (IH bs f Hbs Hw) by lia. done.
Qed.

(** ** Properties *)

(** C37: however the byte stream of a sequence of encoded messages is cut into
    WebSocket messages, and whatever incomplete frame follows it, the reader
    yields exactly the encoded messages, in order, and keeps exactly the
    incomplete tail. *)
Theorem frame_stream_roundtrip ms bytes tail chunks :
  encode_all ms = Ok bytes -> next_frame tail = Wait -> concat chunks = bytes ++ tail ->
  push_all new_reader chunks = (Reader tail, Ok (map frame_of ms)).
Proof.
  intros He Hw Hc. apply push_all_concat; [|done]. cbn [new_reader buffer app]. rewrite Hc.
  apply read_frames_encoded; [done|done|lia].
Qed.

Lemma frame_stream_roundtrip_witness :
  exists bytes, encode_all [(5, Some (JObj [("text"%string, JStr "hi")])); (8, None)] = Ok bytes /\
  push_all new_reader [take 3 bytes; take 9 (drop 3 bytes); drop 12 bytes ++ [0; 0]] =
  (Reader [0; 0], Ok [Frame 5 (JObj [("text"%string, JStr "hi")]); Frame 8 (JObj [])]).
Proof.
  eexists. split; [vm_compute; reflexivity|].
  eapply (frame_stream_roundtrip [(5, Some (JObj [("text"%string, JStr "hi")])); (8, None)]);
    [vm_compute; reflexivity|reflexivity|reflexivity].
Defined.

(** The reader's memory is bounded and its loop ends: after every [push]
    that does not throw, what it keeps is a prefix of one frame, shorter than
    the largest frame, and [push] never stops because the loop ran on. *)
Theorem push_bounded r chunk :
  let (r', out) := push r chunk in
  out <> Err OutOfFuel /\
  match out with
  | Ok _ => Z.of_nat (length (buffer r')) < MAX_FRAME_SIZE + 4 /\ next_frame (buffer r') = Wait
  | Err _ => r' = r
  end.
Proof.
  unfold push. pose proof (read_frames_fuel (S (length (buffer r ++ chunk))) (buffer r ++ chunk) ltac:(lia)) as Hf.
  destruct (read_frames _ _) as [[fs rem]|e] eqn:E; [|split; congruence]. split; [done|].
  apply read_frames_left in E. split; [by apply next_frame_wait_bound|done].
Qed.
