(* ===== verification/Files.v ===== *)
(** * Encrypted attachments and their transfer ([files.js])

    An attachment is sealed in chunks of 64 KiB, each under a key derived from a
    master key and the index of the chunk; the message carries a token with the
    storage name (a hash of the sealed bytes), the master key and the size.  Bytes
    move over a WebSocket in frames of a type and a payload.

    - [sealAttachment], [openAttachment], [storageName]: the sealed format;
    - [fileToken], [parseMeta], [parseFileTokens]: the token in a message body;
    - [encodeRaw], [next_raw], [on_message]: the frames of a transfer;
    - [upload_slices], [uploadStream], [upload_reply], [download], [fetchAttachment]:
      the two directions of a transfer and their composition.

    SHA-256, HKDF and AES-GCM are parameters; the random nonces and the master key
    are arguments, and so are the answers of the file server. *)

From stdpp Require Import base list sets strings.
From Stdlib Require Import ZArith Lia.
From S2P Require Import Prelude Json JsonText Text Crypto Db Frame.

Definition MAX_ATTACHMENT_BYTES : Z := 26214400.
Definition HEADER : list Z := [86; 67; 88; 71; 67; 77; 49; 10].
Definition CHUNK : Z := 65536.
Definition GCM_OVERHEAD : Z := 28.

(** [DataView.setBigUint64]. *)
Definition uint64 (index : Z) : list Z := put_be32 (index / two32) ++ put_be32 index.

Abbreviation len l := (Z.of_nat (length l)).
Definition takeZ (n : Z) (l : list Z) : list Z := take (Z.to_nat n) l.
Definition dropZ (n : Z) (l : list Z) : list Z := drop (Z.to_nat n) l.

(** ** The sealed format *)

Section attachment.
Context `{Cipher}.
Variable hs : hashes.
Variable hkdf : list Z -> list Z -> list Z.      (* hkdf(sha256, key, no salt, info, 32) *)

Definition chunkKey (master : list Z) (index : Z) : list Z :=
  hkdf master (bytes_of "voicx:message:file:attachment" ++ uint64 index).

Definition chunk_aad (index : Z) : list Z := bytes_of "attachment" ++ uint64 index.

(** The chunks from [index] on; [nonces i] are the random bytes of chunk [i]. *)
Fixpoint seal_chunks (nonces : Z -> list Z) (master : list Z) (fuel : nat) (index : Z) (plain : list Z) : list Z :=
  match fuel, plain with
  | S f, _ :: _ =>
    let nonce := nonces index in
    let sealed := encrypt (chunkKey master index) nonce (chunk_aad index) (takeZ CHUNK plain) in
    put_be32 (12 + len sealed) ++ nonce ++ sealed ++ seal_chunks nonces master f (index + 1) (dropZ CHUNK plain)
  | _, _ => []
  end.

Definition sealAttachment (nonces : Z -> list Z) (master plain : list Z) : list Z :=
  HEADER ++ seal_chunks nonces master (length plain) 0 plain.

(** The loop of [openAttachment] on the bytes from the current offset on. *)
Fixpoint open_chunks (master : list Z) (maxBytes : Z) (fuel : nat) (index total : Z) (rest : list Z) : result string (list Z) :=
  match fuel with
  | O => Err "fuel"%string
  | S f =>
    match rest with
    | [] => Ok []
    | a :: b :: c :: d :: r =>
      let length := be32 a b c d in
      if (length <? GCM_OVERHEAD) || (CHUNK + GCM_OVERHEAD <? length) || (len r <? length)
      then Err "invalid attachment chunk framing"%string
      else
        let chunk := takeZ length r in
        match decrypt (chunkKey master index) (take 12 chunk) (chunk_aad index) (drop 12 chunk) with
        | None => Err "attachment decryption failed"%string
        | Some plain =>
          let total' := total + len plain in
          guard! negb (maxBytes <? total') else "attachment exceeds the size limit"%string in
          let! parts := open_chunks master maxBytes f (index + 1) total' (dropZ length r) in
          Ok (plain ++ parts)
        end
    | _ => Err "invalid attachment chunk framing"%string
    end
  end.

Definition openAttachment (blob master : list Z) (maxBytes : Z) : result string (list Z) :=
  match strip HEADER blob with
  | None => Err "unsupported attachment format"%string
  | Some rest => open_chunks master maxBytes (S (length rest)) 0 0 rest
  end.

Definition storageName (blob : list Z) : string :=
  (text (take 32 (bytes_of (hex_text (sha256 hs blob)))) +:+ ".vcx")%string.

End attachment.

(** ** The token in a message *)

(** [s.split(c)]. *)
Fixpoint split_text (c : Z) (l : list Z) : list (list Z) :=
  match l with
  | [] => [[]]
  | x :: r => if x =? c then [] :: split_text c r
              else match split_text c r with
                   | p :: ps => (x :: p) :: ps
                   | [] => [[x]]
                   end
  end.

(** The name as it is shown: a bracket and a number sign become underscores. *)
Definition display_name (name : string) : list Z :=
  map (fun c => if (c =? 93) || (c =? 35) then 95 else c) (bytes_of (if decide (name = "") then "file" else name)%string).

Definition fileToken (storage : string) (master : list Z) (size : Z) (name : string) : string :=
  text (bytes_of "[file:" ++ bytes_of storage ++ 35 :: b64 master ++ 35 :: bytes_of "nx1;s=" ++ print_num size ++
        35 :: display_name name ++ [93]).

(** What a metadata segment says; a peak is its index in [PEAK_ALPHABET], that is
    the level in sixty-thirds. *)
Record attachment_meta := Meta { meta_size : Z; durationMs : Z; peaks : option (list Z) }.

Definition MAX_DURATION : Z := 21600000.

Definition is_lower (c : Z) : bool := (97 <=? c) && (c <=? 122).
Definition is_upper (c : Z) : bool := (65 <=? c) && (c <=? 90).
Definition is_word (c : Z) : bool := is_lower c || is_upper c || is_digit c || (c =? 95).

(** One field of [META]: [\[a-z\]{1,8}=\[A-Za-z0-9_.-\]+]. *)
Definition meta_field (l : list Z) : option (list Z * list Z) :=
  match split_text 61 l with
  | [key; value] =>
    if (0 <? len key) && (len key <=? 8) && forallb is_lower key &&
       (0 <? len value) && forallb (fun c => is_word c || (c =? 46) || (c =? 45)) value
    then Some (key, value) else None
  | _ => None
  end.

Fixpoint meta_fields (ls : list (list Z)) : option (list (list Z * list Z)) :=
  match ls with
  | [] => Some []
  | l :: ls => match meta_field l, meta_fields ls with Some f, Some fs => Some (f :: fs) | _, _ => None end
  end.

Definition PEAK_ALPHABET : list Z :=
  bytes_of "ABCDEFGHIJKLMNOPQRSTUVWXYZabcdefghijklmnopqrstuvwxyz0123456789-_".

(** [alphabet.indexOf(c)]. *)
Fixpoint index_of (c : Z) (l : list Z) : Z :=
  match l with
  | [] => -1
  | x :: r => if x =? c then 0 else let i := index_of c r in if i <? 0 then -1 else i + 1
  end.

Definition number_of (value : list Z) : Z := if forallb is_digit value then (parse_digits value 0).1 else 0.

(** One turn of the loop over the fields. *)
Definition meta_step (m : attachment_meta) (f : list Z * list Z) : attachment_meta :=
  let number := number_of f.2 in
  if bool_decide (f.1 = bytes_of "s") && is_safe_integer number then Meta number (durationMs m) (peaks m)
  else if bool_decide (f.1 = bytes_of "d") && (0 <? number) && (number <=? MAX_DURATION) then Meta (meta_size m) number (peaks m)
  else if bool_decide (f.1 = bytes_of "w") && (len f.2 <=? 64) && forallb (fun c => is_word c || (c =? 45)) f.2
  then Meta (meta_size m) (durationMs m) (Some (map (fun c => index_of c PEAK_ALPHABET) f.2))
  else m.

Definition parseMeta (segment : list Z) : option attachment_meta :=
  if 256 <? utf16_length (text segment) then None
  else match split_text 59 segment with
       | p :: ps => if decide (p = bytes_of "nx1") then foldl meta_step (Meta 0 0 None) <$> meta_fields ps else None
       | [] => None
       end.

Record file_ref := FileRef {
  token : string; ref_storage : string; ref_master : list Z;
  ref_size : Z; ref_name : string; ref_meta : option attachment_meta
}.

(** The text up to the first closing bracket, and what follows it. *)
Fixpoint to_bracket (l : list Z) : option (list Z * list Z) :=
  match l with
  | [] => None
  | x :: r => if x =? 93 then Some ([], r)
              else match to_bracket r with Some (a, b) => Some (x :: a, b) | None => None end
  end.

(** One match of [TOKEN] at the head of the text: its group and the rest. *)
Definition match_token (l : list Z) : option (list Z * list Z) :=
  match strip (bytes_of "[file:") l with
  | Some r => match to_bracket r with
              | Some ((_ :: _) as group, rest) => Some (group, rest)
              | _ => None
              end
  | None => None
  end.

(** The body of the loop of [parseFileTokens]. *)
Definition file_of_group (group : list Z) : option file_ref :=
  match split_text 35 group with
  | f0 :: f1 :: f2 :: fs =>
    let meta := match fs with [] => None | _ => parseMeta f2 end in
    let name := match meta with Some _ => join 35 fs | None => join 35 (f2 :: fs) end in
    match atob (text f1) with
    | Some master =>
      if len master =? 32
      then Some (FileRef (text (bytes_of "[file:" ++ group ++ [93])) (text f0) master
                         (match meta with Some m => meta_size m | None => 0 end) (text name) meta)
      else None
    | None => None
    end
  | _ => None
  end.

(** [matchAll]: a position without a match is skipped; a match is consumed. *)
Fixpoint file_tokens (fuel : nat) (l : list Z) : list file_ref :=
  match fuel, l with
  | S f, _ :: r =>
    match match_token l with
    | Some (group, rest) => option_list (file_of_group group) ++ file_tokens f rest
    | None => file_tokens f r
    end
  | _, _ => []
  end.

Definition parseFileTokens (body : string) : list file_ref := file_tokens (length (bytes_of body)) (bytes_of body).

(** ** Frames of a transfer *)

Module FrameType.
Definition init : Z := 1.
Definition chunk : Z := 2.
Definition digest : Z := 3.
Definition status : Z := 4.
End FrameType.

Definition encodeRaw (type : Z) (payload : list Z) : list Z := put_be32 (len payload + 2) ++ put_be16 type ++ payload.
Definition encodeJSON (type : Z) (message : json) : list Z := encodeRaw type (stringify message).

Record raw_frame := RawFrame { raw_type : Z; raw_payload : list Z }.
#[global] Instance raw_frame_eq_dec : EqDecision raw_frame.
Proof. solve_decision. Defined.

(** One turn of the loop of [onmessage] at the current offset. *)
Inductive raw_head :=
| RawWait
| RawBad                                   (** the socket is closed *)
| RawWhole (f : raw_frame) (rest : list Z).

Definition next_raw (buf : list Z) : raw_head :=
  match buf with
  | a :: b :: c :: d :: t1 :: t2 :: r =>
    let length := be32 a b c d in
    if (length <? 2) || (1048576 <? length) then RawBad
    else if len buf <? 4 + length then RawWait
    else RawWhole (RawFrame (be16 t1 t2) (takeZ (length - 2) r)) (dropZ (length - 2) r)
  | _ => RawWait
  end.

(** The whole frames of a buffer, the bytes kept, and whether a length was bad. *)
Fixpoint raw_frames (fuel : nat) (buf : list Z) : list raw_frame * list Z * bool :=
  match fuel with
  | O => ([], buf, false)
  | S f =>
    match next_raw buf with
    | RawWait => ([], buf, false)
    | RawBad => ([], buf, true)
    | RawWhole fr rest => let '(fs, kept, bad) := raw_frames f rest in (fr :: fs, kept, bad)
    end
  end.

(** [openTransferSocket]: the bytes not yet framed, the frames not yet taken,
    whether [close] was called (no message arrives any more) and whether the
    socket is closed.  At most one [next] waits at a time. *)
Record transfer_socket := Socket { unread : list Z; frames : list raw_frame; closing : bool; closed : bool }.
Definition new_socket : transfer_socket := Socket [] [] false false.

Definition on_message (data : list Z) (s : transfer_socket) : transfer_socket :=
  if closing s || closed s then s
  else
    let buffer := unread s ++ data in
    let '(fs, kept, bad) := raw_frames (S (length buffer)) buffer in
    Socket (if bad then buffer else kept) (frames s ++ fs) bad false.

Definition on_close (s : transfer_socket) : transfer_socket := Socket (unread s) (frames s) (closing s) true.

(** What a waiting [next] gets: [None] while it waits. *)
Definition next (s : transfer_socket) : option (result string raw_frame * transfer_socket) :=
  match frames s with
  | f :: fs => Some (Ok f, Socket (unread s) fs (closing s) (closed s))
  | [] => if closed s then Some (Err "file transfer connection closed"%string, s) else None
  end.

(** ** Uploading *)

(** A channel, or a folder of a private group. *)
Inductive location := Channel (channelID : Z) | Folder (channelID : Z) (folder : string).

Definition where_ (l : location) : list (string * json) :=
  match l with
  | Channel c => [("channel_id", JNum c)]
  | Folder c f => [("channel_id", JNum c); ("folder", JStr f)]
  end%string.

Definition upload_request (l : location) (name : string) (size : Z) : json :=
  JObj (where_ l ++ [("direction"%string, JStr "upload"); ("name"%string, JStr name); ("size"%string, JNum size)]).
Definition download_request (l : location) (storage : string) : json :=
  JObj (where_ l ++ [("direction"%string, JStr "download"); ("name"%string, JStr storage)]).

Definition init_frame (init : json) : list Z :=
  encodeJSON FrameType.init (obj [("token", field "token" init); ("transfer_id", field "transfer_id" init)])%string.

Definition SEND_CHUNK : Z := 32768.
Definition READ_SLICE : Z := 1048576.

(** The chunk frames of one piece of the file. *)
Fixpoint chunk_frames (fuel : nat) (slice : list Z) : list (list Z) :=
  match fuel, slice with
  | S f, _ :: _ => encodeRaw FrameType.chunk (takeZ SEND_CHUNK slice) :: chunk_frames f (dropZ SEND_CHUNK slice)
  | _, _ => []
  end.

(** The loop of [uploadStream] over the slices of the file: the signal is read
    after a slice was read ([true]) and while the socket drains ([false]).  The
    frames sent, and whether the loop ended without an abort. *)
Fixpoint upload_slices (aborts : nat -> bool -> bool) (fuel n : nat) (file : list Z) : list (list Z) * bool :=
  match fuel, file with
  | S f, _ :: _ =>
    if aborts n true then ([], false)
    else
      let slice := takeZ READ_SLICE file in
      let sent := chunk_frames (length slice) slice in
      if aborts n false then (sent, false)
      else let (more, whole) := upload_slices aborts f (S n) (dropZ READ_SLICE file) in (sent ++ more, whole)
  | _, _ => ([], true)
  end.

(** The answer of the file server to a complete upload; [aborted] is the signal
    when the connection closes. *)
Definition upload_reply (aborted : bool) (reply : result string raw_frame) : result string unit :=
  match reply with
  | Err e => Err (if aborted then "transfer canceled"%string else e)
  | Ok f =>
    guard! raw_type f =? FrameType.status else "unexpected file server reply"%string in
    match parse (bytes_of (decode (raw_payload f))) with
    | None | Some JNull => Err "TypeError"%string
    | Some status =>
      if truthy (field "ok" status) then Ok tt
      else Err (if truthy (field "error" status) then String_of (field "error" status) else "upload failed"%string)
    end
  end.

Section transfer.
Variable hs : hashes.

Definition digest_frame (blob : list Z) : list Z :=
  encodeJSON FrameType.digest (JObj [("sha256", JStr (hex_text (sha256 hs blob)))])%string.

(** [uploadStream] after the transfer was granted: every byte string it sends,
    and its outcome once the server has answered. *)
Definition uploadStream (aborts : nat -> bool -> bool) (init : json) (file : list Z) : list (list Z) * bool :=
  let (sent, whole) := upload_slices aborts (length file) 0 file in
  (init_frame init :: sent ++ if whole then [digest_frame file] else [], whole).

(** [uploadBlob]: the same frames, without slices and without a signal. *)
Definition uploadBlob (init : json) (blob : list Z) : list (list Z) :=
  init_frame init :: chunk_frames (length blob) blob ++ [digest_frame blob].

(** ** Downloading *)

Definition statusError (payload : list Z) : string :=
  match parse (bytes_of (decode payload)) with
  | None | Some JNull => "file transfer failed"
  | Some status => if truthy (field "error" status) then String_of (field "error" status) else "file transfer failed"
  end%string.

(** The loop of [downloadBlob] on the frames in the order they arrive; [None]
    while it waits for another one. *)
Fixpoint download (maxBytes : Z) (aborted closed : bool) (fs : list raw_frame) (parts : list Z) : option (result string (list Z)) :=
  match fs with
  | [] => if closed then Some (Err (if aborted then "transfer canceled" else "file transfer connection closed")%string) else None
  | f :: fs =>
    if raw_type f =? FrameType.chunk then
      let parts' := parts ++ raw_payload f in
      if maxBytes <? len parts' then Some (Err "attachment exceeds the size limit"%string)
      else download maxBytes aborted closed fs parts'
    else if raw_type f =? FrameType.digest then
      Some match parse (bytes_of (decode (raw_payload f))) with
           | None | Some JNull => Err "TypeError"%string
           | Some v => if is_text (field "sha256" v) (hex_text (sha256 hs parts)) then Ok parts else Err "file digest mismatch"%string
           end
    else Some (Err (statusError (raw_payload f)))
  end.

(** [downloadBlob], once the transfer was granted and its socket is open. *)
Definition downloadBlob (maxBytes : Z) (aborted : bool) (s : transfer_socket) : option (result string (list Z)) :=
  download maxBytes aborted (closed s) (frames s) [].

(** ** Whole attachments *)

Context `{Cipher}.
Variable hkdf : list Z -> list Z -> list Z.

(** [uploadAttachment]: the sealed bytes, and the token of the message; a file
    over the limit throws. *)
Definition uploadAttachment (nonces : Z -> list Z) (master plain : list Z) (name : string) : result string (list Z * string) :=
  guard! negb (MAX_ATTACHMENT_BYTES <? len plain) else "attachment exceeds 25 MiB"%string in
  let blob := sealAttachment hkdf nonces master plain in
  Ok (blob, fileToken (storageName hs blob) master (len plain) name).

Definition lower_ascii (c : Z) : Z := if is_upper c then c + 32 else c.

(** The bytes of the longest sealed attachment. *)
Definition maxWire : Z := len HEADER + MAX_ATTACHMENT_BYTES + (MAX_ATTACHMENT_BYTES / CHUNK) * (4 + GCM_OVERHEAD).

(** [fetchAttachment] on the bytes that were downloaded.  [toLowerCase] may change
    other characters too, but none into one of a storage name. *)
Definition openFetched (blob : list Z) (ref : file_ref) : result string (list Z) :=
  guard! bool_decide (bytes_of (storageName hs blob) = map lower_ascii (bytes_of (ref_storage ref)))
    else "attachment does not match its message reference"%string in
  let! plain := openAttachment hkdf blob (ref_master ref) MAX_ATTACHMENT_BYTES in
  guard! (ref_size ref =? 0) || (len plain =? ref_size ref) else "attachment size does not match its message reference"%string in
  Ok plain.

Definition fetchAttachment (aborted : bool) (s : transfer_socket) (ref : file_ref) : option (result string (list Z)) :=
  (fun got => let! blob := got in openFetched blob ref) <$> downloadBlob maxWire aborted s.

End transfer.

(** ** The sealed format is opened *)

Lemma takeZ_dropZ n (l : list Z) : takeZ n l ++ dropZ n l = l.
Proof. apply take_drop. Qed.

Lemma takeZ_app n (l r : list Z) : len l = n -> takeZ n (l ++ r) = l.
Proof. intros <-. unfold takeZ. by rewrite Nat2Z.id, take_app_length. Qed.

Lemma dropZ_app n (l r : list Z) : len l = n -> dropZ n (l ++ r) = r.
Proof. intros <-. unfold dropZ. by rewrite Nat2Z.id, drop_app_length. Qed.

Lemma takeZ_length n (l : list Z) : 0 <= n -> len (takeZ n l) = Z.min n (len l).
Proof. intros. unfold takeZ. rewrite length_take. lia. Qed.

Lemma dropZ_length n (l : list Z) : 0 <= n -> len (dropZ n l) = Z.max 0 (len l - n).
Proof. intros. unfold dropZ. rewrite length_drop. lia. Qed.

Section attachment_facts.
Context `{Cipher}.
Variable hkdf : list Z -> list Z -> list Z.
Implicit Types (master plain rest : list Z).

(** AES-GCM appends a tag of 16 bytes; a nonce has 12. *)
Hypothesis tag : forall k n a m, len (encrypt k n a m) = len m + 16.
Variable nonces : Z -> list Z.
Hypothesis nonces_12 : forall i, len (nonces i) = 12.

Lemma open_sealed master max fuel : forall plain index total f,
  (length plain <= fuel)%nat -> (length (seal_chunks hkdf nonces master fuel index plain) < f)%nat ->
  total + len plain <= max ->
  open_chunks hkdf master max f index total (seal_chunks hkdf nonces master fuel index plain) = Ok plain.
Proof.
  induction fuel as [|fuel IH]; intros [|x plain] index total [|f] Hp Hf Ht; try (cbn [length] in *; lia); try done.
  cbn [seal_chunks] in *. set (pl := x :: plain) in *. set (piece := takeZ CHUNK pl) in *.
  set (sealed := encrypt _ _ _ piece) in *. set (more := seal_chunks _ _ _ _ _ _) in *.
  assert (Hs : len sealed = len piece + 16) by apply tag.
  assert (Hpiece : 0 <= len piece <= CHUNK) by (unfold piece; rewrite takeZ_length; unfold CHUNK; lia).
  assert (Hmore : (length more < f)%nat) by (rewrite !length_app in Hf; cbn [put_be32 length] in Hf; lia).
  destruct (be32_put (12 + len sealed)) as (a & b & c & d & -> & Hn); [unfold two32, CHUNK in *; lia|].
  cbn [app open_chunks]. rewrite Hn. specialize (nonces_12 index).
  destruct (_ || _) eqn:E.
  { exfalso. rewrite !length_app in E. apply orb_true_iff in E as [[E|E]%orb_true_iff|E]; apply Z.ltb_lt in E; unfold GCM_OVERHEAD in *; lia. }
  rewrite app_assoc, takeZ_app, dropZ_app by (rewrite length_app; lia).
  rewrite take_app_length', drop_app_length' by lia. unfold sealed. rewrite decrypt_encrypt.
  pose proof (takeZ_dropZ CHUNK pl) as Hsplit. fold piece in Hsplit.
  assert (Hlen : len pl = len piece + len (dropZ CHUNK pl)) by (rewrite <- Hsplit at 1; rewrite length_app; lia).
  destruct (Z.ltb_spec max (total + len piece)); [lia|]. cbn [negb].
  unfold more. rewrite IH; [cbn [rbind]; by rewrite Hsplit| |exact Hmore|lia].
  unfold dropZ. rewrite length_drop. unfold pl, CHUNK in *. cbn [length] in *. lia.
Qed.

Lemma strip_header rest : strip HEADER (HEADER ++ rest) = Some rest.
Proof. by destruct rest. Qed.

Lemma open_sealAttachment master plain max : len plain <= max ->
  openAttachment hkdf (sealAttachment hkdf nonces master plain) master max = Ok plain.
Proof. intros Hm. unfold openAttachment, sealAttachment. rewrite strip_header. apply open_sealed; lia. Qed.

End attachment_facts.

(** The length of the rest is enough fuel, and what is opened fits the limit. *)
Lemma open_chunks_spec `{Cipher} hkdf master max f : forall index total rest,
  (length rest < f)%nat -> total <= max ->
  match open_chunks hkdf master max f index total rest with
  | Ok plain => total + len plain <= max
  | Err e => e <> "fuel"%string
  end.
Proof.
  induction f as [|f IH]; intros index total rest Hf Ht; [lia|].
  destruct rest as [|a [|b [|c [|d r]]]]; cbn [open_chunks]; try done; [cbn [length]; lia|].
  destruct (_ || _) eqn:E; [done|]. apply orb_false_iff in E as [[E _]%orb_false_iff _]. apply Z.ltb_ge in E. unfold GCM_OVERHEAD in E.
  destruct (decrypt _ _ _ _) as [p|]; [|done]. destruct (Z.ltb_spec max (total + len p)); [done|]. cbn [negb].
  assert (Hl : (length (dropZ (be32 a b c d) r) < f)%nat) by (unfold dropZ; rewrite length_drop; cbn [length] in Hf; lia).
  specialize (IH (index + 1) (total + len p) _ Hl ltac:(lia)).
  destruct (open_chunks _ _ _ _ _ _ _) as [q|e]; cbn [rbind]; [rewrite length_app; lia|done].
Qed.

(** ** The token is found again *)

Lemma split_text_none c l : c ∉ l -> split_text c l = [l].
Proof.
  induction l as [|x l IH]; [done|]. rewrite not_elem_of_cons. intros [Hx Hl]. cbn [split_text].
  destruct (Z.eqb_spec x c); [congruence|]. by rewrite IH.
Qed.

Lemma split_text_app c l r : c ∉ l -> split_text c (l ++ c :: r) = l :: split_text c r.
Proof.
  induction l as [|x l IH]; cbn [app split_text]; [by rewrite Z.eqb_refl|].
  rewrite not_elem_of_cons. intros [Hx Hl]. destruct (Z.eqb_spec x c); [congruence|]. by rewrite IH.
Qed.

Lemma forallb_not_elem (f : Z -> bool) c l : forallb f l = true -> f c = false -> c ∉ l.
Proof. rewrite forallb_forall. intros H Hc Hin%list_elem_of_In. apply H in Hin. congruence. Qed.

Lemma print_num_not c n : 0 <= n -> is_digit c = false -> c ∉ print_num n.
Proof. intros Hn. by apply forallb_not_elem, print_num_digits. Qed.

Lemma parse_print_num n : 0 <= n -> parse_digits (print_num n) 0 = (n, []).
Proof.
  intros Hn. unfold print_num. destruct (Z.ltb_spec n 0); [lia|]. destruct (decide (n = 0)) as [->|]; [done|].
  unfold print_nat. pose proof (log2_fuel n ltac:(lia)) as Hf.
  destruct (digits_parse (S (Z.to_nat (Z.log2 n))) n [] ltac:(lia)) as (k & _ & Hk). rewrite Hk. cbn [parse_digits]. by rewrite Z.mul_0_l.
Qed.

Lemma b64_not c l : all_bytes l = true -> b64_digit c = false -> c <> 61 -> c ∉ b64 l.
Proof. intros Hl Hc Hn Hin. pose proof (b64_chars l Hl) as H. rewrite Forall_forall in H. destruct (H c Hin); congruence. Qed.

Lemma print_num_all_bytes n : 0 <= n -> all_bytes (print_num n) = true.
Proof.
  intros Hn. eapply forallb_imp; [|by apply print_num_digits]. unfold is_digit, is_byte. intros x. zcases; lia || done.
Qed.

Lemma number_of_print n : 0 <= n -> number_of (print_num n) = n.
Proof. intros Hn. unfold number_of. by rewrite print_num_digits, parse_print_num. Qed.

Lemma print_num_nonempty n : print_num n <> [].
Proof. apply (print_json_nonempty escaped (JNum n)). Qed.

(** The segment that [fileToken] writes. *)
Lemma parse_size_segment n : 0 <= n <= max_safe ->
  parseMeta (bytes_of "nx1;s=" ++ print_num n) = Some (Meta n 0 None).
Proof.
  intros Hn. unfold parseMeta. pose proof (print_num_digits n ltac:(lia)) as Hd.
  destruct (Z.ltb_spec 256 (utf16_length (text (bytes_of "nx1;s=" ++ print_num n)))) as [Hlong|_].
  { exfalso. pose proof (utf16_le_utf8 (text (bytes_of "nx1;s=" ++ print_num n))) as Hu. unfold utf8_length in Hu.
    unfold text in *. rewrite <- bytes_of_length, bytes_of_string_of, length_app in Hu.
    - pose proof (print_num_length n Hn) as Hl. cbn [stringify print_json] in Hl. change (length (bytes_of "nx1;s=")) with 6%nat in Hu. lia.
    - rewrite all_bytes_app, bytes_of_range. apply print_num_all_bytes. lia. }
  change (bytes_of "nx1;s=") with (bytes_of "nx1" ++ 59 :: 115 :: 61 :: []). rewrite <- !app_assoc. cbn [app].
  rewrite split_text_app by (cbn; set_solver). rewrite split_text_none.
  2: { rewrite !not_elem_of_cons. split_and!; [done|done|]. apply print_num_not; [lia|done]. }
  rewrite decide_True by done. cbn [meta_fields]. unfold meta_field.
  change (115 :: 61 :: print_num n) with ([115] ++ 61 :: print_num n).
  rewrite split_text_app by set_solver. rewrite split_text_none by (apply print_num_not; [lia|done]).
  assert (Hv : forallb (fun c => is_word c || (c =? 46) || (c =? 45)) (print_num n) = true).
  { eapply forallb_imp; [|exact Hd]. unfold is_word. intros x ->. by rewrite !orb_true_r. }
  rewrite Hv. assert (0 < len (print_num n)) by (pose proof (print_num_nonempty n); destruct (print_num n); [done|cbn [length]; lia]).
  destruct (Z.ltb_spec 0 (len (print_num n))); [|lia]. cbn [andb length forallb].
  change ((0 <? Z.of_nat 1) && (Z.of_nat 1 <=? 8) && (is_lower 115 && true) && true && true) with true.
  cbn [foldl fmap option_fmap option_map]. unfold meta_step. cbn [fst snd]. rewrite number_of_print by lia.
  rewrite bool_decide_eq_true_2 by done. unfold is_safe_integer. zcases; (done || lia).
Qed.

Lemma display_not c name : c = 93 \/ c = 35 -> c ∉ display_name name.
Proof.
  intros Hc. unfold display_name. rewrite list_elem_of_fmap. intros (x & -> & _).
  destruct (Z.eqb_spec x 93), (Z.eqb_spec x 35); cbn [orb] in Hc; lia.
Qed.

Lemma display_bytes name : all_bytes (display_name name) = true.
Proof.
  unfold display_name. generalize (bytes_of_range (if decide (name = "") then "file" else name)%string).
  generalize (bytes_of (if decide (name = "") then "file" else name)%string). intros l. unfold all_bytes. rewrite !forallb_forall.
  intros Hl x. rewrite in_map_iff. intros (y & <- & Hy). destruct (_ || _); [done|auto].
Qed.

(** A storage name that may stand in a token. *)
Definition token_name (s : string) : Prop := 93 ∉ bytes_of s /\ 35 ∉ bytes_of s.

(** What a receiver reads for a token. *)
Definition ref_of (storage : string) (master : list Z) (size : Z) (name : string) : file_ref :=
  FileRef (fileToken storage master size name) storage master size (text (display_name name)) (Some (Meta size 0 None)).

Lemma to_bracket_app l r : 93 ∉ l -> to_bracket (l ++ 93 :: r) = Some (l, r).
Proof.
  induction l as [|x l IH]; [done|]. rewrite not_elem_of_cons. intros [Hx Hl]. cbn [app to_bracket].
  destruct (Z.eqb_spec x 93); [congruence|]. by rewrite IH.
Qed.

Lemma join_cons c l ls : ls <> [] -> join c (l :: ls) = l ++ c :: join c ls.
Proof. by destruct ls. Qed.

Lemma join_split_text c l : join c (split_text c l) = l.
Proof.
  assert (Hne : forall l, split_text c l <> []).
  { intros [|x l']; [done|]. cbn [split_text]. destruct (x =? c); [done|]. by destruct (split_text c l'). }
  induction l as [|x l IH]; [done|]. cbn [split_text]. destruct (Z.eqb_spec x c) as [->|].
  - by rewrite join_cons, IH by apply Hne.
  - specialize (Hne l). destruct (split_text c l) as [|p ps]; [done|]. destruct ps; cbn [join app] in *; by rewrite <- IH.
Qed.

Section token_facts.
Variables (storage : string) (master : list Z) (size : Z) (name : string).
Hypothesis Hstorage : token_name storage.
Hypothesis Hmaster : all_bytes master = true /\ length master = 32%nat.
Hypothesis Hsize : 0 <= size <= max_safe.

Definition token_group : list Z :=
  bytes_of storage ++ 35 :: b64 master ++ 35 :: bytes_of "nx1;s=" ++ print_num size ++ 35 :: display_name name.

Lemma fileToken_group : fileToken storage master size name = text (bytes_of "[file:" ++ token_group ++ [93]).
Proof. unfold fileToken, token_group. f_equal. flat_apps. done. Qed.

Lemma size_text_not c : is_digit c = false -> c ∉ bytes_of "nx1;s=" -> c ∉ bytes_of "nx1;s=" ++ print_num size.
Proof. intros Hd Hn. rewrite not_elem_of_app. split; [done|]. by apply print_num_not; [lia|]. Qed.

Lemma token_group_bracket : 93 ∉ token_group.
Proof.
  unfold token_group. destruct Hstorage, Hmaster. rewrite !not_elem_of_app, !not_elem_of_cons, !not_elem_of_app, !not_elem_of_cons.
  rewrite !not_elem_of_app, !not_elem_of_cons. split_and!; try done; try (apply b64_not; [done|done|lia]); try (apply print_num_not; [lia|done]); try by apply display_not; auto.
  by apply (forallb_not_elem (fun x => negb (x =? 93))).
Qed.

Lemma token_group_bytes : all_bytes token_group = true.
Proof.
  unfold token_group. destruct Hmaster as [Hm _].
  assert (Hc : forall l, all_bytes (35 :: l) = all_bytes l) by done.
  rewrite all_bytes_app, Hc, all_bytes_app, Hc, !all_bytes_app, Hc, !bytes_of_range, display_bytes.
  rewrite <- (b64_text_bytes master Hm), bytes_of_range. by rewrite print_num_all_bytes by lia.
Qed.

Lemma match_fileToken rest : match_token (bytes_of (fileToken storage master size name) ++ rest) = Some (token_group, rest).
Proof.
  rewrite fileToken_group. unfold text. rewrite bytes_of_string_of.
  2: { rewrite !all_bytes_app, token_group_bytes. by rewrite bytes_of_range. }
  unfold match_token. change (strip (bytes_of "[file:") ((bytes_of "[file:" ++ token_group ++ [93]) ++ rest)) with (Some ((token_group ++ [93]) ++ rest)).
  cbn iota beta. rewrite <- app_assoc. cbn [app]. rewrite to_bracket_app by apply token_group_bracket.
  destruct token_group eqn:E; [|done]. unfold token_group in E. by destruct (bytes_of storage).
Qed.

Lemma split_token_group : split_text 35 token_group =
  [bytes_of storage; b64 master; bytes_of "nx1;s=" ++ print_num size; display_name name].
Proof.
  destruct Hstorage, Hmaster as [Hm _]. unfold token_group.
  rewrite split_text_app by done. rewrite split_text_app by (apply b64_not; [done|done|lia]). rewrite app_assoc.
  rewrite split_text_app by by apply size_text_not, (forallb_not_elem (fun x => negb (x =? 35))).
  by rewrite split_text_none by by apply display_not; right.
Qed.

Lemma file_of_token_group : file_of_group token_group = Some (ref_of storage master size name).
Proof.
  destruct Hmaster as [Hm Hl]. unfold file_of_group. rewrite split_token_group. rewrite parse_size_segment by done.
  change (text (b64 master)) with (toBase64 master). rewrite atob_toBase64, Hl by done. change (len _ =? 32) with true. cbn iota.
  cbn [join meta_size]. unfold ref_of. rewrite fileToken_group. unfold text at 2. by rewrite string_of_bytes_of.
Qed.
End token_facts.

(** Reading does not depend on the fuel, once it covers the text. *)
Lemma match_token_shorter l group rest : match_token l = Some (group, rest) -> (length rest < length l)%nat.
Proof.
  unfold match_token. destruct (strip _ l) as [r|] eqn:E; [|done]. apply strip_inv in E. subst l.
  assert (Hb : forall l a b, to_bracket l = Some (a, b) -> (length b < length l)%nat).
  { clear. induction l as [|x l IH]; intros a b; cbn [to_bracket]; [done|].
    destruct (x =? 93); [intros [= <- <-]; cbn [length]; lia|].
    destruct (to_bracket l) as [[a' b']|]; [|done]. intros [= <- <-]. specialize (IH _ _ eq_refl). cbn [length]. lia. }
  destruct (to_bracket r) as [[[|g gs] b]|] eqn:Eb; [done| |done]. intros [= <- <-]. apply Hb in Eb. rewrite length_app. lia.
Qed.

Lemma file_tokens_fuel f1 f2 l : (length l <= f1)%nat -> (length l <= f2)%nat -> file_tokens f1 l = file_tokens f2 l.
Proof.
  revert f2 l. induction f1 as [|f1 IH]; intros [|f2] [|x l] H1 H2; cbn [length] in *; try lia; try done.
  cbn [file_tokens]. destruct (match_token (x :: l)) as [[g rest]|] eqn:E; [|apply IH; lia].
  apply match_token_shorter in E. cbn [length] in E. f_equal. apply IH; lia.
Qed.

(** A text that begins a token and does not end it. *)
Definition opens_token (l : list Z) : Prop := exists a b, l = a ++ bytes_of "[file:" ++ b /\ 93 ∉ b.

Lemma nothing_open : ~ opens_token [].
Proof. by intros ([|] & b & E & _). Qed.

Lemma to_bracket_inside l r : 93 ∈ l -> exists a b, to_bracket l = Some (a, b) /\ to_bracket (l ++ r) = Some (a, b ++ r) /\ l = a ++ 93 :: b.
Proof.
  induction l as [|x l IH]; intros Hl; [by apply elem_of_nil in Hl|]. cbn [to_bracket app]. destruct (Z.eqb_spec x 93) as [->|N]; [by exists [], l|].
  apply elem_of_cons in Hl as [?|Hl]; [congruence|]. destruct (IH Hl) as (a & b & -> & -> & E). exists (x :: a), b. by rewrite E.
Qed.

Lemma strip_outside p l r : 91 ∉ p -> strip p l = None -> strip p (l ++ 91 :: r) = None.
Proof.
  revert l. induction p as [|c p IH]; intros [|x l]; cbn [strip app]; try done.
  - intros Hp _. apply not_elem_of_cons in Hp as [N _]. by destruct (Z.eqb_spec c 91).
  - intros Hp. apply not_elem_of_cons in Hp as [_ Hp]. destruct (c =? x); [by apply IH|done].
Qed.

(** Tokens are read apart where a text that opens none is followed by a bracket. *)
Lemma file_tokens_app (r : list Z) : forall n l f, (length l <= n)%nat -> ~ opens_token l -> (length (l ++ 91%Z :: r) <= f)%nat ->
  file_tokens f (l ++ 91 :: r) = file_tokens (length l) l ++ file_tokens (S (length r)) (91 :: r).
Proof.
  induction n as [|n IH]; intros [|x l] f Hn Ho Hf; cbn [length] in Hn; try lia.
  1,2: by apply file_tokens_fuel; cbn [length app] in *; lia.
  assert (Hsuffix : forall k s, x :: l = k ++ s -> k <> [] -> (length s <= n)%nat /\ ~ opens_token s).
  { intros k s E Hk. split.
    - apply (f_equal length) in E. rewrite length_app in E. cbn [length] in E. destruct k; [done|]. cbn [length] in E. lia.
    - intros (a & b & -> & Hb). apply Ho. exists (k ++ a), b. by rewrite <- app_assoc. }
  cbn [app length] in *. destruct f as [|f]; [lia|]. cbn [file_tokens]. destruct (strip (bytes_of "[file:") (x :: l)) as [b|] eqn:Es.
  - pose proof (strip_inv _ _ _ Es) as E. destruct (decide (93 ∈ b)) as [Hb|Hb]; [|by destruct Ho; exists [], b].
    assert (Es' : strip (bytes_of "[file:") (x :: l ++ 91 :: r) = Some (b ++ 91 :: r)).
    { change (x :: l ++ 91 :: r) with ((x :: l) ++ 91 :: r). rewrite E, <- app_assoc. apply strip_app. }
    destruct (to_bracket_inside b (91 :: r) Hb) as (g & rest & E1 & E2 & Eb). unfold match_token. rewrite Es, Es', E1, E2.
    destruct g as [|g0 g].
    + destruct (Hsuffix [x] l eq_refl ltac:(done)) as [H1 H2]. apply IH; [done|done|lia].
    + rewrite Eb in E. destruct (Hsuffix (bytes_of "[file:" ++ (g0 :: g) ++ [93]) rest) as [H1 H2]; [rewrite E; by flat_apps|done|].
      rewrite <- app_assoc. f_equal. apply (f_equal length) in E. cbn [length] in E. rewrite !length_app in E. cbn [length] in E.
      rewrite (IH rest f H1 H2) by (rewrite length_app in *; cbn [length] in *; lia). f_equal. apply file_tokens_fuel; lia.
  - assert (Es' : strip (bytes_of "[file:") (x :: l ++ 91 :: r) = None).
    { change (bytes_of "[file:") with (91 :: bytes_of "file:") in *. cbn [strip] in *. destruct (91 =? x); [|done]. apply strip_outside; [|done].
      apply (bool_decide_unpack _). reflexivity. }
    unfold match_token. rewrite Es, Es'. destruct (Hsuffix [x] l eq_refl ltac:(done)) as [H1 H2]. apply IH; [done|done|lia].
Qed.

(** ** Frames cut anywhere *)

Lemma next_raw_app buf more :
  match next_raw buf with
  | RawWait => True
  | RawBad => next_raw (buf ++ more) = RawBad
  | RawWhole f rest => next_raw (buf ++ more) = RawWhole f (rest ++ more) /\ (length rest < length buf)%nat
  end.
Proof.
  unfold next_raw. destruct buf as [|a [|b [|c [|d [|t1 [|t2 r]]]]]]; try done. cbn [app].
  destruct (_ || _) eqn:E; [done|]. apply orb_false_iff in E as [E _]. apply Z.ltb_ge in E. cbn [length] in *. rewrite length_app.
  destruct (Z.ltb_spec (Z.of_nat (S (S (S (S (S (S (length r)))))))) (4 + be32 a b c d)); [done|].
  destruct (Z.ltb_spec (Z.of_nat (S (S (S (S (S (S (length r + length more)))))))) (4 + be32 a b c d)); [lia|].
  unfold takeZ, dropZ. rewrite take_app_le, drop_app_le by lia. split; [done|]. rewrite length_drop. lia.
Qed.

Lemma raw_frames_fuel f1 f2 buf : (length buf < f1)%nat -> (length buf < f2)%nat -> raw_frames f1 buf = raw_frames f2 buf.
Proof.
  revert f2 buf. induction f1 as [|f1 IH]; intros [|f2] buf H1 H2; try lia. cbn [raw_frames].
  pose proof (next_raw_app buf []) as H. destruct (next_raw buf) as [| |f rest]; try done.
  rewrite (IH f2 rest) by lia. done.
Qed.

Definition framed (buf : list Z) : list raw_frame * list Z * bool := raw_frames (S (length buf)) buf.

Lemma framed_step buf : framed buf =
  match next_raw buf with
  | RawWait => ([], buf, false)
  | RawBad => ([], buf, true)
  | RawWhole fr rest => let '(fs, kept, bad) := framed rest in (fr :: fs, kept, bad)
  end.
Proof.
  unfold framed at 1. cbn [raw_frames]. pose proof (next_raw_app buf []) as H. destruct (next_raw buf) as [| |f rest]; try done.
  unfold framed. by rewrite (raw_frames_fuel (length buf) (S (length rest))) by lia.
Qed.

(** Reading more bytes goes on where the reading stopped. *)
Lemma framed_app buf more : framed (buf ++ more) =
  let '(fs, kept, bad) := framed buf in
  if bad then (fs, kept ++ more, true) else let '(fs', kept', bad') := framed (kept ++ more) in (fs ++ fs', kept', bad').
Proof.
  induction buf as [buf IH] using (induction_ltof1 _ (@length Z)). unfold ltof in IH.
  rewrite (framed_step buf). pose proof (next_raw_app buf more) as H. destruct (next_raw buf) as [| |f rest].
  - by destruct (framed (buf ++ more)) as [[??]?].
  - by rewrite framed_step, H.
  - destruct H as [E Hl]. rewrite framed_step, E, (IH rest Hl). destruct (framed rest) as [[fs kept] bad].
    destruct bad; [done|]. by destruct (framed (kept ++ more)) as [[??]?].
Qed.

Lemma on_message_framed data s : closing s = false -> closed s = false ->
  on_message data s = let '(fs, kept, bad) := framed (unread s ++ data) in
                      Socket (if bad then unread s ++ data else kept) (frames s ++ fs) bad false.
Proof. unfold on_message. by intros -> ->. Qed.

(** What arrives in pieces is framed like the whole. *)
Lemma pieces_framed pieces : forall b fs0 fs kept,
  framed (b ++ concat pieces) = (fs, kept, false) -> framed b = ([], b, false) ->
  foldl (fun s d => on_message d s) (Socket b fs0 false false) pieces = Socket kept (fs0 ++ fs) false false.
Proof.
  induction pieces as [|d ps IH]; intros b fs0 fs kept Hall Hb; cbn [concat foldl] in *.
  - rewrite app_nil_r, Hb in Hall. injection Hall as <- <-. by rewrite app_nil_r.
  - rewrite app_assoc, framed_app in Hall. rewrite on_message_framed by done. cbn [unread frames].
    destruct (framed (b ++ d)) as [[fs1 k1] bad1] eqn:E1. destruct bad1; [done|].
    destruct (framed (k1 ++ concat ps)) as [[fs2 k2] bad2] eqn:E2. injection Hall as <- <- ->.
    rewrite app_assoc. apply IH; [done|].
    assert (Hk : forall buf fs k, framed buf = (fs, k, false) -> framed k = ([], k, false)); [|by eapply Hk].
    clear. intros buf. induction buf as [buf IH] using (induction_ltof1 _ (@length Z)). unfold ltof in IH. intros fs k.
    rewrite framed_step. pose proof (next_raw_app buf []) as H. destruct (next_raw buf) as [| |f rest] eqn:E; try done.
    + intros [= <- <-]. by rewrite framed_step, E.
    + destruct (framed rest) as [[fs' k'] bad'] eqn:Er. intros [= <- <- ->]. destruct H as [_ Hl]. by eapply IH.
Qed.

(** A frame that the protocol can carry. *)
Definition sendable (f : raw_frame) : Prop := 0 <= raw_type f < 65536 /\ len (raw_payload f) + 2 <= 1048576.
Definition frame_bytes (f : raw_frame) : list Z := encodeRaw (raw_type f) (raw_payload f).

Lemma next_raw_frame f more : sendable f -> next_raw (frame_bytes f ++ more) = RawWhole f more.
Proof.
  intros [Ht Hp]. destruct f as [t p]. unfold frame_bytes, encodeRaw. cbn [raw_type raw_payload] in *.
  destruct (be32_put (len p + 2)) as (a & b & c & d & -> & Hn); [unfold two32; lia|].
  destruct (be16_put t) as (t1 & t2 & -> & Htt). flat_apps. cbn [next_raw]. rewrite Hn, Htt, Z.mod_small by lia.
  cbn [length]. rewrite length_app. zcases. replace (len p + 2 - 2) with (len p) by lia.
  by rewrite takeZ_app, dropZ_app.
Qed.

Lemma framed_frames fs : Forall sendable fs -> framed (concat (map frame_bytes fs)) = (fs, [], false).
Proof.
  induction 1 as [|f fs Hf _ IH]; [done|]. cbn [map concat]. by rewrite framed_step, next_raw_frame, IH by done.
Qed.

Lemma frames_arrive fs pieces : Forall sendable fs -> concat pieces = concat (map frame_bytes fs) ->
  foldl (fun s d => on_message d s) new_socket pieces = Socket [] fs false false.
Proof. intros Hs Hc. apply (pieces_framed pieces [] []); [|done]. by rewrite app_nil_l, Hc, framed_frames. Qed.

(** ** An upload sends the file *)

Lemma chunk_frames_pieces fuel : forall slice, (length slice <= fuel)%nat ->
  exists ps, chunk_frames fuel slice = map (encodeRaw FrameType.chunk) ps /\ concat ps = slice /\ Forall (fun p => 0 < len p <= SEND_CHUNK) ps.
Proof.
  induction fuel as [|fuel IH]; intros [|x slice] Hl; cbn [length] in *; try lia; try (by exists []).
  cbn [chunk_frames]. set (sl := x :: slice) in *.
  destruct (IH (dropZ SEND_CHUNK sl)) as (ps & E & Ec & Hp).
  { unfold dropZ, SEND_CHUNK. rewrite length_drop. unfold sl. cbn [length]. lia. }
  exists (takeZ SEND_CHUNK sl :: ps). cbn [map concat]. rewrite E, Ec, takeZ_dropZ. split_and!; [done|done|].
  constructor; [|done]. rewrite takeZ_length by (unfold SEND_CHUNK; lia). unfold sl, SEND_CHUNK. cbn [length]. lia.
Qed.

Lemma upload_slices_pieces aborts fuel : forall n file, (length file <= fuel)%nat ->
  let (sent, whole) := upload_slices aborts fuel n file in
  exists ps, sent = map (encodeRaw FrameType.chunk) ps /\ concat ps `prefix_of` file /\
             (whole = true -> concat ps = file) /\ Forall (fun p => 0 < len p <= SEND_CHUNK) ps.
Proof.
  induction fuel as [|fuel IH]; intros n [|x file] Hl; cbn [length] in *; try lia; try (by exists []).
  cbn [upload_slices]. set (fl := x :: file) in *. destruct (aborts n true); [exists []; split_and!; [done|apply prefix_nil|done|done]|].
  destruct (chunk_frames_pieces _ (takeZ READ_SLICE fl) (Nat.le_refl _)) as (ps & E & Ec & Hp).
  pose proof (takeZ_dropZ READ_SLICE fl) as Hs. destruct (aborts n false).
  { exists ps. split_and!; [done|rewrite Ec; by eexists|done|done]. }
  specialize (IH (S n) (dropZ READ_SLICE fl)). destruct (upload_slices aborts fuel (S n) _) as [more whole].
  destruct IH as (qs & -> & Hpre & Hw & Hq).
  { unfold dropZ, READ_SLICE. rewrite length_drop. unfold fl. cbn [length]. lia. }
  exists (ps ++ qs). rewrite map_app, concat_app, E, Ec. split_and!; [done| | |by apply Forall_app].
  - destruct Hpre as [z Hz]. exists z. by rewrite <- app_assoc, <- Hz, Hs.
  - intros Hwh. by rewrite (Hw Hwh).
Qed.

(** Whatever the signal does, an upload sends the transfer's first frame, then
    chunk frames that a reader accepts and whose payloads are, joined, an initial
    part of the file; the digest frame follows exactly when no abort was seen, and
    then the payloads are the whole file: an aborted upload is never taken for a
    shorter file. *)
Theorem upload_sends_file hs aborts init file :
  let (sent, whole) := uploadStream hs aborts init file in
  exists ps, sent = init_frame init :: map frame_bytes (map (RawFrame FrameType.chunk) ps) ++ (if whole then [digest_frame hs file] else []) /\
             (if whole then concat ps = file else concat ps `prefix_of` file) /\
             Forall sendable (map (RawFrame FrameType.chunk) ps).
Proof.
  unfold uploadStream. pose proof (upload_slices_pieces aborts (length file) 0 file ltac:(lia)) as H.
  destruct (upload_slices _ _ _ _) as [sent whole]. destruct H as (ps & -> & Hpre & Hw & Hp). exists ps. rewrite map_map.
  split_and!; [done|destruct whole; auto|]. apply Forall_map. eapply Forall_impl; [exact Hp|]. intros p Hb. unfold SEND_CHUNK in Hb.
  split; cbn [raw_type raw_payload]; [done|lia].
Qed.

(** ** A download receives it *)

Lemma parse_sent_json v : (exists r, stringify v = 123 :: r) -> well_formed (stringify v) -> parse (bytes_of (decode (stringify v))) = Some v.
Proof.
  intros [r Hr] Hw. rewrite decode_bytes; [apply parse_stringify|apply stringify_bytes|done|]. by rewrite Hr.
Qed.

Lemma well_formed_ascii_str s : Forall (fun c => c < 128) (bytes_of s) -> well_formed (stringify (JStr s)).
Proof. intros H. by apply well_formed_print, well_formed_ascii. Qed.

Section delivery.
Context `{Cipher}.
Variable hs : hashes.
Variable hkdf : list Z -> list Z -> list Z.
Hypothesis sha_bytes : forall l, all_bytes (sha256 hs l) = true.
Hypothesis sha_length : forall l, length (sha256 hs l) = 32%nat.

Lemma digest_text_ascii blob : Forall (fun c => c < 128) (bytes_of (hex_text (sha256 hs blob))).
Proof.
  apply Forall_forall. intros c Hc%list_elem_of_In.
  assert (Hf : forallb (fun c => c <? 128) (bytes_of (hex_text (sha256 hs blob))) = true) by by apply hex_text_chars.
  rewrite forallb_forall in Hf. by apply Z.ltb_lt, Hf.
Qed.

Definition digest_json (blob : list Z) : json := JObj [("sha256"%string, JStr (hex_text (sha256 hs blob)))].

Lemma digest_read blob : parse (bytes_of (decode (stringify (digest_json blob)))) = Some (digest_json blob).
Proof.
  apply parse_sent_json; [by eexists|]. apply well_formed_obj. constructor; [|done]. cbn [fst snd]. split.
  - apply well_formed_ascii. repeat constructor.
  - apply well_formed_ascii_str, digest_text_ascii.
Qed.

Lemma download_chunks max ab cl ps : forall parts more, len parts + len (concat ps) <= max ->
  download hs max ab cl (map (RawFrame FrameType.chunk) ps ++ more) parts = download hs max ab cl more (parts ++ concat ps).
Proof.
  induction ps as [|p ps IH]; intros parts more Hl; cbn [map app concat] in *; [by rewrite app_nil_r|].
  cbn [download raw_type raw_payload]. change (FrameType.chunk =? FrameType.chunk) with true. cbn iota.
  rewrite length_app in Hl. rewrite length_app. destruct (Z.ltb_spec max (Z.of_nat (length parts + length p))); [lia|].
  rewrite IH, <- app_assoc; [done|]. rewrite length_app. lia.
Qed.

Lemma download_whole max ab cl ps more : len (concat ps) <= max ->
  download hs max ab cl (map (RawFrame FrameType.chunk) ps ++ RawFrame FrameType.digest (stringify (digest_json (concat ps))) :: more) [] =
  Some (Ok (concat ps)).
Proof.
  intros Hl. rewrite download_chunks by done. cbn [app download raw_type raw_payload].
  change (FrameType.digest =? FrameType.chunk) with false. change (FrameType.digest =? FrameType.digest) with true. cbn iota.
  rewrite digest_read. unfold digest_json. cbn [field assoc_last]. rewrite decide_True by done. unfold is_text. by rewrite bool_decide_eq_true_2.
Qed.

(** AES-GCM appends a tag of 16 bytes; a nonce has 12. *)
Hypothesis gcm_tag : forall k n a m, len (encrypt k n a m) = len m + 16.
Variable nonces : Z -> list Z.
Hypothesis gcm_nonce : forall i, len (nonces i) = 12.

Lemma seal_chunks_length master fuel : forall index plain,
  len (seal_chunks hkdf nonces master fuel index plain) <= len plain + 32 * ((len plain + 65535) / 65536).
Proof.
  induction fuel as [|fuel IH]; intros index plain; [cbn [seal_chunks length]; Z.to_euclidean_division_equations; lia|].
  destruct plain as [|x plain]; [cbn [seal_chunks length]; Z.to_euclidean_division_equations; lia|].
  cbn [seal_chunks]. set (pl := x :: plain) in *. rewrite !length_app. specialize (IH (index + 1) (dropZ CHUNK pl)).
  pose proof (gcm_tag (chunkKey hkdf master index) (nonces index) (chunk_aad index) (takeZ CHUNK pl)) as Ht.
  specialize (gcm_nonce index). rewrite takeZ_length in Ht by (unfold CHUNK; lia). rewrite dropZ_length in IH by (unfold CHUNK; lia).
  unfold CHUNK in *. assert (1 <= len pl) by (unfold pl; cbn [length]; lia). cbn [put_be32 length].
  Z.to_euclidean_division_equations. lia.
Qed.

Lemma sealAttachment_fits master plain : len plain <= MAX_ATTACHMENT_BYTES -> len (sealAttachment hkdf nonces master plain) <= maxWire.
Proof.
  intros Hp. unfold sealAttachment, maxWire, CHUNK, GCM_OVERHEAD, MAX_ATTACHMENT_BYTES in *. rewrite length_app.
  pose proof (seal_chunks_length master (length plain) 0 plain). change (26214400 / 65536) with 400.
  Z.to_euclidean_division_equations. lia.
Qed.

Lemma storageName_chars (f : Z -> bool) blob :
  forallb (fun x => f (hex_digit x) && is_byte (hex_digit x)) (seqZ 0 16) = true -> forallb f (bytes_of ".vcx") = true ->
  forallb f (bytes_of (storageName hs blob)) = true.
Proof.
  intros Hh Hv. unfold storageName. pose proof (hex_text_chars f _ (sha_bytes blob) Hh) as Hx.
  pose proof (bytes_of_range (hex_text (sha256 hs blob))) as Hb.
  rewrite <- (take_drop 32 (bytes_of (hex_text (sha256 hs blob)))) in Hx, Hb.
  rewrite forallb_app in Hx. rewrite all_bytes_app in Hb. apply andb_true_iff in Hx as [Hx _]. apply andb_true_iff in Hb as [Hb _].
  rewrite bytes_of_app. unfold text. rewrite bytes_of_string_of by done. by rewrite forallb_app, Hx, Hv.
Qed.

Lemma storageName_token blob : token_name (storageName hs blob).
Proof.
  split; [apply (forallb_not_elem (fun c => negb (c =? 93)))|apply (forallb_not_elem (fun c => negb (c =? 35)))];
    done || by apply storageName_chars.
Qed.

Lemma storageName_lower blob : map lower_ascii (bytes_of (storageName hs blob)) = bytes_of (storageName hs blob).
Proof.
  assert (Hf : forallb (fun c => lower_ascii c =? c) (bytes_of (storageName hs blob)) = true) by by apply storageName_chars.
  rewrite forallb_forall in Hf. trans (map (fun c => c) (bytes_of (storageName hs blob))); [|apply map_id].
  apply map_ext_in. intros c Hc. by apply Z.eqb_eq, Hf.
Qed.

(** A token is read back wherever it stands in a message. *)
Lemma tokens_of_message storage master size name before after :
  token_name storage -> all_bytes master = true /\ length master = 32%nat -> 0 <= size <= max_safe -> ~ opens_token (bytes_of before) ->
  parseFileTokens (before +:+ fileToken storage master size name +:+ after)%string =
  parseFileTokens before ++ ref_of storage master size name :: parseFileTokens after.
Proof.
  intros Hs Hm Hz Hb. unfold parseFileTokens. rewrite !bytes_of_app.
  pose proof (match_fileToken storage master size name Hs Hm Hz (bytes_of after)) as Hmt.
  assert (Ehd : exists r, bytes_of (fileToken storage master size name) ++ bytes_of after = 91 :: r).
  { unfold match_token in Hmt. destruct (strip _ _) as [x|] eqn:Ex; [|done]. apply strip_inv in Ex. rewrite Ex. by eexists. }
  destruct Ehd as [r Er]. rewrite Er in Hmt |- *. rewrite (file_tokens_app r (length (bytes_of before))) by done. f_equal.
  cbn [file_tokens]. rewrite Hmt, file_of_token_group by done. cbn [option_list app]. f_equal. apply match_token_shorter in Hmt. cbn [length] in Hmt.
  apply file_tokens_fuel; lia.
Qed.

Lemma openFetched_sealed master plain name : len plain <= MAX_ATTACHMENT_BYTES ->
  openFetched hs hkdf (sealAttachment hkdf nonces master plain)
    (ref_of (storageName hs (sealAttachment hkdf nonces master plain)) master (len plain) name) = Ok plain.
Proof.
  intros Hp. unfold openFetched, ref_of. cbn [ref_storage ref_master ref_size]. rewrite storageName_lower, bool_decide_eq_true_2 by done.
  rewrite open_sealAttachment by done. cbn [rbind]. by rewrite Z.eqb_refl, orb_true_r.
Qed.

Lemma digest_sendable blob : sendable (RawFrame FrameType.digest (stringify (digest_json blob))).
Proof.
  split; cbn [raw_type raw_payload]; [done|]. pose proof (hex_text_length _ (sha_bytes blob)) as Hl. rewrite sha_length in Hl.
  unfold digest_json, stringify. cbn [print_json map join fst snd]. unfold print_str_with.
  change (escaped (bytes_of "sha256")) with (bytes_of "sha256").
  pose proof (escaped_length_le (bytes_of (hex_text (sha256 hs blob)))). cbn [app bytes_of length]. rewrite ?length_app. cbn [length].
  rewrite ?length_app. cbn [length]. lia.
Qed.

(** C22: a sealed attachment arrives.  The token of an upload is read back as a
    reference wherever it stands in a message, after the tokens of the text before it
    (unless this text itself begins a token that it does not end, see
    [swallowed_token]), and a file server that sends the stored bytes in any
    chunks, cut anywhere on the way, gives the receiver exactly the plaintext; the
    limit of the download is never in the way. *)
Theorem attachment_delivered master plain name blob tok before after ps pieces aborted :
  all_bytes master = true /\ length master = 32%nat -> ~ opens_token (bytes_of before) ->
  uploadAttachment hs hkdf nonces master plain name = Ok (blob, tok) ->
  concat ps = blob -> Forall (fun p => len p + 2 <= 1048576) ps ->
  concat pieces = concat (map frame_bytes (map (RawFrame FrameType.chunk) ps ++ [RawFrame FrameType.digest (stringify (digest_json blob))])) ->
  exists ref, parseFileTokens (before +:+ tok +:+ after)%string = parseFileTokens before ++ ref :: parseFileTokens after /\
              fetchAttachment hs hkdf aborted (foldl (fun s d => on_message d s) new_socket pieces) ref = Some (Ok plain).
Proof.
  intros Hm Hb Hu Hps Hp Hpc. unfold uploadAttachment in Hu. destruct (Z.ltb_spec MAX_ATTACHMENT_BYTES (len plain)); [done|].
  cbn [negb] in Hu. set (sealed := sealAttachment hkdf nonces master plain) in *. injection Hu as <- <-. eexists. split.
  { apply tokens_of_message; [apply storageName_token|done| |done]. unfold MAX_ATTACHMENT_BYTES, max_safe in *. lia. }
  rewrite (frames_arrive (map (RawFrame FrameType.chunk) ps ++ [RawFrame FrameType.digest (stringify (digest_json sealed))])).
  - unfold fetchAttachment, downloadBlob. cbn [frames closed]. rewrite <- Hps at 1. rewrite download_whole.
    + cbn [fmap option_fmap option_map rbind]. rewrite Hps. unfold sealed. by rewrite openFetched_sealed.
    + rewrite Hps. by apply sealAttachment_fits.
  - apply Forall_app. split; [|by repeat constructor; apply digest_sendable]. apply Forall_map. eapply Forall_impl; [exact Hp|]. by split.
  - exact Hpc.
Qed.

(** The name of a blob is the first half of its hash. *)
Lemma same_name blob blob' : storageName hs blob' = storageName hs blob -> take 16 (sha256 hs blob') = take 16 (sha256 hs blob).
Proof.
  intros E. apply (f_equal bytes_of) in E. unfold storageName in E. rewrite !bytes_of_app in E. apply app_inv_tail in E.
  assert (Hhalf : forall l, all_bytes l = true -> bytes_of (text (take 32 (bytes_of (hex_text l)))) = bytes_of (hex_text (take 16 l))).
  { intros l Hl. pose proof (bytes_of_range (hex_text l)) as Hb. assert (Hl' : all_bytes (take 16 l) = true).
    { rewrite <- (take_drop 16 l) in Hl. rewrite all_bytes_app in Hl. by apply andb_true_iff in Hl as [? _]. }
    unfold text. rewrite bytes_of_string_of.
    2:{ rewrite <- (take_drop 32 (bytes_of (hex_text l))) in Hb. rewrite all_bytes_app in Hb. by apply andb_true_iff in Hb as [? _]. }
    rewrite !hex_text_bytes by done. change 32%nat with (2 * 16)%nat. generalize 16%nat. clear. intros n. revert l.
    induction n as [|n IH]; intros [|b l]; try done. replace (2 * S n)%nat with (S (S (2 * n))) by lia. cbn [mbind list_bind app take]. by rewrite IH. }
  rewrite !Hhalf in E by apply sha_bytes. apply bytes_of_inj in E. apply hex_text_inj; [..|exact E].
  all: match goal with |- all_bytes (take _ (sha256 _ ?x)) = _ => pose proof (sha_bytes x) as Hx; rewrite <- (take_drop 16 (sha256 hs x)) in Hx;
    rewrite all_bytes_app in Hx; by apply andb_true_iff in Hx as [? _] end.
Qed.

(** C21: a file server cannot replace an attachment.  Whatever it sends, what is
    accepted for the token of an upload is the uploaded plaintext, unless what it sent
    are other bytes whose SHA-256 has the first 128 bits of that of the uploaded ones,
    which is how much of it the name of a file holds. *)
Theorem attachment_authentic master plain name blob tok ref s aborted got :
  all_bytes master = true /\ length master = 32%nat ->
  uploadAttachment hs hkdf nonces master plain name = Ok (blob, tok) -> ref ∈ parseFileTokens tok ->
  fetchAttachment hs hkdf aborted s ref = Some (Ok got) ->
  got = plain \/ exists sent, downloadBlob hs maxWire aborted s = Some (Ok sent) /\ sent <> blob /\ take 16 (sha256 hs sent) = take 16 (sha256 hs blob).
Proof.
  intros Hm Hu Hr Hf. unfold uploadAttachment in Hu. destruct (Z.ltb_spec MAX_ATTACHMENT_BYTES (len plain)); [done|].
  cbn [negb] in Hu. set (sealed := sealAttachment hkdf nonces master plain) in *. injection Hu as <- <-.
  assert (Ht : parseFileTokens (fileToken (storageName hs sealed) master (len plain) name) = [ref_of (storageName hs sealed) master (len plain) name]).
  { pose proof (tokens_of_message (storageName hs sealed) master (len plain) name "" "" (storageName_token sealed) Hm) as Ht.
    specialize (Ht ltac:(unfold MAX_ATTACHMENT_BYTES, max_safe in *; lia) nothing_open).
    change (parseFileTokens "") with (@nil file_ref) in Ht. cbn [app] in Ht. rewrite <- Ht. f_equal.
    rewrite <- (string_of_bytes_of (fileToken _ _ _ _)) at 1. rewrite <- (string_of_bytes_of (_ +:+ _)). by rewrite !bytes_of_app, app_nil_r. }
  rewrite Ht in Hr. apply list_elem_of_singleton in Hr. subst ref. unfold fetchAttachment in Hf.
  destruct (downloadBlob _ _ _ _) as [[blob|e]|] eqn:Ed; [|done|done]. cbn [fmap option_fmap option_map rbind] in Hf. injection Hf as Hf.
  destruct (decide (blob = sealed)) as [->|Hne].
  - left. unfold sealed in Hf. rewrite openFetched_sealed in Hf by done. congruence.
  - right. exists blob. split_and!; [done|done|]. apply same_name. unfold openFetched in Hf. case_bool_decide as Hn; [|done]. unfold ref_of in Hn. cbn [ref_storage] in Hn.
    rewrite storageName_lower in Hn. by rewrite <- (string_of_bytes_of (storageName hs blob)), Hn, string_of_bytes_of.
Qed.
End delivery.

(** ** A concrete attachment *)

Module FilesDemo.
#[local] Program Instance tagged : Cipher :=
  {| encrypt _ _ _ m := m ++ repeat 0 16;
     decrypt _ _ _ c := let m := take (length c - 16) c in if decide (c = m ++ repeat 0 16) then Some m else None |}.
Next Obligation.
  intros k n a plain. cbv beta zeta. rewrite length_app. change (length (repeat 0 16)) with 16%nat. rewrite Nat.add_sub, take_app_length. by case_decide.
Qed.

Definition hs : hashes := Hashes (fun m => repeat (foldl Z.add 0 m `mod` 256) 32) (fun _ _ => repeat 8 32) (fun _ => repeat 9 24).
Definition hkdf (key info : list Z) : list Z := take 32 (key ++ info).
Definition nonces (i : Z) : list Z := repeat i 12.
Definition master : list Z := repeat 5 32.
Definition plain : list Z := [1; 2; 3].
Definition name : string := "a#b.txt".

Lemma sha_ok l : all_bytes (sha256 hs l) = true.
Proof.
  cbn [hs sha256]. pose proof (Z.mod_pos_bound (foldl Z.add 0 l) 256 ltac:(lia)) as Hb. unfold all_bytes.
  apply forallb_forall. intros x ->%repeat_spec. by apply is_byte_spec.
Qed.
Lemma tag_ok k n a m : len (encrypt k n a m) = len m + 16.
Proof. cbn [encrypt tagged]. rewrite length_app. change (length (repeat 0 16)) with 16%nat. lia. Qed.
Lemma nonces_ok i : len (nonces i) = 12.
Proof. done. Qed.

Definition sealed : list Z := Eval vm_compute in sealAttachment hkdf nonces master plain.
Definition tok : string := Eval vm_compute in fileToken (storageName hs sealed) master 3 name.
Lemma uploaded : uploadAttachment hs hkdf nonces master plain name = Ok (sealed, tok).
Proof. vm_compute. reflexivity. Qed.
Definition sent : list Z :=
  concat (map frame_bytes (map (RawFrame FrameType.chunk) [sealed] ++ [RawFrame FrameType.digest (stringify (digest_json hs sealed))])).

(** A text without the beginning of a token opens none. *)
Definition has_marker (l : list Z) : bool := existsb (fun n => if strip (bytes_of "[file:") (drop n l) then true else false) (seq 0 (S (length l))).
Lemma no_marker l : has_marker l = false -> ~ opens_token l.
Proof.
  intros Hm (a & b & -> & _). assert (H : has_marker (a ++ bytes_of "[file:" ++ b) = true); [|congruence].
  apply existsb_exists. exists (length a). split; [apply in_seq; rewrite length_app; lia|]. by rewrite drop_app_length, strip_app.
Qed.

(** A sender's words can hide the token that follows them: the link is not found. *)
Theorem swallowed_token : exists ref, parseFileTokens ("see [file: " +:+ tok)%string = [ref] /\ ref_storage ref <> storageName hs sealed /\
  fetchAttachment hs hkdf false (on_message sent new_socket) ref <> Some (Ok plain).
Proof. eexists. split; [vm_compute; reflexivity|]. split; vm_compute; discriminate. Qed.

Lemma attachment_delivered_witness :
  uploadAttachment hs hkdf nonces master plain name = Ok (sealed, tok) /\
  exists ref, parseFileTokens ("[see] " +:+ tok +:+ "!")%string = parseFileTokens "[see] " ++ ref :: parseFileTokens "!" /\
              fetchAttachment hs hkdf false (foldl (fun s d => on_message d s) new_socket [take 7 sent; drop 7 sent]) ref = Some (Ok plain).
Proof.
  split; [exact uploaded|].
  apply (attachment_delivered hs hkdf sha_ok (fun _ => eq_refl) tag_ok nonces nonces_ok master plain name sealed tok "[see] " "!" [sealed]).
  - split; reflexivity.
  - apply no_marker. reflexivity.
  - exact uploaded.
  - reflexivity.
  - repeat constructor. vm_compute. discriminate.
  - cbn [concat]. rewrite app_nil_r. apply take_drop.
Defined.

Definition stored : transfer_socket := on_message sent new_socket.
Definition found : list file_ref := Eval vm_compute in parseFileTokens tok.
Lemma found_tokens : parseFileTokens tok = found.
Proof. vm_compute. reflexivity. Qed.
Lemma fetched : Forall (fun ref => fetchAttachment hs hkdf false stored ref = Some (Ok plain)) found.
Proof. repeat constructor; vm_compute; reflexivity. Qed.
Lemma found_one : exists ref, ref ∈ parseFileTokens tok /\ fetchAttachment hs hkdf false stored ref = Some (Ok plain).
Proof. rewrite found_tokens. pose proof fetched as H. destruct found as [|r l] eqn:E; [done|]. exists r. split; [left|]. by inversion H. Qed.

Lemma attachment_authentic_witness :
  exists ref, fetchAttachment hs hkdf false stored ref = Some (Ok plain) /\
              (plain = plain \/ exists sent', downloadBlob hs maxWire false stored = Some (Ok sent') /\ sent' <> sealed /\ take 16 (sha256 hs sent') = take 16 (sha256 hs sealed)).
Proof.
  destruct found_one as (ref & Hin & Hf). exists ref. split; [exact Hf|].
  apply (attachment_authentic hs hkdf sha_ok tag_ok nonces nonces_ok master plain name sealed tok ref stored false plain);
    [split; reflexivity|exact uploaded|exact Hin|exact Hf].
Defined.

(** An upload that was aborted after its first slice was read. *)
Example aborted_upload : (uploadStream hs (fun n read => read && Nat.eqb n 0) (JObj []) plain).2 = false.
Proof. vm_compute. reflexivity. Qed.
End FilesDemo.
