(* ===== verification/UploadQueue.v ===== *)
(** * The queue of uploads ([upload-queue.js])

    One list of uploads for the page: they run one at a time, in the order of the
    list, and can be cancelled, retried and dismissed.  An upload is an object that
    the list and the running [pump] share, so it lives in a store and is named by
    its number; a dismissed upload leaves the list while its transfer may still end.

    [step] is one turn of the event loop: a call from the interface, a report of the
    transfer's progress, the settling of the transfer that [pump] awaits, or a change
    of the account or the connection.  The listeners of the change event only draw,
    and [_resetUploads] is for tests; neither is modelled. *)

From stdpp Require Import base gmap list sets strings.
From Stdlib Require Import ZArith Lia.
From S2P Require Import Prelude Json Text Crypto Files.

Inductive upload_status := Queued | Active | Done | Failed | Canceled.
#[global] Instance upload_status_eq_dec : EqDecision upload_status.
Proof. solve_decision. Defined.

Record upload_file := File { file_name : string; content : list Z }.

(** The fields of [target], before and after the defaults. *)
Record given_target := Given { g_channel : option Z; g_folder : option string; g_sealed : bool; g_name : option string }.
Record upload_target := Target { channelID : Z; folder : string; sealed : bool; target_name : string }.

(** What [item.done] resolves with. *)
Inductive upload_result :=
| Stored (channelID : Z) (folder name : string)
| Attached (channelID : Z) (storage token : string).

(** [controller] is the abort controller of the last start, with its signal;
    [outcome] is what the current [item.done] was settled with. *)
Record upload := Upload {
  file : upload_file; owner : string; target : upload_target;
  total : Z; sent : Z; status : upload_status; error : string;
  up_result : option upload_result; controller : option bool;
  settled : bool; outcome : option (result string upload_result)
}.
#[export] Instance upload_eta : Eta upload := fun r =>
  Upload (file r) (owner r) (target r) (total r) (sent r) (status r) (error r) (up_result r) (controller r) (settled r) (outcome r).

(** A transfer that threw before it first waited, or one under way. *)
Inductive phase := Throws (e : string) | Transferring.

Record queue := Queue {
  sequence : Z; store : gmap Z upload; items : list Z;
  running : option (Z * phase);
  account : string; connected : bool                  (* getOwner(), getConn()?.open *)
}.
#[export] Instance queue_eta : Eta queue := fun r =>
  Queue (sequence r) (store r) (items r) (running r) (account r) (connected r).

Definition new_queue : queue := Queue 0 ∅ [] None "" false.

Definition upd (i : Z) (f : upload -> upload) (s : queue) : queue := s <| store := alter f i (store s) |>.
Definition status_of (s : queue) (i : Z) : option upload_status := status <$> store s !! i.
Definition has_status (s : queue) (st : upload_status) (i : Z) : bool := bool_decide (status_of s i = Some st).

Definition nonempty (s : option string) : option string := match s with Some "" => None | _ => s end%string.

Definition canceledError : string := "upload canceled".

(** [settle]: a new [item.done]. *)
Definition settle (u : upload) : upload := u <| settled := false |> <| outcome := None |>.
(** [item.resolve] and [item.reject]: the first one decides. *)
Definition settle_with (r : result string upload_result) (u : upload) : upload :=
  u <| settled := true |> <| outcome := Some (default r (outcome u)) |>.

(** The part of [transfer] before it first waits. *)
Definition transfer_start (s : queue) (u : upload) : phase :=
  if bool_decide (account s <> owner u) then Throws "the account changed; this upload was discarded"
  else if negb (connected s) then Throws "not connected"
  else if sealed (target u) && (MAX_ATTACHMENT_BYTES <? len (content (file u))) then Throws "attachment exceeds 25 MiB"
  else Transferring.

(** What [transfer] returns; a sealed file has a storage name and a master key. *)
Definition transfer_result (u : upload) (storage : string) (master : list Z) : upload_result :=
  let t := target u in
  if sealed t then Attached (channelID t) storage (fileToken storage master (len (content (file u))) (target_name t))
  else Stored (channelID t) (folder t) (target_name t).

Definition next_queued (s : queue) : option Z := List.find (has_status s Queued) (items s).

Definition begin (u : upload) : upload :=
  u <| status := Active |> <| sent := 0 |> <| error := ""%string |> <| controller := Some false |>.

(** [pump] up to its [await]. *)
Definition pump (s : queue) : queue :=
  match running s, next_queued s with
  | None, Some i =>
    let s' := upd i begin s in
    s' <| running := (fun u => (i, transfer_start s' u)) <$> store s' !! i |>
  | _, _ => s
  end.

(** [pump] from its [await] on. *)
Definition finish (r : result string upload_result) (u : upload) : upload :=
  match r with
  | Ok v => settle_with (Ok v) (u <| up_result := Some v |> <| status := Done |> <| sent := total u |>)
  | Err e =>
    if decide (status u = Active) then
      if decide (controller u = Some true) then u <| status := Canceled |> <| error := ""%string |>
      else u <| status := Failed |> <| error := e |>
    else u
  end.

Definition settles (r : result string (string * list Z)) (s : queue) : queue :=
  match running s with
  | Some (i, p) =>
    let f u :=
      let out := match p, r with
                 | Throws e, _ => Err e
                 | Transferring, Ok (storage, master) => Ok (transfer_result u storage master)
                 | Transferring, Err e => Err e
                 end in
      (finish out u) <| controller := None |> in
    pump (upd i f s <| running := None |>)
  | None => s
  end.

(** ** The calls *)

Definition enqueueUpload (f : upload_file) (t : given_target) (s : queue) : queue :=
  let name := default "file"%string (match nonempty (g_name t) with Some n => Some n | None => nonempty (Some (file_name f)) end) in
  let u := Upload f (account s) (Target (default 0 (g_channel t)) (default ""%string (g_folder t)) (g_sealed t) name)
                  (len (content f)) 0 Queued "" None None false None in
  let n := sequence s + 1 in
  pump (s <| sequence := n |> <| store := <[n := u]> (store s) |> <| items := items s ++ [n] |>).

Definition abort (u : upload) : upload := u <| controller := (fun _ => true) <$> controller u |>.
Definition waits (u : upload) : bool := bool_decide (status u = Queued \/ status u = Active).

Definition listed (s : queue) (i : Z) : option upload := if decide (i ∈ items s) then store s !! i else None.

Definition cancelUpload (i : Z) (s : queue) : queue :=
  match listed s i with
  | Some u => if waits u then upd i (fun u => settle_with (Err canceledError) (abort (u <| status := Canceled |>))) s else s
  | None => s
  end.

Definition retryUpload (i : Z) (s : queue) : queue :=
  match listed s i with
  | Some u =>
    if decide (status u = Failed \/ status u = Canceled) then
      let f u := (if settled u then settle u else u) <| status := Queued |> <| sent := 0 |> <| error := ""%string |> in
      pump (upd i f s)
    else s
  | None => s
  end.

Definition dismiss (u : upload) : upload :=
  let u := if waits u then abort (u <| status := Canceled |>) else u in
  if settled u then u else settle_with (Err canceledError) u.

Definition dismissUpload (i : Z) (s : queue) : queue :=
  if decide (i ∈ items s) then upd i dismiss s <| items := filter (fun j => j <> i) (items s) |> else s.

Definition dismiss_each (ids : list Z) (s : queue) : queue := foldl (fun s i => dismissUpload i s) s ids.
Definition clearFinished (s : queue) : queue := dismiss_each (filter (fun i => has_status s Done i = true) (items s)) s.
Definition discardUploads (s : queue) : queue := dismiss_each (items s) s.

(** [onProgress], and the size of the sealed bytes. *)
Definition report (f : upload -> upload) (s : queue) : queue :=
  match running s with Some (i, Transferring) => upd i f s | _ => s end.

Inductive event :=
| Enqueue (f : upload_file) (t : given_target)
| Cancel (i : Z)
| Retry (i : Z)
| Dismiss (i : Z)
| ClearFinished
| Discard
| Progress (n : Z)
| SealedSize (n : Z)
| Settles (r : result string (string * list Z))
| SignedIn (a : string)
| Connection (open : bool).

Definition step (s : queue) (e : event) : queue :=
  match e with
  | Enqueue f t => enqueueUpload f t s
  | Cancel i => cancelUpload i s
  | Retry i => retryUpload i s
  | Dismiss i => dismissUpload i s
  | ClearFinished => clearFinished s
  | Discard => discardUploads s
  | Progress n => report (fun u => u <| sent := n |>) s
  | SealedSize n => report (fun u => u <| total := n |>) s
  | Settles r => settles r s
  | SignedIn a => s <| account := a |>
  | Connection b => s <| connected := b |>
  end.

Definition run (es : list event) (s : queue) : queue := foldl step s es.
Definition reachable (s : queue) : Prop := exists es, s = run es new_queue.

(** [pendingUploads]. *)
Definition pendingUploads (s : queue) : list Z := filter (fun i => has_status s Queued i || has_status s Active i = true) (items s).

(** ** What is always true of the queue *)

Definition runs (s : queue) (i : Z) : Prop := fst <$> running s = Some i.
#[global] Instance runs_dec s i : Decision (runs s i).
Proof. unfold runs. apply _. Defined.

(** One upload, that is listed or not and whose transfer is awaited or not: one
    that waits or is active is listed; an awaited one is active, or cancelled (and perhaps queued
    again) with its signal aborted; any other has no controller; the promise is
    settled exactly when it has an outcome, which a listed upload has when it is done
    or cancelled, and every dismissed one. *)
Definition upload_ok (lst run : bool) (u : upload) : bool :=
  match status u with Queued => lst | Active => lst && run | _ => true end &&
  bool_decide (controller u =
    if run then match status u with Active => Some false | Queued | Canceled => Some true | _ => None end else None) &&
  (if run then bool_decide (is_Some (controller u)) else true) &&
  Bool.eqb (bool_decide (is_Some (outcome u))) (settled u) &&
  if lst then Bool.eqb (settled u) (bool_decide (status u = Done \/ status u = Canceled)) else settled u.

Record good (s : queue) : Prop := {
  items_once : NoDup (items s);
  items_known i : i ∈ items s -> is_Some (store s !! i);
  running_known i : runs s i -> is_Some (store s !! i);
  uploads_ok i u : store s !! i = Some u -> i <= sequence s /\ upload_ok (bool_decide (i ∈ items s)) (bool_decide (runs s i)) u = true
}.

(** A transfer runs whenever an upload waits. *)
Definition busy (s : queue) : Prop := running s = None -> next_queued s = None.

Lemma runs_one s i j : runs s i -> runs s j -> i = j.
Proof. unfold runs. congruence. Qed.

(** A change of one upload. *)
Lemma good_at i f s s' : good s ->
  store s' = alter f i (store s) -> sequence s' = sequence s ->
  NoDup (items s') -> (forall j, j ∈ items s' -> j ∈ items s) ->
  (forall j, j <> i -> (j ∈ items s' <-> j ∈ items s) /\ (runs s' j <-> runs s j)) ->
  (runs s' i -> is_Some (store s !! i)) ->
  (forall u, store s !! i = Some u -> upload_ok (bool_decide (i ∈ items s)) (bool_decide (runs s i)) u = true ->
             upload_ok (bool_decide (i ∈ items s')) (bool_decide (runs s' i)) (f u) = true) ->
  good s'.
Proof.
  intros [A B C D] Hst Hseq Hnd Hsub Hj Hi Hu. split; [done| | |].
  - intros j Hin. rewrite Hst, lookup_alter_is_Some. by apply B, Hsub.
  - intros j Hr. rewrite Hst, lookup_alter_is_Some. destruct (decide (j = i)) as [->|Hne]; [by apply Hi|]. by apply C, (Hj j Hne).
  - intros j u Hl. rewrite Hst, lookup_alter in Hl. rewrite Hseq. case_decide as E.
    + subst j. apply fmap_Some in Hl as (u0 & Hl & ->). destruct (D i u0 Hl). split; [done|by apply Hu].
    + destruct (D j u Hl) as [Hle Hok]. split; [done|]. destruct (Hj j ltac:(congruence)) as [H1 H2].
      rewrite (bool_decide_ext _ _ H1), (bool_decide_ext _ _ H2). done.
Qed.

Lemma good_upd i f s : good s ->
  (forall u, upload_ok (bool_decide (i ∈ items s)) (bool_decide (runs s i)) u = true ->
             upload_ok (bool_decide (i ∈ items s)) (bool_decide (runs s i)) (f u) = true) -> good (upd i f s).
Proof. intros Hg Hf. apply (good_at i f s); try done; [apply Hg|by apply Hg|auto]. Qed.

(** Every case of an upload. *)
Ltac upload_cases u :=
  destruct u as [? ? ? ? ? [] ? ? [[]|] [] [|]]; try discriminate; try reflexivity; try (intros; simplify_eq; discriminate).

Lemma finish_ok lst r u : upload_ok lst true u = true -> upload_ok lst false ((finish r u) <| controller := None |>) = true.
Proof. destruct lst, r; upload_cases u. Qed.

Lemma begin_ok run u : upload_ok true run u = true -> status u = Queued -> upload_ok true true (begin u) = true.
Proof. destruct run; upload_cases u. Qed.

Lemma cancel_ok lst run u : upload_ok lst run u = true ->
  upload_ok lst run (settle_with (Err canceledError) (abort (u <| status := Canceled |>))) = true.
Proof. destruct lst, run; upload_cases u. Qed.

Lemma retry_ok run u : upload_ok true run u = true -> status u = Failed \/ status u = Canceled ->
  upload_ok true run ((if settled u then settle u else u) <| status := Queued |> <| sent := 0 |> <| error := ""%string |>) = true.
Proof. destruct run; upload_cases u; by intros _ []. Qed.

Lemma dismiss_ok lst run u : upload_ok lst run u = true -> upload_ok false run (dismiss u) = true.
Proof. destruct lst, run; upload_cases u. Qed.

Lemma has_status_true s st i : has_status s st i = true <-> exists u, store s !! i = Some u /\ status u = st.
Proof. unfold has_status, status_of. rewrite bool_decide_eq_true, fmap_Some. naive_solver. Qed.

Lemma next_queued_spec s i : next_queued s = Some i -> i ∈ items s /\ exists u, store s !! i = Some u /\ status u = Queued.
Proof. unfold next_queued. intros [Hin Hq]%find_some. split; [by apply list_elem_of_In|]. by apply has_status_true. Qed.

Lemma pump_good s : good s -> good (pump s).
Proof.
  intros Hg. unfold pump. destruct (running s) as [|] eqn:Er; [done|]. destruct (next_queued s) as [i|] eqn:En; [|done].
  apply next_queued_spec in En as (Hin & u & Hu & Hq). unfold upd; cbn. rewrite lookup_alter_eq, Hu. cbn.
  apply (good_at i begin s); [done|done|done|apply Hg|done| |by eexists|]; cbn [items].
  - intros j Hne. split; [done|]. unfold runs. rewrite Er. cbn. split; [congruence|done].
  - intros u' Hu' Hok. rewrite bool_decide_eq_true_2 in Hok by done. rewrite !bool_decide_eq_true_2 by done.
    eapply begin_ok; [done|congruence].
Qed.

Lemma pump_busy s : busy (pump s).
Proof.
  unfold busy, pump. destruct (running s) as [|] eqn:Er; [by rewrite Er|].
  destruct (next_queued s) as [i|] eqn:En; [|by intros _].
  apply next_queued_spec in En as (Hin & u & Hu & Hq). unfold upd; cbn. by rewrite lookup_alter_eq, Hu.
Qed.

Lemma next_queued_None s : next_queued s = None <-> forall i, i ∈ items s -> has_status s Queued i = false.
Proof.
  unfold next_queued. split.
  - intros Hn i Hin. apply (find_none _ _ Hn). by apply list_elem_of_In.
  - intros Hn. destruct (List.find _ _) as [i|] eqn:E; [|done]. apply find_some in E as [Hin Hq].
    rewrite Hn in Hq by by apply list_elem_of_In. done.
Qed.

Lemma busy_less s s' : busy s -> running s' = running s ->
  (forall i, i ∈ items s' -> has_status s' Queued i = true -> i ∈ items s /\ has_status s Queued i = true) -> busy s'.
Proof.
  unfold busy. intros Hb Hr Hq Hn. rewrite Hr in Hn. specialize (Hb Hn). rewrite next_queued_None in *. intros i Hin.
  destruct (has_status s' Queued i) eqn:E; [|done]. destruct (Hq i Hin E) as [H1 H2]. by rewrite Hb in H2.
Qed.

Lemma status_upd i f s j : status_of (upd i f s) j = if decide (i = j) then status ∘ f <$> store s !! j else status_of s j.
Proof. unfold status_of, upd; cbn. rewrite lookup_alter. case_decide; [|done]. subst. by destruct (store s !! _). Qed.

(** A change that leaves no upload newly waiting. *)
Lemma busy_upd i f s : busy s -> (forall u, store s !! i = Some u -> status (f u) = Queued -> status u = Queued) -> busy (upd i f s).
Proof.
  intros Hb Hf. apply (busy_less s); [done|done|]. intros j Hin Hq. split; [done|]. unfold has_status in *.
  rewrite bool_decide_eq_true in Hq |- *. rewrite status_upd in Hq. case_decide; [subst|done].
  apply fmap_Some in Hq as (u & Hu & Hs). unfold status_of. rewrite Hu. cbn. by rewrite (Hf u Hu).
Qed.

Definition sound (s : queue) : Prop := good s /\ busy s.

Lemma pump_sound s : good s -> sound (pump s).
Proof. split; [by apply pump_good|apply pump_busy]. Qed.

Lemma listed_spec s i u : listed s i = Some u -> i ∈ items s /\ store s !! i = Some u.
Proof. unfold listed. by case_decide. Qed.

Lemma cancel_sound i s : sound s -> sound (cancelUpload i s).
Proof.
  intros [Hg Hb]. unfold cancelUpload. destruct (listed s i) as [u|] eqn:El; [|done]. destruct (waits u); [|done]. split.
  - apply good_upd; [done|]. intros u'. apply cancel_ok.
  - by apply busy_upd.
Qed.

Lemma retry_sound i s : sound s -> sound (retryUpload i s).
Proof.
  intros [Hg Hb]. unfold retryUpload. destruct (listed s i) as [u|] eqn:El; [|done]. case_decide as Hs; [|done].
  apply listed_spec in El as [Hin Hu]. apply pump_sound. set (f := fun u : upload => _).
  apply (good_at i f s); [done|done|done|apply Hg|done|done|by intros _; eexists|].
  intros u' Hu' Hok. assert (u' = u) as -> by congruence. revert Hok. unfold upd; cbn [items runs running set_field].
  rewrite bool_decide_eq_true_2 by done. intros Hok. by apply retry_ok.
Qed.

Lemma dismiss_sound i s : sound s -> sound (dismissUpload i s).
Proof.
  intros [Hg Hb]. unfold dismissUpload. case_decide as Hin; [|done]. split.
  - apply (good_at i dismiss s); cbn; [done|done|done|apply NoDup_filter, Hg| | | |].
    + intros j. rewrite list_elem_of_filter. by intros [_ ?].
    + intros j Hne. rewrite list_elem_of_filter. naive_solver.
    + intros _. by apply Hg.
    + intros u Hu Hok. rewrite (bool_decide_eq_false_2 (i ∈ filter _ _)) by (rewrite list_elem_of_filter; naive_solver).
      by eapply dismiss_ok.
  - apply (busy_less s); [done|done|]. cbn. intros j. rewrite list_elem_of_filter. intros [Hne Hj]. unfold has_status, status_of. cbn.
    by rewrite lookup_alter_ne.
Qed.

Lemma dismiss_each_sound ids s : sound s -> sound (dismiss_each ids s).
Proof. revert s. induction ids as [|i ids IH]; intros s Hs; [done|]. by apply IH, dismiss_sound. Qed.

Lemma settles_sound r s : sound s -> sound (settles r s).
Proof.
  intros [Hg Hb]. unfold settles. destruct (running s) as [[i p]|] eqn:Er; [|done]. apply pump_sound. set (f := fun u : upload => _).
  apply (good_at i f s); cbn; [done|done|done|apply Hg|done| |by intros|].
  - intros j Hne. split; [done|]. unfold runs. rewrite Er. cbn. split; [done|congruence].
  - intros u Hu. rewrite (bool_decide_eq_true_2 (runs s i)) by (unfold runs; by rewrite Er).
    rewrite (bool_decide_eq_false_2 (runs _ i)) by done. intros Hok. by apply finish_ok.
Qed.

Lemma enqueue_sound f t s : sound s -> sound (enqueueUpload f t s).
Proof.
  intros [[A B C D] Hb]. unfold enqueueUpload. set (u := Upload _ _ _ _ _ _ _ _ _ _ _). cbv zeta. apply pump_sound.
  assert (Hfresh : store s !! (sequence s + 1) = None).
  { destruct (store s !! (sequence s + 1)) as [v|] eqn:E; [|done]. destruct (D _ _ E). lia. }
  assert (Hnew : sequence s + 1 ∉ items s) by (intros Hin; destruct (B _ Hin); congruence).
  split; cbn.
  - apply NoDup_app. split_and!; [done| |apply NoDup_singleton]. by intros i Hi ->%list_elem_of_singleton.
  - intros i. rewrite elem_of_app, list_elem_of_singleton. intros [Hi| ->]; [|by rewrite lookup_insert_eq].
    rewrite lookup_insert_ne by congruence. by apply B.
  - intros i Hr. rewrite lookup_insert_is_Some. right. split; [|by apply C]. intros <-. destruct (C _ Hr). congruence.
  - intros i v. rewrite lookup_insert_Some. intros [[<- <-]|[Hne Hv]].
    + split; [lia|]. rewrite (bool_decide_eq_true_2 (_ ∈ _)) by (rewrite elem_of_app, list_elem_of_singleton; auto).
      rewrite (bool_decide_eq_false_2 (runs _ _)); [done|]. intros Hr. destruct (C _ Hr). congruence.
    + destruct (D i v Hv) as [Hle Hok]. split; [lia|]. rewrite <- Hok. f_equal. apply bool_decide_ext.
      rewrite elem_of_app, list_elem_of_singleton. naive_solver.
Qed.

Lemma report_sound f s : (forall u, status (f u) = status u) -> (forall lst run u, upload_ok lst run (f u) = upload_ok lst run u) ->
  sound s -> sound (report f s).
Proof.
  intros Hs Ho [Hg Hb]. unfold report. destruct (running s) as [[i []]|]; try done. split.
  - apply good_upd; [done|]. intros u. by rewrite Ho.
  - apply busy_upd; [done|]. intros u _. by rewrite Hs.
Qed.

Lemma step_sound e s : sound s -> sound (step s e).
Proof.
  intros Hs. destruct e; cbn [step].
  - by apply enqueue_sound.
  - by apply cancel_sound.
  - by apply retry_sound.
  - by apply dismiss_sound.
  - by apply dismiss_each_sound.
  - by apply dismiss_each_sound.
  - by apply report_sound.
  - by apply report_sound.
  - by apply settles_sound.
  - destruct Hs as [[A B C D] Hb]. by split.
  - destruct Hs as [[A B C D] Hb]. by split.
Qed.

Lemma run_sound es s : sound s -> sound (run es s).
Proof. revert s. induction es as [|e es IH]; intros s Hs; [done|]. by apply IH, step_sound. Qed.

Lemma new_sound : sound new_queue.
Proof. split; [|by intros]. split; cbn; [constructor|by intros i ?%elem_of_nil|by intros|by intros i u; rewrite lookup_empty]. Qed.

Lemma reachable_sound s : reachable s -> sound s.
Proof. intros [es ->]. apply run_sound, new_sound. Qed.

(** ** Every upload gets its turn *)

(** The list up to [i]. *)
Fixpoint until (i : Z) (l : list Z) : list Z :=
  match l with
  | [] => []
  | j :: l => if decide (j = i) then [] else j :: until i l
  end.

Definition queued (s : queue) (j : Z) : Prop := has_status s Queued j = true.
#[global] Instance queued_dec s j : Decision (queued s j).
Proof. unfold queued. apply _. Defined.

(** How many transfers end before [i] starts, at most. *)
Definition ahead (s : queue) (i : Z) : nat :=
  length (filter (queued s) (until i (items s))) + match running s with Some _ => 1 | None => 0 end.

Definition is_settles (e : event) : bool := match e with Settles _ => true | _ => false end.
Definition settles_in (es : list event) : nat := length (filter (fun e => is_settles e = true) es).

(** Retries, of which each may put one upload that failed or was cancelled back in front. *)
Definition is_retry (e : event) : bool := match e with Retry _ => true | _ => false end.
Definition retries_in (es : list event) : nat := length (filter (fun e => is_retry e = true) es).

(** The user does not take [i] back, by itself or with all uploads of the account. *)
Definition leaves (i : Z) (e : event) : Prop :=
  match e with Cancel j | Dismiss j => j <> i | Discard => False | _ => True end.

Lemma until_app i l r : i ∈ l -> until i (l ++ r) = until i l.
Proof.
  induction l as [|j l IH]; [by intros ?%elem_of_nil|]. rewrite elem_of_cons. cbn [app until]. intros Hi.
  case_decide; [done|]. rewrite IH; [done|]. destruct Hi; [congruence|done].
Qed.

Lemma until_filter i k l : k <> i -> until i (filter (fun j => j <> k) l) = filter (fun j => j <> k) (until i l).
Proof.
  intros Hk. induction l as [|j l IH]; [done|]. rewrite filter_cons. cbn [until].
  destruct (decide (j <> k)) as [Hj|Hj]; cbn [until]; destruct (decide (j = i)) as [Hi|Hi].
  - done.
  - rewrite filter_cons, decide_True by done. by f_equal.
  - naive_solver.
  - rewrite filter_cons, decide_False by done. done.
Qed.

Lemma filter_length_le {A} (P Q : A -> Prop) `{forall x, Decision (P x), forall x, Decision (Q x)} l :
  (forall x, x ∈ l -> P x -> Q x) -> (length (filter P l) <= length (filter Q l))%nat.
Proof.
  induction l as [|x l IH]; intros Hpq; [done|]. rewrite !filter_cons.
  assert (IHx : (length (filter P l) <= length (filter Q l))%nat) by (apply IH; intros y Hy; apply Hpq; by right).
  destruct (decide (P x)) as [Hp|Hp], (decide (Q x)) as [Hq|Hq]; cbn [length]; try lia. exfalso. by apply Hq, Hpq; [left|].
Qed.

Lemma filter_length_lt {A} (P Q : A -> Prop) `{forall x, Decision (P x), forall x, Decision (Q x)} l y :
  (forall x, x ∈ l -> P x -> Q x) -> y ∈ l -> Q y -> ~ P y -> (length (filter P l) < length (filter Q l))%nat.
Proof.
  intros Hpq Hy HQ HP. apply list_elem_of_split in Hy as (l1 & l2 & ->). rewrite !filter_app, !length_app.
  rewrite !filter_cons, (decide_False (P := P y)), (decide_True (P := Q y)) by done. cbn [length].
  pose proof (filter_length_le P Q l1 ltac:(intros x Hx; apply Hpq; set_solver)).
  pose proof (filter_length_le P Q l2 ltac:(intros x Hx; apply Hpq; set_solver)). lia.
Qed.

Lemma until_sub i l j : j ∈ until i l -> j ∈ l /\ j <> i.
Proof. induction l as [|k l IH]; cbn [until]; [by intros ?%elem_of_nil|]. case_decide; set_solver. Qed.

Lemma find_until (P : Z -> bool) i j l : i ∈ l -> P i = true -> List.find P l = Some j -> j <> i -> j ∈ until i l.
Proof.
  induction l as [|k l IH]; [by intros ?%elem_of_nil|]. rewrite elem_of_cons. cbn [List.find until]. intros Hi HP.
  destruct (P k) eqn:E.
  - intros [= ->] Hne. rewrite decide_False by done. left.
  - intros Hf Hne. rewrite decide_False by congruence. right. apply IH; [destruct Hi; [congruence|done]|done|done|done].
Qed.

Lemma filter_queued_store s s' l : store s' = store s -> length (filter (queued s') l) = length (filter (queued s) l).
Proof.
  intros E. assert (Hq : forall j, queued s' j <-> queued s j) by (intros j; unfold queued, has_status, status_of; by rewrite E).
  apply Nat.le_antisymm; apply filter_length_le; intros j _; apply Hq.
Qed.

(** [i] waits, behind no more uploads than before. *)
Record waits_on (i : Z) (s s' : queue) : Prop := {
  still_listed : i ∈ items s';
  still_queued : queued s' i;
  no_further : (ahead s' i <= ahead s i)%nat
}.

Lemma waits_on_trans i s1 s2 s3 : waits_on i s1 s2 -> waits_on i s2 s3 -> waits_on i s1 s3.
Proof. intros [A B C] [A' B' C']. split; [done|done|lia]. Qed.

(** The list keeps its beginning, and nothing of it newly waits. *)
Lemma waits_on_less i s s' : i ∈ items s' -> queued s' i -> running s' = running s ->
  (length (filter (queued s') (until i (items s'))) <= length (filter (queued s) (until i (items s))))%nat -> waits_on i s s'.
Proof. intros Hl Hq Hr Hle. split; [done|done|]. unfold ahead. rewrite Hr. lia. Qed.

Lemma queued_upd i f s j : queued (upd i f s) j <-> if decide (i = j) then exists u, store s !! j = Some u /\ status (f u) = Queued else queued s j.
Proof.
  unfold queued, has_status. rewrite bool_decide_eq_true, status_upd. destruct (decide (i = j)).
  - rewrite fmap_Some. cbn. naive_solver.
  - by rewrite bool_decide_eq_true.
Qed.

Lemma queued_store s j : queued s j <-> exists u, store s !! j = Some u /\ status u = Queued.
Proof. apply has_status_true. Qed.

Lemma upd_waits i k f s : i ∈ items s -> queued s i -> (k = i -> forall u, status u = Queued -> status (f u) = Queued) ->
  (forall u, status (f u) = Queued -> status u = Queued) -> waits_on i s (upd k f s).
Proof.
  intros Hl Hq Hi Hf. apply waits_on_less; [done| |done|].
  - apply queued_upd. case_decide as E; [subst|done]. apply queued_store in Hq as (u & Hu & Hs). exists u. auto.
  - apply filter_length_le. intros j _ Hj%queued_upd. case_decide; [|done]. destruct Hj as (u & Hu & Hs). apply queued_store. eauto.
Qed.

Lemma dismiss_waits i k s : i ∈ items s -> queued s i -> k <> i -> waits_on i s (dismissUpload k s).
Proof.
  intros Hl Hq Hk. unfold dismissUpload. case_decide; [|by split]. set (s' := upd k dismiss s).
  assert (Hsame : forall j, j <> k -> queued (s' <| items := filter (fun j => j <> k) (items s) |>) j <-> queued s j).
  { intros j Hj. unfold queued, has_status, status_of. cbn. by rewrite lookup_alter_ne. }
  apply waits_on_less; cbn [items running set_field]; [by apply list_elem_of_filter|by apply Hsame; [congruence|]|done|].
  cbn. rewrite until_filter by done. rewrite list_filter_filter. apply filter_length_le. intros j _ [Hj Hne]. by apply Hsame.
Qed.

Lemma dismiss_each_waits i ids : forall s, i ∈ items s -> queued s i -> i ∉ ids -> waits_on i s (dismiss_each ids s).
Proof.
  induction ids as [|k ids IH]; intros s Hl Hq Hi; [by split|]. rewrite not_elem_of_cons in Hi. destruct Hi as [Hne Hi].
  pose proof (dismiss_waits i k s Hl Hq ltac:(congruence)) as Hw. eapply waits_on_trans; [exact Hw|]. apply IH; [apply Hw|apply Hw|done].
Qed.

Lemma until_nodup i l : NoDup l -> NoDup (until i l).
Proof.
  induction 1 as [|j l Hj Hl IH]; cbn [until]; [apply NoDup_nil_2|]. case_decide; [apply NoDup_nil_2|]. apply NoDup_cons. split; [|done].
  by intros [? _]%until_sub.
Qed.

(** One more element of a list without repetitions. *)
Lemma filter_length_one {A} (P Q : A -> Prop) `{forall x, Decision (P x), forall x, Decision (Q x)} l y : NoDup l ->
  (forall x, x ∈ l -> x <> y -> P x -> Q x) -> (length (filter P l) <= S (length (filter Q l)))%nat.
Proof.
  induction 1 as [|x l Hx Hl IH]; intros Hpq; [cbn; lia|]. rewrite !filter_cons.
  assert (IHx : (length (filter P l) <= S (length (filter Q l)))%nat) by (apply IH; intros z Hz; apply Hpq; by right).
  destruct (decide (P x)) as [Hp|Hp], (decide (Q x)) as [Hq|Hq]; cbn [length]; try lia.
  assert (Hr : (length (filter P l) <= length (filter Q l))%nat); [|lia]. apply filter_length_le. intros z Hz Hpz. apply Hpq; [by right| |done].
  intros ->. apply Hq, Hpq; [by left| |done]. by intros ->.
Qed.

Lemma retry_waits i k s : good s -> is_Some (running s) -> i ∈ items s -> queued s i ->
  i ∈ items (retryUpload k s) /\ queued (retryUpload k s) i /\ (ahead (retryUpload k s) i <= S (ahead s i))%nat.
Proof.
  intros Hg [r Hr] Hl Hq. assert (Hs : i ∈ items s /\ queued s i /\ (ahead s i <= S (ahead s i))%nat) by (split_and!; [done|done|lia]).
  unfold retryUpload. destruct (listed s k) as [u|] eqn:Ek; [|exact Hs]. case_decide as Hu; [|exact Hs]. apply listed_spec in Ek as [_ Ek]. cbv zeta.
  set (f := fun u : upload => _). unfold pump. change (running (upd k f s)) with (running s). rewrite Hr.
  assert (Hk : k <> i). { intros ->. apply queued_store in Hq as (v & Hv & Hs'). rewrite Ek in Hv. injection Hv as ->. destruct Hu; congruence. }
  split_and!; [done|by apply queued_upd; rewrite decide_False|]. unfold ahead. change (running (upd k f s)) with (running s). change (items (upd k f s)) with (items s).
  pose proof (filter_length_one (queued (upd k f s)) (queued s) (until i (items s)) k (until_nodup _ _ (items_once s Hg))) as Hn. rewrite Hr.
  specialize (Hn ltac:(intros x _ Nx Hx; apply queued_upd in Hx; by rewrite decide_False in Hx)). lia.
Qed.

Lemma enqueue_waits i f t s : good s -> is_Some (running s) -> i ∈ items s -> queued s i -> waits_on i s (enqueueUpload f t s).
Proof.
  intros Hg [r Hr] Hl Hq. unfold enqueueUpload. set (u := Upload _ _ _ _ _ _ _ _ _ _ _). cbv zeta. unfold pump at 1.
  cbn [running set_field]. cbn. rewrite Hr.
  assert (Hold : forall j, j ∈ items s -> queued (s <| sequence := sequence s + 1 |> <| store := <[sequence s + 1 := u]> (store s) |>
                          <| items := items s ++ [sequence s + 1] |>) j <-> queued s j).
  { intros j Hj. unfold queued, has_status, status_of. cbn. rewrite lookup_insert_ne; [done|]. intros <-.
    destruct (items_known s Hg _ Hj) as [v Hv]. destruct (uploads_ok s Hg _ _ Hv). lia. }
  apply waits_on_less; cbn; [apply elem_of_app; by left|by apply Hold|by rewrite Hr|]. rewrite until_app by done.
  apply filter_length_le. intros j Hj. by apply Hold, (until_sub i).
Qed.

Lemma finish_queued r u : status ((finish r u) <| controller := None |>) = Queued -> status u = Queued.
Proof. unfold finish, settle_with. destruct r as [v|e]; [done|]. cbn. destruct (decide (status u = Active)); [|done]. by destruct (decide (controller u = Some true)). Qed.

(** When a transfer ends, [i] starts, or one upload in front of it does. *)
Lemma settles_waits i r s : good s -> is_Some (running s) -> i ∈ items s -> queued s i ->
  status_of (settles r s) i = Some Active \/ status_of (settles r s) i = Some Done \/
  (i ∈ items (settles r s) /\ queued (settles r s) i /\ (S (ahead (settles r s) i) <= ahead s i)%nat).
Proof.
  intros Hg [[k p] Er] Hl Hq. unfold settles. rewrite Er. set (f := fun u : upload => _). set (s1 := upd k f s <| running := None |>).
  assert (Hs1 : forall j, queued s1 j -> queued s j).
  { intros j Hj. apply (queued_upd k f s j) in Hj. case_decide; [|done]. destruct Hj as (u & Hu & Hs). apply queued_store. exists u. split; [done|].
    revert Hs. apply finish_queued. }
  destruct (decide (queued s1 i)) as [Hi|Hi].
  - unfold pump. change (running s1) with (@None (Z * phase)).
    assert (Hn : exists j, next_queued s1 = Some j).
    { destruct (next_queued s1) as [j|] eqn:En; [by eexists|]. rewrite next_queued_None in En. specialize (En i Hl). unfold queued in Hi. congruence. }
    destruct Hn as [j En]. rewrite En. pose proof (next_queued_spec _ _ En) as (Hjl & uj & Huj & Hjq).
    assert (Hst : forall m, status_of (upd j begin s1) m = if decide (j = m) then Some Active else status_of s1 m).
    { intros m. rewrite status_upd. case_decide; [|done]. subst. by rewrite Huj. }
    assert (Ej : store (upd j begin s1) !! j = Some (begin uj)) by (cbn; cbn in Huj; by rewrite lookup_alter_eq, Huj).
    cbv zeta. rewrite Ej. cbn [fmap option_fmap option_map].
    destruct (decide (j = i)) as [->|Hne]; [left|right; right; split_and!; [done| |]].
    + change (status_of (upd i begin s1) i = Some Active). by rewrite Hst, decide_True.
    + change (has_status (upd j begin s1) Queued i = true). unfold has_status. by rewrite Hst, decide_False.
    + unfold ahead. rewrite Er. cbn [running set_field]. assert (Hlt : (length (filter (queued (upd j begin s1)) (until i (items s))) < length (filter (queued s) (until i (items s))))%nat).
      { apply (filter_length_lt _ _ _ j).
        - intros m _ Hm. apply Hs1. unfold queued, has_status in *. rewrite Hst in Hm. case_decide; [|done]. by apply bool_decide_eq_true in Hm.
        - eapply find_until; [done|exact Hi|exact En|done].
        - apply Hs1. apply queued_store. by exists uj.
        - unfold queued, has_status. rewrite Hst, decide_True by done. done. }
      rewrite (filter_queued_store (upd j begin s1)) by done. cbn in Hlt |- *. lia.
  - right. left. assert (k = i) as ->.
    { destruct (decide (k = i)) as [|Hne]; [done|]. exfalso. apply Hi. apply (queued_upd k f s i). by rewrite decide_False. }
    apply queued_store in Hq as (u & Hu & Hs).
    assert (Hf : status (f u) = Queued \/ status (f u) = Done).
    { unfold f. cbn. unfold finish, settle_with. destruct p as [e|]; cbn; [left; rewrite decide_False by congruence; done|].
      destruct r as [[st m]|e]; cbn; [by right|]. left. by rewrite decide_False by congruence. }
    destruct Hf as [Hf|Hf]; [exfalso; apply Hi; apply (queued_upd i f s i); rewrite decide_True by done; eauto|].
    assert (Hd : status_of s1 i = Some Done) by (unfold status_of; cbn; rewrite lookup_alter_eq, Hu; cbn; by rewrite <- Hf).
    unfold pump. change (running s1) with (@None (Z * phase)). destruct (next_queued s1) as [j|] eqn:En; [|done]. cbv zeta.
    pose proof (next_queued_spec _ _ En) as (_ & uj & Huj & Hjq).
    match goal with |- status_of ?x i = _ => change (status_of (upd j begin s1) i = Some Done) end. rewrite status_upd. case_decide; [|done].
    subst. unfold status_of in Hd. rewrite Huj in Hd. cbn in Hd. congruence.
Qed.

Lemma leaves_step i e s : sound s -> leaves i e -> i ∈ items s -> queued s i ->
  status_of (step s e) i = Some Active \/ status_of (step s e) i = Some Done \/
  (i ∈ items (step s e) /\ queued (step s e) i /\
   (ahead (step s e) i + (if is_settles e then 1 else 0) <= ahead s i + (if is_retry e then 1 else 0))%nat).
Proof.
  intros [Hg Hb] He Hl Hq.
  assert (Hr : is_Some (running s)).
  { destruct (running s) as [r|] eqn:Er; [by eexists|]. specialize (Hb Er). rewrite next_queued_None in Hb. specialize (Hb i Hl). unfold queued in Hq. congruence. }
  assert (Hw : forall s', waits_on i s s' -> is_settles e = false ->
    status_of s' i = Some Active \/ status_of s' i = Some Done \/ (i ∈ items s' /\ queued s' i /\
      (ahead s' i + (if is_settles e then 1 else 0) <= ahead s i + (if is_retry e then 1 else 0))%nat)).
  { intros s' [A B C] ->. right. right. split_and!; [done|done|lia]. }
  assert (Hrefl : waits_on i s s) by by split.
  assert (Hrep : forall f, (forall u, status (f u) = status u) -> waits_on i s (report f s)).
  { intros f Hf. unfold report. destruct (running s) as [[k []]|]; [done| |done]. apply upd_waits; [done|done| |]; intros; [by rewrite Hf|congruence]. }
  destruct e as [f t|k|k|k| | |n|n|r|a|b]; cbn [step leaves] in *; try done.
  - apply Hw; [by apply enqueue_waits|done].
  - apply Hw; [|done]. unfold cancelUpload. destruct (listed s k); [|done]. destruct (waits _); [|done]. by apply upd_waits.
  - right. right. destruct (retry_waits i k s Hg Hr Hl Hq) as (A & B & C). cbn [is_settles is_retry]. split_and!; [done|done|lia].
  - apply Hw; [by apply dismiss_waits|done].
  - apply Hw; [|done]. apply dismiss_each_waits; [done|done|]. rewrite list_elem_of_filter. intros [Hd _]. apply has_status_true in Hd as (u & Hu & Hd).
    apply queued_store in Hq as (v & Hv & Hs). congruence.
  - apply Hw; [by apply Hrep|done].
  - apply Hw; [by apply Hrep|done].
  - destruct (settles_waits i r s Hg Hr Hl Hq) as [H|[H|(A & B & C)]]; [by left|by right; left|]. right. right. cbn [is_settles is_retry]. split_and!; [done|done|lia].
  - apply Hw; [by split|done].
  - apply Hw; [by split|done].
Qed.

(** C23: no upload waits for ever.  Whatever else happens, as long as the user does
    not take it back, an upload that waits is started (or its cancelled transfer still
    goes through) before as many transfers have ended as are in front of it and were
    retried meanwhile, which may put them in front; the connection and the other
    transfers may fail. *)
Theorem upload_gets_its_turn s i es :
  reachable s -> i ∈ items s -> status_of s i = Some Queued -> Forall (leaves i) es -> (ahead s i + retries_in es <= settles_in es)%nat ->
  exists es1 es2, es = es1 ++ es2 /\ (status_of (run es1 s) i = Some Active \/ status_of (run es1 s) i = Some Done).
Proof.
  intros Hr%reachable_sound Hl Hst. assert (Hq : queued s i) by (unfold queued, has_status; by apply bool_decide_eq_true_2).
  clear Hst. revert s Hr Hl Hq. induction es as [|e es IH]; intros s Hs Hl Hq Hes Hn.
  - exfalso. destruct Hs as [_ Hb]. unfold ahead, settles_in, retries_in in Hn. cbn in Hn. destruct (running s) eqn:Er; [lia|].
    specialize (Hb Er). rewrite next_queued_None in Hb. specialize (Hb i Hl). unfold queued in Hq. congruence.
  - apply Forall_cons in Hes as [He Hes]. destruct (leaves_step i e s Hs He Hl Hq) as [Ha|[Ha|(A & B & C)]]; [by exists [e], es; auto|by exists [e], es; auto|].
    destruct (IH (step s e)) as (es1 & es2 & -> & H); [by apply step_sound|done|exact B|done| |].
    + unfold settles_in, retries_in in *. rewrite !filter_cons in Hn.
      destruct e; cbn [is_settles is_retry] in *; repeat match type of Hn with context [decide ?P] => destruct (decide P); try done end; cbn [length] in Hn; lia.
    + by exists (e :: es1), es2.
Qed.

(** ** Whose uploads run *)

(** Where a transfer of [i] is under way for its owner. *)
Definition started_for (s : queue) (i : Z) : Prop :=
  exists u, store s !! i = Some u /\ owner u = account s /\ connected s = true.

Lemma pump_owner s i : running (pump s) = Some (i, Transferring) -> running s = Some (i, Transferring) \/ started_for (pump s) i.
Proof.
  unfold pump. destruct (running s) as [|] eqn:Er; [by left; congruence|]. destruct (next_queued s) as [j|] eqn:En; [|by left; congruence].
  pose proof (next_queued_spec _ _ En) as (_ & u & Hu & _). set (s' := upd j begin s).
  assert (E : store s' !! j = Some (begin u)) by (unfold s', upd; cbn; by rewrite lookup_alter_eq, Hu). cbv zeta. rewrite E. cbn. intros [= -> Ht]. right.
  unfold transfer_start in Ht. case_bool_decide as Ho; [done|]. destruct (connected s') eqn:Ec; [|done]. exists (begin u). cbn. split_and!; [exact E| |exact Ec].
  cbn in Ho. by symmetry.
Qed.

Lemma dismiss_each_running ids s : running (dismiss_each ids s) = running s.
Proof.
  revert s. induction ids as [|i ids IH]; intros s; [done|]. cbn [dismiss_each foldl]. unfold dismiss_each in IH. rewrite IH.
  unfold dismissUpload. by case_decide.
Qed.

Lemma report_running f s : running (report f s) = running s.
Proof. unfold report. by destruct (running s) as [[? []]|] eqn:E; rewrite ?E. Qed.

(** A transfer starts only for the account that queued it, while it is signed
    in and connected: whenever a turn leaves a transfer under way that was not under
    way before, the account of that moment is the owner of the upload. *)
Theorem transfers_for_owner s e i :
  running (step s e) = Some (i, Transferring) -> running s = Some (i, Transferring) \/ started_for (step s e) i.
Proof.
  destruct e as [f t|k|k|k| | |n|n|r|a|b]; cbn [step].
  - apply pump_owner.
  - unfold cancelUpload. destruct (listed s k); [|auto]. destruct (waits _); auto.
  - unfold retryUpload. destruct (listed s k); [|auto]. case_decide; [|auto]. intros Hp%pump_owner. exact Hp.
  - unfold dismissUpload. case_decide; auto.
  - unfold clearFinished. rewrite dismiss_each_running. auto.
  - unfold discardUploads. rewrite dismiss_each_running. auto.
  - rewrite report_running. auto.
  - rewrite report_running. auto.
  - unfold settles. destruct (running s) as [[k p]|] eqn:E; [|by rewrite E]. intros [H|H]%pump_owner; [done|by right].
  - auto.
  - auto.
Qed.

Lemma discard_each ids : forall s, (forall i, i ∈ items s -> i ∈ ids) -> items (dismiss_each ids s) = [].
Proof.
  induction ids as [|k ids IH]; intros s Hin.
  - destruct (items s) as [|i l] eqn:E; [exact E|]. exfalso. specialize (Hin i ltac:(left)). by apply elem_of_nil in Hin.
  - apply IH. intros i Hi. unfold dismissUpload in Hi. case_decide as Hk.
    + cbn in Hi. apply list_elem_of_filter in Hi as [Hne Hi]. apply Hin, elem_of_cons in Hi; naive_solver.
    + pose proof (Hin i Hi) as Hi'. apply elem_of_cons in Hi' as [->|Hi']; [done|exact Hi'].
Qed.

Lemma dismiss_each_known ids : forall s i, is_Some (store (dismiss_each ids s) !! i) -> is_Some (store s !! i).
Proof.
  induction ids as [|k ids IH]; intros s i H; [done|]. apply IH in H. unfold dismissUpload in H. case_decide; [|done].
  cbn in H. by apply lookup_alter_is_Some in H.
Qed.

Definition adds (e : event) : bool := match e with Enqueue _ _ => true | _ => false end.

(** Nothing of the uploads of before can start. *)
Record gone (s : queue) : Prop := {
  none_listed : items s = [];
  all_settled i u : store s !! i = Some u -> settled u = true;
  only_aborted i p u : running s = Some (i, p) -> store s !! i = Some u -> controller u = Some true
}.

Lemma sound_gone s : sound s -> items s = [] -> gone s.
Proof.
  intros [[A B C D] _] Hi. split; [done| |].
  - intros i u Hu. destruct (D i u Hu) as [_ Hok]. rewrite (bool_decide_eq_false_2 (i ∈ items s)) in Hok by (rewrite Hi; apply not_elem_of_nil).
    unfold upload_ok in Hok. by apply andb_true_iff in Hok as [_ Hok].
  - intros i p u Hr Hu. destruct (D i u Hu) as [_ Hok]. rewrite (bool_decide_eq_false_2 (i ∈ items s)) in Hok by (rewrite Hi; apply not_elem_of_nil).
    rewrite (bool_decide_eq_true_2 (runs s i)) in Hok by (unfold runs; by rewrite Hr). unfold upload_ok in Hok. rewrite !andb_true_iff in Hok.
    destruct Hok as [[[[H1 H2] H3] _] _]. apply bool_decide_eq_true in H2, H3. destruct (status u); cbn in H1, H2; try done; rewrite H2 in H3; by apply is_Some_None in H3.
Qed.

Lemma pump_gone s : items s = [] -> pump s = s.
Proof. intros Hi. unfold pump, next_queued. rewrite Hi. by destruct (running s). Qed.

Lemma dismiss_each_gone ids s : items s = [] -> dismiss_each ids s = s.
Proof. induction ids as [|k ids IH]; intros Hi; [done|]. cbn. unfold dismissUpload. rewrite Hi. by apply IH. Qed.

(** Without a new upload, nothing is listed or started again. *)
Lemma gone_step e s : items s = [] -> adds e = false ->
  items (step s e) = [] /\ (forall i p, running (step s e) = Some (i, p) -> running s = Some (i, p)) /\ (forall i, is_Some (store (step s e) !! i) -> is_Some (store s !! i)).
Proof.
  intros Hi He. destruct e as [f t|k|k|k| | |n|n|r|a|b]; cbn [step]; try done.
  - unfold cancelUpload, listed. by rewrite Hi.
  - unfold retryUpload, listed. by rewrite Hi.
  - unfold dismissUpload. by rewrite Hi.
  - unfold clearFinished. by rewrite dismiss_each_gone.
  - unfold discardUploads. by rewrite dismiss_each_gone.
  - rewrite report_running. unfold report. destruct (running s) as [[? []]|]; try done. split_and!; [done|done|]. intros i. cbn. apply lookup_alter_is_Some.
  - rewrite report_running. unfold report. destruct (running s) as [[? []]|]; try done. split_and!; [done|done|]. intros i. cbn. apply lookup_alter_is_Some.
  - unfold settles. destruct (running s) as [[k p]|] eqn:E; [|by rewrite E]. rewrite pump_gone by done. cbn. split_and!; [done|done|].
    intros i. apply lookup_alter_is_Some.
Qed.

(** Signing out leaves no upload behind.  After [discardUploads], as long as
    nothing new is queued, the list stays empty, every promise of an upload is settled,
    nothing is started again, and the transfer that may still be under way is the one
    of before, with its signal aborted. *)
Theorem discarded_gone s es :
  reachable s -> Forall (fun e => adds e = false) es ->
  gone (run es (discardUploads s)) /\
  forall i p, running (run es (discardUploads s)) = Some (i, p) -> running s = Some (i, p).
Proof.
  intros Hs%reachable_sound Hes. assert (H0 : sound (discardUploads s)) by by apply dismiss_each_sound.
  assert (Hd : items (discardUploads s) = []) by by apply discard_each.
  assert (Hr : forall i p, running (discardUploads s) = Some (i, p) -> running s = Some (i, p)) by (intros i p; unfold discardUploads; by rewrite dismiss_each_running).
  revert H0 Hd Hr. generalize (discardUploads s). induction Hes as [|e es He _ IH]; intros s' Hsd Hd Hr; [by split; [apply sound_gone|]|].
  destruct (gone_step e s' Hd He) as (A & B & _). apply (IH (step s' e)); [by apply step_sound|done|]. intros i p Hp. by apply Hr, B.
Qed.

(** One upload at a time.  At most one upload is active, and its transfer is the
    one that is awaited; while an upload waits, a transfer is awaited; a promise is
    settled exactly when it has an outcome, and for a listed upload exactly when it is
    done or cancelled: a failed one can still be settled by a retry. *)
Theorem one_upload_at_a_time s : reachable s ->
  (forall i, status_of s i = Some Active -> exists p, running s = Some (i, p)) /\
  (forall i, i ∈ items s -> status_of s i = Some Queued -> exists j p, running s = Some (j, p)) /\
  (forall i u, store s !! i = Some u -> (settled u = true <-> is_Some (outcome u)) /\
     (i ∈ items s -> (settled u = true <-> status u = Done \/ status u = Canceled))).
Proof.
  intros [[A B C D] Hb]%reachable_sound. split_and!.
  - intros i Ha. unfold status_of in Ha. apply fmap_Some in Ha as (u & Hu & Ha). destruct (D i u Hu) as [_ Hok]. unfold upload_ok in Hok.
    rewrite <- Ha in Hok. rewrite !andb_true_iff, !bool_decide_eq_true in Hok. destruct Hok as [[[[[_ Hr] _] _] _] _]. unfold runs in Hr.
    apply fmap_Some in Hr as ([j p] & Hr & ->). by exists p.
  - intros i Hi Hq. destruct (running s) as [[j p]|] eqn:E; [by exists j, p|]. specialize (Hb E). rewrite next_queued_None in Hb. specialize (Hb i Hi).
    unfold has_status in Hb. by rewrite Hq in Hb.
  - intros i u Hu. destruct (D i u Hu) as [_ Hok]. unfold upload_ok in Hok. rewrite !andb_true_iff in Hok. destruct Hok as [[_ Ho] Hl].
    apply Bool.eqb_prop in Ho. split; [rewrite <- Ho; apply bool_decide_eq_true|]. intros Hi. rewrite bool_decide_eq_true_2 in Hl by done.
    apply Bool.eqb_prop in Hl. rewrite Hl. apply bool_decide_eq_true.
Qed.

(** ** Concrete queues *)

Module UploadDemo.
Definition doc : upload_file := File "doc.txt" [1; 2; 3].
Definition here : given_target := Given (Some 4) None false None.
Definition opened : list event := [SignedIn "alice"; Connection true].
Definition two : queue := run (opened ++ [Enqueue doc here; Enqueue doc here]) new_queue.
Definition gone_wrong : result string (string * list Z) := Err "upload failed"%string.

Lemma two_reachable : reachable two.
Proof. eexists. reflexivity. Qed.

Lemma upload_gets_its_turn_witness : exists es1 es2,
  [Connection false; Settles gone_wrong; Retry 1; Enqueue doc here; Settles gone_wrong] = es1 ++ es2 /\ (status_of (run es1 two) 2 = Some Active \/ status_of (run es1 two) 2 = Some Done).
Proof.
  apply (upload_gets_its_turn two 2 [Connection false; Settles gone_wrong; Retry 1; Enqueue doc here; Settles gone_wrong]).
  - exact two_reachable.
  - right. left.
  - reflexivity.
  - repeat constructor.
  - vm_compute. exact (le_n _).
Defined.

Lemma transfers_for_owner_witness : started_for (run (opened ++ [Enqueue doc here]) new_queue) 1.
Proof.
  destruct (transfers_for_owner (run opened new_queue) (Enqueue doc here) 1 eq_refl) as [H|H]; [discriminate H|exact H].
Defined.

Lemma discarded_gone_witness : gone (run [Settles gone_wrong; Retry 1; Connection true] (discardUploads two)).
Proof.
  refine (proj1 (discarded_gone two [Settles gone_wrong; Retry 1; Connection true] two_reachable _)). repeat constructor.
Defined.

Lemma one_upload_at_a_time_witness : exists p, running two = Some (1, p).
Proof. exact (proj1 (one_upload_at_a_time two two_reachable) 1 eq_refl). Defined.

(** A cancelled transfer that had already gone through: the upload is done, but the
    promise its caller holds was rejected. *)
Example cancelled_but_done :
  (fun u => (status u, outcome u)) <$> store (run (opened ++ [Enqueue doc here; Cancel 1; Settles (Ok (""%string, []))]) new_queue) !! 1 =
  Some (Done, Some (Err canceledError)).
Proof. vm_compute. reflexivity. Qed.
End UploadDemo.
