(* ===== verification/Connection.v ===== *)
(** * The control connection ([mobile/src/core/connection.js])

    One WebSocket carries requests and unsolicited frames.  The state machine
    below has one step per entry point of the class: [request], a request's
    timer, [send], [#receive] with [#dispatch], [close], the socket's own
    [onclose], and [probe].  Promises are named by request numbers; settling one
    is an output of the step. *)

From stdpp Require Import base list strings sorting.
From Stdlib Require Import ZArith Lia.
From S2P Require Import Prelude Json Frame.

(** The fields [ProtocolError] copies from an Error frame. *)
Record ProtocolError := {
  pe_message : json;
  pe_code : option json;
  pe_retryAfterMS : option json;
  pe_devicesStale : bool }.

Definition mkProtocolError (error : json) : ProtocolError := {|
  pe_message := match field "message" error with
                | Some m => if truthy (Some m) then m else JStr "request failed"
                | None => JStr "request failed"
                end;
  pe_code := field "code" error;
  pe_retryAfterMS := field "retry_after_ms" error;
  pe_devicesStale := truthy (field "recipient_devices_stale" error) |}.

Inductive conn_error :=
| NotConnected
| ConnectionClosed
| Timeout
| EncodeFailed (e : frame_error)
| Refused (e : ProtocolError).

(** A pending request; [id] stands for its promise and its timer. *)
Record pending := Pending {
  p_id : nat;
  p_type : Z;
  p_replyTypes : list Z;
  p_accept : json -> bool }.

Inductive output :=
| Sent (bytes : list Z)
| Resolved (id : nat) (payload : json)
| Rejected (id : nat) (e : conn_error)
| Unsolicited (type : Z) (payload : json)
| CloseEvent
| SocketClose.

Record Connection := Conn {
  socketOpen : bool;        (** [#socket?.readyState === 1] *)
  reading : reader;
  pendings : list pending;
  closed : bool;
  probing : option nat;     (** the request behind [#probe] *)
  bytesIn : Z;
  bytesOut : Z;
  nextId : nat;             (** the next request number *)
  timers : list nat }.      (** armed request timers *)

Definition new_connection : Connection := Conn true new_reader [] false None 0 0 0 [].

Definition is_open (c : Connection) : bool := negb (closed c) && socketOpen c.

Definition set_pendings (ps : list pending) (ts : list nat) (c : Connection) : Connection :=
  Conn (socketOpen c) (reading c) ps (closed c) (probing c) (bytesIn c) (bytesOut c) (nextId c) ts.

Definition send (type : Z) (message : option json) (c : Connection)
    : result conn_error (Connection * list output) :=
  if negb (is_open c) then Err NotConnected
  else match encodeFrame type message with
       | Err e => Err (EncodeFailed e)
       | Ok b =>
         Ok (Conn (socketOpen c) (reading c) (pendings c) (closed c) (probing c) (bytesIn c)
               (bytesOut c + Z.of_nat (length b)) (nextId c) (timers c), [Sent b])
       end.

Definition drop_pending (id : nat) (ps : list pending) : list pending :=
  filter (fun p => p_id p <> id) ps.
Definition drop_timer (id : nat) (ts : list nat) : list nat := filter (fun i => i <> id) ts.

(** [request]: the promise is registered and its timer armed before the frame
    is sent; a failing send takes both back. *)
Definition request (type : Z) (message : option json) (replyTypes : list Z) (accept : json -> bool)
    (c : Connection) : Connection * list output :=
  let id := nextId c in
  let c1 := Conn (socketOpen c) (reading c) (pendings c ++ [Pending id type replyTypes accept])
              (closed c) (probing c) (bytesIn c) (bytesOut c) (S id) (timers c ++ [id]) in
  match send type message c1 with
  | Ok (c2, out) => (c2, out)
  | Err e => (set_pendings (drop_pending id (pendings c1)) (drop_timer id (timers c1)) c1, [Rejected id e])
  end.

(** The timer of a request. *)
Definition timer_fires (id : nat) (c : Connection) : Connection * list output :=
  (set_pendings (drop_pending id (pendings c)) (drop_timer id (timers c)) c, [Rejected id Timeout]).

Definition shutdown (c : Connection) : Connection * list output :=
  let wasOpen := negb (closed c) || negb (bool_decide (pendings c = [])) in
  (Conn (socketOpen c) (reading c) [] true (probing c) (bytesIn c) (bytesOut c) (nextId c)
     (filter (fun i => i ∉ map p_id (pendings c)) (timers c)),
   map (fun p => Rejected (p_id p) ConnectionClosed) (pendings c) ++
   (if wasOpen then [CloseEvent] else [])).

(** [close]: shut down, then close the socket (its state leaves OPEN). *)
Definition close (c : Connection) : Connection * list output :=
  let (c1, out) := shutdown c in
  (Conn false (reading c1) (pendings c1) (closed c1) (probing c1) (bytesIn c1) (bytesOut c1)
     (nextId c1) (timers c1), out ++ [SocketClose]).

Fixpoint find_split {A} (f : A -> bool) (l : list A) : option (A * list A) :=
  match l with
  | [] => None
  | x :: l' => if f x then Some (x, l')
               else match find_split f l' with
                    | Some (y, r) => Some (y, x :: r)
                    | None => None
                    end
  end.

Definition origin_matches (payload : json) (p : pending) : bool :=
  match field "origin_type" payload with Some (JNum t) => p_type p =? t | _ => false end.

Definition reply_matches (type : Z) (payload : json) (p : pending) : bool :=
  existsb (Z.eqb type) (p_replyTypes p) && p_accept p payload.

(** [#dispatch]; [None] when reading a property of a [null] Error payload
    throws, which ends the dispatch of the remaining frames. *)
Definition dispatch (f : frame) (c : Connection) : option (Connection * list output) :=
  if ftype f =? Msg.Ping then
    if is_open c then
      match send Msg.Pong (Some (JObj [])) c with
      | Ok r => Some r
      | Err _ => None
      end
    else Some (c, [])
  else
  let reply c :=
    match find_split (reply_matches (ftype f) (fpayload f)) (pendings c) with
    | Some (p, rest) =>
      (set_pendings rest (drop_timer (p_id p) (timers c)) c, [Resolved (p_id p) (fpayload f)])
    | None => (c, [Unsolicited (ftype f) (fpayload f)])
    end in
  if ftype f =? Msg.Error then
    if bool_decide (pendings c <> []) && match fpayload f with JNull => true | _ => false end then None
    else match find_split (origin_matches (fpayload f)) (pendings c) with
         | Some (p, rest) =>
           Some (set_pendings rest (drop_timer (p_id p) (timers c)) c,
                 [Rejected (p_id p) (Refused (mkProtocolError (fpayload f)))])
         | None => Some (reply c)
         end
  else Some (reply c).

Fixpoint dispatch_all (fs : list frame) (c : Connection) : Connection * list output :=
  match fs with
  | [] => (c, [])
  | f :: fs' => match dispatch f c with
                | None => (c, [])
                | Some (c1, o1) => let (c2, o2) := dispatch_all fs' c1 in (c2, o1 ++ o2)
                end
  end.

Definition receive (data : list Z) (c : Connection) : Connection * list output :=
  let (r, frames) := push (reading c) data in
  let c1 := Conn (socketOpen c) r (pendings c) (closed c) (probing c)
              (bytesIn c + Z.of_nat (length data)) (bytesOut c) (nextId c) (timers c) in
  match frames with
  | Err _ => close c1
  | Ok fs => dispatch_all fs c1
  end.

(** [probe]: at most one Ping request at a time. *)
Definition probe (c : Connection) : Connection * list output :=
  match probing c with
  | Some _ => (c, [])
  | None => let (c1, out) := request Msg.Ping (Some (JObj [])) [Msg.Pong] (fun _ => true) c in
            (Conn (socketOpen c1) (reading c1) (pendings c1) (closed c1) (Some (nextId c))
               (bytesIn c1) (bytesOut c1) (nextId c1) (timers c1), out)
  end.

(** The handlers of the probe's promise: a rejection closes the connection,
    and either outcome clears [#probe]. *)
Definition probe_settled (failed : bool) (c : Connection) : Connection * list output :=
  let (c1, out) := if failed then close c else (c, []) in
  (Conn (socketOpen c1) (reading c1) (pendings c1) (closed c1) None (bytesIn c1) (bytesOut c1)
     (nextId c1) (timers c1), out).

Inductive event :=
| ERequest (type : Z) (message : option json) (replyTypes : list Z) (accept : json -> bool)
| ETimer (id : nat)
| ESend (type : Z) (message : option json)
| EReceive (data : list Z)
| EClose
| ESocketClosed
| EProbe
| EProbeSettled (failed : bool).

(** A timer fires only while it is armed; the probe's handlers run once its
    request is settled. *)
Definition enabled (e : event) (c : Connection) : Prop :=
  match e with
  | ETimer id => id ∈ timers c
  | EProbeSettled _ => exists id, probing c = Some id /\ id ∉ map p_id (pendings c)
  | _ => True
  end.

Definition step (e : event) (c : Connection) : Connection * list output :=
  match e with
  | ERequest t m r a => request t m r a c
  | ETimer id => timer_fires id c
  | ESend t m => match send t m c with Ok r => r | Err _ => (c, []) end
  | EReceive d => receive d c
  | EClose => close c
  | ESocketClosed =>
    let (c1, out) := shutdown c in
    (Conn false (reading c1) (pendings c1) (closed c1) (probing c1) (bytesIn c1) (bytesOut c1)
       (nextId c1) (timers c1), out)
  | EProbe => probe c
  | EProbeSettled b => probe_settled b c
  end.

(** Executions from a fresh connection, with everything output so far. *)
Inductive reachable : Connection -> list output -> Prop :=
| reach_init : reachable new_connection []
| reach_step c outs e c' out :
    reachable c outs -> enabled e c -> step e c = (c', out) -> reachable c' (outs ++ out).

(** ** What a step does to the requests *)

Definition ids (c : Connection) : list nat := map p_id (pendings c).

Definition settles (o : output) : option nat :=
  match o with Resolved i _ | Rejected i _ => Some i | _ => None end.
Definition settled (outs : list output) : list nat := omap settles outs.

Definition closes (outs : list output) : nat :=
  length (omap (fun o => match o with CloseEvent => Some tt | _ => None end) outs).

(** Request timers are armed exactly for the pending requests; a closed
    connection has none. *)
Record good (c : Connection) : Prop := {
  g_timers : timers c = ids c;
  g_nodup : NoDup (ids c);
  g_fresh : Forall (fun i => (i < nextId c)%nat) (ids c);
  g_closed : closed c = true -> pendings c = [] }.

(** Conservation: the requests pending before and those issued by the step
    are, after it, exactly those settled by it and those still pending. *)
Definition moves (c c' : Connection) (out : list output) : Prop :=
  good c ->
  good c' /\
  (closes out + Nat.b2n (closed c) = Nat.b2n (closed c'))%nat /\
  exists n, nextId c' = (nextId c + n)%nat /\
            settled out ++ ids c' ≡ₚ ids c ++ seq (nextId c) n.

Lemma settled_app o1 o2 : settled (o1 ++ o2) = settled o1 ++ settled o2.
Proof. apply omap_app. Qed.

Lemma closes_app o1 o2 : closes (o1 ++ o2) = (closes o1 + closes o2)%nat.
Proof. unfold closes. by rewrite omap_app, length_app. Qed.

Lemma moves_refl c : moves c c [].
Proof. intros Hg. split_and!; [done|done|]. exists 0%nat. split; [lia|]. simpl. by rewrite app_nil_r. Qed.

Lemma moves_trans c c1 c2 o1 o2 : moves c c1 o1 -> moves c1 c2 o2 -> moves c c2 (o1 ++ o2).
Proof.
  intros H1 H2 Hg. destruct (H1 Hg) as (Hg1 & Hc1 & n1 & Hn1 & Hp1).
  destruct (H2 Hg1) as (Hg2 & Hc2 & n2 & Hn2 & Hp2).
  split_and!; [done|rewrite closes_app; lia|]. exists (n1 + n2)%nat. split; [lia|].
  rewrite settled_app, <- app_assoc, Hp2, app_assoc, Hp1, <- app_assoc, seq_app, Hn1. done.
Qed.

(** Steps that touch neither requests nor the closed flag. *)
Lemma moves_frame c c' out :
  pendings c' = pendings c -> timers c' = timers c -> nextId c' = nextId c -> closed c' = closed c ->
  settled out = [] -> closes out = 0%nat -> moves c c' out.
Proof.
  intros Hp Ht Hn Hc Hs Hk Hg. destruct Hg as [G1 G2 G3 G4].
  split_and!.
  - split; unfold ids in *; rewrite ?Hp, ?Ht, ?Hn, ?Hc; done.
  - rewrite Hk, Hc. done.
  - exists 0%nat. unfold ids. rewrite Hp, Hs, Hn. split; [lia|]. simpl. by rewrite app_nil_r.
Qed.

Lemma send_moves t m c c' out : send t m c = Ok (c', out) -> moves c c' out.
Proof.
  unfold send. destruct (negb _); [done|]. destruct (encodeFrame t m); [|done].
  intros [= <- <-]. by apply moves_frame.
Qed.

Lemma send_same t m c c' out :
  send t m c = Ok (c', out) -> pendings c' = pendings c /\ nextId c' = nextId c /\ is_open c = true.
Proof.
  unfold send. destruct (is_open c); simpl; [|done]. destruct (encodeFrame t m); [|done].
  by intros [= <- <-].
Qed.

Lemma drop_pending_ids id ps : map p_id (drop_pending id ps) = drop_timer id (map p_id ps).
Proof.
  unfold drop_pending, drop_timer. induction ps as [|p ps IH]; [done|]. cbn [map].
  rewrite !filter_cons. case_decide; cbn [map]; by rewrite IH.
Qed.

Lemma drop_timer_fresh id ts : id ∉ ts -> drop_timer id ts = ts.
Proof.
  unfold drop_timer. intros Hni. induction ts as [|i ts IH]; [done|].
  apply not_elem_of_cons in Hni as [Hne Hni]. rewrite filter_cons, IH by done.
  case_decide; congruence.
Qed.

Lemma drop_timer_split id ts : NoDup ts -> id ∈ ts -> ts ≡ₚ id :: drop_timer id ts.
Proof.
  unfold drop_timer. induction 1 as [|i ts Hni Hnd IH]; [by rewrite elem_of_nil|].
  rewrite elem_of_cons, filter_cons. intros [->|Hin].
  - rewrite decide_False by tauto. fold (drop_timer i ts). by rewrite drop_timer_fresh.
  - rewrite decide_True by (intros ->; done). rewrite (IH Hin) at 1. apply perm_swap.
Qed.

Lemma not_elem_fresh c : good c -> nextId c ∉ ids c.
Proof. intros [_ _ G _] Hin. rewrite Forall_forall in G. specialize (G _ Hin). lia. Qed.

Lemma request_moves t m r a c c' out : request t m r a c = (c', out) -> moves c c' out.
Proof.
  intros Hr Hg. pose proof (not_elem_fresh c Hg) as Hfresh. destruct Hg as [G1 G2 G3 G4].
  unfold request in Hr. set (c1 := Conn _ _ _ _ _ _ _ _ _) in Hr.
  assert (Hids : ids c1 = ids c ++ [nextId c]) by (unfold ids; simpl; by rewrite map_app).
  destruct (send t m c1) as [[c2 o]|e] eqn:Es; apply pair_equal_spec in Hr as [<- <-].
  - pose proof (send_same _ _ _ _ _ Es) as (Hp & Hn & Ho).
    assert (Hcl : closed c = false) by (unfold is_open in Ho; simpl in Ho; by destruct (closed c)).
    unfold send in Es. rewrite Ho in Es. simpl in Es. destruct (encodeFrame t m); [|done].
    injection Es as <- <-. split_and!.
    + split; simpl; [unfold ids in *; simpl; by rewrite G1, map_app| | |congruence].
      * unfold ids in *. simpl in *. rewrite Hids. apply NoDup_app. split_and!; [done| |apply NoDup_singleton].
        intros x Hx ->%list_elem_of_singleton. done.
      * unfold ids in *. simpl in *. rewrite Hids. apply Forall_app. split; [|repeat constructor; lia].
        eapply Forall_impl; [exact G3|]. simpl. lia.
    + done.
    + exists 1%nat. simpl. split; [lia|]. by rewrite <- Hids.
  - assert (Hdrop : drop_timer (nextId c) (ids c1) = ids c).
    { rewrite Hids. unfold drop_timer. rewrite filter_app, filter_cons, decide_False by tauto.
      rewrite filter_nil, app_nil_r. by apply drop_timer_fresh. }
    assert (Hi : ids (set_pendings (drop_pending (nextId c) (pendings c1))
                   (drop_timer (nextId c) (timers c1)) c1) = ids c).
    { unfold ids at 1. simpl. rewrite drop_pending_ids. apply Hdrop. }
    split_and!.
    + split; rewrite ?Hi; [|done| |].
      * simpl. rewrite G1, <- Hids. exact Hdrop.
      * eapply Forall_impl; [exact G3|]. simpl. lia.
      * simpl. intros Hc. apply (fmap_nil_inv p_id). change (ids c1) with (map p_id (pendings c1)) in Hdrop.
        rewrite <- drop_pending_ids in Hdrop. etrans; [exact Hdrop|]. unfold ids. by rewrite G4.
    + done.
    + exists 1%nat. split; [simpl; lia|]. rewrite Hi. simpl. by rewrite Permutation_app_comm.
Qed.

Lemma timer_moves id c c' out :
  id ∈ timers c -> timer_fires id c = (c', out) -> moves c c' out.
Proof.
  intros Hid [= <- <-] [G1 G2 G3 G4]. rewrite G1 in Hid.
  pose proof (drop_timer_split _ _ G2 Hid) as Hs.
  assert (Hi : ids (set_pendings (drop_pending id (pendings c)) (drop_timer id (timers c)) c)
               = drop_timer id (ids c)) by (unfold ids; simpl; apply drop_pending_ids).
  split_and!.
  - split; rewrite ?Hi.
    + simpl. by rewrite G1.
    + unfold drop_timer. by apply NoDup_filter.
    + simpl. apply Forall_forall. intros i [_ Hi']%list_elem_of_filter.
      by apply (proj1 (Forall_forall _ _) G3).
    + simpl. intros Hc. rewrite (G4 Hc). done.
  - done.
  - exists 0%nat. rewrite Hi. split; [simpl; lia|]. simpl. rewrite app_nil_r. by symmetry.
Qed.

Lemma shutdown_moves c c' out : shutdown c = (c', out) -> moves c c' out.
Proof.
  intros Hs [G1 G2 G3 G4]. unfold shutdown in Hs. injection Hs as <- <-.
  assert (Hset : forall ps, settled (map (fun p => Rejected (p_id p) ConnectionClosed) ps) = map p_id ps).
  { induction ps as [|p ps IH]; [done|]. cbn. f_equal. exact IH. }
  assert (Hno : forall ps, closes (map (fun p => Rejected (p_id p) ConnectionClosed) ps) = 0%nat).
  { induction ps; done. }
  split_and!.
  - split; [|constructor|constructor|done]. simpl. rewrite G1. unfold ids. simpl.
    apply elem_of_nil_inv. by intros i [Hn Hi]%list_elem_of_filter.
  - rewrite closes_app, Hno. simpl. destruct (closed c) eqn:E; simpl; [|done].
    rewrite (G4 eq_refl). done.
  - exists 0%nat. split; [simpl; lia|]. unfold ids. simpl. rewrite !app_nil_r, settled_app, Hset.
    destruct (_ || _); simpl; by rewrite app_nil_r.
Qed.

Lemma close_moves c c' out : close c = (c', out) -> moves c c' out.
Proof.
  unfold close. destruct (shutdown c) as [c1 o] eqn:E. intros [= <- <-].
  eapply moves_trans; [by apply shutdown_moves|]. by apply moves_frame.
Qed.

Lemma find_split_spec {A} (f : A -> bool) l x r :
  find_split f l = Some (x, r) ->
  exists l1 l2, l = l1 ++ x :: l2 /\ r = l1 ++ l2 /\ f x = true /\ Forall (fun y => f y = false) l1.
Proof.
  revert r. induction l as [|y l IH]; intros r; simpl; [done|]. destruct (f y) eqn:E.
  - intros [= -> ->]. by exists [], r.
  - destruct (find_split f l) as [[z r']|]; [|done]. intros [= <- <-].
    destruct (IH r' eq_refl) as (l1 & l2 & -> & -> & Hf & Hl). exists (y :: l1), l2.
    split_and!; [done..|by constructor].
Qed.

(** Removing the found request and its timer. *)
Lemma settle_moves f c p rest o :
  find_split f (pendings c) = Some (p, rest) -> settles o = Some (p_id p) ->
  moves c (set_pendings rest (drop_timer (p_id p) (timers c)) c) [o].
Proof.
  intros (l1 & l2 & Hp & -> & _)%find_split_spec Ho [G1 G2 G3 G4].
  assert (Hids : ids c = map p_id l1 ++ p_id p :: map p_id l2).
  { unfold ids. by rewrite Hp, map_app. }
  assert (Hi : ids (set_pendings (l1 ++ l2) (drop_timer (p_id p) (timers c)) c) = map p_id l1 ++ map p_id l2).
  { unfold ids. simpl. by rewrite map_app. }
  rewrite Hids in G2, G3. apply NoDup_app in G2 as (N1 & N2 & N3). apply NoDup_cons in N3 as [N3 N4].
  assert (Hn1 : p_id p ∉ map p_id l1) by (intros Hin; apply (N2 _ Hin); left).
  split_and!.
  - split; rewrite ?Hi.
    + simpl. rewrite G1, Hids. unfold drop_timer. rewrite filter_app, filter_cons, decide_False by tauto.
      f_equal; by apply drop_timer_fresh.
    + apply NoDup_app. split_and!; [done| |done]. intros x Hx Hx2. apply (N2 _ Hx). by right.
    + simpl. apply Forall_app in G3 as [? [? ?]%Forall_cons]. by apply Forall_app.
    + simpl. intros Hc. rewrite (G4 Hc) in Hp. by destruct l1.
  - unfold closes. by destruct o.
  - exists 0%nat. split; [simpl; lia|]. rewrite Hi, Hids. unfold settled. simpl. rewrite Ho.
    simpl. rewrite app_nil_r. apply Permutation_middle.
Qed.

Lemma dispatch_moves f c c' out : dispatch f c = Some (c', out) -> moves c c' out.
Proof.
  unfold dispatch. destruct (ftype f =? Msg.Ping).
  { destruct (is_open c); [|intros [= <- <-]; apply moves_refl].
    destruct (send _ _ c) as [[c1 o]|] eqn:E; [|done]. intros [= <- <-]. by eapply send_moves. }
  assert (Hreply : forall c' out,
    match find_split (reply_matches (ftype f) (fpayload f)) (pendings c) with
    | Some (p, rest) =>
      (set_pendings rest (drop_timer (p_id p) (timers c)) c, [Resolved (p_id p) (fpayload f)])
    | None => (c, [Unsolicited (ftype f) (fpayload f)])
    end = (c', out) -> moves c c' out).
  { intros c1 o. destruct (find_split _ _) as [[p rest]|] eqn:E; intros [= <- <-].
    - by eapply settle_moves.
    - by apply moves_frame. }
  destruct (ftype f =? Msg.Error); [|intros [= H]; by apply Hreply].
  destruct (_ && _); [done|].
  destruct (find_split (origin_matches _) _) as [[p rest]|] eqn:E.
  - intros [= <- <-]. by eapply settle_moves.
  - intros [= H]. by apply Hreply.
Qed.

Lemma dispatch_all_moves fs c c' out : dispatch_all fs c = (c', out) -> moves c c' out.
Proof.
  revert c c' out. induction fs as [|f fs IH]; intros c c' out; cbn [dispatch_all].
  { intros [= <- <-]. apply moves_refl. }
  destruct (dispatch f c) as [[c1 o1]|] eqn:E; [|intros [= <- <-]; apply moves_refl].
  destruct (dispatch_all fs c1) as [c2 o2] eqn:E2. intros [= <- <-].
  eapply moves_trans; [by apply dispatch_moves in E|by apply IH].
Qed.

Lemma receive_moves d c c' out : receive d c = (c', out) -> moves c c' out.
Proof.
  unfold receive. destruct (push (reading c) d) as [r frames]. set (c1 := Conn _ _ _ _ _ _ _ _ _).
  intros H. change out with ([] ++ out). apply moves_trans with c1; [by apply moves_frame|].
  destruct frames; [by apply dispatch_all_moves in H|by apply close_moves].
Qed.

Lemma moves_then_frame c c1 c' out :
  moves c c1 out ->
  pendings c' = pendings c1 -> timers c' = timers c1 -> nextId c' = nextId c1 -> closed c' = closed c1 ->
  moves c c' out.
Proof.
  intros. rewrite <- (app_nil_r out). eapply moves_trans; [done|]. by apply moves_frame.
Qed.

Lemma step_moves e c c' out : enabled e c -> step e c = (c', out) -> moves c c' out.
Proof.
  destruct e; cbn [step enabled]; intros He.
  - apply request_moves.
  - by apply timer_moves.
  - destruct (send type message c) as [[c1 o]|] eqn:E; intros [= <- <-];
      [by eapply send_moves|apply moves_refl].
  - apply receive_moves.
  - apply close_moves.
  - destruct (shutdown c) as [c1 o] eqn:E. intros [= <- <-].
    eapply moves_then_frame; [by apply shutdown_moves|done..].
  - unfold probe. destruct (probing c); [intros [= <- <-]; apply moves_refl|].
    destruct (request _ _ _ _ c) as [c1 o] eqn:E. intros [= <- <-].
    eapply moves_then_frame; [by eapply request_moves|done..].
  - unfold probe_settled. destruct failed; [destruct (close c) as [c1 o] eqn:E|]; intros [= <- <-].
    + eapply moves_then_frame; [by apply close_moves|done..].
    + by apply moves_frame.
Qed.

Lemma reachable_inv c outs :
  reachable c outs ->
  good c /\ closes outs = Nat.b2n (closed c) /\ settled outs ++ ids c ≡ₚ seq 0 (nextId c).
Proof.
  induction 1 as [|c outs e c' out Hr (Hg & Hk & Hp) He Hs].
  - split_and!; [|done|done]. split; [done|constructor|constructor|done].
  - destruct (step_moves _ _ _ _ He Hs Hg) as (Hg' & Hk' & n & Hn & Hp').
    split_and!; [done|rewrite closes_app; lia|].
    rewrite settled_app, <- app_assoc, Hp', app_assoc, Hp, Hn, seq_app. done.
Qed.

(** ** Properties *)

(** C36: in every execution each request issued so far is either still pending
    or has been settled (resolved or rejected) exactly once, never both and
    never twice, whatever replies, errors, timeouts and closes arrive. *)
Theorem requests_settled_once c outs :
  reachable c outs ->
  NoDup (settled outs ++ ids c) /\
  forall id, (id < nextId c)%nat <-> id ∈ settled outs \/ id ∈ ids c.
Proof.
  intros (_ & _ & Hp)%reachable_inv. split.
  - rewrite Hp. apply NoDup_ListNoDup, seq_NoDup.
  - intros id. rewrite <- elem_of_app, Hp, elem_of_seq. lia.
Qed.

(** A run used by the witnesses: two requests, the answer to the second one's
    type, then a lost socket. *)
Definition demo_run : list event :=
  [ERequest 10 None [158] (fun _ => true); ERequest 46 None [47] (fun _ => true);
   EReceive ([0; 0; 0; 4; 0; 47] ++ bytes_of "{}"); ESocketClosed].

Fixpoint run (es : list event) (c : Connection) (outs : list output) : Connection * list output :=
  match es with
  | [] => (c, outs)
  | e :: es' => let (c', o) := step e c in run es' c' (outs ++ o)
  end.

Lemma run_reachable es c outs :
  reachable c outs ->
  Forall (fun e => match e with ETimer _ | EProbeSettled _ => False | _ => True end) es ->
  reachable (run es c outs).1 (run es c outs).2.
Proof.
  revert c outs. induction es as [|e es IH]; intros c outs Hr Hes; [done|]. simpl.
  apply Forall_cons in Hes as [He Hes]. destruct (step e c) as [c' o] eqn:E. apply IH; [|done].
  eapply reach_step; [done| |done]. by destruct e.
Qed.

Lemma demo_run_reachable : reachable (run demo_run new_connection []).1 (run demo_run new_connection []).2.
Proof. apply run_reachable; [constructor|]. repeat constructor. Qed.

Lemma requests_settled_once_witness :
  settled (run demo_run new_connection []).2 = [1%nat; 0%nat] /\
  NoDup (settled (run demo_run new_connection []).2 ++ ids (run demo_run new_connection []).1).
Proof.
  split; [vm_compute; reflexivity|].
  exact (proj1 (requests_settled_once _ _ demo_run_reachable)).
Defined.

(** A connection reports its close exactly once, and once closed nothing
    is left waiting: every request ever issued has been settled and no request
    timer stays armed. *)
Theorem close_is_final c outs :
  reachable c outs ->
  closes outs = (if closed c then 1%nat else 0%nat) /\
  (closed c = true -> pendings c = [] /\ timers c = [] /\ settled outs ≡ₚ seq 0 (nextId c)).
Proof.
  intros ([G1 _ _ G4] & Hk & Hp)%reachable_inv. split; [by destruct (closed c)|].
  intros Hc. specialize (G4 Hc). unfold ids in *. rewrite G4 in *.
  split_and!; [done|done|]. simpl in Hp. by rewrite app_nil_r in Hp.
Qed.

Lemma close_is_final_witness :
  closed (run demo_run new_connection []).1 = true /\
  closes (run demo_run new_connection []).2 = 1%nat.
Proof.
  split; [vm_compute; reflexivity|].
  exact (proj1 (close_is_final _ _ demo_run_reachable)).
Defined.

(** A reply goes to the oldest pending request that waits for its type
    and accepts its payload; requests before it stay, in order, and the ones
    that do not match are never resolved by it. *)
Theorem reply_resolves_oldest f c p :
  ftype f <> Msg.Ping -> ftype f <> Msg.Error ->
  find (reply_matches (ftype f) (fpayload f)) (pendings c) = Some p ->
  exists earlier later,
    pendings c = earlier ++ p :: later /\
    Forall (fun q => reply_matches (ftype f) (fpayload f) q = false) earlier /\
    dispatch f c =
      Some (set_pendings (earlier ++ later) (drop_timer (p_id p) (timers c)) c,
            [Resolved (p_id p) (fpayload f)]).
Proof.
  intros H1 H2 Hf. unfold dispatch. zcases.
  destruct (find_split (reply_matches (ftype f) (fpayload f)) (pendings c)) as [[q rest]|] eqn:E.
  - apply find_split_spec in E as (l1 & l2 & Hp & -> & Hq & Hl1).
    assert (q = p) as ->.
    { rewrite Hp in Hf. clear Hp. induction l1 as [|y l1 IH]; simpl in Hf.
      - rewrite Hq in Hf. congruence.
      - apply Forall_cons in Hl1 as [Hy Hl1]. rewrite Hy in Hf. auto. }
    exists l1, l2. done.
  - exfalso. revert Hf E. generalize (pendings c). intros l. induction l as [|y l IH]; simpl; [done|].
    destruct (reply_matches _ _ y); [done|]. destruct (find_split _ l) as [[]|]; [done|]. auto.
Qed.

Lemma reply_resolves_oldest_witness :
  let c := (run (take 2 demo_run) new_connection []).1 in
  exists earlier later,
    pendings c = earlier ++ Pending 1 46 [47] (fun _ => true) :: later /\
    dispatch (Frame 47 (JObj [])) c =
      Some (set_pendings (earlier ++ later) (drop_timer 1 (timers c)) c, [Resolved 1 (JObj [])]).
Proof.
  intros c.
  destruct (reply_resolves_oldest (Frame 47 (JObj [])) c (Pending 1 46 [47] (fun _ => true))
    ltac:(done) ltac:(done) eq_refl) as (l1 & l2 & Hp & _ & Hd).
  by exists l1, l2.
Defined.
