(* ===== verification/MediaReplay.v ===== *)
(** * The replay window of decrypted media ([media-e2ee/media-replay.js])

    A frame's IV carries the sender's SSRC, the RTP timestamp and a send
    counter, each an unsigned 32-bit integer.  [MediaReplayWindow.check] admits
    a frame at most once, remembering a bounded window of timestamps per
    source.  The token string ["timestamp:counter"] is modelled by the pair. *)

From stdpp Require Import base list.
From Stdlib Require Import ZArith Lia.
From S2P Require Import Prelude.

Record source := Source { newest : Z; frames : list ((Z * Z) * Z) }.

Record MediaReplayWindow := Window {
  sources : list (Z * source);
  maxSources : Z;
  maxFrames : Z;
  timestampWindow : Z }.

Definition new_window (maxSources maxFrames timestampWindow : Z) : MediaReplayWindow :=
  Window [] maxSources maxFrames timestampWindow.

(** The defaults of the constructor. *)
Definition default_window : MediaReplayWindow := new_window 8 8192 1800000.

Inductive verdict := VOk | VDuplicate | VOld | VFull | VInvalid.
#[global] Instance verdict_eq_dec : EqDecision verdict.
Proof. solve_decision. Defined.

Definition set_source (ssrc : Z) (s : source) (w : MediaReplayWindow) : MediaReplayWindow :=
  Window (OMap.set ssrc s (sources w)) (maxSources w) (maxFrames w) (timestampWindow w).

(** The frames kept when [newest] moves to [timestamp]. *)
Definition expire (window timestamp : Z) (fs : list ((Z * Z) * Z)) : list ((Z * Z) * Z) :=
  filter (fun f => to_int32 (timestamp - f.2) <= window) fs.

Definition judge (w : MediaReplayWindow) (ssrc timestamp counter : Z) (s : source)
    : MediaReplayWindow * verdict :=
  let w := set_source ssrc s w in
  let token := (timestamp, counter) in
  let distance := to_int32 (timestamp - newest s) in
  if OMap.has token (frames s) then (w, VDuplicate)
  else if distance <? - timestampWindow w then (w, VOld)
  else
    let s1 := if 0 <? distance
              then Source timestamp (expire (timestampWindow w) timestamp (frames s))
              else s in
    let w1 := set_source ssrc s1 w in
    if maxFrames w <=? OMap.size (frames s1) then (w1, VFull)
    else (set_source ssrc (Source (newest s1) (OMap.set token timestamp (frames s1))) w1, VOk).

Definition check (w : MediaReplayWindow) (iv : list Z) : MediaReplayWindow * verdict :=
  match iv with
  | [a0; a1; a2; a3; b0; b1; b2; b3; c0; c1; c2; c3] =>
    let ssrc := be32 a0 a1 a2 a3 in
    let timestamp := be32 b0 b1 b2 b3 in
    let counter := be32 c0 c1 c2 c3 in
    match OMap.get ssrc (sources w) with
    | None => if maxSources w <=? OMap.size (sources w) then (w, VFull)
              else judge w ssrc timestamp counter (Source timestamp [])
    | Some s => judge w ssrc timestamp counter s
    end
  | _ => (w, VInvalid)
  end.

Definition accept (w : MediaReplayWindow) (iv : list Z) : MediaReplayWindow * bool :=
  let (w', v) := check w iv in (w', bool_decide (v = VOk)).

(** The SSRC, timestamp and counter of an IV. *)
Definition iv_fields (iv : list Z) : option (Z * Z * Z) :=
  match iv with
  | [a0; a1; a2; a3; b0; b1; b2; b3; c0; c1; c2; c3] =>
    Some (be32 a0 a1 a2 a3, be32 b0 b1 b2 b3, be32 c0 c1 c2 c3)
  | _ => None
  end.

(** The verdicts of a sequence of frames. *)
Fixpoint check_all (w : MediaReplayWindow) (ivs : list (list Z)) : MediaReplayWindow * list verdict :=
  match ivs with
  | [] => (w, [])
  | iv :: ivs' => let (w1, v) := check w iv in
                  let (w2, vs) := check_all w1 ivs' in (w2, v :: vs)
  end.

(** The accepted frames of a sequence. *)
Fixpoint accepted (w : MediaReplayWindow) (ivs : list (list Z)) : list (list Z) :=
  match ivs with
  | [] => []
  | iv :: ivs' => let (w1, v) := check w iv in
                  if bool_decide (v = VOk) then iv :: accepted w1 ivs' else accepted w1 ivs'
  end.

(** ** The size bounds *)

Definition bounded (w : MediaReplayWindow) : Prop :=
  OMap.size (sources w) <= maxSources w /\
  forall ssrc s, OMap.get ssrc (sources w) = Some s -> OMap.size (frames s) <= maxFrames w.

Lemma expire_size window t fs : OMap.size (expire window t fs) <= OMap.size fs.
Proof. unfold OMap.size, expire. pose proof (length_filter (fun f : (Z*Z)*Z => to_int32 (t - f.2) <= window) fs). lia. Qed.

Lemma set_source_bounded ssrc s w :
  bounded w -> OMap.size (frames s) <= maxFrames w ->
  OMap.has ssrc (sources w) = true \/ OMap.size (sources w) < maxSources w ->
  bounded (set_source ssrc s w).
Proof.
  intros [H1 H2] Hs Hsz. split; simpl.
  - rewrite OMap.size_set. destruct (OMap.has ssrc (sources w)); [done|]. destruct Hsz; [done|lia].
  - intros ssrc' s'. rewrite OMap.get_set. case_decide; [by intros [= <-]|apply H2].
Qed.

Lemma has_set_source ssrc s w : OMap.has ssrc (sources (set_source ssrc s w)) = true.
Proof. unfold OMap.has. simpl. by rewrite OMap.get_set_eq. Qed.

Lemma size_set_le {K V} `{EqDecision K} (k : K) (v : V) m : OMap.size (OMap.set k v m) <= OMap.size m + 1.
Proof. rewrite OMap.size_set. destruct (OMap.has k m); lia. Qed.

Lemma judge_bounded w ssrc t c s :
  bounded w -> OMap.size (frames s) <= maxFrames w ->
  OMap.has ssrc (sources w) = true \/ OMap.size (sources w) < maxSources w ->
  bounded (judge w ssrc t c s).1.
Proof.
  intros Hb Hs Hz. unfold judge.
  assert (Hb1 : bounded (set_source ssrc s w)) by (by apply set_source_bounded).
  destruct (OMap.has (t, c) _); [exact Hb1|]. destruct (_ <? _); [exact Hb1|].
  set (s1 := if 0 <? _ then _ else s).
  assert (Hs1 : OMap.size (frames s1) <= maxFrames w).
  { unfold s1. destruct (0 <? _); [|done]. simpl.
    pose proof (expire_size (timestampWindow w) t (frames s)). lia. }
  assert (Hb2 : bounded (set_source ssrc s1 (set_source ssrc s w))).
  { apply set_source_bounded; [done|done|left; apply has_set_source]. }
  destruct (Z.leb_spec (maxFrames (set_source ssrc s w)) (OMap.size (frames s1))); [exact Hb2|].
  simpl in *. apply set_source_bounded; [done| |left; apply has_set_source]. simpl.
  pose proof (size_set_le (t, c) t (frames s1)). lia.
Qed.

(** The window's memory stays bounded: whatever frames arrive, it never
    tracks more than [maxSources] senders nor more than [maxFrames] frames of
    one sender. *)
Theorem replay_window_bounded w ivs :
  0 <= maxFrames w -> bounded w -> bounded (check_all w ivs).1.
Proof.
  revert w. induction ivs as [|iv ivs IH]; intros w Hf Hb; simpl; [done|].
  assert (H : bounded (check w iv).1 /\ maxFrames (check w iv).1 = maxFrames w).
  { unfold check. do 12 (destruct iv as [|? iv]; [done|]). destruct iv; [|done].
    destruct (OMap.get _ _) as [s|] eqn:E.
    - split; [|unfold judge; repeat case_match; done].
      apply judge_bounded; [done|by eapply Hb|left; unfold OMap.has; by rewrite E].
    - destruct (Z.leb_spec (maxSources w) (OMap.size (sources w))); [done|].
      split; [|unfold judge; repeat case_match; done]. apply judge_bounded; [done|done|by right]. }
  destruct (check w iv) as [w1 v]. simpl in H. destruct H as [H1 H2].
  specialize (IH w1). destruct (check_all w1 ivs). simpl in *. apply IH; [lia|done].
Qed.

Lemma replay_window_bounded_witness :
  bounded (check_all (new_window 1 1 5) [repeat 7 12; repeat 0 12; repeat 7 11 ++ [9]]).1.
Proof.
  apply (replay_window_bounded (new_window 1 1 5)); [done|]. split; [done|]. intros ssrc s. done.
Defined.

(** ** No frame is admitted twice *)

Section no_replay.
(** All timestamps of one key's life lie within half of the 32-bit range
    after [base]: the key expires long before the RTP clock gets further. *)
Variable base : Z.

Definition off (t : Z) : Z := (t - base) `mod` two32.
Definition in_life (t : Z) : Prop := off t < 2147483648.

Lemma off_nonneg t : 0 <= off t.
Proof. unfold off, two32. pose proof (Z.mod_pos_bound (t - base) 4294967296). lia. Qed.

(** Signed modular subtraction is the true distance. *)
Lemma distance_off t t' : in_life t -> in_life t' -> to_int32 (t - t') = off t - off t'.
Proof.
  unfold in_life. intros Ht Ht'. pose proof (off_nonneg t). pose proof (off_nonneg t').
  destruct (to_int32_cong (t - t')) as [k Hk]. pose proof (to_int32_range (t - t')).
  unfold off in *. unfold two32 in *.
  pose proof (Z.div_mod (t - base) 4294967296 ltac:(lia)).
  pose proof (Z.div_mod (t' - base) 4294967296 ltac:(lia)). lia.
Qed.

Definition entries_ok (s : source) : Prop :=
  forall tok seen, (tok, seen) ∈ frames s -> seen = tok.1 /\ in_life tok.1.

(** A frame admitted before is still remembered, or is older than the window. *)
Definition remembered (window : Z) (s : source) (t c : Z) : Prop :=
  OMap.has (t, c) (frames s) = true \/ window < off (newest s) - off t.

Record replay_inv (w : MediaReplayWindow) (A : list (Z * Z * Z)) : Prop := {
  ri_window : 0 <= timestampWindow w;
  ri_sources : forall ssrc s, OMap.get ssrc (sources w) = Some s -> entries_ok s /\ in_life (newest s);
  ri_seen : forall ssrc t c, (ssrc, t, c) ∈ A -> in_life t /\
    exists s, OMap.get ssrc (sources w) = Some s /\ remembered (timestampWindow w) s t c }.

Lemma has_expire window t (fs : list ((Z * Z) * Z)) tok seen :
  OMap.get tok fs = Some seen -> to_int32 (t - seen) <= window -> OMap.has tok (expire window t fs) = true.
Proof.
  unfold expire, OMap.has. intros Hg Hw. induction fs as [|[tok' seen'] fs IH]; [done|].
  simpl in Hg. rewrite filter_cons. destruct (decide (tok = tok')) as [<-|Hne].
  - injection Hg as ->. rewrite decide_True by done. simpl. by rewrite decide_True.
  - case_decide; simpl; rewrite ?decide_False by done; auto.
Qed.

(** The source a frame is checked against, after a first frame created it. *)
Definition next_source (window t : Z) (s : source) : source :=
  if 0 <? to_int32 (t - newest s) then Source t (expire window t (frames s)) else s.

Lemma next_source_remembers window t s t0 c0 :
  entries_ok s -> in_life (newest s) -> in_life t -> in_life t0 ->
  remembered window s t0 c0 -> remembered window (next_source window t s) t0 c0.
Proof.
  intros He Hn Ht Ht0 Hr. unfold next_source. rewrite distance_off by done.
  destruct (Z.ltb_spec 0 (off t - off (newest s))) as [Hd|]; [|done].
  destruct Hr as [Hr|Hr]; [|right; simpl; lia].
  unfold OMap.has in Hr. destruct (OMap.get (t0, c0) (frames s)) as [seen|] eqn:E; [|done].
  destruct (He _ _ (OMap.get_elem _ _ _ E)) as [-> _]. simpl in *.
  destruct (decide (off t - off t0 <= window)).
  - left. simpl. eapply has_expire; [done|]. simpl. by rewrite distance_off.
  - right. simpl. lia.
Qed.

Lemma next_source_entries window t s :
  in_life t -> in_life (newest s) -> entries_ok s ->
  entries_ok (next_source window t s) /\ in_life (newest (next_source window t s)).
Proof.
  intros Ht Hn He. unfold next_source. destruct (0 <? _); [|done]. split; [|done].
  intros tok seen Hin. simpl in Hin. apply list_elem_of_filter in Hin as [_ Hin]. by apply He.
Qed.

Lemma set_source_inv w A ssrc s :
  replay_inv w A -> entries_ok s -> in_life (newest s) ->
  (forall t c, (ssrc, t, c) ∈ A -> remembered (timestampWindow w) s t c) ->
  replay_inv (set_source ssrc s w) A.
Proof.
  intros [I1 I2 I3] He Hn Hr. split; simpl; [done| |].
  - intros ssrc' s'. rewrite OMap.get_set. case_decide; [by intros [= <-]|apply I2].
  - intros ssrc' t c Hin. destruct (I3 _ _ _ Hin) as (Ht & s' & Hs' & Hr').
    split; [done|]. rewrite OMap.get_set. case_decide as Hd; [subst; eauto|eauto].
Qed.

Lemma judge_eq w ssrc t c s :
  judge w ssrc t c s =
  let w := set_source ssrc s w in
  if OMap.has (t, c) (frames s) then (w, VDuplicate)
  else if to_int32 (t - newest s) <? - timestampWindow w then (w, VOld)
  else let s1 := next_source (timestampWindow w) t s in
       if maxFrames w <=? OMap.size (frames s1) then (set_source ssrc s1 w, VFull)
       else (set_source ssrc (Source (newest s1) (OMap.set (t, c) t (frames s1)))
               (set_source ssrc s1 w), VOk).
Proof. done. Qed.

Lemma judge_inv w A ssrc t c s w' v :
  replay_inv w A -> in_life t -> entries_ok s -> in_life (newest s) ->
  (forall t c, (ssrc, t, c) ∈ A -> remembered (timestampWindow w) s t c) ->
  judge w ssrc t c s = (w', v) ->
  (v = VOk -> (ssrc, t, c) ∉ A) /\
  replay_inv w' (if decide (v = VOk) then (ssrc, t, c) :: A else A).
Proof.
  intros Hi Ht He Hn Hr. rewrite judge_eq. cbv zeta.
  assert (H1 : replay_inv (set_source ssrc s w) A) by (by apply set_source_inv).
  destruct (OMap.has (t, c) (frames s)) eqn:Ehas; [by intros [= <- <-]|].
  rewrite distance_off by done. simpl timestampWindow. simpl maxFrames.
  destruct (Z.ltb_spec (off t - off (newest s)) (- timestampWindow w)); [by intros [= <- <-]|].
  set (s1 := next_source (timestampWindow w) t s).
  destruct (next_source_entries (timestampWindow w) t s Ht Hn He) as [He1 Hn1].
  assert (Hr1 : forall t0 c0, (ssrc, t0, c0) ∈ A -> remembered (timestampWindow w) s1 t0 c0).
  { intros t0 c0 Hin. apply next_source_remembers; [done..| |by apply Hr].
    by destruct (ri_seen _ _ Hi _ _ _ Hin). }
  assert (H2 : replay_inv (set_source ssrc s1 (set_source ssrc s w)) A) by (by apply set_source_inv).
  destruct (_ <=? _); [by intros [= <- <-]|]. intros [= <- <-]. split.
  { intros _ Hin. destruct (Hr _ _ Hin) as [Hh|Hh]; [congruence|lia]. }
  rewrite decide_True by done.
  set (s2 := Source (newest s1) (OMap.set (t, c) t (frames s1))).
  assert (Hr2 : forall t0 c0, remembered (timestampWindow w) s1 t0 c0 -> remembered (timestampWindow w) s2 t0 c0).
  { intros t0 c0 [Hh|Hh]; [left|by right]. unfold OMap.has in *. simpl.
    rewrite OMap.get_set. by case_decide. }
  assert (H3 : replay_inv (set_source ssrc s2 (set_source ssrc s1 (set_source ssrc s w))) A).
  { apply set_source_inv; [done| |done|simpl; eauto].
    intros tok seen [[-> ->]|Hin]%OMap.elem_set; [done|by apply He1]. }
  destruct H3 as [I1 I2 I3]. split; [done|done|].
  intros ssrc' t' c' [[= -> -> ->]|Hin]%elem_of_cons; [|by apply I3].
  split; [done|]. exists s2. simpl. rewrite OMap.get_set_eq. split; [done|]. left.
  unfold OMap.has. simpl. by rewrite OMap.get_set_eq.
Qed.

Lemma check_inv w A iv f w' v :
  replay_inv w A -> iv_fields iv = Some f -> in_life f.1.2 -> check w iv = (w', v) ->
  (v = VOk -> f ∉ A) /\ replay_inv w' (if decide (v = VOk) then f :: A else A).
Proof.
  intros Hi Hf. unfold check, iv_fields in *.
  do 12 (destruct iv as [|? iv]; [done|]). destruct iv; [|done]. injection Hf as <-. intros Ht. simpl in Ht.
  destruct (OMap.get _ (sources w)) as [s|] eqn:E.
  - apply judge_inv; [done|done|by eapply Hi|by eapply Hi|]. intros t c Hin.
    destruct (ri_seen _ _ Hi _ _ _ Hin) as (_ & s' & Hs' & Hr). by simplify_eq.
  - destruct (_ <=? _); [by intros [= <- <-]|].
    apply judge_inv; [done|done|by intros ?? ?%elem_of_nil|done|]. intros t c Hin.
    destruct (ri_seen _ _ Hi _ _ _ Hin) as (_ & s' & Hs' & Hr). by simplify_eq.
Qed.

Lemma accepted_inv w A ivs :
  replay_inv w A -> NoDup A ->
  Forall (fun iv => forall f, iv_fields iv = Some f -> in_life f.1.2) ivs ->
  NoDup (omap iv_fields (accepted w ivs)) /\
  forall f, f ∈ omap iv_fields (accepted w ivs) -> f ∉ A.
Proof.
  revert w A. induction ivs as [|iv ivs IH]; intros w A Hi Hnd Hl; [split; [constructor|by intros f ?%elem_of_nil]|].
  apply Forall_cons in Hl as [Hiv Hl]. cbn [accepted]. destruct (check w iv) as [w1 v] eqn:E.
  destruct (iv_fields iv) as [f|] eqn:Ef.
  - destruct (check_inv w A iv f w1 v Hi Ef (Hiv f eq_refl) E) as [Hni Hi1].
    destruct (decide (v = VOk)) as [->|Hne].
    + rewrite bool_decide_true by done. specialize (Hni eq_refl).
      destruct (IH w1 (f :: A) Hi1 ltac:(by constructor) Hl) as [IH1 IH2].
      cbn [omap list_omap]. rewrite Ef. split.
      * constructor; [|done]. intros Hin. apply (IH2 _ Hin). left.
      * intros f' [->|Hin]%elem_of_cons; [done|]. intros Ha. apply (IH2 _ Hin). by right.
    + rewrite bool_decide_false by done. by apply IH.
  - assert (v = VInvalid /\ w1 = w) as [-> ->].
    { unfold check, iv_fields in *. repeat (destruct iv as [|? iv]; try congruence; try by simplify_eq). }
    rewrite bool_decide_false by done. by apply IH.
Qed.
End no_replay.

(** No replay.  While the timestamps of a key's life stay within half of
    the 32-bit RTP range (the renewal period keeps them far below it), the
    window never admits two frames with the same SSRC, timestamp and counter,
    in whatever order, repetition or delay the frames arrive, and although the
    window forgets old frames. *)
Theorem replay_never_admitted base maxSources maxFrames window ivs :
  0 <= window ->
  Forall (fun iv => forall f, iv_fields iv = Some f -> in_life base f.1.2) ivs ->
  NoDup (omap iv_fields (accepted (new_window maxSources maxFrames window) ivs)).
Proof.
  intros Hw Hl. refine (proj1 (accepted_inv base _ [] ivs _ ltac:(constructor) Hl)).
  split; [done|done|]. by intros ??? ?%elem_of_nil.
Qed.

Definition demo_ivs : list (list Z) :=
  [[0;0;0;1; 255;255;255;250; 0;0;0;1]; [0;0;0;1; 0;0;0;9; 0;0;0;2]; [0;0;0;1; 255;255;255;250; 0;0;0;1];
   [0;0;0;1; 0;0;1;9; 0;0;0;3]; [0;0;0;1; 255;255;255;250; 0;0;0;1]].

Lemma replay_never_admitted_witness :
  (check_all (new_window 8 8192 100) demo_ivs).2 = [VOk; VOk; VDuplicate; VOk; VOld] /\
  NoDup (omap iv_fields (accepted (new_window 8 8192 100) demo_ivs)).
Proof.
  split; [vm_compute; reflexivity|].
  apply (replay_never_admitted 4294967000); [lia|].
  repeat constructor; intros f [= <-]; vm_compute; reflexivity.
Defined.
