(* ===== verification/MediaEnvelope.v ===== *)
(** * Layout checks of encoded media frames
    ([media-e2ee/media-frame-envelope.js], [media-e2ee/hardware-probe-frame.js])

    The frame cipher leaves a codec header in the clear and, for H.264,
    normalises its start codes and escapes the encrypted tail.  These functions
    find the clear header and the tail, so that the worker can compare the
    canonical sizes of a frame before and after the cipher. *)

From stdpp Require Import base list strings.
From Stdlib Require Import ZArith Lia Ascii.
From S2P Require Import Prelude.

Definition MAX_FRAME : Z := 16 * 1024 * 1024.
Definition MAX_HEADER : Z := 64 * 1024.

(** An encoded frame: its bytes, the MIME type of its metadata ([None] when the
    runtime has no metadata or reading it throws) and whether it is a key frame. *)
Record encoded_frame := EFrame { data : list Z; mimeType : option string; isKey : bool }.

Definition lower_ascii (a : ascii) : ascii :=
  let n := N_of_ascii a in if (65 <=? n)%N && (n <=? 90)%N then ascii_of_N (n + 32) else a.

Fixpoint toLowerCase (s : string) : string :=
  match s with EmptyString => EmptyString | String a s' => String (lower_ascii a) (toLowerCase s') end.

Definition frameMime (f : encoded_frame) : string :=
  match mimeType f with Some m => toLowerCase m | None => EmptyString end.

(** [bytes[i]]: [None] is [undefined]. *)
Definition byte_at (bytes : list Z) (i : nat) : option Z := bytes !! i.
Definition is_at (bytes : list Z) (i : nat) (v : Z) : bool :=
  match byte_at bytes i with Some b => b =? v | None => false end.

Definition startCode (bytes : list Z) (i : nat) : nat :=
  if negb (is_at bytes i 0) || negb (is_at bytes (i + 1) 0) then 0
  else if is_at bytes (i + 2) 1 then 3
  else if is_at bytes (i + 2) 0 && is_at bytes (i + 3) 1 then 4 else 0.

(** [bits(bytes[i] & mask)] with [undefined & mask = 0]. *)
Definition and_at (bytes : list Z) (i : nat) (mask : Z) : Z :=
  match byte_at bytes i with Some b => Z.land b mask | None => 0 end.

Definition h264TemporalPrefix (nal : list Z) : bool :=
  (5 <=? Z.of_nat (length nal)) && (Z.of_nat (length nal) <=? 16) &&
  (and_at nal 0 128 =? 0) && (and_at nal 0 31 =? 14) &&
  negb (and_at nal 1 128 =? 0) && is_at nal 2 128 && (and_at nal 3 16 =? 0) &&
  (and_at nal 3 3 =? 3) &&
  match byte_at nal 3 with Some b => Z.shiftr b 5 <=? 2 | None => true end.

(** The inner loop: the next start code at or after [end_], or the length. *)
Fixpoint scan_end (fuel : nat) (bytes : list Z) (end_ : nat) : nat :=
  match fuel with
  | O => end_
  | S f => if (end_ <? length bytes)%nat && (startCode bytes end_ =? 0)%nat
           then scan_end f bytes (S end_) else end_
  end.

Record clear_header := Header { hlength : nat; normalized : nat }.

Definition subarray (bytes : list Z) (a b : nat) : list Z := take (b - a) (drop a bytes).

Definition header_types : list Z := [6; 7; 8; 9; 12; 14].

(** The outer loop, at most 128 NAL units. *)
Fixpoint header_loop (nals : nat) (bytes : list Z) (offset norm : nat) (prefix : option (list Z))
    : option clear_header :=
  match nals with
  | O => None
  | S n =>
    if negb ((offset <? length bytes)%nat && (Z.of_nat offset <=? MAX_HEADER)) then None
    else
      let code := startCode bytes offset in
      if (code =? 0)%nat then None
      else
        let nal := (offset + code)%nat in
        if (length bytes <=? nal + 1)%nat || negb (and_at bytes nal 128 =? 0) then None
        else
          let type := and_at bytes nal 31 in
          if (type =? 1) || (type =? 5) then
            match prefix with
            | Some p => if Bool.eqb (negb (and_at p 1 64 =? 0)) (type =? 5)
                        then Some (Header (nal + 2) (norm + 4 + 2)) else None
            | None => Some (Header (nal + 2) (norm + 4 + 2))
            end
          else if negb (existsb (Z.eqb type) header_types) then None
          else
            let end_ := scan_end (length bytes) bytes (nal + 1) in
            if MAX_HEADER <? Z.of_nat end_ then None
            else if type =? 14 then
              if bool_decide (prefix <> None) || negb (h264TemporalPrefix (subarray bytes nal end_)) then None
              else header_loop n bytes end_ (norm + 4 + (end_ - nal)) (Some (subarray bytes nal end_))
            else header_loop n bytes end_ (norm + 4 + (end_ - nal)) prefix
  end.

Definition h264ClearHeader (bytes : list Z) : option clear_header := header_loop 128 bytes 0 0 None.

(** [unescapeTail]: drops an emulation byte 3 that follows two zeros and
    precedes a byte of at most 3.  [z1], [z2]: the two bytes before, [None]
    before the start. *)
Fixpoint unescape_from (z2 z1 : option Z) (bytes : list Z) : list Z :=
  match bytes with
  | [] => []
  | b :: r =>
    let skip := (b =? 3) && match z1, z2 with Some x, Some y => (x =? 0) && (y =? 0) | _, _ => false end &&
                match r with c :: _ => c <=? 3 | [] => false end in
    if skip then unescape_from z1 (Some b) r else b :: unescape_from z1 (Some b) r
  end.

Definition unescapeTail (bytes : list Z) : list Z := unescape_from None None bytes.

Record envelope := Envelope { size : nat; tail : list Z }.

Definition mediaFrameEnvelope (f : encoded_frame) (encrypted : bool) : option envelope :=
  let bytes := data f in
  if bool_decide (bytes = []) || (MAX_FRAME <? Z.of_nat (length bytes)) then None
  else if negb (bool_decide (frameMime f = "video/h264"%string)) then Some (Envelope (length bytes) bytes)
  else match h264ClearHeader bytes with
       | None => None
       | Some header =>
         let raw := drop (hlength header) bytes in
         let tl := if encrypted then unescapeTail raw else raw in
         Some (Envelope (normalized header + length tl) tl)
       end.

(** Neutral pictures sent to learn which encoder is in use. *)
Definition VP8 : list Z :=
  [16;2;0;157;1;42;8;0;8;0;0;71;8;133;133;136;133;132;136;2;2;0;12;13;96;0;254;255;171;80;128].
Definition H264 : list Z :=
  [0;0;0;1;103;66;192;31;15;217;31;136;136;132;0;0;3;0;4;0;0;3;0;200;60;96;201;32;0;0;0;1;104;135;203;131;
   203;32;0;0;0;1;101;136;132;10;242;98;128;0;167;190].

Definition hardwareProbeFrame (f : encoded_frame) : option (list Z) :=
  let mime := frameMime f in
  if bool_decide (mime = "video/h264"%string) then Some H264
  else if bool_decide (mime = "video/vp8"%string) && isKey f then Some VP8
  else None.

(** The probe picture is itself a frame with a clear header. *)
Example probe_has_envelope :
  option_map size (mediaFrameEnvelope (EFrame H264 (Some "video/H264"%string) true) false) = Some 52%nat.
Proof. vm_compute. reflexivity. Qed.

(** ** The clear header *)

Lemma startCode_range bytes i : startCode bytes i = 0%nat \/ startCode bytes i = 3%nat \/ startCode bytes i = 4%nat.
Proof. unfold startCode. repeat case_match; auto. Qed.

Lemma scan_end_range f bytes e :
  (e <= length bytes)%nat -> (e <= scan_end f bytes e <= length bytes)%nat.
Proof.
  revert e. induction f as [|f IH]; intros e He; simpl; [lia|].
  destruct (Nat.ltb_spec e (length bytes)); simpl; [|lia].
  destruct (_ =? _)%nat; [|lia]. specialize (IH (S e)). lia.
Qed.

(** The loop's length of the buffer is enough: it stops at a start code or at
    the end of the frame. *)
Lemma scan_end_stops f bytes e :
  (length bytes <= e + f)%nat ->
  scan_end f bytes e = length bytes \/ (length bytes <= scan_end f bytes e)%nat \/
  startCode bytes (scan_end f bytes e) <> 0%nat.
Proof.
  revert e. induction f as [|f IH]; intros e He; simpl; [right; left; lia|].
  destruct (Nat.ltb_spec e (length bytes)); simpl; [|right; left; lia].
  destruct (Nat.eqb_spec (startCode bytes e) 0); [apply IH; lia|auto].
Qed.

Lemma header_loop_bounds nals bytes offset norm prefix h :
  header_loop nals bytes offset norm prefix = Some h ->
  (offset + 5 <= hlength h <= length bytes)%nat /\
  (norm + hlength h <= normalized h + offset)%nat /\
  (normalized h + offset <= norm + hlength h + nals)%nat /\
  (and_at bytes (hlength h - 2) 31 = 1 \/ and_at bytes (hlength h - 2) 31 = 5).
Proof.
  revert offset norm prefix. induction nals as [|n IH]; intros offset norm prefix; [done|].
  cbn [header_loop]. destruct (negb _); [done|].
  destruct (startCode_range bytes offset) as [Hc|Hc]; [rewrite Hc; done|].
  set (code := startCode bytes offset) in *. destruct (code =? 0)%nat; [done|].
  destruct (Nat.leb_spec (length bytes) (offset + code + 1)); [done|]. simpl orb.
  destruct (negb _); [done|].
  set (ty := and_at bytes (offset + code) 31).
  assert (Hdone : (ty =? 1) || (ty =? 5) = true ->
    forall h, Some (Header (offset + code + 2) (norm + 4 + 2)) = Some h ->
    (offset + 5 <= hlength h <= length bytes)%nat /\ (norm + hlength h <= normalized h + offset)%nat /\
    (normalized h + offset <= norm + hlength h + S n)%nat /\
    (and_at bytes (hlength h - 2) 31 = 1 \/ and_at bytes (hlength h - 2) 31 = 5)).
  { intros Hty h' [= <-]. simpl.
    replace (offset + code + 2 - 2)%nat with (offset + code)%nat by lia.
    fold ty. split_and!; [lia|lia|lia|lia|]. apply orb_true_iff in Hty. lia. }
  destruct ((ty =? 1) || (ty =? 5)) eqn:Ety.
  { specialize (Hdone eq_refl). destruct prefix as [p|]; [destruct (Bool.eqb _ _); [|done]|]; apply Hdone. }
  destruct (negb _); [done|].
  set (e := scan_end _ _ _).
  assert (He : (offset + code + 1 <= e <= length bytes)%nat) by (apply scan_end_range; lia).
  destruct (_ <? Z.of_nat e); [done|].
  assert (Hrec : forall pr, header_loop n bytes e (norm + 4 + (e - (offset + code))) pr = Some h ->
    (offset + 5 <= hlength h <= length bytes)%nat /\ (norm + hlength h <= normalized h + offset)%nat /\
    (normalized h + offset <= norm + hlength h + S n)%nat /\
    (and_at bytes (hlength h - 2) 31 = 1 \/ and_at bytes (hlength h - 2) 31 = 5)).
  { intros pr Hl. apply IH in Hl. destruct Hl as (H1 & H2 & H3 & H4).
    assert (code = 3 \/ code = 4)%nat by (unfold code in *; lia). split_and!; [lia|lia|lia|lia|done]. }
  destruct (ty =? 14); [|apply Hrec].
  destruct (bool_decide _ || _); [done|apply Hrec].
Qed.

(** ** The escaped tail *)

(** The emulation prevention of the H.264 byte stream: a byte 3 is written
    before every byte of at most 3 that follows two zeros ([n]: zeros seen). *)
Fixpoint escape_rbsp (n : nat) (bytes : list Z) : list Z :=
  match bytes with
  | [] => []
  | b :: r =>
    let n' := if b =? 0 then S n else 0%nat in
    if (2 <=? n)%nat && (b <=? 3) then 3 :: b :: escape_rbsp (if b =? 0 then 1 else 0) r
    else b :: escape_rbsp n' r
  end.

(** The zeros the two bytes before a position amount to. *)
Definition zeros (z2 z1 : option Z) : nat :=
  match z1 with
  | Some 0 => match z2 with Some 0 => 2 | _ => 1 end
  | _ => 0
  end.

Lemma zeros_next z2 z1 b : zeros z1 (Some b) = if b =? 0 then S (Nat.min 1 (zeros z2 z1)) else 0%nat.
Proof. unfold zeros. destruct b, z1 as [[]|]; simpl; repeat case_match; done. Qed.

Lemma zeros_two z2 z1 :
  (2 <=? zeros z2 z1)%nat = match z1, z2 with Some x, Some y => (x =? 0) && (y =? 0) | _, _ => false end.
Proof. unfold zeros. destruct z1 as [[]|], z2 as [[]|]; done. Qed.

Lemma zeros_le z2 z1 : (zeros z2 z1 <= 2)%nat.
Proof. unfold zeros. repeat case_match; lia. Qed.

Lemma unescape_cons z2 z1 b r :
  unescape_from z2 z1 (b :: r) =
  if (b =? 3) && (2 <=? zeros z2 z1)%nat && match r with c :: _ => c <=? 3 | [] => false end
  then unescape_from z1 (Some b) r else b :: unescape_from z1 (Some b) r.
Proof. rewrite zeros_two. done. Qed.

Lemma unescape_escape z2 z1 bytes :
  all_bytes bytes = true ->
  unescape_from z2 z1 (escape_rbsp (zeros z2 z1) bytes) = bytes.
Proof.
  revert z2 z1. induction bytes as [|b r IH]; intros z2 z1 Hb; [done|].
  unfold all_bytes in Hb. cbn [forallb] in Hb. apply andb_true_iff in Hb as [Hb Hr].
  apply is_byte_spec in Hb. cbn [escape_rbsp].
  destruct ((2 <=? zeros z2 z1)%nat && (b <=? 3)) eqn:E.
  - apply andb_true_iff in E as [Ez Eb]. rewrite unescape_cons, Ez, Eb.
    change (3 =? 3) with true. cbn [andb].
    assert (Hz1 : zeros z1 (Some 3) = 0%nat) by done. rewrite unescape_cons, Hz1.
    change (2 <=? 0)%nat with false. rewrite andb_false_r. cbn [andb]. f_equal.
    replace (if b =? 0 then 1%nat else 0%nat) with (zeros (Some 3) (Some b)); [by apply IH|].
    rewrite (zeros_next z1 (Some 3) b), Hz1. by destruct (b =? 0).
  - rewrite unescape_cons.
    assert (Hskip : (b =? 3) && (2 <=? zeros z2 z1)%nat = false).
    { apply andb_false_iff in E as [->|E]; [by rewrite andb_false_r|].
      apply Z.leb_gt in E. destruct (Z.eqb_spec b 3); [lia|done]. }
    rewrite Hskip. cbn [andb]. f_equal.
    destruct (decide (zeros z2 z1 = 2%nat)) as [E2|Hn].
    + rewrite E2 in E. simpl in E. apply Z.leb_gt in E.
      replace (if b =? 0 then S (zeros z2 z1) else 0%nat) with (zeros z1 (Some b)); [by apply IH|].
      rewrite (zeros_next z2 z1 b). zcases; lia.
    + replace (if b =? 0 then S (zeros z2 z1) else 0%nat) with (zeros z1 (Some b)); [by apply IH|].
      rewrite (zeros_next z2 z1 b). pose proof (zeros_le z2 z1). destruct (b =? 0); [|done]. lia.
Qed.

(** ** Properties *)

(** The header found in an H.264 frame lies inside the frame, ends with
    the two first bytes of a slice, and its canonical size exceeds its real
    length by at most one byte per NAL unit of the clear header (three-byte
    start codes become four-byte ones). *)
Theorem h264_header_bounds bytes h :
  h264ClearHeader bytes = Some h ->
  (5 <= hlength h <= length bytes)%nat /\
  (hlength h <= normalized h <= hlength h + 128)%nat /\
  (and_at bytes (hlength h - 2) 31 = 1 \/ and_at bytes (hlength h - 2) 31 = 5).
Proof.
  unfold h264ClearHeader. generalize 128%nat. intros n H.
  destruct (header_loop_bounds _ _ _ _ _ _ H) as (H1 & H2 & H3 & H4).
  split_and!; [lia|lia|lia|lia|exact H4].
Qed.

Lemma h264_header_bounds_witness :
  (5 <= 44 <= length H264)%nat /\ h264ClearHeader H264 = Some (Header 44 44) /\
  (and_at H264 (44 - 2) 31 = 1 \/ and_at H264 (44 - 2) 31 = 5).
Proof.
  assert (H : h264ClearHeader H264 = Some (Header 44 44)) by (vm_compute; reflexivity).
  pose proof (h264_header_bounds H264 _ H) as (H1 & H2 & H3). simpl hlength in *. auto.
Defined.

(** Removing emulation bytes is exactly the inverse of H.264 emulation
    prevention: the escaped form of any ciphertext is restored unchanged. *)
Theorem unescape_inverts_emulation_prevention bytes :
  all_bytes bytes = true -> unescapeTail (escape_rbsp 0 bytes) = bytes.
Proof. intros H. by apply (unescape_escape None None). Qed.

Lemma unescape_inverts_emulation_prevention_witness :
  escape_rbsp 0 [0; 0; 0; 0; 3; 9; 0; 0; 3] = [0; 0; 3; 0; 0; 3; 3; 9; 0; 0; 3; 3] /\
  unescapeTail (escape_rbsp 0 [0; 0; 0; 0; 3; 9; 0; 0; 3]) = [0; 0; 0; 0; 3; 9; 0; 0; 3].
Proof. split; [reflexivity|]. apply (unescape_inverts_emulation_prevention [0; 0; 0; 0; 3; 9; 0; 0; 3]). reflexivity. Defined.
