(* ===== verification/MediaWorker.v ===== *)
(** * The media encryption worker ([media-e2ee/media-e2ee-core.js])

    The worker owns everything around the third-party frame cipher: which keys
    exist (per publication "pid" and epoch), which endpoint is bound to which
    publication, which key slots an endpoint's cipher holds, and which frames
    may pass.  The cipher itself is outside: the calls the worker makes to it
    are outputs, and the frame it hands back to the second transform is an
    arbitrary input.

    Operations are [async] functions run one after the other by the [serial]
    queue.  An operation is a program of segments; a segment runs without
    interruption, and between two segments (at an [await]) frames pass, streams
    are attached and timers fire. *)

From stdpp Require Import base list strings.
From Stdlib Require Import ZArith Lia Ascii.
From S2P Require Import Prelude MediaReplay MediaEnvelope.

Definition IV_LENGTH : Z := 12.
Definition OVERHEAD : Z := 16 + IV_LENGTH + 2.
Definition MIN_ENCRYPTED : Z := 1 + OVERHEAD.
Definition KEYRING : Z := 16.
Definition MAX_LIVE_EPOCHS : Z := 4.
Definition MAX_PIDS : Z := 512.
Definition MAX_ENDPOINTS : Z := 512.
Definition MAX_RETIRED_MARKERS : Z := 4096.
Definition HARDWARE_PROOF_MS : Z := 1000.
Definition INITIAL_KEYFRAME_HOLD_MS : Z := 1000.
Definition MAX_INITIAL_KEYFRAME_BYTES : Z := 1024 * 1024.
Definition MAX_RECEIVE_EPOCH_AGE : Z := 12 * 60 * 1000.

(** ** Validation *)

Fixpoint str_all (f : Z -> bool) (s : string) : bool :=
  match s with EmptyString => true | String a s' => f (Z.of_N (N_of_ascii a)) && str_all f s' end.
Definition str_len (s : string) : Z := Z.of_nat (String.length s).

(** [/^[\x21-\x7e]{1,160}$/] *)
Definition validPid (pid : string) : bool :=
  str_all (fun c => (33 <=? c) && (c <=? 126)) pid && (1 <=? str_len pid) && (str_len pid <=? 160).
Definition validEpoch (epoch : Z) : bool := is_safe_integer epoch && (0 <? epoch).
Definition validKid (kid : Z) : bool := (0 <=? kid) && (kid <? KEYRING).

Definition is_lower (c : Z) : bool := (97 <=? c) && (c <=? 122).
Definition is_word (c : Z) : bool :=
  is_lower c || ((65 <=? c) && (c <=? 90)) || ((48 <=? c) && (c <=? 57)) || (c =? 95) || (c =? 45).

(** [/^[a-z]+:[A-Za-z0-9_-]{1,64}$/] *)
Fixpoint endpoint_re (seen : bool) (s : string) : bool :=
  match s with
  | EmptyString => false
  | String a s' =>
    let c := Z.of_N (N_of_ascii a) in
    if is_lower c then endpoint_re true s'
    else (c =? 58) && seen && str_all is_word s' && (1 <=? str_len s') && (str_len s' <=? 64)
  end.
Definition validEndpoint (id : string) : bool := endpoint_re false id.

Inductive operation := Encode | Decode.
Inductive kind := Audio | Video.
#[global] Instance operation_eq_dec : EqDecision operation.
Proof. solve_decision. Defined.
#[global] Instance kind_eq_dec : EqDecision kind.
Proof. solve_decision. Defined.

Definition codecAllowed (f : encoded_frame) (k : kind) : bool :=
  let mime := frameMime f in
  match k with
  | Video => bool_decide (mime = "video/vp8"%string) || bool_decide (mime = "video/h264"%string)
  | Audio => bool_decide (mime = ""%string) || bool_decide (mime = "audio/opus"%string)
  end.

(** ** State *)

(** One installed key; [eid] is the identity of the JavaScript object. *)
Record entry := Entry { kid : Z; key : list Z; fp : list Z; at_ : Z; eid : nat }.
Record pid_state := PidState { epochs : list (Z * entry); active : Z; retired : Z }.

Record hardware_scope := Scope {
  sc_gen : Z; sc_pid : string; sc_tag : string; sc_epoch : Z; sc_kid : Z; sc_entry : nat }.
Record hold := Hold { h_scope : hardware_scope; h_deadline : Z }.

Inductive reason :=
| DUnbound | DEmpty | DPlaintext | DNokey | DCodec | DStale | DUnauthenticated
| DReplay | DReplayOld | DReplayFull | DReplayInvalid | DUnencrypted | DHardware.

(** What the first transform remembers of a frame until the second sees it. *)
Record input := Input {
  i_gen : Z; i_pid : string; i_n : Z;
  i_epoch : Z; i_iv : list Z;                                (* decode *)
  i_scope : option hardware_scope; i_held : bool }.          (* encode *)

Record endpoint := Endpoint {
  operation_ : operation;
  kind_ : kind;
  libraryID : nat;
  aborted : bool;
  pid : string;
  gen : Z;
  ready : bool;
  kids : list (Z * Z);
  authenticated : bool;
  hardwareRequired : bool;
  hardwareUntil : Z;
  hardwareCheckAt : Z;
  hardwareProbed : bool;
  hardwareProven : bool;
  hardwareHoldAttempted : bool;
  hardwareHold : option hold;
  needsKeyframe : bool;
  sourceTag : string;
  frames_ : Z;
  inputs : list (nat * input) }.

#[export] Instance eta_endpoint : Eta endpoint := fun r =>
  Endpoint (operation_ r) (kind_ r) (libraryID r) (aborted r) (pid r) (gen r) (ready r) (kids r)
    (authenticated r) (hardwareRequired r) (hardwareUntil r) (hardwareCheckAt r) (hardwareProbed r)
    (hardwareProven r) (hardwareHoldAttempted r) (hardwareHold r) (needsKeyframe r) (sourceTag r)
    (frames_ r) (inputs r).

#[export] Instance eta_pid_state : Eta pid_state := fun r => PidState (epochs r) (active r) (retired r).

Record worker := Worker {
  pids : list (string * pid_state);
  retiredMarks : list (string * Z);
  endpoints : list (string * endpoint);
  windows : list ((string * Z) * MediaReplayWindow);
  pendingBinds : list (string * (string * string));
  freeLibrarySlots : list (nat * operation * kind);
  librarySlots : nat;
  nextEntry : nat;
  encrypted_ : Z;
  decrypted_ : Z }.

#[export] Instance eta_worker : Eta worker := fun r =>
  Worker (pids r) (retiredMarks r) (endpoints r) (windows r) (pendingBinds r) (freeLibrarySlots r)
    (librarySlots r) (nextEntry r) (encrypted_ r) (decrypted_ r).

Definition new_worker : worker := Worker [] [] [] [] [] [] 0 0 0 0.

(** Calls to the cipher library, and messages to the page. *)
Inductive effect :=
| LkSetKey (lib : nat) (key : option (list Z)) (kid : Z) (current : bool)   (* [None]: junk *)
| LkEnable (lib : nat)
| LkTransform (lib : nat) (op : operation) (k : kind)
| LkRemove (lib : nat)
| LkFence
| ToCipher (id : string) (fid : nat) (f : encoded_frame)
| Deliver (id : string) (f : encoded_frame)
| Dropped (id : string) (r : reason)
| FirstFrame (id : string) (gen : Z)
| HardwareCheck (id : string)
| HardwareReady (id : string) (pid : string)
| HoldFinished (id : string) (r : string) (h : hold).

Inductive reply :=
| RDone
| RBound (gen : Z) (authenticated : bool)
| RPending
| RSuperseded
| RInstalled (b : bool).

(** Programs of segments. *)
Inductive op (A : Type) : Type :=
| Ret (a : A)
| Throw (e : string)
| Seg (f : worker -> worker * list effect * op A).
Arguments Ret {A} _.
Arguments Throw {A} _.
Arguments Seg {A} _.

Fixpoint obind {A B} (o : op A) (k : A -> op B) : op B :=
  match o with
  | Ret a => k a
  | Throw e => Throw e
  | Seg f => Seg (fun s => let '(s', out, o') := f s in (s', out, obind o' k))
  end.

Notation "'do!' x ':=' m 'in' k" := (obind m (fun x => k)) (at level 10, x pattern, k at level 200) : js_scope.

(** A segment that only makes calls. *)
Definition emit {A} (out : list effect) (k : op A) : op A := Seg (fun s => (s, out, k)).

(** ** Keys *)

Definition state_of (s : worker) (p : string) : option pid_state := OMap.get p (pids s).
Definition entry_of (s : worker) (p : string) (e : Z) : option entry :=
  match state_of s p with Some st => OMap.get e (epochs st) | None => None end.
Definition liveEpoch (s : worker) (p : string) (e : Z) : bool :=
  match entry_of s p e with Some _ => true | None => false end.
Definition active_of (s : worker) (p : string) : Z :=
  match state_of s p with Some st => active st | None => 0 end.

Definition retiredThrough (s : worker) (p : string) : Z :=
  Z.max (match state_of s p with Some st => retired st | None => 0 end)
        (match OMap.get p (retiredMarks s) with Some e => e | None => 0 end).

(** [mark]: the pid moves to the end, its old mark is gone when
    [retiredThrough] is read, and the oldest marks leave a full table. *)
Definition evict (m : list (string * Z)) : list (string * Z) :=
  drop (length m - Z.to_nat MAX_RETIRED_MARKERS) m.
Definition mark (p : string) (e : Z) (s : worker) : worker :=
  let s1 := s <| retiredMarks := OMap.del p (retiredMarks s) |> in
  s1 <| retiredMarks := evict (OMap.set p (Z.max e (retiredThrough s1 p)) (retiredMarks s1)) |>.

Definition set_pid (p : string) (st : pid_state) (s : worker) : worker := s <| pids := OMap.set p st (pids s) |>.

Definition update_endpoint (id : string) (g : endpoint -> endpoint) (s : worker) : worker :=
  match OMap.get id (endpoints s) with
  | Some ep => s <| endpoints := OMap.set id (g ep) (endpoints s) |>
  | None => s
  end.

(** [ep.hardwareHold?.finish(reason)] *)
Definition finish_hold (id : string) (r : string) (ep : endpoint) : endpoint * list effect :=
  match hardwareHold ep with
  | Some h => (ep <| hardwareHold := None |>, [HoldFinished id r h])
  | None => (ep, [])
  end.

(** Applies [g] to every endpoint, in insertion order, collecting calls. *)
Fixpoint each_endpoint (g : string -> endpoint -> endpoint * list effect) (eps : list (string * endpoint))
    : list (string * endpoint) * list effect :=
  match eps with
  | [] => ([], [])
  | (id, ep) :: r =>
    let (ep', o1) := g id ep in
    let (r', o2) := each_endpoint g r in ((id, ep') :: r', o1 ++ o2)
  end.

Definition for_endpoints (g : string -> endpoint -> endpoint * list effect) (s : worker) : worker * list effect :=
  let (eps, out) := each_endpoint g (endpoints s) in (s <| endpoints := eps |>, out).

Definition cancel_if (c : endpoint -> bool) (id : string) (ep : endpoint) : endpoint * list effect :=
  if c ep then finish_hold id "cancelled" ep else (ep, []).

Definition endpoint_ids (s : worker) : list string := OMap.keys (endpoints s).

(** The second loop of [retireEpoch] and the first of [installInto]: drop a key
    slot of each endpoint, then overwrite the slot in the library. *)
Fixpoint scrub_slots (p : string) (e k : Z) (ids : list string) : op unit :=
  match ids with
  | [] => Ret tt
  | id :: r =>
    Seg (fun s =>
      match OMap.get id (endpoints s) with
      | Some ep =>
        if bool_decide (pid ep = p) && bool_decide (OMap.get k (kids ep) = Some e) then
          (update_endpoint id (fun ep => ep <| kids := OMap.del k (kids ep) |>) s, [],
           emit [LkSetKey (libraryID ep) None k false] (scrub_slots p e k r))
        else (s, [], scrub_slots p e k r)
      | None => (s, [], scrub_slots p e k r)
      end)
  end.

(** The synchronous part of [retireEpoch]: maps first, so frames drop at once. *)
Definition drop_epoch (p : string) (e : Z) (st : pid_state) (s : worker) : worker :=
  let s1 := set_pid p (PidState (OMap.del e (epochs st)) (if active st =? e then 0 else active st)
                         (Z.max (retired st) e)) s in
  let s2 := mark p e s1 in
  s2 <| windows := OMap.del (p, e) (windows s2) |>.

Definition retireEpoch (p : string) (e : Z) : op unit :=
  Seg (fun s =>
    match state_of s p with
    | Some st =>
      match OMap.get e (epochs st) with
      | Some en =>
        let (s1, out) := for_endpoints (cancel_if (fun ep =>
          bool_decide (pid ep = p) &&
          match hardwareHold ep with Some h => sc_epoch (h_scope h) =? e | None => false end)) s in
        (drop_epoch p e st s1, out, scrub_slots p e (kid en) (endpoint_ids s))
      | None => (s, [], Ret tt)
      end
    | None => (s, [], Ret tt)
    end).

Fixpoint retire_each (p : string) (es : list Z) : op unit :=
  match es with
  | [] => Ret tt
  | e :: r => do! _ := retireEpoch p e in retire_each p r
  end.

(** [wanted]: the newest entry per key slot, in map order. *)
Definition wanted_of (s : worker) (p : string) : list (Z * (Z * entry)) :=
  match state_of s p with
  | Some st => fold_left (fun m ee => OMap.set (kid ee.2) (ee.1, ee.2) m) (epochs st) []
  | None => []
  end.

Definition slot_current (w : list (Z * (Z * entry))) (k e : Z) : bool :=
  match OMap.get k w with Some (e', _) => e' =? e | None => false end.

Fixpoint drop_unwanted (id : string) (ks : list Z) (w : list (Z * (Z * entry))) : op unit :=
  match ks with
  | [] => Ret tt
  | k :: r =>
    Seg (fun s =>
      match OMap.get id (endpoints s) with
      | Some ep =>
        match OMap.get k (kids ep) with
        | Some e =>
          if slot_current w k e then (s, [], drop_unwanted id r w)
          else (update_endpoint id (fun ep => ep <| kids := OMap.del k (kids ep) |>) s, [],
                emit [LkSetKey (libraryID ep) None k false] (drop_unwanted id r w))
        | None => (s, [], drop_unwanted id r w)
        end
      | None => (s, [], drop_unwanted id r w)
      end)
  end.

(** [installInto]: hands the library every live key of the bound publication;
    returns the slots to publish once the library has processed them. *)
Definition installInto (id : string) : op (list (Z * Z)) :=
  Seg (fun s =>
    match OMap.get id (endpoints s) with
    | None => (s, [], Ret [])
    | Some ep =>
      let w := wanted_of s (pid ep) in
      (s, [],
       do! _ := drop_unwanted id (OMap.keys (kids ep)) w in
       Seg (fun s =>
         match OMap.get id (endpoints s) with
         | None => (s, [], Ret [])
         | Some ep =>
           let fresh := filter (fun x => OMap.get x.1 (kids ep) <> Some x.2.1) w in
           (s, map (fun x => LkSetKey (libraryID ep) (Some (key x.2.2)) x.1
                     (bool_decide (operation_ ep = Encode) && (active_of s (pid ep) =? x.2.1))) fresh,
            Ret (map (fun x => (x.1, x.2.1)) fresh))
         end))
    end).

Fixpoint scrub_ring (lib : nat) (ks : list Z) : op unit :=
  match ks with
  | [] => Ret tt
  | k :: r => emit [LkSetKey lib None k false] (scrub_ring lib r)
  end.

Definition ring : list Z := seqZ 0 KEYRING.

(** ** Operations *)

Definition fence : op unit := emit [LkFence] (Ret tt).

Definition op_bind (id p tag : string) : op reply :=
  if negb (validEndpoint id) || (negb (bool_decide (p = ""%string)) && negb (validPid p)) ||
     (negb (bool_decide (tag = ""%string)) && negb (validPid tag))
  then Throw "invalid media binding"
  else Seg (fun s =>
    match OMap.get id (endpoints s) with
    | None =>
      if negb (OMap.has id (pendingBinds s)) && (MAX_ENDPOINTS <=? OMap.size (pendingBinds s))
      then (s, [], Throw "media endpoint capacity reached")
      else (s <| pendingBinds := OMap.set id (p, tag) (pendingBinds s) |>, [], Ret RPending)
    | Some ep =>
      if bool_decide (pid ep = p) && ready ep && bool_decide (sourceTag ep = tag)
      then (s, [], Ret (RBound (gen ep) (authenticated ep)))
      else
        let (ep1, out) := finish_hold id "cancelled" ep in
        let changed := negb (bool_decide (pid ep = p)) in
        let g := gen ep + 1 in
        let ep2 := ep1 <| ready := false |> <| gen := g |> <| hardwareUntil := 0 |>
          <| hardwareProbed := false |> <| hardwareProven := false |> <| hardwareHoldAttempted := false |>
          <| needsKeyframe := false |> <| sourceTag := tag |> <| pid := p |> <| authenticated := false |>
          <| kids := if changed then [] else kids ep |> in
        (s <| endpoints := OMap.set id ep2 (endpoints s) |>, out,
         do! _ := (if changed then scrub_ring (libraryID ep) ring else Ret tt) in
         do! installed := installInto id in
         if bool_decide (p = ""%string) then Ret (RBound g false)
         else
           do! _ := fence in
           Seg (fun s =>
             match OMap.get id (endpoints s) with
             | Some ep =>
               if negb (gen ep =? g) then (s, [], Ret RSuperseded)
               else
                 let live := filter (fun x => liveEpoch s p x.2 = true) installed in
                 (update_endpoint id (fun ep =>
                    ep <| kids := fold_left (fun m x => OMap.set x.1 x.2 m) live (kids ep) |>
                       <| ready := true |>) s, [], Ret (RBound g false))
             | None => (s, [], Ret RSuperseded)
             end))
    end).

(** Epochs of a publication that hold key slot [k], in map order. *)
Definition slot_holders (st : pid_state) (k : Z) : list Z :=
  OMap.keys (filter (fun x => kid x.2 = k) (epochs st)).

Definition min_epoch (es : list Z) : Z :=
  match es with [] => 0 | e :: r => fold_left Z.min r e end.

(** [while (state.epochs.size >= MAX_LIVE_EPOCHS) await retireEpoch(min)]: every
    turn removes one epoch, so the number of live epochs is enough fuel. *)
Fixpoint make_room (fuel : nat) (p : string) : op unit :=
  match fuel with
  | O => Ret tt
  | S f =>
    Seg (fun s =>
      match state_of s p with
      | Some st =>
        if MAX_LIVE_EPOCHS <=? OMap.size (epochs st)
        then (s, [], do! _ := retireEpoch p (min_epoch (OMap.keys (epochs st))) in make_room f p)
        else (s, [], Ret tt)
      | None => (s, [], Ret tt)
      end)
  end.

(** The library's slot of every endpoint bound to [p] gets the key; the
    endpoints accept the slot after the fence. *)
Definition bound_to (p : string) (s : worker) : list string :=
  OMap.keys (filter (fun x => pid x.2 = p) (endpoints s)).

Definition publish_slot (p : string) (k e : Z) (ids : list string) (s : worker) : worker :=
  fold_left (fun s id => update_endpoint id (fun ep =>
    if bool_decide (pid ep = p) && liveEpoch s p e then ep <| kids := OMap.set k e (kids ep) |> else ep) s) ids s.

Section key_op.
(** The SHA-256 fingerprint of a raw key, and the clock of the segment that
    installs it. *)
Variable sha256 : list Z -> list Z.
Variable now : Z.

Definition install_entry (p : string) (e k : Z) (raw : list Z) : op reply :=
  Seg (fun s =>
    match state_of s p with
    | None => (s, [], Ret RDone)
    | Some st =>
      let en := Entry k raw (sha256 raw) now (nextEntry s) in
      let s1 := set_pid p (st <| epochs := OMap.set e en (epochs st) |>) s <| nextEntry := S (nextEntry s) |> in
      let waiting := bound_to p s1 in
      (s1, map (fun id => LkSetKey (match OMap.get id (endpoints s1) with Some ep => libraryID ep | None => 0%nat end)
                            (Some raw) k false) waiting,
       do! _ := fence in
       Seg (fun s => (publish_slot p k e waiting s, [], Ret (RInstalled true))))
    end).

Definition op_key (p : string) (e k : Z) (raw : list Z) : op reply :=
  if negb (validPid p) || negb (validEpoch e) || negb (validKid k) || negb (Z.of_nat (length raw) =? 32)
  then Throw "invalid media key"
  else Seg (fun s =>
    if e <=? retiredThrough s p then (s, [], Throw "retired media epoch")
    else
      (* the digest is computed *)
      (s, [], Seg (fun s =>
        match entry_of s p e with
        | Some existing =>
          if negb (bool_decide (fp existing = sha256 raw)) || negb (kid existing =? k)
          then (s, [], Throw "conflicting media key for epoch")
          else (s, [], Ret (RInstalled false))
        | None =>
          if negb (OMap.has p (pids s)) && (MAX_PIDS <=? OMap.size (pids s))
          then (s, [], Throw "media key capacity reached")
          else
            let s1 := if OMap.has p (pids s) then s else set_pid p (PidState [] 0 (retiredThrough s p)) s in
            (* the key is imported *)
            (s1, [], Seg (fun s =>
              match state_of s p with
              | None => (s, [], Throw "retired media epoch")
              | Some st =>
                if (e <=? retiredThrough s p) || OMap.has e (epochs st)
                then (s, [], Throw "retired media epoch")
                else if existsb (fun old => e <? old) (slot_holders st k)
                then (s, [], Throw "a newer media epoch holds this key slot")
                else
                  (s, [],
                   do! _ := retire_each p (slot_holders st k) in
                   do! _ := make_room (length (epochs st)) p in
                   install_entry p e k raw)
              end))
        end))).
End key_op.

Definition op_activate (p : string) (e : Z) : op reply :=
  Seg (fun s =>
    match state_of s p with
    | None => (s, [], Throw "unknown media epoch")
    | Some st =>
      match OMap.get e (epochs st) with
      | None => (s, [], Throw "unknown media epoch")
      | Some en =>
        if negb (active st =? 0) && (e <? active st)
        then (s, [], Throw "media epoch is older than the active one")
        else
          let (s1, out1) := if active st =? e then (s, [])
                            else for_endpoints (cancel_if (fun ep => bool_decide (pid ep = p))) s in
          let s2 := set_pid p (st <| active := e |>) s1 in
          let out2 := omap (fun x => if bool_decide (pid x.2 = p) && bool_decide (operation_ x.2 = Encode)
                             then Some (LkSetKey (libraryID x.2) (Some (key en)) (kid en) true) else None)
                        (endpoints s2) in
          (s2, out1 ++ out2, do! _ := fence in Ret RDone)
      end
    end).

Definition live_epochs (s : worker) (p : string) : list Z :=
  match state_of s p with Some st => OMap.keys (epochs st) | None => [] end.

Definition op_retire (p : string) (through : Z) : op reply :=
  if negb (validPid p) || negb (is_safe_integer through) then Throw "invalid media retirement"
  else Seg (fun s =>
    (s, [],
     do! _ := retire_each p (filter (fun e => e <= through) (live_epochs s p)) in
     Seg (fun s =>
       let s1 := if 0 <? through then mark p through s else s in
       let s2 := match state_of s1 p with
                 | Some st => set_pid p (st <| retired := Z.max (retired st) through |>) s1
                 | None => s1
                 end in
       (s2, [], do! _ := fence in Ret RDone)))).

Definition op_retireOne (p : string) (e : Z) : op reply :=
  if negb (validPid p) || negb (validEpoch e) then Throw "invalid media retirement"
  else do! _ := retireEpoch p e in do! _ := fence in Ret RDone.

Definition op_forget (p : string) : op reply :=
  if negb (validPid p) then Throw "invalid media pid"
  else Seg (fun s =>
    let (s1, out) := for_endpoints (cancel_if (fun ep => bool_decide (pid ep = p))) s in
    (s1, out,
     do! _ := retire_each p (live_epochs s p) in
     Seg (fun s => (s <| pids := OMap.del p (pids s) |>, [], do! _ := fence in Ret RDone)))).

Definition op_detach (id : string) : op reply :=
  if negb (validEndpoint id) then Throw "invalid media endpoint"
  else Seg (fun s =>
    let s0 := s <| pendingBinds := OMap.del id (pendingBinds s) |> in
    match OMap.get id (endpoints s0) with
    | None => (s0, [], Ret RDone)
    | Some ep =>
      let (ep1, out) := finish_hold id "cancelled" ep in
      let ep2 := ep1 <| ready := false |> <| gen := gen ep + 1 |> <| pid := ""%string |> <| kids := [] |>
                   <| hardwareUntil := 0 |> <| aborted := true |> in
      (s0 <| endpoints := OMap.set id ep2 (endpoints s0) |>, out,
       (* the output pipe closes, the junk key is made *)
       emit (map (fun k => LkSetKey (libraryID ep) None k false) ring)
       (Seg (fun s =>
         (s <| endpoints := OMap.del id (endpoints s) |>, [LkRemove (libraryID ep)],
          do! _ := fence in
          Seg (fun s =>
            (s <| freeLibrarySlots := freeLibrarySlots s ++ [(libraryID ep, operation_ ep, kind_ ep)] |>,
             [], Ret RDone))))))
    end).

Definition scope_current (s : worker) (id : string) (ep : endpoint) (sc : hardware_scope) : bool :=
  ready ep && negb (aborted ep) && (gen ep =? sc_gen sc) && bool_decide (pid ep = sc_pid sc) &&
  bool_decide (sourceTag ep = sc_tag sc) && (active_of s (sc_pid sc) =? sc_epoch sc) &&
  match entry_of s (sc_pid sc) (sc_epoch sc) with Some en => (eid en =? sc_entry sc)%nat | None => false end &&
  bool_decide (OMap.get (sc_kid sc) (kids ep) = Some (sc_epoch sc)).

(** [hardwareProof]: one segment. *)
Definition op_hardwareProof (now : Z) (id p tag : string) (enabled : bool) : op reply :=
  Seg (fun s =>
    match OMap.get id (endpoints s) with
    | None => (s, [], Throw "invalid hardware proof")
    | Some ep =>
      if negb (bool_decide (operation_ ep = Encode)) || negb (bool_decide (kind_ ep = Video))
      then (s, [], Throw "invalid hardware proof")
      else if negb (bool_decide (p = pid ep)) || negb (bool_decide (tag = sourceTag ep))
      then (s, [], Ret RSuperseded)
      else
        let wasActive := now <? hardwareUntil ep in
        let ep1 := ep <| hardwareUntil := if enabled then now + HARDWARE_PROOF_MS else 0 |> in
        if negb enabled then (s <| endpoints := OMap.set id ep1 (endpoints s) |>, [], Ret RDone)
        else
          let ep2 := ep1 <| hardwareProven := true |> in
          let (ep3, out) :=
            match hardwareHold ep2 with
            | Some h => if scope_current s id ep2 (h_scope h)
                        then finish_hold id (if now <? h_deadline h then "proof" else "timeout") ep2
                        else (ep2, [])
            | None => (ep2, [])
            end in
          if wasActive then (s <| endpoints := OMap.set id ep3 (endpoints s) |>, out, Ret RDone)
          else (s <| endpoints := OMap.set id (ep3 <| needsKeyframe := true |>) (endpoints s) |>,
                out ++ [HardwareReady id (pid ep)], Ret RDone)
    end).

(** ** Streams *)

Fixpoint take_slot (f : nat * operation * kind -> bool) (l : list (nat * operation * kind))
    : option (nat * list (nat * operation * kind)) :=
  match l with
  | [] => None
  | x :: r => if f x then Some (x.1.1, r)
              else match take_slot f r with Some (i, r') => Some (i, x :: r') | None => None end
  end.

(** A library slot for a new endpoint: a free one of the same operation and
    kind, else any free one, else a new one. *)
Definition library_slot (o : operation) (k : kind) (s : worker) : option (nat * worker) :=
  match take_slot (fun x => bool_decide (x.1.2 = o) && bool_decide (x.2 = k)) (freeLibrarySlots s) with
  | Some (i, r) => Some (i, s <| freeLibrarySlots := r |>)
  | None =>
    match freeLibrarySlots s with
    | x :: r => Some (x.1.1, s <| freeLibrarySlots := r |>)
    | [] => if Z.of_nat (librarySlots s) <? MAX_ENDPOINTS
            then Some (S (librarySlots s), s <| librarySlots := S (librarySlots s) |>)
            else None
    end
  end.

Definition new_endpoint (o : operation) (k : kind) (lib : nat) (hw : bool) : endpoint :=
  Endpoint o k lib false "" 0 false [] false hw 0 0 false false false None false "" 0 [].

(** [attach] runs synchronously; a binding kept for the endpoint is queued. *)
Definition attach (id : string) (o : operation) (k : kind) (hw : bool) (s : worker)
    : result string (worker * list effect * option (op reply)) :=
  if negb (validEndpoint id) then Err "invalid media endpoint"%string
  else if OMap.has id (endpoints s) then Err "media endpoint already attached"%string
  else if MAX_ENDPOINTS <=? OMap.size (endpoints s) then Err "media endpoint capacity reached"%string
  else match library_slot o k s with
       | None => Err "media cryptor capacity reached"%string
       | Some (lib, s1) =>
         let s2 := s1 <| endpoints := OMap.set id (new_endpoint o k lib hw) (endpoints s1) |> in
         let out := [LkEnable lib; LkTransform lib o k] in
         match OMap.get id (pendingBinds s2) with
         | Some (p, tag) => Ok (s2 <| pendingBinds := OMap.del id (pendingBinds s2) |>, out, Some (op_bind id p tag))
         | None => Ok (s2, out, None)
         end
       end.

Definition SCREEN : string := "self|screen".

Definition frame_len (f : encoded_frame) : Z := Z.of_nat (length (data f)).

Definition remember (fid : nat) (i : input) (ep : endpoint) : endpoint :=
  ep <| inputs := OMap.set fid i (inputs ep) |>.

Definition put (id : string) (ep : endpoint) (s : worker) : worker :=
  s <| endpoints := OMap.set id ep (endpoints s) |>.

(** The rest of an encoder's first transform, after the hardware hold. *)
Definition pre_encode_rest (id : string) (fid : nat) (f : encoded_frame) (now : Z)
    (scope : option hardware_scope) (held : bool) (ep : endpoint) (s : worker) : worker * list effect :=
  let enqueue f ep :=
    match mediaFrameEnvelope f false with
    | None => (put id ep s, [Dropped id DCodec])
    | Some env =>
      (put id (remember fid (Input (gen ep) (pid ep) (Z.of_nat (size env)) 0 [] scope held) ep) s,
       [ToCipher id fid f])
    end in
  if hardwareRequired ep && bool_decide (pid ep = SCREEN) && (hardwareUntil ep <=? now) then
    if hardwareProbed ep || hardwareProven ep then (put id ep s, [Dropped id DHardware])
    else match hardwareProbeFrame f with
         | None => (put id ep s, [Dropped id DHardware])
         | Some probe => enqueue (EFrame probe (mimeType f) (isKey f)) (ep <| hardwareProbed := true |>)
         end
  else if needsKeyframe ep then
    if negb (isKey f) then (put id ep s, [Dropped id DHardware])
    else enqueue f (ep <| needsKeyframe := false |>)
  else enqueue f ep.

(** [waitForInitialHardwareProof]: the scope of the hold, if it can start. *)
Definition hold_scope (s : worker) (id : string) (ep : endpoint) : option hardware_scope :=
  let e := active_of s (pid ep) in
  match entry_of s (pid ep) e with
  | None => None
  | Some en =>
    let sc := Scope (gen ep) (pid ep) (sourceTag ep) e (kid en) (eid en) in
    if scope_current s id ep sc then Some sc else None
  end.

Definition pre_encode (id : string) (fid : nat) (f : encoded_frame) (now : Z) (ep : endpoint) (s : worker)
    : worker * list effect :=
  if (OMap.size (kids ep) =? 0) || (active_of s (pid ep) =? 0) then (s, [Dropped id DNokey])
  else
    let screen := hardwareRequired ep && bool_decide (pid ep = SCREEN) in
    let check := screen && (hardwareCheckAt ep <=? now) in
    let ep1 := if check then ep <| hardwareCheckAt := now + 300 |> else ep in
    let out1 := if check then [HardwareCheck id] else [] in
    if screen && (hardwareUntil ep <=? now) && negb (hardwareProbed ep) && negb (hardwareProven ep) &&
       negb (hardwareHoldAttempted ep) && isKey f && (frame_len f <=? MAX_INITIAL_KEYFRAME_BYTES) &&
       bool_decide (mediaFrameEnvelope f false <> None)
    then
      let ep2 := ep1 <| hardwareHoldAttempted := true |> in
      match hold_scope s id ep2 with
      | None => (put id ep2 s, out1 ++ [Dropped id DStale])
      | Some sc => (put id (ep2 <| hardwareHold := Some (Hold sc (now + INITIAL_KEYFRAME_HOLD_MS)) |>) s, out1)
      end
    else let (s', out2) := pre_encode_rest id fid f now None false ep1 s in (s', out1 ++ out2).

(** The held key frame continues when its hold is finished. *)
Definition pre_resume (id : string) (fid : nat) (f : encoded_frame) (now : Z) (why : string) (h : hold)
    (s : worker) : worker * list effect :=
  match OMap.get id (endpoints s) with
  | None => (s, [Dropped id DStale])
  | Some ep =>
    if bool_decide (why = "cancelled"%string) || negb (scope_current s id ep (h_scope h))
    then (s, [Dropped id DStale])
    else
      let proof := bool_decide (why = "proof"%string) in
      if (proof && (h_deadline h <=? now)) || (negb proof && hardwareProven ep)
      then (s, [Dropped id DHardware])
      else pre_encode_rest id fid f now (Some (h_scope h)) proof ep s
  end.

(** The timer of a hold. *)
Definition hold_timeout (id : string) (s : worker) : worker * list effect :=
  match OMap.get id (endpoints s) with
  | None => (s, [])
  | Some ep => let (ep', out) := finish_hold id "timeout" ep in (put id ep' s, out)
  end.

(** [l[l.length - n]] *)
Definition nth_last (l : list Z) (n : nat) : option Z :=
  if (n <=? length l)%nat then l !! (length l - n)%nat else None.

Definition pre_decode (id : string) (fid : nat) (f : encoded_frame) (now : Z) (ep : endpoint) (s : worker)
    : worker * list effect :=
  match mediaFrameEnvelope f true with
  | None => (s, [Dropped id DCodec])
  | Some env =>
    let bytes := tail env in
    let n := length bytes in
    match nth_last bytes 1, nth_last bytes 2 with
    | Some k, Some ivlen =>
      if (Z.of_nat n <? MIN_ENCRYPTED) || negb (ivlen =? IV_LENGTH) then (s, [Dropped id DPlaintext])
      else match OMap.get k (kids ep) with
           | None => (s, [Dropped id DNokey])
           | Some e =>
             match entry_of s (pid ep) e with
             | None => (s, [Dropped id DNokey])
             | Some en =>
               if MAX_RECEIVE_EPOCH_AGE <? now - at_ en then (s, [Dropped id DStale])
               else
                 let iv := take 12 (drop (n - 14) bytes) in
                 (put id (remember fid (Input (gen ep) (pid ep) (Z.of_nat (size env)) e iv None false) ep) s,
                  [ToCipher id fid f])
             end
           end
    | _, _ => (s, [Dropped id DPlaintext])
    end
  end.

(** The first transform: what reaches the cipher. *)
Definition pre (id : string) (fid : nat) (f : encoded_frame) (now : Z) (s : worker) : worker * list effect :=
  match OMap.get id (endpoints s) with
  | None => (s, [])
  | Some ep =>
    if negb (ready ep) || bool_decide (pid ep = ""%string) then (s, [Dropped id DUnbound])
    else if bool_decide (data f = []) then (s, [Dropped id DEmpty])
    else if negb (codecAllowed f (kind_ ep)) then (s, [Dropped id DCodec])
    else match operation_ ep with
         | Encode => pre_encode id fid f now ep s
         | Decode => pre_decode id fid f now ep s
         end
  end.

Definition dropInitialFrame (id : string) (i : input) (ep : endpoint) (s : worker) : worker * list effect :=
  let back := match i_scope i with
    | Some sc => i_held i && ready ep && negb (aborted ep) && (gen ep =? i_gen i) &&
                 bool_decide (pid ep = i_pid i) && bool_decide (sourceTag ep = sc_tag sc)
    | None => false
    end in
  (put id (if back then ep <| hardwareUntil := 0 |> <| needsKeyframe := true |> else ep) s, [Dropped id DStale]).

Definition post_encode (id : string) (f : encoded_frame) (now : Z) (i : input) (ep : endpoint) (s : worker)
    : worker * list effect :=
  let stale_scope := match i_scope i with
    | Some sc => negb (scope_current s id ep sc) || (i_held i && (hardwareUntil ep <=? now))
    | None => false
    end in
  if stale_scope then dropInitialFrame id i ep s
  else match mediaFrameEnvelope f true with
       | None => (put id ep s, [Dropped id DUnencrypted])
       | Some env =>
         let bytes := tail env in
         match nth_last bytes 1, nth_last bytes 2 with
         | Some k, Some ivlen =>
           match OMap.get k (kids ep) with
           | Some e =>
             if negb (Z.of_nat (size env) =? i_n i + OVERHEAD) || negb (ivlen =? IV_LENGTH) ||
                negb (liveEpoch s (pid ep) e)
             then (put id ep s, [Dropped id DUnencrypted])
             else if match i_scope i with Some sc => negb (e =? sc_epoch sc) | None => false end
             then dropInitialFrame id i ep s
             else (put id (ep <| frames_ := frames_ ep + 1 |>) s <| encrypted_ := encrypted_ s + 1 |>,
                   [Deliver id f])
           | None => (put id ep s, [Dropped id DUnencrypted])
           end
         | _, _ => (put id ep s, [Dropped id DUnencrypted])
         end
       end.

Definition verdict_reason (v : verdict) : reason :=
  match v with VDuplicate => DReplay | VOld => DReplayOld | VFull => DReplayFull | _ => DReplayInvalid end.

Definition post_decode (id : string) (f : encoded_frame) (i : input) (ep : endpoint) (s : worker)
    : worker * list effect :=
  if negb (liveEpoch s (i_pid i) (i_epoch i)) then (put id ep s, [Dropped id DStale])
  else if match mediaFrameEnvelope f false with
          | Some env => negb (Z.of_nat (size env) =? i_n i - OVERHEAD)
          | None => true
          end
  then (put id ep s, [Dropped id DUnauthenticated])
  else
    let k := (i_pid i, i_epoch i) in
    let window := match OMap.get k (windows s) with Some w => w | None => default_window end in
    let (window', v) := check window (i_iv i) in
    let s1 := s <| windows := OMap.set k window' (windows s) |> in
    if negb (bool_decide (v = VOk)) then (put id ep s1, [Dropped id (verdict_reason v)])
    else
      let ep1 := ep <| frames_ := frames_ ep + 1 |> <| authenticated := true |> in
      (put id ep1 s1 <| decrypted_ := decrypted_ s + 1 |>,
       (if authenticated ep then [] else [FirstFrame id (gen ep)]) ++ [Deliver id f]).

(** The second transform: what leaves the worker. *)
Definition post (id : string) (fid : nat) (f : encoded_frame) (now : Z) (s : worker) : worker * list effect :=
  match OMap.get id (endpoints s) with
  | None => (s, [])
  | Some ep0 =>
    let ep := ep0 <| inputs := OMap.del fid (inputs ep0) |> in
    match OMap.get fid (inputs ep0) with
    | None => (put id ep s, [Dropped id DStale])
    | Some i =>
      if negb (i_gen i =? gen ep) || negb (bool_decide (i_pid i = pid ep)) || negb (ready ep)
      then (put id ep s, [Dropped id DStale])
      else match operation_ ep with
           | Encode => post_encode id f now i ep s
           | Decode => post_decode id f i ep s
           end
    end
  end.

(** ** The message loop *)

(** The page's messages, except [attach]; [now] is the clock where the handler
    reads it. *)
Inductive request :=
| QBind (id p tag : string)
| QKey (p : string) (e k : Z) (raw : list Z) (now : Z)
| QActivate (p : string) (e : Z)
| QRetire (p : string) (through : Z)
| QRetireOne (p : string) (e : Z)
| QForget (p : string)
| QDetach (id : string)
| QHardwareProof (now : Z) (id p tag : string) (enabled : bool).

Section world.
Variable sha256 : list Z -> list Z.

Definition to_op (r : request) : op reply :=
  match r with
  | QBind id p tag => op_bind id p tag
  | QKey p e k raw now => op_key sha256 now p e k raw
  | QActivate p e => op_activate p e
  | QRetire p through => op_retire p through
  | QRetireOne p e => op_retireOne p e
  | QForget p => op_forget p
  | QDetach id => op_detach id
  | QHardwareProof now id p tag b => op_hardwareProof now id p tag b
  end.

(** The worker, the operation in progress and the [serial] queue. *)
Record world := World { wk : worker; running : option (op reply); queue : list request }.
Definition new_world : world := World new_worker None [].

(** Whether the replay window judged the frame, and let it pass. *)
Definition judged (out : list effect) : option bool :=
  if existsb (fun o => match o with Deliver _ _ => true | _ => false end) out then Some true
  else if existsb (fun o => match o with
                            | Dropped _ (DReplay | DReplayOld | DReplayFull | DReplayInvalid) => true
                            | _ => false end) out
  then Some false else None.

(** An authenticated frame at a receiver, by publication, epoch and IV, and
    whether it is passed on. *)
Definition decoded (id : string) (fid : nat) (f : encoded_frame) (now : Z) (s : worker)
    : option (string * Z * list Z * bool) :=
  match OMap.get id (endpoints s) with
  | Some ep =>
    match operation_ ep, OMap.get fid (inputs ep), judged (post id fid f now s).2 with
    | Decode, Some i, Some b => Some (i_pid i, i_epoch i, i_iv i, b)
    | _, _, _ => None
    end
  | None => None
  end.

(** One step of the worker thread; the label is the authenticated frame a
    receiver judged. *)
Inductive wstep : world -> option (string * Z * list Z * bool) -> world -> Prop :=
| ws_message w r :
    wstep w None (World (wk w) (running w) (queue w ++ [r]))
| ws_start s r q :
    wstep (World s None (r :: q)) None (World s (Some (to_op r)) q)
| ws_segment s f q s' out o' :
    f s = (s', out, o') -> wstep (World s (Some (Seg f)) q) None (World s' (Some o') q)
| ws_finish s o q :
    (forall f, o <> Seg f) -> wstep (World s (Some o) q) None (World s None q)
| ws_attach w id o k hw s' out b :
    attach id o k hw (wk w) = Ok (s', out, b) ->
    wstep w None (World s' (running w)
      (queue w ++ match b, OMap.get id (pendingBinds (wk w)) with
                  | Some _, Some (p, tag) => [QBind id p tag]
                  | _, _ => []
                  end))
| ws_pre w id fid f now s' out :
    pre id fid f now (wk w) = (s', out) -> wstep w None (World s' (running w) (queue w))
| ws_resume w id fid f now why h s' out :
    pre_resume id fid f now why h (wk w) = (s', out) -> wstep w None (World s' (running w) (queue w))
| ws_hold_timeout w id s' out :
    hold_timeout id (wk w) = (s', out) -> wstep w None (World s' (running w) (queue w))
| ws_post w id fid f now s' out :
    post id fid f now (wk w) = (s', out) ->
    wstep w (decoded id fid f now (wk w)) (World s' (running w) (queue w)).
End world.

(** Runs a program to its end without interference. *)
Fixpoint run_op {A} (o : op A) (s : worker) : worker * result string A :=
  match o with
  | Ret a => (s, Ok a)
  | Throw e => (s, Err e)
  | Seg f => let '(s', _, o') := f s in run_op o' s'
  end.

(** ** What leaves the worker *)

Definition delivers (out : list effect) : bool :=
  existsb (fun o => match o with Deliver _ _ => true | _ => false end) out.

Lemma unescape_from_length z2 z1 l : (length (unescape_from z2 z1 l) <= length l)%nat.
Proof.
  revert z2 z1. induction l as [|b r IH]; intros z2 z1; [done|]. cbn [unescape_from].
  specialize (IH z1 (Some b)). destruct (_ && _); simpl; lia.
Qed.

(** Unescaping the tail never makes the canonical size larger. *)
Lemma envelope_sizes f e1 e2 :
  mediaFrameEnvelope f true = Some e1 -> mediaFrameEnvelope f false = Some e2 -> (size e1 <= size e2)%nat.
Proof.
  unfold mediaFrameEnvelope. destruct (_ || _); [done|].
  destruct (negb _); [by intros [= <-] [= <-]|].
  destruct (h264ClearHeader (data f)) as [h|]; [|done]. intros [= <-] [= <-]. simpl.
  pose proof (unescape_from_length None None (drop (hlength h) (data f))). unfold unescapeTail. lia.
Qed.

Lemma dropInitialFrame_no_delivery id i ep s : delivers (dropInitialFrame id i ep s).2 = false.
Proof. unfold dropInitialFrame. by repeat case_match. Qed.

(** The facts a delivered encoder frame has been checked for. *)
Record encrypted_ok (s : worker) (f : encoded_frame) (i : input) (ep : endpoint) : Prop := {
  eo_binding : i_gen i = gen ep /\ i_pid i = pid ep /\ ready ep = true;
  eo_layout : exists env k e, mediaFrameEnvelope f true = Some env /\
    Z.of_nat (size env) = i_n i + OVERHEAD /\
    nth_last (tail env) 2 = Some IV_LENGTH /\ nth_last (tail env) 1 = Some k /\
    OMap.get k (kids ep) = Some e /\ liveEpoch s (pid ep) e = true /\
    (forall sc, i_scope i = Some sc -> e = sc_epoch sc) }.

Lemma post_encode_delivers id f now i ep s :
  delivers (post_encode id f now i ep s).2 = true ->
  exists env k e, mediaFrameEnvelope f true = Some env /\
    Z.of_nat (size env) = i_n i + OVERHEAD /\
    nth_last (tail env) 2 = Some IV_LENGTH /\ nth_last (tail env) 1 = Some k /\
    OMap.get k (kids ep) = Some e /\ liveEpoch s (pid ep) e = true /\
    (forall sc, i_scope i = Some sc -> e = sc_epoch sc).
Proof.
  unfold post_encode.
  destruct (match i_scope i with Some _ => _ | None => false end); [by rewrite dropInitialFrame_no_delivery|].
  destruct (mediaFrameEnvelope f true) as [env|]; [|done].
  destruct (nth_last (tail env) 1) as [k|] eqn:E1; [|done].
  destruct (nth_last (tail env) 2) as [iv|] eqn:E2; [|done].
  destruct (OMap.get k (kids ep)) as [e|] eqn:Ek; [|done].
  destruct (Z.eqb_spec (Z.of_nat (size env)) (i_n i + OVERHEAD)); [|done].
  destruct (Z.eqb_spec iv IV_LENGTH) as [->|]; [|done].
  destruct (liveEpoch s (pid ep) e) eqn:El; [|done]. cbn [negb orb].
  destruct (i_scope i) as [sc|] eqn:Es.
  - destruct (Z.eqb_spec e (sc_epoch sc)); cbn [negb]; [|by rewrite dropInitialFrame_no_delivery].
    intros _. exists env, k, e. split_and!; [done..|]. by intros ? [= <-].
  - intros _. exists env, k, e. by split_and!.
Qed.

(** The facts a delivered receiver frame has been checked for. *)
Lemma post_decode_delivers id f i ep s :
  delivers (post_decode id f i ep s).2 = true ->
  liveEpoch s (i_pid i) (i_epoch i) = true /\
  (exists env, mediaFrameEnvelope f false = Some env /\ Z.of_nat (size env) = i_n i - OVERHEAD) /\
  (check (match OMap.get (i_pid i, i_epoch i) (windows s) with Some w => w | None => default_window end)
     (i_iv i)).2 = VOk.
Proof.
  unfold post_decode. destruct (liveEpoch s _ _); [|done]. cbn [negb].
  destruct (mediaFrameEnvelope f false) as [env|]; [|done].
  destruct (Z.eqb_spec (Z.of_nat (size env)) (i_n i - OVERHEAD)); [|done]. cbn [negb].
  destruct (check _ _) as [w' v]. destruct (bool_decide_reflect (v = VOk)) as [->|]; [|done].
  intros _. split_and!; [done|eauto|done].
Qed.

(** The endpoint and the recorded input behind a delivered frame. *)
Lemma post_delivers id fid f now s ep :
  OMap.get id (endpoints s) = Some ep -> delivers (post id fid f now s).2 = true ->
  exists i, OMap.get fid (inputs ep) = Some i /\ i_gen i = gen ep /\ i_pid i = pid ep /\ ready ep = true /\
    match operation_ ep with
    | Encode => delivers (post_encode id f now i (ep <| inputs := OMap.del fid (inputs ep) |>) s).2 = true
    | Decode => delivers (post_decode id f i (ep <| inputs := OMap.del fid (inputs ep) |>) s).2 = true
    end.
Proof.
  intros Hep. unfold post. rewrite Hep. destruct (OMap.get fid (inputs ep)) as [i|]; [|done].
  cbn. destruct (Z.eqb_spec (i_gen i) (gen ep)); [|done].
  destruct (bool_decide_reflect (i_pid i = pid ep)); [|done].
  destruct (ready ep) eqn:Er; [|done]. cbn [negb orb]. intros H. exists i.
  split_and!; [done..|]. by destruct (operation_ ep).
Qed.

(** ** Properties *)

(** C38: whatever the cipher library returns, an encoder only lets out a frame
    that it handed to the library under the endpoint's current binding, whose
    canonical size grew by exactly the cipher's overhead, which carries the
    encrypted trailer, and whose key slot belongs to a live epoch of the bound
    publication. *)
Theorem encoder_emits_only_encrypted id fid f now s ep :
  OMap.get id (endpoints s) = Some ep -> operation_ ep = Encode ->
  delivers (post id fid f now s).2 = true ->
  exists i, OMap.get fid (inputs ep) = Some i /\ encrypted_ok s f i ep.
Proof.
  intros Hep Ho Hd. destruct (post_delivers _ _ _ _ _ _ Hep Hd) as (i & Hi & Hg & Hp & Hr & H).
  rewrite Ho in H. exists i. split; [done|]. split; [done|].
  destruct (post_encode_delivers _ _ _ _ _ _ H) as (env & k & e & ?). by exists env, k, e.
Qed.

(** A microphone endpoint bound to its publication with one active key. *)
Definition demo_sha (k : list Z) : list Z := k.
Definition run_all (rs : list request) (s : worker) : worker :=
  fold_left (fun s r => (run_op (to_op demo_sha r) s).1) rs s.
Definition demo_worker (o : operation) : worker :=
  match attach "ep:1" o Audio false new_worker with
  | Ok (s, _, _) => run_all [QBind "ep:1" "self|mic" ""; QKey "self|mic" 10 3 (repeat 7 32) 0;
                             QActivate "self|mic" 10] s
  | Err _ => new_worker
  end.
Definition demo_plain : encoded_frame := EFrame (repeat 1 5) None true.
Definition demo_cipher : encoded_frame := EFrame (repeat 9 33 ++ [12; 3]) None true.

Lemma encoder_emits_only_encrypted_witness :
  let s := (pre "ep:1" 0 demo_plain 0 (demo_worker Encode)).1 in
  delivers (post "ep:1" 0 demo_cipher 0 s).2 = true /\
  exists ep i, OMap.get "ep:1"%string (endpoints s) = Some ep /\ OMap.get 0%nat (inputs ep) = Some i /\
               encrypted_ok s demo_cipher i ep.
Proof.
  intros s. split; [vm_compute; reflexivity|].
  destruct (OMap.get "ep:1"%string (endpoints s)) as [ep|] eqn:E; [|vm_compute in E; discriminate].
  exists ep. destruct (encoder_emits_only_encrypted "ep:1" 0 demo_cipher 0 s ep E) as (i & Hi & H).
  - vm_compute in E. injection E as <-. reflexivity.
  - vm_compute. reflexivity.
  - exists i. auto.
Defined.

(** A frame the cipher library forwards unchanged never gets out: an
    encoder does not emit the frame it was given (no plaintext), and a receiver
    does not pass on a frame that was not decrypted. *)
Theorem unchanged_frame_dropped id fid f now s ep i env :
  OMap.get id (endpoints s) = Some ep -> OMap.get fid (inputs ep) = Some i ->
  mediaFrameEnvelope f (bool_decide (operation_ ep = Decode)) = Some env -> i_n i = Z.of_nat (size env) ->
  delivers (post id fid f now s).2 = false.
Proof.
  intros Hep Hi Henv Hn. apply not_true_iff_false. intros Hd.
  destruct (post_delivers _ _ _ _ _ _ Hep Hd) as (i' & Hi' & _ & _ & _ & H). rewrite Hi in Hi'.
  injection Hi' as <-. unfold OVERHEAD, IV_LENGTH in *. destruct (operation_ ep).
  - apply post_encode_delivers in H as (env' & k & e & Henv' & Hs & _).
    rewrite bool_decide_false in Henv by done. pose proof (envelope_sizes _ _ _ Henv' Henv).
    unfold OVERHEAD, IV_LENGTH in Hs. lia.
  - apply post_decode_delivers in H as (_ & (env' & Henv' & Hs) & _).
    rewrite bool_decide_true in Henv by done. pose proof (envelope_sizes _ _ _ Henv Henv').
    unfold OVERHEAD, IV_LENGTH in Hs. lia.
Qed.

Lemma unchanged_frame_dropped_witness :
  let s := (pre "ep:1" 0 demo_plain 0 (demo_worker Encode)).1 in
  (pre "ep:1" 0 demo_plain 0 (demo_worker Encode)).2 = [ToCipher "ep:1" 0 demo_plain] /\
  delivers (post "ep:1" 0 demo_plain 0 s).2 = false.
Proof.
  intros s. split; [vm_compute; reflexivity|].
  eapply (unchanged_frame_dropped "ep:1" 0 demo_plain 0 s); vm_compute; reflexivity.
Defined.
