(* ===== verification/MediaWorkerSafety.v ===== *)
(** * Safety of the media worker under every interleaving

    [MediaWorker] gives the worker's operations as programs of segments.  This
    file has the program logic for them (an invariant that every segment keeps,
    assertions that frames and streams passing between two segments cannot
    break) and the safety theorems: a received frame is passed on at most once
    over the whole life of a publication; what happens to the retirement mark
    of a publication that was forgotten. *)

From stdpp Require Import base list strings.
From Stdlib Require Import ZArith Lia.
From S2P Require Import Prelude MediaReplay MediaEnvelope MediaWorker.

(** Induction over programs. *)
Fixpoint op_rect_nested {A} (P : op A -> Prop) (Hret : forall a, P (Ret a)) (Hthrow : forall e, P (Throw e))
    (Hseg : forall f, (forall s, P (f s).2) -> P (Seg f)) (o : op A) : P o :=
  match o with
  | Ret a => Hret a
  | Throw e => Hthrow e
  | Seg f => Hseg f (fun s => match f s as r return P r.2 with
                              | (_, o') => op_rect_nested P Hret Hthrow Hseg o'
                              end)
  end.

(** ** A program logic for segments *)

Section logic.
(** Ghost state beside the worker, the invariant, and what may happen
    between two segments. *)
Context {D : Type}.
Variable I : worker -> D -> Prop.
Variable interf : worker -> D -> worker -> D -> Prop.

Definition stable (P : worker -> D -> Prop) : Prop :=
  forall s d s' d', I s d -> interf s d s' d' -> P s d -> P s' d'.

(** [ok Q o R]: from every state with [Q], each segment of [o] keeps the
    invariant whatever happens in between, and a result has [R]. *)
Fixpoint ok {A} (Q : worker -> D -> Prop) (o : op A) (R : A -> worker -> D -> Prop) : Prop :=
  match o with
  | Ret a => forall s d, I s d -> Q s d -> R a s d
  | Throw _ => True
  | Seg f => exists P : worker -> D -> Prop,
      (forall s d, I s d -> Q s d -> P s d) /\ stable P /\
      forall s d, I s d -> P s d ->
        I (f s).1.1 d /\ exists Q' : worker -> D -> Prop, Q' (f s).1.1 d /\ ok Q' (f s).2 R
  end.

Lemma ok_conseq {A} (o : op A) Q Q' (R R' : A -> worker -> D -> Prop) :
  (forall s d, I s d -> Q' s d -> Q s d) -> (forall a s d, I s d -> R a s d -> R' a s d) ->
  ok Q o R -> ok Q' o R'.
Proof.
  revert Q Q'. induction o as [a|e|f IH] using op_rect_nested; intros Q Q' HQ HR; simpl.
  - eauto.
  - done.
  - intros (P & HP & Hst & Hf). exists P. split; [eauto|]. split; [done|].
    intros s d Hi Hp. destruct (Hf s d Hi Hp) as (Hi' & Q1 & HQ1 & Hok). split; [done|].
    exists Q1. split; [done|]. eapply IH; [|exact HR|exact Hok]. done.
Qed.

Lemma ok_bind {A B} (m : op A) (k : A -> op B) Q R (R' : B -> worker -> D -> Prop) :
  ok Q m R -> (forall a, ok (R a) (k a) R') -> ok Q (obind m k) R'.
Proof.
  intros Hm Hk. revert Q Hm. induction m as [a|e|f IH] using op_rect_nested; intros Q Hm; simpl in *.
  - eapply ok_conseq; [|done|apply Hk]. eauto.
  - done.
  - destruct Hm as (P & HP & Hst & Hf). exists P. split; [done|]. split; [done|].
    intros s d Hi Hp. destruct (Hf s d Hi Hp) as (Hi' & Q' & HQ' & Hok).
    specialize (IH s). destruct (f s) as [[s' out] o'] eqn:E. simpl in *. eauto.
Qed.

(** The usual segment: a stable assertion on both sides. *)
Lemma ok_seg {A} (Q : worker -> D -> Prop) f (R : A -> worker -> D -> Prop) :
  stable Q ->
  (forall s d, I s d -> Q s d ->
     I (f s).1.1 d /\ exists Q' : worker -> D -> Prop, Q' (f s).1.1 d /\ ok Q' (f s).2 R) ->
  ok Q (Seg f) R.
Proof. intros Hst Hf. exists Q. eauto. Qed.

Lemma ok_emit {A} (Q : worker -> D -> Prop) out (k : op A) R : stable Q -> ok Q k R -> ok Q (emit out k) R.
Proof. intros Hst Hk. apply ok_seg; [done|]. simpl. eauto. Qed.

Lemma ok_scrub_ring Q lib ks : stable Q -> ok Q (scrub_ring lib ks) (fun _ => Q).
Proof. intros Hst. induction ks as [|k ks IH]; [simpl; eauto|]. by apply ok_emit. Qed.

Lemma ok_fence Q : stable Q -> ok Q fence (fun _ => Q).
Proof. intros Hst. apply ok_emit; [done|]. simpl. eauto. Qed.

Lemma stable_true : stable (fun _ _ => True).
Proof. done. Qed.
End logic.

(** ** Segments that only touch endpoints *)

Definition view (s : worker) : list (string * pid_state) * list (string * Z) * list ((string * Z) * MediaReplayWindow) :=
  (pids s, retiredMarks s, windows s).

(** An assertion that only reads the key tables and the replay windows. *)
Definition vdet {D} (Q : worker -> D -> Prop) : Prop :=
  forall s s' d, view s = view s' -> Q s d -> Q s' d.

Lemma view_update_endpoint id g s : view (update_endpoint id g s) = view s.
Proof. unfold update_endpoint. by case_match. Qed.

Lemma view_for_endpoints g s : view (for_endpoints g s).1 = view s.
Proof. unfold for_endpoints. by destruct (each_endpoint g (endpoints s)). Qed.

Lemma view_put id ep s : view (put id ep s) = view s.
Proof. done. Qed.

Lemma view_state_of s s' p : view s = view s' -> state_of s p = state_of s' p.
Proof. unfold view, state_of. congruence. Qed.

Lemma view_entry_of s s' p e : view s = view s' -> entry_of s p e = entry_of s' p e.
Proof. intros H. unfold entry_of. by rewrite (view_state_of s s'). Qed.

Lemma view_publish p k e ids s : view (publish_slot p k e ids s) = view s.
Proof.
  unfold publish_slot. revert s. induction ids as [|id ids IH]; intros s; [done|]. cbn [fold_left].
  by rewrite IH, view_update_endpoint.
Qed.

Section quiet.
Context {D : Type} (I : worker -> D -> Prop) (interf : worker -> D -> worker -> D -> Prop).
Hypothesis I_vdet : vdet I.

Lemma ok_quiet {A} (Q : worker -> D -> Prop) f (R : A -> worker -> D -> Prop) :
  stable I interf Q -> vdet Q -> (forall s, view (f s).1.1 = view s) ->
  (forall s, ok I interf Q (f s).2 R) -> ok I interf Q (Seg f) R.
Proof.
  intros Hst Hv Hview Hok. apply ok_seg; [done|]. intros s d Hi Hq. split.
  - eapply I_vdet; [|exact Hi]. by rewrite Hview.
  - exists Q. split; [|apply Hok]. eapply Hv; [|exact Hq]. by rewrite Hview.
Qed.

Lemma ok_scrub_slots Q p e k ids :
  stable I interf Q -> vdet Q -> ok I interf Q (scrub_slots p e k ids) (fun _ => Q).
Proof.
  intros Hst Hv. induction ids as [|id ids IH]; [simpl; eauto|]. apply ok_quiet; [done|done| |].
  - intros s. case_match; [|done]. destruct (_ && _); [|done]. apply view_update_endpoint.
  - intros s. case_match; [|done]. destruct (_ && _); [by apply ok_emit|done].
Qed.

Lemma ok_drop_unwanted Q id ks w :
  stable I interf Q -> vdet Q -> ok I interf Q (drop_unwanted id ks w) (fun _ => Q).
Proof.
  intros Hst Hv. induction ks as [|k ks IH]; [simpl; eauto|]. apply ok_quiet; [done|done| |].
  - intros s. case_match; [|done]. case_match; [|done]. destruct (slot_current _ _ _); [done|].
    apply view_update_endpoint.
  - intros s. case_match; [|done]. case_match; [|done].
    destruct (slot_current _ _ _); [done|by apply ok_emit].
Qed.

Lemma ok_installInto Q id :
  stable I interf Q -> vdet Q -> ok I interf Q (installInto id) (fun _ => Q).
Proof.
  intros Hst Hv. apply ok_quiet; [done|done|intros s; by case_match|].
  intros s. case_match; [|simpl; eauto]. eapply ok_bind; [by apply ok_drop_unwanted|].
  intros []; cbv beta. apply ok_quiet; [done|done|intros s'; by case_match|]. intros s'. case_match; simpl; eauto.
Qed.

Lemma ok_bind_op Q id p tag :
  stable I interf Q -> vdet Q -> ok I interf Q (op_bind id p tag) (fun _ _ _ => True).
Proof.
  intros Hst Hv. unfold op_bind. destruct (_ || _ || _); [done|]. apply ok_quiet; [done|done| |].
  - intros s. case_match; [|by case_match].
    destruct (_ && _ && _); [done|]. unfold finish_hold. by case_match.
  - intros s. case_match; [|case_match; simpl; eauto].
    destruct (_ && _ && _); [simpl; eauto|]. destruct (finish_hold _ _ _) as [ep1 out]. cbv zeta. cbn [snd fst].
    eapply ok_bind. { instantiate (1 := fun _ => Q). destruct (negb (bool_decide (pid _ = p))); [by apply ok_scrub_ring|simpl; eauto]. }
    intros []; cbv beta. eapply ok_bind; [by apply ok_installInto|]. intros installed.
    case_bool_decide; [simpl; eauto|]. eapply ok_bind; [by apply ok_fence|]. intros []; cbv beta.
    apply ok_quiet; [done|done| |].
    + intros s'. case_match; [|done]. destruct (negb _); [done|]. apply view_update_endpoint.
    + intros s'. case_match; [|simpl; eauto]. destruct (negb _); simpl; eauto.
Qed.

Lemma ok_detach_op Q id :
  stable I interf Q -> vdet Q -> ok I interf Q (op_detach id) (fun _ _ _ => True).
Proof.
  intros Hst Hv. unfold op_detach. case_match; [done|]. apply ok_quiet; [done|done| |].
  - intros s. case_match; [|done]. unfold finish_hold. by case_match.
  - intros s. case_match; [|simpl; eauto]. destruct (finish_hold _ _ _) as [ep1 out]. cbn [snd fst].
    apply ok_emit; [done|]. apply ok_quiet; [done..|]. intros s'.
    eapply ok_bind; [by apply ok_fence|]. intros []; cbv beta. apply ok_quiet; [done..|]. simpl; eauto.
Qed.

Lemma ok_hardware_op Q now id p tag b :
  stable I interf Q -> vdet Q -> ok I interf Q (op_hardwareProof now id p tag b) (fun _ _ _ => True).
Proof.
  intros Hst Hv. apply ok_quiet; [done|done|intros s; repeat (case_match; simplify_eq/=); done|].
  intros s. repeat (case_match; simplify_eq/=); eauto.
Qed.
End quiet.

(** ** A frame is delivered once *)

Section once.
(** One publication, and for each of its epochs the timestamp its life starts at. *)
Variable p : string.
Variable base : Z -> Z.

Definition frame_id : Type := Z * (Z * Z * Z).

Definition of_epoch (e : Z) (d : list frame_id) : list (Z * Z * Z) :=
  omap (fun x => if decide (x.1 = e) then Some x.2 else None) d.

Definition window_of (s : worker) (e : Z) : MediaReplayWindow :=
  match OMap.get (p, e) (windows s) with Some w => w | None => default_window end.

(** Every delivered frame is remembered: by the window of its epoch while the
    epoch lives, by the retirement mark of the publication afterwards. *)
Record once (s : worker) (d : list frame_id) : Prop := {
  on_seen : forall e f, (e, f) ∈ d -> liveEpoch s p e = true \/
              exists st, state_of s p = Some st /\ e <= retired st;
  on_window : forall e, liveEpoch s p e = true -> replay_inv (base e) (window_of s e) (of_epoch e d);
  on_live : forall e w, OMap.get (p, e) (windows s) = Some w -> liveEpoch s p e = true;
  on_nodup : NoDup d }.

Definition interf (s : worker) (d : list frame_id) (s' : worker) (d' : list frame_id) : Prop :=
  pids s' = pids s /\ retiredMarks s' = retiredMarks s /\
  (d' = d \/ exists e f, d' = (e, f) :: d /\ liveEpoch s p e = true).

Lemma of_epoch_cons e e' f d :
  of_epoch e ((e', f) :: d) = if decide (e' = e) then f :: of_epoch e d else of_epoch e d.
Proof. unfold of_epoch. simpl. by case_decide. Qed.

Lemma elem_of_epoch e f d : f ∈ of_epoch e d <-> (e, f) ∈ d.
Proof.
  unfold of_epoch. rewrite list_elem_of_omap. split.
  - intros ([e' f'] & Hin & Hf). simpl in Hf. case_decide; by simplify_eq/=.
  - intros Hin. exists (e, f). split; [done|]. simpl. by rewrite decide_True.
Qed.

Lemma of_epoch_fresh e d : (forall f, (e, f) ∉ d) -> of_epoch e d = [].
Proof.
  intros H. destruct (of_epoch e d) as [|f l] eqn:E; [done|]. exfalso. apply (H f).
  apply elem_of_epoch. rewrite E. left.
Qed.

(** Tables of [p] that only lose epochs, each covered by the mark. *)
Lemma once_shrink s s' d :
  once s d ->
  (forall e, liveEpoch s' p e = true -> liveEpoch s p e = true /\
             OMap.get (p, e) (windows s') = OMap.get (p, e) (windows s)) ->
  (forall e w, OMap.get (p, e) (windows s') = Some w -> liveEpoch s' p e = true) ->
  (forall st, state_of s p = Some st -> exists st', state_of s' p = Some st' /\ retired st <= retired st' /\
     forall e, liveEpoch s p e = true -> liveEpoch s' p e = true \/ e <= retired st') ->
  once s' d.
Proof.
  intros [H1 H2 H3 H4] Hl Hw Hs. split; [|intros e He|exact Hw|done].
  - intros e f Hin. destruct (H1 _ _ Hin) as [Hlive|(st & Hst & Hle)].
    + assert (exists st, state_of s p = Some st) as [st Hst].
      { unfold liveEpoch, entry_of in Hlive. destruct (state_of s p); [eauto|done]. }
      destruct (Hs st Hst) as (st' & Hst' & _ & Hc). destruct (Hc e Hlive); eauto.
    + destruct (Hs st Hst) as (st' & Hst' & Hle' & _). right. exists st'. split; [done|lia].
  - destruct (Hl e He) as [Hlive Hwin]. unfold window_of. rewrite Hwin. by apply H2.
Qed.

(** Tables of [p] that do not change. *)
Lemma once_same s s' d :
  once s d -> state_of s' p = state_of s p ->
  (forall e, OMap.get (p, e) (windows s') = OMap.get (p, e) (windows s)) -> once s' d.
Proof.
  intros H Hs Hw. assert (forall e, liveEpoch s' p e = liveEpoch s p e) as Hl.
  { intros e. unfold liveEpoch, entry_of. by rewrite Hs. }
  apply (once_shrink s); [done| | |].
  - intros e. rewrite Hl. eauto.
  - intros e w. rewrite Hl, Hw. by apply H.
  - intros st Hst. exists st. rewrite Hs. split; [done|]. split; [lia|]. intros e. rewrite Hl. eauto.
Qed.

Lemma once_vdet : vdet once.
Proof.
  intros s s' d Hv H. apply (once_same s); [done| |].
  - symmetry. by apply view_state_of.
  - intros e. unfold view in Hv. assert (windows s = windows s') as -> by congruence. done.
Qed.

(** An epoch that never was live with this table. *)
Definition fresh (e : Z) (s : worker) (d : list frame_id) : Prop :=
  liveEpoch s p e = false /\ forall f, (e, f) ∉ d.

Lemma fresh_stable e : stable once interf (fresh e).
Proof.
  intros s d s' d' _ (Hp & _ & Hd) [Hl Hf]. split.
  - rewrite <- Hl. unfold liveEpoch, entry_of, state_of. by rewrite Hp.
  - destruct Hd as [->|(e' & f' & -> & Hl')]; [done|]. intros f. rewrite elem_of_cons.
    intros [[= -> ->]|Hin]; [congruence|by eapply Hf].
Qed.

Lemma fresh_vdet e : vdet (fresh e).
Proof.
  intros s s' d Hv [Hl Hf]. split; [|done]. rewrite <- Hl. unfold liveEpoch. by rewrite (view_entry_of s s').
Qed.

Lemma true_stable : stable once interf (fun _ _ => True).
Proof. done. Qed.
Lemma true_vdet : vdet (fun _ (_ : list frame_id) => True).
Proof. done. Qed.

Lemma live_set_pid s p' st e :
  liveEpoch (set_pid p' st s) p e =
  if decide (p = p') then match OMap.get e (epochs st) with Some _ => true | None => false end
  else liveEpoch s p e.
Proof.
  unfold liveEpoch, entry_of, state_of, set_pid. simpl. rewrite OMap.get_set. by case_decide.
Qed.

Lemma state_set_pid s p' st :
  state_of (set_pid p' st s) p = if decide (p = p') then Some st else state_of s p.
Proof. unfold state_of, set_pid. simpl. by rewrite OMap.get_set. Qed.

(** [drop_epoch] keeps the invariant, and an epoch that is fresh. *)
Lemma drop_epoch_live s p' e st e' :
  state_of s p' = Some st ->
  liveEpoch (drop_epoch p' e st s) p e' =
  if decide (p = p' /\ e' = e) then false else liveEpoch s p e'.
Proof.
  intros Hst. transitivity (liveEpoch (set_pid p' (PidState (OMap.del e (epochs st))
    (if active st =? e then 0 else active st) (Z.max (retired st) e)) s) p e'); [done|].
  rewrite live_set_pid. simpl. destruct (decide (p = p')) as [<-|]; [|by rewrite decide_False by naive_solver].
  rewrite OMap.get_del. unfold liveEpoch, entry_of. rewrite Hst.
  destruct (decide (e' = e)) as [->|]; [by rewrite decide_True|by rewrite decide_False by naive_solver].
Qed.

Lemma drop_epoch_once s d p' e st :
  state_of s p' = Some st -> once s d -> once (drop_epoch p' e st s) d.
Proof.
  intros Hst H. apply (once_shrink s); [done|intros e'|intros e' w|].
  - rewrite (drop_epoch_live s) by done. case_decide as Hd; [done|]. intros Hl. split; [done|].
    simpl. apply OMap.get_del_ne. intros [= -> ->]. by apply Hd.
  - rewrite (drop_epoch_live s) by done. simpl. rewrite OMap.get_del.
    destruct (decide ((p, e') = (p', e))) as [|Hne]; [done|]. rewrite decide_False by naive_solver.
    by apply H.
  - intros st0 Hst0. exists (if decide (p = p') then PidState (OMap.del e (epochs st))
      (if active st =? e then 0 else active st) (Z.max (retired st) e) else st0).
    split; [|split].
    + transitivity (state_of (set_pid p' (PidState (OMap.del e (epochs st))
        (if active st =? e then 0 else active st) (Z.max (retired st) e)) s) p); [done|].
      rewrite state_set_pid. by case_decide.
    + case_decide; [|lia]. subst. simplify_eq/=. lia.
    + intros e' Hl. rewrite (drop_epoch_live s) by done. case_decide as Hd; [|by left].
      destruct Hd as [-> ->]. right. rewrite decide_True by done. simpl. lia.
Qed.

(** Assertions that retiring an epoch keeps. *)
Record kept (Q : worker -> list frame_id -> Prop) : Prop := {
  kp_stable : stable once interf Q;
  kp_vdet : vdet Q;
  kp_drop : forall s d p' e st, state_of s p' = Some st -> Q s d -> Q (drop_epoch p' e st s) d }.

Lemma kept_true : kept (fun _ _ => True).
Proof. done. Qed.

Lemma kept_fresh e : kept (fresh e).
Proof.
  split; [apply fresh_stable|apply fresh_vdet|]. intros s d p' e' st Hst [Hl Hf]. split; [|done].
  rewrite (drop_epoch_live s) by done. by case_decide.
Qed.

Lemma ok_retireEpoch Q p' e : kept Q -> ok once interf Q (retireEpoch p' e) (fun _ => Q).
Proof.
  intros [Hst Hv Hd]. apply ok_seg; [done|]. intros s d Hi Hq.
  destruct (state_of s p') as [st|] eqn:Es; [|simpl; eauto].
  destruct (OMap.get e (epochs st)) as [en|]; [|simpl; eauto].
  destruct (for_endpoints _ s) as [s1 out] eqn:E. cbn [fst snd].
  assert (view s1 = view s) as Hs1.
  { rewrite <- (view_for_endpoints (cancel_if (fun ep =>
        bool_decide (pid ep = p') &&
        match hardwareHold ep with Some h => sc_epoch (h_scope h) =? e | None => false end)) s).
    by rewrite E. }
  assert (state_of s1 p' = Some st) as Es1 by (rewrite <- Es; by apply view_state_of).
  split; [apply drop_epoch_once; [done|]; by eapply once_vdet; [symmetry|]|].
  exists Q. split; [apply Hd; [done|]; by eapply Hv; [symmetry|]|].
  apply ok_scrub_slots; [apply once_vdet|done|done].
Qed.

Lemma ok_retire_each Q p' es : kept Q -> ok once interf Q (retire_each p' es) (fun _ => Q).
Proof.
  intros HQ. induction es as [|e es IH]; [simpl; eauto|]. cbn [retire_each].
  eapply ok_bind; [by apply ok_retireEpoch|]. by intros [].
Qed.

Lemma ok_make_room Q fuel p' : kept Q -> ok once interf Q (make_room fuel p') (fun _ => Q).
Proof.
  intros HQ. induction fuel as [|fuel IH]; [simpl; eauto|]. cbn [make_room].
  apply ok_quiet; [apply once_vdet|apply HQ|apply HQ|intros s; by repeat case_match|]. intros s.
  destruct (state_of s p') as [st|]; [|simpl; eauto]. destruct (_ <=? _); [|simpl; eauto].
  eapply ok_bind; [by apply ok_retireEpoch|]. by intros [].
Qed.

(** Writing the table of another publication. *)
Lemma once_other s d p' st : p <> p' -> once s d -> once (set_pid p' st s) d.
Proof. intros Hne H. apply (once_same s); [done| |done]. rewrite state_set_pid. by case_decide. Qed.

(** A first table: nothing was delivered before. *)
Lemma once_first s d p' r : state_of s p' = None -> once s d -> once (set_pid p' (PidState [] 0 r) s) d.
Proof.
  intros Hn H. destruct (decide (p = p')) as [<-|]; [|by apply once_other].
  assert (forall e, liveEpoch s p e = false) as Hl by (intros e; unfold liveEpoch, entry_of; by rewrite Hn).
  assert (d = []) as ->.
  { destruct d as [|[e f] d]; [done|]. exfalso. destruct (on_seen _ _ H e f ltac:(left)) as [Hf|(st & Hst & _)].
    - by rewrite Hl in Hf.
    - congruence. }
  split; [by intros ?? ?%elem_of_nil|intros e|intros e w|constructor].
  - rewrite live_set_pid, decide_True by done. done.
  - intros Hw. apply (on_live _ _ H) in Hw. by rewrite Hl in Hw.
Qed.

(** The same epochs with a mark that only grows. *)
Lemma once_retired s d p' st a r :
  state_of s p' = Some st -> retired st <= r -> once s d -> once (set_pid p' (PidState (epochs st) a r) s) d.
Proof.
  intros Hst Hr H. destruct (decide (p = p')) as [<-|]; [|by apply once_other].
  assert (forall e, liveEpoch (set_pid p (PidState (epochs st) a r) s) p e = liveEpoch s p e) as Hl.
  { intros e. rewrite live_set_pid, decide_True by done. unfold liveEpoch, entry_of. by rewrite Hst. }
  apply (once_shrink s); [done|intros e|intros e w|intros st0 Hst0].
  - rewrite Hl. eauto.
  - rewrite Hl. by apply H.
  - exists (PidState (epochs st) a r). rewrite state_set_pid, decide_True by done. simplify_eq/=.
    split; [done|]. split; [done|]. intros e. rewrite Hl. eauto.
Qed.

(** Installing a fresh epoch. *)
Lemma once_install s d st e en :
  state_of s p = Some st -> fresh e s d -> once s d ->
  once (set_pid p (st <| epochs := OMap.set e en (epochs st) |>) s) d.
Proof.
  intros Hst [Hl Hf] H. set (s' := set_pid _ _ _).
  assert (forall e', liveEpoch s' p e' = if decide (e' = e) then true else liveEpoch s p e') as Hlive.
  { intros e'. unfold s'. rewrite live_set_pid, decide_True by done. simpl. rewrite OMap.get_set.
    case_decide; [done|]. unfold liveEpoch, entry_of. by rewrite Hst. }
  assert (state_of s' p = Some (st <| epochs := OMap.set e en (epochs st) |>)) as Hst'.
  { unfold s'. rewrite state_set_pid. by rewrite decide_True. }
  split; [intros e' f Hin|intros e'|intros e' w Hw|apply H].
  - rewrite Hlive, Hst'. destruct (on_seen _ _ H e' f Hin) as [Hl'|(st0 & Hst0 & Hle)].
    + left. by case_decide.
    + right. simplify_eq. eauto.
  - rewrite Hlive. case_decide as Hd; [|by apply H]. subst e'. intros _. rewrite of_epoch_fresh by done.
    assert (window_of s' e = default_window) as ->.
    { unfold window_of. destruct (OMap.get (p, e) (windows s')) as [w|] eqn:E; [|done].
      apply (on_live _ _ H) in E. congruence. }
    split; [done|done|]. by intros ??? ?%elem_of_nil.
  - rewrite Hlive. case_decide; [done|]. by eapply H.
Qed.

Lemma ok_fence_done {A} (a : A) : ok once interf (fun _ _ => True) (do! _ := fence in Ret a) (fun _ _ _ => True).
Proof. eapply ok_bind; [by apply ok_fence|]. by intros []. Qed.

(** What [op_key] knows of the epoch it installs. *)
Definition installable (p' : string) (e : Z) : worker -> list frame_id -> Prop :=
  if decide (p' = p) then fresh e else fun _ _ => True.

Lemma kept_installable p' e : kept (installable p' e).
Proof. unfold installable. case_decide; [apply kept_fresh|apply kept_true]. Qed.

Lemma ok_install_entry sha now p' e k raw :
  ok once interf (installable p' e) (install_entry sha now p' e k raw) (fun _ _ _ => True).
Proof.
  apply ok_seg; [apply kept_installable|]. intros s d Hi Hq.
  destruct (state_of s p') as [st|] eqn:Es; [|simpl; eauto]. cbn [fst snd]. split.
  - apply (once_same (set_pid p' (st <| epochs := OMap.set e (Entry k raw (sha raw) now (nextEntry s)) (epochs st) |>) s));
      [|done|done].
    unfold installable in Hq. destruct (decide (p' = p)) as [->|]; [by apply once_install|by apply once_other].
  - exists (fun _ _ => True). split; [done|]. eapply ok_bind; [by apply ok_fence|]. intros [].
    apply ok_quiet; [apply once_vdet|done|done|intros s'; apply view_publish|done].
Qed.

Lemma ok_key_op sha now p' e k raw :
  ok once interf (fun _ _ => True) (op_key sha now p' e k raw) (fun _ _ _ => True).
Proof.
  unfold op_key. destruct (_ || _ || _ || _); [done|]. apply ok_seg; [done|]. intros s d Hi _.
  destruct (_ <=? _); [simpl; eauto|]. split; [done|]. exists (fun _ _ => True). split; [done|]. cbn [snd].
  apply ok_seg; [done|]. clear s d Hi. intros s d Hi _.
  destruct (entry_of s p' e) as [ex|]; [destruct (_ || _); simpl; eauto|].
  destruct (_ && _); [simpl; eauto|]. cbn [fst snd]. split.
  { unfold OMap.has. destruct (OMap.get p' (pids s)) as [st|] eqn:E; [done|]. by apply once_first. }
  exists (fun _ _ => True). split; [done|]. apply ok_seg; [done|]. clear s d Hi. intros s d Hi _.
  destruct (state_of s p') as [st|] eqn:Es; [|simpl; eauto].
  destruct (Z.leb_spec e (retiredThrough s p')) as [|Hr]; [simpl; eauto|].
  destruct (OMap.has e (epochs st)) eqn:Eh; [simpl; eauto|]. cbn [orb].
  destruct (existsb _ _); [simpl; eauto|]. cbn [fst snd]. split; [done|].
  exists (installable p' e). split.
  - unfold installable. destruct (decide (p' = p)) as [->|]; [|done].
    assert (liveEpoch s p e = false) as Hl.
    { unfold liveEpoch, entry_of. rewrite Es. unfold OMap.has in Eh. by destruct (OMap.get e (epochs st)). }
    split; [done|]. intros f Hin. destruct (on_seen _ _ Hi _ _ Hin) as [?|(st' & Hst' & Hle)]; [congruence|].
    unfold retiredThrough in Hr. rewrite Hst' in Hr. lia.
  - eapply ok_bind; [apply ok_retire_each, kept_installable|]. intros [].
    eapply ok_bind; [apply ok_make_room, kept_installable|]. intros []. apply ok_install_entry.
Qed.

Lemma ok_activate_op p' e : ok once interf (fun _ _ => True) (op_activate p' e) (fun _ _ _ => True).
Proof.
  apply ok_seg; [done|]. intros s d Hi _. destruct (state_of s p') as [st|] eqn:Es; [|simpl; eauto].
  destruct (OMap.get e (epochs st)); [|simpl; eauto]. destruct (_ && _); [simpl; eauto|].
  set (c := if active st =? e then _ else _).
  assert (view c.1 = view s) as Hc by (unfold c; destruct (_ =? _); [done|apply view_for_endpoints]).
  destruct c as [s1 out]. cbn [fst snd] in *. split; [|exists (fun _ _ => True); split; [done|apply ok_fence_done]].
  apply once_retired; [rewrite <- Es; by apply view_state_of|done|]. by eapply once_vdet; [symmetry|].
Qed.

Lemma once_mark s d p' e : once s d -> once (mark p' e s) d.
Proof. intros H. by apply (once_same s). Qed.

Lemma ok_retire_op p' t : ok once interf (fun _ _ => True) (op_retire p' t) (fun _ _ _ => True).
Proof.
  unfold op_retire. destruct (_ || _); [done|]. apply ok_quiet; [apply once_vdet|done|done|done|]. intros s.
  eapply ok_bind; [apply ok_retire_each, kept_true|]. intros []. apply ok_seg; [done|].
  clear s. intros s d Hi _. cbn [fst snd].
  split; [|exists (fun _ _ => True); split; [done|apply ok_fence_done]].
  set (s1 := if 0 <? t then _ else s).
  assert (once s1 d) as H1 by (unfold s1; destruct (0 <? t); [by apply once_mark|done]).
  destruct (state_of s1 p') as [st|] eqn:E; [|done]. apply once_retired; [done|lia|done].
Qed.

Lemma ok_retireOne_op p' e : ok once interf (fun _ _ => True) (op_retireOne p' e) (fun _ _ _ => True).
Proof.
  unfold op_retireOne. destruct (_ || _); [done|]. eapply ok_bind; [apply ok_retireEpoch, kept_true|].
  intros []. apply ok_fence_done.
Qed.

Lemma ok_forget_op p' : p <> p' -> ok once interf (fun _ _ => True) (op_forget p') (fun _ _ _ => True).
Proof.
  intros Hne. unfold op_forget. destruct (negb _); [done|].
  apply ok_quiet; [apply once_vdet|done|done| |].
  - intros s. rewrite <- (view_for_endpoints (cancel_if (fun ep => bool_decide (pid ep = p'))) s).
    by destruct (for_endpoints _ s).
  - intros s. destruct (for_endpoints _ s) as [s1 out]. cbn [snd].
    eapply ok_bind; [apply ok_retire_each, kept_true|]. intros []. apply ok_seg; [done|].
    intros s2 d Hi _. split; [|exists (fun _ _ => True); split; [done|apply ok_fence_done]].
    apply (once_same s2); [done| |done]. unfold state_of. simpl. by rewrite OMap.get_del_ne.
Qed.

Lemma ok_request sha r :
  r <> QForget p -> ok once interf (fun _ _ => True) (to_op sha r) (fun _ _ _ => True).
Proof.
  intros Hr. destruct r; cbn [to_op].
  - by apply ok_bind_op; [apply once_vdet|..].
  - apply ok_key_op.
  - apply ok_activate_op.
  - apply ok_retire_op.
  - apply ok_retireOne_op.
  - apply ok_forget_op. congruence.
  - by apply ok_detach_op; [apply once_vdet|..].
  - by apply ok_hardware_op; [apply once_vdet|..].
Qed.
End once.

(** ** Frames, streams and timers between two segments *)

Lemma view_attach id o k hw s s' out b : attach id o k hw s = Ok (s', out, b) -> view s' = view s.
Proof.
  unfold attach. destruct (negb _); [done|]. destruct (OMap.has _ _); [done|]. destruct (_ <=? _); [done|].
  destruct (library_slot o k s) as [[lib s1]|] eqn:E; [|done].
  assert (view s1 = view s) as <-.
  { unfold library_slot in E. repeat case_match; by simplify_eq. }
  case_match; [case_match|]; by intros [= <- <- <-].
Qed.

Lemma view_pre_encode_rest id fid f now sc held ep s : view (pre_encode_rest id fid f now sc held ep s).1 = view s.
Proof. unfold pre_encode_rest. by repeat case_match. Qed.

Lemma view_pre id fid f now s : view (pre id fid f now s).1 = view s.
Proof.
  unfold pre. destruct (OMap.get id (endpoints s)) as [ep|]; [|done]. destruct (_ || _); [done|].
  case_bool_decide; [done|]. destruct (negb _); [done|]. destruct (operation_ ep).
  - unfold pre_encode. destruct (_ || _); [done|]. cbv zeta.
    destruct (_ && bool_decide (mediaFrameEnvelope f false <> None)); [by destruct (hold_scope _ _ _)|].
    match goal with |- context [pre_encode_rest ?a ?b ?c ?d ?e ?g ?h ?i] =>
      rewrite <- (view_pre_encode_rest a b c d e g h i) end.
    by destruct (pre_encode_rest _ _ _ _ _ _ _ _).
  - unfold pre_decode. by repeat case_match.
Qed.

Lemma view_pre_resume id fid f now why h s : view (pre_resume id fid f now why h s).1 = view s.
Proof.
  unfold pre_resume. destruct (OMap.get id (endpoints s)); [|done]. destruct (_ || _); [done|].
  cbv zeta. destruct (_ || _); [done|]. apply view_pre_encode_rest.
Qed.

Lemma view_hold_timeout id s : view (hold_timeout id s).1 = view s.
Proof. unfold hold_timeout. destruct (OMap.get id (endpoints s)); [|done]. by destruct (finish_hold _ _ _). Qed.

Lemma view_post_encode id f now i ep s : view (post_encode id f now i ep s).1 = view s.
Proof. unfold post_encode, dropInitialFrame. by repeat case_match. Qed.

(** What a receiver's second transform does to the windows. *)
Lemma post_decode_window id f i ep s :
  let r := post_decode id f i ep s in
  (judged r.2 = None /\ view r.1 = view s) \/
  exists w' v, liveEpoch s (i_pid i) (i_epoch i) = true /\
    check (window_of (i_pid i) s (i_epoch i)) (i_iv i) = (w', v) /\
    judged r.2 = Some (bool_decide (v = VOk)) /\ pids r.1 = pids s /\ retiredMarks r.1 = retiredMarks s /\
    windows r.1 = OMap.set (i_pid i, i_epoch i) w' (windows s).
Proof.
  unfold post_decode, window_of. destruct (liveEpoch s _ _); [|by left]. cbn [negb].
  destruct (match mediaFrameEnvelope f false with Some _ => _ | None => true end); [by left|]. right.
  destruct (check _ _) as [w' v] eqn:E. exists w', v. split; [done|]. split; [done|].
  destruct (bool_decide_reflect (v = VOk)) as [->|Hv]; cbn [negb fst snd].
  - split_and!; [|done..]. by destruct (authenticated ep).
  - split_and!; [|done..]. by destruct v.
Qed.

Lemma post_window id fid f now s :
  let s' := (post id fid f now s).1 in
  (decoded id fid f now s = None /\ view s' = view s) \/
  exists q e iv w' v, decoded id fid f now s = Some (q, e, iv, bool_decide (v = VOk)) /\
    liveEpoch s q e = true /\ check (window_of q s e) iv = (w', v) /\
    pids s' = pids s /\ retiredMarks s' = retiredMarks s /\ windows s' = OMap.set (q, e) w' (windows s).
Proof.
  unfold decoded, post. destruct (OMap.get id (endpoints s)) as [ep|]; [|by left].
  destruct (OMap.get fid (inputs ep)) as [i|]; [|left; by destruct (operation_ ep)].
  cbv zeta. destruct (_ || _ || _); [left; by destruct (operation_ ep)|].
  change (operation_ (ep <| inputs := OMap.del fid (inputs ep) |>)) with (operation_ ep).
  destruct (operation_ ep); [left; split; [done|apply view_post_encode]|].
  destruct (post_decode_window id f i (ep <| inputs := OMap.del fid (inputs ep) |>) s) as [[-> ?]|H]; [by left|].
  right. destruct H as (w' & v & Hl & Hc & -> & ? & ? & ?). exists (i_pid i), (i_epoch i), (i_iv i), w', v. by split_and!.
Qed.

Lemma check_ok_fields w iv w' : check w iv = (w', VOk) -> exists f, iv_fields iv = Some f.
Proof.
  unfold check, iv_fields. do 12 (destruct iv as [|? iv]; [done|]). destruct iv; [|done]. eauto.
Qed.

(** ** Executions *)

(** A run of the worker thread in which the publication is not forgotten; the
    trace has the frames the receivers judged, latest first. *)
Inductive run (sha : list Z -> list Z) (p : string) : world -> list (string * Z * list Z * bool) -> Prop :=
| run_start : run sha p new_world []
| run_step w tr l w' :
    run sha p w tr -> wstep sha w l w' -> QForget p ∉ queue w' ->
    run sha p w' (match l with Some x => x :: tr | None => tr end).

(** The frames of a publication that a receiver passed on. *)
Definition delivered (p : string) (tr : list (string * Z * list Z * bool)) : list frame_id :=
  omap (fun '(q, e, iv, b) =>
    if decide (q = p) then if (b : bool) then (fun f => (e, f)) <$> iv_fields iv else None else None) tr.

Section runs.
Variables (sha : list Z -> list Z) (p : string) (base : Z -> Z).

Definition world_ok (w : world) (d : list frame_id) : Prop :=
  once p base (wk w) d /\ QForget p ∉ queue w /\
  match running w with
  | None => True
  | Some o => exists Q : worker -> list frame_id -> Prop,
      Q (wk w) d /\ ok (once p base) (interf p) Q o (fun _ _ _ => True)
  end.

(** Interference keeps the operation in progress on its feet. *)
Lemma world_interf s r q d s' q' d' :
  world_ok (World s r q) d -> once p base s' d' -> interf p s d s' d' -> QForget p ∉ q' ->
  world_ok (World s' r q') d'.
Proof.
  intros (Hi & _ & Hr) Hi' Hf Hq'. split; [done|]. split; [done|]. simpl in *. destruct r as [o|]; [|done].
  destruct Hr as (Q & HQ & Hok). destruct o as [a|e|f]; [by exists (fun _ _ => True)..|].
  destruct Hok as (P & HP & Hst & Hs). exists P. split; [|by exists P]. eapply Hst; [exact Hi|exact Hf|by apply HP].
Qed.

Lemma world_quiet s r q d s' q' :
  world_ok (World s r q) d -> view s' = view s -> QForget p ∉ q' -> world_ok (World s' r q') d.
Proof.
  intros Hw Hv Hq'. eapply world_interf; [done| | |done].
  - eapply once_vdet; [by symmetry|apply Hw].
  - unfold view in Hv. split; [congruence|]. split; [congruence|by left].
Qed.

Lemma once_judge s d s' e iv w' v :
  once p base s d -> liveEpoch s p e = true -> check (window_of p s e) iv = (w', v) ->
  (forall f, iv_fields iv = Some f -> in_life (base e) f.1.2) ->
  pids s' = pids s -> windows s' = OMap.set (p, e) w' (windows s) ->
  once p base s' (match iv_fields iv with
                  | Some f => if decide (v = VOk) then (e, f) :: d else d
                  | None => d
                  end).
Proof.
  intros [H1 H2 H3 H4] Hl Hc Hlife Hp Hw.
  assert (forall e', liveEpoch s' p e' = liveEpoch s p e') as Hl'.
  { intros e'. unfold liveEpoch, entry_of, state_of. by rewrite Hp. }
  assert (forall e', window_of p s' e' = if decide (e' = e) then w' else window_of p s e') as Hwin.
  { intros e'. unfold window_of. rewrite Hw, OMap.get_set. destruct (decide (e' = e)) as [->|].
    - by rewrite decide_True.
    - by rewrite decide_False by naive_solver. }
  set (d' := match iv_fields iv with Some _ => _ | None => d end).
  assert ((v = VOk -> forall f, iv_fields iv = Some f -> (e, f) ∉ d) /\
          replay_inv (base e) w' (of_epoch e d')) as [Hnew Hri].
  { destruct (iv_fields iv) as [f|] eqn:Ef.
    - destruct (check_inv (base e) _ _ _ f _ _ (H2 e Hl) Ef (Hlife f eq_refl) Hc) as [Hn Hr].
      split; [intros Hv f' [= <-]; rewrite <- elem_of_epoch; auto|]. subst d'.
      case_decide; [by rewrite of_epoch_cons, decide_True by done|done].
    - split; [done|]. assert (w' = window_of p s e) as ->.
      { unfold check, iv_fields in *. repeat (destruct iv as [|? iv]; try congruence; try by simplify_eq). }
      by apply H2. }
  assert (forall e' f, (e', f) ∈ d' -> (e', f) ∈ d \/ e' = e) as Hd'.
  { intros e' f. subst d'. destruct (iv_fields iv); [|by left]. case_decide; [|by left].
    rewrite elem_of_cons. intros [[= -> ->]|]; auto. }
  split.
  - intros e' f Hin. rewrite Hl'. unfold state_of. rewrite Hp. destruct (Hd' _ _ Hin) as [Hin'| ->]; [|by left].
    by apply (H1 e' f).
  - intros e'. rewrite Hl', Hwin. case_decide as Hd; [by subst|]. intros Hlv.
    assert (of_epoch e' d' = of_epoch e' d) as ->; [|by apply H2].
    subst d'. destruct (iv_fields iv); [|done]. case_decide; [|done].
    by rewrite of_epoch_cons, decide_False by done.
  - intros e' w. rewrite Hl', Hw, OMap.get_set. case_decide as Hd; [by simplify_eq|apply H3].
  - subst d'. destruct (iv_fields iv) as [f|]; [|done]. case_decide; [|done]. constructor; auto.
Qed.

Definition label_ok (l : option (string * Z * list Z * bool)) : Prop :=
  forall e iv b f, l = Some (p, e, iv, b) -> iv_fields iv = Some f -> in_life (base e) f.1.2.

Lemma delivered_cons x tr :
  delivered p (x :: tr) =
  match x with
  | (q, e, iv, b) => if decide (q = p) then
      match iv_fields iv with Some f => if (b : bool) then (e, f) :: delivered p tr else delivered p tr
                            | None => delivered p tr end else delivered p tr
  end.
Proof.
  unfold delivered. destruct x as [[[q e] iv] b]. simpl. case_decide; [|done].
  destruct b; [|by destruct (iv_fields iv)]. by destruct (iv_fields iv).
Qed.

Lemma world_post w tr id fid f now :
  world_ok w (delivered p tr) -> label_ok (decoded id fid f now (wk w)) ->
  world_ok (World (post id fid f now (wk w)).1 (running w) (queue w))
    (delivered p (match decoded id fid f now (wk w) with Some x => x :: tr | None => tr end)).
Proof.
  intros Hw Hlab. destruct w as [s r q]. simpl in *. pose proof Hw as (Hi & Hq & _). simpl in *.
  destruct (post_window id fid f now s) as [[Hd Hv]|(q0 & e & iv & w' & v & Hd & Hl & Hc & Hp & Hm & Hwin)];
    rewrite Hd in *; [by eapply world_quiet|].
  rewrite delivered_cons. destruct (decide (q0 = p)) as [->|Hne].
  - eapply world_interf; [done| | |done].
    + pose proof (once_judge _ _ (post id fid f now s).1 _ _ _ _ Hi Hl Hc) as H.
      destruct (iv_fields iv) as [f0|] eqn:Ef; [|apply H; naive_solver].
      destruct (decide (v = VOk)) as [->|Hv].
      * rewrite bool_decide_true by done. apply H; [|done..]. intros ? [= <-]. by eapply Hlab.
      * rewrite bool_decide_false by done. apply H; [|done..]. intros ? [= <-]. by eapply Hlab.
    + split; [done|]. split; [done|]. destruct (iv_fields iv) as [f0|]; [|by left].
      destruct (bool_decide _); [right; eauto|by left].
  - eapply world_interf; [done| |split; [done|]; split; [done|by left]|done].
    apply (once_same p base s); [done|unfold state_of; by rewrite Hp|].
    intros e'. rewrite Hwin. apply OMap.get_set_ne. congruence.
Qed.

Lemma world_step w tr l w' :
  world_ok w (delivered p tr) -> wstep sha w l w' -> QForget p ∉ queue w' -> label_ok l ->
  world_ok w' (delivered p (match l with Some x => x :: tr | None => tr end)).
Proof.
  intros Hw Hs Hq Hl. inversion Hs; subst; clear Hs; simpl in Hq.
  - destruct w. by eapply world_quiet.
  - destruct Hw as (Hi & Hf & _). split; [done|]. split; [done|]. simpl. exists (fun _ _ => True).
    split; [done|]. apply ok_request. intros ->. apply Hf. left.
  - destruct Hw as (Hi & Hf & Q & HQ & P & HP & Hst & Hs). simpl in *.
    destruct (Hs s (delivered p tr) Hi ltac:(auto)) as (Hi' & Q' & HQ' & Hok). rewrite H in *. simpl in *.
    split; [done|]. split; [done|]. by exists Q'.
  - destruct Hw as (Hi & Hf & _). by split.
  - destruct w. simpl in *. eapply world_quiet; [done|by eapply view_attach|done].
  - destruct w. simpl in *. eapply world_quiet; [done| |done].
    pose proof (view_pre id fid f now wk) as Hv. by rewrite H in Hv.
  - destruct w. simpl in *. eapply world_quiet; [done| |done].
    pose proof (view_pre_resume id fid f now why h wk) as Hv. by rewrite H in Hv.
  - destruct w. simpl in *. eapply world_quiet; [done| |done].
    pose proof (view_hold_timeout id wk) as Hv. by rewrite H in Hv.
  - pose proof (world_post w tr id fid f now Hw Hl) as Hpost. by rewrite H in Hpost.
Qed.

Lemma exec_ok w tr :
  run sha p w tr -> Forall (fun x => label_ok (Some x)) tr -> world_ok w (delivered p tr).
Proof.
  induction 1 as [|w tr l w' Hr IH Hs Hq]; intros Hlab.
  - split; [|by split; [apply not_elem_of_nil|]]. split; [by intros ?? ?%elem_of_nil|done|done|constructor].
  - assert (label_ok l /\ Forall (fun x => label_ok (Some x)) tr) as [Hl Hlab'].
    { destruct l as [x|]; [by apply Forall_cons in Hlab|done]. }
    eapply world_step; eauto.
Qed.
End runs.

(** C3: a received frame is delivered at most once.  In every execution of the
    worker thread that does not forget the publication, with frames, stream
    attachments, key installations, rotations, retirements, rebinding and timers
    interleaved in any order between the segments of the operations, no two
    frames that pass a receiver have the same publication, epoch, SSRC,
    timestamp and counter, while the timestamps of the authenticated frames of
    one epoch stay within half of the 32-bit range. *)
Theorem frame_delivered_once sha p base w tr :
  run sha p w tr ->
  Forall (fun '(q, e, iv, _) => q = p -> forall f, iv_fields iv = Some f -> in_life (base e) f.1.2) tr ->
  NoDup (delivered p tr).
Proof.
  intros Hr Hl. eapply on_nodup. eapply (exec_ok sha p base); [done|]. eapply Forall_impl; [done|].
  intros [[[q e] iv] b] H. intros ???? [= -> <- <- <-]. by apply H.
Qed.

(** A schedule of the worker thread, to run concrete executions; actions that
    are not enabled are skipped. *)
Inductive action :=
| AMessage (r : request)
| ATick
| AAttach (id : string) (o : operation) (k : kind) (hw : bool)
| APre (id : string) (fid : nat) (f : encoded_frame) (now : Z)
| APost (id : string) (fid : nat) (f : encoded_frame) (now : Z).

Definition perform (sha : list Z -> list Z) (w : world) (a : action)
    : option (world * option (string * Z * list Z * bool)) :=
  match a with
  | AMessage r => Some (World (wk w) (running w) (queue w ++ [r]), None)
  | ATick =>
    match running w, queue w with
    | None, r :: q => Some (World (wk w) (Some (to_op sha r)) q, None)
    | None, [] => None
    | Some (Seg f), q => let '(s', _, o') := f (wk w) in Some (World s' (Some o') q, None)
    | Some _, q => Some (World (wk w) None q, None)
    end
  | AAttach id o k hw =>
    match attach id o k hw (wk w) with
    | Ok (s', _, b) =>
      Some (World s' (running w) (queue w ++ match b, OMap.get id (pendingBinds (wk w)) with
                                             | Some _, Some (q, tag) => [QBind id q tag]
                                             | _, _ => [] end), None)
    | Err _ => None
    end
  | APre id fid f now => Some (World (pre id fid f now (wk w)).1 (running w) (queue w), None)
  | APost id fid f now =>
    Some (World (post id fid f now (wk w)).1 (running w) (queue w), decoded id fid f now (wk w))
  end.

Lemma perform_step sha w a w' l : perform sha w a = Some (w', l) -> wstep sha w l w'.
Proof.
  destruct w as [s r q], a; simpl.
  - intros [= <- <-]. apply (ws_message sha (World s r q)).
  - destruct r as [[| |f]|]; [intros [= <- <-]; by apply ws_finish..| |].
    + destruct (f s) as [[s' out] o'] eqn:E. intros [= <- <-]. by eapply ws_segment.
    + destruct q; [done|]. intros [= <- <-]. apply ws_start.
  - destruct (attach _ _ _ _ s) as [[[s' out] b]|] eqn:E; [|done]. intros [= <- <-].
    by eapply (ws_attach sha (World s r q)).
  - intros [= <- <-]. eapply (ws_pre sha (World s r q)), surjective_pairing.
  - intros [= <- <-]. eapply (ws_post sha (World s r q)), surjective_pairing.
Qed.

Fixpoint schedule (sha : list Z -> list Z) (p : string) (w : world) (tr : list (string * Z * list Z * bool))
    (acts : list action) : option (world * list (string * Z * list Z * bool)) :=
  match acts with
  | [] => Some (w, tr)
  | a :: r =>
    match perform sha w a with
    | Some (w', l) =>
      if existsb (fun x => match x with QForget q => bool_decide (q = p) | _ => false end) (queue w') then None
      else schedule sha p w' (match l with Some x => x :: tr | None => tr end) r
    | None => schedule sha p w tr r
    end
  end.

Lemma schedule_run sha p acts w tr w' tr' :
  run sha p w tr -> schedule sha p w tr acts = Some (w', tr') -> run sha p w' tr'.
Proof.
  revert w tr. induction acts as [|a acts IH]; intros w tr Hr; simpl; [by intros [= <- <-]|].
  destruct (perform sha w a) as [[w1 l]|] eqn:E; [|by apply IH].
  destruct (existsb _ _) eqn:Ee; [done|]. apply IH. eapply run_step; [done|by eapply perform_step|]. intros Hin. apply not_true_iff_false in Ee.
  apply Ee, existsb_exists. exists (QForget p). split; [by apply list_elem_of_In|by apply bool_decide_true].
Qed.

(** A receiver of the microphone of one device: the network sends a frame twice. *)
Definition demo_received : encoded_frame :=
  EFrame (repeat 9 21 ++ [0;0;0;1; 0;0;0;9; 0;0;0;2] ++ [12; 3]) None true.
Definition demo_schedule : list action :=
  [AMessage (QBind "ep:1" "9|mic" ""); ATick; ATick; ATick;
   AAttach "ep:1" Decode Audio false; AMessage (QKey "9|mic" 10 3 (repeat 7 32) 0)] ++
  repeat ATick 40 ++
  [APre "ep:1" 0 demo_received 5; APost "ep:1" 0 demo_plain 5; APre "ep:1" 1 demo_received 6;
   APost "ep:1" 1 demo_plain 6].

Lemma frame_delivered_once_witness : exists w tr,
  schedule demo_sha "9|mic" new_world [] demo_schedule = Some (w, tr) /\
  tr = [("9|mic"%string, 10, [0;0;0;1; 0;0;0;9; 0;0;0;2], false);
        ("9|mic"%string, 10, [0;0;0;1; 0;0;0;9; 0;0;0;2], true)] /\
  NoDup (delivered "9|mic" tr).
Proof.
  destruct (schedule demo_sha "9|mic" new_world [] demo_schedule) as [[w tr]|] eqn:E;
    [|vm_compute in E; discriminate].
  exists w, tr. split; [done|].
  assert (Htr : tr = [("9|mic"%string, 10, [0;0;0;1; 0;0;0;9; 0;0;0;2], false);
                      ("9|mic"%string, 10, [0;0;0;1; 0;0;0;9; 0;0;0;2], true)]).
  { vm_compute in E. congruence. }
  split; [done|]. apply (frame_delivered_once demo_sha "9|mic" (fun _ => 0) w tr).
  - eapply schedule_run; [apply run_start|exact E].
  - rewrite Htr. repeat constructor; intros _ f [= <-]; vm_compute; reflexivity.
Defined.

(** ** The marks of forgotten publications *)

Lemma get_app_last {K V} `{EqDecision K} (m : list (K * V)) k v :
  k ∉ OMap.keys m -> OMap.get k (m ++ [(k, v)]) = Some v.
Proof.
  induction m as [|[k' v'] m IH]; simpl; [by rewrite decide_True|]. rewrite not_elem_of_cons. intros [Hne Hni].
  rewrite decide_False by done. auto.
Qed.

Lemma keys_drop {V} n (m : list (string * V)) k : k ∈ OMap.keys (drop n m) -> k ∈ OMap.keys m.
Proof.
  unfold OMap.keys. rewrite fmap_drop. intros Hin. rewrite <- (take_drop n (m.*1)). apply elem_of_app; by right.
Qed.

(** [mark] reads [retiredThrough] after it deleted the old mark. *)
Lemma mark_get s p e :
  OMap.get p (retiredMarks (mark p e s)) =
  Some (Z.max e (match state_of s p with Some st => retired st | None => 0 end `max` 0)).
Proof.
  unfold mark. simpl. rewrite OMap.keys_set_new by apply OMap.get_del_eq.
  set (v := Z.max e _).
  assert (v = Z.max e (match state_of s p with Some st => retired st | None => 0 end `max` 0)) as <-.
  { unfold v, retiredThrough. simpl. by rewrite OMap.get_del_eq. }
  unfold evict. rewrite length_app. simpl.
  rewrite drop_app_le by (unfold MAX_RETIRED_MARKERS; lia).
  apply get_app_last. intros Hin%keys_drop. apply OMap.get_None_keys in Hin; [done|apply OMap.get_del_eq].
Qed.

(** The mark of a forgotten publication is replaced, not raised: a late
    [retire] through an epoch below the mark lowers it to that epoch, so epochs
    that were retired before are accepted again. *)
Theorem late_retire_lowers_mark s p m through :
  validPid p = true -> is_safe_integer through = true -> state_of s p = None ->
  OMap.get p (retiredMarks s) = Some m -> 0 < through < m ->
  retiredThrough s p = m /\ retiredThrough (run_op (op_retire p through) s).1 p = through.
Proof.
  intros Hp Ht Hs Hm Hlt. split; [unfold retiredThrough; rewrite Hs, Hm; lia|].
  unfold op_retire. rewrite Hp, Ht. cbn [negb orb run_op]. unfold live_epochs. rewrite Hs.
  cbn [filter list_filter retire_each obind run_op]. rewrite (proj2 (Z.ltb_lt 0 through)) by lia.
  assert (state_of (mark p through s) p = None) as Hs' by done. rewrite Hs'.
  unfold fence, emit. cbn [run_op obind fst]. unfold retiredThrough. rewrite Hs', mark_get, Hs. lia.
Qed.

(** Epoch 100 is retired with its publication, and refused; after the late
    retirement of epoch 50, epoch 60 is installed. *)
Lemma late_retire_lowers_mark_witness :
  let s := run_all [QKey "9|mic" 100 3 (repeat 7 32) 0; QForget "9|mic"] new_worker in
  retiredThrough s "9|mic" = 100 /\
  is_ok (run_op (op_key demo_sha 0 "9|mic" 60 4 (repeat 8 32)) s).2 = false /\
  let s' := (run_op (op_retire "9|mic" 50) s).1 in
  retiredThrough s' "9|mic" = 50 /\
  liveEpoch (run_op (op_key demo_sha 0 "9|mic" 60 4 (repeat 8 32)) s').1 "9|mic" 60 = true.
Proof.
  intros s.
  destruct (late_retire_lowers_mark s "9|mic" 100 50) as [H1 H2];
    [vm_compute; reflexivity|vm_compute; reflexivity|vm_compute; reflexivity|vm_compute; reflexivity|lia|].
  split; [exact H1|]. split; [vm_compute; reflexivity|]. split; [exact H2|vm_compute; reflexivity].
Defined.
