(* ===== verification/MediaControl.v ===== *)
(** * Rosters and media-key controls ([media-e2ee/media-keys.js], lines 92-230)

    Who receives the keys of a voice session ([recipientsOf]), the body of the
    control that carries them ([buildMediaKeyBody]) and its validation
    ([parseMediaKeyControl]), and the inbox that holds controls which arrive
    before the key engine runs ([MediaKeyStartupInbox]).  Roster entries and
    controls are JSON values: nothing is assumed of their shape. *)

From stdpp Require Import base list strings sorting.
From Stdlib Require Import ZArith Lia Ascii.
From S2P Require Import Prelude Json Text MediaWorker.

(** ** Fields as text *)

(** [String(v ?? d)] of a field. *)
Definition String_or (d : string) (v : option json) : string :=
  match v with None | Some JNull => d | Some j => js_String j end.

Definition str_field (k : string) (v : json) : option string :=
  match field k v with Some (JStr s) => Some s | _ => None end.

(** [/^[\x21-\x7e]{1,128}$/] *)
Definition id_re (s : string) : bool :=
  str_all (fun c => (33 <=? c) && (c <=? 126)) s && (1 <=? str_len s) && (str_len s <=? 128).

(** ** Publication slots *)

Inductive slot := Mic | Cam | Screen | ScreenAudio.
#[global] Instance slot_eq_dec : EqDecision slot.
Proof. solve_decision. Defined.

Definition SLOTS : list slot := [Mic; Cam; Screen; ScreenAudio].
Definition slot_name (s : slot) : string :=
  match s with Mic => "mic" | Cam => "cam" | Screen => "screen" | ScreenAudio => "screenaudio" end.

Definition slotOf (s : option string) : string :=
  match s with None | Some ""%string => "mic" | Some x => x end.
Definition publicationPid (clientID : string) (s : option string) : string := clientID +:+ "|" +:+ slotOf s.
Definition senderPid (s : option string) : string := "self|" +:+ slotOf s.

(** ** Who receives keys *)

Record identity := Self { channelID : Z; clientID : string; principal_ : string; device_ : string }.

Record recipient := Recipient { principal : string; device : string; r_client : string; nickname : string }.
#[global] Instance recipient_eq_dec : EqDecision recipient.
Proof. solve_decision. Defined.

(** The key [`${principal}\n${device}`], as the pair. *)
Definition did : Type := string * string.
Definition rid (r : recipient) : did := (principal r, device r).

Definition inChannel (entry : json) (channel : Z) : bool :=
  match field "channel_id" entry with Some (JNum n) => n =? channel | _ => false end.

Definition invisible (entry : json) : bool :=
  match field "status" entry with Some (JStr s) => bool_decide (s = "invisible"%string) | _ => false end.

(** The guards of the loop of [recipientsOf]: the entry's recipient, if it is one. *)
Definition recipient_of (self : identity) (c : json) : option recipient :=
  let dev := default ""%string (str_field "media_device" c) in
  let pri := default ""%string (str_field "unique_id" c) in
  let cid := String_or "" (field "client_id" c) in
  if negb (inChannel c (channelID self)) || invisible c || bool_decide (dev = ""%string) ||
     bool_decide (pri = ""%string) || bool_decide (cid = ""%string) then None
  else if bool_decide (cid = clientID self) || bool_decide (dev = device_ self) then None
  else if negb (id_re dev) || negb (id_re pri) then None
  else Some (Recipient pri dev cid (default ""%string (str_field "nickname" c))).

(** The sort key's order: code units of the joined text. *)
Definition order (d : did) : string := d.1 +:+ String (ascii_of_nat 10) d.2.
Definition id_le (a b : did) : bool :=
  match String.compare (order a) (order b) with Gt => false | _ => true end.

Fixpoint insert_sorted {A} (key : A -> did) (x : A) (l : list A) : list A :=
  match l with
  | [] => [x]
  | y :: l' => if id_le (key x) (key y) then x :: l else y :: insert_sorted key x l'
  end.
Definition sort_by {A} (key : A -> did) (l : list A) : list A := foldr (insert_sorted key) [] l.

(** One pass over the roster: the map [seen]. *)
Definition collect (self : identity) (roster : list json) : list (did * recipient) :=
  fold_left (fun m c => match recipient_of self c with Some r => OMap.set (rid r) r m | None => m end) roster [].

Definition recipientsOf (roster : list json) (self : identity) : list recipient :=
  sort_by rid (OMap.values (collect self roster)).

Definition channelDevices (roster : list json) (channel : Z) : list did :=
  OMap.values (fold_left (fun m c =>
    match str_field "media_device" c, str_field "unique_id" c with
    | Some dev, Some pri =>
      if negb (inChannel c channel) || invisible c || bool_decide (dev = ""%string) then m
      else OMap.set (pri, dev) (pri, dev) m
    | _, _ => m
    end) roster []).

(** The text a membership digest hashes: the sorted set of device lines. *)
Definition digest_lines (entries : list did) : list did := sort_by id (remove_dups entries).

(** ** Session features *)

(** [s.split(".")]. *)
Fixpoint split_dot (s : string) : list string :=
  match s with
  | EmptyString => [""%string]
  | String a s' =>
    match split_dot s' with
    | [] => []
    | w :: ws => if (nat_of_ascii a =? 46)%nat then ""%string :: w :: ws else String a w :: ws
    end
  end.
Definition sessionFeatures (session : option string) : list string :=
  match session with Some s => List.tl (split_dot s) | None => [] end.
Definition RATCHET_FEATURE : string := "r1".

(** ** Key bytes in base 64 *)

(** [unb64] of text that matches [KEYS_B64]: 43 characters and one pad. *)
Fixpoint unb64 (l : list Z) : option (list Z) :=
  match l with
  | [] => Some []
  | [c1; c2; c3; 61] =>
    match b64_val c1, b64_val c2, b64_val c3 with
    | Some x, Some y, Some z => let n := ((x * 64 + y) * 64 + z) / 4 in Some [n / 256; n `mod` 256]
    | _, _, _ => None
    end
  | c1 :: c2 :: c3 :: c4 :: r =>
    match b64_val c1, b64_val c2, b64_val c3, b64_val c4, unb64 r with
    | Some x, Some y, Some z, Some w, Some out =>
      let n := ((x * 64 + y) * 64 + z) * 64 + w in
      Some (n / 65536 :: (n / 256) `mod` 256 :: n `mod` 256 :: out)
    | _, _, _, _, _ => None
    end
  | _ => None
  end.

(** [/^[A-Za-z0-9+/]{43}=$/] *)
Definition keys_b64 (s : string) : bool :=
  let l := bytes_of s in
  (length l =? 44)%nat && forallb (fun c => match b64_val c with Some _ => true | None => false end) (take 43 l) &&
  bool_decide (drop 43 l = [61]).

(** ** Controls *)

Definition MEDIA_KEY_KIND : string := "media-key".
Definition MEDIA_SCOPE_TYPE : string := "channel-media".
Definition MEDIA_KEY_DATA_VERSION : Z := 1.
Definition CONTROL_TTL_S : Z := 120.
Definition MAX_PENDING : Z := 64.

(** The keys of one epoch, by slot. *)
Definition keyset : Type := slot -> list Z.

Record key_value := KeyValue {
  v_client : string; v_session : string; v_kid : Z; v_members : string; v_n : Z; v_keys : list (list Z) }.

Definition channel_text (channel : Z) : string := text (print_num channel).

Definition buildMediaKeyBody (channel epoch nowSeconds : Z) (client session : string) (kid : Z)
    (members : string) (count : Z) (keys : keyset) : json :=
  JObj [("kind", JStr MEDIA_KEY_KIND);
        ("scope", JObj [("type", JStr MEDIA_SCOPE_TYPE); ("id", JStr (channel_text channel))]);
        ("epoch", JNum epoch);
        ("expires_at", JNum (nowSeconds + CONTROL_TTL_S));
        ("data", JObj [("v", JNum MEDIA_KEY_DATA_VERSION); ("client", JStr client); ("session", JStr session);
                       ("kid", JNum kid); ("members", JStr members); ("n", JNum count);
                       ("keys", JObj (map (fun s => (slot_name s, JStr (text (b64 (keys s))))) SLOTS))])]%string.

(** [Object.keys]: the distinct member names. *)
Definition object_keys (v : json) : list string :=
  match v with JObj l => remove_dups (l.*1) | _ => [] end.

Definition allowed : list string := ["v"; "client"; "session"; "kid"; "members"; "n"; "keys"]%string.

Definition is_str (v : option json) (s : string) : bool := bool_decide (v = Some (JStr s)).

Definition data_ids (d : json) : option (string * string) :=
  match field "client" d, field "session" d with
  | Some (JStr c), Some (JStr s) => if id_re c && id_re s then Some (c, s) else None
  | _, _ => None
  end.

Definition data_numbers (d : json) : option (Z * string * Z) :=
  match field "kid" d, field "members" d, field "n" d with
  | Some (JNum k), Some (JStr m), Some (JNum n) =>
    if (k <? 0) || (15 <? k) || (64 <? utf16_length m) || (n <? 1) || (10000 <? n) then None else Some (k, m, n)
  | _, _, _ => None
  end.

Definition key_text (d : json) (s : slot) : option (list Z) :=
  match field "keys" d with
  | Some ks => match field (slot_name s) ks with
               | Some (JStr t) => if keys_b64 t then unb64 (bytes_of t) else None
               | _ => None
               end
  | None => None
  end.

Definition data_keys (d : json) : option (list (list Z)) :=
  match field "keys" d with
  | Some ks => if (length (object_keys ks) =? length SLOTS)%nat then mapM (key_text d) SLOTS else None
  | None => None
  end.

(** [Ok] is [{ok: true, value}], [Err] is [{ok: false, reason}]. *)
Definition parseMediaKeyControl (control : json) (channel : Z) : result string key_value :=
  if negb (is_str (field "kind" control) MEDIA_KEY_KIND) then Err "kind"%string
  else
    let scope := default JNull (field "scope" control) in
    if negb (is_str (field "type" scope) MEDIA_SCOPE_TYPE) || negb (is_str (field "id" scope) (channel_text channel))
    then Err "scope"%string
    else match field "epoch" control with
         | Some (JNum e) =>
           if negb (is_safe_integer e) || (e <=? 0) then Err "epoch"%string
           else match field "data" control with
                | Some (JObj l) =>
                  let d := JObj l in
                  if existsb (fun k => negb (bool_decide (k ∈ allowed))) (object_keys d) ||
                     negb (bool_decide (field "v" d = Some (JNum MEDIA_KEY_DATA_VERSION)))
                  then Err "version"%string
                  else match data_ids d with
                       | None => Err "data"%string
                       | Some (client, session) =>
                         match data_numbers d with
                         | None => Err "data"%string
                         | Some (kid, members, n) =>
                           match data_keys d with
                           | None => Err "keys"%string
                           | Some keys => Ok (KeyValue client session kid members n keys)
                           end
                         end
                       end
                | _ => Err "data"%string
                end
         | _ => Err "epoch"%string
         end.

(** ** The startup inbox *)

Record inbox_entry := InboxEntry { ib_at : Z; ib_control : json }.

(** Keyed by sender, sender device and client. *)
Definition inbox : Type := list ((string * string * string) * inbox_entry).

Definition fresh (control : json) (at_ receivedAt : Z) : bool :=
  match field "expiresAt" control with
  | Some (JNum e) => is_safe_integer e && (at_ <? e * 1000) && (at_ - receivedAt <? CONTROL_TTL_S * 1000)
  | _ => false
  end.

Definition control_epoch (control : json) : Z :=
  match field "epoch" control with Some (JNum e) => e | _ => 0 end.

(** [structuredClone] of the fields the engine reads. *)
Definition owned_copy (control : json) : json :=
  JObj (omap (fun k => (fun v => (k, v)) <$> field k control)
    ["sender"; "senderDevice"; "kind"; "scope"; "epoch"; "expiresAt"; "data"]%string).

(** [MediaKeyStartupInbox.receive]; the result is always a reason. *)
Definition inbox_receive (control : json) (channel now : Z) (ib : inbox) : inbox * string :=
  let ib := filter (fun x => fresh (ib_control x.2) now (ib_at x.2) = true) ib in
  match parseMediaKeyControl control channel with
  | Err reason => (ib, reason)
  | Ok value =>
    match field "sender" control, field "senderDevice" control with
    | Some (JStr sender), Some (JStr dev) =>
      if negb (id_re sender) || negb (id_re dev) then (ib, "sender"%string)
      else if negb (fresh control now now) then (ib, "expired"%string)
      else
        let key := (sender, dev, v_client value) in
        match OMap.get key ib with
        | Some previous =>
          if control_epoch control <=? control_epoch (ib_control previous) then (ib, "stale"%string)
          else (OMap.set key (InboxEntry now (owned_copy control)) ib, "pending"%string)
        | None =>
          if MAX_PENDING <=? OMap.size ib then (ib, "pending-full"%string)
          else (OMap.set key (InboxEntry now (owned_copy control)) ib, "pending"%string)
        end
    | _, _ => (ib, "sender"%string)
    end
  end.

(** [drain]: the controls handed to the engine, in order; the inbox is empty after. *)
Definition inbox_drain (now : Z) (ib : inbox) : inbox * list json :=
  ([], map ib_control (filter (fun x => fresh (ib_control x) now (ib_at x) = true) (OMap.values ib))).

(** ** Recipients *)

Lemma insert_sorted_perm {A} (key : A -> did) x l : insert_sorted key x l ≡ₚ x :: l.
Proof.
  induction l as [|y l IH]; [done|]. simpl. destruct (id_le _ _); [done|]. rewrite IH. constructor.
Qed.

Lemma sort_by_perm {A} (key : A -> did) l : sort_by key l ≡ₚ l.
Proof. induction l as [|x l IH]; [done|]. simpl. by rewrite insert_sorted_perm, IH. Qed.

Lemma string_compare_trans a b c :
  String.compare a b <> Gt -> String.compare b c <> Gt -> String.compare a c <> Gt.
Proof.
  revert b c. induction a as [|x a IH]; intros [|y b] [|z c]; simpl; try done.
  unfold Ascii.compare.
  destruct (N.compare_spec (N_of_ascii x) (N_of_ascii y)), (N.compare_spec (N_of_ascii y) (N_of_ascii z)),
    (N.compare_spec (N_of_ascii x) (N_of_ascii z)); try done; try lia. apply IH.
Qed.

Lemma id_le_trans a b c : id_le a b = true -> id_le b c = true -> id_le a c = true.
Proof.
  unfold id_le. pose proof (string_compare_trans (order a) (order b) (order c)).
  destruct (String.compare (order a) (order b)), (String.compare (order b) (order c)),
    (String.compare (order a) (order c)); try done; exfalso; by apply H.
Qed.

Lemma id_le_total a b : id_le a b = false -> id_le b a = true.
Proof.
  unfold id_le. rewrite (String.compare_antisym (order a)).
  by destruct (String.compare (order b) (order a)).
Qed.

Definition sorted_ids {A} (key : A -> did) (l : list A) : Prop := StronglySorted (fun x y => id_le (key x) (key y) = true) l.

Lemma insert_sorted_sorted {A} (key : A -> did) x l : sorted_ids key l -> sorted_ids key (insert_sorted key x l).
Proof.
  unfold sorted_ids. induction l as [|y l IH]; intros Hs; [repeat constructor|]. simpl.
  apply StronglySorted_inv in Hs as [Hs Hy]. destruct (id_le (key x) (key y)) eqn:E.
  - constructor; [by constructor|]. constructor; [done|]. eapply Forall_impl; [exact Hy|].
    intros z Hz. by eapply id_le_trans.
  - constructor; [by apply IH|]. rewrite insert_sorted_perm. constructor; [by apply id_le_total|done].
Qed.

Lemma sort_by_sorted {A} (key : A -> did) l : sorted_ids key (sort_by key l).
Proof. induction l; [constructor|]. simpl. by apply insert_sorted_sorted. Qed.

(** Every kept entry is filed under its own key. *)
Lemma collect_spec self roster m :
  (forall d r, (d, r) ∈ m -> d = rid r) -> OMap.wf m ->
  let m' := fold_left (fun m c => match recipient_of self c with Some r => OMap.set (rid r) r m | None => m end) roster m in
  OMap.wf m' /\ (forall d r, (d, r) ∈ m' -> d = rid r /\ ((d, r) ∈ m \/ exists c, c ∈ roster /\ recipient_of self c = Some r)) /\
  (forall d, is_Some (OMap.get d m) -> is_Some (OMap.get d m')) /\
  (forall c r, c ∈ roster -> recipient_of self c = Some r -> is_Some (OMap.get (rid r) m')).
Proof.
  revert m. induction roster as [|c roster IH]; intros m Hm Hwf; simpl.
  { split_and!; [done| |done|]; [intros d r Hin; auto|by intros ?? ?%elem_of_nil]. }
  destruct (recipient_of self c) as [r0|] eqn:E.
  - destruct (IH (OMap.set (rid r0) r0 m)) as (I1 & I2 & I3 & I4).
    { intros d r [[-> ->]|Hin]%OMap.elem_set; [done|by apply Hm]. }
    { auto with omap. }
    split_and!; [done| | |].
    + intros d r Hin. destruct (I2 d r Hin) as [Hd [[[-> ->]|Hin']%OMap.elem_set|(c' & Hc' & Hr)]].
      * split; [done|]. right. exists c. split; [left|done].
      * split; [done|]. by left.
      * split; [done|]. right. exists c'. split; [by right|done].
    + intros d Hd. apply I3. rewrite OMap.get_set. by case_decide.
    + intros c' r [->|Hin]%elem_of_cons Hr; [|by eapply I4]. simplify_eq. apply I3. by rewrite OMap.get_set_eq.
  - destruct (IH m Hm Hwf) as (I1 & I2 & I3 & I4). split_and!; [done| |done|].
    + intros d r Hin. destruct (I2 d r Hin) as [Hd [Hin'|(c' & Hc' & Hr)]]; split; [done|by left|done|].
      right. exists c'. split; [by right|done].
    + intros c' r [->|Hin]%elem_of_cons Hr; [congruence|by eapply I4].
Qed.

Lemma filed_keys (m : list (did * recipient)) :
  (forall d r, (d, r) ∈ m -> d = rid r) -> map rid m.*2 = m.*1.
Proof.
  induction m as [|[d r] m IH]; intros H; [done|]. simpl. rewrite (H d r) by left. f_equal.
  apply IH. intros d' r' Hin. apply H. by right.
Qed.

(** The recipients of a voice session's keys are exactly the devices of
    the sessions that the roster shows in the channel: each one is the media
    device of a visible entry of this very channel that is not this client nor
    this device, every such entry's device is there, and the list is sorted and
    free of duplicates. *)
Theorem recipients_exact roster self :
  let rs := recipientsOf roster self in
  NoDup (map rid rs) /\ sorted_ids rid rs /\
  (forall r, r ∈ rs -> exists c, c ∈ roster /\
     field "channel_id" c = Some (JNum (channelID self)) /\ invisible c = false /\
     str_field "media_device" c = Some (device r) /\ str_field "unique_id" c = Some (principal r) /\
     String_or "" (field "client_id" c) = r_client r /\
     device r <> device_ self /\ r_client r <> clientID self) /\
  (forall c r, c ∈ roster -> recipient_of self c = Some r -> exists r', r' ∈ rs /\ rid r' = rid r).
Proof.
  intros rs. unfold rs, recipientsOf, collect.
  destruct (collect_spec self roster []) as (Hwf & Hin & _ & Hall);
    [by intros ?? ?%elem_of_nil|constructor|].
  set (m := fold_left _ roster []) in *. split_and!.
  - rewrite sort_by_perm. unfold OMap.wf, OMap.keys, OMap.values in *.
    rewrite filed_keys; [done|]. intros d r Hd. by destruct (Hin _ _ Hd) as [-> _].
  - apply sort_by_sorted.
  - intros r. rewrite sort_by_perm. unfold OMap.values. intros ([d r'] & -> & Hm)%list_elem_of_fmap.
    destruct (Hin _ _ Hm) as [_ [Hn|(c & Hc & Hr)]]; [by apply elem_of_nil in Hn|]. exists c. split; [done|].
    unfold recipient_of in Hr. simpl.
    destruct (inChannel c (channelID self)) eqn:Ec; [|done]. destruct (invisible c) eqn:Ei; [done|].
    unfold inChannel in Ec. destruct (field "channel_id" c) as [[]|]; try done. apply Z.eqb_eq in Ec as ->.
    destruct (str_field "media_device" c) as [dev|]; [|done].
    destruct (str_field "unique_id" c) as [pri|]; simpl in Hr; [|by destruct (bool_decide (dev = _))].
    do 5 (case_bool_decide; simpl in Hr; [done|]). destruct (_ || _); [done|]. by injection Hr as <-.
  - intros c r Hc Hr. destruct (Hall c r Hc Hr) as [r' Hr']. exists r'. split.
    + rewrite sort_by_perm. unfold OMap.values. apply list_elem_of_fmap.
      exists (rid r, r'). split; [done|by apply OMap.get_elem].
    + apply OMap.get_elem in Hr'. by destruct (Hin _ _ Hr') as [-> _].
Qed.

(** ** Round trips *)

Definition b64_chars (l : list Z) : bool :=
  forallb (fun c => match b64_val c with Some _ => true | None => false end) l.

Lemma unb64_cons c1 c2 c3 c4 x r :
  unb64 (c1 :: c2 :: c3 :: c4 :: x :: r) =
  match b64_val c1, b64_val c2, b64_val c3, b64_val c4, unb64 (x :: r) with
  | Some x, Some y, Some z, Some w, Some out =>
    let n := ((x * 64 + y) * 64 + z) * 64 + w in
    Some (n / 65536 :: (n / 256) `mod` 256 :: n `mod` 256 :: out)
  | _, _, _, _, _ => None
  end.
Proof. destruct c4 as [|q|q]; try done. do 6 (destruct q as [q|q|]; try done). Qed.

(** Encoding [3 k + 2] bytes gives [4 k + 3] characters and one pad. *)
Lemma b64_spec k l :
  length l = (3 * k + 2)%nat -> all_bytes l = true ->
  unb64 (b64 l) = Some l /\ all_bytes (b64 l) = true /\
  exists body, b64 l = body ++ [61] /\ length body = (4 * k + 3)%nat /\ b64_chars body = true.
Proof.
  revert l. induction k as [|k IH]; intros l Hl Hb.
  - destruct l as [|a [|b []]]; simpl in Hl; try lia. cbn [all_bytes forallb] in Hb.
    rewrite !andb_true_iff, !is_byte_spec in Hb. destruct Hb as (Ha & Hb & _).
    pose proof (b64_group2 a b Ha Hb) as (X & Y & Z & E1 & E2 & E3).
    pose proof (b64_char_range _ X). pose proof (b64_char_range _ Y). pose proof (b64_char_range _ Z).
    cbn [b64]. split_and!.
    + cbn [unb64]. rewrite !b64_val_char by done. by rewrite E1, E2, E3.
    + cbn [all_bytes forallb]. rewrite !andb_true_iff, !is_byte_spec. lia.
    + eexists [_; _; _]. split; [done|]. split; [done|]. unfold b64_chars. cbn [forallb].
      by rewrite !b64_val_char.
  - destruct l as [|a [|b [|c l]]]; simpl in Hl; try lia. cbn [all_bytes forallb] in Hb.
    rewrite !andb_true_iff, !is_byte_spec in Hb. destruct Hb as (Ha & Hb & Hc & Hr).
    destruct (IH l ltac:(lia) Hr) as (I1 & I2 & body & I3 & I4 & I5).
    pose proof (b64_group3 a b c Ha Hb Hc) as (X & Y & Z & W & E0 & E1 & E2 & E3).
    pose proof (b64_char_range _ X). pose proof (b64_char_range _ Y). pose proof (b64_char_range _ Z).
    pose proof (b64_char_range _ W).
    cbn [b64]. set (n := (a * 256 + b) * 256 + c) in *. split_and!.
    + rewrite I3 in *. destruct body as [|x body]; [simpl in I4; lia|].
      cbn [app] in *. rewrite unb64_cons, I1, !b64_val_char by done. cbv zeta. by rewrite E0, E1, E2, E3.
    + cbn [all_bytes forallb]. rewrite !andb_true_iff, !is_byte_spec. split_and!; try lia. done.
    + rewrite I3. eexists (_ :: _ :: _ :: _ :: body). split; [done|]. split; [simpl; lia|].
      unfold b64_chars in *. cbn [forallb]. by rewrite !b64_val_char, I5.
Qed.

Lemma key_text_b64 k : length k = 32%nat -> all_bytes k = true ->
  keys_b64 (text (b64 k)) = true /\ unb64 (bytes_of (text (b64 k))) = Some k.
Proof.
  intros Hl Hb. destruct (b64_spec 10 k Hl Hb) as (H1 & H2 & body & H3 & H4 & H5).
  unfold keys_b64, text. rewrite bytes_of_string_of by done. split; [|done].
  rewrite H3, length_app, H4. change (4 * 10 + 3)%nat with 43%nat in H4. cbv zeta.
  rewrite take_app_length' by done. rewrite drop_app_length' by done.
  unfold b64_chars in H5. rewrite H5. by rewrite bool_decide_true.
Qed.

Lemma media_key_parsed channel epoch nowSeconds client session kid members count keys :
  is_safe_integer epoch = true -> 0 < epoch -> id_re client = true -> id_re session = true ->
  0 <= kid <= 15 -> utf16_length members <= 64 -> 1 <= count <= 10000 ->
  (forall s, length (keys s) = 32%nat /\ all_bytes (keys s) = true) ->
  parseMediaKeyControl (buildMediaKeyBody channel epoch nowSeconds client session kid members count keys) channel =
  Ok (KeyValue client session kid members count (map keys SLOTS)).
Proof.
  intros He0 He Hc Hs Hk Hm Hn Hkeys. unfold parseMediaKeyControl.
  set (ctl := buildMediaKeyBody _ _ _ _ _ _ _ _ _).
  assert (field "kind" ctl = Some (JStr MEDIA_KEY_KIND)) as -> by reflexivity.
  assert (field "scope" ctl = Some (JObj [("type", JStr MEDIA_SCOPE_TYPE); ("id", JStr (channel_text channel))]%string))
    as -> by reflexivity.
  assert (field "epoch" ctl = Some (JNum epoch)) as -> by reflexivity. cbn [default].
  assert (field "data" ctl = Some (JObj [("v", JNum MEDIA_KEY_DATA_VERSION); ("client", JStr client);
    ("session", JStr session); ("kid", JNum kid); ("members", JStr members); ("n", JNum count);
    ("keys", JObj (map (fun s => (slot_name s, JStr (text (b64 (keys s))))) SLOTS))]%string)) as -> by reflexivity.
  unfold is_str. rewrite !bool_decide_true by reflexivity. cbn [negb orb].
  rewrite He0, (proj2 (Z.leb_gt epoch 0)) by lia. cbn [negb orb].
  match goal with |- context [existsb ?f (object_keys ?d)] => set (dat := d) end.
  assert (existsb (fun k => negb (bool_decide (k ∈ allowed))) (object_keys dat) = false) as ->
    by (vm_compute; reflexivity).
  assert (field "client" dat = Some (JStr client)) as F1 by reflexivity.
  assert (field "session" dat = Some (JStr session)) as F2 by reflexivity.
  assert (field "kid" dat = Some (JNum kid)) as F3 by reflexivity.
  assert (field "members" dat = Some (JStr members)) as F4 by reflexivity.
  assert (field "n" dat = Some (JNum count)) as F5 by reflexivity.
  assert (field "keys" dat = Some (JObj (map (fun s => (slot_name s, JStr (text (b64 (keys s))))) SLOTS)))
    as F6 by reflexivity.
  clearbody dat. cbn [negb orb].
  unfold data_ids. rewrite F1, F2, Hc, Hs. cbn [andb].
  unfold data_numbers. rewrite F3, F4, F5.
  rewrite (proj2 (Z.ltb_ge kid 0)), (proj2 (Z.ltb_ge 15 kid)), (proj2 (Z.ltb_ge 64 (utf16_length members))),
    (proj2 (Z.ltb_ge count 1)), (proj2 (Z.ltb_ge 10000 count)) by lia. cbn [orb].
  assert (forall s, key_text dat s = Some (keys s)) as Hkt.
  { intros s. unfold key_text. rewrite F6. destruct (Hkeys s) as [Hl Hb].
    destruct (key_text_b64 (keys s) Hl Hb) as [K1 K2].
    assert (field (slot_name s) (JObj (map (fun s => (slot_name s, JStr (text (b64 (keys s))))) SLOTS)) =
            Some (JStr (text (b64 (keys s))))) as -> by (by destruct s). by rewrite K1, K2. }
  unfold data_keys. rewrite F6.
  assert (length (object_keys (JObj (map (fun s => (slot_name s, JStr (text (b64 (keys s))))) SLOTS))) = 4%nat) as ->
    by reflexivity.
  cbn [length SLOTS Nat.eqb mapM]. by rewrite !Hkt.
Qed.

(** A receiver reads back exactly what the sender put in a control: the
    body [buildMediaKeyBody] makes for valid values is accepted on the same
    channel and gives the client, session, key slot, membership and the four
    keys. *)
Theorem control_roundtrip channel epoch nowSeconds client session kid members count keys :
  is_safe_integer epoch = true -> 0 < epoch -> id_re client = true -> id_re session = true ->
  0 <= kid <= 15 -> utf16_length members <= 64 -> 1 <= count <= 10000 ->
  (forall s, length (keys s) = 32%nat /\ all_bytes (keys s) = true) ->
  parseMediaKeyControl (buildMediaKeyBody channel epoch nowSeconds client session kid members count keys) channel =
  Ok (KeyValue client session kid members count (map keys SLOTS)).
Proof. apply media_key_parsed. Qed.

Lemma control_roundtrip_witness :
  let body := buildMediaKeyBody 7 1700000000000 1700000000 "12" "abc.r1" 3 "digest" 2 (fun _ => repeat 9 32) in
  parseMediaKeyControl body 8 = Err "scope"%string /\
  parseMediaKeyControl body 7 = Ok (KeyValue "12" "abc.r1" 3 "digest" 2 (repeat (repeat 9 32) 4)).
Proof.
  intros body. split; [vm_compute; reflexivity|].
  apply (control_roundtrip 7 1700000000000 1700000000 "12" "abc.r1" 3 "digest" 2 (fun _ => repeat 9 32));
    try (vm_compute; reflexivity); try lia; try (vm_compute; split; congruence).
  vm_compute. congruence.
Defined.

(** ** The inbox keeps the newest controls only *)

Definition inbox_ok (channel : Z) (ib : inbox) : Prop :=
  OMap.wf ib /\ OMap.size ib <= MAX_PENDING /\
  forall sender dev client x, ((sender, dev, client), x) ∈ ib ->
    field "sender" (ib_control x) = Some (JStr sender) /\ field "senderDevice" (ib_control x) = Some (JStr dev) /\
    exists v, parseMediaKeyControl (ib_control x) channel = Ok v /\ v_client v = client.

Lemma assoc_last_pick (g : string -> option json) k ks :
  assoc_last k (omap (fun k => (fun v => (k, v)) <$> g k) ks) = if decide (k ∈ ks) then g k else None.
Proof.
  induction ks as [|k' ks IH]; [done|]. cbn [omap list_omap].
  destruct (g k') as [v|] eqn:E; cbn [fmap option_fmap option_map assoc_last]; rewrite IH.
  - destruct (decide (k = k')) as [->|Hne].
    + rewrite E. rewrite (decide_True (P := k' ∈ k' :: ks)) by left. by destruct (decide (k' ∈ ks)).
    + destruct (decide (k ∈ ks)).
      * rewrite decide_True by (by right). by destruct (g k).
      * by rewrite decide_False by (rewrite elem_of_cons; naive_solver).
  - destruct (decide (k ∈ ks)).
    + by rewrite decide_True by (by right).
    + case_decide as Hd; [|done]. apply elem_of_cons in Hd as [->|]; [done|naive_solver].
Qed.

Lemma field_owned k control :
  k ∈ ["sender"; "senderDevice"; "kind"; "scope"; "epoch"; "expiresAt"; "data"]%string ->
  field k (owned_copy control) = field k control.
Proof.
  intros Hk. unfold owned_copy. cbn [field]. rewrite (assoc_last_pick (fun k => field k control)).
  by rewrite decide_True.
Qed.

(** The parser reads only fields the copy keeps. *)
Lemma parse_owned control channel :
  parseMediaKeyControl (owned_copy control) channel = parseMediaKeyControl control channel.
Proof. unfold parseMediaKeyControl. by rewrite !field_owned by (repeat constructor). Qed.

Lemma filter_wf {K V} `{EqDecision K} (P : K * V -> Prop) `{forall x, Decision (P x)} (m : list (K * V)) :
  OMap.wf m -> OMap.wf (filter P m).
Proof.
  unfold OMap.wf, OMap.keys. induction m as [|x m IH]; [done|]. rewrite filter_cons. simpl.
  rewrite NoDup_cons. intros [Hn Hd]. case_decide; [|auto]. simpl. rewrite NoDup_cons. split; [|auto].
  intros ([k v] & Hk & Hin)%list_elem_of_fmap. apply Hn. apply list_elem_of_fmap. exists (k, v). split; [done|].
  by apply list_elem_of_filter in Hin as [_ ?].
Qed.

Lemma inbox_filter_ok channel now ib :
  inbox_ok channel ib -> inbox_ok channel (filter (fun x => fresh (ib_control x.2) now (ib_at x.2) = true) ib).
Proof.
  intros (H1 & H2 & H3). split_and!; [by apply filter_wf| |].
  - etrans; [|exact H2]. unfold OMap.size. apply inj_le, length_filter.
  - intros s d c x [_ Hin]%list_elem_of_filter. by apply H3.
Qed.

Lemma inbox_set_ok channel ib sender dev control now v :
  inbox_ok channel ib -> field "sender" control = Some (JStr sender) ->
  field "senderDevice" control = Some (JStr dev) -> parseMediaKeyControl control channel = Ok v ->
  OMap.has (sender, dev, v_client v) ib = true \/ OMap.size ib < MAX_PENDING ->
  inbox_ok channel (OMap.set (sender, dev, v_client v) (InboxEntry now (owned_copy control)) ib).
Proof.
  intros (H1 & H2 & H3) Hs Hd Hp Hsz. split_and!; [by auto with omap| |].
  - rewrite OMap.size_set. destruct (OMap.has _ ib); [done|]. destruct Hsz; [done|lia].
  - intros s d c x [[[= -> -> ->] ->]|Hin]%OMap.elem_set; [|by apply H3]. cbn [ib_control].
    rewrite !field_owned by (repeat constructor). split_and!; [done|done|]. exists v. by rewrite parse_owned.
Qed.

(** Whatever arrives before the engine runs, the startup inbox holds at
    most 64 controls, each one a valid control of this channel from the sender
    it is filed under; a control is kept only if it is fresh and newer than the
    one held for the same sender device and client. *)
Theorem inbox_receive_ok channel now control ib :
  inbox_ok channel ib ->
  let '(ib', reason) := inbox_receive control channel now ib in
  inbox_ok channel ib' /\
  (reason = "pending"%string -> exists sender dev v,
     fresh control now now = true /\ parseMediaKeyControl control channel = Ok v /\
     OMap.get (sender, dev, v_client v) ib' = Some (InboxEntry now (owned_copy control)) /\
     forall x, OMap.get (sender, dev, v_client v) ib = Some x -> fresh (ib_control x) now (ib_at x) = true ->
       control_epoch (ib_control x) < control_epoch control).
Proof.
  intros Hok. unfold inbox_receive. set (ib1 := filter _ ib).
  assert (inbox_ok channel ib1) as Hok1 by (by apply inbox_filter_ok).
  destruct (parseMediaKeyControl control channel) as [v|e] eqn:Ep.
  2:{ split; [done|]. intros ->. unfold parseMediaKeyControl in Ep. repeat case_match; congruence. }
  destruct (field "sender" control) as [[| | |sender| |]|] eqn:Es; try done.
  destruct (field "senderDevice" control) as [[| | |dev| |]|] eqn:Ed; try done.
  destruct (_ || _); [done|]. destruct (fresh control now now) eqn:Ef; [|done]. cbn [negb].
  set (key := (sender, dev, v_client v)).
  assert (forall x, OMap.get key ib = Some x -> fresh (ib_control x) now (ib_at x) = true -> OMap.get key ib1 = Some x)
    as Hget.
  { intros x Hx Hfx. apply OMap.elem_get; [apply Hok1|]. apply list_elem_of_filter. split; [done|].
    by apply OMap.get_elem. }
  destruct (OMap.get key ib1) as [previous|] eqn:Eg.
  - destruct (Z.leb_spec (control_epoch control) (control_epoch (ib_control previous))); [done|].
    split; [apply inbox_set_ok; [done..|left; unfold OMap.has; fold key; by rewrite Eg]|].
    intros _. exists sender, dev, v. split_and!; [done|done|apply OMap.get_set_eq|].
    intros x Hx Hfx. specialize (Hget x Hx Hfx). by simplify_eq.
  - destruct (Z.leb_spec MAX_PENDING (OMap.size ib1)); [done|].
    split; [apply inbox_set_ok; [done..|by right]|].
    intros _. exists sender, dev, v. split_and!; [done|done|apply OMap.get_set_eq|].
    intros x Hx Hfx. by specialize (Hget x Hx Hfx).
Qed.

Definition demo_control (epoch : Z) : json :=
  match buildMediaKeyBody 7 epoch 1700000000 "12" "abc.r1" 3 "digest" 2 (fun _ => repeat 9 32) with
  | JObj l => JObj (l ++ [("sender", JStr "alice"); ("senderDevice", JStr "phone"); ("expiresAt", JNum 1700000120)]%string)
  | v => v
  end.

Lemma inbox_receive_ok_witness :
  let ib := (inbox_receive (demo_control 50) 7 1700000000000 []).1 in
  (inbox_receive (demo_control 40) 7 1700000001000 ib).2 = "stale"%string /\
  (inbox_receive (demo_control 60) 7 1700000001000 ib).2 = "pending"%string /\
  inbox_ok 7 (inbox_receive (demo_control 60) 7 1700000001000 ib).1.
Proof.
  intros ib. split_and!; [vm_compute; reflexivity|vm_compute; reflexivity|].
  assert (inbox_ok 7 ib) as H.
  { pose proof (inbox_receive_ok 7 1700000000000 (demo_control 50) []) as H.
    unfold ib. destruct (inbox_receive (demo_control 50) 7 1700000000000 []) as [ib' r]. apply H.
    split_and!; [constructor|vm_compute; congruence|]. by intros ???? ?%elem_of_nil. }
  pose proof (inbox_receive_ok 7 1700000001000 (demo_control 60) ib H) as H'.
  destruct (inbox_receive (demo_control 60) 7 1700000001000 ib) as [ib' r]. apply H'.
Defined.
