(* ===== verification/MediaDelivery.v ===== *)
(** * Media keys through the control channel

    A media key body (media-keys.js, MediaControl.v) travels as a control
    (olm-admission.js, OlmControl.v): the sender validates it, seals its text,
    and the receiver judges the exact text it opened before the key engine
    parses it.  The theorem composes the two components: every body the key
    engine builds is accepted by the sender's check, delivered by the
    receiver's judge while it has not expired, and read back by the receiving
    engine. *)

From stdpp Require Import base list strings.
From Stdlib Require Import ZArith Lia.
From S2P Require Import Prelude Json JsonText Text OlmAdmission OlmControl MediaWorker MediaControl.

(** ** Sizes of printed text *)

Definition printable (c : Z) : bool := (33 <=? c) && (c <=? 126).

Lemma str_all_bytes f s : str_all f s = forallb f (bytes_of s).
Proof. induction s as [|a s IH]; [done|]. simpl. by rewrite IH. Qed.

Lemma bytes_str_len s : Z.of_nat (length (bytes_of s)) = str_len s.
Proof. unfold str_len. f_equal. induction s as [|a s IH]; [done|]. simpl. by rewrite IH. Qed.

Lemma escaped_length l : forallb printable l = true -> (length (escaped l) <= 2 * length l)%nat.
Proof.
  unfold escaped. induction l as [|c l IH]; [done|]. cbn [forallb]. intros [Hc Hl]%andb_true_iff. specialize (IH Hl).
  rewrite bind_cons, length_app. cbn [length]. assert (length (escape c) <= 2)%nat; [|lia].
  unfold printable in Hc. apply andb_true_iff in Hc as [H1%Z.leb_le H2%Z.leb_le]. unfold escape. zcases; simpl; lia.
Qed.

Lemma print_str_length s : str_all printable s = true -> Z.of_nat (length (stringify (JStr s))) <= 2 * str_len s + 2.
Proof.
  intros Hs. rewrite str_all_bytes in Hs. apply escaped_length in Hs. rewrite <- bytes_str_len.
  unfold stringify. cbn [print_json]. unfold print_str_with. cbn [length]. rewrite length_app. cbn [length]. lia.
Qed.

Lemma channel_bytes n : 0 <= n -> bytes_of (channel_text n) = print_num n.
Proof.
  intros Hn. apply bytes_of_string_of. eapply forallb_imp; [|by apply print_num_digits]. unfold is_digit, is_byte. intros x. zcases; lia || done.
Qed.

Lemma channel_printable n : 0 <= n -> str_all printable (channel_text n) = true.
Proof.
  intros Hn. rewrite str_all_bytes, channel_bytes by done. eapply forallb_imp; [|by apply print_num_digits].
  unfold is_digit, printable. intros x. zcases; lia || done.
Qed.

Lemma channel_length n : 0 <= n <= max_safe -> 0 < str_len (channel_text n) <= 54.
Proof.
  intros Hn. rewrite <- bytes_str_len, channel_bytes by lia. pose proof (print_num_length n Hn) as H. cbn [stringify print_json] in H.
  split; [|done]. pose proof (print_json_nonempty escaped (JNum n)) as Hne. cbn [print_json] in Hne. destruct (print_num n); [done|simpl; lia].
Qed.

(** Text of ASCII characters from the space on is valid. *)
Lemma printable_points l : forallb printable l = true -> code_points l = Some l.
Proof.
  induction l as [|c l IH]; [done|]. cbn [forallb code_points]. intros [Hc Hl]%andb_true_iff. rewrite IH by done.
  unfold printable in Hc. apply andb_true_iff in Hc as [H1%Z.leb_le H2%Z.leb_le]. by zcases.
Qed.

Lemma channel_valid n : 0 <= n <= max_safe -> validText (Some (JStr (channel_text n))) = true.
Proof.
  intros Hn. destruct (channel_length n Hn) as [H1 H2]. pose proof (channel_printable n ltac:(lia)) as Hp. rewrite str_all_bytes in Hp.
  cbn [validText]. unfold utf8_length, str_len in *. unfold has_class. rewrite printable_points by done.
  assert (He : existsb is_Cc (bytes_of (channel_text n)) = false).
  { revert Hp. generalize (bytes_of (channel_text n)). intros l. induction l as [|c l IH]; [done|]. cbn [forallb existsb].
    intros [Hc Hl]%andb_true_iff. rewrite IH by done. unfold printable, is_Cc in *. zcases; done || lia. }
  rewrite He. by zcases.
Qed.

(** The size of an object, member by member. *)
Definition obj_size (ms : list (string * json)) : Z :=
  foldr (fun kv n => Z.of_nat (length (print_str kv.1)) + Z.of_nat (length (stringify kv.2)) + 2 + n) 2 ms.

Lemma obj_length ms : Z.of_nat (length (stringify (JObj ms))) <= obj_size ms.
Proof.
  unfold stringify. cbn [print_json length]. rewrite length_app. cbn [length].
  assert (Hj : Z.of_nat (length (join 44 (map (fun kv => print_str_with escaped kv.1 ++ 58 :: print_json escaped kv.2) ms))) + 2 <= obj_size ms); [|lia].
  induction ms as [|[k v] ms IH]; [done|]. unfold obj_size in *. cbn [foldr map fst snd]. fold (print_str k). fold (stringify v).
  destruct ms as [|m ms].
  - cbn [map join]. rewrite length_app. cbn [length foldr]. fold (stringify v). lia.
  - cbn [map] in *. rewrite join_cons2. rewrite !length_app. cbn [length]. fold (stringify v) in *. lia.
Qed.

Lemma b64_val_printable c n : b64_val c = Some n -> printable c = true.
Proof.
  unfold b64_val, printable. intros H. apply andb_true_iff. rewrite !Z.leb_le.
  repeat match type of H with (if ?b then _ else _) = _ => destruct b eqn:? end; rewrite ?andb_true_iff, ?Z.leb_le, ?Z.eqb_eq in *; done || lia.
Qed.

Lemma key_printable k : length k = 32%nat -> all_bytes k = true ->
  str_all printable (text (b64 k)) = true /\ str_len (text (b64 k)) = 44.
Proof.
  intros Hl Hb. destruct (b64_spec 10 k Hl Hb) as (_ & H2 & body & H3 & H4 & H5).
  unfold text. rewrite str_all_bytes, <- bytes_str_len, bytes_of_string_of by done. rewrite H3, forallb_app, length_app, H4.
  split; [|done]. apply andb_true_iff. split; [|done]. eapply forallb_imp; [|exact H5].
  intros x Hx. cbv beta in Hx. destruct (b64_val x) as [n|] eqn:E; [|discriminate]. exact (b64_val_printable x n E).
Qed.

(** A control with its members in order. *)
Lemma control_spec_fields kind type id e x data :
  let v := JObj [("kind", kind); ("scope", JObj [("type", type); ("id", id)]); ("epoch", JNum e); ("expires_at", JNum x); ("data", data)]%string in
  control_spec v = if fields_ok (Some kind) (Some type) (Some id) e x then Some v else None.
Proof. reflexivity. Qed.

Lemma printable_length s : str_all printable s = true -> utf16_length s = str_len s.
Proof.
  rewrite str_all_bytes, <- bytes_str_len. unfold utf16_length. intros Hp. rewrite printable_points by done.
  revert Hp. generalize (bytes_of s). intros l. induction l as [|c l IH]; [done|]. cbn [forallb foldr length].
  intros [Hc Hl]%andb_true_iff. rewrite IH by done. unfold printable in Hc. apply andb_true_iff in Hc as [H1%Z.leb_le H2%Z.leb_le].
  zcases. lia.
Qed.

Section delivery.
Variables channel epoch nowSeconds kid count : Z.
Variables client session members : string.
Variable keys : keyset.
Hypothesis Hchannel : 0 <= channel <= max_safe.
Hypothesis Hepoch : 0 < epoch <= max_safe.
Hypothesis Hnow : 0 < nowSeconds + CONTROL_TTL_S <= max_safe.
Hypothesis Hclient : id_re client = true.
Hypothesis Hsession : id_re session = true.
Hypothesis Hkid : 0 <= kid <= 15.
Hypothesis Hmembers : str_all printable members = true.
Hypothesis Hmlen : str_len members <= 64.
Hypothesis Hcount : 1 <= count <= 10000.
Hypothesis Hkeys : forall s, length (keys s) = 32%nat /\ all_bytes (keys s) = true.

Definition body : json := buildMediaKeyBody channel epoch nowSeconds client session kid members count keys.

Lemma id_printable s : id_re s = true -> str_all printable s = true /\ str_len s <= 128.
Proof. unfold id_re. rewrite !andb_true_iff. intros [[H1 _] H2%Z.leb_le]. by split. Qed.

Lemma body_length : Z.of_nat (length (stringify body)) <= MAX_CONTROL_DATA.
Proof.
  unfold body, buildMediaKeyBody.
  destruct (id_printable client Hclient) as [C1 C2]. destruct (id_printable session Hsession) as [S1 S2].
  pose proof (print_str_length client C1) as L1. pose proof (print_str_length session S1) as L2.
  pose proof (print_str_length members Hmembers) as L3. pose proof (print_num_length kid ltac:(unfold max_safe; lia)) as L4.
  pose proof (print_num_length count ltac:(unfold max_safe; lia)) as L5. pose proof (print_num_length epoch ltac:(lia)) as L6.
  pose proof (print_num_length (nowSeconds + CONTROL_TTL_S) ltac:(lia)) as L7.
  pose proof (print_str_length _ (channel_printable channel ltac:(lia))) as L8. pose proof (channel_length channel Hchannel) as [_ L9].
  assert (Hk : forall s, Z.of_nat (length (stringify (JStr (text (b64 (keys s)))))) <= 90).
  { intros s. destruct (Hkeys s) as [K1 K2]. destruct (key_printable (keys s) K1 K2) as [P1 P2]. pose proof (print_str_length _ P1). lia. }
  pose proof (obj_length (map (fun s => (slot_name s, JStr (text (b64 (keys s))))) SLOTS)) as O1.
  match goal with |- context [("data", JObj ?d)%string] => pose proof (obj_length d) as O2 end.
  pose proof (obj_length [("type", JStr MEDIA_SCOPE_TYPE); ("id", JStr (channel_text channel))]%string) as O3.
  match goal with |- context [stringify (JObj ?d)] => pose proof (obj_length d) as O4 end.
  pose proof (Hk Mic). pose proof (Hk Cam). pose proof (Hk Screen). pose proof (Hk ScreenAudio).
  unfold obj_size in O1, O2, O3, O4. cbn [foldr map SLOTS fst snd] in O1, O2, O3, O4.
  unfold MAX_CONTROL_DATA.
  repeat match goal with H : context [print_str ?k] |- _ => let x := eval vm_compute in (Z.of_nat (length (print_str k))) in
    change (Z.of_nat (length (print_str k))) with x in H end.
  change (Z.of_nat (length (stringify (JStr MEDIA_KEY_KIND)))) with 11 in *.
  change (Z.of_nat (length (stringify (JStr MEDIA_SCOPE_TYPE)))) with 15 in *.
  change (Z.of_nat (length (stringify (JNum MEDIA_KEY_DATA_VERSION)))) with 1 in *.
  cbn [map SLOTS]. lia.
Qed.

(** The body is its own control: the words, identifiers and integers are in range. *)
Lemma body_control : control_spec body = Some body.
Proof.
  unfold body, buildMediaKeyBody. rewrite control_spec_fields. unfold fields_ok.
  rewrite channel_valid by done. change (controlWord (Some (JStr MEDIA_KEY_KIND))) with true.
  change (controlWord (Some (JStr MEDIA_SCOPE_TYPE))) with true. cbn [safe_positive andb]. unfold is_safe_integer.
  by zcases.
Qed.

Lemma body_parsed raw : parse raw = Some body -> Z.of_nat (length raw) <= MAX_CONTROL_DATA -> parseControlBody raw = Some body.
Proof. intros Hp Hl. rewrite (control_by_value raw body Hp Hl). apply body_control. Qed.

Lemma body_expires : expires_of body = nowSeconds + CONTROL_TTL_S.
Proof. reflexivity. Qed.

(** C35: a media key reaches the receiving engine: the body the sending engine
    builds is accepted by the sender's control check; any text of it of at most
    4096 bytes (its own text is one) is judged delivered by a receiver whose
    clock is at most eight minutes behind and before the expiry; and the control
    handed on gives back the client, session, key slot, membership and keys. *)
Theorem media_key_delivered :
  validateControlSend body nowSeconds = Some body /\
  Z.of_nat (length (stringify body)) <= MAX_CONTROL_DATA /\
  (forall raw now, parse raw = Some body -> Z.of_nat (length raw) <= MAX_CONTROL_DATA ->
     nowSeconds - 480 <= now < nowSeconds + CONTROL_TTL_S -> judgeControl raw now = (Delivered, Some body)) /\
  parseMediaKeyControl body channel = Ok (KeyValue client session kid members count (map keys SLOTS)).
Proof.
  pose proof body_length as Hl. split_and!; [|done|..].
  - unfold validateControlSend. rewrite body_parsed by (done || apply parse_stringify). cbn [mbind option_bind].
    rewrite body_expires. unfold MAX_CONTROL_TTL, CONTROL_TTL_S in *. by zcases.
  - intros raw now Hp Hr Ht. unfold judgeControl. rewrite (body_parsed raw Hp Hr), body_expires.
    unfold MAX_CONTROL_TTL, CONTROL_CLOCK_SKEW, CONTROL_TTL_S in *. by zcases.
  - apply media_key_parsed; try done; try lia; [unfold is_safe_integer; by zcases|].
    rewrite printable_length by done. lia.
Qed.
End delivery.

Lemma media_key_delivered_witness :
  let keys := fun _ : slot => repeat 5 32 in
  let b := body 7 3 1700000000 2 4 "c1" "s1" "abc" keys in
  judgeControl (stringify b) 1700000010 = (Delivered, Some b) /\
  parseMediaKeyControl b 7 = Ok (KeyValue "c1" "s1" 2 "abc" 4 (map keys SLOTS)).
Proof.
  intros keys b.
  assert (H7 : 0 <= 7 <= max_safe) by (unfold max_safe; lia). assert (H3 : 0 < 3 <= max_safe) by (unfold max_safe; lia).
  assert (Hn : 0 < 1700000000 + CONTROL_TTL_S <= max_safe) by (unfold max_safe, CONTROL_TTL_S; lia).
  destruct (media_key_delivered 7 3 1700000000 2 4 "c1" "s1" "abc" keys H7 H3 Hn eq_refl eq_refl ltac:(lia) eq_refl
    ltac:(vm_compute; discriminate) ltac:(lia) (fun s => conj eq_refl eq_refl)) as (_ & H2 & H4 & H5).
  split; [|exact H5]. apply H4; [apply parse_stringify|exact H2|unfold CONTROL_TTL_S; lia].
Defined.
