(* ===== verification/MediaKeys.v ===== *)
(** * The media key engine ([media-e2ee/media-keys.js], class [MediaKeyEngine])

    One engine distributes the keys of one voice session.  It is driven by
    roster updates, timers, the replies of the frame worker ([media]) and of
    the control channel ([send]), and by the controls other senders deliver.
    The engine's state is a record; everything that runs without an [await] is
    one function on it; an [async] method that is waiting is a value that says
    where it continues ([rekey], [dist], [install]).  [handle] is one turn of
    the event loop.

    Time is abstract: a timer that is armed may fire, in any order with the
    other events.  Object identities (a publisher's state) are numbers. *)

From stdpp Require Import base list strings.
From Stdlib Require Import ZArith Lia.
From S2P Require Import Prelude Json Text MediaControl.

(** ** Data *)

Definition keys_t : Type := list (list Z).
Definition slot_index (s : slot) : nat :=
  match s with Mic => 0 | Cam => 1 | Screen => 2 | ScreenAudio => 3 end.
Definition key_at (ks : keys_t) (s : slot) : list Z := default [] (ks !! slot_index s).

(** Publications of the worker: my own senders, and what a client publishes. *)
Inductive media_pid := Sender (s : slot) | Publication (client : string) (s : slot).
#[global] Instance media_pid_eq_dec : EqDecision media_pid.
Proof. solve_decision. Defined.

Definition pid_text (p : media_pid) : string :=
  match p with
  | Sender s => senderPid (Some (slot_name s))
  | Publication c s => publicationPid c (Some (slot_name s))
  end.

(** Calls of the frame worker, in the order they are posted. *)
Inductive call :=
| CSetKey (p : media_pid) (epoch kid : Z) (key : list Z)
| CActivate (p : media_pid) (epoch : Z)
| CRetireOne (p : media_pid) (epoch : Z)
| CRetire (p : media_pid) (through : Z)
| CForget (p : media_pid).

Inductive output :=
| OCall (c : call)
| OSend (epoch : Z) (r : recipient) (body : json)
| OInvisible
| OReply (r : result string Z).         (* [{ok: true, epoch}] or [{ok: false, reason}] *)

Inductive rekey_reason := RNone | RMembership | RPublication | RStart | RRenewal | RRemoval.
#[global] Instance rekey_reason_eq_dec : EqDecision rekey_reason.
Proof. solve_decision. Defined.
Definition REASON_RANK (r : rekey_reason) : Z :=
  match r with RNone => 0 | RMembership | RPublication => 1 | RStart | RRenewal => 2 | RRemoval => 3 end.

Record removal := Removal { r_seq : Z; r_due : bool }.
Record activation := Activation { a_epoch : Z; a_created : Z }.
#[global] Instance activation_eq_dec : EqDecision activation.
Proof. solve_decision. Defined.

(** What is known of the distribution of one epoch, with its material. *)
Record delivery := Delivery {
  d_ok : list did;
  d_failed : list (did * string);
  d_kid : Z;
  d_keys : keys_t;
  d_members : string;
  d_count : Z;
  d_chain : list did;
  d_inherited : list did }.

#[export] Instance eta_delivery : Eta delivery := fun r =>
  Delivery (d_ok r) (d_failed r) (d_kid r) (d_keys r) (d_members r) (d_count r) (d_chain r) (d_inherited r).

(** Where a waiting [#rekey] continues. *)
Inductive pc :=
| PKeys                               (* [await ratchetKeys] *)
| PDigest                             (* [await membershipDigest] *)
| PSetKey (i : nat)                   (* reply of the [i]-th of eight [setKey] calls *)
| PUrgent (reached : bool)            (* the race with the covered removals' deadlines *)
| PWait (settled : option bool)       (* the race with an interruption *)
| PActivate (i : nat).                (* reply of the [i]-th of four [activate] calls *)

Record rekey := Rekey {
  k_gen : Z; k_self : identity; k_created : Z; k_urgent : bool; k_previous : Z;
  k_recipients : list recipient; k_head : option delivery;
  k_epoch : Z; k_kid : Z; k_keys : keys_t; k_chain : list did; k_members : string; k_dist : nat; k_pc : pc }.

#[export] Instance eta_rekey : Eta rekey := fun r =>
  Rekey (k_gen r) (k_self r) (k_created r) (k_urgent r) (k_previous r) (k_recipients r) (k_head r)
    (k_epoch r) (k_kid r) (k_keys r) (k_chain r) (k_members r) (k_dist r) (k_pc r).

(** A running [#distribute]: recipients not yet tried and sends in flight, and
    what waits for its end. *)
Inductive dist_after := ANothing | AStatus (gen : Z) | ARetry (attempt : Z).
Record dist := Dist {
  x_id : nat; x_gen : Z; x_epoch : Z; x_body : json;
  x_todo : list recipient; x_fly : list recipient; x_after : dist_after }.

#[export] Instance eta_dist : Eta dist := fun r =>
  Dist (x_id r) (x_gen r) (x_epoch r) (x_body r) (x_todo r) (x_fly r) (x_after r).

Record retry_timer := RetryTimer { t_id : nat; t_gen : Z; t_epoch : Z; t_attempt : Z }.

(** Another client whose keys are accepted. *)
Record publisher := Publisher {
  p_id : nat; p_principal : string; p_device : string; p_epochs : list Z; p_members : string; p_n : Z;
  p_session : string; p_announced : Z; p_next : Z }.

#[export] Instance eta_publisher : Eta publisher := fun r =>
  Publisher (p_id r) (p_principal r) (p_device r) (p_epochs r) (p_members r) (p_n r)
    (p_session r) (p_announced r) (p_next r).

Record held_control := Held { h_control : json; h_value : key_value; h_at : Z; h_gen : Z }.

(** A running installation: of a control's keys, or of a derived successor. *)
Record install := Install {
  i_id : nat; i_gen : Z; i_client : string; i_state : nat; i_epoch : Z; i_kid : Z; i_keys : keys_t;
  i_session : string; i_slot : nat; i_successor : bool }.

#[export] Instance eta_install : Eta install := fun r =>
  Install (i_id r) (i_gen r) (i_client r) (i_state r) (i_epoch r) (i_kid r) (i_keys r)
    (i_session r) (i_slot r) (i_successor r).

(** A derivation of successor keys that is running. *)
Record derivation := Derive {
  v_id : nat; dv_gen : Z; dv_client : string; dv_state : nat; dv_epoch : Z; dv_kid : Z; dv_keys : keys_t }.

Record engine := Engine {
  gen : Z; self : option identity; session : string;
  roster : list json; recipients : list recipient; recipientKey : list did;
  epoch : Z; kid : Z; keys : option keys_t; members : string;
  again : bool; debounce : bool; renew : bool; busyOrPending : bool; reason : rekey_reason;
  retry : nat; retryArmed : Z; retryTimers : list retry_timer;
  publishers : list (string * publisher); pending : list held_control; failed : list (did * recipient);
  pendingRemovals : list removal; seq : Z; removalDebounce : bool;
  runFailures : Z; runRetry : bool; paused : bool; activating : list activation;
  activeEpoch : Z; activeRecipients : list recipient; deliveries : list (Z * delivery);
  task : option rekey; dists : list dist; installs : list install; derivations : list derivation;
  senderRetires : list (Z * Z);            (* generation and epoch of the retire timers *)
  graces : list (string * Z);              (* client and epoch of the grace timers *)
  issuedEpochs : list (did * Z); acceptedEpochs : list (did * Z);   (* of the page *)
  nextId : nat }.

#[export] Instance eta_engine : Eta engine := fun r =>
  Engine (gen r) (self r) (session r) (roster r) (recipients r) (recipientKey r) (epoch r) (kid r) (keys r)
    (members r) (again r) (debounce r) (renew r) (busyOrPending r) (reason r) (retry r) (retryArmed r)
    (retryTimers r) (publishers r) (pending r) (failed r) (pendingRemovals r) (seq r) (removalDebounce r)
    (runFailures r) (runRetry r) (paused r) (activating r) (activeEpoch r) (activeRecipients r)
    (deliveries r) (task r) (dists r) (installs r) (derivations r) (senderRetires r) (graces r)
    (issuedEpochs r) (acceptedEpochs r) (nextId r).

(** A new engine on a page that issued and accepted these epochs before. *)
Definition new_engine (issued accepted : list (did * Z)) : engine :=
  Engine 0 None "" [] [] [] 0 15 None "" false false false false RNone 0 0 [] [] [] [] [] 0 false 0 false false []
    0 [] [] None [] [] [] [] [] issued accepted 1.

Definition running (st : engine) : bool := match self st with Some _ => true | None => false end.

Definition lookup_or (d : Z) (k : did) (m : list (did * Z)) : Z := default d (OMap.get k m).
Definition self_key (s : identity) : did := (principal_ s, device_ s).

(** ** Reading the roster *)

(** [roster.find(c => String(c.client_id) === client)] *)
Definition find_client (rs : list json) (client : string) : option json :=
  List.find (fun c => bool_decide (String_of (field "client_id" c) = client)) rs.

Definition self_invisible (st : engine) : bool :=
  match self st with
  | Some s => match find_client (roster st) (clientID s) with Some c => invisible c | None => false end
  | None => false
  end.

Definition isRecipient (st : engine) (r : recipient) : bool :=
  existsb (fun c => bool_decide (principal c = principal r) && bool_decide (device c = device r)) (recipients st).

(** ** Scheduling *)

Definition schedule (why : rekey_reason) (st : engine) : engine :=
  if negb (running st) then st
  else
    let st := if negb (busyOrPending st) || (REASON_RANK (reason st) <=? REASON_RANK why)
              then st <| reason := why |> else st in
    let st := st <| busyOrPending := true |> in
    if removalDebounce st then st
    else st <| removalDebounce := bool_decide (why = RRemoval) |> <| debounce := true |>.

(** [#noteRemoval]: the removal's timer is armed exactly while it is in
    [pendingRemovals] and not due; the waiting rekey is interrupted. *)
Definition interrupt (t : rekey) : rekey :=
  match k_pc t with PWait None => t <| k_pc := PWait (Some false) |> | _ => t end.
Definition noteRemoval (st : engine) : engine :=
  st <| seq := seq st + 1 |>
     <| pendingRemovals := pendingRemovals st ++ [Removal (seq st + 1) false] |>
     <| task := interrupt <$> task st |>.

(** Both publications of an epoch of mine. *)
Definition retire_own (client : string) (e : Z) : list output :=
  SLOTS ≫= fun s => [OCall (CRetireOne (Sender s) e); OCall (CRetireOne (Publication client s) e)].

Definition mark_due (q : Z) (rs : list removal) : list removal :=
  map (fun r => if r_seq r =? q then Removal q true else r) rs.

(** The timer of a removal. *)
Definition deadline (q : Z) (st : engine) : engine * list output :=
  match self st with
  | None => (st, [])
  | Some s =>
    let st := st <| pendingRemovals := mark_due q (pendingRemovals st) |>
      <| task := (fun t => match k_pc t with
                           | PUrgent _ => if existsb (fun r => (r_seq r =? q) && (r_seq r <? k_created t)) (pendingRemovals st)
                                          then t <| k_pc := PUrgent true |> else t
                           | _ => t
                           end) <$> task st |> in
    let partial := filter (fun a => a_created a < q) (activating st) in
    let st := st <| activating := filter (fun a => q <= a_created a) (activating st) |> in
    let out := partial ≫= fun a => retire_own (clientID s) (a_epoch a) in
    if ((activeEpoch st =? 0) || paused st) && bool_decide (partial = []) then (st, out)
    else
      let out := if negb (activeEpoch st =? 0) && negb (paused st)
                 then out ++ retire_own (clientID s) (activeEpoch st) else out in
      (st <| paused := true |>, out)
  end.

(** ** Retries *)

Definition clear_retry (st : engine) : engine :=
  st <| retryTimers := filter (fun t => t_id t <> retry st) (retryTimers st) |>.

(** [this.#retry = setTimeout(...)] *)
Definition arm_retry (g e attempt : Z) (st : engine) : engine :=
  st <| retry := nextId st |> <| retryTimers := retryTimers st ++ [RetryTimer (nextId st) g e attempt] |>
     <| nextId := S (nextId st) |>.

Definition scheduleRetry (g e : Z) (st : engine) : engine :=
  if bool_decide (failed st = []) || (retryArmed st =? e) then st
  else arm_retry g e 1 (clear_retry st <| retryArmed := e |>).

(** ** Distribution *)

Inductive send_result := SendOk | SendFailed (why : string).

Definition tally_result (id : did) (r : send_result) (d : delivery) : delivery :=
  match r with
  | SendOk => d <| d_ok := if decide (id ∈ d_ok d) then d_ok d else d_ok d ++ [id] |>
                <| d_failed := OMap.del id (d_failed d) |>
  | SendFailed why => d <| d_failed := OMap.set id why (d_failed d) |>
  end.

(** [record]: a result counts for the epoch it belongs to. *)
Definition record (g e : Z) (r : recipient) (res : send_result) (st : engine) : engine :=
  if negb (g =? gen st) then st
  else
    let id := rid r in
    let st := match OMap.get e (deliveries st) with
              | Some d => st <| deliveries := OMap.set e (tally_result id res d) (deliveries st) |>
              | None => st
              end in
    if negb (epoch st =? e) then st
    else match res with
         | SendOk => st <| failed := OMap.del id (failed st) |>
         | SendFailed _ =>
           let st := st <| failed := OMap.set id r (failed st) |> in
           if activeEpoch st =? e then scheduleRetry g e st else st
         end.

Definition CONCURRENCY : nat := 6.

(** The pool takes recipients while a lane is free; a lane that does not send
    goes on at once. *)
Fixpoint pump (g e : Z) (body : json) (todo fly : list recipient) (st : engine)
    : engine * list recipient * list recipient * list output :=
  match todo with
  | [] => (st, [], fly, [])
  | r :: rest =>
    if (CONCURRENCY <=? length fly)%nat then (st, todo, fly, [])
    else if negb (g =? gen st) || self_invisible st
    then pump g e body rest fly (record g e r (SendFailed "stopped") st)
    else if negb (isRecipient st r) then pump g e body rest fly st
    else let '(st', todo', fly', out) := pump g e body rest (fly ++ [r]) st in
         (st', todo', fly', OSend e r body :: out)
  end.

Definition set_dist (d : dist) (st : engine) : engine :=
  st <| dists := map (fun x => if (x_id x =? x_id d)%nat then d else x) (dists st) |>.

Definition pump_dist (d : dist) (st : engine) : engine * list output :=
  let '(st', todo, fly, out) := pump (x_gen d) (x_epoch d) (x_body d) (x_todo d) (x_fly d) st in
  (set_dist (d <| x_todo := todo |> <| x_fly := fly |>) st', out).

(** [#distribute] up to its first [await]; its number. *)
Definition distribute (g : Z) (rs : list recipient) (e : Z) (after : dist_after) (now : Z) (st : engine)
    : engine * list output * nat :=
  match self st, OMap.get e (deliveries st) with
  | Some s, Some m =>
    let body := buildMediaKeyBody (channelID s) e (now / 1000) (clientID s) (session st) (d_kid m) (d_members m)
                  (d_count m) (key_at (d_keys m)) in
    let d := Dist (nextId st) g e body rs [] after in
    let st := st <| dists := dists st ++ [d] |> <| nextId := S (nextId st) |> in
    let (st', out) := pump_dist d st in (st', out, x_id d)
  | _, _ =>
    (* nothing to send: the distribution is settled at once *)
    let d := Dist (nextId st) g e JNull [] [] after in
    (st <| dists := dists st ++ [d] |> <| nextId := S (nextId st) |>, [], x_id d)
  end.

(** A send settles; its lane goes on. *)
Definition delivered (id : nat) (r : recipient) (res : send_result) (st : engine) : engine * list output :=
  match List.find (fun d => (x_id d =? id)%nat) (dists st) with
  | None => (st, [])
  | Some d =>
    if decide (r ∈ x_fly d) then
      let st := record (x_gen d) (x_epoch d) r res st in
      pump_dist (d <| x_fly := filter (fun x => x <> r) (x_fly d) |>) st
    else (st, [])
  end.

Definition disarm (e : Z) (st : engine) : engine := if retryArmed st =? e then st <| retryArmed := 0 |> else st.

(** What waits for the end of a distribution. *)
Definition dist_done (id : nat) (now : Z) (st : engine) : engine :=
  match List.find (fun d => (x_id d =? id)%nat) (dists st) with
  | Some d =>
    match x_todo d, x_fly d with
    | [], [] =>
      let st := match x_after d with ANothing => st | _ => st <| dists := filter (fun x => x_id x <> id) (dists st) |> end in
      match x_after d with
      | ANothing => st
      | AStatus g => if (g =? gen st) && (epoch st =? x_epoch d) then scheduleRetry g (x_epoch d) st else st
      | ARetry attempt =>
        if negb (x_gen d =? gen st) || negb (epoch st =? x_epoch d) then disarm (x_epoch d) st
        else if bool_decide (failed st = []) then disarm (x_epoch d) st
        else arm_retry (x_gen d) (x_epoch d) (attempt + 1) st
      end
    | _, _ => st
    end
  | None => st
  end.

(** [#retryFailed] *)
Definition retryFailed (g e attempt now : Z) (st : engine) : engine * list output :=
  let again_ := filter (fun r => rid r ∈ map rid (recipients st)) (OMap.values (failed st)) in
  if bool_decide (again_ = []) then (disarm e st, [])
  else (distribute g again_ e (ARetry attempt) now st).1.

Definition retry_fires (id : nat) (now : Z) (st : engine) : engine * list output :=
  match List.find (fun t => (t_id t =? id)%nat) (retryTimers st) with
  | None => (st, [])
  | Some t =>
    let st := st <| retryTimers := filter (fun x => t_id x <> id) (retryTimers st) |> in
    if (t_gen t =? gen st) && (epoch st =? t_epoch t) then retryFailed (t_gen t) (t_epoch t) (t_attempt t) now st
    else (disarm (t_epoch t) st, [])
  end.

(** ** Creating an epoch *)

(** [#ratchetCapable] *)
Definition ratchetCapable (st : engine) (pri dev : string) : bool :=
  let mine := filter (fun x => p_principal x.2 = pri /\ p_device x.2 = dev) (publishers st) in
  negb (bool_decide (mine = [])) &&
  forallb (fun x => bool_decide (RATCHET_FEATURE ∈ sessionFeatures (Some (p_session x.2)))) mine &&
  match self st with
  | None => false
  | Some s =>
    forallb (fun c => negb (inChannel c (channelID s) && bool_decide (str_field "unique_id" c = Some pri) &&
                            bool_decide (str_field "media_device" c = Some dev)) ||
                      OMap.has (String_of (field "client_id" c)) (publishers st)) (roster st)
  end.

(** [#ratchetHead]: the material the next epoch may be derived from. *)
Definition ratchetHead (why : rekey_reason) (ids : list did) (me : did) (st : engine) : option delivery :=
  if negb (bool_decide (why = RMembership)) && negb (bool_decide (why = RPublication)) then None
  else if negb (bool_decide (pendingRemovals st = [])) || paused st then None
  else if (activeEpoch st =? 0) || negb (epoch st =? activeEpoch st) ||
          negb (lookup_or 0 me (issuedEpochs st) =? activeEpoch st) then None
  else match OMap.get (activeEpoch st) (deliveries st) with
       | None => None
       | Some h =>
         if forallb (fun id => bool_decide (id ∈ ids) && bool_decide (id ∈ d_ok h) && ratchetCapable st id.1 id.2)
              (d_chain h)
         then Some h else None
       end.

(** What a turn of the engine reads from outside: the clock and fresh keys. *)
Record env := Env { now : Z; random_keys : keys_t }.

(** The outcome of one segment of [#rekey]. *)
Inductive progress := Waiting (t : rekey) | Finished | Thrown.

Section engine.
(** HKDF over a slot key, and the digest of a member list. *)
Variable hkdf : slot -> list Z -> list Z.
Variable membershipDigest : list did -> string.

Definition ratchetKeys (ks : keys_t) : keys_t := map (fun s => hkdf s (key_at ks s)) SLOTS.

(** Lines 433-446: the epoch gets its number and key slot. *)
Definition after_keys (v : env) (ks : keys_t) (t : rekey) (st : engine) : engine * list output * progress :=
  if negb (k_gen t =? gen st) then (st, [], Finished)
  else
    let me := self_key (k_self t) in
    let issued := lookup_or 0 me (issuedEpochs st) in
    let e := match k_head t with
             | Some _ => k_previous t + 1
             | None => Z.max (Z.max (epoch st + 2) (issued + 2)) (now v)
             end in
    let k := match k_head t with Some h => (d_kid h + 1) `mod` 16 | None => (kid st + 2) `mod` 16 end in
    let chain := match k_head t with Some h => d_chain h | None => [] end in
    (st <| issuedEpochs := OMap.set me e (issuedEpochs st) |>, [],
     Waiting (t <| k_epoch := e |> <| k_kid := k |> <| k_keys := ks |>
                <| k_chain := remove_dups (chain ++ map rid (k_recipients t)) |> <| k_pc := PDigest |>)).

(** Lines 417-432. *)
Definition begin_rekey (v : env) (st : engine) : engine * list output * progress :=
  match self st with
  | None => (st, [], Thrown)
  | Some s =>
    let created := seq st + 1 in
    let urgent := negb (bool_decide (pendingRemovals st = [])) in
    let why := reason st in
    let st := st <| seq := created |> <| reason := RNone |> <| busyOrPending := false |> in
    if self_invisible st then (st, [OInvisible], Finished)
    else
      let rs := recipientsOf (roster st) s in
      let st := st <| recipients := rs |> in
      let head := ratchetHead why (map rid rs) (self_key s) st in
      let t := Rekey (gen st) s created urgent (activeEpoch st) rs head 0 0 [] [] "" 0 PKeys in
      match head with
      | Some _ => (st, [], Waiting t)
      | None => after_keys v (random_keys v) t st
      end
  end.

(** The [i]-th key call: the slots in order, sender first, then my own publication. *)
Definition nth_slot (i : nat) : slot := default Mic (SLOTS !! i).
Definition setkey_call (t : rekey) (i : nat) : output :=
  let s := nth_slot (i / 2) in
  let p := if Nat.even i then Sender s else Publication (clientID (k_self t)) s in
  OCall (CSetKey p (k_epoch t) (k_kid t) (key_at (k_keys t) s)).

Definition restore (e : Z) (t : rekey) (st : engine) : engine :=
  let e' := if k_previous t =? 0 then e else k_previous t in
  let st := st <| epoch := e' |> <| failed := [] |> in
  match OMap.get e' (deliveries st) with
  | Some d => st <| kid := d_kid d |> <| keys := Some (d_keys d) |> <| members := d_members d |>
  | None => st
  end.

(** [preempted]: the epoch is given up for the one the removal needs. *)
Definition preempted (t : rekey) (st : engine) : engine * list output * progress :=
  let e := k_epoch t in
  let st := if epoch st =? e then (clear_retry (restore e t st)) <| retryArmed := 0 |> else st in
  (st <| deliveries := OMap.del e (deliveries st) |> <| again := true |>,
   retire_own (clientID (k_self t)) e, Finished).

Definition removal_after (created : Z) (st : engine) : bool :=
  existsb (fun r => created <? r_seq r) (pendingRemovals st).
Definition due_after (created : Z) (st : engine) : bool :=
  existsb (fun r => r_due r && (created <? r_seq r)) (pendingRemovals st).

(** Lines 509-532: the epoch may be activated. *)
Definition try_activate (t : rekey) (st : engine) : engine * list output * progress :=
  if negb (k_gen t =? gen st) || negb (epoch st =? k_epoch t) then (st, [], Finished)
  else if due_after (k_created t) st then
    let st := restore (k_epoch t) t st in
    (st <| deliveries := OMap.del (k_epoch t) (deliveries st) |> <| again := true |>,
     retire_own (clientID (k_self t)) (k_epoch t), Finished)
  else
    (st <| activating := activating st ++ [Activation (k_epoch t) (k_created t)] |>,
     [OCall (CActivate (Sender Mic) (k_epoch t))], Waiting (t <| k_pc := PActivate 0 |>)).

(** Lines 454-508: the epoch is installed; its controls go out. *)
Definition after_install (v : env) (t : rekey) (st : engine) : engine * list output * progress :=
  if negb (k_gen t =? gen st) then (st, [], Finished)
  else
    let e := k_epoch t in
    let inherited := match k_head t with Some h => d_ok h | None => [] end in
    let st := st <| epoch := e |> <| kid := k_kid t |> <| keys := Some (k_keys t) |> <| members := k_members t |>
      <| failed := [] |>
      <| deliveries := OMap.set e (Delivery [] [] (k_kid t) (k_keys t) (k_members t)
           (Z.of_nat (length (k_recipients t)) + 1) (k_chain t) inherited) (deliveries st) |> in
    let '(st, out, d) := distribute (k_gen t) (k_recipients t) e ANothing (now v) st in
    let t := t <| k_dist := d |> in
    let covered := filter (fun r => r_seq r < k_created t) (pendingRemovals st) in
    if (k_previous t =? 0) || bool_decide (is_Some (k_head t)) then
      if removal_after (k_created t) st
      then let '(st, out', p) := preempted t st in (st, out ++ out', p)
      else let '(st, out', p) := try_activate t st in (st, out ++ out', p)
    else if k_urgent t && negb (bool_decide (covered = []))
    then (st, out, Waiting (t <| k_pc := PUrgent (existsb r_due covered) |>))
    else if removal_after (k_created t) st
    then let '(st, out', p) := preempted t st in (st, out ++ out', p)
    else (st, out, Waiting (t <| k_pc := PWait None |>)).

(** Lines 533-559: every slot is active.  First the activation in flight ends; *)
Definition activation_over (t : rekey) (st : engine) : engine :=
  st <| activating := filter (fun a => a <> Activation (k_epoch t) (k_created t) /\ k_epoch t < a_epoch a) (activating st) |>.
(** the epoch is the active one, and deliveries that failed are retried; *)
Definition now_active (t : rekey) (st : engine) : engine :=
  scheduleRetry (k_gen t) (k_epoch t) (st <| activeEpoch := k_epoch t |> <| activeRecipients := k_recipients t |>).
(** the removals are checked again, and those it covers are satisfied; *)
Definition removals_met (t : rekey) (st : engine) : engine :=
  st <| paused := due_after (k_created t) st |>
     <| deliveries := filter (fun x => ~ x.1 < k_epoch t) (deliveries st) |>
     <| pendingRemovals := filter (fun r => k_created t < r_seq r) (pendingRemovals st) |>.
Definition again_if_pending (st : engine) : engine :=
  if bool_decide (pendingRemovals st = []) then st else st <| again := true |>.
(** and the previous epoch's retirement and the end of the distribution are armed. *)
Definition arm_after (t : rekey) (st : engine) : engine :=
  st <| senderRetires := senderRetires st ++ (if k_previous t =? 0 then [] else [(k_gen t, k_previous t)]) |>
     <| dists := map (fun d => if (x_id d =? k_dist t)%nat then d <| x_after := AStatus (k_gen t) |> else d) (dists st) |>.

Definition after_activation (t : rekey) (st : engine) : engine * list output * progress :=
  let st := activation_over t st in
  if negb (k_gen t =? gen st) then (st, [], Finished)
  else
    let st := now_active t st in
    (arm_after t (again_if_pending (removals_met t st)),
     if due_after (k_created t) st then retire_own (clientID (k_self t)) (k_epoch t) else [], Finished).

(** The awaited promise settles: [ok] is whether it resolved. *)
Definition resume (v : env) (ok : bool) (t : rekey) (st : engine) : engine * list output * progress :=
  match k_pc t with
  | PKeys =>
    match k_head t with
    | Some h => if ok then after_keys v (ratchetKeys (d_keys h)) t st else (st, [], Thrown)
    | None => (st, [], Thrown)
    end
  | PDigest =>
    if negb ok then (st, [], Thrown)
    else if negb (k_gen t =? gen st) then (st, [], Finished)
    else let t := t <| k_members := membershipDigest (map rid (k_recipients t) ++ [self_key (k_self t)]) |>
                    <| k_pc := PSetKey 0 |> in
         (st, [setkey_call t 0], Waiting t)
  | PSetKey i =>
    if negb ok then (st, [], Thrown)
    else if (i =? 7)%nat then after_install v t st
    else if negb (Nat.even i) && negb (k_gen t =? gen st) then (st, [], Finished)
    else (st, [setkey_call t (S i)], Waiting (t <| k_pc := PSetKey (S i) |>))
  | PUrgent _ => try_activate t st
  | PWait (Some false) => if k_gen t =? gen st then preempted t st else (st, [], Finished)
  | PWait _ => try_activate t st
  | PActivate i =>
    if negb ok then (st, [], Thrown)
    else if (i =? 3)%nat then after_activation t st
    else (st, [OCall (CActivate (Sender (nth_slot (S i))) (k_epoch t))],
          Waiting (t <| k_pc := PActivate (S i) |>))
  end.

(** The loop of [#run] around its rekeys. *)
Definition settle_run (g : Z) (r : engine * list output * progress) : engine * list output :=
  let '(st, out, p) := r in
  match p with
  | Waiting t => (st <| task := Some t |>, out)
  | Finished => (st <| task := None |> <| runFailures := 0 |> <| runRetry := false |>, out)
  | Thrown =>
    let st := st <| task := None |> in
    if (g =? gen st) && negb (bool_decide (pendingRemovals st = []))
    then (st <| runFailures := runFailures st + 1 |> <| runRetry := true |>, out)
    else (st, out)
  end.

Definition loop_run (v : env) (g : Z) (r : engine * list output * progress) : engine * list output :=
  let '(st, out, p) := r in
  match p with
  | Finished =>
    if again st && (g =? gen st)
    then let '(st', out', p') := begin_rekey v (st <| again := false |>) in settle_run g (st', out ++ out', p')
    else settle_run g r
  | _ => settle_run g r
  end.

Definition run (v : env) (st : engine) : engine * list output :=
  match task st with
  | Some _ => (st <| again := true |>, [])
  | None => settle_run (gen st) (begin_rekey v (st <| again := false |>))
  end.

(** ** Receiving keys *)

Definition retire_pub (client : string) (f : media_pid -> call) : list output :=
  map (fun s => OCall (f (Publication client s))) SLOTS.

(** [#bound] *)
Definition bound (control : json) (value : key_value) (st : engine) : bool :=
  match self st, find_client (roster st) (v_client value) with
  | Some s, Some entry =>
    inChannel entry (channelID s) && bool_decide (field "unique_id" entry = field "sender" control) &&
    bool_decide (field "media_device" entry = field "senderDevice" control)
  | _, _ => false
  end.

Definition control_line (control : json) : did :=
  (String_of (field "sender" control), String_of (field "senderDevice" control)).

Definition put_publisher (client : string) (p : publisher) (st : engine) : engine :=
  st <| publishers := OMap.set client p (publishers st) |>.

(** [#apply] up to the first slot's [setKey]. *)
Definition apply (control : json) (value : key_value) (st : engine) : engine * list output :=
  let e := control_epoch control in
  let line := control_line control in
  if e <=? lookup_or 0 line (acceptedEpochs st) then (st, [OReply (Err "stale"%string)])
  else
    let st := st <| acceptedEpochs := OMap.set line e (acceptedEpochs st) |> in
    let old := OMap.get (v_client value) (publishers st) in
    let staleNext := match old with
                     | Some p => if negb (p_next p =? 0) && negb (p_next p =? e) then p_next p else 0
                     | None => 0
                     end in
    let out := if staleNext =? 0 then [] else retire_pub (v_client value) (fun p => CRetireOne p staleNext) in
    let fresh_one := Publisher (nextId st) line.1 line.2 [] (v_members value) (v_n value) (v_session value) e 0 in
    let p := match old with
             | Some p => if bool_decide (p_device p = line.2)
                         then p <| p_next := 0 |> <| p_members := v_members value |> <| p_n := v_n value |>
                                <| p_session := v_session value |> <| p_announced := e |>
                         else fresh_one
             | None => fresh_one
             end in
    let st := put_publisher (v_client value) p st in
    let i := Install (S (nextId st)) (gen st) (v_client value) (p_id p) e (v_kid value) (v_keys value)
               (v_session value) 0 false in
    (st <| nextId := S (S (nextId st)) |> <| installs := installs st ++ [i] |>,
     out ++ [OCall (CSetKey (Publication (v_client value) Mic) e (v_kid value) (key_at (v_keys value) Mic));
             OReply (Ok e)]).

(** The publisher an installation writes for, if it is still the same. *)
Definition same_publisher (g : Z) (client : string) (id : nat) (st : engine) : option publisher :=
  if negb (g =? gen st) then None
  else match OMap.get client (publishers st) with
       | Some p => if (p_id p =? id)%nat then Some p else None
       | None => None
       end.

(** [push] and [sort]. *)
Fixpoint insert_z (x : Z) (l : list Z) : list Z :=
  match l with [] => [x] | y :: r => if x <=? y then x :: l else y :: insert_z x r end.

(** A control's installation is complete. *)
Definition installed (i : install) (st : engine) : engine * list output :=
  match same_publisher (i_gen i) (i_client i) (i_state i) st with
  | None => (st, retire_pub (i_client i) (fun p => CRetire p (i_epoch i)))
  | Some p =>
    let all := insert_z (i_epoch i) (p_epochs p) in
    let previous := removelast all in
    let st := put_publisher (i_client i) (p <| p_epochs := [List.last all 0] |>) st in
    let st := match previous with
              | [] => st
              | x :: r => st <| graces := graces st ++ [(i_client i, foldr Z.max x r)] |>
              end in
    if (i_epoch i =? p_announced p) && bool_decide (RATCHET_FEATURE ∈ sessionFeatures (Some (i_session i)))
    then (st <| derivations := derivations st ++
            [Derive (nextId st) (i_gen i) (i_client i) (i_state i) (i_epoch i) (i_kid i) (i_keys i)] |>
             <| nextId := S (nextId st) |>, [])
    else (st, [])
  end.

(** The reply of an installation's [setKey]. *)
Definition install_reply (id : nat) (ok : bool) (st : engine) : engine * list output :=
  match List.find (fun i => (i_id i =? id)%nat) (installs st) with
  | None => (st, [])
  | Some i =>
    let st := st <| installs := filter (fun x => i_id x <> id) (installs st) |> in
    let next := S (i_slot i) in
    let go := (st <| installs := installs st ++ [i <| i_slot := next |>] |>,
               [OCall (CSetKey (Publication (i_client i) (nth_slot next)) (i_epoch i) (i_kid i)
                               (key_at (i_keys i) (nth_slot next)))]) in
    if i_successor i then
      if negb ok || (next =? 4)%nat then (st, [])
      else match same_publisher (i_gen i) (i_client i) (i_state i) st with
           | Some p => if p_next p =? i_epoch i then go else (st, [])
           | None => (st, [])
           end
    else if negb ok then (st, retire_pub (i_client i) (fun p => CRetireOne p (i_epoch i)) ++ [OReply (Err "install"%string)])
    else if (next =? 4)%nat then installed i st
    else match same_publisher (i_gen i) (i_client i) (i_state i) st with
         | Some _ => go
         | None => installed i st
         end
  end.

(** [#preinstallSuccessor] after the derivation. *)
Definition derived (id : nat) (ok : bool) (st : engine) : engine * list output :=
  match List.find (fun d => (v_id d =? id)%nat) (derivations st) with
  | None => (st, [])
  | Some d =>
    let st := st <| derivations := filter (fun x => v_id x <> id) (derivations st) |> in
    if negb ok then (st, [])
    else match same_publisher (dv_gen d) (dv_client d) (dv_state d) st with
         | None => (st, [])
         | Some p =>
           let successor := dv_epoch d + 1 in
           if negb (p_announced p =? dv_epoch d) || negb (p_next p =? 0) ||
              (successor <=? lookup_or 0 (p_principal p, p_device p) (acceptedEpochs st))
           then (st, [])
           else
             let next := ratchetKeys (dv_keys d) in
             let k := (dv_kid d + 1) `mod` 16 in
             let i := Install (nextId st) (dv_gen d) (dv_client d) (dv_state d) successor k next "" 0 true in
             (put_publisher (dv_client d) (p <| p_next := successor |>) st
                <| nextId := S (nextId st) |> <| installs := installs st ++ [i] |>,
              [OCall (CSetKey (Publication (dv_client d) Mic) successor k (key_at next Mic))])
         end
  end.

Definition PENDING_MS : Z := 15000.

(** [receive] *)
Definition receive (v : env) (control : json) (st : engine) : engine * list output :=
  match self st with
  | None => (st, [OReply (Err "inactive"%string)])
  | Some s =>
    match parseMediaKeyControl control (channelID s) with
    | Err why => (st, [OReply (Err why)])
    | Ok value =>
      if bool_decide (field "senderDevice" control = Some (JStr (device_ s)))
      then (st, [OReply (Err "own"%string)])
      else if bound control value st then apply control value st
      else
        let kept := filter (fun h => now v - h_at h < PENDING_MS) (pending st) in
        if MAX_PENDING <=? Z.of_nat (length kept)
        then (st <| pending := kept |>, [OReply (Err "pending-full"%string)])
        else (st <| pending := kept ++ [Held control value (now v) (gen st)] |>,
              [OReply (Err "pending"%string)])
    end
  end.

(** [#drainPending] *)
Fixpoint drain (v : env) (hs : list held_control) (st : engine) : engine * list held_control * list output :=
  match hs with
  | [] => (st, [], [])
  | h :: r =>
    if negb (h_gen h =? gen st) || (PENDING_MS <=? now v - h_at h) then drain v r st
    else if bound (h_control h) (h_value h) st then
      let (st1, o1) := apply (h_control h) (h_value h) st in
      let '(st2, keep, o2) := drain v r st1 in (st2, keep, o1 ++ o2)
    else let '(st1, keep, o1) := drain v r st in (st1, h :: keep, o1)
  end.
Definition drainPending (v : env) (st : engine) : engine * list output :=
  let '(st', keep, out) := drain v (pending st) st in (st' <| pending := keep |>, out).

(** ** The session *)

Definition start (s : identity) (rnd : string) (st : engine) : result string engine :=
  if running st then Err "media key session already running"%string
  else if (channelID s =? 0) || bool_decide (clientID s = ""%string) || bool_decide (principal_ s = ""%string) ||
          bool_decide (device_ s = ""%string)
  then Err "encrypted media needs a signed-in device"%string
  else
    Ok (schedule RStart
          (st <| self := Some s |> <| epoch := lookup_or 0 (self_key s) (issuedEpochs st) |>
              <| session := rnd +:+ "." +:+ RATCHET_FEATURE |> <| gen := gen st + 1 |> <| renew := true |>)).

Definition stop (st : engine) : engine * list output :=
  match self st with
  | None => (st, [])
  | Some s =>
    let pids := map Sender SLOTS ++ (OMap.keys (publishers st) ≫= fun c => map (Publication c) SLOTS) ++
                map (Publication (clientID s)) SLOTS in
    ((clear_retry st) <| gen := gen st + 1 |> <| debounce := false |> <| renew := false |> <| retryArmed := 0 |>
       <| self := None |> <| keys := None |> <| publishers := [] |> <| pending := [] |> <| failed := [] |>
       <| runRetry := false |> <| paused := false |> <| activating := [] |>
       <| pendingRemovals := [] |> <| removalDebounce := false |> <| deliveries := [] |>
       <| activeRecipients := [] |> <| task := interrupt <$> task st |>,
     map (fun p => OCall (CForget p)) pids)
  end.

(** A publisher that left, or whose device or channel changed. *)
Definition publisher_gone (s : identity) (st : engine) (x : string * publisher) : bool :=
  match find_client (roster st) x.1 with
  | Some entry =>
    negb (inChannel entry (channelID s)) || negb (bool_decide (field "unique_id" entry = Some (JStr (p_principal x.2)))) ||
    negb (bool_decide (field "media_device" entry = Some (JStr (p_device x.2))))
  | None => true
  end.

Definition setRoster (v : env) (clients : list json) (st : engine) : engine * list output :=
  let st := st <| roster := clients |> in
  match self st with
  | None => (st, [])
  | Some s =>
    if self_invisible st then (st, [OInvisible])
    else
      let rs := recipientsOf (roster st) s in
      let gone := filter (fun x => publisher_gone s st x = true) (publishers st) in
      let out1 := gone ≫= fun x => retire_pub x.1 CForget in
      let st := st <| publishers := filter (fun x => publisher_gone s st x = false) (publishers st) |> in
      let (st, out2) := drainPending v st in
      if bool_decide (map rid rs = recipientKey st) then (st, out1 ++ out2)
      else
        let left := filter (fun r => rid r ∉ map rid rs) (recipients st) in
        let removed := negb (bool_decide (left = [])) in
        let st := if removed then noteRemoval st else st in
        (schedule (if removed then RRemoval else RMembership)
           (st <| recipientKey := map rid rs |> <| recipients := rs |>), out1 ++ out2)
  end.

Definition publicationsChanged (st : engine) : engine := schedule RPublication st.

(** ** What is shown *)

Inductive session_state := StOff | StKeying | StPaused | StPartial | StEncrypted.

Definition tally (st : engine) : option delivery := OMap.get (activeEpoch st) (deliveries st).
Definition current_recipients (st : engine) : list recipient :=
  filter (fun r => isRecipient st r = true) (activeRecipients st).
Definition holds (d : option delivery) (id : did) : bool :=
  match d with Some d => bool_decide (id ∈ d_ok d) || bool_decide (id ∈ d_inherited d) | None => false end.
Definition keyHolders (st : engine) : list recipient :=
  filter (fun r => holds (tally st) (rid r) = true) (current_recipients st).
Definition failed_recipients (st : engine) : list recipient :=
  match tally st with
  | Some d => filter (fun r => OMap.has (rid r) (d_failed d) = true /\ holds (Some d) (rid r) = false) (current_recipients st)
  | None => []
  end.
Definition waiting (st : engine) : list recipient :=
  match tally st with
  | Some d => filter (fun r => isRecipient st r = true /\ holds (Some d) (rid r) = false /\
                               OMap.has (rid r) (d_failed d) = false) (activeRecipients st)
  | None => []
  end.
Definition status (st : engine) : session_state :=
  if negb (running st) then StOff
  else if activeEpoch st =? 0 then StKeying
  else if paused st then StPaused
  else if bool_decide (failed_recipients st = []) then StEncrypted else StPartial.

(** [verifiedPublisher]: the account whose keys decrypt a client's media. *)
Definition verifiedPublisher (client : string) (st : engine) : string :=
  match OMap.get client (publishers st), find_client (roster st) client, self st with
  | Some p, Some entry, Some s =>
    if negb (bool_decide (p_epochs p = [])) && inChannel entry (channelID s) &&
       bool_decide (field "unique_id" entry = Some (JStr (p_principal p))) &&
       bool_decide (field "media_device" entry = Some (JStr (p_device p)))
    then p_principal p else ""
  | _, _, _ => ""
  end.

(** [#checkMembership]: publishers whose digest differs from what is seen here. *)
Definition membershipMismatch (st : engine) : list (string * string) :=
  match self st with
  | Some s =>
    let own := membershipDigest (channelDevices (roster st) (channelID s)) in
    omap (fun x => if negb (bool_decide (p_members x.2 = ""%string)) && negb (bool_decide (p_members x.2 = own))
                   then Some (x.1, p_principal x.2) else None) (publishers st)
  | None => []
  end.

(** ** One turn *)

Inductive event :=
| EStart (s : identity) (rnd : string)
| EStop
| ERoster (clients : list json)
| EPublications
| EDebounce
| ERenew
| ERunRetry
| EDeadline (q : Z)
| ERetry (id : nat)
| ETimer                                   (* a wait of the rekey elapses *)
| ETask (ok : bool)                        (* what the rekey awaits settles *)
| EDelivered (d : nat) (r : recipient) (res : send_result)
| EDistributed (d : nat)
| EReceive (control : json)
| EInstall (i : nat) (ok : bool)
| EDerived (d : nat) (ok : bool)
| ESenderRetire (g e : Z)
| EGrace (client : string) (e : Z).

(** Whether the event can happen now: timers fire while armed, promises
    settle once.  A session has one engine, started once. *)
Definition enabled (ev : event) (st : engine) : Prop :=
  match ev with
  | EStart s _ => gen st = 0
  | EDebounce => debounce st = true
  | ERenew => renew st = true
  | ERunRetry => runRetry st = true
  | EDeadline q => exists r, r ∈ pendingRemovals st /\ r_seq r = q /\ r_due r = false
  | ETimer => exists t, task st = Some t /\ k_pc t = PWait None
  | ETask _ => exists t, task st = Some t /\ k_pc t <> PWait None
  | ESenderRetire g e => (g, e) ∈ senderRetires st
  | EGrace c e => (c, e) ∈ graces st
  | _ => True
  end.

Definition handle (v : env) (ev : event) (st : engine) : engine * list output :=
  match ev with
  | EStart s rnd => match start s rnd st with Ok st' => (st', []) | Err e => (st, [OReply (Err e)]) end
  | EStop => stop st
  | ERoster clients => setRoster v clients st
  | EPublications => (publicationsChanged st, [])
  | EDebounce => run v (st <| debounce := false |> <| removalDebounce := false |>)
  | ERenew => (schedule RRenewal st, [])
  | ERunRetry => run v (st <| runRetry := false |>)
  | EDeadline q => deadline q st
  | ERetry id => retry_fires id (now v) st
  | ETimer => (st <| task := (fun t => t <| k_pc := PWait (Some true) |>) <$> task st |>, [])
  | ETask ok =>
    match task st with
    | Some t => loop_run v (k_gen t) (resume v ok t st)
    | None => (st, [])
    end
  | EDelivered d r res => delivered d r res st
  | EDistributed d => (dist_done d (now v) st, [])
  | EReceive control => receive v control st
  | EInstall i ok => install_reply i ok st
  | EDerived d ok => derived d ok st
  | ESenderRetire g e =>
    (st <| senderRetires := filter (fun x => x <> (g, e)) (senderRetires st) |>,
     match self st with
     | Some s => if g =? gen st
                 then SLOTS ≫= fun sl => [OCall (CRetire (Sender sl) e); OCall (CRetire (Publication (clientID s) sl) e)]
                 else []
     | None => []
     end)
  | EGrace c e => (st <| graces := filter (fun x => x <> (c, e)) (graces st) |>, retire_pub c (fun p => CRetire p e))
  end.
End engine.
