(* ===== verification/MediaKeysSafety.v ===== *)
(** * Safety of the media key engine

    What the engine's calls amount to in the frame worker, who can derive which
    epoch, and the invariants of every execution: a removed device's epoch is
    never active past the removal's deadline, a device can only derive epochs
    whose recipient snapshot contains it, and epoch numbers never repeat. *)

From stdpp Require Import base list strings sorting.
From Stdlib Require Import ZArith Lia.
From S2P Require Import Prelude Json Text MediaControl MediaKeys.

(** ** The worker as seen from the engine

    Calls are processed in the order they are posted.  [inst] are the epochs a
    sender slot may hold, [may] those it may encrypt with: an activation of an
    epoch that is not installed is refused, one that succeeded replaces what
    was active, and an epoch that is retired or forgotten is gone. *)

Definition slots_t : Type := list (slot * Z).

Definition track1 (o : output) (im : slots_t * slots_t) : slots_t * slots_t :=
  match o with
  | OCall (CSetKey (Sender s) e _ _) => ((s, e) :: im.1, im.2)
  | OCall (CActivate (Sender s) e) => (im.1, if decide ((s, e) ∈ im.1) then (s, e) :: im.2 else im.2)
  | OCall (CRetireOne (Sender s) e) => (filter (fun x => x <> (s, e)) im.1, filter (fun x => x <> (s, e)) im.2)
  | OCall (CRetire (Sender s) t) =>
    (filter (fun x => ~ (x.1 = s /\ x.2 <= t)) im.1, filter (fun x => ~ (x.1 = s /\ x.2 <= t)) im.2)
  | OCall (CForget (Sender s)) => (filter (fun x => x.1 <> s) im.1, filter (fun x => x.1 <> s) im.2)
  | _ => im
  end.
Definition track (out : list output) (im : slots_t * slots_t) : slots_t * slots_t :=
  fold_left (fun im o => track1 o im) out im.

(** The birth of an epoch: its place in the order of removals, the devices it
    is for, and the epoch its keys are derived from.  Every rekey that takes a number is
    a birth of its own ([b_created] is the rekey's), also if it took a number again. *)
Record birth := Birth { b_epoch : Z; b_created : Z; b_snap : list did; b_pred : option Z }.

Definition born (st : engine) (L : list birth) : list birth :=
  match task st with
  | Some t =>
    match k_pc t with
    | PDigest => if decide ((k_epoch t, k_created t) ∈ map (fun b => (b_epoch b, b_created b)) L) then L
                 else Birth (k_epoch t) (k_created t) (map rid (k_recipients t))
                        (match k_head t with Some _ => Some (k_previous t) | None => None end) :: L
    | _ => L
    end
  | None => L
  end.

Definition sends (out : list output) : list (did * Z) :=
  omap (fun o => match o with OSend e r _ => Some (rid r, e) | _ => None end) out.

Record world := World {
  eng : engine; inst : slots_t; may : slots_t; ledger : list birth; sent : list (did * Z) }.

(** A successful activation is acknowledged. *)
Definition ack (ev : event) (w : world) : slots_t :=
  match ev, task (eng w) with
  | ETask true, Some t =>
    match k_pc t with
    | PActivate i => filter (fun x => x.1 = nth_slot i -> x.2 = k_epoch t) (may w)
    | _ => may w
    end
  | _, _ => may w
  end.

Definition advance (st : engine) (out : list output) (m : slots_t) (w : world) : world :=
  World st (track out (inst w, m)).1 (track out (inst w, m)).2 (born st (ledger w)) (sent w ++ sends out).

(** Membership in the tracked lists after a step. *)
Lemma track_app o1 o2 im : track (o1 ++ o2) im = track o2 (track o1 im).
Proof. apply fold_left_app. Qed.

Definition silent (o : output) : Prop :=
  match o with
  | OCall (CSetKey (Sender _) _ _ _) | OCall (CActivate (Sender _) _) | OCall (CRetireOne (Sender _) _)
  | OCall (CRetire (Sender _) _) | OCall (CForget (Sender _)) | OSend _ _ _ => False
  | _ => True
  end.

Lemma track_silent out im : Forall silent out -> track out im = im.
Proof.
  revert im. induction out as [|o out IH]; intros im; [done|]. intros [Ho Hout]%Forall_cons.
  unfold track in *. cbn [fold_left]. rewrite IH by done. by destruct o as [[[]|[]|[]|[]|[]]| | |].
Qed.

Lemma sends_silent out : Forall silent out -> sends out = [].
Proof.
  induction out as [|o out IH]; [done|]. intros [Ho Hout]%Forall_cons. unfold sends in *. cbn [omap list_omap].
  rewrite IH by done. by destruct o.
Qed.

(** Calls only remove, unless they set or activate. *)
Definition shrinks (o : output) : Prop :=
  match o with OCall (CSetKey (Sender _) _ _ _) | OCall (CActivate (Sender _) _) => False | _ => True end.

Lemma track_shrinks out im :
  Forall shrinks out ->
  (forall x, x ∈ (track out im).1 -> x ∈ im.1) /\ (forall x, x ∈ (track out im).2 -> x ∈ im.2) /\
  ((forall x, x ∈ im.2 -> x ∈ im.1) -> forall x, x ∈ (track out im).2 -> x ∈ (track out im).1).
Proof.
  revert im. induction out as [|o out IH]; intros im; [done|]. intros [Ho Hout]%Forall_cons.
  unfold track in *. cbn [fold_left]. destruct (IH (track1 o im) Hout) as (H1 & H2 & H3).
  assert ((forall x, x ∈ (track1 o im).1 -> x ∈ im.1) /\ (forall x, x ∈ (track1 o im).2 -> x ∈ im.2) /\
          ((forall x, x ∈ im.2 -> x ∈ im.1) -> forall x, x ∈ (track1 o im).2 -> x ∈ (track1 o im).1))
    as (G1 & G2 & G3).
  { destruct o as [[[]|[]|[]|[]|[]]| | |]; try done; cbn [track1 fst snd];
      (split_and!; [intros x; rewrite list_elem_of_filter; tauto|intros x; rewrite list_elem_of_filter; tauto|];
       intros Hs x; rewrite !list_elem_of_filter; naive_solver). }
  naive_solver.
Qed.

Lemma slot_in_SLOTS s : s ∈ SLOTS.
Proof. destruct s; repeat constructor. Qed.

Lemma retire_own_shrinks c e : Forall shrinks (retire_own c e).
Proof. repeat constructor. Qed.

(** Retiring an epoch of mine removes it from every slot. *)
Lemma track_retire_own c e im s :
  (s, e) ∉ (track (retire_own c e) im).1 /\ (s, e) ∉ (track (retire_own c e) im).2.
Proof.
  unfold retire_own, track, SLOTS. cbn. rewrite !list_elem_of_filter. destruct s; naive_solver.
Qed.

Lemma shrinks_keeps out im s e :
  Forall shrinks out -> (s, e) ∉ im.1 -> (s, e) ∉ im.2 -> (s, e) ∉ (track out im).1 /\ (s, e) ∉ (track out im).2.
Proof. intros Hs H1 H2. destruct (track_shrinks out im Hs) as (G1 & G2 & _). auto. Qed.

(** ** Epochs and their audience *)

(** Device [d] is in the snapshot of epoch [e]. *)
Definition covers (L : list birth) (e : Z) (d : did) : Prop :=
  exists b, b ∈ L /\ b_epoch b = e /\ d ∈ b_snap b.

(** The snapshot of epoch [e] is within [X]. *)
Definition within (L : list birth) (e : Z) (X : list did) : Prop :=
  exists b, b ∈ L /\ b_epoch b = e /\ forall d, d ∈ b_snap b -> d ∈ X.

(** Epoch numbers: strictly growing; a derived epoch follows its predecessor
    directly, and a fresh epoch leaves the number after every other one free. *)
Record ledger_ok (L : list birth) : Prop := {
  lo_order : StronglySorted (fun a b => b_epoch b < b_epoch a) L;
  lo_pos : forall b, b ∈ L -> 0 < b_epoch b;
  lo_fresh : forall b b', b ∈ L -> b' ∈ L -> b_pred b = None -> b_epoch b' <> b_epoch b - 1;
  lo_pred : forall b e, b ∈ L -> b_pred b = Some e -> b_epoch b = e + 1 /\ within L e (b_snap b) }.

Definition task_birth (L : list birth) (t : rekey) : Prop :=
  exists b, b ∈ L /\ b_epoch b = k_epoch t /\ b_created b = k_created t /\ b_snap b = map rid (k_recipients t).

Definition task_ok (st : engine) (L : list birth) (t : rekey) : Prop :=
  k_gen t = 1 /\ (gen st = 1 -> self st = Some (k_self t)) /\
  match k_pc t with
  | PKeys => is_Some (k_head t) /\
    (gen st = 1 -> lookup_or 0 (self_key (k_self t)) (issuedEpochs st) = k_previous t /\
                   within L (k_previous t) (map rid (k_recipients t)))
  | _ => task_birth L t /\ forall r, r ∈ k_recipients t -> rid r ∈ k_chain t
  end.

Record audience (st : engine) (L : list birth) (snt : list (did * Z)) : Prop := {
  au_gen : gen st = 0 \/ gen st = 1 \/ gen st = 2;
  au_self : gen st = 1 <-> running st = true;
  au_zero : gen st = 0 -> task st = None /\ failed st = [] /\ deliveries st = [] /\ L = [];
  au_ledger : ledger_ok L;
  au_issued : forall s b, self st = Some s -> b ∈ L -> b_epoch b <= lookup_or 0 (self_key s) (issuedEpochs st);
  au_nonneg : forall k, 0 <= lookup_or 0 k (issuedEpochs st);
  au_deliveries : forall e d, OMap.get e (deliveries st) = Some d -> within L e (d_chain d);
  au_dists : forall d r, d ∈ dists st -> r ∈ x_todo d ++ x_fly d -> covers L (x_epoch d) (rid r);
  au_failed : forall id r, (id, r) ∈ failed st -> covers L (epoch st) (rid r);
  au_sent : forall d e, (d, e) ∈ snt -> covers L e d;
  au_task : forall t, task st = Some t -> task_ok st L t }.

(** The fields the audience depends on. *)
Record same (st st' : engine) : Prop := {
  sm_gen : gen st' = gen st; sm_self : self st' = self st; sm_epoch : epoch st' = epoch st;
  sm_issued : issuedEpochs st' = issuedEpochs st; sm_failed : failed st' = failed st;
  sm_deliveries : deliveries st' = deliveries st; sm_task : task st' = task st; sm_dists : dists st' = dists st }.

Lemma same_refl st : same st st.
Proof. done. Qed.

Lemma same_trans a b c : same a b -> same b c -> same a c.
Proof. intros [] []. split; congruence. Qed.

Lemma audience_same st st' L snt : same st st' -> audience st L snt -> audience st' L snt.
Proof.
  intros [E1 E2 E3 E4 E5 E6 E7 E8] [A1 A2 A3 A4 A5 A6 A7 A8 A9 A10 A11].
  unfold running in *. split; unfold running; rewrite ?E1, ?E2, ?E3, ?E4, ?E5, ?E6, ?E7, ?E8; try done.
  intros t Ht. destruct (A11 t Ht) as (T1 & T2 & T3). split; [done|]. rewrite E1, E2. split; [done|].
  unfold task_birth in *. by rewrite E4.
Qed.

(** Growing the ledger at its head. *)
Lemma covers_cons b L e d : covers L e d -> covers (b :: L) e d.
Proof. intros (b' & Hin & H). exists b'. split; [by right|done]. Qed.
Lemma within_cons b L e X : within L e X -> within (b :: L) e X.
Proof. intros (b' & Hin & H). exists b'. split; [by right|done]. Qed.

Lemma ledger_unique L b b' : ledger_ok L -> b ∈ L -> b' ∈ L -> b_epoch b = b_epoch b' -> b = b'.
Proof.
  intros H. pose proof (lo_order _ H) as Hs. clear H. induction Hs as [|x L Hs IH Hx]; [by intros ?%elem_of_nil|].
  rewrite Forall_forall in Hx. rewrite !elem_of_cons. intros [->|Hb] [->|Hb'] He; [done| | |by apply IH].
  - specialize (Hx _ Hb'). lia.
  - specialize (Hx _ Hb). lia.
Qed.

Lemma ledger_grow L b :
  ledger_ok L -> 0 < b_epoch b ->
  match b_pred b with
  | None => forall b', b' ∈ L -> b_epoch b' + 1 < b_epoch b
  | Some e => b_epoch b = e + 1 /\ within L e (b_snap b) /\ forall b', b' ∈ L -> b_epoch b' < b_epoch b
  end -> ledger_ok (b :: L).
Proof.
  intros [H1 H2 H3 H4] Hp Hb.
  assert (forall b', b' ∈ L -> b_epoch b' < b_epoch b) as Hlt.
  { destruct (b_pred b); [apply Hb|]. intros b' Hb'. specialize (Hb _ Hb'). lia. }
  split.
  - constructor; [done|]. by apply Forall_forall.
  - intros b' [->|Hin]%elem_of_cons; auto.
  - intros x y [->|Hx]%elem_of_cons [->|Hy]%elem_of_cons Hn; [lia| | |by apply H3].
    + rewrite Hn in Hb. specialize (Hb _ Hy). lia.
    + specialize (Hlt _ Hx). lia.
  - intros x e [->|Hx]%elem_of_cons He.
    + rewrite He in Hb. destruct Hb as (Hb1 & Hb2 & _). split; [done|by apply within_cons].
    + destruct (H4 x e Hx He). split; [done|by apply within_cons].
Qed.

Lemma task_ok_grow st L b t :
  task_ok st L t -> task_ok st (b :: L) t.
Proof.
  intros (T1 & T2 & T3). split; [done|]. split; [done|].
  assert (task_birth L t -> task_birth (b :: L) t) as Hg.
  { intros (b' & Hin & H). exists b'. split; [by right|done]. }
  destruct (k_pc t); try (destruct T3; split; [auto|done]).
  destruct T3 as [T3 T4]. split; [done|]. intros Hgen. destruct (T4 Hgen). split; [done|by apply within_cons].
Qed.

(** ** Distribution keeps the audience *)

(** The fields a distribution does not touch. *)
Record calm (st st' : engine) : Prop := {
  cm_gen : gen st' = gen st; cm_self : self st' = self st; cm_epoch : epoch st' = epoch st;
  cm_issued : issuedEpochs st' = issuedEpochs st; cm_task : task st' = task st;
  cm_removals : pendingRemovals st' = pendingRemovals st; cm_seq : seq st' = seq st;
  cm_paused : paused st' = paused st; cm_activating : activating st' = activating st;
  cm_active : activeEpoch st' = activeEpoch st; cm_again : again st' = again st;
  cm_recipients : recipients st' = recipients st; cm_roster : roster st' = roster st }.

Lemma calm_refl st : calm st st.
Proof. done. Qed.
Lemma calm_trans a b c : calm a b -> calm b c -> calm a c.
Proof. intros [] []. split; congruence. Qed.

Lemma audience_calm st st' L snt snt' :
  calm st st' -> audience st L snt ->
  (gen st = 0 -> failed st' = [] /\ deliveries st' = []) ->
  (forall e d, OMap.get e (deliveries st') = Some d -> within L e (d_chain d)) ->
  (forall d r, d ∈ dists st' -> r ∈ x_todo d ++ x_fly d -> covers L (x_epoch d) (rid r)) ->
  (forall id r, (id, r) ∈ failed st' -> covers L (epoch st) (rid r)) ->
  (forall d e, (d, e) ∈ snt' -> covers L e d) ->
  audience st' L snt'.
Proof.
  intros [C1 C2 C3 C4 C5 _ _ _ _ _ _ _ _] [A1 A2 A3 A4 A5 A6 A7 A8 A9 A10 A11] H0 H1 H2 H3 H4.
  split; unfold running in *; rewrite ?C1, ?C2, ?C3, ?C4, ?C5; try done.
  - intros Hg. destruct (A3 Hg) as (? & ? & ? & ?). by destruct (H0 Hg).
  - intros t Ht. destruct (A11 t Ht) as (T1 & T2 & T3). split; [done|]. rewrite C1, C2. split; [done|].
    by rewrite C4.
Qed.

Lemma scheduleRetry_calm g e st :
  calm st (scheduleRetry g e st) /\ failed (scheduleRetry g e st) = failed st /\
  deliveries (scheduleRetry g e st) = deliveries st /\ dists (scheduleRetry g e st) = dists st.
Proof. unfold scheduleRetry. destruct (_ || _); done. Qed.

Lemma tally_chain id res d : d_chain (tally_result id res d) = d_chain d.
Proof. by destruct res. Qed.

Lemma get_set_tally st e id res e' d' L :
  (forall e d, OMap.get e (deliveries st) = Some d -> within L e (d_chain d)) ->
  OMap.get e' (match OMap.get e (deliveries st) with
               | Some d => OMap.set e (tally_result id res d) (deliveries st)
               | None => deliveries st end) = Some d' -> within L e' (d_chain d').
Proof.
  intros H. destruct (OMap.get e (deliveries st)) as [d|] eqn:E; [|apply H].
  rewrite OMap.get_set. case_decide as Hd; [|apply H]. intros [= <-]. subst. rewrite tally_chain. by apply H.
Qed.

Lemma record_dists g e r res st : dists (record g e r res st) = dists st.
Proof.
  unfold record. destruct (negb _); [done|].
  set (st1 := match OMap.get e (deliveries st) with Some d => _ | None => st end).
  assert (dists st1 = dists st) as <- by (unfold st1; by destruct (OMap.get _ _)).
  destruct (negb _); [done|]. destruct res; [done|]. cbv zeta. destruct (_ =? e); [|done].
  by rewrite (proj2 (proj2 (proj2 (scheduleRetry_calm _ _ _)))).
Qed.

Lemma record_ok g e r res st L snt :
  audience st L snt -> covers L e (rid r) ->
  calm st (record g e r res st) /\ audience (record g e r res st) L snt.
Proof.
  intros A Hc. pose proof (record_dists g e r res st) as Hd.
  assert (calm st (record g e r res st) /\
    deliveries (record g e r res st) =
      (if g =? gen st then match OMap.get e (deliveries st) with
                           | Some d => OMap.set e (tally_result (rid r) res d) (deliveries st)
                           | None => deliveries st end else deliveries st) /\
    (forall id x, (id, x) ∈ failed (record g e r res st) ->
       (id, x) ∈ failed st \/ (x = r /\ epoch st = e))) as (H1 & H2 & H3).
  { unfold record. destruct (g =? gen st); cbn [negb]; [|split; [done|auto]].
    set (st1 := match OMap.get e (deliveries st) with Some d => _ | None => st end).
    assert (calm st st1 /\ failed st1 = failed st) as [Hc1 Hf1] by (unfold st1; by destruct (OMap.get _ _)).
    assert (deliveries st1 = match OMap.get e (deliveries st) with
                           | Some d => OMap.set e (tally_result (rid r) res d) (deliveries st)
                           | None => deliveries st end) as <- by (unfold st1; by destruct (OMap.get _ _)).
    rewrite <- Hf1, <- (cm_epoch _ _ Hc1). clearbody st1. destruct (Z.eqb_spec (epoch st1) e); [|by auto].
    cbn [negb]. destruct res; cbv zeta.
    - split; [eapply calm_trans; [exact Hc1|done]|]. split; [done|]. intros id x Hin. left. simpl in Hin.
      clear -Hin. revert Hin. induction (failed st1) as [|[k y] m IH]; simpl; [done|].
      case_decide; rewrite ?elem_of_cons; naive_solver.
    - set (st2 := st1 <| failed := _ |>).
      assert (calm st st2 /\ deliveries st2 = deliveries st1) as [Hc2 Hd2] by (split; [by eapply calm_trans|done]).
      assert (forall id x, (id, x) ∈ failed st2 -> (id, x) ∈ failed st1 \/ (x = r /\ epoch st1 = e)) as Hf2.
      { intros id x [[-> ->]|Hin]%OMap.elem_set; auto. }
      clearbody st2. destruct (_ =? e); [|done].
      destruct (scheduleRetry_calm g e st2) as (S1 & S2 & S3 & _). rewrite S2, S3.
      split; [by eapply calm_trans|done]. }
  split; [done|]. apply (audience_calm st _ L snt); try done.
  - intros Hg. destruct (au_zero _ _ _ A Hg) as (_ & _ & _ & HL). destruct Hc as (b & Hb & _).
    rewrite HL in Hb. by apply elem_of_nil in Hb.
  - intros e' d' Hget. rewrite H2 in Hget. destruct (g =? gen st); [|by apply A].
    eapply get_set_tally; [apply A|exact Hget].
  - rewrite Hd. apply A.
  - intros id x Hin. destruct (H3 id x Hin) as [Hin'|[-> <-]]; [by eapply A|done].
  - apply A.
Qed.

Lemma pump_ok g e body todo fly st L snt :
  audience st L snt -> (forall r, r ∈ todo -> covers L e (rid r)) ->
  let '(st', todo', fly', out) := pump g e body todo fly st in
  calm st st' /\ dists st' = dists st /\ audience st' L (snt ++ sends out) /\
  (forall r, r ∈ todo' ++ fly' -> r ∈ todo ++ fly) /\ Forall (fun o => exists r, o = OSend e r body) out.
Proof.
  revert fly st snt. induction todo as [|r todo IH]; intros fly st snt A Hc; cbn [pump].
  { rewrite app_nil_r. split_and!; [done|done|done|done|constructor]. }
  assert (covers L e (rid r)) as Hr by (apply Hc; left).
  assert (forall x, x ∈ todo -> covers L e (rid x)) as Hc' by (intros; apply Hc; by right).
  assert (forall x, x ∈ todo ++ fly -> x ∈ (r :: todo) ++ fly) as Hsub by (intros x; rewrite !elem_of_app, elem_of_cons; tauto).
  destruct (_ <=? _)%nat. { rewrite app_nil_r. split_and!; [done|done|done|done|constructor]. }
  destruct (_ || _); [|destruct (negb _)].
  - destruct (record_ok g e r (SendFailed "stopped") st L snt A Hr) as [R1 R2].
    pose proof (IH fly _ snt R2 Hc') as H. destruct (pump _ _ _ _ _ _) as [[[st' todo'] fly'] out].
    destruct H as (P1 & P2 & P3 & P4 & P5). split_and!; [by eapply calm_trans| |done|auto|done].
    rewrite P2. apply record_dists.
  - pose proof (IH fly st snt A Hc') as H. destruct (pump _ _ _ _ _ _) as [[[st' todo'] fly'] out].
    destruct H as (P1 & P2 & P3 & P4 & P5). split_and!; [done|done|done|auto|done].
  - assert (audience st L (snt ++ [(rid r, e)])) as A'.
    { apply (audience_calm st st L snt); try done; try apply A.
      - intros Hg. by destruct (au_zero _ _ _ A Hg) as (_ & ? & ? & _).
      - intros d e' [Hin|Hin]%elem_of_app; [by apply A|]. apply list_elem_of_singleton in Hin as [= -> ->]. done. }
    pose proof (IH (fly ++ [r]) st _ A' Hc') as H. destruct (pump _ _ _ _ _ _) as [[[st' todo'] fly'] out].
    destruct H as (P1 & P2 & P3 & P4 & P5). split_and!; [done|done| | |constructor; eauto].
    + change (sends (OSend e r body :: out)) with ([(rid r, e)] ++ sends out). by rewrite app_assoc.
    + intros x Hx. apply P4 in Hx. revert Hx. rewrite !elem_of_app, !elem_of_cons, elem_of_nil. tauto.
Qed.

Definition only_sends (out : list output) : Prop := Forall (fun o => exists e r b, o = OSend e r b) out.

Lemma set_dist_ok d st L snt :
  audience st L snt -> (forall r, r ∈ x_todo d ++ x_fly d -> covers L (x_epoch d) (rid r)) ->
  audience (set_dist d st) L snt.
Proof.
  intros A Hd. apply (audience_calm st _ L snt); try done; try apply A.
  - intros Hg. by destruct (au_zero _ _ _ A Hg) as (_ & ? & ? & _).
  - intros d' r Hin. unfold set_dist in Hin. simpl in Hin.
    apply list_elem_of_fmap in Hin as (x & -> & Hx). destruct (_ =? _)%nat; [apply Hd|by apply A].
Qed.

Lemma pump_dist_ok d st L snt :
  audience st L snt -> (forall r, r ∈ x_todo d ++ x_fly d -> covers L (x_epoch d) (rid r)) ->
  let '(st', out) := pump_dist d st in
  calm st st' /\ audience st' L (snt ++ sends out) /\ only_sends out.
Proof.
  intros A Hd. unfold pump_dist.
  pose proof (pump_ok (x_gen d) (x_epoch d) (x_body d) (x_todo d) (x_fly d) st L snt A) as H.
  destruct (pump _ _ _ _ _ _) as [[[st' todo'] fly'] out].
  destruct H as (P1 & P2 & P3 & P4 & P5). { intros r Hr. apply Hd, elem_of_app. by left. }
  split_and!; [by eapply calm_trans| |].
  - apply set_dist_ok; [done|]. intros r Hr. apply Hd, P4. by destruct d.
  - eapply Forall_impl; [exact P5|]. intros o (r & ->). eauto.
Qed.

Lemma audience_weaken st st' L snt :
  calm st st' -> failed st' = failed st -> deliveries st' = deliveries st ->
  (forall d, d ∈ dists st' -> exists d', (d' ∈ dists st \/ x_todo d' = [] /\ x_fly d' = []) /\
     x_todo d = x_todo d' /\ x_fly d = x_fly d' /\ x_epoch d = x_epoch d') ->
  audience st L snt -> audience st' L snt.
Proof.
  intros C F D X A. apply (audience_calm st _ L snt); try done.
  - rewrite F, D. intros Hg. by destruct (au_zero _ _ _ A Hg) as (_ & ? & ? & _).
  - rewrite D. apply A.
  - intros d r Hd. destruct (X d Hd) as (d' & [Hd'|[E1 E2]] & -> & -> & ->); [by apply A|].
    rewrite E1, E2. by intros ?%elem_of_nil.
  - rewrite F. apply A.
  - apply A.
Qed.

Lemma distribute_ok g rs e after now st L snt :
  audience st L snt -> (forall r, r ∈ rs -> covers L e (rid r)) ->
  let '(st', out, _) := distribute g rs e after now st in
  calm st st' /\ audience st' L (snt ++ sends out) /\ only_sends out.
Proof.
  intros A Hrs. unfold distribute.
  assert (forall b, audience (st <| dists := dists st ++ [Dist (nextId st) g e b [] [] after] |> <| nextId := S (nextId st) |>) L snt) as Hempty.
  { intros b. apply (audience_weaken st); try done. intros d. simpl. rewrite elem_of_app, list_elem_of_singleton.
    intros [Hin| ->]; [by exists d; auto|]. exists (Dist (nextId st) g e b [] [] after). split; [by right|done]. }
  destruct (self st) as [s|]; [destruct (OMap.get e (deliveries st)) as [m|]|];
    [|rewrite app_nil_r; split_and!; [done|apply Hempty|constructor]..].
  set (body := buildMediaKeyBody _ _ _ _ _ _ _ _ _). set (d := Dist (nextId st) g e body rs [] after).
  set (st1 := st <| dists := dists st ++ [d] |> <| nextId := S (nextId st) |>).
  assert (audience st1 L snt) as A1.
  { apply (audience_calm st _ L snt); try done; try apply A.
    - intros Hg. by destruct (au_zero _ _ _ A Hg) as (_ & ? & ? & _).
    - intros x r Hx. unfold st1 in Hx. simpl in Hx. apply elem_of_app in Hx as [Hx|Hx]; [by apply A|].
      apply list_elem_of_singleton in Hx as ->. simpl. rewrite app_nil_r. apply Hrs. }
  pose proof (pump_dist_ok d st1 L snt A1) as H. destruct (pump_dist d st1) as [st' out].
  destruct H as (P1 & P2 & P3). { simpl. rewrite app_nil_r. apply Hrs. }
  split_and!; [by apply (calm_trans st st1)|done|done].
Qed.

Lemma delivered_ok id r res st L snt :
  audience st L snt ->
  let '(st', out) := delivered id r res st in
  calm st st' /\ audience st' L (snt ++ sends out) /\ only_sends out.
Proof.
  intros A. assert (calm st st /\ audience st L (snt ++ sends []) /\ only_sends []) as Hno.
  { rewrite app_nil_r. split_and!; [done|done|constructor]. }
  unfold delivered. destruct (List.find _ _) as [d|] eqn:E; [|done]. destruct (decide (r ∈ x_fly d)) as [Hr|]; [|done].
  apply List.find_some in E as [Hd%list_elem_of_In _].
  assert (covers L (x_epoch d) (rid r)) as Hc. { eapply (au_dists _ _ _ A); [exact Hd|]. apply elem_of_app. by right. }
  destruct (record_ok (x_gen d) (x_epoch d) r res st L snt A Hc) as [R1 R2].
  pose proof (pump_dist_ok (d <| x_fly := filter (fun x => x <> r) (x_fly d) |>) _ L snt R2) as H.
  destruct (pump_dist _ _) as [st' out]. destruct H as (P1 & P2 & P3).
  { simpl. intros x [Hx|Hx]%elem_of_app; eapply (au_dists _ _ _ A); try exact Hd; apply elem_of_app; [by left|].
    right. by apply list_elem_of_filter in Hx as [_ ?]. }
  split_and!; [by eapply calm_trans|done|done].
Qed.

Lemma drop_dist_ok P `{forall x : dist, Decision (P x)} st L snt :
  audience st L snt -> audience (st <| dists := filter P (dists st) |>) L snt.
Proof.
  apply audience_weaken; try done. intros d. simpl. rewrite list_elem_of_filter. intros [_ Hd]. by exists d; auto.
Qed.

Lemma same_calm st st' : same st st' -> calm st st' -> forall L snt, audience st L snt -> calm st st' /\ audience st' L snt.
Proof. intros Hs Hc L snt A. split; [done|by eapply audience_same]. Qed.

Lemma disarm_ok e st L snt : audience st L snt -> calm st (disarm e st) /\ audience (disarm e st) L snt.
Proof. apply same_calm; unfold disarm; by destruct (_ =? _). Qed.

Lemma scheduleRetry_ok g e st L snt :
  audience st L snt -> calm st (scheduleRetry g e st) /\ audience (scheduleRetry g e st) L snt.
Proof. apply same_calm; unfold scheduleRetry; by destruct (_ || _). Qed.

Lemma dist_done_ok id now st L snt :
  audience st L snt -> calm st (dist_done id now st) /\ audience (dist_done id now st) L snt.
Proof.
  intros A. unfold dist_done. destruct (List.find _ _) as [d|]; [|done].
  destruct (x_todo d); [|done]. destruct (x_fly d); [|done].
  assert (audience (st <| dists := filter (fun x => x_id x <> id) (dists st) |>) L snt) as A1
    by (by apply drop_dist_ok).
  set (st1 := st <| dists := _ |>) in *. assert (calm st st1) as C1 by done. clearbody st1.
  assert (forall st2, calm st1 st2 /\ audience st2 L snt -> calm st st2 /\ audience st2 L snt) as Ht.
  { intros st2 [? ?]. split; [by eapply calm_trans|done]. }
  destruct (x_after d); [done| |]; cbv zeta.
  - destruct (_ && _); [by apply Ht, scheduleRetry_ok|done].
  - destruct (_ || _); [by apply Ht, disarm_ok|]. case_bool_decide; [by apply Ht, disarm_ok|].
    apply Ht. by apply same_calm.
Qed.

Lemma retry_fires_ok id now st L snt :
  audience st L snt ->
  let '(st', out) := retry_fires id now st in
  calm st st' /\ audience st' L (snt ++ sends out) /\ only_sends out.
Proof.
  intros A. unfold retry_fires. destruct (List.find _ _) as [t|]; [|rewrite app_nil_r; split_and!; [done|done|constructor]].
  set (st1 := st <| retryTimers := _ |>). assert (calm st st1 /\ audience st1 L snt) as [C1 A1] by (by apply same_calm).
  assert (calm st (disarm (t_epoch t) st1) /\ audience (disarm (t_epoch t) st1) L (snt ++ sends []) /\ only_sends []) as Hdis.
  { destruct (disarm_ok (t_epoch t) st1 L snt A1). rewrite app_nil_r. split_and!; [by eapply calm_trans|done|constructor]. }
  destruct (_ && _) eqn:Ec; [|done]. apply andb_true_iff in Ec as [_ Ee%Z.eqb_eq]. unfold retryFailed.
  case_bool_decide; [done|].
  set (rs := filter _ (OMap.values (failed st1))).
  pose proof (distribute_ok (t_gen t) rs (t_epoch t) (ARetry (t_attempt t)) now st1 L snt A1) as Hdd.
  destruct (distribute _ _ _ _ _ _) as [[st' out] n]. cbn [fst]. destruct Hdd as (P1 & P2 & P3).
  { intros r [_ Hr]%list_elem_of_filter. unfold OMap.values in Hr. apply list_elem_of_fmap in Hr as ([i x] & -> & Hx).
    rewrite <- Ee. by eapply (au_failed _ _ _ A1). }
  split_and!; [by eapply calm_trans|done|done].
Qed.

(** ** Creating epochs keeps the audience *)

Definition idle (st : engine) : engine := st <| task := None |>.

Lemma audience_idle st L snt : audience st L snt -> audience (idle st) L snt.
Proof.
  intros [A1 A2 A3 A4 A5 A6 A7 A8 A9 A10 A11]. split; try done. simpl. intros Hg. by destruct (A3 Hg) as (_ & ?).
Qed.

Lemma audience_task st L snt t :
  audience (idle st) L snt -> gen st <> 0 -> task_ok st L t -> audience (st <| task := Some t |>) L snt.
Proof.
  intros [A1 A2 A3 A4 A5 A6 A7 A8 A9 A10 A11] Hg Ht. split; try done. by intros t' [= <-].
Qed.

(** The ledger after a segment that waits for [t]. *)
Definition next_ledger (p : progress) (L : list birth) : list birth :=
  match p with Waiting t => born ((new_engine [] []) <| task := Some t |>) L | _ => L end.

Definition seg_ok (L : list birth) (snt : list (did * Z)) (r : engine * list output * progress) : Prop :=
  let '(st', out, p) := r in
  gen st' <> 0 /\ audience (idle st') (next_ledger p L) (snt ++ sends out) /\
  match p with Waiting t => task_ok st' (next_ledger p L) t | _ => True end.

Lemma lookup_or_set k k' v m : lookup_or 0 k' (OMap.set k v m) = if decide (k' = k) then v else lookup_or 0 k' m.
Proof. unfold lookup_or. rewrite OMap.get_set. by case_decide. Qed.

Lemma audience_grow st L snt b :
  audience st L snt -> gen st <> 0 -> ledger_ok (b :: L) ->
  (forall s, self st = Some s -> b_epoch b <= lookup_or 0 (self_key s) (issuedEpochs st)) ->
  audience st (b :: L) snt.
Proof.
  intros [A1 A2 A3 A4 A5 A6 A7 A8 A9 A10 A11] Hg Hb Hi. split; try done.
  - intros s x Hs [->|Hx]%elem_of_cons; [by apply Hi|by apply A5].
  - intros. by apply within_cons, A7.
  - intros. by apply covers_cons, (A8 d).
  - intros. by apply covers_cons, (A9 id).
  - intros. by apply covers_cons, A10.
  - intros. by apply task_ok_grow, A11.
Qed.

(** The number an epoch gets is new. *)
Lemma after_keys_ok v ks t st L snt :
  audience (idle st) L snt -> gen st <> 0 -> task_ok st L (t <| k_pc := PKeys |>) \/
    (k_head t = None /\ k_gen t = 1 /\ (gen st = 1 -> self st = Some (k_self t))) ->
  seg_ok L snt (after_keys v ks t st).
Proof.
  intros A Hg Ht. unfold after_keys.
  assert (k_gen t = 1 /\ (gen st = 1 -> self st = Some (k_self t))) as [Ht1 Hts] by (destruct Ht as [(?&?&_)|(_&?&?)]; done).
  destruct (Z.eqb_spec (k_gen t) (gen st)) as [Hgen|]; cbn [negb]; [|simpl; rewrite app_nil_r; done].
  rewrite Ht1 in Hgen. symmetry in Hgen. specialize (Hts Hgen).
  set (me := self_key (k_self t)). set (issued := lookup_or 0 me (issuedEpochs st)).
  set (e := match k_head t with Some _ => _ | None => _ end).
  set (t' := t <| k_epoch := e |> <| k_kid := _ |> <| k_keys := ks |> <| k_chain := _ |> <| k_pc := PDigest |>).
  set (b := Birth e (k_created t) (map rid (k_recipients t)) (match k_head t with Some _ => Some (k_previous t) | None => None end)).
  assert (forall x, x ∈ L -> b_epoch x <= issued) as Hle by (intros x; by apply (au_issued _ _ _ A)).
  assert (0 <= issued) as Hi0 by apply (au_nonneg _ _ _ A).
  assert (issued < e /\ ledger_ok (b :: L)) as [Hlt Hlok].
  { destruct Ht as [(_ & _ & [h Hh] & Hk)|(Hh & _ & _)]; subst e; simpl in *.
    - rewrite Hh. simpl in Hh. destruct (Hk Hgen) as [Hprev Hw]. fold me in Hprev. fold issued in Hprev.
      split; [lia|]. apply ledger_grow; [apply A|simpl; rewrite Hh; lia|]. simpl. rewrite Hh. split_and!; [done|done|].
      intros x Hx. specialize (Hle x Hx). lia.
    - rewrite Hh. split; [lia|]. apply ledger_grow; [apply A|simpl; rewrite Hh; lia|]. simpl. rewrite Hh.
      intros x Hx. specialize (Hle x Hx). lia. }
  assert (e ∉ map b_epoch L) as Hnew.
  { intros (x & -> & Hx)%list_elem_of_fmap. specialize (Hle x Hx). lia. }
  assert (next_ledger (Waiting t') L = b :: L) as HL.
  { unfold next_ledger, born. simpl. rewrite decide_False; [done|]. intros (x & [= Ex _] & Hx)%list_elem_of_fmap. apply Hnew. rewrite Ex. by apply list_elem_of_fmap_2. }
  unfold seg_ok. rewrite HL, app_nil_r. split; [done|]. split.
  - apply audience_grow; [|done|done|].
    + destruct A as [A1 A2 A3 A4 A5 A6 A7 A8 A9 A10 A11]. split; try done.
      * intros s x Hs Hx. simpl in *. rewrite lookup_or_set. case_decide; [|by apply A5].
        specialize (Hle x Hx). lia.
      * simpl. intros k. rewrite lookup_or_set. case_decide; [lia|apply A6].
    + simpl. intros s Hs. rewrite Hts in Hs. injection Hs as <-. fold me. rewrite lookup_or_set, decide_True by done. lia.
  - split; [done|]. split; [done|]. split.
    + exists b. split; [left|done].
    + simpl. intros r Hr. apply elem_of_remove_dups, elem_of_app. right. by apply list_elem_of_fmap_2.
Qed.

Lemma recipients_same st st' rs : st' = st <| recipients := rs |> -> same st st'.
Proof. by intros ->. Qed.

Lemma ratchetHead_inv why ids me st h :
  ratchetHead why ids me st = Some h ->
  OMap.get (activeEpoch st) (deliveries st) = Some h /\ lookup_or 0 me (issuedEpochs st) = activeEpoch st /\
  pendingRemovals st = [] /\ paused st = false /\ forall d, d ∈ d_chain h -> d ∈ ids /\ d ∈ d_ok h.
Proof.
  unfold ratchetHead. destruct (_ && _); [done|]. case_bool_decide as Hp; cbn [negb orb]; [|done].
  destruct (paused st); [done|]. destruct (_ =? 0); [done|]. cbn [orb].
  destruct (_ =? _); [|done]. cbn [negb orb]. destruct (Z.eqb_spec (lookup_or 0 me (issuedEpochs st)) (activeEpoch st)); [|done].
  cbn [negb]. destruct (OMap.get _ _) as [h'|]; [|done]. destruct (forallb _ _) eqn:Ef; [|done]. intros [= <-].
  split_and!; [done..|]. intros d Hd. rewrite forallb_forall in Ef. apply list_elem_of_In in Hd. specialize (Ef d Hd).
  rewrite !andb_true_iff, !bool_decide_eq_true in Ef. tauto.
Qed.

Lemma within_sub L e X Y : within L e X -> (forall d, d ∈ X -> d ∈ Y) -> within L e Y.
Proof. intros (b & Hb & He & Hs) H. exists b. auto. Qed.

Lemma begin_rekey_ok v st L snt :
  audience (idle st) L snt -> gen st <> 0 -> seg_ok L snt (begin_rekey v st).
Proof.
  intros A Hg. unfold begin_rekey. destruct (self st) as [s|] eqn:Es; [|simpl; rewrite app_nil_r; done].
  assert (gen st = 1) as Hg1. { apply (au_self _ _ _ A). unfold running. simpl. by rewrite Es. }
  set (st1 := st <| seq := _ |> <| reason := _ |> <| busyOrPending := _ |>).
  assert (audience (idle st1) L snt) as A1 by (eapply audience_same; [|exact A]; done).
  assert (self st1 = Some s /\ gen st1 = 1) as [Es1 Hg1'] by done.
  assert (activeEpoch st1 = activeEpoch st) as _ by done. cbv zeta.
  destruct (self_invisible st1); [simpl; rewrite app_nil_r; split_and!; [lia|done|done]|].
  set (rs := recipientsOf (roster st1) s). set (st2 := st1 <| recipients := rs |>).
  assert (audience (idle st2) L snt) as A2 by (eapply audience_same; [|exact A1]; done).
  destruct (ratchetHead (reason st) (map rid rs) (self_key s) st2) as [h|] eqn:Eh.
  - unfold seg_ok. simpl. rewrite app_nil_r. split; [lia|]. split; [done|].
    apply ratchetHead_inv in Eh as (H1 & H2 & _ & _ & H3).
    split; [done|]. split; [done|]. simpl. split; [eauto|]. intros _. split; [exact H2|].
    eapply within_sub; [apply (au_deliveries _ _ _ A2); exact H1|]. intros d Hd. by apply H3.
  - apply after_keys_ok; [done|simpl; lia|]. right. done.
Qed.

(** A task past its first wait. *)
Definition launched (st : engine) (L : list birth) (t : rekey) : Prop :=
  k_gen t = 1 /\ (gen st = 1 -> self st = Some (k_self t)) /\ task_birth L t /\
  forall r, r ∈ k_recipients t -> rid r ∈ k_chain t.

Lemma launched_task st L t p : launched st L t -> p <> PKeys -> task_ok st L (t <| k_pc := p |>).
Proof. intros (H1 & H2 & H3 & H4) Hp. split; [done|]. split; [done|]. by destruct p. Qed.

Lemma next_ledger_id t L p : p <> PDigest -> next_ledger (Waiting (t <| k_pc := p |>)) L = L.
Proof. intros Hp. unfold next_ledger, born. simpl. by destruct p. Qed.

Lemma seg_wait st L snt out t p :
  audience (idle st) L (snt ++ sends out) -> gen st <> 0 -> launched st L t -> p <> PKeys -> p <> PDigest ->
  seg_ok L snt (st, out, Waiting (t <| k_pc := p |>)).
Proof.
  intros A Hg Ht H1 H2. unfold seg_ok. rewrite next_ledger_id by done. split; [done|]. split; [done|].
  by apply launched_task.
Qed.

Lemma restore_ok e t st L snt : audience (idle st) L snt -> gen st <> 0 -> audience (idle (restore e t st)) L snt.
Proof.
  intros A Hg. unfold restore. set (e' := if k_previous t =? 0 then e else k_previous t).
  set (st1 := st <| epoch := e' |> <| failed := [] |>).
  assert (audience (idle st1) L snt) as A1.
  { destruct A as [A1 A2 A3 A4 A5 A6 A7 A8 A9 A10 A11]. split; try done. by intros ?? ?%elem_of_nil. }
  cbv zeta. destruct (OMap.get e' (deliveries st1)); [|done]. eapply audience_same; [|exact A1]. done.
Qed.

Lemma restore_fields e t st :
  gen (restore e t st) = gen st /\ self (restore e t st) = self st /\
  deliveries (restore e t st) = deliveries st /\ pendingRemovals (restore e t st) = pendingRemovals st /\
  seq (restore e t st) = seq st /\ paused (restore e t st) = paused st /\
  activating (restore e t st) = activating st /\ activeEpoch (restore e t st) = activeEpoch st.
Proof. unfold restore. cbv zeta. by destruct (OMap.get _ _). Qed.

Lemma drop_delivery_ok e st L snt :
  audience (idle st) L snt -> gen st <> 0 ->
  audience (idle (st <| deliveries := OMap.del e (deliveries st) |> <| again := true |>)) L snt.
Proof.
  intros [A1 A2 A3 A4 A5 A6 A7 A8 A9 A10 A11] Hg. split; try done. simpl. intros e' d.
  rewrite OMap.get_del. case_decide; [done|apply A7].
Qed.

Lemma sends_retire_own c e : sends (retire_own c e) = [].
Proof. done. Qed.

Lemma preempted_ok t st L snt :
  audience (idle st) L snt -> gen st <> 0 -> seg_ok L snt (preempted t st).
Proof.
  intros A Hg. unfold preempted, seg_ok. rewrite sends_retire_own, app_nil_r. cbn [next_ledger].
  set (st1 := if epoch st =? k_epoch t then _ else st).
  assert (audience (idle st1) L snt /\ gen st1 <> 0) as [A1 Hg1].
  { unfold st1. destruct (_ =? _); [|done]. destruct (restore_fields (k_epoch t) t st) as (Eg & _). split.
    - eapply audience_same; [|apply (restore_ok (k_epoch t) t); [exact A|done]]. done.
    - simpl. by rewrite Eg. }
  split; [done|]. split; [by apply drop_delivery_ok|done].
Qed.

Lemma try_activate_ok t st L snt :
  audience (idle st) L snt -> gen st <> 0 -> launched st L t -> seg_ok L snt (try_activate t st).
Proof.
  intros A Hg Ht. unfold try_activate. destruct (_ || _); [simpl; by rewrite app_nil_r|].
  destruct (due_after _ _).
  - unfold seg_ok. rewrite sends_retire_own, app_nil_r. cbn [next_ledger].
    destruct (restore_fields (k_epoch t) t st) as (Eg & _).
    split; [simpl; by rewrite Eg|]. split; [|done]. apply drop_delivery_ok; [by apply restore_ok|by rewrite Eg].
  - apply seg_wait; [|done|done|done|done]. simpl. rewrite app_nil_r. eapply audience_same; [|exact A]. done.
Qed.

Lemma seg_prefix L snt st out0 out p :
  seg_ok L (snt ++ sends out0) (st, out, p) -> seg_ok L snt (st, out0 ++ out, p).
Proof.
  unfold seg_ok. assert (sends (out0 ++ out) = sends out0 ++ sends out) as -> by (unfold sends; apply omap_app).
  by rewrite app_assoc.
Qed.

Lemma launched_calm st st' L t : gen st' = gen st -> self st' = self st -> launched st L t -> launched st' L t.
Proof. intros E1 E2 (H1 & H2 & H3 & H4). split; [done|]. rewrite E1, E2. by split. Qed.

Lemma launched_covers st L t r : launched st L t -> r ∈ k_recipients t -> covers L (k_epoch t) (rid r).
Proof.
  intros (_ & _ & (b & Hb & He & _ & Hs) & _) Hr. exists b. split; [done|]. split; [done|]. rewrite Hs.
  by apply list_elem_of_fmap_2.
Qed.

(** The state in which the epoch's material is recorded. *)
Lemma install_audience st L snt t k ks mem dl :
  audience st L snt -> launched st L t ->
  d_chain dl = k_chain t ->
  audience (st <| epoch := k_epoch t |> <| kid := k |> <| keys := ks |> <| members := mem |> <| failed := [] |>
               <| deliveries := OMap.set (k_epoch t) dl (deliveries st) |>) L snt.
Proof.
  intros A Ht Hdl. destruct (decide (gen st = 0)) as [Hg|Hg].
  { exfalso. destruct (au_zero _ _ _ A Hg) as (_ & _ & _ & ->).
    destruct Ht as (_ & _ & (b & Hb & _) & _). by apply elem_of_nil in Hb. }
  destruct A as [A1 A2 A3 A4 A5 A6 A7 A8 A9 A10 A11]. split; try done.
  - intros e d. simpl. rewrite OMap.get_set. case_decide as He; [|apply A7]. intros [= <-]. subst e.
    destruct Ht as (_ & _ & (b & Hb & He & _ & Hs) & Hc). exists b. split; [done|]. split; [done|].
    rewrite Hs, Hdl. intros d (r & -> & Hr)%list_elem_of_fmap. by apply Hc.
  - by intros ?? ?%elem_of_nil.
Qed.

Lemma after_install_ok v t st L snt :
  audience st L snt -> gen st <> 0 -> launched st L t -> seg_ok L snt (after_install v t st).
Proof.
  intros A Hg Ht. unfold after_install. destruct (negb _); [simpl; rewrite app_nil_r; by split_and!; [|apply audience_idle|]|].
  set (dl := Delivery _ _ _ _ _ _ _ _).
  set (st1 := st <| epoch := _ |> <| kid := _ |> <| keys := _ |> <| members := _ |> <| failed := _ |> <| deliveries := _ |>).
  assert (audience st1 L snt) as A1 by (by apply install_audience).
  pose proof (distribute_ok (k_gen t) (k_recipients t) (k_epoch t) ANothing (now v) st1 L snt A1
    (fun r => launched_covers st L t r Ht)) as Hd.
  destruct (distribute _ _ _ _ _ _) as [[st2 out] n]. destruct Hd as (C2 & A2 & _). cbv zeta.
  set (t1 := t <| k_dist := n |>).
  assert (gen st2 <> 0) as Hg2 by (by rewrite (cm_gen _ _ C2)).
  assert (launched st2 L t1) as Ht2.
  { apply (launched_calm st st2 L t1); [by rewrite (cm_gen _ _ C2)|by rewrite (cm_self _ _ C2)|done]. }
  assert (audience (idle st2) L (snt ++ sends out)) as A2' by (by apply audience_idle).
  pose proof (preempted_ok t1 st2 L _ A2' Hg2) as Hpre. pose proof (try_activate_ok t1 st2 L _ A2' Hg2 Ht2) as Htry.
  destruct (preempted t1 st2) as [[st3 out3] p3]. destruct (try_activate t1 st2) as [[st4 out4] p4].
  destruct (_ || _); [destruct (removal_after _ _); by apply seg_prefix|].
  destruct (_ && _); [by apply seg_wait|]. destruct (removal_after _ _); [by apply seg_prefix|by apply seg_wait].
Qed.

Lemma elem_filter_get {V} (m : list (Z * V)) (P : Z * V -> Prop) `{forall x, Decision (P x)} k v :
  (forall v', P (k, v') <-> P (k, v)) -> OMap.get k (filter P m) = Some v -> OMap.get k m = Some v.
Proof.
  intros HP. induction m as [|[k' v'] m IH]; [done|]. rewrite filter_cons. cbn [OMap.get].
  destruct (decide (P (k', v'))) as [Hp|Hp]; cbn [OMap.get].
  - case_decide; [done|apply IH].
  - case_decide as Hk; [|apply IH]. subst k'. intros Hg. exfalso. apply OMap.get_elem in Hg.
    apply list_elem_of_filter in Hg as [Hg _]. apply Hp. by apply HP.
Qed.

Lemma activation_over_ok t st L snt : audience (idle st) L snt -> audience (idle (activation_over t st)) L snt.
Proof. by apply audience_same. Qed.

Lemma now_active_ok t st L snt : audience (idle st) L snt -> audience (idle (now_active t st)) L snt.
Proof. apply audience_same. unfold now_active, scheduleRetry. by destruct (_ || _). Qed.

Lemma removals_met_ok t st L snt :
  audience (idle st) L snt -> gen st <> 0 -> audience (idle (removals_met t st)) L snt.
Proof.
  intros [B1 B2 B3 B4 B5 B6 B7 B8 B9 B10 B11] Hg. split; try done. simpl. intros e d Hget.
  apply B7. eapply elem_filter_get; [|exact Hget]. done.
Qed.

Lemma again_if_pending_ok st L snt : audience (idle st) L snt -> audience (idle (again_if_pending st)) L snt.
Proof. apply audience_same. unfold again_if_pending. by destruct (bool_decide _). Qed.

Lemma arm_after_ok t st L snt : audience (idle st) L snt -> audience (idle (arm_after t st)) L snt.
Proof.
  apply audience_weaken; try done. intros d. simpl. intros (d' & -> & Hd')%list_elem_of_fmap. exists d'.
  split; [by left|]. by destruct (_ =? _)%nat.
Qed.

(** The generation never changes inside a segment. *)
Lemma gen_now_active t st : gen (now_active t st) = gen st.
Proof. unfold now_active, scheduleRetry. by destruct (_ || _). Qed.
Lemma gen_again_if_pending st : gen (again_if_pending st) = gen st.
Proof. unfold again_if_pending. by destruct (bool_decide _). Qed.

Lemma after_activation_ok t st L snt :
  audience (idle st) L snt -> gen st <> 0 -> seg_ok L snt (after_activation t st).
Proof.
  intros A Hg. unfold after_activation. apply (activation_over_ok t) in A.
  assert (gen (activation_over t st) <> 0) as Hg1 by done.
  revert A Hg1. generalize (activation_over t st) as st1. intros st1 A Hg1. cbv zeta.
  destruct (negb _); [simpl; by rewrite app_nil_r|]. apply (now_active_ok t) in A. rewrite <- (gen_now_active t) in Hg1.
  revert A Hg1. generalize (now_active t st1) as st2. intros st2 A Hg2. unfold seg_ok.
  assert (sends (if due_after (k_created t) st2 then retire_own (clientID (k_self t)) (k_epoch t) else []) = []) as ->
    by (by destruct (due_after _ _)).
  rewrite app_nil_r. cbn [next_ledger]. split; [|split; [|done]].
  - change (gen (arm_after t ?x)) with (gen x). by rewrite gen_again_if_pending.
  - by apply arm_after_ok, again_if_pending_ok, removals_met_ok.
Qed.

Section audience.
Variable hkdf : slot -> list Z -> list Z.
Variable membershipDigest : list did -> string.

Lemma resume_ok v ok t st L snt :
  audience st L snt -> task st = Some t -> seg_ok L snt (resume hkdf membershipDigest v ok t st).
Proof.
  intros A Et. assert (gen st <> 0) as Hg. { intros Hg. destruct (au_zero _ _ _ A Hg) as [? _]. congruence. }
  pose proof (au_task _ _ _ A t Et) as Ht. pose proof (audience_idle _ _ _ A) as A'.
  assert (forall p, p <> Waiting t -> match p with Waiting _ => False | _ => True end -> seg_ok L snt (st, [], p)) as Hstop.
  { intros p _ Hp. destruct p; [done| |]; simpl; by rewrite app_nil_r. }
  unfold resume. destruct (k_pc t) eqn:Epc.
  - destruct (k_head t) as [h|]; [|by apply Hstop]. destruct ok; [|by apply Hstop].
    apply after_keys_ok; [done|done|]. left. destruct Ht as (H1 & H2 & H3). rewrite Epc in H3. done.
  - assert (launched st L t) as Hl by (destruct Ht as (H1 & H2 & H3); by rewrite Epc in H3).
    destruct (negb ok); [by apply Hstop|]. destruct (negb _); [by apply Hstop|]. cbv zeta.
    apply seg_wait; [|done|done|done|done]. simpl. by rewrite app_nil_r.
  - assert (launched st L t) as Hl by (destruct Ht as (H1 & H2 & H3); by rewrite Epc in H3).
    destruct (negb ok); [by apply Hstop|]. destruct (_ =? _)%nat; [by apply after_install_ok|].
    destruct (_ && _); [by apply Hstop|]. apply seg_wait; [|done|done|done|done].
    simpl. by rewrite app_nil_r.
  - apply try_activate_ok; [done|done|]. destruct Ht as (H1 & H2 & H3). by rewrite Epc in H3.
  - assert (launched st L t) as Hl by (destruct Ht as (H1 & H2 & H3); by rewrite Epc in H3).
    destruct settled as [[]|]; [by apply try_activate_ok| |by apply try_activate_ok].
    destruct (_ =? _); [by apply preempted_ok|by apply Hstop].
  - assert (launched st L t) as Hl by (destruct Ht as (H1 & H2 & H3); by rewrite Epc in H3).
    destruct (negb ok); [by apply Hstop|]. destruct (_ =? _)%nat; [by apply after_activation_ok|].
    apply seg_wait; [|done|done|done|done]. simpl. by rewrite app_nil_r.
Qed.

(** The state after a turn, with the ledger it leaves. *)
Definition turn_ok (L : list birth) (snt : list (did * Z)) (r : engine * list output) : Prop :=
  audience r.1 (born r.1 L) (snt ++ sends r.2).

Lemma settle_run_ok g L snt r : seg_ok L snt r -> turn_ok L snt (settle_run g r).
Proof.
  destruct r as [[st out] p]. intros (Hg & A & Hp). unfold turn_ok, settle_run. destruct p as [t| |].
  - by apply audience_task.
  - eapply audience_same; [|exact A]. done.
  - destruct (_ && _); [|exact A]. eapply audience_same; [|exact A]. done.
Qed.

Lemma loop_run_ok v g L snt r : seg_ok L snt r -> turn_ok L snt (loop_run v g r).
Proof.
  intros H. unfold loop_run. destruct r as [[st out] p]. destruct p; [by apply settle_run_ok| |by apply settle_run_ok].
  destruct (_ && _); [|by apply settle_run_ok]. destruct H as (Hg & A & _). cbn [next_ledger] in A.
  assert (seg_ok L (snt ++ sends out) (begin_rekey v (st <| again := false |>))) as Hb.
  { apply begin_rekey_ok; [|done]. eapply audience_same; [|exact A]. done. }
  destruct (begin_rekey v _) as [[st' out'] p']. by apply settle_run_ok, seg_prefix.
Qed.

(** A turn that leaves the fields of the audience alone. *)
Lemma turn_same L snt st st' out :
  audience st L snt -> same st st' -> sends out = [] -> turn_ok L snt (st', out).
Proof.
  intros A Hs Ho. unfold turn_ok. simpl. rewrite Ho, app_nil_r.
  assert (born st' L = L) as ->; [|by eapply audience_same].
  unfold born. destruct (task st') as [t|] eqn:E; [|done]. destruct (k_pc t) eqn:Ep; try done.
  rewrite decide_True; [done|]. rewrite (sm_task _ _ Hs) in E. destruct (au_task _ _ _ A t E) as (_ & _ & Hb).
  rewrite Ep in Hb. destruct Hb as [(b & Hb & <- & <- & _) _]. exact (list_elem_of_fmap_2 (fun b => (b_epoch b, b_created b)) _ _ Hb).
Qed.

Lemma turn_refl L snt st : audience st L snt -> turn_ok L snt (st, []).
Proof. intros A. by eapply turn_same. Qed.

Lemma turn_calm L snt st st' out :
  audience st L snt -> calm st st' -> audience st' L (snt ++ sends out) -> turn_ok L snt (st', out).
Proof.
  intros A C A'. unfold turn_ok. simpl.
  assert (born st' L = L) as ->; [|done].
  assert (turn_ok L (snt ++ sends out) (st', [])) as H by (by eapply turn_same).
  unfold born. destruct (task st') as [t|] eqn:E; [|done]. destruct (k_pc t) eqn:Ep; try done.
  rewrite decide_True; [done|]. destruct (au_task _ _ _ A' t E) as (_ & _ & Hb).
  rewrite Ep in Hb. destruct Hb as [(b & Hb & <- & <- & _) _]. exact (list_elem_of_fmap_2 (fun b => (b_epoch b, b_created b)) _ _ Hb).
Qed.

Lemma run_ok v st L snt : audience st L snt -> gen st <> 0 -> turn_ok L snt (run v st).
Proof.
  intros A Hg. unfold run. destruct (task st) as [t|] eqn:E; [by eapply turn_same|].
  apply settle_run_ok, begin_rekey_ok; [|done]. apply audience_idle in A. eapply audience_same; [|exact A]. done.
Qed.

(** Moving a waiting task along its wait. *)
Definition repc (f : rekey -> rekey) : Prop :=
  forall t, f t = t \/ exists p, f t = t <| k_pc := p |> /\ k_pc t <> PKeys /\ k_pc t <> PDigest /\
    match k_pc t with PActivate _ => False | _ => True end /\
    match p with PKeys | PDigest | PActivate _ => False | _ => True end.

Lemma repc_interrupt : repc interrupt.
Proof.
  intros t. unfold interrupt. destruct (k_pc t) as [| | | |[]|] eqn:E; auto. right. exists (PWait (Some false)).
  by split_and!.
Qed.

Lemma repc_task_ok f st L t : repc f -> task_ok st L t -> task_ok st L (f t).
Proof.
  intros Hf (H1 & H2 & H3). destruct (Hf t) as [->|(p & -> & Hp1 & Hp2 & _ & Hp)]; [done|].
  split; [done|]. split; [done|]. simpl.
  assert (task_birth L t /\ forall r, r ∈ k_recipients t -> rid r ∈ k_chain t) as Hb by (by destruct (k_pc t)).
  by destruct p.
Qed.

Lemma born_in st L snt : audience st L snt -> born st L = L.
Proof.
  intros A. unfold born. destruct (task st) as [t|] eqn:E; [|done]. destruct (k_pc t) eqn:Ep; try done.
  rewrite decide_True; [done|]. destruct (au_task _ _ _ A t E) as (_ & _ & Hb).
  rewrite Ep in Hb. destruct Hb as [(b & Hb & <- & <- & _) _]. exact (list_elem_of_fmap_2 (fun b => (b_epoch b, b_created b)) _ _ Hb).
Qed.

Lemma turn_ledger L snt st' out : sends out = [] -> audience st' L snt -> turn_ok L snt (st', out).
Proof. intros Ho A. unfold turn_ok. simpl. by rewrite Ho, app_nil_r, (born_in _ _ _ A). Qed.

Lemma audience_repc f st st' L snt :
  repc f -> same st (st' <| task := task st |>) -> task st' = f <$> task st -> audience st L snt -> audience st' L snt.
Proof.
  intros Hf [E1 E2 E3 E4 E5 E6 _ E8] Et [A1 A2 A3 A4 A5 A6 A7 A8 A9 A10 A11]. simpl in *.
  unfold running in *. split; unfold running; rewrite ?E1, ?E2, ?E3, ?E4, ?E5, ?E6, ?E8; try done.
  - intros Hg. destruct (A3 Hg) as (T & ?). rewrite Et, T. done.
  - intros t'. rewrite Et. destruct (task st) as [t|] eqn:Ets; [|done]. intros [= <-].
    assert (task_ok st' L t) as Hok; [|by apply repc_task_ok].
    destruct (A11 t eq_refl) as (T1 & T2 & T3). split; [done|]. rewrite E1, E2. split; [done|]. by rewrite E4.
Qed.

Lemma schedule_same why st : same st (schedule why st) /\ calm st (schedule why st).
Proof.
  unfold schedule. destruct (negb (running st)); [done|].
  set (st1 := if _ || _ then _ else st).
  assert (same st st1 /\ calm st st1) as [S1 C1] by (unfold st1; by destruct (_ || _)). clearbody st1.
  assert (same st (st1 <| busyOrPending := true |>) /\ calm st (st1 <| busyOrPending := true |>)) as [S2 C2].
  { split; [by eapply same_trans|by eapply calm_trans]. }
  revert S2 C2. generalize (st1 <| busyOrPending := true |>) as st2. intros st2 S2 C2. cbv zeta.
  destruct (removalDebounce st2); [done|]. split; [by eapply same_trans|by eapply calm_trans].
Qed.

Lemma noteRemoval_ok st L snt : audience st L snt -> audience (noteRemoval st) L snt.
Proof. apply (audience_repc interrupt); [apply repc_interrupt|done|done]. Qed.

Definition reach (q : Z) (rs : list removal) (t : rekey) : rekey :=
  match k_pc t with
  | PUrgent _ => if existsb (fun r => (r_seq r =? q) && (r_seq r <? k_created t)) rs
                 then t <| k_pc := PUrgent true |> else t
  | _ => t
  end.
Lemma repc_reach q rs : repc (reach q rs).
Proof.
  intros t. unfold reach. destruct (k_pc t) eqn:E; auto. destruct (existsb _ _); [|auto]. right.
  exists (PUrgent true). by split_and!.
Qed.

(** The fields of the deadline's first assignments. *)
Lemma deadline_audience q st L snt : audience st L snt -> audience (deadline q st).1 L snt.
Proof.
  intros A. unfold deadline. destruct (self st) as [s|] eqn:Es; [|done].
  set (st1 := st <| pendingRemovals := _ |> <| task := _ |>).
  assert (audience st1 L snt) as A1.
  { apply (audience_repc (reach q (pendingRemovals st)) st); [apply repc_reach|done|done|done]. }
  clearbody st1. cbv zeta.
  set (st2 := st1 <| activating := _ |>).
  assert (audience st2 L snt) as A2 by (eapply audience_same; [|exact A1]; done). clearbody st2.
  destruct (_ && _); [done|]. eapply audience_same; [|exact A2]. done.
Qed.

Lemma sends_flat {A} (f : A -> list output) (l : list A) :
  (forall x, sends (f x) = []) -> sends (l ≫= f) = [].
Proof.
  intros H. induction l as [|x l IH]; [done|]. cbn [mbind list_bind]. unfold sends in *. by rewrite omap_app, H, IH.
Qed.

Lemma deadline_sends q st : sends (deadline q st).2 = [].
Proof.
  unfold deadline. destruct (self st) as [s|]; [|done]. cbv zeta.
  set (o := filter _ _ ≫= _). assert (sends o = []) as Ho by (by apply sends_flat).
  clearbody o. destruct (_ && _); [done|]. simpl. destruct (_ && _); [|done].
  unfold sends in *. by rewrite omap_app, Ho.
Qed.

Lemma start_ok s rnd st st' L snt :
  audience st L snt -> gen st = 0 -> start s rnd st = Ok st' -> audience st' L snt.
Proof.
  intros A Hg. unfold start. destruct (running st); [done|]. destruct (_ || _ || _ || _); [done|]. intros [= <-].
  eapply audience_same; [apply schedule_same|].
  destruct (au_zero _ _ _ A Hg) as (Z1 & Z2 & Z3 & ->). destruct A as [A1 A2 A3 A4 A5 A6 A7 A8 A9 A10 A11].
  split; simpl; try done; try (rewrite Hg; by auto).
  - by intros ?? _ ?%elem_of_nil.
  - rewrite Z2. by intros ?? ?%elem_of_nil.
  - by rewrite Z1.
Qed.

Lemma stop_ok st L snt : audience st L snt -> audience (stop st).1 L snt.
Proof.
  intros A. unfold stop. destruct (self st) as [s|] eqn:Es; [|done].
  assert (gen st = 1) as Hg. { apply (au_self _ _ _ A). unfold running. by rewrite Es. }
  destruct A as [A1 A2 A3 A4 A5 A6 A7 A8 A9 A10 A11]. split; simpl; try done; try (rewrite Hg; by auto).
  - by intros ?? ?%elem_of_nil.
  - intros t'. destruct (task st) as [t|] eqn:Ets; [|done]. intros [= <-].
    apply repc_task_ok; [apply repc_interrupt|]. destruct (A11 t eq_refl) as (T1 & T2 & T3).
    split; [done|]. simpl. rewrite Hg. split; [done|]. destruct (k_pc t); try done.
    destruct T3. split; [done|]. done.
Qed.

(** ** Receiving keys does not touch the sender *)

Definition apart (st : engine) (r : engine * list output) : Prop :=
  same st r.1 /\ calm st r.1 /\ Forall silent r.2.

Lemma apart_refl st out : Forall silent out -> apart st (st, out).
Proof. done. Qed.

Lemma apart_turn L snt st r : audience st L snt -> apart st r -> turn_ok L snt r.
Proof.
  intros A (S & C & Ho). destruct r as [st' out]. eapply turn_same; [done|done|by apply sends_silent].
Qed.

Lemma apart_app st st1 st2 o1 o2 : apart st (st1, o1) -> apart st1 (st2, o2) -> apart st (st2, o1 ++ o2).
Proof.
  intros (S1 & C1 & H1) (S2 & C2 & H2). split_and!; [by eapply same_trans|by eapply calm_trans|by apply Forall_app].
Qed.

Lemma silent_retire_pub c (f : media_pid -> call) :
  (forall s, silent (OCall (f (Publication c s)))) -> Forall silent (retire_pub c f).
Proof. intros H. repeat constructor; apply H. Qed.

Lemma apply_apart control value st : apart st (apply control value st).
Proof.
  unfold apply. destruct (_ <=? _); [by apply apart_refl; repeat constructor|].
  set (out := if _ =? 0 then [] else _).
  assert (Forall silent out) as Ho by (unfold out; destruct (_ =? 0); [constructor|by apply silent_retire_pub]).
  clearbody out. set (p := match OMap.get _ _ with Some _ => _ | None => _ end). clearbody p.
  split; [done|]. split; [done|]. apply Forall_app. split; [done|]. by repeat constructor.
Qed.

Lemma installed_apart i st : apart st (installed i st).
Proof.
  unfold installed. destruct (same_publisher _ _ _ _) as [p|].
  2:{ apply apart_refl. by apply silent_retire_pub. }
  set (st1 := put_publisher _ _ st). assert (same st st1 /\ calm st st1) as [S1 C1] by done. clearbody st1. cbv zeta.
  set (st2 := match removelast _ with [] => st1 | _ => _ end).
  assert (same st st2 /\ calm st st2) as [S2 C2].
  { unfold st2. destruct (removelast _); [done|]. split; [by eapply same_trans|by eapply calm_trans]. }
  clearbody st2. destruct (_ && _); [|by split].
  split; [by eapply same_trans|]. split; [by eapply calm_trans|constructor].
Qed.

Lemma install_reply_apart id ok st : apart st (install_reply id ok st).
Proof.
  unfold install_reply. destruct (List.find _ _) as [i|]; [|by apply apart_refl].
  set (st1 := st <| installs := _ |>). assert (apart st (st1, [])) as A1 by done. clearbody st1. cbv zeta.
  set (go := (st1 <| installs := _ |>, _)).
  assert (apart st go) as Hgo.
  { apply (apart_app st st1 _ []); [done|]. split; [done|]. split; [done|]. by repeat constructor. }
  clearbody go. destruct (i_successor i).
  - destruct (_ || _); [done|]. destruct (same_publisher _ _ _ _) as [p|]; [|done]. by destruct (_ =? _).
  - destruct (negb ok).
    { apply (apart_app st st1 st1 []); [done|]. apply apart_refl. by repeat constructor. }
    pose proof (installed_apart i st1) as Hi. destruct (installed i st1) as [st2 o2].
    assert (apart st (st2, o2)) as Hi' by (by apply (apart_app st st1 st2 [])).
    destruct (_ =? _)%nat; [done|]. by destruct (same_publisher _ _ _ _).
Qed.

Lemma derived_apart id ok st : apart st (derived hkdf id ok st).
Proof.
  unfold derived. destruct (List.find _ _) as [d|]; [|by apply apart_refl].
  set (st1 := st <| derivations := _ |>). assert (apart st (st1, [])) as A1 by done. clearbody st1. cbv zeta.
  destruct (negb ok); [done|]. destruct (same_publisher _ _ _ _) as [p|]; [|done].
  destruct (_ || _ || _); [done|]. apply (apart_app st st1 _ []); [done|]. split; [done|]. split; [done|].
  by repeat constructor.
Qed.

Lemma receive_apart v control st : apart st (receive v control st).
Proof.
  unfold receive. destruct (self st) as [s|]; [|by apply apart_refl; repeat constructor].
  destruct (parseMediaKeyControl _ _) as [value|]; [|by apply apart_refl; repeat constructor].
  case_bool_decide; [by apply apart_refl; repeat constructor|].
  destruct (bound _ _ _); [apply apply_apart|]. cbv zeta.
  destruct (_ <=? _); (split; [done|]; split; [done|]; by repeat constructor).
Qed.

Lemma drain_apart v hs st :
  let '(st', keep, out) := drain v hs st in apart st (st', out).
Proof.
  revert st. induction hs as [|h hs IH]; intros st; [by apply apart_refl|]. cbn [drain].
  destruct (_ || _); [apply IH|]. destruct (bound _ _ _).
  - pose proof (apply_apart (h_control h) (h_value h) st) as Ha. destruct (apply _ _ st) as [st1 o1].
    specialize (IH st1). destruct (drain v hs st1) as [[st2 keep] o2]. by eapply apart_app.
  - specialize (IH st). by destruct (drain v hs st) as [[st1 keep] o1].
Qed.

Lemma drainPending_apart v st : apart st (drainPending v st).
Proof.
  unfold drainPending. pose proof (drain_apart v (pending st) st) as H.
  destruct (drain v (pending st) st) as [[st' keep] out]. destruct H as (S & C & Ho).
  split; [by eapply same_trans|]. split; [by eapply calm_trans|done].
Qed.

(** A roster update: the engine before its recipients change, and what happens then. *)
Lemma setRoster_cases v clients st :
  (exists st1 out, setRoster v clients st = (st1, out) /\ same st st1 /\ calm st (st1 <| roster := roster st |>) /\ Forall silent out) \/
  exists st1 out rs (removed : bool), setRoster v clients st =
      (schedule (if removed then RRemoval else RMembership)
         ((if removed then noteRemoval st1 else st1) <| recipientKey := map rid rs |> <| recipients := rs |>), out) /\
    same st st1 /\ calm st (st1 <| roster := roster st |>) /\ Forall silent out.
Proof.
  unfold setRoster. set (st0 := st <| roster := clients |>).
  assert (same st st0 /\ calm st (st0 <| roster := roster st |>)) as [S0 C0] by done.
  change (self st0) with (self st). destruct (self st) as [s|]; [|left; by exists st0, []].
  destruct (self_invisible st0); [left; by exists st0, [OInvisible]; split_and!; repeat constructor|]. cbv zeta.
  match goal with |- context [?l ≫= ?f] => set (out1 := l ≫= f) end.
  assert (Forall silent out1) as Ho1.
  { unfold out1. match goal with |- Forall silent (?ll ≫= _) => induction ll as [|x l IH]; [constructor|] end.
    cbn [mbind list_bind]. apply Forall_app. split; [by apply silent_retire_pub|done]. }
  clearbody out1. set (st1 := st0 <| publishers := _ |>).
  assert (same st st1 /\ calm st (st1 <| roster := roster st |>)) as [S1 C1] by done. clearbody st1.
  pose proof (drainPending_apart v st1) as (S2 & C2 & Ho2). destruct (drainPending v st1) as [st2 o2]. simpl in *.
  assert (same st st2) as S3 by (by eapply same_trans).
  assert (calm st (st2 <| roster := roster st |>)) as C3.
  { destruct C1, C2. split; simpl in *; congruence. }
  assert (Forall silent (out1 ++ o2)) as Ho by (by apply Forall_app).
  case_bool_decide; [left; by exists st2, (out1 ++ o2)|]. right.
  exists st2, (out1 ++ o2), (recipientsOf (roster st0) s). eexists. split; [reflexivity|]. done.
Qed.

Lemma setRoster_ok v clients st L snt : audience st L snt -> turn_ok L snt (setRoster v clients st).
Proof.
  intros A. destruct (setRoster_cases v clients st) as [(st1 & out & -> & S & C & Ho)|(st1 & out & rs & rm & -> & S & C & Ho)].
  - eapply turn_same; [done|done|by apply sends_silent].
  - apply turn_ledger; [by apply sends_silent|].
    assert (audience st1 L snt) as A1 by (by eapply audience_same).
    eapply audience_same; [apply schedule_same|]. destruct rm.
    + eapply audience_same; [|apply noteRemoval_ok; exact A1]. done.
    + eapply audience_same; [|exact A1]. done.
Qed.

Lemma run_turn v st L snt : audience st L snt -> turn_ok L snt (run v st).
Proof.
  intros A. destruct (decide (gen st = 0)) as [Hg|Hg]; [|by apply run_ok].
  unfold run. destruct (task st) as [t|] eqn:E; [by eapply turn_same|].
  assert (self st = None) as Hs.
  { destruct (self st) as [s|] eqn:Es; [|done]. exfalso.
    assert (gen st = 1); [|lia]. apply (au_self _ _ _ A). unfold running. by rewrite Es. }
  unfold begin_rekey. change (self (st <| again := false |>)) with (self st). rewrite Hs. cbn [settle_run].
  destruct (_ && _); (eapply turn_same; [exact A| |done]; split; try done; by rewrite E).
Qed.

Lemma sender_retire_sends (c : string) e :
  sends (SLOTS ≫= fun sl => [OCall (CRetire (Sender sl) e); OCall (CRetire (Publication c sl) e)]) = [].
Proof. done. Qed.

Lemma handle_audience v ev st L snt :
  audience st L snt -> enabled ev st -> turn_ok L snt (handle hkdf membershipDigest v ev st).
Proof.
  intros A He. destruct ev; cbn [handle].
  - destruct (start s rnd st) as [st'|e] eqn:E; [|by eapply turn_same].
    apply turn_ledger; [done|]. by eapply start_ok.
  - pose proof (stop_ok st L snt A) as H. unfold stop in *. destruct (self st) as [s|]; [|by apply turn_refl].
    apply turn_ledger; [|exact H].
    match goal with |- sends (map ?f ?l) = [] => generalize l end. intros l. induction l; [done|]. simpl. done.
  - by apply setRoster_ok.
  - eapply turn_same; [done|apply schedule_same|done].
  - apply run_turn. eapply audience_same; [|exact A]. done.
  - eapply turn_same; [done|apply schedule_same|done].
  - apply run_turn. eapply audience_same; [|exact A]. done.
  - rewrite (surjective_pairing (deadline q st)). apply turn_ledger; [apply deadline_sends|by apply deadline_audience].
  - pose proof (retry_fires_ok id (now v) st L snt A) as H. destruct (retry_fires _ _ _) as [st' out].
    destruct H as (C & A' & _). by eapply turn_calm.
  - apply turn_ledger; [done|]. destruct He as (t & Et & Ep).
    apply (audience_repc (fun t' => match k_pc t' with PWait _ => t' <| k_pc := PWait (Some true) |> | _ => t' end) st);
      [|done| |done].
    + intros t'. destruct (k_pc t') eqn:E; auto. right. exists (PWait (Some true)). by split_and!.
    + simpl. rewrite Et. simpl. by rewrite Ep.
  - destruct (task st) as [t|] eqn:Et; [|by apply turn_refl]. apply loop_run_ok. by apply resume_ok.
  - pose proof (delivered_ok d r res st L snt A) as H. destruct (delivered _ _ _ _) as [st' out].
    destruct H as (C & A' & _). by eapply turn_calm.
  - destruct (dist_done_ok d (now v) st L snt A) as [C A']. eapply turn_calm; [done|done|]. simpl. by rewrite app_nil_r.
  - eapply apart_turn; [done|apply receive_apart].
  - eapply apart_turn; [done|apply install_reply_apart].
  - eapply apart_turn; [done|apply derived_apart].
  - eapply turn_same; [done|done|]. destruct (self st); [|done]. by destruct (_ =? _).
  - eapply turn_same; [done|done|done].
Qed.
End audience.

(** ** Executions *)

Inductive reachable (hkdf : slot -> list Z -> list Z) (dig : list did -> string) : world -> Prop :=
| reach_new issued accepted :
    (forall k, 0 <= lookup_or 0 k issued) ->
    reachable hkdf dig (World (new_engine issued accepted) [] [] [] [])
| reach_event w v ev :
    reachable hkdf dig w -> enabled ev (eng w) ->
    reachable hkdf dig (advance (handle hkdf dig v ev (eng w)).1 (handle hkdf dig v ev (eng w)).2 (ack ev w) w).

(** The devices that can compute the keys of an epoch: it was sent to them, or
    they can compute the epoch it is derived from. *)
Inductive knows (w : world) : did -> Z -> Prop :=
| knows_sent d e : (d, e) ∈ sent w -> knows w d e
| knows_derived d b e : b ∈ ledger w -> b_pred b = Some e -> knows w d e -> knows w d (b_epoch b).

Lemma reachable_audience hkdf dig w : reachable hkdf dig w -> audience (eng w) (ledger w) (sent w).
Proof.
  induction 1 as [issued accepted Hi|w v ev Hr IH He].
  - split; simpl; try done; try (by intros ?? ?%elem_of_nil); try (by intros ?? _ ?%elem_of_nil); [by auto|].
    split; [constructor|by intros ? ?%elem_of_nil|by intros ?? ?%elem_of_nil|by intros ?? ?%elem_of_nil].
  - apply (handle_audience hkdf dig v ev (eng w) (ledger w) (sent w) IH He).
Qed.

(** C2: who can decrypt.  In every execution of the engine, with joins, leaves,
    renewals, ratchets, preempted epochs, failed and retried deliveries in any
    order, a device that can compute the keys of an epoch (because the epoch, or
    any epoch its keys are derived from, was sent to it) was among the
    recipients the roster named when that very epoch was created. *)
Theorem key_audience hkdf dig w d e :
  reachable hkdf dig w -> knows w d e -> covers (ledger w) e d.
Proof.
  intros Hr Hk. pose proof (reachable_audience _ _ _ Hr) as A.
  induction Hk as [d e Hs|d b e Hb Hp Hk IH]; [by apply A|].
  destruct (lo_pred _ (au_ledger _ _ _ A) b e Hb Hp) as [_ (b' & Hb' & He' & Hsub)].
  destruct IH as (b2 & Hb2 & He2 & Hd). assert (b2 = b') as ->.
  { apply (ledger_unique _ _ _ (au_ledger _ _ _ A)); [done|done|congruence]. }
  exists b. auto.
Qed.

(** C15: epoch numbers.  Every epoch this engine creates has a number above all
    earlier ones; a ratchet epoch directly follows the epoch its keys come from,
    and a fresh epoch never takes the number that receivers reserve for the
    derived successor of an earlier epoch. *)
Theorem epochs_never_repeat hkdf dig w :
  reachable hkdf dig w -> ledger_ok (ledger w).
Proof. intros Hr. apply (au_ledger _ _ _ (reachable_audience _ _ _ Hr)). Qed.

(** ** Receiving: one line of epochs per sending device *)

Definition accepts (out : list output) : Prop := exists e, OReply (Ok e) ∈ out.
Definition installs_key (out : list output) : Prop := exists p e k key, OCall (CSetKey p e k key) ∈ out.

Lemma apply_stale control value st :
  control_epoch control <= lookup_or 0 (control_line control) (acceptedEpochs st) ->
  apply control value st = (st, [OReply (Err "stale"%string)]).
Proof. intros H. unfold apply. by rewrite (proj2 (Z.leb_le _ _)). Qed.

Lemma apply_accepted control value st :
  accepts (apply control value st).2 ->
  lookup_or 0 (control_line control) (acceptedEpochs st) < control_epoch control /\
  lookup_or 0 (control_line control) (acceptedEpochs (apply control value st).1) = control_epoch control.
Proof.
  intros [e He]. destruct (Z.le_gt_cases (control_epoch control) (lookup_or 0 (control_line control) (acceptedEpochs st))) as [Hle|Hgt].
  - rewrite apply_stale in He by done. simpl in He. by apply list_elem_of_singleton in He.
  - split; [done|]. unfold apply. rewrite (proj2 (Z.leb_gt _ _)) by done. simpl.
    by rewrite lookup_or_set, decide_True.
Qed.

Lemma receive_accepted v control st :
  accepts (receive v control st).2 ->
  lookup_or 0 (control_line control) (acceptedEpochs st) < control_epoch control /\
  lookup_or 0 (control_line control) (acceptedEpochs (receive v control st).1) = control_epoch control.
Proof.
  unfold receive. assert (forall why, ~ accepts [OReply (Err why)]) as Hno.
  { intros why [e He]. by apply list_elem_of_singleton in He. }
  destruct (self st) as [s|]; [|by intros ?%Hno]. destruct (parseMediaKeyControl _ _) as [value|]; [|by intros ?%Hno].
  case_bool_decide; [by intros ?%Hno|]. destruct (bound _ _ _); [apply apply_accepted|]. cbv zeta.
  destruct (_ <=? _); by intros ?%Hno.
Qed.

(** No rollback of a sender's keys.  Once a control was accepted, no control
    of the same sending device with the same or a lower epoch is accepted or
    installs a key: a replayed, delayed or reordered control only gets a refusal
    (or waits for the roster), whatever its contents. *)
Theorem older_controls_refused v control st v' control' :
  accepts (receive v control st).2 ->
  control_line control' = control_line control -> control_epoch control' <= control_epoch control ->
  ~ accepts (receive v' control' (receive v control st).1).2 /\
  ~ installs_key (receive v' control' (receive v control st).1).2.
Proof.
  intros Hacc Hline Hle. destruct (receive_accepted v control st Hacc) as [_ Hnow].
  set (st' := (receive v control st).1) in *. clearbody st'.
  assert (exists why, (receive v' control' st').2 = [OReply (Err why)]) as [why Hout].
  { unfold receive. destruct (self st') as [s|]; [|by eexists]. destruct (parseMediaKeyControl _ _); [|by eexists].
    case_bool_decide; [by eexists|]. destruct (bound _ _ _).
    - rewrite apply_stale; [by eexists|]. rewrite Hline, Hnow. done.
    - cbv zeta. destruct (_ <=? _); by eexists. }
  rewrite Hout. split.
  - intros [e He]. by apply list_elem_of_singleton in He.
  - intros (p & e & k & key & He). by apply list_elem_of_singleton in He.
Qed.

Definition demo_receiver : engine :=
  match start (Self 7 "1" "me" "laptop") "rnd"
          ((new_engine [] []) <| roster := [JObj [("client_id", JStr "12"); ("unique_id", JStr "alice");
                                                  ("media_device", JStr "phone"); ("channel_id", JNum 7)]%string] |>) with
  | Ok st => st
  | Err _ => new_engine [] []
  end.

Lemma older_controls_refused_witness :
  let v := Env 1700000000000 [] in
  let st := (receive v (demo_control 60) demo_receiver).1 in
  accepts (receive v (demo_control 60) demo_receiver).2 /\
  (receive v (demo_control 50) st).2 = [OReply (Err "stale"%string)] /\
  ~ installs_key (receive v (demo_control 50) st).2.
Proof.
  intros v st.
  assert (Ha : accepts (receive v (demo_control 60) demo_receiver).2).
  { exists 60. vm_compute. repeat (apply list_elem_of_here || apply list_elem_of_further). }
  split; [exact Ha|]. split; [vm_compute; reflexivity|].
  apply (older_controls_refused v (demo_control 60) demo_receiver v (demo_control 50)); [exact Ha|reflexivity|].
  vm_compute. congruence.
Defined.
