(* ===== verification/MediaKeysRemoval.v ===== *)
(** * Removals: the deadline of the media key engine

    When a device leaves the channel, the sender must stop encrypting under
    every epoch that device may hold, at the latest when the removal's timer
    fires.  This file proves it of every execution of [MediaKeys]: whatever
    the worker may be encrypting with while a due removal is pending was
    created after that removal. *)

From stdpp Require Import base list strings sorting.
From Stdlib Require Import ZArith Lia.
From S2P Require Import Prelude Json Text MediaControl MediaKeys MediaKeysSafety.

(** ** The invariant *)

Record guard (st : engine) (L : list birth) (i m : slots_t) : Prop := {
  g_sub : forall x, x ∈ m -> x ∈ i;
  g_known : forall x, x ∈ i -> exists b, b ∈ L /\ b_epoch b = x.2;
  g_stop : gen st <> 1 -> forall x, x ∉ i;
  g_where : forall s e, (s, e) ∈ m ->
    (e = activeEpoch st /\ e <> 0 /\ paused st = false) \/ exists a, a ∈ activating st /\ a_epoch a = e;
  g_birth : forall a, a ∈ activating st -> exists b, b ∈ L /\ b_epoch b = a_epoch a /\ b_created b = a_created a;
  g_due : forall r s e b, r ∈ pendingRemovals st -> r_due r = true -> (s, e) ∈ m -> b ∈ L -> b_epoch b = e ->
    r_seq r < b_created b;
  g_seqR : forall r, r ∈ pendingRemovals st -> r_seq r <= seq st;
  g_seqB : forall b, b ∈ L -> b_created b <= seq st;
  g_seqN : forall r b, r ∈ pendingRemovals st -> b ∈ L -> r_seq r <> b_created b }.

(** What a waiting task adds. *)
Record tguard (st : engine) (i m : slots_t) (t : rekey) : Prop := {
  tg_seq : k_created t <= seq st;
  tg_seqN : forall r, r ∈ pendingRemovals st -> r_seq r <> k_created t;
  tg_act : forall n, k_pc t = PActivate n -> (n <= 3)%nat /\
    ((Activation (k_epoch t) (k_created t) ∈ activating st /\ due_after (k_created t) st = false) \/
     forall s, (s, k_epoch t) ∉ i) /\
    forall j e, (j < n)%nat -> (nth_slot j, e) ∈ m -> e = k_epoch t }.

Definition safe (w : world) : Prop :=
  guard (eng w) (ledger w) (inst w) (may w) /\
  forall t, task (eng w) = Some t -> tguard (eng w) (inst w) (may w) t.

(** The fields the invariant reads, apart from the task. *)
Record steady (st st' : engine) : Prop := {
  sd_gen : gen st' = gen st; sd_removals : pendingRemovals st' = pendingRemovals st; sd_seq : seq st' = seq st;
  sd_paused : paused st' = paused st; sd_activating : activating st' = activating st;
  sd_active : activeEpoch st' = activeEpoch st }.

Lemma steady_refl st : steady st st.
Proof. done. Qed.
Lemma steady_trans a b c : steady a b -> steady b c -> steady a c.
Proof. intros [] []. split; congruence. Qed.
Lemma calm_steady st st' : calm st st' -> steady st st'.
Proof. by intros []. Qed.

Lemma guard_steady st st' L i m : steady st st' -> guard st L i m -> guard st' L i m.
Proof.
  intros [E1 E2 E3 E4 E5 E6] [G1 G2 G3 G4 G5 G6 G7 G8 G9].
  split; rewrite ?E1, ?E2, ?E3, ?E4, ?E5, ?E6; done.
Qed.

Lemma due_after_eq c st st' : pendingRemovals st' = pendingRemovals st -> due_after c st' = due_after c st.
Proof. unfold due_after. by intros ->. Qed.

Lemma tguard_steady st st' i m t : steady st st' -> tguard st i m t -> tguard st' i m t.
Proof.
  intros [E1 E2 E3 E4 E5 E6] [T1 T2 T3]. split; rewrite ?E2, ?E3, ?E5; [done|done|].
  intros n Hn. rewrite (due_after_eq (k_created t) st st') by done. by apply T3.
Qed.

(** Removing from the tracked lists. *)
Lemma guard_shrink st L i m i' m' :
  (forall x, x ∈ i' -> x ∈ i) -> (forall x, x ∈ m' -> x ∈ m) -> (forall x, x ∈ m' -> x ∈ i') ->
  guard st L i m -> guard st L i' m'.
Proof.
  intros Hi Hm Hs [G1 G2 G3 G4 G5 G6 G7 G8 G9]. split; auto.
  - intros Hg x Hx. by eapply G3, Hi.
  - intros s e Hx. by apply (G4 s), Hm.
  - intros r s e b Hr Hd Hx. by apply (G6 r s), Hm.
Qed.

Lemma tguard_shrink st i m i' m' t :
  (forall x, x ∈ i' -> x ∈ i) -> (forall x, x ∈ m' -> x ∈ m) -> tguard st i m t -> tguard st i' m' t.
Proof.
  intros Hi Hm [T1 T2 T3]. split; [done|done|]. intros n Hn. destruct (T3 n Hn) as (H1 & H2 & H3). split; [done|].
  split; [|intros j e Hj Hx; eapply H3; [done|by apply Hm]]. destruct H2 as [?|H2]; [by left|]. right.
  intros s Hx. by eapply H2, Hi.
Qed.

Lemma guard_track st L i m out :
  Forall shrinks out -> guard st L i m -> guard st L (track out (i, m)).1 (track out (i, m)).2.
Proof.
  intros Ho G. destruct (track_shrinks out (i, m) Ho) as (H1 & H2 & H3).
  eapply guard_shrink; [exact H1|exact H2|apply H3, G|exact G].
Qed.

Lemma tguard_track st i m out t :
  Forall shrinks out -> tguard st i m t -> tguard st (track out (i, m)).1 (track out (i, m)).2 t.
Proof.
  intros Ho T. destruct (track_shrinks out (i, m) Ho) as (H1 & H2 & _). by eapply tguard_shrink.
Qed.

(** A new epoch in the ledger. *)
Lemma guard_grow st L i m b :
  guard st L i m -> ledger_ok (b :: L) -> b_created b <= seq st ->
  (forall r, r ∈ pendingRemovals st -> r_seq r <> b_created b) -> guard st (b :: L) i m.
Proof.
  intros [G1 G2 G3 G4 G5 G6 G7 G8 G9] HL Hb Hr.
  assert (forall x, x ∈ i -> x.2 <> b_epoch b) as Hnew.
  { intros x Hx He. destruct (G2 x Hx) as (b' & Hb' & He').
    pose proof (lo_order _ HL) as Hs. apply StronglySorted_inv in Hs as [_ Hf]. rewrite Forall_forall in Hf.
    specialize (Hf _ Hb'). lia. }
  split; try done.
  - intros x Hx. destruct (G2 x Hx) as (b' & Hb' & He'). exists b'. split; [by right|done].
  - intros a Ha. destruct (G5 a Ha) as (b' & Hb' & He'). exists b'. split; [by right|done].
  - intros r s e b' Hr' Hd Hm [->|Hb']%elem_of_cons He; [|by eapply G6].
    exfalso. apply (Hnew (s, e)); [by apply G1|done].
  - intros b' [->|Hb']%elem_of_cons; auto.
  - intros r b' Hr' [->|Hb']%elem_of_cons; auto.
Qed.

(** ** Segments of a rekey *)

Definition seg_safe (L : list birth) (i m : slots_t) (r : engine * list output * progress) : Prop :=
  let '(st', out, p) := r in
  guard st' (next_ledger p L) (track out (i, m)).1 (track out (i, m)).2 /\
  match p with Waiting t => tguard st' (track out (i, m)).1 (track out (i, m)).2 t | _ => True end.

Lemma next_ledger_cases t L :
  next_ledger (Waiting t) L = L \/ exists b, next_ledger (Waiting t) L = b :: L /\ b_created b = k_created t.
Proof.
  unfold next_ledger, born. simpl. destruct (k_pc t); auto. destruct (decide _); [auto|]. right. by eexists.
Qed.

Lemma guard_next st L i m t :
  guard st L i m -> ledger_ok (next_ledger (Waiting t) L) -> tguard st i m t ->
  guard st (next_ledger (Waiting t) L) i m.
Proof.
  intros G HL T. destruct (next_ledger_cases t L) as [->|(b & E & Hb)]; [done|]. rewrite E in *.
  apply guard_grow; [done|done|rewrite Hb; apply T|rewrite Hb; apply T].
Qed.

Lemma seg_stop st L i m p :
  guard st L i m -> match p with Waiting _ => False | _ => True end -> seg_safe L i m (st, [], p).
Proof. intros G Hp. by destruct p. Qed.

Lemma tguard_fields st i m t t' :
  k_created t' = k_created t -> match k_pc t' with PActivate _ => False | _ => True end ->
  tguard st i m t -> tguard st i m t'.
Proof. intros E Hp [T1 T2 T3]. split; rewrite ?E; [done|done|]. intros n Hn. by rewrite Hn in Hp. Qed.

Lemma after_keys_safe v ks t st L i m snt :
  guard st L i m -> tguard st i m t -> seg_ok L snt (after_keys v ks t st) ->
  seg_safe L i m (after_keys v ks t st).
Proof.
  intros G T. unfold after_keys. destruct (negb _); [intros _; by apply seg_stop|].
  match goal with |- seg_ok _ _ (?s, ?o, Waiting ?x) -> _ => set (st' := s); set (t' := x) end.
  intros (_ & A & _). assert (steady st st') as S by done.
  assert (tguard st' i m t') as T'.
  { eapply tguard_steady; [exact S|]. eapply tguard_fields; [..|exact T]; done. }
  split; [|exact T']. apply guard_next; [by eapply guard_steady|apply (au_ledger _ _ _ A)|done].
Qed.

Lemma guard_bump st st' L i m :
  gen st' = gen st -> pendingRemovals st' = pendingRemovals st -> seq st <= seq st' -> paused st' = paused st ->
  activating st' = activating st -> activeEpoch st' = activeEpoch st -> guard st L i m -> guard st' L i m.
Proof.
  intros E1 E2 E3 E4 E5 E6 [G1 G2 G3 G4 G5 G6 G7 G8 G9].
  split; rewrite ?E1, ?E2, ?E4, ?E5, ?E6; try done.
  - intros r Hr. specialize (G7 r Hr). lia.
  - intros b Hb. specialize (G8 b Hb). lia.
Qed.

Lemma begin_rekey_safe v st L i m snt :
  guard st L i m -> seg_ok L snt (begin_rekey v st) -> seg_safe L i m (begin_rekey v st).
Proof.
  intros G. unfold begin_rekey. destruct (self st) as [s|]; [|intros _; by apply seg_stop].
  set (st1 := st <| seq := _ |> <| reason := _ |> <| busyOrPending := _ |>).
  assert (guard st1 L i m) as G1 by (eapply guard_bump; [..|exact G]; try done; simpl; lia).
  assert (forall t, k_created t = seq st + 1 -> k_pc t = PKeys -> tguard st1 i m t) as HT.
  { intros t Hc Hp. split; [simpl; lia| |by rewrite Hp]. intros r Hr. rewrite Hc.
    pose proof (g_seqR _ _ _ _ G r Hr). lia. }
  cbv zeta. destruct (self_invisible st1); [intros _; done|].
  set (st2 := st1 <| recipients := _ |>).
  assert (steady st1 st2) as S2 by done.
  assert (guard st2 L i m) as G2 by (by eapply guard_steady).
  match goal with |- context [Rekey ?a ?b ?c ?d ?e ?f ?g 0 0 [] [] _ 0 PKeys] =>
    set (t := Rekey a b c d e f g 0 0 [] [] "" 0 PKeys) end.
  assert (tguard st2 i m t) as T2 by (eapply tguard_steady; [exact S2|by apply HT]).
  destruct (ratchetHead _ _ _ _) as [h|] eqn:Eh.
  - intros _. split; [|exact T2]. exact G2.
  - intros Hok. by eapply after_keys_safe.
Qed.

Lemma restore_steady e t st : steady st (restore e t st).
Proof. destruct (restore_fields e t st) as (? & ? & ? & ? & ? & ? & ? & ?). by split. Qed.

Lemma preempted_safe t st L i m : guard st L i m -> seg_safe L i m (preempted t st).
Proof.
  intros G. unfold preempted. set (st1 := if epoch st =? k_epoch t then _ else st).
  assert (steady st st1) as S1.
  { unfold st1. destruct (_ =? _); [|done]. eapply steady_trans; [apply restore_steady|done]. }
  split; [|done]. apply guard_track; [apply retire_own_shrinks|]. eapply guard_steady; [|exact G].
  by eapply steady_trans.
Qed.

(** The birth of the task's epoch is the only one with its number. *)
Lemma launched_birth st L t b :
  ledger_ok L -> launched st L t -> b ∈ L -> b_epoch b = k_epoch t -> b_created b = k_created t.
Proof.
  intros HL (_ & _ & (b' & Hb' & He & Hc & _) & _) Hb Hbe. rewrite <- Hc. f_equal.
  apply (ledger_unique L); [done..|congruence].
Qed.

Lemma due_after_false c st r : due_after c st = false -> r ∈ pendingRemovals st -> r_due r = true -> r_seq r <= c.
Proof.
  unfold due_after. intros H Hr Hd. destruct (Z.le_gt_cases (r_seq r) c); [done|]. exfalso.
  apply not_true_iff_false in H. apply H, existsb_exists. exists r. split; [by apply list_elem_of_In|].
  rewrite Hd. cbn [andb]. apply Z.ltb_lt. lia.
Qed.

(** Posting an activation that is announced and not overtaken by a removal. *)
Lemma guard_activate st L i m s t :
  ledger_ok L -> launched st L t -> guard st L i m ->
  (Activation (k_epoch t) (k_created t) ∈ activating st /\ due_after (k_created t) st = false) \/
    (forall s, (s, k_epoch t) ∉ i) ->
  guard st L i (if decide ((s, k_epoch t) ∈ i) then (s, k_epoch t) :: m else m).
Proof.
  intros HL Hl G Hc. case_decide as Hin; [|done]. destruct Hc as [[Ha Hd]|Hc]; [|by apply Hc in Hin].
  pose proof G as [G1 G2 G3 G4 G5 G6 G7 G8 G9]. split; try done.
  - intros x [->|Hx]%elem_of_cons; auto.
  - intros s' e [[= -> ->]|Hx]%elem_of_cons; [|by apply (G4 s')]. right. by eexists.
  - intros r s' e b Hr Hdue [[= -> ->]|Hx]%elem_of_cons Hb He; [|by apply (G6 r s' e)].
    rewrite (launched_birth st L t b HL Hl Hb He). pose proof (due_after_false _ _ r Hd Hr Hdue).
    pose proof (G9 r b Hr Hb) as Hne. rewrite (launched_birth st L t b HL Hl Hb He) in Hne. lia.
Qed.

Lemma try_activate_safe t st L i m :
  ledger_ok L -> launched st L t -> tguard st i m t -> guard st L i m -> seg_safe L i m (try_activate t st).
Proof.
  intros HL Hl T G. unfold try_activate. destruct (_ || _); [by apply seg_stop|].
  destruct (due_after (k_created t) st) eqn:Ed.
  - split; [|done]. apply guard_track; [apply retire_own_shrinks|]. eapply guard_steady; [|exact G].
    eapply steady_trans; [apply restore_steady|done].
  - set (st' := st <| activating := _ |>). assert (due_after (k_created t) st' = false) as Ed' by done.
    assert (Activation (k_epoch t) (k_created t) ∈ activating st') as Ha.
    { unfold st'. simpl. apply elem_of_app. right. by apply list_elem_of_singleton. }
    assert (launched st' L t) as Hl' by done.
    assert (guard st' L i m) as G'.
    { destruct G as [G1 G2 G3 G4 G5 G6 G7 G8 G9]. split; try done.
      - intros s e Hx. destruct (G4 s e Hx) as [?|(a & Ha' & ?)]; [by left|right]. exists a. split; [|done].
        unfold st'. simpl. apply elem_of_app. by left.
      - unfold st'. simpl. intros a [Hx|Hx]%elem_of_app; [by apply G5|]. apply list_elem_of_singleton in Hx as ->.
        destruct Hl as (_ & _ & (b & Hb & He & Hc & _) & _). by exists b. }
    assert (k_created t <= seq st') as HT1 by apply T.
    assert (forall r, r ∈ pendingRemovals st' -> r_seq r <> k_created t) as HT2 by apply T.
    clearbody st'. unfold seg_safe. rewrite next_ledger_id by done.
    split; [by apply (guard_activate st' L i m Mic t); auto|]. split; [done|done|].
    intros n [= <-]. split; [lia|]. split; [by left|]. intros. lia.
Qed.

(** Outputs that are only sends do not reach the worker. *)
Lemma track_only_sends out im : only_sends out -> track out im = im.
Proof.
  intros H. induction H as [|o out (e & r & b & ->) Ho IH]; [done|]. exact IH.
Qed.

Lemma seg_prefix_safe L i m st out0 out p :
  only_sends out0 -> seg_safe L i m (st, out, p) -> seg_safe L i m (st, out0 ++ out, p).
Proof. intros Ho. unfold seg_safe. by rewrite track_app, (track_only_sends out0). Qed.

Lemma seg_wait_safe st L i m t p :
  guard st L i m -> tguard st i m t -> p <> PDigest -> match p with PActivate _ => False | _ => True end ->
  seg_safe L i m (st, [], Waiting (t <| k_pc := p |>)).
Proof.
  intros G T H1 H2. unfold seg_safe. rewrite next_ledger_id by done. split; [done|].
  eapply tguard_fields; [..|exact T]; done.
Qed.

Lemma after_install_safe v t st L i m snt :
  audience st L snt -> launched st L t -> tguard st i m t -> guard st L i m ->
  seg_safe L i m (after_install v t st).
Proof.
  intros A Hl T G. unfold after_install. destruct (negb _); [by apply seg_stop|].
  set (dl := Delivery _ _ _ _ _ _ _ _).
  set (st1 := st <| epoch := _ |> <| kid := _ |> <| keys := _ |> <| members := _ |> <| failed := _ |> <| deliveries := _ |>).
  assert (audience st1 L snt) as A1.
  { by apply install_audience. }
  pose proof (distribute_ok (k_gen t) (k_recipients t) (k_epoch t) ANothing (now v) st1 L snt A1
    (fun r => launched_covers st L t r Hl)) as Hd.
  assert (steady st st1 /\ self st1 = self st) as [S1 E1] by done. clearbody st1.
  destruct (distribute _ _ _ _ _ _) as [[st2 out] n]. destruct Hd as (C2 & A2 & Ho). cbv zeta.
  set (t1 := t <| k_dist := n |>).
  assert (steady st st2) as S2 by (eapply steady_trans; [exact S1|by apply calm_steady]).
  assert (launched st2 L t1) as Hl2.
  { apply (launched_calm st st2 L t1); [apply S2|rewrite (cm_self _ _ C2); exact E1|done]. }
  assert (guard st2 L i m) as G2 by (by eapply guard_steady).
  assert (tguard st2 i m t1) as T2.
  { eapply tguard_steady; [exact S2|]. destruct T as [T1' T2' T3']. split; done. }
  pose proof (preempted_safe t1 st2 L i m G2) as Hpre.
  pose proof (try_activate_safe t1 st2 L i m (au_ledger _ _ _ A2) Hl2 T2 G2) as Htry.
  destruct (preempted t1 st2) as [[st3 out3] p3]. destruct (try_activate t1 st2) as [[st4 out4] p4].
  assert (forall p, p <> PDigest -> match p with PActivate _ => False | _ => True end ->
            seg_safe L i m (st2, out, Waiting (t1 <| k_pc := p |>))) as Hw.
  { intros p Hp1 Hp2. rewrite <- (app_nil_r out). apply seg_prefix_safe; [done|by apply seg_wait_safe]. }
  destruct (_ || _); [destruct (removal_after _ _); by apply seg_prefix_safe|].
  destruct (_ && _); [by apply Hw|]. destruct (removal_after _ _); [by apply seg_prefix_safe|by apply Hw].
Qed.

(** The end of an activation, field by field. *)
Definition activated (t : rekey) (st : engine) : engine :=
  arm_after t (again_if_pending (removals_met t (now_active t st))).

Lemma now_active_fields t st :
  gen (now_active t st) = gen st /\ pendingRemovals (now_active t st) = pendingRemovals st /\
  seq (now_active t st) = seq st /\ activating (now_active t st) = activating st /\
  activeEpoch (now_active t st) = k_epoch t.
Proof. unfold now_active, scheduleRetry. by destruct (_ || _). Qed.

Lemma removals_met_fields t st :
  gen (removals_met t st) = gen st /\
  pendingRemovals (removals_met t st) = filter (fun r => k_created t < r_seq r) (pendingRemovals st) /\
  seq (removals_met t st) = seq st /\ paused (removals_met t st) = due_after (k_created t) st /\
  activating (removals_met t st) = activating st /\ activeEpoch (removals_met t st) = activeEpoch st.
Proof. done. Qed.

Lemma again_if_pending_steady st : steady st (again_if_pending st).
Proof. unfold again_if_pending. by destruct (bool_decide _). Qed.

Lemma arm_after_steady t st : steady st (arm_after t st).
Proof. done. Qed.

Lemma activated_fields t st :
  gen (activated t st) = gen st /\
  pendingRemovals (activated t st) = filter (fun r => k_created t < r_seq r) (pendingRemovals st) /\
  seq (activated t st) = seq st /\ paused (activated t st) = due_after (k_created t) st /\
  activating (activated t st) = activating st /\ activeEpoch (activated t st) = k_epoch t.
Proof.
  unfold activated. destruct (now_active_fields t st) as (E1 & E2 & E3 & E4 & E5).
  revert E1 E2 E3 E4 E5. generalize (now_active t st) as st1. intros st1 E1 E2 E3 E4 E5.
  destruct (removals_met_fields t st1) as (F1 & F2 & F3 & F4 & F5 & F6).
  rewrite (due_after_eq _ st st1) in F4 by done. revert F1 F2 F3 F4 F5 F6. generalize (removals_met t st1) as st2.
  intros st2 F1 F2 F3 F4 F5 F6. pose proof (again_if_pending_steady st2) as S3. revert S3.
  generalize (again_if_pending st2) as st3. intros st3 [S1 S2 S3 S4 S5 S6].
  destruct (arm_after_steady t st3) as [R1 R2 R3 R4 R5 R6].
  rewrite R1, R2, R3, R4, R5, R6, S1, S2, S3, S4, S5, S6, F1, F2, F3, F4, F5, F6, E1, E2, E3, E4, E5. done.
Qed.

Lemma after_activation_safe t st L i m :
  ledger_ok L -> launched st L t -> guard st L i m -> (forall s e, (s, e) ∈ m -> e = k_epoch t) ->
  seg_safe L i m (after_activation t st).
Proof.
  intros HL Hl G Hm. unfold after_activation.
  assert (guard (activation_over t st) L i m \/ gen st = 1) as HG.
  { destruct (decide (gen st = 1)); [by right|left]. destruct G as [G1 G2 G3 G4 G5 G6 G7 G8 G9]. split; try done.
    - intros s e Hx. exfalso. by eapply G3, G1.
    - simpl. intros a [_ Ha]%list_elem_of_filter. by apply G5. }
  assert (k_gen t = 1) as Hk by apply Hl.
  set (st1 := activation_over t st) in *. assert (gen st1 = gen st) as Eg by done. cbv zeta.
  destruct (Z.eqb_spec (k_gen t) (gen st1)) as [Hgen|Hgen]; cbn [negb].
  2:{ destruct HG as [HG|HG]; [by apply seg_stop|]. congruence. }
  clear HG. change (arm_after t (again_if_pending (removals_met t (now_active t st1)))) with (activated t st1).
  assert (due_after (k_created t) (now_active t st1) = due_after (k_created t) st) as ->.
  { transitivity (due_after (k_created t) st1); [|done]. apply due_after_eq.
    unfold now_active, scheduleRetry. by destruct (_ || _). }
  destruct (activated_fields t st1) as (E1 & E2 & E3 & E4 & E5 & E6).
  assert (k_epoch t <> 0) as Hpos.
  { destruct Hl as (_ & _ & (b & Hb & <- & _) & _). pose proof (lo_pos _ HL b Hb). lia. }
  set (out := if due_after (k_created t) st then _ else []).
  assert (Forall shrinks out) as Hout by (unfold out; destruct (due_after _ _); [apply retire_own_shrinks|constructor]).
  assert (forall s e, (s, e) ∈ (track out (i, m)).2 -> e = k_epoch t /\ due_after (k_created t) st = false) as Hm'.
  { intros s e Hx. destruct (track_shrinks out (i, m) Hout) as (_ & H2 & _). pose proof (Hm s e (H2 _ Hx)) as ->.
    split; [done|]. destruct (due_after (k_created t) st) eqn:Ed; [|done]. exfalso.
    by apply (proj2 (track_retire_own (clientID (k_self t)) (k_epoch t) (i, m) s)). }
  pose proof (guard_track st L i m out Hout G) as [G1 G2 G3 G4 G5 G6 G7 G8 G9].
  split; [|done]. change (next_ledger Finished L) with L. split; rewrite ?E1, ?E2, ?E3, ?E4, ?E5, ?E6; try done.
  - intros s e Hx. destruct (Hm' s e Hx) as [-> Hd]. left. split_and!; [done|done|]. exact Hd.
  - unfold st1. simpl. intros a [_ Ha]%list_elem_of_filter. by apply G5.
  - intros r s e b [Hr1 Hr2]%list_elem_of_filter Hd Hx Hb He. destruct (Hm' s e Hx) as [-> Hdue]. exfalso.
    pose proof (due_after_false _ _ r Hdue Hr2 Hd). lia.
  - intros r [_ Hr]%list_elem_of_filter. by apply G7.
  - intros r b [_ Hr]%list_elem_of_filter. by apply G9.
Qed.

(** Installing a key of the task's epoch. *)
Lemma guard_setkey st L i m s t :
  launched st L t -> gen st = 1 -> guard st L i m -> guard st L ((s, k_epoch t) :: i) m.
Proof.
  intros Hl Hg [G1 G2 G3 G4 G5 G6 G7 G8 G9]. split; try done.
  - intros x Hx. right. auto.
  - intros x [->|Hx]%elem_of_cons; [|auto]. destruct Hl as (_ & _ & (b & Hb & He & _) & _). by exists b.
Qed.

Lemma nth_slot_inj j n : (j <= 3)%nat -> (n <= 3)%nat -> nth_slot j = nth_slot n -> j = n.
Proof. intros Hj Hn. do 4 (destruct j as [|j]; [do 4 (destruct n as [|n]; [done|]); lia|]). lia. Qed.

Lemma slot_nth s : exists j, (j <= 3)%nat /\ nth_slot j = s.
Proof. destruct s; [exists 0%nat|exists 1%nat|exists 2%nat|exists 3%nat]; split; try done; lia. Qed.

Lemma setkey_safe st L i m t n :
  launched st L t -> (Nat.even n = true -> gen st = 1) -> guard st L i m -> tguard st i m t ->
  seg_safe L i m (st, [setkey_call t n], Waiting (t <| k_pc := PSetKey n |>)).
Proof.
  intros Hl Hg G T. unfold seg_safe. rewrite next_ledger_id by done. unfold setkey_call.
  assert (forall j, tguard st j m (t <| k_pc := PSetKey n |>)) as HT.
  { intros j. destruct T as [T1 T2 T3]. split; done. }
  destruct (Nat.even n); cbn [track fold_left track1 fst snd].
  - split; [by apply guard_setkey; auto|apply HT].
  - split; [done|apply HT].
Qed.

(** The next slot's activation. *)
Lemma next_activate_safe st L i m t n :
  ledger_ok L -> launched st L t -> guard st L i m -> tguard st i m t -> k_pc t = PActivate n -> n <> 3%nat ->
  (forall e, (nth_slot n, e) ∈ m -> e = k_epoch t) ->
  seg_safe L i m (st, [OCall (CActivate (Sender (nth_slot (S n))) (k_epoch t))],
                  Waiting (t <| k_pc := PActivate (S n) |>)).
Proof.
  intros HL Hl G T Hpc Hn Hack. destruct (tg_act _ _ _ _ T n Hpc) as (Hn3 & Hc & Hbefore).
  unfold seg_safe. rewrite next_ledger_id by done. cbn [track fold_left track1 fst snd].
  split; [by apply guard_activate|]. split; [apply T|apply T|]. intros k [= <-]. split; [lia|]. split; [exact Hc|].
  intros j e Hj Hx. change (k_epoch (t <| k_pc := PActivate (S n) |>)) with (k_epoch t).
  assert ((nth_slot j, e) ∈ m \/ e = k_epoch t) as [Hm|?]; [|by destruct (decide (j = n)) as [->|]; [apply Hack|apply (Hbefore j); [lia|]]|done].
  case_decide; [|by left]. apply elem_of_cons in Hx as [[= _ ->]|Hx]; auto.
Qed.

Lemma task_launched st L t : task_ok st L t -> k_pc t <> PKeys -> launched st L t.
Proof. intros (H1 & H2 & H3) Hp. split; [done|]. split; [done|]. by destruct (k_pc t). Qed.

Section removal.
Variable hkdf : slot -> list Z -> list Z.
Variable membershipDigest : list did -> string.

Lemma resume_safe v ok t st L i m snt :
  audience st L snt -> task st = Some t -> guard st L i m -> tguard st i m t ->
  (forall n e, k_pc t = PActivate n -> ok = true -> (nth_slot n, e) ∈ m -> e = k_epoch t) ->
  seg_safe L i m (resume hkdf membershipDigest v ok t st).
Proof.
  intros A Et G T Hack. pose proof (au_task _ _ _ A t Et) as Ht. pose proof (au_ledger _ _ _ A) as HL.
  pose proof (resume_ok hkdf membershipDigest v ok t st L snt A Et) as Hseg. revert Hseg.
  unfold resume. destruct (k_pc t) eqn:Epc; [|assert (launched st L t) as Hl by (apply task_launched; congruence)..].
  - destruct (k_head t) as [h|]; [|intros _; by apply seg_stop]. destruct ok; [|intros _; by apply seg_stop].
    by apply after_keys_safe.
  - intros _. destruct (negb ok); [by apply seg_stop|].
    destruct (Z.eqb_spec (k_gen t) (gen st)) as [Hg|]; cbn [negb]; [|by apply seg_stop]. cbv zeta.
    match goal with |- context [t <| k_members := ?x |>] => set (t1 := t <| k_members := x |>) end.
    assert (launched st L t1) as Hl1 by done.
    assert (tguard st i m t1) as T1 by (eapply tguard_fields; [..|exact T]; [done|]; unfold t1; simpl; by rewrite Epc).
    apply (setkey_safe st L i m t1 0); [done| |done|done]. intros _. destruct Hl as (Hk & _). congruence.
  - intros _. destruct (negb ok); [by apply seg_stop|]. destruct (_ =? _)%nat; [by eapply after_install_safe|].
    destruct (Nat.even i0) eqn:Ee; cbn [negb andb].
    + apply (setkey_safe st L i m t (S i0)); [done| |done|done]. intros Hs. rewrite Nat.even_succ in Hs.
      rewrite <- Nat.negb_even in Hs. by rewrite Ee in Hs.
    + destruct (Z.eqb_spec (k_gen t) (gen st)) as [Hg|]; cbn [negb]; [|by apply seg_stop].
      apply (setkey_safe st L i m t (S i0)); [done| |done|done]. intros _. destruct Hl as (Hk & _). congruence.
  - intros _. by apply try_activate_safe.
  - intros _. destruct settled as [[]|]; [by apply try_activate_safe| |by apply try_activate_safe].
    destruct (_ =? _); [by apply preempted_safe|by apply seg_stop].
  - intros _. destruct ok; cbn [negb]; [|by apply seg_stop].
    destruct (tg_act _ _ _ _ T _ Epc) as (Hn & Hc & Hb).
    destruct (Nat.eqb_spec i0 3) as [->|Hne]; [|apply next_activate_safe; eauto].
    apply after_activation_safe; [done|done|done|]. intros s e Hx. destruct (slot_nth s) as (j & Hj & <-).
    destruct (decide (j = 3%nat)) as [->|]; [by eapply Hack|]. eapply Hb; [|exact Hx]. lia.
Qed.

(** The state after a turn. *)
Definition turn_safe (L : list birth) (i m : slots_t) (r : engine * list output) : Prop :=
  let im := track r.2 (i, m) in
  guard r.1 (born r.1 L) im.1 im.2 /\ forall t, task r.1 = Some t -> tguard r.1 im.1 im.2 t.

Lemma settle_run_safe g L i m r : seg_safe L i m r -> turn_safe L i m (settle_run g r).
Proof.
  destruct r as [[st out] p]. intros (G & Hp). unfold turn_safe, settle_run. destruct p as [t| |].
  - split; [eapply guard_steady; [|exact G]; done|]. intros t' [= <-]. eapply tguard_steady; [|exact Hp]. done.
  - split; [eapply guard_steady; [|exact G]; done|done].
  - destruct (_ && _); (split; [eapply guard_steady; [|exact G]; done|done]).
Qed.

Lemma loop_run_safe v g L i m snt r : seg_ok L snt r -> seg_safe L i m r -> turn_safe L i m (loop_run v g r).
Proof.
  intros Hok H. unfold loop_run. destruct r as [[st out] p].
  destruct p; [by apply settle_run_safe| |by apply settle_run_safe].
  destruct (_ && _); [|by apply settle_run_safe]. destruct Hok as (Hg & A & _). destruct H as (G & _).
  cbn [next_ledger] in *.
  set (st1 := st <| again := false |>).
  assert (seg_ok L (snt ++ sends out) (begin_rekey v st1)) as Hb.
  { apply begin_rekey_ok; [|done]. eapply audience_same; [|exact A]. done. }
  assert (seg_safe L (track out (i, m)).1 (track out (i, m)).2 (begin_rekey v st1)) as Hs.
  { eapply begin_rekey_safe; [|exact Hb]. eapply guard_steady; [|exact G]. done. }
  clearbody st1. destruct (begin_rekey v st1) as [[st' out'] p']. apply settle_run_safe.
  unfold seg_safe in *. rewrite track_app. by rewrite <- surjective_pairing in Hs.
Qed.

Lemma repc_tguard f st i m t : repc f -> tguard st i m t -> tguard st i m (f t).
Proof.
  intros Hf T. destruct (Hf t) as [->|(p & -> & _ & _ & _ & Hp)]; [done|].
  eapply tguard_fields; [..|exact T]; [done|]. by destruct p.
Qed.

Lemma repc_id : repc (fun t => t).
Proof. intros t. by left. Qed.

Lemma born_repc f st st' L snt :
  repc f -> audience st L snt -> task st' = f <$> task st -> born st' L = L.
Proof.
  intros Hf A Et. pose proof (born_in _ _ _ A) as HL. unfold born in *. rewrite Et.
  destruct (task st) as [t|]; [|done]. simpl. destruct (Hf t) as [->|(p & -> & H1 & H2 & H3 & H4)]; [done|].
  simpl. by destruct p.
Qed.

(** A turn that leaves the fields of the invariant alone, apart from the
    place where the task waits. *)
Lemma turn_frame f L i m snt st st' out :
  repc f -> audience st L snt -> guard st L i m -> (forall t, task st = Some t -> tguard st i m t) ->
  steady st st' -> task st' = f <$> task st -> Forall shrinks out -> turn_safe L i m (st', out).
Proof.
  intros Hf A G HT S Et Ho. unfold turn_safe. simpl. rewrite (born_repc f st st' L snt) by done. split.
  - apply guard_track; [done|]. by eapply guard_steady.
  - intros t'. rewrite Et. destruct (task st) as [t|]; [|done]. intros [= <-].
    apply repc_tguard; [done|]. apply tguard_track; [done|]. eapply tguard_steady; [exact S|]. by apply HT.
Qed.

Lemma turn_calm_safe L i m snt st st' out :
  audience st L snt -> guard st L i m -> (forall t, task st = Some t -> tguard st i m t) ->
  calm st st' -> Forall shrinks out -> turn_safe L i m (st', out).
Proof.
  intros A G HT C Ho. eapply (turn_frame (fun t => t)); [apply repc_id|done..|by apply calm_steady| |done].
  rewrite (cm_task _ _ C). by destruct (task st).
Qed.

Lemma silent_shrinks out : Forall silent out -> Forall shrinks out.
Proof. intros H. eapply Forall_impl; [exact H|]. by intros [[[]|[]|[]|[]|[]]| | |]. Qed.
Lemma only_sends_shrinks out : only_sends out -> Forall shrinks out.
Proof. intros H. eapply Forall_impl; [exact H|]. by intros o (e & r & b & ->). Qed.

Lemma noteRemoval_safe st L i m :
  guard st L i m -> (forall t, task st = Some t -> tguard st i m t) ->
  guard (noteRemoval st) L i m /\ (forall t, task (noteRemoval st) = Some t -> tguard (noteRemoval st) i m t).
Proof.
  intros G HT. set (st' := noteRemoval st).
  assert (forall r, r ∈ pendingRemovals st' -> r ∈ pendingRemovals st \/ r = Removal (seq st + 1) false) as Hr.
  { unfold st'. simpl. intros r [Hr|Hr]%elem_of_app; [by left|]. right. by apply list_elem_of_singleton in Hr. }
  assert (forall c, due_after c st' = due_after c st) as Hdue.
  { intros c. unfold due_after, st'. simpl. rewrite existsb_app. simpl. by rewrite orb_false_r. }
  assert (seq st' = seq st + 1) as Hseq by done. split.
  - destruct G as [G1 G2 G3 G4 G5 G6 G7 G8 G9]. split; try done.
    + intros r s e b Hr' Hd. destruct (Hr r Hr') as [?|Hnew]; [by apply (G6 r s e b)|]. by rewrite Hnew in Hd.
    + intros r Hr'. destruct (Hr r Hr') as [Hold| ->]; [specialize (G7 r Hold)|simpl]; lia.
    + intros b Hb. specialize (G8 b Hb). lia.
    + intros r b Hr' Hb. destruct (Hr r Hr') as [Hold| ->]; [by apply G9|]. specialize (G8 b Hb). simpl. lia.
  - intros t'. unfold st' at 1. simpl. destruct (task st) as [t|] eqn:Et; [|done]. intros [= <-].
    apply repc_tguard; [apply repc_interrupt|]. destruct (HT t eq_refl) as [T1 T2 T3]. split.
    + lia.
    + intros r Hr'. destruct (Hr r Hr') as [Hold| ->]; [by apply T2|]. simpl. lia.
    + intros n Hn. rewrite Hdue. by apply T3.
Qed.

Lemma setRoster_safe v clients st L i m snt :
  audience st L snt -> guard st L i m -> (forall t, task st = Some t -> tguard st i m t) ->
  turn_safe L i m (setRoster v clients st).
Proof.
  intros A G HT.
  destruct (setRoster_cases v clients st) as [(st1 & out & -> & S & C & Ho)|(st1 & out & rs & rm & -> & S & C & Ho)].
  - eapply (turn_frame (fun t => t)); [apply repc_id|exact A|done|done| | |by apply silent_shrinks].
    + by destruct C.
    + rewrite (sm_task _ _ S). by destruct (task st).
  - assert (steady st st1 /\ task st1 = task st) as [S1 E1] by (split; [by destruct C|apply S]).
    assert (audience st1 L snt) as A1 by (by eapply audience_same).
    assert (guard st1 L i m) as G1 by (by eapply guard_steady).
    assert (forall t, task st1 = Some t -> tguard st1 i m t) as T1.
    { intros t Et. eapply tguard_steady; [exact S1|]. apply HT. congruence. }
    set (st2 := if rm then noteRemoval st1 else st1).
    assert (audience st2 L snt /\ guard st2 L i m /\ forall t, task st2 = Some t -> tguard st2 i m t) as (A2 & G2 & T2).
    { unfold st2. destruct rm; [|done]. split; [by apply noteRemoval_ok|by apply noteRemoval_safe]. }
    clearbody st2. set (st3 := st2 <| recipientKey := _ |> <| recipients := _ |>).
    assert (steady st2 st3 /\ task st3 = task st2) as [S3 E3] by done. clearbody st3.
    destruct (schedule_same (if rm then RRemoval else RMembership) st3) as [S4 C4].
    eapply (turn_frame (fun t => t) L i m snt st2); [apply repc_id|done|done|done| | |by apply silent_shrinks].
    + eapply steady_trans; [exact S3|by apply calm_steady].
    + rewrite (sm_task _ _ S4), E3. by destruct (task st2).
Qed.

(** Retiring the epochs of a list of activations. *)
Lemma track_partial c l im a s :
  a ∈ l -> (s, a_epoch a) ∉ (track (l ≫= fun a => retire_own c (a_epoch a)) im).1 /\
           (s, a_epoch a) ∉ (track (l ≫= fun a => retire_own c (a_epoch a)) im).2.
Proof.
  revert im. induction l as [|x l IH]; intros im; [by intros ?%elem_of_nil|]. cbn [mbind list_bind].
  rewrite track_app. intros [->|Hin]%elem_of_cons; [|by apply IH].
  assert (Forall shrinks (l ≫= fun a => retire_own c (a_epoch a))) as Hs.
  { clear. induction l as [|y l IH]; [constructor|]. cbn [mbind list_bind]. apply Forall_app. split; [apply retire_own_shrinks|done]. }
  destruct (track_retire_own c (a_epoch x) im s) as [H1 H2]. by apply shrinks_keeps.
Qed.

Lemma partial_shrinks c l : Forall shrinks (l ≫= fun a => retire_own c (a_epoch a)).
Proof. induction l as [|y l IH]; [constructor|]. cbn [mbind list_bind]. apply Forall_app. split; [apply retire_own_shrinks|done]. Qed.

(** What a deadline retires. *)
Definition overtaken (q : Z) (st : engine) : list activation := filter (fun a => a_created a < q) (activating st).

Lemma deadline_shape q s st :
  self st = Some s ->
  let r := deadline q st in
  gen r.1 = gen st /\ pendingRemovals r.1 = mark_due q (pendingRemovals st) /\ seq r.1 = seq st /\
  activating r.1 = filter (fun a => q <= a_created a) (activating st) /\ activeEpoch r.1 = activeEpoch st /\
  task r.1 = reach q (pendingRemovals st) <$> task st /\
  ((paused r.1 = paused st /\ (activeEpoch st = 0 \/ paused st = true) /\ r.2 = overtaken q st ≫= fun a => retire_own (clientID s) (a_epoch a)) \/
   (paused r.1 = true /\ exists o, r.2 = (overtaken q st ≫= fun a => retire_own (clientID s) (a_epoch a)) ++ o /\
      (o = [] /\ (activeEpoch st = 0 \/ paused st = true) \/ o = retire_own (clientID s) (activeEpoch st)))).
Proof.
  intros Es. unfold deadline. rewrite Es. cbv zeta.
  set (st1 := st <| pendingRemovals := _ |> <| task := _ |>).
  assert (gen st1 = gen st /\ pendingRemovals st1 = mark_due q (pendingRemovals st) /\ seq st1 = seq st /\
    activating st1 = activating st /\ activeEpoch st1 = activeEpoch st /\ paused st1 = paused st /\
    task st1 = reach q (pendingRemovals st) <$> task st) as (E1 & E2 & E3 & E4 & E5 & E6 & E7) by done.
  clearbody st1. rewrite E4. change (filter (fun a => a_created a < q) (activating st)) with (overtaken q st).
  set (st2 := st1 <| activating := _ |>).
  assert (gen st2 = gen st /\ pendingRemovals st2 = mark_due q (pendingRemovals st) /\ seq st2 = seq st /\
    activating st2 = filter (fun a => q <= a_created a) (activating st) /\ activeEpoch st2 = activeEpoch st /\
    task st2 = reach q (pendingRemovals st) <$> task st /\ paused st2 = paused st) as (F1 & F2 & F3 & F4 & F5 & F6 & F7) by done.
  clearbody st2. destruct ((activeEpoch st2 =? 0) || paused st2) eqn:Ea.
  - assert (activeEpoch st = 0 \/ paused st = true) as Hor.
    { apply orb_true_iff in Ea as [Ea%Z.eqb_eq|Ea]; [left; congruence|right; congruence]. }
    destruct (bool_decide _); cbn [andb fst snd]; split_and!; try done; [left; by split_and!|]. right.
    split; [done|]. exists []. split; [|by left]. rewrite app_nil_r.
    destruct Hor as [H0|H0]; rewrite F5, F7, H0; [done|]. by rewrite andb_false_r.
  - cbn [andb fst snd]. split_and!; try done. right. split; [done|].
    exists (retire_own (clientID s) (activeEpoch st)). split; [|by right].
    apply orb_false_iff in Ea as [-> ->]. cbn [negb andb]. by rewrite F5.
Qed.

Lemma mark_due_in q rs r : r ∈ mark_due q rs ->
  exists r0, r0 ∈ rs /\ r_seq r = r_seq r0 /\ (r_due r = true -> r_due r0 = true \/ r_seq r = q).
Proof.
  unfold mark_due. intros (r0 & -> & Hr)%list_elem_of_fmap. exists r0. split; [done|].
  destruct (Z.eqb_spec (r_seq r0) q); simpl; auto.
Qed.

Lemma deadline_safe q st L i m snt :
  audience st L snt -> guard st L i m -> (forall t, task st = Some t -> tguard st i m t) ->
  (exists r, r ∈ pendingRemovals st /\ r_seq r = q) -> turn_safe L i m (deadline q st).
Proof.
  intros A G HT (rq & Hrq & Hq). destruct (self st) as [s|] eqn:Es.
  2:{ unfold deadline. rewrite Es. by eapply turn_calm_safe. }
  destruct (deadline_shape q s st Es) as (F1 & F2 & F3 & F4 & F5 & F6 & F7).
  pose proof (deadline_audience q st L snt A) as A'. revert F1 F2 F3 F4 F5 F6 F7 A'.
  destruct (deadline q st) as [st' out]. cbn [fst snd]. intros F1 F2 F3 F4 F5 F6 F7 A'.
  assert (Forall shrinks out) as Ho.
  { destruct F7 as [(_ & _ & ->)|(_ & o & -> & [[-> _]| ->])]; rewrite ?app_nil_r;
      [apply partial_shrinks..|apply Forall_app; split; [apply partial_shrinks|apply retire_own_shrinks]]. }
  destruct (track_shrinks out (i, m) Ho) as (Hi & Hm & Hsub).
  assert (forall a, a ∈ overtaken q st -> forall s', (s', a_epoch a) ∉ (track out (i, m)).1 /\ (s', a_epoch a) ∉ (track out (i, m)).2) as Hover.
  { intros a Ha s'. destruct (track_partial (clientID s) (overtaken q st) (i, m) a s' Ha) as [H1 H2].
    destruct F7 as [(_ & _ & ->)|(_ & o & -> & Hcase)]; [done|]. rewrite track_app. apply shrinks_keeps; [|done|done].
    destruct Hcase as [[-> _]| ->]; [constructor|apply retire_own_shrinks]. }
  assert (forall s' e, (s', e) ∈ (track out (i, m)).2 -> exists a, a ∈ activating st /\ q <= a_created a /\ a_epoch a = e) as Hw.
  { intros s' e Hx. destruct (g_where _ _ _ _ G s' e (Hm _ Hx)) as [(-> & Hne & Hp)|(a & Ha & <-)].
    - exfalso. destruct F7 as [(_ & [?|?] & _)|(_ & o & -> & [[_ [?|?]]| ->])]; try congruence.
      rewrite track_app in Hx. by apply (proj2 (track_retire_own (clientID s) (activeEpoch st) (track _ (i, m)) s')) in Hx.
    - exists a. split; [done|]. split; [|done]. destruct (Z.le_gt_cases q (a_created a)); [done|]. exfalso.
      apply (proj2 (Hover a ltac:(apply list_elem_of_filter; split; [lia|done]) s')). done. }
  unfold turn_safe. cbn [fst snd]. rewrite (born_in _ _ _ A').
  pose proof (au_ledger _ _ _ A) as HL. destruct G as [G1 G2 G3 G4 G5 G6 G7 G8 G9]. split.
  - split; rewrite ?F1, ?F3, ?F4, ?F5; try done.
    + by apply Hsub.
    + intros x Hx. by apply G2, Hi.
    + intros Hg x Hx. by eapply G3, Hi.
    + intros s' e Hx. destruct (Hw s' e Hx) as (a & Ha & Hc & He). right. exists a. split; [|done].
      by apply list_elem_of_filter.
    + intros a [_ Ha]%list_elem_of_filter. by apply G5.
    + rewrite F2. intros r s' e b (r0 & Hr0 & Hs0 & Hd0)%mark_due_in Hd Hx Hb He. rewrite Hs0.
      destruct (Hd0 Hd) as [Hold|Hnew]; [by apply (G6 r0 s' e b); [done|done|apply Hm| |]|].
      destruct (Hw s' e Hx) as (a & Ha & Hc & Hae). destruct (G5 a Ha) as (b' & Hb' & He' & Hc').
      assert (b = b') as -> by (apply (ledger_unique L); [done..|congruence]).
      pose proof (G9 r0 b' Hr0 Hb'). lia.
    + rewrite F2. intros r (r0 & Hr0 & -> & _)%mark_due_in. by apply G7.
    + rewrite F2. intros r b (r0 & Hr0 & -> & _)%mark_due_in. by apply G9.
  - intros t'. rewrite F6. destruct (task st) as [t|] eqn:Et; [|done]. intros [= <-].
    apply repc_tguard; [apply repc_reach|]. destruct (HT t eq_refl) as [T1 T2 T3]. split.
    + by rewrite F3.
    + rewrite F2. intros r (r0 & Hr0 & -> & _)%mark_due_in. by apply T2.
    + intros n Hn. destruct (T3 n Hn) as (N1 & N2 & N3). split; [done|]. split; [|intros j e Hj Hx; by eapply N3, Hm].
      destruct N2 as [[Ha Hd]|Hno]; [|right; intros s' Hx; by eapply Hno, Hi].
      destruct (Z.lt_ge_cases (k_created t) q) as [Hlt|Hge].
      * right. intros s'. apply (proj1 (Hover (Activation (k_epoch t) (k_created t)) ltac:(apply list_elem_of_filter; done) s')).
      * left. rewrite F4. split; [by apply list_elem_of_filter|]. apply not_true_iff_false. intros Hd'.
        unfold due_after in Hd'. rewrite F2 in Hd'. apply existsb_exists in Hd' as (r & Hr & Hc%andb_true_iff).
        apply list_elem_of_In, mark_due_in in Hr as (r0 & Hr0 & Hs0 & Hd0). destruct Hc as [Hc1 Hc2%Z.ltb_lt].
        destruct (Hd0 Hc1) as [Hold|Hnew]; [|lia]. pose proof (due_after_false _ _ r0 Hd Hr0 Hold). lia.
Qed.

Lemma forget_all cs im :
  let out := map (fun p => OCall (CForget p)) (map Sender SLOTS ++ cs) in
  forall x, x ∉ (track out im).1 /\ x ∉ (track out im).2.
Proof.
  intros out [s e]. unfold out. rewrite map_app, track_app. apply shrinks_keeps.
  - induction cs as [|c cs IH]; [constructor|]. constructor; done.
  - unfold track. cbn. rewrite !list_elem_of_filter. destruct s; naive_solver.
  - unfold track. cbn. rewrite !list_elem_of_filter. destruct s; naive_solver.
Qed.

Lemma stop_safe st L i m snt :
  audience st L snt -> guard st L i m -> (forall t, task st = Some t -> tguard st i m t) ->
  turn_safe L i m (stop st).
Proof.
  intros A G HT. pose proof (stop_ok st L snt A) as A'. revert A'. unfold stop.
  destruct (self st) as [s|] eqn:Es; [|intros _; by eapply turn_calm_safe]. cbn [fst]. intros A'.
  unfold turn_safe. cbn [fst snd]. rewrite (born_in _ _ _ A').
  match goal with |- context [map Sender SLOTS ++ ?c] => pose proof (forget_all c (i, m)) as Hno end.
  cbn zeta in Hno. set (im := track _ (i, m)) in *. clearbody im.
  assert (forall x, x ∉ im.1) as N1 by apply Hno. assert (forall x, x ∉ im.2) as N2 by apply Hno.
  destruct G as [G1 G2 G3 G4 G5 G6 G7 G8 G9]. split.
  - split; simpl; try done; try (by intros x ?%N1); try (by intros x ?%N2); try (by intros s' e ?%N2);
      try (by intros ? ?%elem_of_nil); try (by intros ?? ?%elem_of_nil); by intros ???? ?%elem_of_nil.
  - simpl. intros t'. destruct (task st) as [t|] eqn:Et; [|done]. intros [= <-].
    apply repc_tguard; [apply repc_interrupt|]. destruct (HT t eq_refl) as [T1 T2 T3].
    split; simpl; [done|by intros ? ?%elem_of_nil|]. intros n Hn. destruct (T3 n Hn) as (N3 & _). split; [done|].
    split; [right; intros s'; apply N1|]. by intros j e _ ?%N2.
Qed.

Lemma start_safe s rnd st st' L i m snt :
  audience st L snt -> guard st L i m -> gen st = 0 -> start s rnd st = Ok st' ->
  turn_safe L i m (st', []).
Proof.
  intros A G Hg Hs. pose proof (start_ok s rnd st st' L snt A Hg Hs) as A'.
  unfold turn_safe. cbn [fst snd track fold_left]. rewrite (born_in _ _ _ A').
  unfold start in Hs. destruct (running st); [done|]. destruct (_ || _ || _ || _); [done|]. injection Hs as <-.
  match goal with |- context [schedule RStart ?x] => set (st1 := x) end.
  destruct (schedule_same RStart st1) as [S C]. destruct (au_zero _ _ _ A Hg) as (Z1 & _).
  assert (guard st1 L i m) as G1.
  { destruct G as [G1 G2 G3 G4 G5 G6 G7 G8 G9]. split; try done. unfold st1. simpl. rewrite Hg. done. }
  split; [by eapply guard_steady; [apply calm_steady|]|]. intros t. rewrite (sm_task _ _ S). unfold st1. simpl. by rewrite Z1.
Qed.

Lemma run_safe v st L i m snt :
  audience st L snt -> guard st L i m -> (forall t, task st = Some t -> tguard st i m t) ->
  turn_safe L i m (run v st).
Proof.
  intros A G HT. unfold run. destruct (task st) as [t|] eqn:Et.
  { eapply (turn_frame (fun t => t)); [apply repc_id|exact A|done|by rewrite Et|done|simpl; by rewrite Et|constructor]. }
  apply settle_run_safe. set (st1 := st <| again := false |>).
  assert (guard st1 L i m) as G1 by (eapply guard_steady; [|exact G]; done).
  destruct (decide (gen st = 0)) as [Hg|Hg].
  - assert (self st1 = None) as Hs.
    { change (self st1) with (self st). destruct (self st) as [s|] eqn:Es; [|done]. exfalso.
      assert (gen st = 1); [|lia]. apply (au_self _ _ _ A). unfold running. by rewrite Es. }
    unfold begin_rekey. rewrite Hs. by apply seg_stop.
  - assert (seg_ok L snt (begin_rekey v st1)) as Hb.
    { apply begin_rekey_ok; [|done]. apply audience_idle in A. eapply audience_same; [|exact A]. done. }
    by eapply begin_rekey_safe.
Qed.

Lemma handle_safe v ev w :
  audience (eng w) (ledger w) (sent w) -> safe w -> enabled ev (eng w) ->
  turn_safe (ledger w) (inst w) (ack ev w) (handle hkdf membershipDigest v ev (eng w)).
Proof.
  intros A [G HT] He.
  assert (match ev with ETask _ => True | _ => ack ev w = may w end) as Hack by (by destruct ev).
  destruct ev; rewrite ?Hack; cbn [handle].
  - destruct (start s rnd (eng w)) as [st'|e] eqn:E; [by eapply start_safe|]. eapply turn_calm_safe; try done. by repeat constructor.
  - by eapply stop_safe.
  - by eapply setRoster_safe.
  - eapply turn_calm_safe; try done. apply schedule_same.
  - eapply run_safe; [eapply audience_same; [|exact A]; done|eapply guard_steady; [|exact G]; done|].
    intros t Et. eapply tguard_steady; [|by apply HT]. done.
  - eapply turn_calm_safe; try done. apply schedule_same.
  - eapply run_safe; [eapply audience_same; [|exact A]; done|eapply guard_steady; [|exact G]; done|].
    intros t Et. eapply tguard_steady; [|by apply HT]. done.
  - destruct He as (r & Hr & Hq & _). eapply deadline_safe; [done|done|done|]. by exists r.
  - pose proof (retry_fires_ok id (now v) _ _ _ A) as H. destruct (retry_fires _ _ _) as [st' out].
    destruct H as (C & _ & Ho). eapply turn_calm_safe; try done. by apply only_sends_shrinks.
  - destruct He as (t & Et & Ep).
    eapply (turn_frame (fun t' => match k_pc t' with PWait _ => t' <| k_pc := PWait (Some true) |> | _ => t' end));
      [|done|done|done|done| |constructor].
    + intros t'. destruct (k_pc t') eqn:E; auto. right. exists (PWait (Some true)). by split_and!.
    + simpl. rewrite Et. simpl. by rewrite Ep.
  - unfold ack. destruct (task (eng w)) as [t|] eqn:Et.
    2:{ assert ((if ok then may w else may w) = may w) as -> by (by destruct ok).
        eapply turn_calm_safe; try done. by rewrite Et. }
    eapply loop_run_safe; [by eapply resume_ok|]. eapply resume_safe; [done|done| | |].
    + destruct ok; [|done]. destruct (k_pc t); try done.
      eapply guard_shrink; [| | |exact G]; [done|intros x [_ ?]%list_elem_of_filter; done|].
      intros x [_ Hx]%list_elem_of_filter. by apply G.
    + destruct ok; [|by apply HT]. destruct (k_pc t) eqn:Ep; try by apply HT.
      eapply tguard_shrink; [done| |by apply HT]. intros x [_ ?]%list_elem_of_filter. done.
    + intros n e Ep -> Hx. rewrite Ep in Hx. apply list_elem_of_filter in Hx as [Hx _]. by apply Hx.
  - pose proof (delivered_ok d r res _ _ _ A) as H. destruct (delivered _ _ _ _) as [st' out].
    destruct H as (C & _ & Ho). eapply turn_calm_safe; try done. by apply only_sends_shrinks.
  - destruct (dist_done_ok d (now v) _ _ _ A) as [C _]. eapply turn_calm_safe; done.
  - destruct (receive_apart v control (eng w)) as (_ & C & Ho). rewrite (surjective_pairing (receive _ _ _)).
    eapply turn_calm_safe; try done. by apply silent_shrinks.
  - destruct (install_reply_apart i ok (eng w)) as (_ & C & Ho). rewrite (surjective_pairing (install_reply _ _ _)).
    eapply turn_calm_safe; try done. by apply silent_shrinks.
  - destruct (derived_apart hkdf d ok (eng w)) as (_ & C & Ho). rewrite (surjective_pairing (derived _ _ _ _)).
    eapply turn_calm_safe; try done. by apply silent_shrinks.
  - eapply turn_calm_safe; try done. destruct (self (eng w)); [|constructor]. destruct (_ =? _); [|constructor].
    by repeat constructor.
  - eapply turn_calm_safe; try done. by repeat constructor.
Qed.
End removal.

Lemma reachable_safe hkdf dig w : reachable hkdf dig w -> safe w.
Proof.
  induction 1 as [issued accepted Hi|w v ev Hr IH He].
  - split; [|done]. split; simpl; try done; try (by intros ? ?%elem_of_nil); try (by intros ?? ?%elem_of_nil).
    by intros ???? ?%elem_of_nil.
  - pose proof (reachable_audience _ _ _ Hr) as A.
    by apply (handle_safe hkdf dig v ev w A IH He).
Qed.

(** C1: the removal bound.  In every execution, however removals, renewals,
    joins, slow or failing worker calls, partial activations and timers
    interleave: while a removal is pending past its deadline, every epoch the
    worker may be encrypting with, on any slot, was created after that removal
    (its recipients are those of the roster without the removed device). *)
Theorem removal_bound hkdf dig w r s e b :
  reachable hkdf dig w -> r ∈ pendingRemovals (eng w) -> r_due r = true ->
  (s, e) ∈ may w -> b ∈ ledger w -> b_epoch b = e -> r_seq r < b_created b.
Proof. intros Hr. apply (g_due _ _ _ _ (proj1 (reachable_safe _ _ _ Hr))). Qed.

(** ** Concrete executions *)

Definition is_wait_none (p : pc) : bool := match p with PWait None => true | _ => false end.

Definition enabledb (ev : event) (st : engine) : bool :=
  match ev with
  | EStart _ _ => gen st =? 0
  | EDebounce => debounce st
  | ERenew => renew st
  | ERunRetry => runRetry st
  | EDeadline q => existsb (fun r => (r_seq r =? q) && negb (r_due r)) (pendingRemovals st)
  | ETimer => match task st with Some t => is_wait_none (k_pc t) | None => false end
  | ETask _ => match task st with Some t => negb (is_wait_none (k_pc t)) | None => false end
  | ESenderRetire g e => bool_decide ((g, e) ∈ senderRetires st)
  | EGrace c e => bool_decide ((c, e) ∈ graces st)
  | _ => true
  end.

Lemma enabledb_ok ev st : enabledb ev st = true -> enabled ev st.
Proof.
  destruct ev; simpl; try done.
  - apply Z.eqb_eq.
  - intros (r & Hr%list_elem_of_In & [H1%Z.eqb_eq H2%negb_true_iff]%andb_true_iff)%existsb_exists. by exists r.
  - destruct (task st) as [t|]; [|done]. destruct (k_pc t) as [| | | |[]|] eqn:E; try done. by exists t.
  - destruct (task st) as [t|]; [|done]. intros H. exists t. split; [done|]. by intros E; rewrite E in H.
  - apply bool_decide_eq_true.
  - apply bool_decide_eq_true.
Qed.

Fixpoint play (hkdf : slot -> list Z -> list Z) (dig : list did -> string) (evs : list (env * event)) (w : world)
    : option world :=
  match evs with
  | [] => Some w
  | (v, ev) :: r =>
    if enabledb ev (eng w)
    then let (st, out) := handle hkdf dig v ev (eng w) in play hkdf dig r (advance st out (ack ev w) w)
    else None
  end.

Lemma play_reachable hkdf dig evs w w' :
  reachable hkdf dig w -> play hkdf dig evs w = Some w' -> reachable hkdf dig w'.
Proof.
  revert w. induction evs as [|[v ev] evs IH]; intros w Hw; simpl; [by intros [= <-]|].
  destruct (enabledb ev (eng w)) eqn:E; [|done].
  pose proof (reach_event hkdf dig w v ev Hw (enabledb_ok _ _ E)) as H.
  destruct (handle hkdf dig v ev (eng w)) as [st out]. by apply IH.
Qed.

(** Bob and Carol are in the channel; Carol leaves while a renewal waits. *)
Definition demo_hkdf (s : slot) (k : list Z) : list Z := 1 :: k.
Definition demo_digest (l : list did) : string := "digest".
Definition demo_self : identity := Self 7 "1" "alice" "laptop".
Definition demo_entry (client pri dev : string) : json :=
  JObj [("client_id", JStr client); ("unique_id", JStr pri); ("media_device", JStr dev); ("channel_id", JNum 7)]%string.
Definition demo_roster (l : list json) : list json := demo_entry "1" "alice" "laptop" :: l.
Definition bob : json := demo_entry "2" "bob" "phone".
Definition carol : json := demo_entry "3" "carol" "tablet".
Definition demo_env (n : Z) : env := Env n (repeat (repeat n 32) 4).
Definition oks (n : Z) (k : nat) : list (env * event) := repeat (demo_env n, ETask true) k.

(** Start with both, create and activate epoch 1000: a digest, eight keys, four activations. *)
Definition demo_start : list (env * event) :=
  [(demo_env 1000, ERoster (demo_roster [bob; carol])); (demo_env 1000, EStart demo_self "rnd");
   (demo_env 1000, EDebounce)] ++ oks 1000 13.

(** A renewal creates epoch 2000 and waits; Carol leaves; her removal's deadline
    passes before the next epoch is ready. *)
Definition demo_removal : list (env * event) :=
  demo_start ++
  [(demo_env 2000, ERenew); (demo_env 2000, EDebounce)] ++ oks 2000 9 ++
  [(demo_env 2000, ERoster (demo_roster [bob])); (demo_env 3000, ETask true); (demo_env 3000, EDeadline 3)].

(** The epoch created after the removal is activated meanwhile. *)
Definition demo_recovered : list (env * event) := demo_removal ++ oks 3000 11.

Definition demo_world0 : world := World (new_engine [] []) [] [] [] [].
Lemma demo_reachable evs w : play demo_hkdf demo_digest evs demo_world0 = Some w -> reachable demo_hkdf demo_digest w.
Proof. apply play_reachable. apply reach_new. by intros k. Qed.

Lemma removal_bound_witness : exists w,
  play demo_hkdf demo_digest demo_recovered demo_world0 = Some w /\
  pendingRemovals (eng w) = [Removal 3 true] /\ may w = [(Cam, 3000); (Mic, 3000)] /\
  forall b, b ∈ ledger w -> b_epoch b = 3000 -> 3 < b_created b.
Proof.
  destruct (play demo_hkdf demo_digest demo_recovered demo_world0) as [w|] eqn:E; [|vm_compute in E; discriminate].
  exists w. split; [done|].
  assert (Hp : pendingRemovals (eng w) = [Removal 3 true]) by (vm_compute in E; injection E as <-; reflexivity).
  assert (Hm : may w = [(Cam, 3000); (Mic, 3000)]) by (vm_compute in E; injection E as <-; reflexivity).
  split; [done|]. split; [done|]. intros b Hb He.
  apply (removal_bound demo_hkdf demo_digest w (Removal 3 true) Mic 3000 b).
  - by eapply demo_reachable.
  - rewrite Hp. left.
  - reflexivity.
  - rewrite Hm. right. left.
  - exact Hb.
  - exact He.
Defined.

Lemma key_audience_witness : exists w,
  play demo_hkdf demo_digest demo_recovered demo_world0 = Some w /\
  covers (ledger w) 3000 ("bob", "phone")%string /\ covers (ledger w) 1000 ("carol", "tablet")%string.
Proof.
  destruct (play demo_hkdf demo_digest demo_recovered demo_world0) as [w|] eqn:E; [|vm_compute in E; discriminate].
  exists w. split; [done|].
  assert (Hs : sent w = [("bob", "phone", 1000); ("carol", "tablet", 1000); ("bob", "phone", 2000);
                         ("carol", "tablet", 2000); ("bob", "phone", 3000)]%string)
    by (vm_compute in E; injection E as <-; reflexivity).
  split; apply (key_audience demo_hkdf demo_digest w); try (by eapply demo_reachable); apply knows_sent; rewrite Hs.
  - do 4 right. left.
  - right. left.
Defined.

Lemma epochs_never_repeat_witness : exists w,
  play demo_hkdf demo_digest demo_recovered demo_world0 = Some w /\
  map b_epoch (ledger w) = [3000; 2000; 1000] /\ ledger_ok (ledger w).
Proof.
  destruct (play demo_hkdf demo_digest demo_recovered demo_world0) as [w|] eqn:E; [|vm_compute in E; discriminate].
  exists w. split; [done|].
  assert (Hs : map b_epoch (ledger w) = [3000; 2000; 1000]) by (vm_compute in E; injection E as <-; reflexivity).
  split; [done|]. apply (epochs_never_repeat demo_hkdf demo_digest w). by eapply demo_reachable.
Defined.
