(* ===== verification/Calls.v ===== *)
(** * Private calls and their devices ([calls.js], [video.js])

    What a call holds on this device: the state of the call as the server tells it,
    a second call that rings meanwhile, and the microphone, camera and screen.

    Opening a device waits for the browser's permission prompt, so the methods that
    do so stop at an [await]: [pend] holds the requests that are not over, each with
    what goes on after it and the answer when there is one.  [devices] are the
    capture devices that the browser has opened and nobody has stopped.

    [step] is one turn of the event loop: a message of the server that reaches
    [#apply], a call from the interface, an answer to a prompt, or the rest of a
    method after its prompt.  Peer connections, signals and the record of past calls
    are not modelled; the blur of the camera draws on a canvas and opens no device.
    [self] is the account. *)

From stdpp Require Import base gmap list sets strings.
From Stdlib Require Import ZArith Lia.
From S2P Require Import Prelude.

(** ** The call, as the server tells it *)

Record participant := Participant { p_uid : string; p_state : string }.
Record call_session := Call {
  call_id : string; revision : Z; caller : string; ended_at : Z; participants : list participant
}.

Inductive call_class := Follow | Waiting | WaitingEnded | Ignore.

Definition ended (c : call_session) : bool := negb (ended_at c =? 0).

Section calls.
Variable self : string.

Definition me (c : call_session) : option participant := List.find (fun p => bool_decide (p_uid p = self)) (participants c).
Definition my_state (c : call_session) : option string := p_state <$> me c.

(** [["ringing", "accepted"].includes(state)] *)
Definition taking_part (c : call_session) : bool :=
  bool_decide (my_state c = Some "ringing"%string) || bool_decide (my_state c = Some "accepted"%string).
Definition in_progress (c : call_session) : bool := negb (ended c) && taking_part c.

(** [get active()] and [get incoming()]. *)
Definition active (call : option call_session) : bool := match call with Some c => in_progress c | None => false end.
Definition rings (c : call_session) : bool :=
  negb (ended c) && bool_decide (my_state c = Some "ringing"%string) && negb (bool_decide (caller c = self)).
Definition incoming (call : option call_session) : bool := match call with Some c => rings c | None => false end.

Definition is_call (c : call_session) (o : option call_session) : bool := match o with Some w => bool_decide (call_id w = call_id c) | None => false end.

(** [classifyCall]: what an update of [call] means while [current] may be in progress. *)
Definition classifyCall (current : option call_session) (call : call_session) (waiting : option call_session) : call_class :=
  let over := is_call call waiting && negb (rings call) in
  match current with
  | Some cur =>
    if bool_decide (call_id cur = call_id call) || negb (in_progress cur) then if over then WaitingEnded else Follow
    else if rings call then Waiting
    else if is_call call waiting then WaitingEnded else Ignore
  | None => if over then WaitingEnded else Follow
  end.

(** ** The state of a session's calls *)

(** A microphone, or none after the user refused one ([new MediaStream()]). *)
Inductive mic := Mic (m : Z) | Silent.

(** [CameraSource]: its device, and whether it is the front camera. *)
Record camera_source := Source { raw : option Z; front : bool }.

(** What goes on after a prompt: the rest of [#capture], [setCamera], [setScreen]
    (each with the epoch it started in) and [flip], with its second request. *)
Inductive purpose :=
| Capture (e : Z)
| Camera (e : Z) (facing : bool)
| Screen (e : Z)
| Flip (src : Z) (facing : bool)
| FlipBack (src : Z).

(** [answer]: none yet, refused, or a device. *)
Record prompt := Prompt { why : purpose; answer : option (option Z) }.

Record calls := Calls {
  call : option call_session; waiting : option call_session; taken : list call_session;
  wantVideo : bool; epoch : Z;
  stream : option mic; enabled : bool; muted : bool; deafened : bool;
  source : option Z; sources : gmap Z camera_source; camera : option Z; screen : option Z; facingMode : bool;
  devices : gset Z; pend : gmap Z prompt; fresh : Z
}.
#[export] Instance calls_eta : Eta calls := fun r =>
  Calls (call r) (waiting r) (taken r) (wantVideo r) (epoch r) (stream r) (enabled r) (muted r) (deafened r)
    (source r) (sources r) (camera r) (screen r) (facingMode r) (devices r) (pend r) (fresh r).

Definition new_calls : calls := Calls None None [] false 0 None true false false None ∅ None None true ∅ ∅ 0.

(** Stopping the tracks of a stream. *)
Definition stop (m : Z) (s : calls) : calls := s <| devices := devices s ∖ {[m]} |>.
Definition stop_if (o : option Z) (s : calls) : calls := match o with Some m => stop m s | None => s end.
Definition stop_mic (o : option mic) (s : calls) : calls := match o with Some (Mic m) => stop m s | _ => s end.

Definition raw_of (s : calls) (o : option Z) : option Z :=
  match o with Some src => sources s !! src ≫= raw | None => None end.

(** [CameraSource.stop] of the source that is in use. *)
Definition stop_source (s : calls) : calls :=
  match source s with
  | Some src => (stop_if (raw_of s (source s)) s) <| sources := alter (fun c => Source None (front c)) src (sources s) |>
  | None => s
  end.

(** A prompt of the browser. *)
Definition ask (w : purpose) (s : calls) : calls :=
  s <| pend := <[fresh s := Prompt w None]> (pend s) |> <| fresh := fresh s + 1 |>.

(** ** Devices *)

Definition setMuted (b : bool) (s : calls) : calls := s <| muted := b |> <| enabled := negb b && negb (deafened s) |>.
Definition setDeafened (b : bool) (s : calls) : calls := s <| deafened := b |> <| enabled := negb (muted s) && negb b |>.

Definition setCamera (on : bool) (s : calls) : calls :=
  match camera s with
  | None => if on then ask (Camera (epoch s) (facingMode s)) s else s
  | Some _ => if on then s else (stop_source s) <| source := None |> <| camera := None |>
  end.

Definition setScreen (on : bool) (s : calls) : calls :=
  match screen s with
  | None => if on then ask (Screen (epoch s)) s else s
  | Some m => if on then s else (stop m s) <| screen := None |>
  end.

(** [flip] releases the camera before it asks for the other one. *)
Definition flipCamera (s : calls) : calls :=
  match source s with
  | None => s <| facingMode := negb (facingMode s) |>
  | Some src => ask (Flip src (negb (default true (front <$> sources s !! src)))) (stop_if (raw_of s (Some src)) s)
  end.

(** [#cameraChanged] *)
Definition cameraChanged (s : calls) : calls := match source s with Some src => s <| camera := Some src |> | None => s end.

Definition capture (s : calls) : calls := match stream s with Some _ => s | None => ask (Capture (epoch s)) s end.

(** The end of [#capture]. *)
Definition with_video (s : calls) : calls :=
  if wantVideo s && bool_decide (camera s = None) then setCamera true s else s.

(** The rest of a method, with the answer to its prompt. *)
Definition after (w : purpose) (a : option Z) (s : calls) : calls :=
  match w, a with
  | Capture e, Some m =>
    if negb (e =? epoch s) || negb (bool_decide (stream s = None)) then stop m s
    else with_video (s <| stream := Some (Mic m) |> <| enabled := negb (muted s) && negb (deafened s) |>)
  | Capture e, None =>
    if negb (e =? epoch s) then s
    else with_video (s <| stream := Some (default Silent (stream s)) |>)
  | Camera e facing, Some m =>
    if negb (e =? epoch s) || negb (bool_decide (camera s = None)) then stop m s
    else s <| sources := <[fresh s := Source (Some m) facing]> (sources s) |> <| source := Some (fresh s) |> <| camera := Some (fresh s) |>
           <| fresh := fresh s + 1 |>
  | Screen e, Some m =>
    if negb (e =? epoch s) || negb (bool_decide (screen s = None)) then stop m s else s <| screen := Some m |>
  | Camera _ _, None | Screen _, None => s
  | Flip src facing, Some m =>
    cameraChanged (s <| sources := <[src := Source (Some m) facing]> (sources s) |> <| facingMode := facing |>)
  | Flip src _, None => ask (FlipBack src) s
  | FlipBack src, Some m =>
    cameraChanged (s <| sources := alter (fun c => Source (Some m) (front c)) src (sources s) |>)
  | FlipBack src, None => cameraChanged s
  end.

(** The browser answers a prompt, and the method goes on. *)
Definition answered (k : Z) (granted : bool) (s : calls) : calls :=
  match pend s !! k with
  | Some (Prompt w None) =>
    if granted then s <| pend := <[k := Prompt w (Some (Some (fresh s)))]> (pend s) |> <| devices := devices s ∪ {[fresh s]} |> <| fresh := fresh s + 1 |>
    else s <| pend := <[k := Prompt w (Some None)]> (pend s) |>
  | _ => s
  end.
Definition resumed (k : Z) (s : calls) : calls :=
  match pend s !! k with
  | Some (Prompt w (Some a)) => after w a (s <| pend := delete k (pend s) |>)
  | _ => s
  end.

(** ** Calls *)

(** [#end] *)
Definition end_ (s : calls) : calls :=
  let s := s <| epoch := epoch s + 1 |> in
  let s := (stop_source s) <| source := None |> <| camera := None |> in
  let s := (stop_mic (stream s) s) <| stream := None |> in
  let s := (stop_if (screen s) s) <| screen := None |> in
  s <| deafened := false |>.

Definition accepted_count (c : call_session) : Z :=
  Z.of_nat (length (filter (fun p => p_state p = "accepted"%string) (participants c))).

(** [#apply] from where it follows the call. *)
Definition follow (c : call_session) (s : calls) : calls :=
  if is_call c (call s) && (revision c <? default 0 (revision <$> call s)) then s
  else
    let s := s <| call := Some c |> in
    if ended c || negb (taking_part c) then end_ s
    else if negb (bool_decide (my_state c = Some "accepted"%string)) || (accepted_count c <? 2) then s
    else capture s.

Definition apply (c : call_session) (s : calls) : calls :=
  match classifyCall (if active (call s) then call s else None) c (waiting s) with
  | Waiting => if is_call c (waiting s) && (revision c <? default 0 (revision <$> waiting s)) then s else s <| waiting := Some c |>
  | WaitingEnded =>
    let s := s <| waiting := None |> in
    if active (call s) && negb (is_call c (call s)) then s else follow c s
  | Ignore => s
  | Follow => follow c s
  end.

(** [#signal] once the call is known: the sender and this account take part. *)
Definition signal (from : string) (s : calls) : calls :=
  match call s with
  | Some c =>
    if bool_decide (p_state <$> List.find (fun p => bool_decide (p_uid p = from)) (participants c) = Some "accepted"%string) &&
       bool_decide (my_state c = Some "accepted"%string)
    then capture s else s
  | None => s
  end.

(** The action that [hangUp] asks for. *)
Definition hang_up_action (c : call_session) : string :=
  if bool_decide (caller c = self) && negb (existsb (fun p => negb (bool_decide (p_uid p = self)) && bool_decide (p_state p = "accepted"%string)) (participants c))
  then "cancel" else "leave".

(** [hangUp] with the call of the server's answer; none when it was refused. *)
Definition hung_up (answer : option call_session) (s : calls) : calls :=
  match call s with
  | Some _ => match answer with Some c => apply c s | None => end_ s end
  | None => s
  end.

(** [acceptWaiting] before it hangs up, and from there to its request; [taken] are
    the calls of those that still hang up. *)
Definition takeWaiting (s : calls) : calls :=
  match waiting s with Some w => s <| waiting := None |> <| taken := taken s ++ [w] |> | None => s end.
Definition takeOver (n : nat) (s : calls) : calls :=
  match taken s !! n with Some w => s <| taken := delete n (taken s) |> <| call := Some w |> | None => s end.
Definition declineWaiting (s : calls) : calls := s <| waiting := None |>.

(** *** Turns *)

Inductive event :=
| Want (video : bool)                              (** [start], [accept]: before their request *)
| Updated (c : call_session)                       (** a call that the server sent reaches [#apply] *)
| Signalled (from : string)
| HungUp (answer : option call_session)
| TakeWaiting | TakeOver (n : nat) | DeclineWaiting
| SetMuted (b : bool) | SetDeafened (b : bool) | SetCamera (on : bool) | SetScreen (on : bool) | FlipCamera
| Answered (k : Z) (granted : bool) | Resumed (k : Z)
| Close.

Definition step (s : calls) (e : event) : calls :=
  match e with
  | Want video => s <| wantVideo := video |>
  | Updated c => apply c s
  | Signalled from => signal from s
  | HungUp answer => hung_up answer s
  | TakeWaiting => takeWaiting s
  | TakeOver n => takeOver n s
  | DeclineWaiting => declineWaiting s
  | SetMuted b => setMuted b s
  | SetDeafened b => setDeafened b s
  | SetCamera on => setCamera on s
  | SetScreen on => setScreen on s
  | FlipCamera => flipCamera s
  | Answered k granted => answered k granted s
  | Resumed k => resumed k s
  | Close => end_ s
  end.

Definition run (es : list event) (s : calls) : calls := foldl step s es.
End calls.

(** ** No device outlives its use *)

Definition is_flip (w : purpose) : bool := match w with Flip _ _ | FlipBack _ => true | _ => false end.
Definition epoch_of (w : purpose) : Z := match w with Capture e | Camera e _ | Screen e => e | _ => 0 end.

(** A device that the object holds, and one that a method has not been told of yet. *)
Definition in_use (s : calls) (m : Z) : Prop := stream s = Some (Mic m) \/ screen s = Some m \/ raw_of s (source s) = Some m.
Definition awaited (s : calls) (m : Z) : Prop := exists k w, pend s !! k = Some (Prompt w (Some (Some m))).

(** The source that [flip] works on, and whether one has not ended yet. *)
Definition flip_source (w : purpose) : option Z := match w with Flip src _ | FlipBack src => Some src | _ => None end.
Definition turning (s : calls) : bool := existsb (fun kp => is_flip (why kp.2)) (map_to_list (pend s)).

Lemma turning_spec s : turning s = true <-> exists k p, pend s !! k = Some p /\ is_flip (why p) = true.
Proof.
  unfold turning. rewrite existsb_exists. split.
  - intros ([k p] & Hin%list_elem_of_In%elem_of_map_to_list & H). eauto.
  - intros (k & p & Hk & H). exists (k, p). split; [by apply list_elem_of_In, elem_of_map_to_list|done].
Qed.

(** While the camera is being turned, the source is the one that turns, and its old device is stopped. *)
Record orderly (s : calls) : Prop := {
  camera_source_ : camera s = source s;
  source_ok src : source s = Some src -> src < fresh s /\ is_Some (sources s !! src);
  raw_old m : raw_of s (source s) = Some m -> m < fresh s;
  prompts_ok k p : pend s !! k = Some p -> k < fresh s /\ (is_flip (why p) = false -> epoch_of (why p) <= epoch s) /\ (forall m, answer p = Some (Some m) -> m < fresh s);
  turns k p : pend s !! k = Some p -> is_flip (why p) = true -> source s = flip_source (why p) /\
    (forall m, raw_of s (source s) = Some m -> m ∉ devices s) /\ (forall k' p', pend s !! k' = Some p' -> is_flip (why p') = true -> k' = k)
}.

(** What devices are open, besides one that a method is about to take. *)
Definition sound_but (a : option Z) (s : calls) : Prop :=
  (forall m, m ∈ devices s -> in_use s m \/ awaited s m \/ a = Some m) /\ orderly s.
Definition sound (s : calls) : Prop := (forall m, m ∈ devices s -> in_use s m \/ awaited s m) /\ orderly s.

Lemma flip_has_source w : is_flip w = true -> is_Some (flip_source w).
Proof. destruct w; done || by eexists. Qed.

Lemma turning_source s : orderly s -> turning s = true -> is_Some (source s).
Proof. intros Ho (k & p & Hk & H)%turning_spec. destruct (turns s Ho k p Hk H) as (-> & _). by apply flip_has_source. Qed.

(** Without a source nothing turns. *)
Lemma steady_none s s' : orderly s -> (turning s = true -> source s' = source s) -> source s' = None -> turning s = false.
Proof.
  intros Ho H Hn. destruct (turning s) eqn:E; [|done]. destruct (turning_source s Ho E) as [x Hx]. rewrite (H eq_refl), Hx in Hn. done.
Qed.

Lemma not_turning s k p : turning s = false -> pend s !! k = Some p -> is_flip (why p) = false.
Proof. intros Ht Hk. destruct (is_flip (why p)) eqn:E; [|done]. assert (turning s = true) by (apply turning_spec; eauto). congruence. Qed.

(** Less devices and more time. *)
Record later_devices (s s' : calls) : Prop := {
  ld_source : source s' = source s; ld_sources : sources s' = sources s; ld_camera : camera s' = camera s; ld_pend : pend s' = pend s;
  ld_devices : devices s' ⊆ devices s; ld_fresh : fresh s <= fresh s'; ld_epoch : epoch s <= epoch s'
}.

Lemma orderly_later s s' : later_devices s s' -> orderly s -> orderly s'.
Proof.
  intros [E1 E2 E3 E4 E5 E6 E7] [H1 H2 H3 H4 H5]. assert (Er : raw_of s' (source s') = raw_of s (source s)) by (unfold raw_of; by rewrite E1, E2).
  split; rewrite ?Er, ?E1, ?E2, ?E3, ?E4; [done|..].
  - intros src Hs. destruct (H2 src Hs). split; [lia|done].
  - intros m Hm. specialize (H3 m Hm). lia.
  - intros k p Hk. destruct (H4 k p Hk) as (? & He & Hm). split_and!; [lia|intros Hf; specialize (He Hf); lia|]. intros m Ha. specialize (Hm m Ha). lia.
  - intros k p Hk Hf. destruct (H5 k p Hk Hf) as (A & B & C). split_and!; [done| |done]. intros m Hm Hd. by apply (B m Hm), E5.
Qed.

(** The source is given up, or taken up, when nothing turns. *)
Lemma orderly_source s s' : turning s = false -> orderly s -> camera s' = source s' -> pend s' = pend s -> fresh s <= fresh s' -> epoch s' = epoch s ->
  (forall src, source s' = Some src -> src < fresh s' /\ is_Some (sources s' !! src)) -> (forall m, raw_of s' (source s') = Some m -> m < fresh s') -> orderly s'.
Proof.
  intros Ht [H1 H2 H3 H4 H5] E1 E2 E3 E4 Hs Hr. split; [done|done|done|..].
  - intros k p. rewrite E2, E4. intros Hk. destruct (H4 k p Hk) as (? & ? & Hm). split_and!; [lia|done|]. intros m Ha. specialize (Hm m Ha). lia.
  - intros k p. rewrite E2. intros Hk Hf. by rewrite (not_turning s k p Ht Hk) in Hf.
Qed.

Lemma ask_orderly w s : (is_flip w = false -> epoch_of w <= epoch s) -> orderly s ->
  (is_flip w = true -> source s = flip_source w /\ (forall m, raw_of s (source s) = Some m -> m ∉ devices s) /\ turning s = false) -> orderly (ask w s).
Proof.
  intros He [H1 H2 H3 H4 H5] Hw. unfold ask. split; cbn; [done|..].
  - intros src Hs. destruct (H2 src Hs). split; [lia|done].
  - intros m Hm. specialize (H3 m Hm). lia.
  - intros k p Hk. destruct (decide (k = fresh s)) as [->|Hne].
    + rewrite lookup_insert_eq in Hk. injection Hk as <-. cbn. split_and!; [lia|done|done].
    + rewrite lookup_insert_ne in Hk by done. destruct (H4 k p Hk) as (? & ? & Hm). split_and!; [lia|done|]. intros m Ha. specialize (Hm m Ha). lia.
  - intros k p Hk Hf. assert (Hflip : forall k p, <[fresh s:=Prompt w None]> (pend s) !! k = Some p -> is_flip (why p) = true ->
      (is_flip w = true /\ k = fresh s /\ p = Prompt w None) \/ (is_flip w = false /\ pend s !! k = Some p)).
    { intros j q Hj Hq. destruct (decide (j = fresh s)) as [->|Hne].
      - rewrite lookup_insert_eq in Hj. injection Hj as <-. by left.
      - rewrite lookup_insert_ne in Hj by done. right. split; [|done]. destruct (is_flip w) eqn:Ew; [|done]. destruct (Hw eq_refl) as (_ & _ & Ht).
        by rewrite (not_turning s j q Ht Hj) in Hq. }
    destruct (Hflip k p Hk Hf) as [(Ew & -> & ->)|(Ew & Hk')].
    + destruct (Hw Ew) as (A & B & _). split_and!; [done|done|]. intros j q Hj Hq. destruct (Hflip j q Hj Hq) as [(_ & -> & _)|(Ew' & _)]; [done|congruence].
    + destruct (H5 k p Hk' Hf) as (A & B & C). split_and!; [done|done|]. intros j q Hj Hq. destruct (Hflip j q Hj Hq) as [(Ew' & _)|(_ & Hj')]; [congruence|eauto].
Qed.

Lemma ask_owned w s : orderly s -> (forall m, m ∈ devices s -> in_use s m \/ awaited s m) -> forall m, m ∈ devices (ask w s) -> in_use (ask w s) m \/ awaited (ask w s) m.
Proof.
  intros Ho H1 m [H|(k & v & Hk)]%H1; [by left|right]. exists k, v. cbn. rewrite lookup_insert_ne; [done|].
  destruct (prompts_ok s Ho k _ Hk). lia.
Qed.

Lemma ask_sound w s : is_flip w = false -> epoch_of w <= epoch s -> sound s -> sound (ask w s).
Proof. intros Hf He [H1 H2]. split; [by apply ask_owned|]. apply ask_orderly; [by intros _|done|congruence]. Qed.

(** Dropping a device that is stopped first. *)
Lemma stop_mic_sound s : sound s -> sound ((stop_mic (stream s) s) <| stream := None |>).
Proof.
  intros [H1 H2]. split.
  - intros m Hm. assert (m ∈ devices s /\ stream s <> Some (Mic m)) as [Hd Hne].
    { revert Hm. destruct (stream s) as [[x|]|]; cbn; [|done..]. intros Hm. apply elem_of_difference in Hm as [? Hx]. split; [done|]. intros [= ->]. by apply Hx, elem_of_singleton. }
    destruct (H1 m Hd) as [[H|[H|H]]|(k & w & H)]; [done| | |]; (destruct (stream s) as [[x|]|]; [..|]); cbn; unfold in_use, awaited; cbn; eauto.
  - apply (orderly_later s); [|done]. destruct (stream s) as [[x|]|]; split; cbn; try done; set_solver.
Qed.

Lemma stop_screen_sound s : sound s -> sound ((stop_if (screen s) s) <| screen := None |>).
Proof.
  intros [H1 H2]. split.
  - intros m Hm. assert (m ∈ devices s /\ screen s <> Some m) as [Hd Hne].
    { revert Hm. destruct (screen s) as [x|]; cbn; [|done]. intros Hm. apply elem_of_difference in Hm as [? Hx]. split; [done|]. intros [= ->]. by apply Hx, elem_of_singleton. }
    destruct (H1 m Hd) as [[H|[H|H]]|(k & w & H)]; [|done| |]; (destruct (screen s) as [x|]); cbn; unfold in_use, awaited; cbn; eauto.
  - apply (orderly_later s); [|done]. destruct (screen s) as [x|]; split; cbn; try done; set_solver.
Qed.

Lemma stop_source_sound s : turning s = false -> sound s -> sound ((stop_source s) <| source := None |> <| camera := None |>).
Proof.
  intros Ht [H1 H2]. split.
  - assert (Hd : forall m, m ∈ devices ((stop_source s) <| source := None |> <| camera := None |>) -> m ∈ devices s /\ raw_of s (source s) <> Some m).
    { unfold stop_source. destruct (source s) as [src|]; [|done]. intros m. destruct (raw_of s (Some src)) as [x|]; cbn; [|done].
      intros [? Hx]%elem_of_difference. split; [done|]. intros [= ->]. by apply Hx, elem_of_singleton. }
    assert (Hs : stream (stop_source s) = stream s /\ screen (stop_source s) = screen s /\ pend (stop_source s) = pend s).
    { unfold stop_source. destruct (source s) as [src|]; [|done]. by destruct (raw_of s (Some src)). }
    destruct Hs as (E1 & E2 & E3). intros m [Hm Hne]%Hd. unfold in_use, awaited. cbn. rewrite E1, E2, E3.
    destruct (H1 m Hm) as [[H|[H|H]]|H]; [auto..|done|by right].
  - assert (Hk : pend (stop_source s) = pend s /\ fresh (stop_source s) = fresh s /\ epoch (stop_source s) = epoch s).
    { unfold stop_source. destruct (source s) as [src|]; [|done]. by destruct (raw_of s (Some src)). }
    destruct Hk as (E1 & E2 & E3). apply (orderly_source s); cbn; try done. lia.
Qed.

(** What has nothing to do with devices. *)
Record same_devices (s s' : calls) : Prop := {
  sd_stream : stream s' = stream s; sd_screen : screen s' = screen s; sd_source : source s' = source s; sd_sources : sources s' = sources s;
  sd_camera : camera s' = camera s; sd_devices : devices s' = devices s; sd_pend : pend s' = pend s; sd_fresh : fresh s' = fresh s;
  sd_epoch : epoch s <= epoch s'
}.

Lemma same_in_use s s' : same_devices s s' -> forall m, in_use s m -> in_use s' m.
Proof. intros [E1 E2 E3 E4 _ _ _ _ _] m. unfold in_use, raw_of. by rewrite E1, E2, E3, E4. Qed.

Lemma same_sound s s' : same_devices s s' -> sound s -> sound s'.
Proof.
  intros Hd [H1 H2]. pose proof (same_in_use s s' Hd) as Hu. destruct Hd as [E1 E2 E3 E4 E5 E6 E7 E8 He]. split.
  - intros m. rewrite E6. intros [H|H]%H1; [left; by apply Hu|right; unfold awaited; by rewrite E7].
  - apply (orderly_later s); [|done]. split; try done; [by rewrite E6|lia].
Qed.
Ltac same_devices := match goal with H : sound ?s |- _ => apply (same_sound s); [split; try reflexivity; cbn; lia|exact H] end.

Lemma setCamera_sound on s : sound s -> (turning s = true -> source (setCamera on s) = source s) -> sound (setCamera on s).
Proof.
  intros Hs Hk. unfold setCamera in *. destruct (camera s), on; [done| | |done].
  - apply stop_source_sound; [|done]. eapply steady_none; [apply Hs|exact Hk|done].
  - apply ask_sound; [done| |done]. cbn. lia.
Qed.
Lemma setScreen_sound on s : sound s -> sound (setScreen on s).
Proof.
  intros Hs. unfold setScreen. pose proof (stop_screen_sound s Hs) as Hd. destruct (screen s) eqn:E, on; [done|exact Hd| |done].
  apply ask_sound; [done| |done]. cbn. lia.
Qed.
Lemma capture_sound s : sound s -> sound (capture s).
Proof. intros Hs. unfold capture. destruct (stream s); [done|]. apply ask_sound; [done| |done]. cbn. lia. Qed.
Lemma with_video_sound s : sound s -> sound (with_video s).
Proof.
  intros Hs. unfold with_video. destruct (wantVideo s); [|done]. cbn [andb]. case_bool_decide as E; [|done]. apply setCamera_sound; [done|].
  intros _. unfold setCamera. by rewrite E.
Qed.

Lemma end_sound s : turning s = false -> sound s -> sound (end_ s).
Proof.
  intros Ht Hs. assert (H1 : sound (s <| epoch := epoch s + 1 |>)) by (eapply same_sound; [|exact Hs]; split; try reflexivity; cbn; lia).
  change (turning (s <| epoch := epoch s + 1 |>) = false) in Ht. pose proof (stop_screen_sound _ (stop_mic_sound _ (stop_source_sound _ Ht H1))) as H2. unfold end_. eapply same_sound; [|exact H2]. by split.
Qed.

(** The rest of a method whose prompt has just been taken off the list. *)
Lemma taken_sound k w a s : sound s -> pend s !! k = Some (Prompt w (Some a)) -> sound_but a (s <| pend := delete k (pend s) |>).
Proof.
  intros [H1 [C1 C2 C3 C4 C5]] Hk. split.
  - intros m [H|(j & v & Hj)]%H1; [by left|]. destruct (decide (j = k)) as [->|Hne].
    + right. right. congruence.
    + right. left. exists j, v. cbn. by rewrite lookup_delete_ne.
  - assert (Hd : forall j p, delete k (pend s) !! j = Some p -> pend s !! j = Some p) by (intros j p; rewrite lookup_delete; by case_decide).
    split; cbn; [done|done|done|intros j p Hj; apply (C4 j p); auto|]. intros j p Hj Hf. destruct (C5 j p (Hd _ _ Hj) Hf) as (A & B & D). split_and!; eauto.
Qed.

(** What is known when a flip goes on: it was the only one. *)
Lemma taken_flip k w a s : sound s -> pend s !! k = Some (Prompt w (Some a)) -> is_flip w = true ->
  let s := s <| pend := delete k (pend s) |> in
  source s = flip_source w /\ (forall m, raw_of s (source s) = Some m -> m ∉ devices s) /\ turning s = false.
Proof.
  intros [_ Ho] Hk Hf. destruct (turns s Ho k _ Hk Hf) as (A & B & C). split_and!; [done|done|].
  destruct (turning _) eqn:E; [|done]. apply turning_spec in E as (j & p & Hj & Hp). cbn in Hj. rewrite lookup_delete in Hj.
  case_decide as E; [done|]. specialize (C j p Hj Hp). congruence.
Qed.

Lemma stopped_sound m s : sound_but (Some m) s -> sound (stop m s).
Proof.
  intros (H1 & H2). split.
  - cbn. intros x [Hx Hne]%elem_of_difference. destruct (H1 x Hx) as [H|[H|[= ->]]]; [by left|by right|]. by apply not_elem_of_singleton in Hne.
  - apply (orderly_later s); [|done]. split; cbn; try done. set_solver.
Qed.
Lemma refused_sound s : sound_but None s -> sound s.
Proof. intros (H1 & H2). split; [|done]. intros x Hx. by destruct (H1 x Hx) as [H|[H|[=]]]; auto. Qed.

Lemma kept_sound m s s' : sound_but (Some m) s -> devices s' = devices s -> pend s' = pend s -> orderly s' ->
  (forall x, x ∈ devices s -> in_use s x -> in_use s' x) -> in_use s' m -> sound s'.
Proof.
  intros (H1 & H2) Ed Ep Ho Hu Hm. split; [|done].
  intros x. rewrite Ed. intros Hx. destruct (H1 x Hx) as [H|[H|[= ->]]]; [left; by apply Hu| |by left]. right. unfold awaited. by rewrite Ep.
Qed.

(** The camera is turned: its source has the new device. *)
Lemma turned_sound src facing m s s' : sound_but (Some m) s -> turning s = false -> source s = Some src -> (forall x, raw_of s (source s) = Some x -> x ∉ devices s) ->
  m < fresh s -> sources s' = <[src := Source (Some m) facing]> (sources s) -> source s' = source s -> camera s' = source s' -> devices s' = devices s ->
  pend s' = pend s -> stream s' = stream s -> screen s' = screen s -> fresh s' = fresh s -> epoch s' = epoch s -> sound s'.
Proof.
  intros Hs Ht Hsrc Hoff Hm E1 E2 E3 E4 E5 E6 E7 E8 E9. assert (Er : raw_of s' (source s') = Some m).
  { rewrite E2, Hsrc. unfold raw_of. by rewrite E1, lookup_insert_eq. }
  apply (kept_sound m s); [done|done|done| | |right; by right].
  - apply (orderly_source s); [done|apply Hs|done|done|lia|done| |].
    + rewrite E2. intros x Hx. destruct (source_ok s (proj2 Hs) x Hx) as [? _]. rewrite Hsrc in Hx. injection Hx as <-. rewrite E1, lookup_insert_eq. split; [lia|by eexists].
    + rewrite Er. intros x [= <-]. lia.
  - intros x Hx [H|[H|H]]; [left; congruence|right; left; congruence|]. by destruct (Hoff x H).
Qed.

Lemma after_sound k w a s : sound s -> pend s !! k = Some (Prompt w (Some a)) -> sound (after w a (s <| pend := delete k (pend s) |>)).
Proof.
  intros H0 Hk. pose proof (taken_sound k w a s H0 Hk) as Hs. pose proof (taken_flip k w a s H0 Hk) as Hflip.
  assert (Ha : forall m, a = Some m -> m < fresh s) by (intros m ->; by apply (prompts_ok s (proj2 H0) k _ Hk)).
  set (s1 := s <| pend := delete k (pend s) |>) in *. assert (Hf1 : fresh s1 = fresh s) by done. clearbody s1.
  pose proof Hs as (_ & Ho). destruct w as [e|e facing|e|src facing|src]; destruct a as [m|]; cbn [after]; try by apply refused_sound.
  - destruct (_ || _) eqn:E; [by apply stopped_sound|]. apply orb_false_iff in E as [_ E%negb_false_iff%bool_decide_eq_true]. apply with_video_sound.
    apply (kept_sound m s1); try done; [|intros x _ [H|[H|H]]; [congruence|right; by left|right; by right]|by left].
    apply (orderly_later s1); [split; cbn; done || lia|done].
  - destruct (negb _); [by apply refused_sound|]. apply with_video_sound. apply refused_sound in Hs. destruct (stream s1) as [x|] eqn:Est.
    + cbn. rewrite <- Est. eapply same_sound; [|exact Hs]. split; try reflexivity; cbn; lia.
    + destruct Hs as [H1 H2]. split; [|apply (orderly_later s1); [split; cbn; done || lia|done]]. cbn.
      intros x [[H|[H|H]]|H]%H1; [congruence|left; right; by left|left; right; by right|by right].
  - destruct (_ || _) eqn:E; [by apply stopped_sound|]. apply orb_false_iff in E as [_ E%negb_false_iff%bool_decide_eq_true].
    assert (En : source s1 = None) by (by rewrite <- (camera_source_ s1 Ho)). assert (Ht : turning s1 = false).
    { destruct (turning s1) eqn:E1; [|done]. destruct (turning_source s1 Ho E1) as [x Hx]. congruence. }
    apply (kept_sound m s1); try done.
    + apply (orderly_source s1); cbn; try done; [lia|intros src [= <-]; rewrite lookup_insert_eq; split; [lia|by eexists]|].
      rewrite lookup_insert_eq. cbn. intros x [= <-]. specialize (Ha m eq_refl). lia.
    + intros x _ [H|[H|H]]; [by left|right; by left|]. rewrite En in H. done.
    + right. right. cbn. by rewrite lookup_insert_eq.
  - destruct (_ || _) eqn:E; [by apply stopped_sound|]. apply orb_false_iff in E as [_ E%negb_false_iff%bool_decide_eq_true].
    apply (kept_sound m s1); try done; [|intros x _ [H|[H|H]]; [by left|congruence|right; by right]|right; by left].
    apply (orderly_later s1); [split; cbn; done || lia|done].
  - destruct (Hflip eq_refl) as (A & B & C). cbn [flip_source] in A. unfold cameraChanged. cbn [source set_field]. rewrite A.
    apply (turned_sound src facing m s1); try done. rewrite Hf1. by apply Ha.
  - destruct (Hflip eq_refl) as (A & B & C). apply refused_sound in Hs as [H1 _]. split; [by apply ask_owned|]. by apply ask_orderly.
  - destruct (Hflip eq_refl) as (A & B & C). cbn [flip_source] in A. unfold cameraChanged. cbn [source set_field]. rewrite A.
    destruct (source_ok s1 Ho src A) as (_ & c & Ec).
    apply (turned_sound src (front c) m s1); try done; [rewrite Hf1; by apply Ha|]. cbn. apply map_eq. intros j.
    destruct (decide (j = src)) as [->|N]; [by rewrite lookup_alter_eq, lookup_insert_eq, Ec|by rewrite lookup_alter_ne, lookup_insert_ne].
  - destruct (Hflip eq_refl) as (A & B & C). cbn [flip_source] in A. apply refused_sound in Hs. unfold cameraChanged. rewrite A.
    apply (same_sound s1); [|done]. split; try done. cbn. by rewrite (camera_source_ s1 Ho).
Qed.

Lemma answered_sound k granted s : sound s -> sound (answered k granted s).
Proof.
  intros [H1 [C1 C2 C3 C4 C5]]. unfold answered. destruct (pend s !! k) as [[w [a|]]|] eqn:Ek; [done| |done].
  assert (Hold : forall m a', (exists j v, pend s !! j = Some (Prompt v (Some (Some m)))) -> exists j v, <[k := Prompt w a']> (pend s) !! j = Some (Prompt v (Some (Some m)))).
  { intros m a' (j & v & Hj). exists j, v. rewrite lookup_insert_ne; [done|]. intros <-. congruence. }
  assert (Hp : forall a' j p, <[k := Prompt w a']> (pend s) !! j = Some p -> exists p', pend s !! j = Some p' /\ why p' = why p /\ (p' = p \/ answer p = a')).
  { intros a' j p Hj. rewrite lookup_insert in Hj. case_decide; [|exists p; auto]. subst. injection Hj as <-. eexists. split; [exact Ek|auto]. }
  assert (Ho : forall a' n ds, fresh s <= n -> (forall m, a' = Some (Some m) -> m < n) -> (forall m, m ∈ ds -> m ∈ devices s \/ m = fresh s) ->
    orderly (s <| pend := <[k := Prompt w a']> (pend s) |> <| devices := ds |> <| fresh := n |>)).
  { intros a' n ds Hn Ha Hd. split; cbn; [done|..].
    - intros src Hs. destruct (C2 src Hs). split; [lia|done].
    - intros m Hm. specialize (C3 m Hm). lia.
    - intros j p Hj. destruct (Hp a' j p Hj) as (p' & Hj' & <- & Hor). destruct (C4 j p' Hj') as (? & ? & Hm). split_and!; [lia|done|].
      intros m Hpm. destruct Hor as [<-|E]; [specialize (Hm m Hpm); lia|apply Ha; congruence].
    - intros j p Hj Hf. destruct (Hp a' j p Hj) as (p' & Hj' & Ew & _). rewrite <- Ew in *. destruct (C5 j p' Hj' Hf) as (A & B & D). split_and!; [done| |].
      + intros m Hm [Hx| ->]%Hd; [by apply (B m)|]. specialize (C3 _ Hm). lia.
      + intros j2 q Hj2 Hq. destruct (Hp a' j2 q Hj2) as (q' & Hj2' & Eq & _). rewrite <- Eq in *. eauto. }
  destruct granted; split.
  - cbn. intros m [Hm| ->%elem_of_singleton]%elem_of_union; [|right; exists k, w; cbn; by rewrite lookup_insert_eq]. destruct (H1 m Hm) as [H|H]; [by left|right; by apply Hold].
  - apply (Ho (Some (Some (fresh s))) (fresh s + 1)); [lia|intros m [= <-]; lia|]. intros m [Hm|Hm%elem_of_singleton]%elem_of_union; auto.
  - cbn. intros m Hm. destruct (H1 m Hm) as [H|H]; [by left|right; by apply Hold].
  - apply (Ho (Some None) (fresh s) (devices s)); [lia|done|auto].
Qed.

Lemma resumed_sound k s : sound s -> sound (resumed k s).
Proof. intros Hs. unfold resumed. destruct (pend s !! k) as [[w [a|]]|] eqn:Ek; [|done|done]. by eapply after_sound. Qed.

Lemma flipCamera_sound s : turning s = false -> sound s -> sound (flipCamera s).
Proof.
  intros Ht Hs. unfold flipCamera. destruct (source s) as [src|] eqn:Es; [|same_devices]. destruct Hs as [H1 Ho].
  set (s1 := stop_if (raw_of s (Some src)) s). assert (Hl : later_devices s s1) by (unfold s1; destruct (raw_of s (Some src)); split; cbn; try done; set_solver).
  assert (Hoff : forall m, raw_of s (Some src) = Some m -> m ∉ devices s1).
  { intros m Hm. unfold s1. rewrite Hm. cbn. by intros [_ ?%not_elem_of_singleton]%elem_of_difference. }
  assert (Hsame : stream s1 = stream s /\ screen s1 = screen s) by (unfold s1; by destruct (raw_of s (Some src))).
  pose proof (orderly_later s s1 Hl Ho) as Ho1. destruct Hl as [E1 E2 E3 E4 E5 E6 E7]. destruct Hsame as [E8 E9]. split.
  - apply ask_owned; [done|]. intros m Hm. destruct (H1 m (E5 m Hm)) as [[H|[H|H]]|H].
    + left. left. congruence.
    + left. right. left. congruence.
    + rewrite Es in H. by destruct (Hoff m H).
    + right. unfold awaited. by rewrite E4.
  - apply ask_orderly; [done|done|]. intros _. rewrite E1, Es. split_and!; [done| |].
    + intros m Hm. apply Hoff. unfold raw_of in *. by rewrite E2 in Hm.
    + destruct (turning s1) eqn:E; [|done]. apply turning_spec in E as (j & p & Hj & Hp). rewrite E4 in Hj. by rewrite (not_turning s j p Ht Hj) in Hp.
Qed.

(** ** Every turn *)

Section turns.
Variable self : string.
#[local] Abbreviation step := (step self).
#[local] Abbreviation run := (run self).

Definition flips (e : event) : bool := match e with FlipCamera => true | _ => false end.
Definition answers (e : event) : bool := match e with Answered _ _ | Resumed _ => true | _ => false end.

Lemma call_sound c s : sound s -> sound (s <| call := c |>).
Proof. intros Hs. same_devices. Qed.

(** Stopping devices touches nothing else. *)
Definition kept (s s' : calls) : Prop :=
  stream s' = stream s /\ screen s' = screen s /\ source s' = source s /\ epoch s' = epoch s /\ pend s' = pend s.
Lemma stop_if_kept o s : kept s (stop_if o s).
Proof. by destruct o. Qed.
Lemma stop_mic_kept o s : kept s (stop_mic o s).
Proof. by destruct o as [[]|]. Qed.
Lemma stop_source_kept s : kept s (stop_source s).
Proof. unfold stop_source. destruct (source s) as [src|] eqn:E; [|done]. destruct (stop_if_kept (raw_of s (Some src)) s) as (H1 & H2 & H3 & H4 & H5). by split_and!. Qed.

Lemma end_fields s : stream (end_ s) = None /\ screen (end_ s) = None /\ source (end_ s) = None /\ epoch (end_ s) = epoch s + 1 /\ pend (end_ s) = pend s.
Proof.
  unfold end_. set (s0 := s <| epoch := epoch s + 1 |>). destruct (stop_source_kept s0) as (_ & _ & _ & A4 & A5).
  set (s1 := (stop_source s0) <| source := None |> <| camera := None |>). destruct (stop_mic_kept (stream s1) s1) as (_ & _ & B3 & B4 & B5).
  set (s2 := (stop_mic (stream s1) s1) <| stream := None |>). destruct (stop_if_kept (screen s2) s2) as (C1 & _ & C3 & C4 & C5).
  split_and!; [exact C1|done|..].
  - transitivity (source s2); [exact C3|]. transitivity (source s1); [exact B3|done].
  - transitivity (epoch s2); [exact C4|]. transitivity (epoch s1); [exact B4|exact A4].
  - transitivity (pend s2); [exact C5|]. transitivity (pend s1); [exact B5|exact A5].
Qed.

Lemma end_source s : source (end_ s) = None.
Proof. apply end_fields. Qed.

(** A turn that leaves the source alone while the camera is being turned. *)
Definition gentle (s s' : calls) : Prop := turning s = true -> source s' = source s.

Lemma end_gentle s : sound s -> gentle s (end_ s) -> sound (end_ s).
Proof. intros Hs Hg. apply end_sound; [|done]. eapply steady_none; [apply Hs|exact Hg|apply end_source]. Qed.

Lemma follow_sound c s : sound s -> gentle s (follow self c s) -> sound (follow self c s).
Proof.
  intros Hs. unfold follow. destruct (_ && _); [done|]. destruct (_ || _); [intros Hg; by apply end_gentle; [apply call_sound|]|].
  intros _. destruct (_ || _); [by apply call_sound|by apply capture_sound, call_sound].
Qed.

Lemma apply_sound c s : sound s -> gentle s (apply self c s) -> sound (apply self c s).
Proof.
  intros Hs. unfold apply. destruct (classifyCall _ _ _ _); [by apply follow_sound| | |done].
  - intros _. destruct (_ && _); [done|same_devices].
  - cbv zeta. destruct (_ && _); intros Hg; [same_devices|]. apply follow_sound; [same_devices|exact Hg].
Qed.

(** While the camera is being turned it is neither turned again nor given up. *)
Definition lets_turn (s : calls) (e : event) : bool := negb (turning s) || (negb (flips e) && bool_decide (source (step s e) = source s)).

Lemma turn_sound s e : lets_turn s e = true -> sound s -> sound (step s e).
Proof.
  intros He Hs. assert (Hg : gentle s (step s e)).
  { intros Ht. unfold lets_turn in He. rewrite Ht in He. by apply andb_true_iff in He as [_ He%bool_decide_eq_true]. }
  destruct e as [video|c|from|o| |n| |b|b|on|on| |k g|k|]; cbn [Calls.step] in *; try done.
  - same_devices.
  - by apply apply_sound.
  - unfold signal. destruct (call s); [|done]. destruct (_ && _); [by apply capture_sound|done].
  - unfold hung_up in *. destruct (call s); [|done]. destruct o; [by apply apply_sound|by apply end_gentle].
  - unfold takeWaiting. destruct (waiting s); [same_devices|done].
  - unfold takeOver. destruct (taken s !! n); [same_devices|done].
  - same_devices.
  - same_devices.
  - same_devices.
  - by apply setCamera_sound.
  - by apply setScreen_sound.
  - apply flipCamera_sound; [|done]. unfold lets_turn in He. cbn [flips negb andb orb] in He. by rewrite orb_false_r in He; apply negb_true_iff in He.
  - by apply answered_sound.
  - by apply resumed_sound.
  - by apply end_gentle.
Qed.

Lemma start_sound : sound new_calls.
Proof. split; [by intros m ?%elem_of_empty|]. split; cbn; try done; by intros k p ?%lookup_empty_Some. Qed.

(** Every flip of a run is let finish before the camera is touched again and before the run ends. *)
Fixpoint flips_finish (s : calls) (es : list event) : bool :=
  match es with
  | [] => negb (turning s)
  | e :: es => lets_turn s e && flips_finish (step s e) es
  end.

Lemma turns_sound es s : flips_finish s es = true -> sound s -> sound (run es s) /\ turning (run es s) = false.
Proof.
  revert s. induction es as [|e es IH]; intros s Hf Hs; cbn [flips_finish] in Hf; [split; [done|by apply negb_true_iff]|].
  apply andb_true_iff in Hf as [He Hf]. apply IH; [done|by apply turn_sound].
Qed.

(** *** After the end of a call *)

(** Nothing is held, and every prompt belongs to the past. *)
Record over (s : calls) : Prop := {
  over_sound : sound s;
  over_stream : stream s = None; over_screen : screen s = None; over_source : source s = None;
  over_prompts k p : pend s !! k = Some p -> epoch_of (why p) < epoch s
}.

Lemma end_over s : turning s = false -> sound s -> over (end_ s).
Proof.
  intros Ht Hs. destruct (end_fields s) as (E1 & E2 & E3 & E4 & E5). split; [by apply end_sound|done..|].
  intros k p. rewrite E4, E5. intros Hk. destruct (prompts_ok s (proj2 Hs) k p Hk) as (_ & He & _). specialize (He (not_turning s k p Ht Hk)). lia.
Qed.

Lemma over_still s : over s -> turning s = false.
Proof. intros Ho. eapply steady_none; [apply (proj2 (over_sound s Ho))| |apply (over_source s Ho)]. done. Qed.

Lemma over_answer s e : answers e = true -> over s -> over (step s e).
Proof.
  intros He Ho. pose proof (over_still s Ho) as Ht. assert (Hsound : sound (step s e)) by (apply turn_sound; [unfold lets_turn; by rewrite Ht|apply Ho]).
  destruct Ho as [Hs O1 O2 O3 O4].
  destruct e as [video|c|from|o| |n| |b|b|on|on| |k g|k|]; try done; cbn [Calls.step] in *.
  - unfold answered in *. destruct (pend s !! k) as [[w [a|]]|] eqn:Ek; [by split| |by split].
    assert (Hp : forall a' j p, <[k := Prompt w a']> (pend s) !! j = Some p -> epoch_of (why p) < epoch s).
    { intros a' j p Hj. rewrite lookup_insert in Hj. case_decide; [|by apply (O4 j)]. injection Hj as <-. apply (O4 k _ Ek). }
    destruct g; (split; [exact Hsound|done..|]); intros j p; apply Hp.
  - unfold resumed in *. destruct (pend s !! k) as [[w [a|]]|] eqn:Ek; [|by split..].
    pose proof (O4 k _ Ek) as He'. pose proof (not_turning s k _ Ht Ek) as Hf. cbn [why] in *.
    assert (Hsame : forall s', same_devices (s <| pend := delete k (pend s) |>) s' \/ (exists m, s' = stop m (s <| pend := delete k (pend s) |>)) -> epoch s' = epoch s -> sound s' -> over s').
    { intros s' Hor Ee Hs'. split; [done|..].
      all: destruct Hor as [[E1 E2 E3 E4 E5 E6 E7 E8 _]|[m ->]]; cbn in *; try congruence.
      - intros j p. rewrite E7, Ee. cbn. intros Hj. apply (O4 j). rewrite lookup_delete in Hj. by case_decide.
      - intros j p Hj. apply (O4 j). rewrite lookup_delete in Hj. by case_decide. }
    apply Hsame; [..|exact Hsound].
    all: destruct w as [e|e facing|e|src facing|src]; try done; cbn [epoch_of] in He'; destruct a as [m|]; cbn [after]; cbn; rewrite ?(proj2 (Z.eqb_neq e (epoch s))) by lia; cbn [negb orb]; try done.
    all: first [right; by eexists | left; split; try reflexivity; cbn; lia].
Qed.

Lemma over_run es s : Forall (fun e => answers e = true) es -> over s -> over (run es s).
Proof. intros Hes. revert s. induction Hes as [|e es He _ IH]; intros s Hs; [done|]. by apply IH, over_answer. Qed.

(** C9: a call's devices are released with the call.  Whatever happened before, and
    whatever prompts of the browser were open when a call ended and are answered
    later: afterwards no microphone, camera or screen is open but those that the user
    granted in this moment, and when the methods that asked have gone on there is
    none.  The exception is a camera that was being turned when it was touched again or
    the call ended ([flips_finish] excludes just this; [flip_leaves_camera_on] shows
    that it then stays on). *)
Theorem devices_released es1 es2 :
  flips_finish new_calls es1 = true -> Forall (fun e => answers e = true) es2 ->
  let s := run es2 (end_ (run es1 new_calls)) in
  (forall m, m ∈ devices s -> awaited s m) /\ (pend s = ∅ -> devices s = ∅).
Proof.
  intros H1 H2 s. destruct (turns_sound es1 new_calls H1 start_sound) as [Hs Ht]. assert (Ho : over s) by (by apply over_run, end_over).
  assert (Hd : forall m, m ∈ devices s -> awaited s m).
  { destruct Ho as [[Hw _] O1 O2 O3 _]. intros m Hm. destruct (Hw m Hm) as [[H|[H|H]]|H]; [congruence|congruence|by rewrite O3 in H|done]. }
  split; [exact Hd|]. intros Hp. apply elem_of_equiv_empty_L. intros m (k & w & Hk)%Hd. by rewrite Hp, lookup_empty in Hk.
Qed.

(** A call in progress is not interrupted: an update of any other call changes at
    most which call waits. *)
Theorem active_call_kept cur c s :
  call s = Some cur -> in_progress self cur = true -> call_id c <> call_id cur ->
  apply self c s = s <| waiting := waiting (apply self c s) |>.
Proof.
  intros Hc Hp Hne. unfold apply. rewrite Hc. cbn [active]. rewrite Hp. unfold classifyCall. rewrite Hp, bool_decide_false by done. cbn [negb orb].
  assert (Hid : is_call c (call s) = false) by (rewrite Hc; cbn; by apply bool_decide_eq_false_2).
  assert (Hsame : s = s <| waiting := waiting s |>) by by destruct s.
  destruct (rings self c); [destruct (_ && _); [exact Hsame|done]|]. destruct (is_call c (waiting s)); [|exact Hsame].
  cbv zeta. change (active self (call (s <| waiting := None |>))) with (active self (call s)). change (call (s <| waiting := None |>)) with (call s).
  rewrite Hid, Hc. cbn [active]. by rewrite Hp.
Qed.

(** *** A muted microphone *)

Definition mute_ok (s : calls) : Prop := forall m, stream s = Some (Mic m) -> enabled s = negb (muted s) && negb (deafened s).
Definition same_mute (s s' : calls) : Prop := stream s' = stream s /\ enabled s' = enabled s /\ muted s' = muted s /\ deafened s' = deafened s.

Lemma same_mute_ok s s' : same_mute s s' -> mute_ok s -> mute_ok s'.
Proof. intros (E1 & E2 & E3 & E4) H m. rewrite E1, E2, E3, E4. apply H. Qed.

Lemma stop_source_mute s : same_mute s (stop_source s).
Proof. unfold stop_source. destruct (source s); [|done]. by destruct (raw_of s _). Qed.
Lemma setCamera_mute on s : same_mute s (setCamera on s).
Proof. unfold setCamera. destruct (camera s), on; try done. destruct (stop_source_mute s) as (H1 & H2 & H3 & H4). by split_and!. Qed.
Lemma with_video_mute s : same_mute s (with_video s).
Proof. unfold with_video. destruct (_ && _); [apply setCamera_mute|done]. Qed.
Lemma capture_mute s : same_mute s (capture s).
Proof. unfold capture. by destruct (stream s). Qed.

Lemma after_mute w a s : mute_ok s -> mute_ok (after w a s).
Proof.
  intros Hs. destruct w as [e|e facing|e|src facing|src]; destruct a as [m|]; cbn [after]; try done; try (destruct (_ || _); done).
  - destruct (_ || _); [done|]. eapply same_mute_ok; [apply with_video_mute|]. done.
  - destruct (negb _); [done|]. eapply same_mute_ok; [apply with_video_mute|]. intros m. cbn. destruct (stream s) as [x|] eqn:E; [|done]. cbn. intros [= ->]. by apply Hs in E.
  - eapply same_mute_ok; [|exact Hs]. unfold cameraChanged. cbn. by destruct (source s).
  - eapply same_mute_ok; [|exact Hs]. unfold cameraChanged. cbn. by destruct (source s).
  - eapply same_mute_ok; [|exact Hs]. unfold cameraChanged. by destruct (source s).
Qed.

Lemma end_mute s : mute_ok (end_ s).
Proof. intros m. by rewrite (proj1 (end_fields s)). Qed.

Lemma follow_mute c s : mute_ok s -> mute_ok (follow self c s).
Proof.
  intros Hs. unfold follow. destruct (_ && _); [done|]. destruct (_ || _); [apply end_mute|]. destruct (_ || _); [done|].
  eapply same_mute_ok; [apply capture_mute|done].
Qed.

Lemma apply_mute c s : mute_ok s -> mute_ok (apply self c s).
Proof.
  intros Hs. unfold apply. destruct (classifyCall _ _ _ _); [by apply follow_mute|by destruct (_ && _)| |done].
  cbv zeta. destruct (_ && _); [done|]. by apply follow_mute.
Qed.

(** What is heard: however the calls, the prompts and the switches of the interface
    interleave, the microphone of a call sends exactly when the user has neither
    muted nor deafened this device. *)
Theorem muted_is_silent es m : let s := run es new_calls in stream s = Some (Mic m) -> enabled s = negb (muted s) && negb (deafened s).
Proof.
  cbv zeta. revert m. change (mute_ok (run es new_calls)). assert (H0 : mute_ok new_calls) by done. revert H0. generalize new_calls.
  induction es as [|e es IH]; intros s Hs; [done|]. apply IH.
  destruct e as [video|c|from|o| |n| |b|b|on|on| |k g|k|]; cbn [Calls.step]; try done.
  - by apply apply_mute.
  - unfold signal. destruct (call s); [|done]. destruct (_ && _); [|done]. eapply same_mute_ok; [apply capture_mute|done].
  - unfold hung_up. destruct (call s); [|done]. destruct o; [by apply apply_mute|apply end_mute].
  - unfold takeWaiting. by destruct (waiting s).
  - unfold takeOver. by destruct (taken s !! n).
  - eapply same_mute_ok; [apply setCamera_mute|done].
  - unfold setScreen. by destruct (screen s), on.
  - unfold flipCamera. destruct (source s); [|done]. unfold stop_if. by destruct (raw_of s _).
  - unfold answered. destruct (pend s !! k) as [[w [a|]]|]; [done| |done]. by destruct g.
  - unfold resumed. destruct (pend s !! k) as [[w [a|]]|]; [|done..]. by apply after_mute.
  - apply end_mute.
Qed.

(** A refused hang-up does not end the call.  When the request to leave fails, the
    devices are released but the call stays as the server tells it: the next signal
    of the other side asks for the microphone again, without the user. *)
Theorem refused_hang_up c from s :
  call s = Some c -> my_state self c = Some "accepted"%string ->
  p_state <$> List.find (fun p => bool_decide (p_uid p = from)) (participants c) = Some "accepted"%string ->
  let s' := step s (HungUp None) in
  stream s' = None /\ pend (step s' (Signalled from)) = <[fresh s' := Prompt (Capture (epoch s')) None]> (pend s').
Proof.
  intros Hc Hme Hfrom. cbn [Calls.step]. unfold hung_up. rewrite Hc. destruct (end_fields s) as (E1 & _). split; [exact E1|].
  assert (Hcall : call (end_ s) = Some c).
  { unfold end_, stop_source, stop_if, stop_mic. rewrite <- Hc. set (s0 := s <| epoch := _ |>). change (source s) with (source s0).
    repeat match goal with |- context [match ?x with _ => _ end] => destruct x end; reflexivity. }
  unfold signal. rewrite Hcall, Hme, Hfrom, !bool_decide_true by done. cbn [andb]. unfold capture. by rewrite E1.
Qed.
End turns.

(** ** Concrete calls *)
Module CallDemo.
Definition talk : call_session := Call "c1" 2 "bob" 0 [Participant "alice" "accepted"; Participant "bob" "accepted"].

(** Alice turns her camera, hangs up while the prompt for her screen is open, and then grants it. *)
Definition turned : list event := [SetCamera true; Answered 2 true; Resumed 2; FlipCamera; Answered 5 true; Resumed 5].
Definition before : list event := [Updated talk; Answered 0 true; Resumed 0] ++ turned ++ [SetScreen true].
Definition later : list event := [Answered 7 true; Resumed 7].

Example open_before : devices (run "alice" before new_calls) = {[1; 6]}.
Proof. vm_compute. reflexivity. Qed.

Lemma devices_released_witness : devices (run "alice" later (end_ (run "alice" before new_calls))) = ∅.
Proof.
  refine (proj2 (devices_released "alice" before later _ _) _); [vm_compute; reflexivity|repeat constructor|vm_compute; reflexivity].
Defined.

Lemma active_call_kept_witness :
  apply "alice" (Call "c2" 1 "carol" 0 [Participant "alice" "ringing"; Participant "carol" "accepted"]) (run "alice" before new_calls) =
  run "alice" before new_calls <| waiting := Some (Call "c2" 1 "carol" 0 [Participant "alice" "ringing"; Participant "carol" "accepted"]) |>.
Proof.
  exact (active_call_kept "alice" talk (Call "c2" 1 "carol" 0 [Participant "alice" "ringing"; Participant "carol" "accepted"])
    (run "alice" before new_calls) eq_refl eq_refl ltac:(done)).
Defined.

Lemma refused_hang_up_witness : stream (step "alice" (run "alice" before new_calls) (HungUp None)) = None.
Proof. exact (proj1 (refused_hang_up "alice" talk "bob" (run "alice" before new_calls) eq_refl eq_refl eq_refl)). Defined.

(** The microphone is open again after the hang-up. *)
Example reopened : devices (run "alice" [HungUp None; Signalled "bob"; Answered 8 true; Resumed 8; Answered 7 false; Resumed 7] (run "alice" before new_calls)) = {[9]}.
Proof. vm_compute. reflexivity. Qed.

(** A camera that is being turned when the call ends stays on: no prompt is left, the
    object holds nothing, and a device is open. *)
Lemma flip_leaves_camera_on :
  let s := run "alice" [SetCamera true; Answered 0 true; Resumed 0; FlipCamera; Close; Answered 3 true; Resumed 3] new_calls in
  pend s = ∅ /\ source s = None /\ camera s = None /\ devices s = {[4]}.
Proof. vm_compute. by split_and!. Qed.
End CallDemo.
