(* ===== verification/Groups.v ===== *)
(** * Private groups and the view of their messages ([groups.js])

    A group's view mixes three kinds of messages: pages of the server's history,
    own messages that were not accepted yet, and records of the message consumer,
    which are authenticated.  The view is a state machine with one function per
    synchronous turn:

    - [store]: a page of the server's history, opened message by message ([open_],
      [senderKey]);
    - [local_], [showQueued], [discardLocal], [send_starts], [send_done]: own drafts;
    - [project]: a record of the consumer, an original or an accepted change, with the
      changes that wait for their original ([waiting]);
    - [showQuarantined]: placeholders of copies that cannot be opened;
    - [delete_done], [forget], [typing_event], [seen_event].

    Messages are JSON objects, as those of the server are.  [byOrder] is no consistent
    order (history goes by number, the others by time), so the language leaves the
    outcome of [sort] open: [arrange] is any function that permutes its list.  The
    sealed sending of sessions without the consumer ([send] after its first line) is not
    modelled: a signed-in session refuses it. *)

From stdpp Require Import base list strings.
From Stdlib Require Import ZArith Lia.
From S2P Require Import Prelude Json Text Crypto OlmReset DeviceTrust.

Definition RATCHET_PROTOCOL : string := "noxa-olm-v1".
Definition MAX_WAITING_CHANGES : Z := 200.
Definition GROUP_TYPING_TTL_MS : Z := 4500.

(** ** Messages *)

Definition has_flag (k : string) (m : json) : bool := truthy (field k m).
Definition is_local (m : json) : bool := has_flag "local" m.

(** The numeric ID of the server's history. *)
Definition legacyID (m : json) : bool :=
  negb (is_local m) && match field "id" m with Some (JNum n) => 0 <? n | _ => false end.

(** [{...m, ...fields}]. *)
Definition assign (fields : list (string * json)) (m : json) : json := foldl (fun m kv => jset kv.1 kv.2 m) m fields.

Definition erased : list (string * json) := [("text", JStr ""); ("deleted", JBool true)]%string.
Definition rewritten (text : json) : list (string * json) := [("text", text); ("edited", JBool true)]%string.

(** ** The state *)

Record groups := Groups {
  list_ : list (string * json);                          (* the groups of the account *)
  messages : list (string * list json);                  (* by group, oldest first *)
  typing : list (string * list (option json * (json * Z)));   (* by group and member: nickname and end *)
  waiting : list (option json * json)                    (* changes whose original is not shown yet *)
}.
#[global] Instance eta_groups : Eta groups := fun g => Groups (list_ g) (messages g) (typing g) (waiting g).
Definition no_groups : groups := Groups [] [] [] [].

Definition messages_of (id : string) (g : groups) : list json := default [] (OMap.get id (messages g)).
Definition set_messages (id : string) (l : list json) (g : groups) : groups := g <| messages := OMap.set id l (messages g) |>.

(** The first element that passes is replaced, or removed. *)
Fixpoint update_first {A} (p : A -> bool) (f : A -> A) (l : list A) : list A :=
  match l with [] => [] | x :: r => if p x then f x :: r else x :: update_first p f r end.
Fixpoint remove_first {A} (p : A -> bool) (l : list A) : list A :=
  match l with [] => [] | x :: r => if p x then r else x :: remove_first p r end.

(** ** Opening a message of the history *)

(** [trust] and devices of [dm.devicesOf]; [None] when it fails. *)
Definition entry : Type := string * list trusted_device.
Definition named_device (m : json) (d : trusted_device) : bool :=
  is_text (field "sender_device_id" m) (deviceID d) && is_text (field "sender_device_key" m) (x25519B64 d).

(** [fresh] answers the refreshed request, [historical] is [historicalSenderKey]'s answer. *)
Definition senderKey (known fresh : option entry) (historical : option (list Z)) (m : json) : option (list Z) :=
  match known with
  | Some (trust, devices) =>
    if negb (bool_decide (trust = "ok"%string)) then None
    else if has_flag "sender_device_id" m then
      match List.find (named_device m) devices with
      | Some d => Some (d_x25519 d)
      | None => match fresh with
                | Some (_, devices') => match List.find (named_device m) devices' with Some d => Some (d_x25519 d) | None => historical end
                | None => historical
                end
      end
    else d_x25519 <$> List.find d_first devices
  | None => None
  end.

Section view.
Variable nc : nacl.
Variable xSecret : list Z.
Variable uid : string.
Variable arrange : list json -> list json.

Definition mine (m : json) : bool := is_text (field "from_unique_id" m) uid.

(** A body that is no base 64 throws; the page is then not stored. *)
Definition open_ (conversationID : string) (key : option (list Z)) (m : json) : option json :=
  if negb (has_flag "body" m) then Some (assign erased m)
  else if negb (has_flag "device_envelope" m) then Some (jset "text" JNull m)
  else
    match match key with Some k => openDM nc (String_of (field "body" m)) k xSecret | None => Some None end with
    | None => None
    | Some plain =>
      let text :=
        match plain with
        | Some s => match parse (bytes_of s) with
                    | Some p =>
                      if truthy (Some p) && is_text (field "conversation_id" p) conversationID && strict_eq (field "epoch" p) (field "epoch" m) &&
                         strict_eq (field "reference" p) (field "reference" m) && strict_eq (field "from" p) (field "from_unique_id" m) &&
                         is_text (field "to" p) uid
                      then match field "text" p with Some (JStr t) => JStr t | _ => JNull end else JNull
                    | None => JNull
                    end
        | None => JNull
        end in
      Some (jset "text" text m)
    end.

(** ** The view of one group *)

(** An accepted message replaces its local copy (same own reference). *)
Definition put (id : string) (l : list json) (g : groups) : groups :=
  let accepted := map (field "reference") (filter (fun m => negb (is_local m) && mine m = true) l) in
  set_messages id (arrange (filter (fun m => negb (is_local m) || negb (existsb (strict_eq (field "reference" m)) accepted) = true) l)) g.

(** What only an authenticated change may set is taken off a record of the server. *)
Definition stripped : list string := ["protocol"; "key"; "local"; "pending"; "queued"; "failed"; "edited"; "deleted"; "unattributed"]%string.
Definition strip_state (m : json) : json := foldr jdel m stripped.
Definition legacy_page (page : list json) : list json := map strip_state (filter (fun m => safe_positive (field "id" m) = true) page).

(** A member whose message arrived is done typing it. *)
Definition stop_typing (id : string) (opened : list json) (g : groups) : groups :=
  match OMap.get id (typing g) with
  | None => g
  | Some t => g <| typing := OMap.set id (foldl (fun t m => OMap.del (field "from_unique_id" m) t) t opened) (typing g) |>
  end.

(** [#store]; [keys i] is what [#senderKey] found for the [i]-th message. *)
Definition store (id : string) (page : list json) (keys : nat -> option (list Z)) (g : groups) : option groups :=
  opened ← mapM (fun m => m) (imap (fun i m => open_ id (keys i) m) (legacy_page page));
  let byID := foldl (fun t m => OMap.set (field "id" m) m t) [] (messages_of id g ++ opened) in
  Some (put id (OMap.values byID) (stop_typing id opened g)).

(** ** Own messages *)

Definition same_reference (reference : string) (m : json) : bool := is_text (field "reference" m) reference.
Definition local_id (reference : string) : string := "local:" +:+ reference.

Definition local_ (id reference : string) (text : option json) (sentAt : json) (state : list (string * json)) (g : groups) : groups :=
  let prior := messages_of id g in
  let committed := List.find (fun m => is_local m && has_flag "key" m && same_reference reference m && mine m) prior in
  let text := match committed with Some m => field "text" m | None => text end in
  let l := filter (fun m => negb (is_local m && same_reference reference m) = true) prior in
  if existsb (fun m => negb (is_local m) && same_reference reference m && mine m) l then g else
  let draft := obj [("id", Some (JStr (local_id reference))); ("local", Some (JBool true)); ("reference", Some (JStr reference));
    ("conversation_id", Some (JStr id)); ("from_unique_id", Some (JStr uid)); ("text", text); ("created_at", Some sentAt);
    ("pending", Some (JBool false)); ("queued", Some (JBool false)); ("failed", Some (JBool false))]%string in
  let draft := assign state draft in
  let draft := match committed with Some m => put_opt "protocol" (field "protocol" m) (put_opt "key" (field "key" m) draft) | None => draft end in
  put id (l ++ [draft]) g.

Definition showQueued (id reference : string) (text sentAt : json) (expired : bool) (g : groups) : groups :=
  local_ id reference (Some text) sentAt [("queued", JBool (negb expired)); ("failed", JBool expired)]%string g.

Definition discardLocal (id reference : string) (g : groups) : groups :=
  put id (filter (fun m => negb (is_local m && same_reference reference m) = true) (messages_of id g)) g.

(** [#sendRatchet] up to its call of the consumer, and what it does with the answer. *)
Definition ratchet_mark : string * json := ("protocol"%string, JStr RATCHET_PROTOCOL).
Definition committed_record (reference : string) (m : json) : bool :=
  same_reference reference m && mine m && is_text (field "protocol" m) RATCHET_PROTOCOL && (has_flag "key" m || negb (is_local m)).
Definition send_starts (id text reference : string) (sentAt : json) (g : groups) : groups :=
  if existsb (committed_record reference) (messages_of id g) then g
  else local_ id reference (Some (JStr text)) sentAt [("pending"%string, JBool true); ratchet_mark] g.

Inductive send_answer :=
| Sent                                                            (* the consumer returned *)
| CommittedAccepted (record : json) (owned : bool)                (* an error after an accepted receipt *)
| Failed (record : option json) (retryable : bool).               (* an error, with the committed record if there is one *)

Definition text_or_empty (record : json) : json :=
  match field "body" record with Some b => match field "text" b with Some JNull | None => JStr "" | Some t => t end | None => JStr "" end.
Definition send_done (id text reference : string) (sentAt : json) (a : send_answer) (g : groups) : groups :=
  match a with
  | Sent => g
  | CommittedAccepted record owned =>
    if owned then local_ id reference (Some (text_or_empty record)) (if has_flag "sentAt" record then default JNull (field "sentAt" record) else sentAt) [ratchet_mark] g
    else g
  | Failed record retryable =>
    let at_ := match record with Some r => if has_flag "sentAt" r then default JNull (field "sentAt" r) else sentAt | None => sentAt end in
    local_ id reference (Some match record with Some r => text_or_empty r | None => JStr text end) at_
      [("queued"%string, JBool retryable); ("failed"%string, JBool (negb retryable)); ratchet_mark] g
  end.

(** ** Records of the consumer *)

Definition of_group (record : json) : option string :=
  if is_text (field "scope" record) "group" && is_text (field "protocol" record) RATCHET_PROTOCOL then
    match field "conversation" record with Some (JStr c) => if bool_decide (c = ""%string) then None else Some c | _ => None end
  else None.

Definition body_text (record : json) : json :=
  match field "body" record with Some b => match field "text" b with Some (JStr t) => JStr t | _ => JStr "" end | None => JStr "" end.

Definition is_change (record : json) : bool := is_text (field "purpose" record) "delete" || is_text (field "purpose" record) "edit".

(** An own change shows only once it is accepted. *)
Definition unconfirmed (record : json) : bool :=
  has_flag "self" record && has_flag "status" record && negb (is_text (field "status" record) "accepted").

Definition wait (record : json) (g : groups) : groups :=
  let k := field "referenceKey" record in
  let w := OMap.set k record (OMap.del k (waiting g)) in
  g <| waiting := if MAX_WAITING_CHANGES <? OMap.size w then match w with [] => [] | (oldest, _) :: _ => OMap.del oldest w end else w |>.

Definition change_fields (record : json) : list (string * json) :=
  if is_text (field "purpose" record) "delete" then erased else rewritten (body_text record).
Definition change (id : string) (record : json) (g : groups) : groups :=
  if unconfirmed record then g else
  let l := messages_of id g in
  let target := fun m => strict_eq (field "key" m) (field "referenceKey" record) in
  if existsb target l then put id (update_first target (assign (change_fields record)) l) g else wait record g.

Definition record_id (record : json) : string := "olm:" +:+ String_of (field "key" record).
Definition own_record (record : json) : bool := is_text (field "sender" record) uid.
Definition record_status (record : json) : option json :=
  if has_flag "status" record then field "status" record else Some (JStr (if own_record record then "" else "received")).

(** The message a record shows; one that is not accepted yet is local. *)
Definition undelivered (record : json) : list (string * json) :=
  if own_record record && is_text (record_status record) "pending" then [("local", JBool true); ("pending", JBool true)]%string
  else if own_record record && (is_text (record_status record) "rejected" || is_text (record_status record) "aborted")
  then [("local", JBool true); ("failed", JBool true)]%string else [].
Definition record_message (id : string) (record : json) : json :=
  assign (undelivered record)
    (obj [("id", Some (JStr (record_id record))); ("key", field "key" record); ("protocol", Some (JStr RATCHET_PROTOCOL));
          ("reference", field "logicalID" record); ("conversation_id", Some (JStr id)); ("from_unique_id", field "sender" record);
          ("text", Some (body_text record)); ("created_at", field "sentAt" record);
          ("transport", Some (if has_flag "transport" record then default JNull (field "transport" record) else JObj []))]%string).

(** Later authenticated changes are kept over a replayed original. *)
Definition keep_changes (prior message : json) : json :=
  if has_flag "deleted" prior then assign erased message
  else if has_flag "edited" prior then jset "edited" (JBool true) (put_opt "text" (field "text" prior) message) else message.

Definition has_id (i : string) (m : json) : bool := is_text (field "id" m) i.
Definition without_placeholder (record : json) (l : list json) : list json :=
  match field "transport" record with
  | Some t => if has_flag "delivery" t then remove_first (has_id ("quarantine:" +:+ String_of (field "delivery" t))) l else l
  | None => l
  end.

Definition show (id : string) (record : json) (g : groups) : groups :=
  let l := without_placeholder record (messages_of id g) in
  let message := record_message id record in
  let reference := field "logicalID" record in
  let stale := fun m => is_local m && strict_eq (field "reference" m) reference && mine m in
  let others := fun l => filter (fun m => negb (stale m) = true) l in
  put id
    (if existsb (has_id (record_id record)) l
     then others (update_first (has_id (record_id record)) (fun prior => keep_changes prior message) l)
     else others l ++ [if is_local message then jset "id" (JStr (local_id (String_of reference))) message else message]) g.

Definition project (record : json) (g : groups) : groups :=
  match of_group record with
  | None => g
  | Some id =>
    if is_change record then change id record g
    else
      let g := show id record g in
      match OMap.get (field "key" record) (waiting g) with
      | None => g
      | Some c =>
        let g := g <| waiting := OMap.del (field "key" record) (waiting g) |> in
        match of_group c with Some id' => change id' c g | None => g end
      end
  end.

(** ** Placeholders of copies that cannot be opened *)

Definition quarantine_id (q : json) : string := "quarantine:" +:+ String_of (field "id" q).
Definition placed (g : groups) (q : json) : option string :=
  if is_text (field "scope" q) "group" then
    match field "conversation" q with
    | Some (JStr c) => if negb (bool_decide (c = ""%string)) &&
        (OMap.has c (list_ g) || existsb (fun m => negb (has_flag "quarantined" m)) (messages_of c g)) then Some c else None
    | _ => None
    end
  else None.

Definition placeholder (now : Z) (c : string) (q : json) : json :=
  obj [("id", Some (JStr (quarantine_id q))); ("protocol", Some (JStr RATCHET_PROTOCOL)); ("conversation_id", Some (JStr c)); ("from_unique_id", Some (JStr ""));
       ("unattributed", Some (JBool true)); ("text", Some JNull); ("quarantined", field "code" q);
       ("created_at", if has_flag "seenAt" q then field "seenAt" q else Some (JNum now))]%string.

Definition quarantine_one (now : Z) (s : groups * list string) (q : json) : groups * list string :=
  let (g, current) := s in
  match placed g q with
  | None => s
  | Some c =>
    let current := quarantine_id q :: current in
    if existsb (fun m => has_id (quarantine_id q) m && has_flag "unattributed" m) (messages_of c g) then (g, current)
    else (put c (messages_of c g ++ [placeholder now c q]) g, current)
  end.

Definition still_placed (current : list string) (m : json) : bool :=
  negb (has_flag "quarantined" m) || (existsb (fun i => has_id i m) current && has_flag "unattributed" m).
Definition sweep (current : list string) (g : groups) (id : string) : groups :=
  let keep := filter (fun m => still_placed current m = true) (messages_of id g) in
  if (length keep =? length (messages_of id g))%nat then g else put id keep g.

Definition showQuarantined (now : Z) (l : list json) (g : groups) : groups :=
  let (g, current) := foldl (quarantine_one now) (g, []) l in
  foldl (sweep current) g (OMap.keys (messages g)).

(** ** The other turns *)

(** [deleteMessage]: the record of the group that the ID names decides the way. *)
Definition deletes_by_consumer (id : string) (messageID : json) (g : groups) : bool :=
  match List.find (fun m => bool_decide (field "id" m = Some messageID)) (messages_of id g) with
  | Some m => is_text (field "protocol" m) RATCHET_PROTOCOL
  | None => false
  end.
(** What follows the server's answer to [delete_message]. *)
Definition delete_done (id : string) (messageID : json) (g : groups) : groups :=
  match OMap.get id (messages g) with
  | Some l => set_messages id (update_first (fun m => bool_decide (field "id" m = Some messageID)) (assign erased) l) g
  | None => g
  end.

Definition forget (id : string) (g : groups) : groups :=
  Groups (OMap.del id (list_ g)) (OMap.del id (messages g)) (OMap.del id (typing g)) (waiting g).

(** [refresh], and [get] for a group that the server still has. *)
Definition listed (result : list json) (g : groups) : groups :=
  g <| list_ := foldl (fun t c => match field "id" c with Some (JStr id) => OMap.set id c t | _ => t end) [] result |>.
Definition got (id : string) (conversation : json) (g : groups) : groups := g <| list_ := OMap.set id conversation (list_ g) |>.

Definition typing_event (now : Z) (id : string) (data : json) (g : groups) : groups :=
  let u := field "unique_id" data in
  if negb (truthy u) || is_text u uid then g else
  let t := default [] (OMap.get id (typing g)) in
  g <| typing := OMap.set id (OMap.set u (if has_flag "nickname" data then default JNull (field "nickname" data) else JStr "", now + GROUP_TYPING_TTL_MS) t) (typing g) |>.

(** Nicknames of the members typing in a group now. *)
Definition typingNames (id : string) (now : Z) (g : groups) : list json :=
  map (fun e : option json * (json * Z) => e.2.1) (filter (fun e : option json * (json * Z) => (now <? e.2.2) = true) (default [] (OMap.get id (typing g)))).

(** One turn of the event loop that concerns the view.  The user deletes a message that is
    shown; one that the consumer does not own is deleted through the server, and
    [deleting] holds those whose answer has not come. *)
Record world := World { view : groups; deleting : list (string * json) }.
Definition start : world := World no_groups [].

Inductive event :=
| Store (id : string) (page : list json) (keys : nat -> option (list Z))
| ShowQueued (id reference : string) (text sentAt : json) (expired : bool)
| DiscardLocal (id reference : string)
| SendStarts (id text reference : string) (sentAt : json)
| SendDone (id text reference : string) (sentAt : json) (a : send_answer)
| Project (record : json)
| ShowQuarantined (now : Z) (l : list json)
| DeleteStarts (id : string) (messageID : json)
| DeleteDone (id : string) (messageID : json)
| Forget (id : string)
| Listed (result : list json)
| Got (id : string) (conversation : json)
| Typing (now : Z) (id : string) (data : json).

Definition shown (id : string) (messageID : json) (g : groups) : bool :=
  existsb (fun m => bool_decide (field "id" m = Some messageID)) (messages_of id g).

Definition view_turn (e : event) (g : groups) : groups :=
  match e with
  | Store id page keys => default g (store id page keys g)
  | ShowQueued id reference text sentAt expired => showQueued id reference text sentAt expired g
  | DiscardLocal id reference => discardLocal id reference g
  | SendStarts id text reference sentAt => send_starts id text reference sentAt g
  | SendDone id text reference sentAt a => send_done id text reference sentAt a g
  | Project record => project record g
  | ShowQuarantined now l => showQuarantined now l g
  | DeleteStarts _ _ => g
  | DeleteDone id messageID => delete_done id messageID g
  | Forget id => forget id g
  | Listed result => listed result g
  | Got id conversation => got id conversation g
  | Typing now id data => typing_event now id data g
  end.

Definition turn (w : world) (e : event) : world :=
  match e with
  | DeleteStarts id messageID =>
    if shown id messageID (view w) && negb (deletes_by_consumer id messageID (view w)) then World (view w) ((id, messageID) :: deleting w) else w
  | DeleteDone id messageID => if bool_decide ((id, messageID) ∈ deleting w) then World (view_turn e (view w)) (deleting w) else w
  | _ => World (view_turn e (view w)) (deleting w)
  end.
Definition play (es : list event) : world := foldl turn start es.
End view.

(** ** Requests that change a group *)

(** A refusal of the server with its text and the delay it asks for, or any other error. *)
Inductive refusal := Refused (message : string) (retryAfterMS : option Z) | Other (e : string).
Definition retries (attempt : nat) (e : refusal) : bool :=
  match e with
  | Refused m (Some ms) => bool_decide (m = "group rate limit exceeded"%string) && (0 <? ms) && (ms <=? 30000) && (attempt <? 3)%nat
  | _ => false
  end.

(** [#mutate]: what was sent, and how it ended ([None]: nothing to do).  [build n] is the
    request of the attempt [n] (an abort is its error) and [answer n] the server's reply;
    [more] is how often the loop may still go round. *)
Fixpoint mutate (build : nat -> result refusal (option json)) (answer : nat -> json -> result refusal json) (more attempt : nat)
    : list json * result refusal (option json) :=
  match build attempt with
  | Err e => ([], Err e)
  | Ok None => ([], Ok None)
  | Ok (Some request) =>
    match answer attempt request with
    | Ok r => ([request], Ok (Some r))
    | Err e =>
      match more with
      | S more => if retries attempt e then let (sent, r) := mutate build answer more (S attempt) in (request :: sent, r) else ([request], Err e)
      | O => ([request], Err e)
      end
    end
  end.

(** The loop of the source has no bound but the attempt in [retries]: three rounds more
    are all that it takes, and only a rate rejection is followed by another request. *)
Lemma mutate_bounded build answer more : (3 <= more)%nat ->
  mutate build answer more 0 = mutate build answer 3 0 /\ (length (mutate build answer more 0).1 <= 4)%nat.
Proof.
  assert (Hgo : forall more attempt, (3 <= more + attempt)%nat -> (attempt <= 3)%nat ->
    mutate build answer more attempt = mutate build answer (3 - attempt) attempt /\ (length (mutate build answer more attempt).1 <= 4 - attempt)%nat).
  { induction more0 as [|more0 IH]; intros attempt H1 H2.
    - assert (attempt = 3%nat) as -> by lia. split; [done|]. cbn [mutate]. destruct (build 3%nat) as [[r|]|e]; [destruct (answer 3%nat r)| |]; cbn; lia.
    - cbn [mutate]. destruct (decide (attempt = 3%nat)) as [->|N].
      + cbn [mutate Nat.sub]. assert (Hr : forall e, retries 3 e = false) by (intros [m [ms|]|e]; cbn [retries]; [|done..]; by rewrite andb_false_r).
        destruct (build 3%nat) as [[r|]|e]; [destruct (answer 3%nat r); rewrite ?Hr| |]; cbn; split; (done || lia).
      + replace (3 - attempt)%nat with (S (3 - S attempt)) by lia. cbn [mutate]. destruct (IH (S attempt) ltac:(lia) ltac:(lia)) as [E L]. rewrite E in L |- *.
        destruct (build attempt) as [[r|]|e]; [destruct (answer attempt r) as [?|e]; [|destruct (retries attempt e)]| |]; try (split; [done|cbn; lia]).
        destruct (mutate build answer (3 - S attempt) (S attempt)) as [sent x]. split; [done|]. cbn in *. lia. }
  intros H. destruct (Hgo more 0%nat ltac:(lia) ltac:(lia)) as [E L]. split; [exact E|lia].
Qed.

(** ** Lists of messages *)

Lemma field_assign k fields m : field k (assign fields m) = match assoc_last k fields with Some v => Some v | None => field k m end.
Proof.
  unfold assign. revert m. induction fields as [|[k' v] fields IH]; intros m; [done|]. cbn [foldl assoc_last]. rewrite IH. cbn [fst snd].
  destruct (assoc_last k fields) eqn:E; [done|]. destruct (decide (k = k')) as [->|N]; [apply field_jset_eq|by apply field_jset_ne].
Qed.

(** The messages of the consumer carry its IDs. *)
Definition olm_id (m : json) : option string :=
  match field "id" m with Some (JStr s) => if String.prefix "olm:" s then Some s else None | _ => None end.
Lemma olm_id_field m i : olm_id m = Some i -> field "id" m = Some (JStr i).
Proof. unfold olm_id. destruct (field "id" m) as [[| | |s| |]|]; try done. destruct (String.prefix "olm:" s); [|done]. by intros [= <-]. Qed.
Lemma olm_id_same m m' : field "id" m = field "id" m' -> olm_id m = olm_id m'.
Proof. unfold olm_id. by intros ->. Qed.
Lemma has_id_spec i m : has_id i m = true <-> field "id" m = Some (JStr i).
Proof. apply bool_decide_eq_true. Qed.

Section lists.
Context {A : Type} (p : A -> bool) (f : A -> A).

Lemma update_first_elem x l : x ∈ update_first p f l -> x ∈ l \/ exists y, y ∈ l /\ p y = true /\ x = f y.
Proof.
  induction l as [|y l IH]; cbn [update_first]; [by intros ?%elem_of_nil|]. destruct (p y) eqn:E; rewrite !elem_of_cons.
  - intros [->|?]; [right; exists y; by rewrite elem_of_cons; auto|auto].
  - intros [->|[?|(z & ? & ? & ->)]%IH]; [auto|auto|]. right. exists z. rewrite elem_of_cons. auto.
Qed.

Lemma update_first_keeps x l : x ∈ l -> p x = false -> x ∈ update_first p f l.
Proof.
  induction l as [|y l IH]; cbn [update_first]; [by intros ?%elem_of_nil|]. intros [->|Hx]%elem_of_cons Hp; [rewrite Hp; by left|].
  destruct (p y); [by right|right; auto].
Qed.

Lemma update_first_omap {B} (g : A -> option B) l : (forall x, p x = true -> g (f x) = g x) -> omap g (update_first p f l) = omap g l.
Proof.
  intros Hg. induction l as [|y l IH]; [done|]. cbn [update_first]. destruct (p y) eqn:E; cbn [omap list_omap]; [by rewrite Hg|by rewrite IH].
Qed.

Lemma remove_first_sub l : remove_first p l `sublist_of` l.
Proof. induction l as [|y l IH]; cbn [remove_first]; [done|]. destruct (p y); [by apply sublist_cons|by apply sublist_skip]. Qed.

Lemma remove_first_keeps x l : x ∈ l -> p x = false -> x ∈ remove_first p l.
Proof.
  induction l as [|y l IH]; cbn [remove_first]; [by intros ?%elem_of_nil|]. intros [->|Hx]%elem_of_cons Hp; [rewrite Hp; by left|].
  destruct (p y); [done|right; auto].
Qed.
End lists.

Lemma strict_eq_eq a b : strict_eq a b = true -> a = b.
Proof. destruct a as [a|], b as [b|]; cbn [strict_eq]; [|done..]. intros [_ E%bool_decide_eq_true]%andb_true_iff. by subst. Qed.

Lemma omap_sub {A B} (g : A -> option B) l l' : l `sublist_of` l' -> omap g l `sublist_of` omap g l'.
Proof. induction 1 as [|x l l' _ IH|x l l' _ IH]; cbn [omap list_omap]; [done|destruct (g x); [by apply sublist_skip|done]|destruct (g x); [by apply sublist_cons|done]]. Qed.

(** ** What the view may show as the consumer's *)

(** [c] is a projected change of the message [i] of the group. *)
Record change_of (P : list json) (id i : string) (c : json) : Prop := {
  ch_projected : c ∈ P;
  ch_group : of_group c = Some id;
  ch_change : is_change c = true;
  ch_accepted : unconfirmed c = false;
  ch_target : i = "olm:" +:+ String_of (field "referenceKey" c)
}.
Record original_of (P : list json) (id i : string) (r : json) : Prop := {
  or_projected : r ∈ P;
  or_group : of_group r = Some id;
  or_message : is_change r = false;
  or_id : record_id r = i
}.

(** The text is that of a projected original or of an accepted change. *)
Definition written (P : list json) (id i : string) (t : json) : Prop :=
  (exists r, original_of P id i r /\ t = body_text r) \/
  exists c, change_of P id i c /\ t = (if is_text (field "purpose" c) "delete" then JStr "" else body_text c).

Record from_consumer (P : list json) (id i : string) (m : json) : Prop := {
  fc_local : is_local m = false;
  fc_quarantined : has_flag "quarantined" m = false;
  fc_protocol : field "protocol" m = Some (JStr RATCHET_PROTOCOL);
  fc_key : i = "olm:" +:+ String_of (field "key" m);
  fc_original : exists r, original_of P id i r /\ field "from_unique_id" m = field "sender" r /\ field "reference" m = field "logicalID" r;
  fc_text : exists t, field "text" m = Some t /\ written P id i t;
  fc_edited : has_flag "edited" m = true -> exists c, change_of P id i c /\ is_text (field "purpose" c) "edit" = true;
  fc_deleted : has_flag "deleted" m = true -> exists c, change_of P id i c /\ is_text (field "purpose" c) "delete" = true
}.

Record good (P : list json) (id : string) (l : list json) : Prop := {
  good_once : NoDup (omap olm_id l);
  good_sound : forall m i, m ∈ l -> olm_id m = Some i -> from_consumer P id i m
}.

Lemma good_sub P id l l' : l `sublist_of` l' -> good P id l' -> good P id l.
Proof.
  intros Hs [Hn Hg]. split; [eapply sublist_NoDup; [exact Hn|by apply omap_sub]|]. intros m i Hm. apply Hg. by eapply elem_of_sublist.
Qed.

Lemma good_perm P id l l' : l ≡ₚ l' -> good P id l' -> good P id l.
Proof. intros Hp [Hn Hg]. split; [by rewrite (omap_Permutation _ _ _ Hp)|]. intros m i. rewrite Hp. apply Hg. Qed.

Lemma good_filter P id (Q : json -> Prop) `{!forall x, Decision (Q x)} l : good P id l -> good P id (filter Q l).
Proof. apply good_sub, sublist_filter. Qed.

Lemma good_app P id l l' : good P id l -> omap olm_id l' = [] -> good P id (l ++ l').
Proof.
  intros [Hn Hg] He. split; [by rewrite omap_app, He, app_nil_r|]. intros m i [Hm|Hm]%elem_of_app Hi; [by apply Hg|].
  exfalso. assert (Hx : i ∈ omap olm_id l') by (apply list_elem_of_omap; eauto). rewrite He in Hx. by apply elem_of_nil in Hx.
Qed.

Lemma good_nil P id : good P id [].
Proof. split; [constructor|by intros m i ?%elem_of_nil]. Qed.

Lemma good_update P id p f l : (forall m, m ∈ l -> p m = true -> olm_id (f m) = olm_id m) ->
  (forall m i, m ∈ l -> p m = true -> olm_id m = Some i -> from_consumer P id i m -> from_consumer P id i (f m)) ->
  good P id l -> good P id (update_first p f l).
Proof.
  intros Hid Hf [Hn Hg]. split.
  - replace (omap olm_id (update_first p f l)) with (omap olm_id l); [done|]. clear Hn Hg Hf. induction l as [|y l IH]; [done|]. cbn [update_first omap list_omap].
    destruct (p y) eqn:E; cbn [omap list_omap]; [by rewrite Hid by (done || by left)|]. rewrite IH; [done|]. intros m Hm. apply Hid. by right.
  - intros m i [Hm|(y & Hy & Ep & ->)]%update_first_elem Hi; [by apply Hg|]. rewrite Hid in Hi by done. by apply Hf, Hg.
Qed.

Lemma good_snoc P id l m i : good P id l -> olm_id m = Some i -> i ∉ omap olm_id l -> from_consumer P id i m -> good P id (l ++ [m]).
Proof.
  intros [Hn Hg] Hi Hx Hm. split.
  - rewrite omap_app. cbn [omap list_omap]. rewrite Hi. apply NoDup_app. split; [done|]. split; [intros x Hx' E%list_elem_of_singleton; by subst|apply NoDup_singleton].
  - intros m' i' [Hm'|E%list_elem_of_singleton]%elem_of_app Hi'; [by apply Hg|]. subst m'. rewrite Hi in Hi'. by injection Hi' as <-.
Qed.

Lemma written_grow P P' id i t : P ⊆ P' -> written P id i t -> written P' id i t.
Proof. intros HP [(r & [] & ->)|(c & [] & ->)]; [left; exists r|right; exists c]; split; auto; split; auto. Qed.
Lemma from_consumer_grow P P' id i m : P ⊆ P' -> from_consumer P id i m -> from_consumer P' id i m.
Proof.
  intros HP [H1 H2 H3 H4 (r & [] & H5) (t & Ht & Hw) H7 H8]. split; try done.
  - exists r. split; [split; auto|done].
  - exists t. split; [done|by eapply written_grow].
  - intros (c & [] & Hc)%H7. exists c. split; [split; auto|done].
  - intros (c & [] & Hc)%H8. exists c. split; [split; auto|done].
Qed.
Lemma good_grow P P' id l : P ⊆ P' -> good P id l -> good P' id l.
Proof. intros HP [Hn Hg]. split; [done|]. intros m i Hm Hi. eapply from_consumer_grow; [done|]. by apply Hg. Qed.

(** ** The page of the history, by ID *)

Definition by_id (l : list json) : list (option json * json) := foldl (fun t m => OMap.set (field "id" m) m t) [] l.

Lemma by_id_snoc l m : by_id (l ++ [m]) = OMap.set (field "id" m) m (by_id l).
Proof. unfold by_id. by rewrite foldl_app. Qed.

Lemma by_id_wf l : OMap.wf (by_id l).
Proof. induction l as [|m l IH] using rev_ind; [constructor|]. rewrite by_id_snoc. by apply OMap.wf_set. Qed.

Lemma by_id_get l k v : OMap.get k (by_id l) = Some v -> k = field "id" v /\ v ∈ l.
Proof.
  induction l as [|m l IH] using rev_ind; [done|]. rewrite by_id_snoc, OMap.get_set, elem_of_app. case_decide as E.
  - intros [= <-]. split; [done|]. right. by left.
  - intros [-> ?]%IH. auto.
Qed.

Lemma by_id_has l m : m ∈ l -> is_Some (OMap.get (field "id" m) (by_id l)).
Proof.
  induction l as [|x l IH] using rev_ind; [by intros ?%elem_of_nil|]. rewrite by_id_snoc, OMap.get_set, elem_of_app. intros [Hm|Hm%list_elem_of_singleton].
  - case_decide; [eauto|by apply IH].
  - subst x. rewrite decide_True; eauto.
Qed.

Lemma by_id_values l v : v ∈ OMap.values (by_id l) <-> OMap.get (field "id" v) (by_id l) = Some v.
Proof.
  unfold OMap.values. split.
  - intros ([k v'] & -> & Hkv)%list_elem_of_fmap. cbn [snd]. assert (Hg : OMap.get k (by_id l) = Some v') by (apply OMap.elem_get; [apply by_id_wf|done]).
    by destruct (by_id_get _ _ _ Hg) as [<- _].
  - intros Hg%OMap.get_elem. apply list_elem_of_fmap. by eexists (_, v).
Qed.

Lemma keyed_once (t : list (option json * json)) : NoDup t.*1 -> (forall k v, (k, v) ∈ t -> k = field "id" v) -> NoDup (omap olm_id t.*2).
Proof.
  induction t as [|[k v] t IH]; intros Hn Hk; [constructor|]. cbn [fmap list_fmap omap list_omap fst snd] in *. apply NoDup_cons in Hn as [Hx Hn].
  assert (IHt : NoDup (omap olm_id t.*2)) by (apply IH; [done|intros ???; apply Hk; by right]). destruct (olm_id v) as [i|] eqn:Ei; [|done]. apply NoDup_cons. split; [|done].
  intros (v' & ([k' v''] & -> & Hv')%list_elem_of_fmap & Ei')%list_elem_of_omap. cbn [snd] in Ei'. apply Hx, list_elem_of_fmap. exists (k', v''). split; [|done].
  cbn [fst]. rewrite (Hk k v), (Hk k' v'') by (done || by (left || right)). by rewrite (olm_id_field _ _ Ei), (olm_id_field _ _ Ei').
Qed.

Lemma by_id_good P id l : (forall m i, m ∈ l -> olm_id m = Some i -> from_consumer P id i m) -> good P id (OMap.values (by_id l)).
Proof.
  intros Hl. split.
  - apply keyed_once; [apply by_id_wf|]. intros k v Hkv. eapply by_id_get, OMap.elem_get; [apply by_id_wf|exact Hkv].
  - intros m i Hm. apply Hl. apply by_id_values in Hm. eapply by_id_get, Hm.
Qed.

Lemma omap_once {A B} (g : A -> option B) l x y i : NoDup (omap g l) -> x ∈ l -> y ∈ l -> g x = Some i -> g y = Some i -> x = y.
Proof.
  intros Hn Hx Hy Gx Gy. induction l as [|z l IH]; [by apply elem_of_nil in Hx|].
  assert (Hin : forall w, w ∈ l -> g w = Some i -> g z = Some i -> x = y).
  { intros w Hw Gw Gz. cbn [omap list_omap] in Hn. rewrite Gz in Hn. apply NoDup_cons in Hn as [Hn _]. destruct Hn. apply list_elem_of_omap. eauto. }
  apply elem_of_cons in Hx as [->|Hx], Hy as [->|Hy]; eauto.
  apply IH; try done. cbn [omap list_omap] in Hn. destruct (g z); [by apply NoDup_cons in Hn as [_ Hn]|done].
Qed.

(** A message of the consumer stays: nothing else has its ID. *)
Lemma by_id_keeps l m i : olm_id m = Some i -> m ∈ l -> NoDup (omap olm_id l) -> m ∈ OMap.values (by_id l).
Proof.
  intros Hi Hm Hn. apply by_id_values. destruct (by_id_has l m Hm) as [v Hv]. rewrite Hv. f_equal. apply by_id_get in Hv as [Ev Hv].
  apply (omap_once olm_id l v m i); try done. rewrite <- Hi. by apply olm_id_same.
Qed.

(** ** Every turn keeps the view sound *)

(** What holds of a view whose records are [P]; [keeps] says that a message of the
    consumer stays as it is. *)
Record inv (P : list json) (g : groups) : Prop := {
  inv_good : forall id, good P id (messages_of id g);
  inv_waiting : forall k c, (k, c) ∈ waiting g -> c ∈ P /\ is_change c = true /\ k = field "referenceKey" c
}.
Definition keeps (id i : string) (g g' : groups) : Prop := forall m, m ∈ messages_of id g -> olm_id m = Some i -> m ∈ messages_of id g'.
Definition steady (P : list json) (id i : string) (g g' : groups) : Prop := inv P g' /\ keeps id i g g'.

Lemma held_refl P id i g : inv P g -> steady P id i g g.
Proof. intros H. split; [exact H|]. by intros m. Qed.
Lemma held_trans P id i g1 g2 g3 : steady P id i g1 g2 -> (inv P g2 -> steady P id i g2 g3) -> steady P id i g1 g3.
Proof. intros [I2 K2] H. destruct (H I2) as [I3 K3]. split; [done|]. intros m Hm Hi. auto. Qed.
Lemma steady_same P id i g g' : messages g' = messages g -> waiting g' = waiting g -> inv P g -> steady P id i g g'.
Proof. intros Em Ew [Hg Hw]. split; [split; [intros id'; unfold messages_of; rewrite Em; apply Hg|by rewrite Ew]|]. intros m. unfold messages_of. by rewrite Em. Qed.
Lemma inv_grow P P' g : P ⊆ P' -> inv P g -> inv P' g.
Proof. intros HP [Hg Hw]. split; [intros id; by eapply good_grow|]. intros k c Hc. destruct (Hw k c Hc) as (? & ? & ?). auto. Qed.

Lemma set_messages_of id l g id' : messages_of id' (set_messages id l g) = if decide (id' = id) then l else messages_of id' g.
Proof. unfold messages_of, set_messages. cbn [messages set_field]. rewrite OMap.get_set. by case_decide. Qed.

Lemma elem_of_del {K V} `{EqDecision K} (k k' : K) (v : V) t : (k, v) ∈ OMap.del k' t -> (k, v) ∈ t.
Proof. induction t as [|[k0 v0] t IH]; cbn [OMap.del]; [done|]. case_decide; [intros ?; right; auto|]. rewrite !elem_of_cons. intros [?|?]; auto. Qed.

Section steady.
Variable nc : nacl.
Variable xSecret : list Z.
Variable uid : string.
Variable arrange : list json -> list json.
Hypothesis arrange_perm : forall l, arrange l ≡ₚ l.
Notation put := (put uid arrange).
Notation local_ := (local_ uid arrange).

Lemma put_steady P id l g id' i : inv P g -> good P id l ->
  (id' = id -> forall m, m ∈ messages_of id g -> olm_id m = Some i -> m ∈ l) -> steady P id' i g (put id l g).
Proof.
  intros [Hg Hw] Hl Hk. split; [split; [|exact Hw]|].
  - intros id0. unfold Groups.put. rewrite set_messages_of. case_decide as E; [subst id0|apply Hg].
    eapply good_perm; [apply arrange_perm|]. by apply good_filter.
  - intros m Hm Hi. unfold Groups.put. rewrite set_messages_of. case_decide as E; [subst id'|done]. rewrite arrange_perm. apply list_elem_of_filter.
    split; [|by apply Hk]. by rewrite (fc_local _ _ _ _ (good_sound _ _ _ (Hg id) m i Hm Hi)).
Qed.

(** A message that is not the consumer's is added; local ones and placeholders may go. *)
Lemma kept_filter P id g m i (Q : json -> bool) : inv P g -> m ∈ messages_of id g -> olm_id m = Some i ->
  (forall m, is_local m = false -> has_flag "quarantined" m = false -> Q m = true) -> m ∈ filter (fun m => Q m = true) (messages_of id g).
Proof.
  intros [Hg _] Hm Hi HQ. apply list_elem_of_filter. split; [|done]. pose proof (good_sound _ _ _ (Hg id) m i Hm Hi) as F.
  apply HQ; [apply (fc_local _ _ _ _ F)|apply (fc_quarantined _ _ _ _ F)].
Qed.

Lemma not_local_kept (b : json -> bool) m : is_local m = false -> negb (is_local m && b m) = true.
Proof. by intros ->. Qed.

Lemma local_steady P id reference text sentAt state g id' i : assoc_last "id" state = None -> inv P g ->
  steady P id' i g (local_ id reference text sentAt state g).
Proof.
  intros Hs Hg. unfold Groups.local_. set (committed := List.find _ _). set (l := filter _ _). destruct (existsb _ l); [by apply held_refl|].
  assert (Hl : good P id l) by apply good_filter, Hg. apply put_steady; [done| |].
  - apply good_app; [done|]. cbn [omap list_omap]. set (draft := match committed with Some _ => _ | None => _ end).
    assert (Hd : field "id" draft = Some (JStr (local_id reference))).
    { unfold draft. assert (Hb : forall t, field "id" (assign state (obj [("id", Some (JStr (local_id reference))); ("local", Some (JBool true)); ("reference", Some (JStr reference));
        ("conversation_id", Some (JStr id)); ("from_unique_id", Some (JStr uid)); ("text", t); ("created_at", Some sentAt);
        ("pending", Some (JBool false)); ("queued", Some (JBool false)); ("failed", Some (JBool false))]%string)) = Some (JStr (local_id reference)))
        by (intros t; rewrite field_assign, Hs; by destruct t).
      assert (Hp : forall k v m, k <> "id"%string -> field "id" (put_opt k v m) = field "id" m).
      { intros k v m Hk. unfold put_opt. destruct v; [by apply field_jset_ne|by apply field_jdel_ne]. }
      destruct committed as [m|]; [rewrite !Hp by done|]; apply Hb. }
    unfold olm_id. by rewrite Hd.
  - intros _ m Hm Hi. apply elem_of_app. left. eapply (kept_filter P id g m i); try done. intros m' Hm' _. by apply (not_local_kept (same_reference reference)).
Qed.

Lemma showQueued_steady P id reference text sentAt expired g id' i : inv P g -> steady P id' i g (showQueued uid arrange id reference text sentAt expired g).
Proof. by apply local_steady. Qed.
Lemma send_starts_steady P id text reference sentAt g id' i : inv P g -> steady P id' i g (send_starts uid arrange id text reference sentAt g).
Proof. intros Hg. unfold send_starts. destruct (existsb _ _); [by apply held_refl|by apply local_steady]. Qed.
Lemma send_done_steady P id text reference sentAt a g id' i : inv P g -> steady P id' i g (send_done uid arrange id text reference sentAt a g).
Proof. intros Hg. unfold send_done. destruct a as [|r [|]|r b]; try (by apply held_refl); by apply local_steady. Qed.
Lemma discard_steady P id reference g id' i : inv P g -> steady P id' i g (discardLocal uid arrange id reference g).
Proof.
  intros Hg. apply put_steady; [done|apply good_filter, Hg|]. intros _ m Hm Hi. eapply (kept_filter P id g m i); try done.
  intros m' Hm' _. by apply (not_local_kept (same_reference reference)).
Qed.

(** *** Pages of the history *)

Lemma open_id id key m m' : open_ nc xSecret uid id key m = Some m' -> field "id" m' = field "id" m.
Proof.
  unfold open_. destruct (negb (has_flag "body" m)); [intros E%(inj Some); subst; by rewrite field_assign|].
  destruct (negb _); [intros E%(inj Some); subst; by apply field_jset_ne|].
  destruct (match key with Some _ => _ | None => _ end); [|done]. intros E%(inj Some). subst. by apply field_jset_ne.
Qed.

Lemma strip_id m : field "id" (strip_state m) = field "id" m.
Proof. unfold strip_state, stripped. cbn [foldr]. by rewrite !field_jdel_ne. Qed.

Lemma opened_elem id keys page opened x : mapM (fun m => m) (imap (fun i m => open_ nc xSecret uid id (keys i) m) (legacy_page page)) = Some opened ->
  x ∈ opened -> olm_id x = None.
Proof.
  intros Hm%mapM_Some Hx. apply list_elem_of_lookup in Hx as [n Hn]. destruct (Forall2_lookup_r _ _ _ _ _ Hm Hn) as (y & Hy & Ho).
  rewrite list_lookup_imap in Hy. destruct (legacy_page page !! n) as [m|] eqn:En; [|done]. cbn in Hy. injection Hy as <-.
  apply open_id in Ho. apply list_elem_of_lookup_2 in En. unfold legacy_page in En. apply list_elem_of_fmap in En as (m0 & -> & [Hs _]%list_elem_of_filter).
  rewrite strip_id in Ho. unfold olm_id. rewrite Ho. by destruct (field "id" m0) as [[]|].
Qed.

Lemma stop_typing_same id opened g : messages (stop_typing id opened g) = messages g /\ waiting (stop_typing id opened g) = waiting g.
Proof. unfold stop_typing. by destruct (OMap.get id (typing g)). Qed.

Lemma store_steady P id page keys g id' i : inv P g -> steady P id' i g (default g (store nc xSecret uid arrange id page keys g)).
Proof.
  intros Hg. unfold store. destruct (mapM _ _) as [opened|] eqn:Eo; [|by apply held_refl]. cbn [mbind option_bind default].
  fold (by_id (messages_of id g ++ opened)). destruct (stop_typing_same id opened g) as [Em Ew].
  assert (Hx : forall x, x ∈ opened -> olm_id x = None) by (intros x; by eapply opened_elem).
  apply (held_trans _ _ _ _ (stop_typing id opened g)); [by apply steady_same|]. intros Hg'.
  assert (E : forall j, messages_of j (stop_typing id opened g) = messages_of j g) by (intros j; unfold messages_of; by rewrite Em).
  apply put_steady; [done| |].
  - apply by_id_good. intros m j [Hm|Hm]%elem_of_app Hj; [by apply (good_sound _ _ _ (inv_good _ _ Hg id))|]. by rewrite Hx in Hj.
  - intros -> m Hm Hi. rewrite E in Hm. eapply by_id_keeps; [done|by apply elem_of_app; left|]. rewrite omap_app.
    assert (Eo' : omap olm_id opened = []).
    { clear -Hx. induction opened as [|x l IH]; [done|]. cbn [omap list_omap]. rewrite Hx by by left. apply IH. intros y Hy. apply Hx. by right. }
    rewrite Eo', app_nil_r. apply (good_once _ _ _ (inv_good _ _ Hg id)).
Qed.

(** A text of the history is that of a plaintext which names this group, epoch, reference,
    sender and account, sealed to the account with the key that was found. *)
Theorem opened_text_named id key m m' t : has_flag "body" m = true -> open_ nc xSecret uid id key m = Some m' -> field "text" m' = Some (JStr t) ->
  exists k s p, key = Some k /\ openDM nc (String_of (field "body" m)) k xSecret = Some (Some s) /\ parse (bytes_of s) = Some p /\
    field "conversation_id" p = Some (JStr id) /\ field "to" p = Some (JStr uid) /\ field "text" p = Some (JStr t) /\
    field "epoch" p = field "epoch" m /\ field "reference" p = field "reference" m /\ field "from" p = field "from_unique_id" m.
Proof.
  intros Hb. unfold open_. rewrite Hb. cbn [negb]. destruct (negb _); [intros E%(inj Some); subst m'; by rewrite field_jset_eq|].
  destruct key as [k|]; [|intros E%(inj Some); subst m'; by rewrite field_jset_eq].
  destruct (openDM _ _ _ _) as [[s|]|] eqn:Eo; [| |done]; intros E%(inj Some); subst m'; rewrite field_jset_eq; [|done].
  destruct (parse (bytes_of s)) as [p|] eqn:Ep; [|done]. destruct (_ && _) eqn:Ec; [|done]. rewrite !andb_true_iff in Ec.
  destruct Ec as [[[[[_ C1%bool_decide_eq_true] C2%strict_eq_eq] C3%strict_eq_eq] C4%strict_eq_eq] C5%bool_decide_eq_true].
  destruct (field "text" p) as [[| | |t'| |]|] eqn:Et; try done. intros [= ->]. exists k, s, p. by rewrite Et.
Qed.

(** *** Changes and originals *)

Lemma wait_steady P c g id' i : c ∈ P -> is_change c = true -> inv P g -> steady P id' i g (wait c g).
Proof.
  intros Hc Hch [Hg Hw]. split; [split; [exact Hg|]|by intros m]. intros k c' Hin.
  set (w := OMap.set (field "referenceKey" c) c (OMap.del (field "referenceKey" c) (waiting g))).
  assert (Hin' : (k, c') ∈ w).
  { unfold wait in Hin. cbn [waiting set_field] in Hin. fold w in Hin. destruct (_ <? _); [|done]. destruct w as [|[o ?] ?] eqn:Ew; [done|]. rewrite <- Ew in *. by eapply elem_of_del. }
  apply OMap.elem_set in Hin' as [[-> ->]|Hin']; [done|]. by eapply Hw, elem_of_del.
Qed.

Lemma change_keeps_soundness P id i c m : c ∈ P -> of_group c = Some id -> is_change c = true -> unconfirmed c = false ->
  field "key" m = field "referenceKey" c -> from_consumer P id i m -> from_consumer P id i (assign (change_fields c) m).
Proof.
  intros HP Hg Hc Hu Ek [F1 F2 F3 F4 F5 F6 F7 F8]. assert (Hch : change_of P id i c) by (split; try done; by rewrite <- Ek).
  assert (Hsame : forall k, k <> "text"%string -> k <> "deleted"%string -> k <> "edited"%string -> field k (assign (change_fields c) m) = field k m).
  { intros k N1 N2 N3. rewrite field_assign. unfold change_fields. destruct (is_text _ _); cbn [assoc_last erased rewritten]; by rewrite !decide_False. }
  assert (Hset : (is_text (field "purpose" c) "delete" = true /\ field "text" (assign (change_fields c) m) = Some (JStr "") /\
      field "deleted" (assign (change_fields c) m) = Some (JBool true) /\ field "edited" (assign (change_fields c) m) = field "edited" m) \/
    (is_text (field "purpose" c) "delete" = false /\ field "text" (assign (change_fields c) m) = Some (body_text c) /\
      field "deleted" (assign (change_fields c) m) = field "deleted" m /\ field "edited" (assign (change_fields c) m) = Some (JBool true))).
  { rewrite !field_assign. unfold change_fields. destruct (is_text _ _); [left|right]; done. }
  unfold is_local, has_flag in *. destruct F5 as (r & F5 & F5' & F5''). split; unfold is_local, has_flag; rewrite ?Hsame by done; try done.
  - by exists r.
  - destruct Hset as [(Ep & -> & _)|(Ep & -> & _)]; (eexists; split; [done|]; right; exists c; by rewrite Ep).
  - destruct Hset as [(Ep & _ & _ & ->)|(Ep & _)]; [done|]. intros _. exists c. split; [done|]. unfold is_change in Hc. by rewrite Ep in Hc.
  - destruct Hset as [(Ep & _)|(Ep & _ & -> & _)]; [|done]. by exists c.
Qed.

Lemma change_steady P id c g id' i : c ∈ P -> of_group c = Some id -> is_change c = true ->
  (id' = id -> i <> "olm:" +:+ String_of (field "referenceKey" c)) -> inv P g -> steady P id' i g (change uid arrange id c g).
Proof.
  intros HP Hgr Hc Hi Hg. unfold change. destruct (unconfirmed c) eqn:Hu; [by apply held_refl|].
  destruct (existsb _ _); [|by apply wait_steady]. apply put_steady; [done| |].
  - apply good_update; [| |apply Hg].
    + intros m _ _. apply olm_id_same. rewrite field_assign. unfold change_fields. by destruct (is_text _ _).
    + intros m j _ Ek%strict_eq_eq _. by apply change_keeps_soundness.
  - intros -> m Hm Hj. apply update_first_keeps; [done|]. destruct (strict_eq _ _) eqn:E; [|done]. exfalso. apply strict_eq_eq in E.
    apply Hi; [done|]. rewrite <- E. apply (fc_key P id i m), (good_sound _ _ _ (inv_good _ _ Hg id)); done.
Qed.

(** The members of the message that a record shows. *)
Lemma message_fields id r : let m := record_message uid id r in
  field "id" m = Some (JStr (record_id r)) /\ field "key" m = field "key" r /\ field "protocol" m = Some (JStr RATCHET_PROTOCOL) /\
  field "reference" m = field "logicalID" r /\ field "from_unique_id" m = field "sender" r /\ field "text" m = Some (body_text r) /\
  field "quarantined" m = None /\ field "edited" m = None /\ field "deleted" m = None.
Proof.
  cbv zeta. unfold record_message. assert (Hu : forall k, k <> "local"%string -> k <> "pending"%string -> k <> "failed"%string -> assoc_last k (undelivered uid r) = None).
  { intros k N1 N2 N3. unfold undelivered. destruct (_ && _); [|destruct (_ && _)]; cbn [assoc_last]; by rewrite ?decide_False. }
  rewrite !field_assign, !Hu by done. unfold obj. destruct (field "key" r), (field "logicalID" r), (field "sender" r), (field "sentAt" r); by repeat split.
Qed.

Lemma message_local id r : is_local (record_message uid id r) = true -> own_record uid r = true.
Proof.
  unfold is_local, has_flag, record_message, undelivered. destruct (own_record uid r); [done|]. cbn [andb assign foldl]. unfold obj.
  by destruct (field "key" r), (field "logicalID" r), (field "sender" r), (field "sentAt" r).
Qed.

(** Keeping changes touches the text and the two marks only. *)
Lemma keep_changes_other k prior m : k <> "text"%string -> k <> "deleted"%string -> k <> "edited"%string -> field k (keep_changes prior m) = field k m.
Proof.
  intros N1 N2 N3. unfold keep_changes. destruct (has_flag "deleted" prior); [rewrite field_assign; cbn [assoc_last erased]; by rewrite !decide_False|].
  destruct (has_flag "edited" prior); [|done]. rewrite field_jset_ne by done. unfold put_opt. destruct (field "text" prior); [by apply field_jset_ne|by apply field_jdel_ne].
Qed.

Definition olm_text (i : string) : Prop := String.prefix "olm:" i = true.
Lemma olm_id_prefix m i : olm_id m = Some i -> olm_text i.
Proof. unfold olm_id, olm_text. destruct (field "id" m) as [[| | |s| |]|]; try done. destruct (String.prefix "olm:" s) eqn:E; [|done]. by intros [= <-]. Qed.
Lemma record_id_olm r : olm_text (record_id r).
Proof. unfold olm_text, record_id. cbn. by destruct (String_of (field "key" r)). Qed.
Lemma olm_id_of m i : field "id" m = Some (JStr i) -> olm_text i -> olm_id m = Some i.
Proof. unfold olm_id, olm_text. by intros -> ->. Qed.
Lemma other_kind m i c s : olm_id m = Some i -> String.prefix "olm:" (String c s) = false -> has_id (String c s) m = false.
Proof.
  intros Hi Hp. destruct (has_id _ m) eqn:E; [|done]. apply has_id_spec in E. unfold olm_id in Hi. rewrite E, Hp in Hi. done.
Qed.

(** What a delivered record shows is the consumer's, with the changes made before. *)
Lemma shown_sound P id r prior : original_of P id (record_id r) r -> is_local (record_message uid id r) = false ->
  from_consumer P id (record_id r) prior -> from_consumer P id (record_id r) (keep_changes prior (record_message uid id r)).
Proof.
  intros Hr Hl [_ _ _ _ _ (t & Ht & Hw) F7 F8]. destruct (message_fields id r) as (E1 & E2 & E3 & E4 & E5 & E6 & E7 & E8 & E9).
  set (m := record_message uid id r) in *. unfold is_local, has_flag in *.
  split; unfold is_local, has_flag; rewrite ?keep_changes_other by done; rewrite ?E1, ?E2, ?E3, ?E7; try done.
  - exists r. by rewrite E4, E5.
  - unfold keep_changes, has_flag. destruct (truthy (field "deleted" prior)) eqn:Ed.
    + exists (JStr ""). split; [by rewrite field_assign|]. right. destruct (F8 eq_refl) as (c & Hc & Ep). exists c. by rewrite Ep.
    + destruct (truthy (field "edited" prior)).
      * exists t. split; [|done]. rewrite field_jset_ne by done. rewrite Ht. apply field_jset_eq.
      * exists (body_text r). split; [done|]. left. by exists r.
  - unfold keep_changes, has_flag. destruct (truthy (field "deleted" prior)); [rewrite field_assign; cbn [assoc_last erased]; by rewrite !decide_False, E8 by done|].
    destruct (truthy (field "edited" prior)); [intros _; by apply F7|by rewrite E8].
  - unfold keep_changes, has_flag. destruct (truthy (field "deleted" prior)); [intros _; by apply F8|].
    destruct (truthy (field "edited" prior)); [|by rewrite E9]. rewrite field_jset_ne, Ht by done. unfold put_opt. by rewrite field_jset_ne, E9.
Qed.

Lemma shown_new P id r : original_of P id (record_id r) r -> is_local (record_message uid id r) = false ->
  from_consumer P id (record_id r) (record_message uid id r).
Proof.
  intros Hr Hl. destruct (message_fields id r) as (E1 & E2 & E3 & E4 & E5 & E6 & E7 & E8 & E9).
  split; unfold has_flag; rewrite ?E2, ?E3, ?E7, ?E8, ?E9; try done.
  - exists r. by rewrite E4, E5.
  - exists (body_text r). split; [done|]. left. by exists r.
Qed.

Lemma without_placeholder_sub r l : without_placeholder r l `sublist_of` l.
Proof. unfold without_placeholder. destruct (field "transport" r) as [t|]; [|done]. destruct (has_flag "delivery" t); [apply remove_first_sub|done]. Qed.
Lemma without_placeholder_keeps r l m i : olm_id m = Some i -> m ∈ l -> m ∈ without_placeholder r l.
Proof.
  intros Hi Hm. unfold without_placeholder. destruct (field "transport" r) as [t|]; [|done]. destruct (has_flag "delivery" t); [|done].
  apply remove_first_keeps; [done|]. by eapply other_kind.
Qed.

Lemma filter_update_gone {A} (q : A -> bool) p f l : (forall x, p x = true -> q (f x) = false) ->
  filter (fun x => q x = true) (update_first p f l) = filter (fun x => q x = true) (remove_first p l).
Proof.
  intros Hq. induction l as [|x l IH]; [done|]. cbn [update_first remove_first]. destruct (p x) eqn:E.
  - rewrite filter_cons, decide_False; [done|]. by rewrite Hq.
  - rewrite !filter_cons. by case_decide; rewrite IH.
Qed.

Lemma show_steady P id r s g id' i : original_of P id (record_id r) r -> field "logicalID" r = Some (JStr s) ->
  (id' = id -> i <> record_id r) -> inv P g -> steady P id' i g (show uid arrange id r g).
Proof.
  intros Hr Hs Hi Hg. unfold show. set (l := without_placeholder r (messages_of id g)). set (message := record_message uid id r).
  set (stale := fun m => is_local m && strict_eq (field "reference" m) (field "logicalID" r) && mine uid m).
  assert (Hl : good P id l) by (eapply good_sub; [apply without_placeholder_sub|apply Hg]).
  destruct (message_fields id r) as (E1 & E2 & E3 & E4 & E5 & _). fold message in E1, E2, E3, E4, E5.
  assert (Hold : forall m, m ∈ messages_of id g -> olm_id m = Some i -> m ∈ l /\ negb (stale m) = true /\ (id' = id -> has_id (record_id r) m = false)).
  { intros m Hm Hj. split; [by eapply without_placeholder_keeps|]. split.
    - unfold stale. by rewrite (fc_local _ _ _ _ (good_sound _ _ _ (inv_good _ _ Hg id) m i Hm Hj)).
    - intros E. destruct (has_id _ m) eqn:Eh; [|done]. apply has_id_spec in Eh. apply olm_id_field in Hj. rewrite Eh in Hj. injection Hj as <-. by destruct (Hi E). }
  apply put_steady; [done| |].
  - destruct (existsb _ l) eqn:Ex; destruct (is_local message) eqn:El.
    + rewrite filter_update_gone; [by apply (good_sub _ _ _ (remove_first (has_id (record_id r)) l)); [apply sublist_filter|eapply good_sub; [apply remove_first_sub|]]|].
      intros prior _. apply negb_false_iff. unfold stale, is_local, has_flag, mine, is_text. rewrite !keep_changes_other by done. rewrite E4, E5, Hs.
      unfold is_local, has_flag in El. rewrite El. cbn [strict_eq primitive andb]. rewrite bool_decide_eq_true_2 by done. by apply message_local in El.
    + apply good_filter, good_update; [| |done].
      * intros m _ Em%has_id_spec. apply olm_id_same. by rewrite keep_changes_other, E1, Em.
      * intros m j _ Em%has_id_spec Hj Hm. assert (j = record_id r) as -> by (apply olm_id_field in Hj; congruence). by apply shown_sound.
    + apply good_app; [by apply good_filter|]. cbn [omap list_omap]. unfold olm_id. by rewrite field_jset_eq.
    + eapply good_snoc; [by apply good_filter|by apply olm_id_of; [apply E1|apply record_id_olm]| |by apply shown_new].
      intros (m & [_ Hm]%list_elem_of_filter & Hj)%list_elem_of_omap. assert (Hx : existsb (has_id (record_id r)) l = true); [|congruence].
      apply existsb_exists. exists m. split; [by apply list_elem_of_In|]. by apply has_id_spec, olm_id_field.
  - intros -> m Hm Hj. destruct (Hold m Hm Hj) as (H1 & H2 & H3). destruct (existsb _ l).
    + apply list_elem_of_filter. split; [done|]. apply update_first_keeps; auto.
    + apply elem_of_app. left. by apply list_elem_of_filter.
Qed.

Lemma of_group_set r id : of_group r = Some id -> forall P, r ∈ P -> is_change r = false -> original_of P id (record_id r) r.
Proof. by split. Qed.

(** What a record touches: its own message, or the one that it changes. *)
Definition touches (r : json) (i : string) : Prop := i = record_id r \/ i = "olm:" +:+ String_of (field "referenceKey" r).

Lemma project_steady P r s g id i : r ∈ P -> field "logicalID" r = Some (JStr s) -> ~ touches r i -> inv P g -> steady P id i g (project uid arrange r g).
Proof.
  intros HP Hs Ht Hg. unfold project. destruct (of_group r) as [id0|] eqn:Eg; [|by apply held_refl]. destruct (is_change r) eqn:Ec.
  - apply change_steady; try done. intros _ ->. apply Ht. by right.
  - apply (held_trans _ _ _ _ (show uid arrange id0 r g)).
    + eapply show_steady; [by apply of_group_set|done| |done]. intros _ ->. apply Ht. by left.
    + intros Hg1. destruct (OMap.get _ _) as [c|] eqn:Ew; [|by apply held_refl]. apply OMap.get_elem, (inv_waiting _ _ Hg1) in Ew as (Hc & Hcc & Ek).
      set (g2 := _ <| waiting := _ |>). assert (Hg2 : inv P g2).
      { destruct Hg1 as [H1 H2]. split; [exact H1|]. intros k c' Hin%elem_of_del. auto. }
      apply (held_trans _ _ _ _ g2); [split; [done|by intros m]|]. intros _. destruct (of_group c) as [id1|] eqn:Eg1; [|by apply held_refl].
      apply change_steady; try done. intros _ ->. apply Ht. left. unfold record_id. by rewrite Ek.
Qed.

(** *** Placeholders, deletions and the rest *)

Lemma quarantine_steady P now l g current id i : inv P g -> steady P id i g (foldl (quarantine_one uid arrange now) (g, current) l).1.
Proof.
  revert g current. induction l as [|q l IH]; intros g current Hg; [by apply held_refl|]. cbn [foldl quarantine_one].
  destruct (placed g q) as [c|]; [|by apply IH]. destruct (existsb _ _); [by apply IH|].
  eapply held_trans; [|intros Hg'; by apply IH]. apply put_steady; [done| |].
  - apply good_app; [apply Hg|]. cbn [omap list_omap]. unfold placeholder, obj, olm_id. by destruct (field "code" q), (if has_flag "seenAt" q then _ else _).
  - intros -> m Hm _. by apply elem_of_app; left.
Qed.

Lemma sweep_steady P current l g id i : inv P g -> steady P id i g (foldl (sweep uid arrange current) g l).
Proof.
  revert g. induction l as [|id0 l IH]; intros g Hg; [by apply held_refl|]. cbn [foldl]. eapply held_trans; [|intros Hg'; by apply IH].
  unfold sweep. destruct (_ =? _)%nat; [by apply held_refl|]. apply put_steady; [done|apply good_filter, Hg|]. intros -> m Hm Hi.
  eapply kept_filter; try done. intros m' _ Hq. unfold still_placed. by rewrite Hq.
Qed.

Lemma showQuarantined_steady P now l g id i : inv P g -> steady P id i g (showQuarantined uid arrange now l g).
Proof.
  intros Hg. unfold showQuarantined. pose proof (quarantine_steady P now l g [] id i Hg) as Hq. destruct (foldl _ _ _) as [g' current]. cbn [fst] in Hq.
  eapply held_trans; [exact Hq|]. intros Hg'. by apply sweep_steady.
Qed.

Lemma delete_done_steady P id0 x g id i : (forall m, field "id" m = Some x -> olm_id m = None) -> inv P g -> steady P id i g (delete_done id0 x g).
Proof.
  intros Hx Hg. unfold delete_done. destruct (OMap.get id0 (messages g)) as [l|] eqn:El; [|by apply held_refl].
  assert (E : messages_of id0 g = l) by (unfold messages_of; by rewrite El). split; [split; [|apply Hg]|].
  - intros id1. rewrite set_messages_of. case_decide as Ed; [subst id1|apply Hg]. apply good_update; [| |rewrite <- E; apply Hg].
    + intros m _ _. apply olm_id_same. by rewrite field_assign.
    + intros m j _ Em%bool_decide_eq_true Hj. by rewrite Hx in Hj.
  - intros m Hm Hi. rewrite set_messages_of. case_decide as Ed; [subst id; rewrite E in Hm|done]. apply update_first_keeps; [done|].
    apply bool_decide_eq_false. intros Em%Hx. by rewrite Em in Hi.
Qed.

Lemma forget_of id0 g id : messages_of id (forget id0 g) = if decide (id = id0) then [] else messages_of id g.
Proof. unfold messages_of, forget. cbn [messages]. rewrite OMap.get_del. by case_decide. Qed.

Lemma forget_inv P id0 g : inv P g -> inv P (forget id0 g).
Proof. intros [Hg Hw]. split; [|exact Hw]. intros id. rewrite forget_of. case_decide; [apply good_nil|apply Hg]. Qed.

(** ** Runs *)

Definition winv (P : list json) (w : world) : Prop :=
  inv P (view w) /\ forall id x, (id, x) ∈ deleting w -> forall m, field "id" m = Some x -> olm_id m = None.

(** The consumer's records have the logical ID of their message. *)
Definition record_event (P : list json) (e : event) : Prop :=
  match e with Project r => r ∈ P /\ exists s, field "logicalID" r = Some (JStr s) | _ => True end.
Definition touched (e : event) (id i : string) : Prop :=
  match e with Project r => touches r i | Forget id' => id = id' | _ => False end.

Lemma view_steady P e g id i : record_event P e -> ~ touched e id i -> (forall id' x, e <> DeleteDone id' x) -> inv P g ->
  steady P id i g (view_turn nc xSecret uid arrange e g).
Proof.
  intros He Ht Hd Hg. destruct e; cbn [view_turn touched record_event] in *.
  - by apply store_steady.
  - by apply showQueued_steady.
  - by apply discard_steady.
  - by apply send_starts_steady.
  - by apply send_done_steady.
  - destruct He as [HP [s Hs]]. by eapply project_steady.
  - by apply showQuarantined_steady.
  - by apply held_refl.
  - by destruct (Hd id0 messageID).
  - split; [by apply forget_inv|]. intros m. rewrite forget_of. by rewrite decide_False.
  - by apply steady_same.
  - by apply steady_same.
  - unfold typing_event. destruct (_ || _); [by apply held_refl|by apply steady_same].
Qed.

Notation turn := (turn nc xSecret uid arrange).
Lemma turn_steady P w e id i : record_event P e -> ~ touched e id i -> winv P w -> winv P (turn w e) /\ keeps id i (view w) (view (turn w e)).
Proof.
  intros He Ht [Hg Hd]. assert (Hplain : (forall id' x, e <> DeleteDone id' x) -> winv P (World (view_turn nc xSecret uid arrange e (view w)) (deleting w)) /\
      keeps id i (view w) (view_turn nc xSecret uid arrange e (view w))).
  { intros Hn. destruct (view_steady P e (view w) id i He Ht Hn Hg) as [H1 H2]. split; [by split|done]. }
  destruct e as [| | | | | | |id0 x|id0 x| | | |]; try (by apply Hplain); cbn [Groups.turn].
  - destruct (shown id0 x (view w)) eqn:Es; cbn [andb]; [|by split; [split|intros m]]. destruct (deletes_by_consumer id0 x (view w)) eqn:Ed; cbn [negb]; [by split; [split|intros m]|].
    split; [split; [exact Hg|]|by intros m]. intros id' x' [Hnew|Hold]%elem_of_cons; [|by eapply Hd]. injection Hnew as -> ->. intros m Em.
    destruct (olm_id m) as [j|] eqn:Ej; [|done]. exfalso. pose proof (olm_id_field _ _ Ej) as Ej'. rewrite Em in Ej'. injection Ej' as ->.
    unfold shown in Es. apply existsb_exists in Es as (m1 & Hm1 & Em1%bool_decide_eq_true). unfold deletes_by_consumer in Ed.
    destruct (List.find _ _) as [m2|] eqn:Ef.
    + apply find_some in Ef as [Hm2%list_elem_of_In Em2%bool_decide_eq_true]. assert (Hp := olm_id_prefix _ _ Ej).
      pose proof (good_sound _ _ _ (inv_good _ _ Hg id0) m2 j Hm2 (olm_id_of _ _ Em2 Hp)) as F. unfold is_text in Ed. by rewrite (fc_protocol _ _ _ _ F), bool_decide_eq_true_2 in Ed.
    + pose proof (find_none _ _ Ef m1 Hm1) as Hn. cbn beta in Hn. by rewrite bool_decide_eq_true_2 in Hn.
  - case_bool_decide as Hin; [|by split; [split|intros m]]. pose proof (delete_done_steady P id0 x (view w) id i (Hd id0 x Hin) Hg) as [H1 H2]. split; [by split|done].
Qed.

Lemma group_turn_sound P w e : record_event P e -> winv P w -> winv P (turn w e).
Proof.
  intros He Hw. set (id := match e with Forget id' => ("x" +:+ id')%string | _ => ""%string end).
  apply (turn_steady P w e id ""%string He); [|exact Hw]. destruct e; cbn [touched id]; try tauto.
  - by intros [H|H].
  - intros H. apply (f_equal String.length) in H. change (S (String.length id0) = String.length id0) in H. lia.
Qed.

Definition projected (es : list event) : list json := omap (fun e => match e with Project r => Some r | _ => None end) es.
Definition record_ok (e : event) : Prop := match e with Project r => exists s, field "logicalID" r = Some (JStr s) | _ => True end.
Notation play := (play nc xSecret uid arrange).

Lemma play_snoc es e : play (es ++ [e]) = turn (play es) e.
Proof. unfold Groups.play. by rewrite foldl_app. Qed.

Lemma play_sound es : Forall record_ok es -> winv (projected es) (play es).
Proof.
  induction es as [|e es IH] using rev_ind; intros Hes.
  - split; [split; [intros id; apply good_nil|by intros k c ?%elem_of_nil]|by intros id x ?%elem_of_nil].
  - apply Forall_app in Hes as [Hes He]. rewrite Forall_singleton in He. rewrite play_snoc. assert (Hsub : projected es ⊆ projected (es ++ [e])).
    { unfold projected. rewrite omap_app. intros x Hx. apply elem_of_app. by left. }
    apply group_turn_sound.
    + destruct e; try done. split; [|exact He]. unfold projected. rewrite omap_app. apply elem_of_app. right. by left.
    + destruct (IH Hes) as [Hg Hd]. split; [by eapply inv_grow|exact Hd].
Qed.

(** C10: in any run of the view, whatever the server's pages contain, a message with an ID
    of the consumer is what the consumer projected for this group: its sender and
    reference are those of a projected record, its text and its marks come from
    projected records or accepted changes that name it; and a turn leaves it exactly as
    it is, except the projection of a record or a change of this very message, and
    leaving the group. *)
Theorem authenticated_view es e id m i : Forall record_ok es -> record_ok e -> m ∈ messages_of id (view (play es)) -> olm_id m = Some i ->
  from_consumer (projected es) id i m /\ (~ touched e id i -> m ∈ messages_of id (view (turn (play es) e))).
Proof.
  intros Hes He Hm Hi. pose proof (play_sound es Hes) as Hw. split; [by apply (good_sound _ _ _ (inv_good _ _ (proj1 Hw) id))|]. intros Ht.
  assert (Hgrow : winv (projected (es ++ [e])) (play es)).
  { destruct Hw as [Hg Hd]. split; [|exact Hd]. eapply inv_grow; [|exact Hg]. unfold projected. rewrite omap_app. intros x Hx. apply elem_of_app. by left. }
  assert (He' : record_event (projected (es ++ [e])) e).
  { destruct e; try done. split; [|exact He]. unfold projected. rewrite omap_app. apply elem_of_app. right. by left. }
  by apply (turn_steady _ _ e id i He' Ht Hgrow).
Qed.
End steady.

(** ** A received message, and a server that answers with its name *)

Module GroupDemo.
Definition nc : nacl := TrustDemo.nc.
Notation run := (play nc [] "alice" (fun l => l)).

Definition record (sender logical text status : string) : json :=
  JObj [("scope", JStr "group"); ("protocol", JStr RATCHET_PROTOCOL); ("conversation", JStr "g"); ("purpose", JStr "message");
        ("sender", JStr sender); ("logicalID", JStr logical); ("key", JStr (sender +:+ "/" +:+ logical)); ("referenceKey", JStr "");
        ("status", JStr status); ("sentAt", JNum 100); ("body", JObj [("text", JStr text)])]%string.

(** A record of the history that claims an ID of the consumer, and one that claims an own reference. *)
Definition forged : json := JObj [("id", JStr "olm:bob/r1"); ("key", JStr "bob/r1"); ("edited", JBool true); ("from_unique_id", JStr "bob")]%string.
Definition claims (reference : string) : json := JObj [("id", JNum 7); ("from_unique_id", JStr "alice"); ("reference", JStr reference)]%string.

Definition received : list event := [Project (record "bob" "r1" "hello" "")].
Definition shown_message : json := Eval vm_compute in nth 0 (messages_of "g" (view (run received))) JNull.
Definition hostile : event := Store "g" [forged; claims "r1"] (fun _ => None).

Lemma authenticated_view_witness : shown_message ∈ messages_of "g" (view (turn nc [] "alice" (fun l => l) (run received) hostile)).
Proof.
  destruct (authenticated_view nc [] "alice" (fun l => l) (fun l => Permutation_refl l) received hostile "g" shown_message "olm:bob/r1") as [_ H].
  - apply Forall_singleton. eexists. reflexivity.
  - exact I.
  - vm_compute. left.
  - reflexivity.
  - apply H. tauto.
Defined.

(** The comment of [#store] goes further: a record of the server that names the own account
    and the reference of an own record that is still pending takes that record out of the
    view, though it is the consumer's. *)
Lemma pending_record_hidden :
  let pending := [Project (record "alice" "r2" "on its way" "pending")] in
  map (field "key") (messages_of "g" (view (run pending))) = [Some (JStr "alice/r2")] /\
  map (field "key") (messages_of "g" (view (run (pending ++ [Store "g" [claims "r2"] (fun _ => None)])))) = [None].
Proof. vm_compute. split; reflexivity. Qed.
End GroupDemo.
