(* ===== verification/DirectView.v ===== *)
(** * Conversations with one contact ([direct.js])

    A conversation holds messages of three origins: copies sealed the old way, records of
    the message consumer, and records that another device of the account transferred.
    Its view is a state machine with one function per synchronous turn:

    - [add]: a message is merged into the one with the same ID, sender and protocol, or
      put in its place by time; the oldest go when there are too many;
    - [applyChange]: an edit or deletion, or its wait for the message ([c_pending]; a
      change that waited is applied in a microtask of its own, [micro]);
    - [receive]: a sealed copy; [receipt], [applyReceipt]: receipts of the contact;
    - [project], [showQuarantined], [send_starts], [send_done], [showQueued],
      [discardLocal], [deleteHistory], [import_record].

    The session is a signed-in one ([secureRequired]), which never sends the old way.
    Times are integers.  Typing, read receipts of this device and the saving of
    conversations are not modelled; the trust of devices is in [DirectTrust]. *)

From stdpp Require Import base list strings sorting.
From Stdlib Require Import ZArith Lia.
From S2P Require Import Prelude Json Text Crypto DeviceTrust HistoryCopy Groups.

Definition MAX_MESSAGES : Z := 5000.
Definition MAX_PENDING_CHANGES : nat := 50.

(** ** Messages *)

(** The members of an object literal; one that is [undefined] removes what it is spread over. *)
Abbreviation fields := (list (string * option json)).
Definition spread (l : fields) (m : json) : json := foldl (fun m kv => put_opt kv.1 kv.2 m) m l.

Definition ratchet_text : json := JStr RATCHET_PROTOCOL.
Definition is_ratchet (m : json) : bool := is_text (field "protocol" m) RATCHET_PROTOCOL.

(** Same message: equal sender-chosen ID from the same sender and protocol. *)
Definition same (a b : json) : bool :=
  truthy (field "id" a) && strict_eq (field "id" a) (field "id" b) && strict_eq (or_empty (field "from" a)) (or_empty (field "from" b)) &&
  strict_eq (or_empty (field "protocol" a)) (or_empty (field "protocol" b)).

Record change := Change { c_action : option json; c_ref : option json; c_from : option json; c_text : json; c_protocol : string }.
Record conversation := Conversation { c_nickname : string; c_messages : list json; c_pending : list change }.
#[global] Instance eta_conversation : Eta conversation := fun c => Conversation (c_nickname c) (c_messages c) (c_pending c).
Record direct := Direct { conversations : list (string * conversation); micro : list (string * change) }.
#[global] Instance eta_direct : Eta direct := fun g => Direct (conversations g) (micro g).

Definition messages_with (peer : string) (g : direct) : list json := default [] (c_messages <$> OMap.get peer (conversations g)).
Definition set_conversation (peer : string) (c : conversation) (g : direct) : direct := g <| conversations := OMap.set peer c (conversations g) |>.

(** [conversation(peer, nickname)] *)
Definition opened (peer nickname : string) (g : direct) : conversation :=
  let c := default (Conversation nickname [] []) (OMap.get peer (conversations g)) in
  if bool_decide (nickname = ""%string) then c else c <| c_nickname := nickname |>.

Definition earlier (a b : json) : Prop := num_or 0 (field "sentAt" a) <= num_or 0 (field "sentAt" b).
#[global] Instance earlier_dec a b : Decision (earlier a b).
Proof. unfold earlier. apply _. Defined.

Definition waits (message : json) (c : change) : bool :=
  strict_eq (c_ref c) (field "id" message) && strict_eq (c_from c) (field "from" message) &&
  strict_eq (Some (JStr (c_protocol c))) (or_empty (field "protocol" message)).

(** [#add]; the result says whether the message is new. *)
Definition add (peer nickname : string) (message : fields) (g : direct) : direct * bool :=
  let c := opened peer nickname g in
  let m := obj message in
  if existsb (fun x => same x m) (c_messages c)
  then (set_conversation peer (c <| c_messages := update_first (fun x => same x m) (spread message) (c_messages c) |>) g, false)
  else
    let l := merge_sort earlier (c_messages c ++ [m]) in
    let waiting := filter (fun c => waits m c = true) (c_pending c) in
    let c := Conversation (c_nickname c) (drop (length l - Z.to_nat MAX_MESSAGES) l) (filter (fun c => negb (waits m c) = true) (c_pending c)) in
    ((set_conversation peer c g) <| micro := micro g ++ map (pair peer) waiting |>, true).

(** ** Changes *)

Definition concerns (c : change) (m : json) : bool :=
  strict_eq (field "id" m) (c_ref c) && strict_eq (field "from" m) (c_from c) && strict_eq (or_empty (field "protocol" m)) (Some (JStr (c_protocol c))).

(** [{...m, ...fields}] of a message that is in the conversation. *)
Definition with_fields (m : json) (l : fields) : fields := map (fun kv => (kv.1, Some kv.2)) (members m) ++ l.

Definition applyChange (peer : string) (ch : change) (g : direct) : direct :=
  let c := opened peer "" g in
  let g := set_conversation peer c g in
  match List.find (concerns ch) (c_messages c) with
  | None => set_conversation peer (c <| c_pending := (fun l => drop (length l - MAX_PENDING_CHANGES) l) (c_pending c ++ [ch]) |>) g
  | Some m =>
    if is_text (c_action ch) "delete" then (add peer "" (with_fields m [("body", Some (JStr "")); ("deleted", Some (JBool true)); ("edited", Some (JBool false))]%string) g).1
    else if is_text (c_action ch) "edit" && negb (has_flag "deleted" m)
    then (add peer "" (with_fields m [("body", Some (c_text ch)); ("edited", Some (JBool true))]%string) g).1
    else g
  end.

(** A change that waited is applied after the turn that showed its message. *)
Definition microtask (g : direct) : direct :=
  match micro g with
  | [] => g
  | (peer, ch) :: rest => applyChange peer ch (g <| micro := rest |>)
  end.

(** ** Receipts *)

Definition rank_of (v : option json) : Z :=
  match v with
  | Some (JStr s) => if bool_decide (s = "sent"%string) then 1 else if bool_decide (s = "delivered"%string) then 2 else if bool_decide (s = "read"%string) then 3 else 0
  | _ => 0
  end.

Definition unsettled (m : json) : bool := has_flag "pending" m || has_flag "queued" m || has_flag "failed" m.
Fixpoint first_index (p : json -> bool) (l : list json) : option nat :=
  match l with [] => None | x :: r => if p x then Some O else S <$> first_index p r end.

Definition with_receipt (kind : string) (target : json) (is_target : bool) (m : json) : json :=
  if negb (has_flag "self" m) || unsettled m then m
  else if (is_target || (bool_decide (kind = "read"%string) && bool_decide (earlier m target))) && (rank_of (field "receipt" m) <? rank_of (Some (JStr kind)))
  then jset "receipt" (JStr kind) m else m.

Definition applyReceipt (kind id : string) (l : list json) : list json :=
  match first_index (fun m => is_text (field "id" m) id && has_flag "self" m) l with
  | Some i => if rank_of (Some (JStr kind)) =? 0 then l
              else imap (fun j m => with_receipt kind (default JNull (l !! i)) (j =? i)%nat m) l
  | None => l
  end.

Section direct.
Variable nc : nacl.
Variable xSecret : list Z.
Variable ownUID deviceID : string.

Definition receipt (kind from id : string) (g : direct) : direct :=
  match OMap.get from (conversations g) with
  | Some c => if bool_decide (id = ""%string) then g else set_conversation from (c <| c_messages := applyReceipt kind id (c_messages c) |>) g
  | None => g
  end.

(** ** Copies sealed the old way *)

Definition sender_device (data : json) (d : trusted_device) : bool :=
  is_text (field "sender_device_id" data) (DeviceTrust.deviceID d) && is_text (field "sender_device_key" data) (x25519B64 d).

(** [#receive] with the sender's devices (of the cache, then refreshed), the time and a
    random ID; a text that is no base 64 throws. *)
Definition receive (data : json) (known fresh : list trusted_device) (now : Z) (random_id : string) (g : direct) : direct :=
  if negb (is_text (field "recipient_device_id" data) deviceID) then g else
  let from := field "from_unique_id" data in
  match (if is_text from ownUID then field "to_unique_id" data else from) with
  | Some (JStr peer) =>
    if bool_decide (peer = ""%string) then g else
    let sender := match List.find (sender_device data) known with Some d => Some d | None => List.find (sender_device data) fresh end in
    match match sender with Some d => openDM nc (String_of (field "text" data)) (d_x25519 d) xSecret | None => Some None end with
    | None => g
    | Some plain =>
      let text := match plain with Some t => if isHistoryEnvelope (Some (JStr t)) then None else Some t | None => None end in
      if has_flag "dm_action" data then g                                     (* the old history is read-only *)
      else
        let own := is_text from ownUID in
        let nickname := if own then ""%string else match field "from" data with Some (JStr n) => n | _ => ""%string end in
        (add peer nickname
          [("id", if has_flag "client_msg_id" data then field "client_msg_id" data else Some (JStr random_id)); ("from", from); ("fromNickname", field "from" data);
           ("self", Some (JBool own)); ("body", Some match text with Some t => JStr t | None => JNull end);
           ("verified", Some (JBool match text with Some t => negb (bool_decide (t = ""%string)) | None => false end));
           ("sentAt", Some (JNum now)); ("offline", Some (JBool (has_flag "offline" data)))]%string g).1
    end
  | _ => g
  end.

(** ** Records of the consumer *)

Definition of_peer (record : json) : option string :=
  if is_text (field "scope" record) "direct" && is_text (field "protocol" record) RATCHET_PROTOCOL then
    match field "peer" record with Some (JStr p) => if bool_decide (p = ""%string) then None else Some p | _ => None end
  else None.
Definition own_unconfirmed (record : json) : bool :=
  is_text (field "sender" record) ownUID && has_flag "status" record && negb (is_text (field "status" record) "accepted").
Definition change_record (record : json) : change :=
  Change (field "purpose" record) (field "reference" record) (field "sender" record) (body_text record) RATCHET_PROTOCOL.

Definition prior_of (record m : json) : bool :=
  strict_eq (field "id" m) (field "logicalID" record) && strict_eq (field "from" m) (field "sender" record) && is_ratchet m.
Definition flag_of (k : string) (m : option json) : bool := match m with Some m => has_flag k m | None => false end.

Definition own_status (record : json) : option json :=
  if has_flag "status" record then field "status" record else Some (JStr (if is_text (field "sender" record) ownUID then "" else "received")).
Definition record_base (prior : option json) (record : json) : fields :=
  let own := is_text (field "sender" record) ownUID in
  [("id", field "logicalID" record); ("key", field "key" record); ("protocol", Some ratchet_text); ("from", field "sender" record);
   ("fromNickname", match prior with Some m => or_empty (field "fromNickname" m) | None => Some (JStr "") end);
   ("self", Some (JBool own)); ("copied", Some (JBool (own && has_flag "copied" record)));
   ("body", if flag_of "deleted" prior then Some (JStr "") else if flag_of "edited" prior then prior ≫= field "body" else Some (body_text record));
   ("edited", Some (JBool (flag_of "edited" prior))); ("deleted", Some (JBool (flag_of "deleted" prior))); ("verified", Some (JBool true));
   ("sentAt", field "sentAt" record); ("transport", Some (if has_flag "transport" record then default JNull (field "transport" record) else JObj []));
   ("provenance", Some (JStr "authenticated")); ("origin", None); ("source", None);
   ("pending", Some (JBool (own && is_text (own_status record) "pending"))); ("queued", Some (JBool false));
   ("failed", Some (JBool (own && (is_text (own_status record) "rejected" || is_text (own_status record) "aborted"))))]%string.
Definition record_fields (prior : option json) (record : json) : fields :=
  record_base prior record ++
  if is_text (field "sender" record) ownUID && is_text (own_status record) "accepted"
  then [("receipt"%string, match prior with Some m => if has_flag "receipt" m then field "receipt" m else Some (JStr "sent") | None => Some (JStr "sent") end)] else [].

Definition unquarantine (peer : string) (delivery : option json) (g : direct) : direct :=
  match OMap.get peer (conversations g) with
  | Some c => if truthy delivery
      then set_conversation peer (c <| c_messages := filter (fun m => negb (has_id ("quarantine:" +:+ String_of delivery) m) = true) (c_messages c) |>) g else g
  | None => g
  end.

Definition project (record : json) (g : direct) : direct :=
  match of_peer record with
  | None => g
  | Some peer =>
    if is_change record then (if own_unconfirmed record then g else applyChange peer (change_record record) g)
    else
      let prior := List.find (prior_of record) (messages_with peer g) in
      unquarantine peer (match field "transport" record with Some t => field "delivery" t | None => None end) (add peer "" (record_fields prior record) g).1
  end.

(** ** Placeholders, own messages and transferred records *)

Definition quarantine_fields (now : Z) (q : json) : fields :=
  [("id", Some (JStr (quarantine_id q))); ("protocol", Some ratchet_text); ("from", Some (JStr "")); ("self", Some (JBool false));
   ("unattributed", Some (JBool true)); ("body", Some JNull); ("verified", Some (JBool false)); ("quarantined", field "code" q);
   ("sentAt", if has_flag "seenAt" q then field "seenAt" q else Some (JNum now))]%string.

Definition direct_place (g : direct) (q : json) : option string :=
  if is_text (field "scope" q) "direct" then
    match field "peer" q with
    | Some (JStr p) => if negb (bool_decide (p = ""%string)) && existsb (fun m => negb (has_flag "quarantined" m)) (messages_with p g) then Some p else None
    | _ => None
    end
  else None.

Definition place_one (now : Z) (s : direct * list string) (q : json) : direct * list string :=
  let (g, current) := s in
  match direct_place g q with
  | None => s
  | Some p =>
    let current := quarantine_id q :: current in
    if existsb (fun m => has_id (quarantine_id q) m && has_flag "unattributed" m) (messages_with p g) then (g, current)
    else ((add p "" (quarantine_fields now q) g).1, current)
  end.

Definition sweep_one (current : list string) (g : direct) (peer : string) : direct :=
  match OMap.get peer (conversations g) with
  | Some c => set_conversation peer (c <| c_messages := filter (fun m => still_placed current m = true) (c_messages c) |>) g
  | None => g
  end.

Definition show_quarantined (now : Z) (l : list json) (g : direct) : direct :=
  let (g, current) := foldl (place_one now) (g, []) l in
  foldl (sweep_one current) g (OMap.keys (conversations g)).

Definition own_message (id : string) (m : json) : bool := is_text (field "id" m) id && is_text (field "from" m) ownUID && is_ratchet m.
Definition own_fields (id nickname : string) (body : option json) (sentAt : json) (state : fields) : fields :=
  [("id", Some (JStr id)); ("protocol", Some ratchet_text); ("from", Some (JStr ownUID)); ("fromNickname", Some (JStr nickname));
   ("self", Some (JBool true)); ("body", body); ("verified", Some (JBool true)); ("sentAt", Some sentAt)]%string ++ state.

(** [#sendRatchet] up to its call of the consumer; [existing] is what it found then. *)
Definition sent_before (peer id : string) (g : direct) : option json := List.find (own_message id) (messages_with peer g).
Definition start_sending (peer id nickname : string) (text sentAt : json) (g : direct) : direct :=
  match sent_before peer id g with
  | Some _ => g
  | None => (add peer "" (own_fields id nickname (Some text) sentAt [("pending", Some (JBool true)); ("queued", Some (JBool false))]%string) g).1
  end.

Definition sent_at (record : option json) (sentAt : json) : json :=
  match record with Some r => if has_flag "sentAt" r then default JNull (field "sentAt" r) else sentAt | None => sentAt end.
Definition finish_sending (peer id nickname : string) (text sentAt : json) (existing : option json) (a : send_answer) (g : direct) : direct :=
  match a with
  | Sent => g
  | CommittedAccepted record owned =>
    if owned then (add peer "" (own_fields id nickname (Some (text_or_empty record)) (sent_at (Some record) sentAt)
      [("pending", Some (JBool false)); ("queued", Some (JBool false)); ("failed", Some (JBool false));
       ("receipt", match existing with Some m => if has_flag "receipt" m then field "receipt" m else Some (JStr "sent") | None => Some (JStr "sent") end)]%string) g).1
    else g
  | Failed record retryable =>
    let body := match record, existing with
      | Some r, _ => text_or_empty r
      | None, Some m => match field "body" m with Some JNull | None => text | Some b => b end
      | None, None => text
      end in
    (add peer "" (own_fields id nickname (Some body) (sent_at record sentAt)
      [("pending", Some (JBool false)); ("failed", Some (JBool (negb retryable))); ("queued", Some (JBool retryable))]%string) g).1
  end.

Definition show_queued (peer id nickname : string) (text sentAt : json) (expired : bool) (g : direct) : direct :=
  let existing := List.find (own_message id) (messages_with peer g) in
  match existing with
  | Some m => if negb (has_flag "queued" m) && negb (has_flag "failed" m) then g
      else (add peer "" (own_fields id nickname (field "body" m) sentAt [("queued", Some (JBool (negb expired))); ("failed", Some (JBool expired))]%string) g).1
  | None => (add peer "" (own_fields id nickname (Some text) sentAt [("queued", Some (JBool (negb expired))); ("failed", Some (JBool expired))]%string) g).1
  end.

Definition discard (peer id : string) (g : direct) : direct :=
  match OMap.get peer (conversations g) with
  | Some c => set_conversation peer (c <| c_messages := filter (fun m => negb (is_text (field "id" m) id) || negb (has_flag "queued" m || has_flag "failed" m) = true) (c_messages c) |>) g
  | None => g
  end.

Definition deleteHistory (peer : string) (g : direct) : direct := g <| conversations := OMap.del peer (conversations g) |>.

(** [Number(v)] for integers; [None] is not a number.  Texts with a fraction, an exponent or
    another base are outside the integers of the model. *)
Definition digits_value (l : list Z) : option Z :=
  match l with [] => None | _ => if forallb is_digit l then Some (fst (parse_digits l 0)) else None end.
Definition number_text (s : string) : option Z :=
  match bytes_of (trim s) with
  | [] => Some 0
  | 45 :: r => Z.opp <$> digits_value r
  | 43 :: r => digits_value r
  | l => digits_value l
  end.
Definition number_of (v : option json) : option Z :=
  match v with
  | Some (JNum n) => Some n
  | Some (JBool b) => Some (if b then 1 else 0)
  | Some JNull => Some 0
  | Some (JStr t) => number_text t
  | Some (JArr l) => number_text (js_String (JArr l))
  | _ => None
  end.

(** [historyRecord]: one transferred message of the conversation with [peer]. *)
Definition historyRecord (m : json) (sourceDevice : string) (now n : Z) : option (string * json) :=
  match field "peer" m, field "body" m, field "from" m with
  | Some (JStr peer), Some (JStr body), Some (JStr from0) =>
    if bool_decide (peer = ""%string) then None else
    let from := if bool_decide (from0 = ""%string) && negb (has_flag "protocol" m) then (if has_flag "self" m then ownUID else peer) else from0 in
    if negb (bool_decide (from = peer)) && negb (bool_decide (from = ownUID)) then None else
    if negb (bool_decide (peer = ownUID)) && negb (Bool.eqb (has_flag "self" m) (bool_decide (from = ownUID))) then None else
    match number_of (field "sent_at" m) with
    | Some sentAt =>
      if (sentAt <=? 0) || (now + 300 <? sentAt) then None else
      let base := [("from", JStr from); ("fromNickname", match field "from_nickname" m with Some (JStr s) => JStr s | _ => JStr "" end);
                   ("self", JBool (bool_decide (from = ownUID))); ("body", JStr body); ("sentAt", JNum sentAt); ("copied", JBool true)]%string in
      if negb (has_flag "protocol" m) then
        let id := if has_flag "client_msg_id" m then default JNull (field "client_msg_id" m)
                  else JStr ("history-" +:+ peer +:+ "-" +:+ String_of (field "sent_at" m) +:+ "-" +:+ text (print_num n)) in
        Some (peer, JObj (base ++ [("id"%string, id); ("verified"%string, JBool true)]))
      else
        match field "client_msg_id" m with
        | Some (JStr id) =>
          if is_text (field "protocol" m) RATCHET_PROTOCOL && (is_text (field "provenance" m) "authenticated" || is_text (field "provenance" m) "transferred") &&
             negb (bool_decide (id = ""%string)) && negb (512 <? utf16_length id) && negb (bool_decide (from0 = ""%string)) && negb (bool_decide (body = ""%string)) &&
             negb (has_flag "self" m && negb (bool_decide (from0 = ownUID)))
          then Some (peer, JObj (base ++ [("id", JStr id); ("protocol", ratchet_text); ("verified", JBool true);
                 ("provenance", JStr "transferred"); ("origin", JObj [("provenance", default JNull (field "provenance" m))]);
                 ("source", JObj [("device", JStr sourceDevice)])]%string))
          else None
        | _ => None
        end
    | None => None
    end
  | _, _, _ => None
  end.

(** A transferred record never overwrites one that this device holds. *)
Definition import_record (peer nickname : string) (message : json) (g : direct) : direct * bool :=
  if has_flag "protocol" message && existsb (fun x => same x message) (messages_with peer g) then (g, false)
  else add peer nickname (with_fields message []) g.

(** ** Turns *)

Inductive direct_event :=
| Receive (data : json) (known fresh : list trusted_device) (now : Z) (random_id : string)
| Receipt (kind from id : string)
| Projected (record : json)
| Microtask
| Quarantined (now : Z) (l : list json)
| StartSending (peer id nickname : string) (text sentAt : json)
| FinishSending (peer id nickname : string) (text sentAt : json) (existing : option json) (a : send_answer)
| Queued (peer id nickname : string) (text sentAt : json) (expired : bool)
| Discard (peer id : string)
| DeleteHistory (peer : string)
| Import (m : json) (sourceDevice nickname : string) (now n : Z).

Definition direct_turn (g : direct) (e : direct_event) : direct :=
  match e with
  | Receive data known fresh now random_id => receive data known fresh now random_id g
  | Receipt kind from id => receipt kind from id g
  | Projected record => project record g
  | Microtask => microtask g
  | Quarantined now l => show_quarantined now l g
  | StartSending peer id nickname text sentAt => start_sending peer id nickname text sentAt g
  | FinishSending peer id nickname text sentAt existing a => finish_sending peer id nickname text sentAt existing a g
  | Queued peer id nickname text sentAt expired => show_queued peer id nickname text sentAt expired g
  | Discard peer id => discard peer id g
  | DeleteHistory peer => deleteHistory peer g
  | Import m sourceDevice nickname now n =>
    match historyRecord m sourceDevice now n with Some (peer, message) => (import_record peer nickname message g).1 | None => g end
  end.
Definition no_conversations : direct := Direct [] [].
Definition talk (es : list direct_event) : direct := foldl direct_turn no_conversations es.
End direct.

(** ** Members of spread messages *)

(** The last entry for a name. *)
Fixpoint entry_of (k : string) (l : fields) : option (option json) :=
  match l with
  | [] => None
  | (k', v) :: r => match entry_of k r with Some w => Some w | None => if decide (k = k') then Some v else None end
  end.

Lemma field_put_opt k k' v m : field k (put_opt k' v m) = if decide (k = k') then v else field k m.
Proof.
  unfold put_opt. destruct v as [v|]; case_decide as E; subst; [apply field_jset_eq|by apply field_jset_ne|by rewrite field_jdel, decide_True|by apply field_jdel_ne].
Qed.

Lemma field_spread k l m : field k (spread l m) = match entry_of k l with Some v => v | None => field k m end.
Proof.
  unfold spread. revert m. induction l as [|[k' v] l IH]; intros m; [done|]. cbn [foldl entry_of fst snd]. rewrite IH. destruct (entry_of k l); [done|].
  rewrite field_put_opt. by case_decide.
Qed.

Lemma entry_of_app k l l' : entry_of k (l ++ l') = match entry_of k l' with Some v => Some v | None => entry_of k l end.
Proof. induction l as [|[k' v] l IH]; cbn [app entry_of]; [by destruct (entry_of k l')|]. rewrite IH. by destruct (entry_of k l'). Qed.

Lemma entry_of_members k m : entry_of k (map (fun kv : string * json => (kv.1, Some kv.2)) (members m)) = Some <$> field k m.
Proof.
  assert (H : forall l, entry_of k (map (fun kv : string * json => (kv.1, Some kv.2)) l) = Some <$> assoc_last k l).
  { induction l as [|[k' v] l IH]; [done|]. cbn [map entry_of assoc_last fst snd]. rewrite IH. destruct (assoc_last k l); [done|]. by case_decide. }
  by destruct m.
Qed.

Lemma entry_with k m l : entry_of k (with_fields m l) = match entry_of k l with Some v => Some v | None => Some <$> field k m end.
Proof. unfold with_fields. by rewrite entry_of_app, entry_of_members. Qed.

(** An object literal has its entries when each name comes once. *)
Lemma field_literal k (l : fields) : NoDup l.*1 -> field k (obj l) = match entry_of k l with Some v => v | None => None end.
Proof.
  unfold field, obj. induction l as [|[k' v] l IH]; [done|]. cbn [fmap list_fmap omap list_omap fst snd entry_of]. intros [Hn Hl]%NoDup_cons. specialize (IH Hl).
  assert (Hk : entry_of k' l = None).
  { clear -Hn. induction l as [|[k0 v0] l IH]; [done|]. cbn [fmap list_fmap fst] in Hn. apply not_elem_of_cons in Hn as [N1 N2]. cbn [entry_of]. by rewrite IH, decide_False. }
  destruct v as [v|]; cbn [fmap option_fmap option_map assoc_last].
  - rewrite IH. destruct (entry_of k l) as [w|] eqn:E.
    + destruct w; [done|]. case_decide as Ek; [|done]. subst. by rewrite Hk in E.
    + by case_decide.
  - rewrite IH. destruct (entry_of k l) eqn:E; [done|]. by case_decide.
Qed.

Lemma entry_defined k (l : fields) : Forall (fun kv : string * option json => is_Some kv.2) l ->
  assoc_last k (omap (fun kv : string * option json => (fun v => (kv.1, v)) <$> kv.2) l) = match entry_of k l with Some v => v | None => None end /\
  forall v, entry_of k l = Some v -> is_Some v.
Proof.
  induction 1 as [|[k' v] l [x Hx] _ [IH1 IH2]]; [done|]. cbn [snd] in Hx. subst v. cbn [omap list_omap fst snd fmap option_fmap option_map assoc_last entry_of].
  rewrite IH1. destruct (entry_of k l) as [w|]; [destruct (IH2 w eq_refl) as [y ->]; split; [done|intros v [= <-]; eauto]|]. case_decide; split; try done. intros v [= <-]. eauto.
Qed.

Lemma field_with k m l : Forall (fun kv : string * option json => is_Some kv.2) l ->
  field k (obj (with_fields m l)) = match entry_of k l with Some v => v | None => field k m end.
Proof.
  intros Hl. destruct (entry_defined k (with_fields m l)) as [E _].
  { unfold with_fields. apply Forall_app. split; [|done]. apply Forall_map, Forall_forall. intros kv _. cbn. eauto. }
  unfold obj, field at 1. rewrite E, entry_with. destruct (entry_of k l); [done|]. by destruct (field k m).
Qed.

(** ** What a conversation may show as a contact's *)

Section sound.
Variable nc : nacl.
Variable xSecret : list Z.
Variable ownUID deviceID : string.

(** A message of the consumer's protocol from someone else. *)
Definition contacted (m : json) : Prop :=
  is_ratchet m = true /\ truthy (field "id" m) = true /\ exists s, field "from" m = Some (JStr s) /\ s <> ownUID /\ s <> ""%string.

(** [r] is a projected original, [c] a projected change, of the message with this ID and sender. *)
Record original_record (P : list json) (peer : string) (id from : option json) (r : json) : Prop := {
  og_projected : r ∈ P; og_peer : of_peer r = Some peer; og_message : is_change r = false;
  og_id : field "logicalID" r = id; og_sender : field "sender" r = from
}.
Record projected_change (P : list json) (peer : string) (id from : option json) (c : json) : Prop := {
  pc_projected : c ∈ P; pc_peer : of_peer c = Some peer; pc_change : is_change c = true;
  pc_reference : field "reference" c = id; pc_sender : field "sender" c = from
}.

Definition composed (P : list json) (peer : string) (id from : option json) (t : json) : Prop :=
  (exists r, original_record P peer id from r /\ t = body_text r) \/
  exists c, projected_change P peer id from c /\ t = (if is_text (field "purpose" c) "delete" then JStr "" else body_text c).

Definition authenticated (m : json) : bool := is_text (field "provenance" m) "authenticated".

Record held (P : list json) (peer : string) (m : json) : Prop := {
  h_self : has_flag "self" m = false;
  h_settled : has_flag "queued" m = false /\ has_flag "failed" m = false;
  h_quarantined : has_flag "quarantined" m = false;
  h_original : authenticated m = true -> exists r, original_record P peer (field "id" m) (field "from" m) r;
  h_edited : has_flag "edited" m = true -> exists c, projected_change P peer (field "id" m) (field "from" m) c /\ is_text (field "purpose" c) "edit" = true;
  h_deleted : has_flag "deleted" m = true -> exists c, projected_change P peer (field "id" m) (field "from" m) c /\ is_text (field "purpose" c) "delete" = true;
  h_body : authenticated m = true \/ has_flag "edited" m = true -> exists t, field "body" m = Some t /\ composed P peer (field "id" m) (field "from" m) t
}.
Definition sound (P : list json) (peer : string) (m : json) : Prop := contacted m -> held P peer m.

(** A change that waits came from a projected record of this conversation. *)
Definition change_from (P : list json) (peer : string) (ch : change) : Prop :=
  exists c, c ∈ P /\ of_peer c = Some peer /\ is_change c = true /\ ch = change_record c.

Record dinv (P : list json) (g : direct) : Prop := {
  di_sound : forall peer m, m ∈ messages_with peer g -> sound P peer m;
  di_pending : forall peer c ch, OMap.get peer (conversations g) = Some c -> ch ∈ c_pending c -> change_from P peer ch;
  di_micro : forall peer ch, (peer, ch) ∈ micro g -> change_from P peer ch
}.

Lemma composed_grow P P' peer id from t : P ⊆ P' -> composed P peer id from t -> composed P' peer id from t.
Proof. intros HP [(r & [] & ->)|(c & [] & ->)]; [left; exists r|right; exists c]; split; try done; split; auto. Qed.
Lemma held_grow P P' peer m : P ⊆ P' -> held P peer m -> held P' peer m.
Proof.
  intros HP [H1 H2 H3 H4 H5 H6 H7]. split; try done.
  - intros (r & [])%H4. exists r. split; auto.
  - intros (c & [] & ?)%H5. exists c. split; [split; auto|done].
  - intros (c & [] & ?)%H6. exists c. split; [split; auto|done].
  - intros (t & ? & ?)%H7. exists t. split; [done|by eapply composed_grow].
Qed.
Lemma dinv_grow P P' g : P ⊆ P' -> dinv P g -> dinv P' g.
Proof.
  intros HP [H1 H2 H3]. assert (Hc : forall peer ch, change_from P peer ch -> change_from P' peer ch) by (intros peer ch (c & ? & ?); exists c; auto).
  split; [intros peer m Hm Hx; eapply held_grow; [done|by apply H1]|intros; eauto|eauto].
Qed.

(** Nothing of a contact's: another protocol, an own message, a placeholder. *)
Lemma foreign_protocol P peer m : is_ratchet m = false -> sound P peer m.
Proof. intros H [H' _]. congruence. Qed.
Lemma own_sender P peer m s : field "from" m = Some (JStr s) -> s = ownUID \/ s = ""%string -> sound P peer m.
Proof. intros H Hs (_ & _ & s' & H' & N1 & N2). rewrite H in H'. injection H' as <-. by destruct Hs. Qed.

Lemma or_empty_eq a b : strict_eq (or_empty a) (or_empty b) = true -> or_empty a = or_empty b.
Proof. apply strict_eq_eq. Qed.
Lemma or_empty_text a s : s <> ""%string -> or_empty a = Some (JStr s) -> a = Some (JStr s).
Proof. unfold or_empty. destruct (truthy a); [done|]. intros N [= <-]. done. Qed.
Lemma or_empty_self s : s <> ""%string -> or_empty (Some (JStr s)) = Some (JStr s).
Proof. intros N. unfold or_empty. cbn. by rewrite bool_decide_eq_false_2. Qed.

(** The three parts of [same], against a contact's message. *)
Lemma same_contact x m : contacted x -> same x m = true ->
  field "id" m = field "id" x /\ field "from" m = field "from" x /\ field "protocol" m = field "protocol" x.
Proof.
  intros (Hr & _ & s & Hs & N1 & N2). unfold same. rewrite !andb_true_iff. intros [[[_ E1%strict_eq_eq] E2%or_empty_eq] E3%or_empty_eq].
  apply bool_decide_eq_true in Hr. rewrite Hs, or_empty_self in E2 by done. rewrite Hr, or_empty_self in E3 by done.
  symmetry in E2, E3. apply or_empty_text in E2, E3; try done. by rewrite Hr, Hs, E2, E3.
Qed.
Lemma same_ratchet x m : same x m = true -> is_ratchet m = is_ratchet x.
Proof.
  unfold same. rewrite !andb_true_iff. intros [_ E3%or_empty_eq]. unfold is_ratchet, is_text. apply bool_decide_ext.
  split; intros E; rewrite E in E3; rewrite or_empty_self in E3 by done; [|symmetry in E3]; by apply or_empty_text in E3.
Qed.

(** ** Adding a message *)

Lemma opened_messages peer nickname g : c_messages (opened peer nickname g) = messages_with peer g.
Proof. unfold opened, messages_with. case_bool_decide; by destruct (OMap.get peer (conversations g)). Qed.
Lemma opened_pending P peer nickname g ch : dinv P g -> ch ∈ c_pending (opened peer nickname g) -> change_from P peer ch.
Proof.
  intros Hg. assert (E : c_pending (opened peer nickname g) = default [] (c_pending <$> OMap.get peer (conversations g)))
    by (unfold opened; case_bool_decide; by destruct (OMap.get peer (conversations g))). rewrite E.
  destruct (OMap.get peer (conversations g)) as [c|] eqn:Ec; [by eapply di_pending|by intros ?%elem_of_nil].
Qed.

Lemma set_conversation_with peer c g peer' : messages_with peer' (set_conversation peer c g) = if decide (peer' = peer) then c_messages c else messages_with peer' g.
Proof. unfold messages_with, set_conversation. cbn [conversations set_field]. rewrite OMap.get_set. by case_decide. Qed.

Lemma set_conversation_inv P peer c g : dinv P g -> (forall m, m ∈ c_messages c -> sound P peer m) -> (forall ch, ch ∈ c_pending c -> change_from P peer ch) ->
  dinv P (set_conversation peer c g).
Proof.
  intros [H1 H2 H3] Hm Hp. split; [| |exact H3].
  - intros peer' m. rewrite set_conversation_with. case_decide; [subst; apply Hm|apply H1].
  - intros peer' c' ch. unfold set_conversation. cbn [conversations set_field]. rewrite OMap.get_set. case_decide; [intros [= <-]; subst; apply Hp|apply H2].
Qed.

Lemma add_inv P peer nickname message g : dinv P g ->
  (forall x, x ∈ messages_with peer g -> same x (obj message) = true -> sound P peer x -> sound P peer (spread message x)) ->
  (existsb (fun x => same x (obj message)) (messages_with peer g) = false -> sound P peer (obj message)) ->
  dinv P (add peer nickname message g).1.
Proof.
  intros Hg Hsame Hnew. unfold add. rewrite opened_messages. destruct (existsb _ _) eqn:Ex; cbn [fst].
  - apply set_conversation_inv; [done| |intros ch; by apply opened_pending]. cbn [c_messages set_field]. intros m [Hm|(x & Hx & Es & ->)]%update_first_elem.
    + by apply (di_sound _ _ Hg).
    + apply Hsame; [done..|by apply (di_sound _ _ Hg)].
  - set (c1 := Conversation _ _ _). set (g1 := set_conversation peer c1 g). assert (Hg1 : dinv P g1).
    { apply set_conversation_inv; [done| |]; cbn [c1 c_messages c_pending].
      - intros m Hm. assert (Hin : m ∈ merge_sort earlier (messages_with peer g ++ [obj message])) by (eapply elem_of_sublist; [exact Hm|apply sublist_drop]).
        rewrite merge_sort_Permutation, elem_of_app, list_elem_of_singleton in Hin. destruct Hin as [Hin| ->]; [by apply (di_sound _ _ Hg)|by apply Hnew].
      - intros ch [_ Hch]%list_elem_of_filter. by eapply opened_pending. }
    destruct Hg1 as [H1 H2 H3]. split; [exact H1|exact H2|]. cbn [micro set_field]. intros peer' ch [Hin|(ch' & E & Hin)%list_elem_of_fmap]%elem_of_app; [by apply H3|].
    injection E as -> ->. apply list_elem_of_filter in Hin as [_ Hin]. by eapply opened_pending.
Qed.

(** A message that is not touched stays while there is room. *)
Definition room (n : nat) (peer : string) (g : direct) : Prop := Z.of_nat (length (messages_with peer g) + n) <= MAX_MESSAGES.
Lemma add_keeps peer nickname message g peer' m n : m ∈ messages_with peer' g -> room (S n) peer' g ->
  (peer' = peer -> same m (obj message) = false) ->
  m ∈ messages_with peer' (add peer nickname message g).1 /\ room n peer' (add peer nickname message g).1.
Proof.
  unfold room. intros Hm Hr Hs. unfold add. rewrite opened_messages. destruct (existsb _ _) eqn:Ex; cbn [fst].
  - rewrite set_conversation_with. case_decide as E; [|split; [done|lia]]. subst peer'. cbn [c_messages set_field]. split; [by apply update_first_keeps; auto|].
    assert (L : forall p f (l : list json), length (update_first p f l) = length l) by (intros p f l; induction l as [|x l IH]; cbn [update_first]; [done|]; destruct (p x); cbn; by rewrite ?IH).
    rewrite L. lia.
  - match goal with |- context [set_field micro _ ?g1] => change (messages_with peer' (set_field micro _ g1)) with (messages_with peer' g1) end.
    rewrite set_conversation_with. case_decide as E; [|split; [done|lia]]. subst peer'. cbn [c_messages].
    assert (L : length (merge_sort earlier (messages_with peer g ++ [obj message])) = S (length (messages_with peer g))).
    { rewrite (Permutation_length (merge_sort_Permutation _ _)), length_app. cbn. lia. }
    rewrite L. assert (D : (S (length (messages_with peer g)) - Z.to_nat MAX_MESSAGES = 0)%nat) by lia. rewrite D, drop_0. split; [|rewrite L; lia].
    rewrite merge_sort_Permutation. apply elem_of_app. by left.
Qed.

(** What is never a contact's: a message of the old protocol, an own one, a placeholder. *)
Inductive harmless (message : fields) : Prop :=
| harmless_old : entry_of "protocol" message = None -> field "protocol" (obj message) = None -> harmless message
| harmless_sender s : entry_of "from" message = Some (Some (JStr s)) -> field "from" (obj message) = Some (JStr s) -> s = ownUID \/ s = ""%string -> harmless message.

Lemma harmless_apart message m : harmless message -> contacted m -> same m (obj message) = false.
Proof.
  intros Hh Hm. destruct (same m (obj message)) eqn:Es; [|done]. exfalso. destruct Hh as [_ Hp|s _ Hf Hs].
  - pose proof (same_ratchet _ _ Es) as Hr. destruct Hm as [Hm _]. unfold is_ratchet at 1 in Hr. by rewrite Hp, Hm in Hr.
  - destruct (same_contact _ _ Hm Es) as (_ & Ef & _). destruct Hm as (_ & _ & s' & Hs' & N1 & N2). rewrite Hf, Hs' in Ef. injection Ef as ->. by destruct Hs.
Qed.

Lemma harmless_inv P peer nickname message g : harmless message -> dinv P g -> dinv P (add peer nickname message g).1.
Proof.
  intros Hh Hg. apply add_inv; [done| |].
  - intros x Hx Es _. destruct Hh as [He Hp|s He Hf Hs].
    + apply foreign_protocol. unfold is_ratchet. rewrite field_spread, He. change (is_ratchet x = false). rewrite <- (same_ratchet _ _ Es). unfold is_ratchet. by rewrite Hp.
    + apply (own_sender P peer _ s); [|done]. by rewrite field_spread, He.
  - intros _. destruct Hh as [He Hp|s He Hf Hs]; [apply foreign_protocol; unfold is_ratchet; by rewrite Hp|by apply (own_sender P peer _ s)].
Qed.

Lemma harmless_keeps peer nickname message g peer' m n : harmless message -> contacted m -> m ∈ messages_with peer' g -> room (S n) peer' g ->
  m ∈ messages_with peer' (add peer nickname message g).1 /\ room n peer' (add peer nickname message g).1.
Proof. intros Hh Hc Hm Hr. apply add_keeps; [done..|]. intros _. by apply harmless_apart. Qed.

Ltac distinct_names := cbn [fmap list_fmap map fst app]; apply (bool_decide_unpack _); vm_compute; reflexivity.

Lemma own_harmless id nickname body sentAt state : NoDup (own_fields ownUID id nickname body sentAt state).*1 -> entry_of "from" state = None ->
  harmless (own_fields ownUID id nickname body sentAt state).
Proof.
  intros Hn Hs. assert (E : entry_of "from" (own_fields ownUID id nickname body sentAt state) = Some (Some (JStr ownUID))).
  { unfold own_fields. by rewrite entry_of_app, Hs. }
  apply (harmless_sender _ ownUID); [exact E| |by left]. by rewrite field_literal, E.
Qed.

Lemma quarantine_harmless now q : harmless (quarantine_fields now q).
Proof. apply (harmless_sender _ ""%string); [done| |by right]. by rewrite field_literal by (unfold quarantine_fields; distinct_names). Qed.

(** *** Turns that leave contacts' messages alone *)

Definition calm (P : list json) (n : nat) (g g' : direct) : Prop :=
  dinv P g' /\ forall peer m, contacted m -> m ∈ messages_with peer g -> room n peer g -> m ∈ messages_with peer g'.

Lemma calm_same P n g : dinv P g -> calm P n g g.
Proof. by split. Qed.
Lemma harmless_calm P peer nickname message g : harmless message -> dinv P g -> calm P 1 g (add peer nickname message g).1.
Proof. intros Hh Hg. split; [by apply harmless_inv|]. intros peer' m Hc Hm Hr. by apply (harmless_keeps peer nickname message g peer' m 0). Qed.

Lemma receive_calm P data known fresh now rid g : dinv P g -> calm P 1 g (receive nc xSecret ownUID deviceID data known fresh now rid g).
Proof.
  intros Hg. unfold receive. destruct (negb _); [by apply calm_same|]. destruct (if is_text _ _ then _ else _) as [[| | |peer| |]|]; try by apply calm_same.
  case_bool_decide; [by apply calm_same|]. match goal with |- calm _ _ _ (match ?x with Some _ => _ | None => _ end) => destruct x as [plain|] end; [|by apply calm_same].
  destruct (has_flag "dm_action" data); [by apply calm_same|]. apply harmless_calm; [|done]. apply harmless_old; [done|]. by rewrite field_literal by distinct_names.
Qed.

Lemma start_calm P peer id nickname text sentAt g : dinv P g -> calm P 1 g (start_sending ownUID peer id nickname text sentAt g).
Proof. intros Hg. unfold start_sending. destruct (sent_before _ _ _ _); [by apply calm_same|]. apply harmless_calm; [|done]. apply own_harmless; [distinct_names|done]. Qed.
Lemma finish_calm P peer id nickname text sentAt existing a g : dinv P g -> calm P 1 g (finish_sending ownUID peer id nickname text sentAt existing a g).
Proof.
  intros Hg. unfold finish_sending. destruct a as [|r [|]|r b]; try by apply calm_same.
  - apply harmless_calm; [|done]. apply own_harmless; [distinct_names|done].
  - apply harmless_calm; [|done]. apply own_harmless; [distinct_names|done].
Qed.
Lemma queued_calm P peer id nickname text sentAt expired g : dinv P g -> calm P 1 g (show_queued ownUID peer id nickname text sentAt expired g).
Proof.
  intros Hg. unfold show_queued. destruct (List.find _ _) as [m|]; [destruct (_ && _); [by apply calm_same|]|];
    (apply harmless_calm; [|done]; apply own_harmless; [distinct_names|done]).
Qed.

(** *** Messages taken out *)

Lemma with_messages_calm P n peer c l g : dinv P g -> OMap.get peer (conversations g) = Some c ->
  (forall m, m ∈ l -> sound P peer m) -> (forall m, contacted m -> m ∈ c_messages c -> m ∈ l) -> calm P n g (set_conversation peer (c <| c_messages := l |>) g).
Proof.
  intros Hg Hc Hl Hk. split.
  - apply set_conversation_inv; [done|exact Hl|]. intros ch Hch. exact (di_pending _ _ Hg peer c ch Hc Hch).
  - intros peer' m Hm Hin _. rewrite set_conversation_with. case_decide; [|done]. subst peer'. cbn [c_messages set_field]. apply Hk; [done|].
    unfold messages_with in Hin. by rewrite Hc in Hin.
Qed.

Lemma filtered_calm P n peer c (Q : json -> Prop) `{!forall m, Decision (Q m)} g : dinv P g -> OMap.get peer (conversations g) = Some c ->
  (forall m, contacted m -> held P peer m -> Q m) -> calm P n g (set_conversation peer (c <| c_messages := filter Q (c_messages c) |>) g).
Proof.
  intros Hg Hc HQ. assert (Hs : forall m, m ∈ c_messages c -> sound P peer m) by (intros m Hm; apply (di_sound _ _ Hg); unfold messages_with; by rewrite Hc).
  apply with_messages_calm; [done|done| |].
  - intros m [_ Hm]%list_elem_of_filter. auto.
  - intros m Hm Hin. apply list_elem_of_filter. split; [|done]. by apply HQ, Hs.
Qed.

Lemma discard_calm P n peer id g : dinv P g -> calm P n g (discard peer id g).
Proof.
  intros Hg. unfold discard. destruct (OMap.get peer (conversations g)) as [c|] eqn:Ec; [|by apply calm_same]. apply filtered_calm; [done..|].
  intros m _ [_ [H1 H2] _ _ _ _ _]. rewrite H1, H2. by destruct (is_text _ _).
Qed.

Lemma sweep_calm P n current l g : dinv P g -> calm P n g (foldl (sweep_one current) g l).
Proof.
  revert g. induction l as [|p l IH]; intros g Hg; [by apply calm_same|]. cbn [foldl]. assert (H1 : calm P n g (sweep_one current g p)).
  { unfold sweep_one. destruct (OMap.get p (conversations g)) as [c|] eqn:Ec; [|by apply calm_same]. apply filtered_calm; [done..|].
    intros m _ Hh. unfold still_placed. by rewrite (h_quarantined _ _ _ Hh). }
  destruct H1 as [H1 H2]. destruct (IH _ H1) as [H3 H4]. split; [done|]. intros peer m Hm Hin Hr. apply H4; [done|by apply H2|].
  unfold sweep_one. destruct (OMap.get p (conversations g)) as [c|] eqn:Ec; [|done]. unfold room in *. rewrite set_conversation_with. case_decide; [|done]. subst.
  cbn [c_messages set_field]. unfold messages_with in Hr. rewrite Ec in Hr. cbn in Hr. pose proof (length_filter (fun m => still_placed current m = true) (c_messages c)). lia.
Qed.

Lemma place_calm P now k l g current : dinv P g ->
  dinv P (foldl (place_one now) (g, current) l).1 /\
  forall peer m, contacted m -> m ∈ messages_with peer g -> room (length l + k) peer g ->
    m ∈ messages_with peer (foldl (place_one now) (g, current) l).1 /\ room k peer (foldl (place_one now) (g, current) l).1.
Proof.
  revert g current. induction l as [|q l IH]; intros g current Hg; [by split|]. cbn [foldl length place_one Nat.add].
  assert (Hweak : forall peer, room (S (length l + k)) peer g -> room (length l + k) peer g) by (unfold room; lia).
  destruct (direct_place g q) as [p|]; [destruct (existsb _ _)|].
  - destruct (IH g (quarantine_id q :: current) Hg) as [H1 H2]. split; [done|]. intros peer m Hc Hm Hr. auto.
  - assert (Hq := quarantine_harmless now q). destruct (IH _ (quarantine_id q :: current) (harmless_inv P p "" _ g Hq Hg)) as [H1 H2]. split; [done|].
    intros peer m Hc Hm Hr. destruct (harmless_keeps p "" _ g peer m _ Hq Hc Hm Hr). auto.
  - destruct (IH g current Hg) as [H1 H2]. split; [done|]. intros peer m Hc Hm Hr. auto.
Qed.

Lemma quarantined_calm P now l g : dinv P g -> calm P (length l) g (show_quarantined now l g).
Proof.
  intros Hg. unfold show_quarantined. destruct (place_calm P now 0 l g [] Hg) as [H1 H2]. destruct (foldl _ _ _) as [g' current]. cbn [fst] in *.
  destruct (sweep_calm P 0 current (OMap.keys (conversations g')) g' H1) as [H3 H4]. split; [done|]. intros peer m Hc Hm Hr.
  destruct (H2 peer m Hc Hm) as [H5 H6]; [by rewrite Nat.add_0_r|]. auto.
Qed.

(** *** Receipts *)

Lemma receipt_unseen P peer kind t b m : sound P peer m -> sound P peer (with_receipt kind t b m) /\ (contacted m -> with_receipt kind t b m = m).
Proof.
  intros Hs. assert (Hself : contacted m -> has_flag "self" m = false) by (intros Hc; by apply (h_self _ _ _ (Hs Hc))).
  unfold with_receipt. destruct (has_flag "self" m) eqn:Es; cbn [negb orb]; [|by split]. destruct (unsettled m); [by split|]. destruct (_ && _); [|by split].
  split; [|intros Hc; by apply Hself in Hc]. intros Hc. exfalso. assert (Hc' : contacted m).
  { destruct Hc as (H1 & H2 & H3). unfold is_ratchet in H1. rewrite !field_jset_ne in * by done. by split. }
  by apply Hself in Hc'.
Qed.

Lemma receipt_calm P n kind from id g : dinv P g -> calm P n g (receipt kind from id g).
Proof.
  intros Hg. unfold receipt. destruct (OMap.get from (conversations g)) as [c|] eqn:Ec; [|by apply calm_same]. case_bool_decide; [by apply calm_same|].
  assert (Hs : forall m, m ∈ c_messages c -> sound P from m) by (intros m Hm; apply (di_sound _ _ Hg); unfold messages_with; by rewrite Ec).
  apply with_messages_calm; [done|done| |]; unfold applyReceipt; destruct (first_index _ _) as [i|]; try done; destruct (_ =? 0); try done.
  - intros m Hm. apply list_elem_of_lookup in Hm as [j Hj]. rewrite list_lookup_imap in Hj. destruct (c_messages c !! j) as [x|] eqn:Ex; [|done]. cbn in Hj. injection Hj as <-.
    by apply (receipt_unseen P from), Hs, list_elem_of_lookup_2 with j.
  - intros m Hc Hm. pose proof (Hs m Hm) as Hsm. apply list_elem_of_lookup in Hm as [j Hj]. apply list_elem_of_lookup. exists j. rewrite list_lookup_imap, Hj. cbn.
    by rewrite (proj2 (receipt_unseen P from kind _ _ m Hsm) Hc).
Qed.

(** *** Changes *)

Definition change_entries (ch : change) (deletes : bool) : fields :=
  if deletes then [("body", Some (JStr "")); ("deleted", Some (JBool true)); ("edited", Some (JBool false))]%string
  else [("body", Some (c_text ch)); ("edited", Some (JBool true))]%string.

Lemma entries_other ch deletes k : k <> "body"%string -> k <> "deleted"%string -> k <> "edited"%string -> entry_of k (change_entries ch deletes) = None.
Proof. intros N1 N2 N3. unfold change_entries. destruct deletes; cbn [entry_of]; by rewrite !decide_False. Qed.

(** A message that takes over the members of [m] and the change. *)
Definition merged (ch : change) (deletes : bool) (m x : json) : json := spread (with_fields m (change_entries ch deletes)) x.
Lemma field_merged ch deletes m x k : field k (merged ch deletes m x) =
  match entry_of k (change_entries ch deletes) with Some v => v | None => match field k m with Some v => Some v | None => field k x end end.
Proof. unfold merged. rewrite field_spread, entry_with. destruct (entry_of k _); [done|]. by destruct (field k m). Qed.
Lemma field_changed ch deletes m k : field k (obj (with_fields m (change_entries ch deletes))) =
  match entry_of k (change_entries ch deletes) with Some v => v | None => field k m end.
Proof. apply field_with. unfold change_entries. destruct deletes; repeat constructor; eauto. Qed.

Lemma merged_flag ch deletes m x k : entry_of k (change_entries ch deletes) = None -> has_flag k m = false -> has_flag k x = false -> has_flag k (merged ch deletes m x) = false.
Proof. unfold has_flag. intros E H1 H2. rewrite field_merged, E. by destruct (field k m). Qed.
Lemma merged_case ch deletes m x k : entry_of k (change_entries ch deletes) = None ->
  field k (merged ch deletes m x) = field k m \/ field k (merged ch deletes m x) = field k x.
Proof. intros E. rewrite field_merged, E. destruct (field k m); auto. Qed.

Lemma merged_sound P peer ch deletes m x c : concerns ch m = true -> same x (obj (with_fields m (change_entries ch deletes))) = true ->
  c ∈ P -> of_peer c = Some peer -> is_change c = true -> ch = change_record c -> is_text (field "purpose" c) "delete" = deletes ->
  sound P peer m -> sound P peer x -> sound P peer (merged ch deletes m x).
Proof.
  intros Hcon Hs HP Hpe Hch -> Hd Sm Sx Hc. set (y := merged _ _ _ _) in *.
  pose proof (entries_other (change_record c) deletes) as En.
  unfold same in Hs. rewrite !andb_true_iff in Hs. destruct Hs as [[[Ht E1%strict_eq_eq] E2%or_empty_eq] E3%or_empty_eq]. rewrite field_changed, En in E1, E2, E3 by done.
  destruct Hc as (Hr & Hid & s & Hf & N1 & N2). pose proof Hr as Hr'. apply bool_decide_eq_true in Hr'.
  (* both messages are the contact's, with one ID *)
  assert (Efrom : field "from" m = Some (JStr s) /\ field "from" x = Some (JStr s)).
  { destruct (merged_case (change_record c) deletes m x "from" ltac:(by apply En)) as [E|E]; fold y in E; rewrite Hf in E.
    - split; [done|]. rewrite <- E, or_empty_self in E2 by done. by apply or_empty_text.
    - split; [|done]. rewrite <- E, or_empty_self in E2 by done. symmetry in E2. by apply or_empty_text. }
  assert (Eprot : field "protocol" m = Some ratchet_text /\ field "protocol" x = Some ratchet_text).
  { destruct (merged_case (change_record c) deletes m x "protocol" ltac:(by apply En)) as [E|E]; fold y in E; rewrite Hr' in E.
    - split; [done|]. rewrite <- E, or_empty_self in E3 by done. by apply or_empty_text.
    - split; [|done]. rewrite <- E, or_empty_self in E3 by done. symmetry in E3. by apply or_empty_text. }
  destruct Efrom as [Fm Fx], Eprot as [Pm Px]. assert (Eid : field "id" y = field "id" m).
  { destruct (merged_case (change_record c) deletes m x "id" ltac:(by apply En)) as [E|E]; fold y in E; congruence. }
  assert (Cm : contacted m) by (split; [by apply bool_decide_eq_true_2|split; [by rewrite <- E1|eauto]]).
  assert (Cx : contacted x) by (split; [by apply bool_decide_eq_true_2|split; [done|eauto]]).
  specialize (Sm Cm). specialize (Sx Cx). destruct Sm as [M1 [M2 M2'] M3 M4 M5 M6 M7], Sx as [X1 [X2 X2'] X3 X4 X5 X6 X7].
  rewrite E1, Fx in X4, X5, X6, X7. rewrite Fm in M4, M5, M6, M7.
  unfold concerns, change_record in Hcon. rewrite !andb_true_iff in Hcon. destruct Hcon as [[Ci%strict_eq_eq Cf%strict_eq_eq] _]. cbn [c_ref c_from] in Ci, Cf.
  assert (Hpc : projected_change P peer (field "id" m) (Some (JStr s)) c) by (split; try done; by rewrite <- Cf).
  split; rewrite ?Eid, ?Hf; try (by apply merged_flag; [apply En|..]).
  - split; apply merged_flag; done || by apply En.
  - unfold authenticated, is_text. intros Ha%bool_decide_eq_true. destruct (merged_case (change_record c) deletes m x "provenance" ltac:(by apply En)) as [E|E]; fold y in E; rewrite Ha in E.
    + apply M4. by apply bool_decide_eq_true_2.
    + apply X4. by apply bool_decide_eq_true_2.
  - unfold has_flag, y. rewrite field_merged. destruct deletes; [done|]. intros _. exists c. split; [done|]. unfold is_change in Hch. by rewrite Hd in Hch.
  - unfold has_flag, y. rewrite field_merged. destruct deletes; [intros _; by exists c|].
    change (entry_of "deleted" (change_entries (change_record c) false)) with (@None (option json)). cbv iota. intros Hx. destruct (field "deleted" m) as [v|] eqn:Ev.
    + apply M6. unfold has_flag. by rewrite Ev.
    + by apply X6.
  - intros _. unfold y. rewrite field_merged. destruct deletes; (eexists; split; [reflexivity|]; right; exists c; by rewrite Hd).
Qed.

(** Both ways of looking for the changed message agree. *)
Lemma concerns_same ch deletes m : concerns ch m = true -> truthy (field "id" m) = true -> same m (obj (with_fields m (change_entries ch deletes))) = true.
Proof.
  pose proof (entries_other ch deletes) as En.
  assert (Hrefl : forall a b, strict_eq a b = true -> strict_eq a a = true).
  { intros [a|] [b|]; cbn [strict_eq]; try done. intros [-> _]%andb_true_iff. by rewrite bool_decide_eq_true_2. }
  unfold concerns, same. rewrite !andb_true_iff. intros [[H1 H2] H3] Ht. rewrite !field_changed, !En by done.
  split_and!; [done|by eapply Hrefl| |by eapply Hrefl]. apply Hrefl in H2. unfold or_empty. destruct (truthy (field "from" m)); [done|reflexivity].
Qed.

Lemma change_apart ch deletes m0 m : concerns ch m0 = true -> contacted m -> concerns ch m = false -> same m (obj (with_fields m0 (change_entries ch deletes))) = false.
Proof.
  intros H0 Hm Hc. destruct (same m _) eqn:Es; [|done]. exfalso. destruct (same_contact _ _ Hm Es) as (E1 & E2 & E3).
  pose proof (entries_other ch deletes) as En.
  rewrite field_changed, En in E1, E2, E3 by done. unfold concerns in *. by rewrite E1, E2, E3, Hc in H0.
Qed.

(** What a turn may touch is a message that its change concerns. *)
Definition turned (P : list json) (n : nat) (g g' : direct) (Q : string -> json -> Prop) : Prop :=
  dinv P g' /\ forall peer m, contacted m -> m ∈ messages_with peer g -> room n peer g -> ~ Q peer m -> m ∈ messages_with peer g'.

Lemma calm_turned P n g g' Q : calm P n g g' -> turned P n g g' Q.
Proof. intros [H1 H2]. split; [done|]. intros peer m Hc Hm Hr _. auto. Qed.

Lemma applyChange_turned P peer ch g : change_from P peer ch -> dinv P g ->
  turned P 1 g (applyChange peer ch g) (fun peer' m => peer' = peer /\ concerns ch m = true).
Proof.
  intros Hch Hg. unfold applyChange. set (c := opened peer "" g). assert (Em : c_messages c = messages_with peer g) by apply opened_messages.
  assert (Hp : forall ch', ch' ∈ c_pending c -> change_from P peer ch') by (intros ch'; by apply opened_pending).
  assert (Hs : forall m, m ∈ c_messages c -> sound P peer m) by (intros m; rewrite Em; apply (di_sound _ _ Hg)).
  set (g1 := set_conversation peer c g). assert (Hg1 : dinv P g1) by by apply set_conversation_inv.
  assert (E1 : forall p, messages_with p g1 = messages_with p g) by (intros p; unfold g1; rewrite set_conversation_with; case_decide; congruence).
  destruct (List.find (concerns ch) (c_messages c)) as [m0|] eqn:Ef.
  - apply find_some in Ef as [Hin%list_elem_of_In Hcon].
    assert (Hadd : forall deletes, is_text (c_action ch) "delete" = deletes ->
      turned P 1 g (add peer "" (with_fields m0 (change_entries ch deletes)) g1).1 (fun peer' m => peer' = peer /\ concerns ch m = true)).
    { intros deletes Hd. destruct Hch as (c0 & HP & Hpe & Hc & Ech). split.
      - apply add_inv; [done| |].
        + intros x Hx Es Sx. apply (merged_sound P peer ch deletes m0 x c0); try done; [by rewrite <- Hd, Ech|by apply Hs].
        + intros Ex (Hr & Hid & _). exfalso. rewrite field_changed, entries_other in Hid by done. rewrite E1, <- Em in Ex.
          assert (Ht : existsb (fun x => same x (obj (with_fields m0 (change_entries ch deletes)))) (c_messages c) = true); [|congruence].
          apply existsb_exists. exists m0. split; [by apply list_elem_of_In|by apply concerns_same].
      - intros peer' m Hm Hin' Hr Hq. apply (add_keeps peer "" _ g1 peer' m 0); [by rewrite E1|unfold room in *; by rewrite E1|]. intros Ep.
        apply change_apart; [done|done|]. destruct (concerns ch m) eqn:Ec; [|done]. by destruct Hq. }
    destruct (is_text (c_action ch) "delete") eqn:Ed; [by apply (Hadd true)|]. destruct (_ && _); [by apply (Hadd false)|].
    split; [done|]. intros peer' m _ Hm _ _. by rewrite E1.
  - split.
    + apply set_conversation_inv; [done|exact Hs|]. cbn [c_pending set_field]. intros ch' Hin.
      assert (Hin' : ch' ∈ c_pending c ++ [ch]) by (eapply elem_of_sublist; [exact Hin|apply sublist_drop]).
      apply elem_of_app in Hin' as [Hin'|Hin']; [by apply Hp|]. apply list_elem_of_singleton in Hin' as ->. done.
    + intros peer' m _ Hm _ _. rewrite set_conversation_with. case_decide; [subst; cbn [c_messages set_field]; by rewrite Em|by rewrite E1].
Qed.

Lemma microtask_turned P g : dinv P g -> turned P 1 g (microtask g) (fun peer m => exists ch rest, micro g = (peer, ch) :: rest /\ concerns ch m = true).
Proof.
  intros Hg. unfold microtask. destruct (micro g) as [|[peer ch] rest] eqn:E; [by apply calm_turned, calm_same|].
  assert (Hg' : dinv P (g <| micro := rest |>)).
  { destruct Hg as [H1 H2 H3]. split; [exact H1|exact H2|]. cbn [micro set_field]. intros p c Hc. apply H3. rewrite E. by right. }
  assert (Hch : change_from P peer ch) by (apply (di_micro _ _ Hg); rewrite E; by left).
  destruct (applyChange_turned P peer ch _ Hch Hg') as [H1 H2]. split; [done|]. intros peer' m Hc Hm Hr Hq. apply H2; try done. intros [-> Hx]. apply Hq. eauto.
Qed.

(** *** Originals *)

Lemma record_entries prior r k : k <> "receipt"%string -> entry_of k (record_fields ownUID prior r) = entry_of k (record_base ownUID prior r).
Proof. intros N. unfold record_fields. rewrite entry_of_app. destruct (_ && _); [|done]. cbn [entry_of]. by rewrite decide_False. Qed.

Lemma original_sound P peer r prior y : r ∈ P -> of_peer r = Some peer -> is_change r = false ->
  match prior with Some m => prior_of r m = true /\ sound P peer m | None => True end ->
  (forall k v, entry_of k (record_fields ownUID prior r) = Some v -> field k y = v) -> (contacted y -> has_flag "quarantined" y = false) -> sound P peer y.
Proof.
  intros HP Hpe Hch Hprior Hy Hq Hc. specialize (Hq Hc). assert (HyE : forall k v, k <> "receipt"%string -> entry_of k (record_base ownUID prior r) = Some v -> field k y = v).
  { intros k v N E. apply Hy. by rewrite record_entries. }
  pose proof (HyE "id"%string _ ltac:(done) eq_refl) as Fid. pose proof (HyE "from"%string _ ltac:(done) eq_refl) as Ffrom.
  destruct Hc as (Hr & Hid & s & Hf & N1 & N2). assert (Hown : is_text (field "sender" r) ownUID = false).
  { rewrite <- Ffrom, Hf. apply bool_decide_eq_false. congruence. }
  assert (Horig : original_record P peer (field "id" y) (field "from" y) r) by (split; congruence).
  assert (Hpr : forall m, prior = Some m -> held P peer m /\ field "id" m = field "id" y /\ field "from" m = field "from" y).
  { intros m ->. destruct Hprior as [Hm Sm]. unfold prior_of in Hm. rewrite !andb_true_iff in Hm. destruct Hm as [[E1%strict_eq_eq E2%strict_eq_eq] E3].
    rewrite <- Fid in E1. rewrite <- Ffrom in E2. split; [|done]. apply Sm. split; [done|]. split; [by rewrite E1|]. exists s. by rewrite E2. }
  assert (Hed : has_flag "edited" y = flag_of "edited" prior) by (unfold has_flag; rewrite (HyE "edited"%string _ ltac:(done) eq_refl); by destruct (flag_of "edited" prior)).
  assert (Hde : has_flag "deleted" y = flag_of "deleted" prior) by (unfold has_flag; rewrite (HyE "deleted"%string _ ltac:(done) eq_refl); by destruct (flag_of "deleted" prior)).
  split; [| |done| | | |].
  - unfold has_flag. by rewrite (HyE "self"%string _ ltac:(done) eq_refl), Hown.
  - unfold has_flag. rewrite (HyE "queued"%string _ ltac:(done) eq_refl), (HyE "failed"%string _ ltac:(done) eq_refl), Hown. done.
  - intros _. by exists r.
  - rewrite Hed. unfold flag_of. destruct prior as [m|]; [|done]. destruct (Hpr m eq_refl) as (Hm & Ei & Ef). rewrite <- Ei, <- Ef. apply (h_edited _ _ _ Hm).
  - rewrite Hde. unfold flag_of. destruct prior as [m|]; [|done]. destruct (Hpr m eq_refl) as (Hm & Ei & Ef). rewrite <- Ei, <- Ef. apply (h_deleted _ _ _ Hm).
  - intros _. rewrite (HyE "body"%string _ ltac:(done) eq_refl). destruct (flag_of "deleted" prior) eqn:Ed; [|destruct (flag_of "edited" prior) eqn:Ee].
    + exists (JStr ""). split; [done|]. right. destruct prior as [m|]; [|done]. destruct (Hpr m eq_refl) as (Hm & Ei & Ef). rewrite <- Ei, <- Ef.
      destruct (h_deleted _ _ _ Hm Ed) as (c & Hc & Hp). exists c. by rewrite Hp.
    + destruct prior as [m|]; [|done]. destruct (Hpr m eq_refl) as (Hm & Ei & Ef). rewrite <- Ei, <- Ef. by apply (h_body _ _ _ Hm); right.
    + exists (body_text r). split; [done|]. left. by exists r.
Qed.

Lemma record_names prior r : NoDup (record_fields ownUID prior r).*1.
Proof.
  unfold record_fields. destruct (is_text (field "sender" r) ownUID && is_text (own_status ownUID r) "accepted"); unfold record_base; distinct_names.
Qed.

Definition delivery_of (r : json) : option json := match field "transport" r with Some t => field "delivery" t | None => None end.
(** The messages that the projection of a record may touch. *)
Definition names (r : json) (peer : string) (m : json) : Prop :=
  of_peer r = Some peer /\
  ((field "logicalID" r = field "id" m /\ field "sender" r = field "from" m) \/ (is_change r = true /\ concerns (change_record r) m = true) \/
   has_id ("quarantine:" +:+ String_of (delivery_of r)) m = true).

Lemma unquarantine_turned P n peer delivery g : dinv P g ->
  turned P n g (unquarantine peer delivery g) (fun peer' m => peer' = peer /\ has_id ("quarantine:" +:+ String_of delivery) m = true).
Proof.
  intros Hg. unfold unquarantine. destruct (OMap.get peer (conversations g)) as [c|] eqn:Ec; [|by apply calm_turned, calm_same].
  destruct (truthy delivery); [|by apply calm_turned, calm_same].
  assert (Hs : forall m, m ∈ c_messages c -> sound P peer m) by (intros m Hm; apply (di_sound _ _ Hg); unfold messages_with; by rewrite Ec). split.
  - apply set_conversation_inv; [done| |].
    + intros m [_ Hm]%list_elem_of_filter. auto.
    + intros ch Hch. exact (di_pending _ _ Hg peer c ch Ec Hch).
  - intros peer' m Hc Hm _ Hq. rewrite set_conversation_with. case_decide as E; [|done]. subst peer'. cbn [c_messages set_field]. apply list_elem_of_filter.
    unfold messages_with in Hm. rewrite Ec in Hm. split; [|done]. destruct (has_id _ m) eqn:Eh; [|done]. by destruct Hq.
Qed.

Lemma project_turned P r g : r ∈ P -> dinv P g -> turned P 1 g (project ownUID r g) (names r).
Proof.
  intros HP Hg. unfold project, names. destruct (of_peer r) as [peer|] eqn:Ep; [|by apply calm_turned, calm_same].
  destruct (is_change r) eqn:Ec.
  - destruct (own_unconfirmed ownUID r); [by apply calm_turned, calm_same|]. destruct (applyChange_turned P peer (change_record r) g) as [H1 H2]; [by exists r|done|].
    split; [done|]. intros peer' m Hm Hin Hr Hq. apply H2; try done. intros [-> Hx]. apply Hq. auto.
  - set (prior := List.find (prior_of r) (messages_with peer g)). set (message := record_fields ownUID prior r).
    assert (Hprior : match prior with Some m => prior_of r m = true /\ sound P peer m | None => True end).
    { unfold prior. destruct (List.find _ _) as [m|] eqn:Ef; [|done]. apply find_some in Ef as [Hm%list_elem_of_In Hp]. split; [done|]. by apply (di_sound _ _ Hg). }
    assert (Hobj : forall k v, entry_of k message = Some v -> field k (obj message) = v) by (intros k v E; rewrite field_literal by apply record_names; by rewrite E).
    assert (Hid : field "id" (obj message) = field "logicalID" r) by (apply Hobj; unfold message; by rewrite record_entries).
    assert (Hfrom : field "from" (obj message) = field "sender" r) by (apply Hobj; unfold message; by rewrite record_entries).
    assert (Hg1 : dinv P (add peer "" message g).1).
    { apply add_inv; [done| |].
      - intros x Hx Es Sx. apply (original_sound P peer r prior); try done.
        + intros k v E. by rewrite field_spread; fold message in E; rewrite E.
        + intros (Hr & Ht & s & Hf & N1 & N2). unfold has_flag. rewrite field_spread. assert (Eq : entry_of "quarantined" message = None) by (unfold message; by rewrite record_entries).
          rewrite Eq. apply (h_quarantined P peer x), Sx. unfold same in Es. rewrite !andb_true_iff in Es. destruct Es as [[[Hx1 _] E2%or_empty_eq] E3%or_empty_eq].
          assert (Em : field "from" (spread message x) = field "sender" r) by (rewrite field_spread; unfold message; by rewrite record_entries).
          rewrite Hfrom in E2. rewrite <- Em, Hf, or_empty_self in E2 by done. apply or_empty_text in E2; [|done].
          assert (Ep2 : field "protocol" (obj message) = Some ratchet_text) by (apply Hobj; unfold message; by rewrite record_entries).
          rewrite Ep2 in E3. change (or_empty (Some ratchet_text)) with (Some (JStr RATCHET_PROTOCOL)) in E3. apply or_empty_text in E3; [|done].
          split; [by apply bool_decide_eq_true_2|]. split; [done|]. by exists s.
      - intros _. apply (original_sound P peer r prior); try done. intros _. unfold has_flag. rewrite field_literal by apply record_names.
        unfold message. by rewrite record_entries. }
    destruct (unquarantine_turned P 0 peer (delivery_of r) _ Hg1) as [H1 H2]. split; [exact H1|]. intros peer' m Hm Hin Hr Hq.
    destruct (add_keeps peer "" message g peer' m 0 Hin Hr) as [K1 K2].
    { intros ->. destruct (same m (obj message)) eqn:Es; [|done]. exfalso. destruct (same_contact _ _ Hm Es) as (E1 & E2 & _). apply Hq. split; [done|]. left. split; congruence. }
    apply H2; [done|done|done|]. intros [-> Hx]. apply Hq. auto.
Qed.

(** *** Transferred records *)

Lemma history_record_fields m source now n peer message : historyRecord ownUID m source now n = Some (peer, message) ->
  (field "protocol" message = None \/
   field "provenance" message = Some (JStr "transferred") /\ field "protocol" message = Some ratchet_text) /\
  field "edited" message = None /\ field "deleted" message = None /\ field "quarantined" message = None /\ field "queued" message = None /\ field "failed" message = None /\
  exists s, field "from" message = Some (JStr s) /\ field "self" message = Some (JBool (bool_decide (s = ownUID))).
Proof.
  unfold historyRecord. destruct (field "peer" m) as [[| | |p| |]|]; try done. destruct (field "body" m) as [[| | |b| |]|]; try done.
  destruct (field "from" m) as [[| | |f0| |]|]; try done. destruct (bool_decide (p = ""%string)); [done|]. set (f := if bool_decide (f0 = ""%string) && _ then _ else f0). destruct (negb (bool_decide (f = p)) && _); [done|].
  destruct (_ && negb (Bool.eqb _ _)); [done|]. destruct (number_of _) as [t|]; [|done]. destruct (_ || _); [done|]. destruct (negb (has_flag "protocol" m)).
  - intros [= <- <-]. split; [by left|]. split_and!; try done. by exists f.
  - destruct (field "client_msg_id" m) as [[| | |i| |]|]; try done. match goal with |- (if ?b then _ else _) = _ -> _ => destruct b end; [|done]. intros [= <- <-]. split; [by right|]. split_and!; try done. by exists f.
Qed.

Lemma import_calm P m source nickname now n g : dinv P g -> calm P 1 g (direct_turn nc xSecret ownUID deviceID g (Import m source nickname now n)).
Proof.
  intros Hg. cbn [direct_turn]. destruct (historyRecord ownUID m source now n) as [[peer message]|] eqn:Eh; [|by apply calm_same].
  apply history_record_fields in Eh as (Hp & H2 & H3 & H4 & H5 & H6 & s & Hf & Hself). assert (Hw : forall k, field k (obj (with_fields message [])) = field k message).
  { intros k. by rewrite field_with. }
  unfold import_record. destruct Hp as [Hp|[Hp Hp']].
  - unfold has_flag at 1. rewrite Hp. cbn [truthy andb]. apply harmless_calm; [|done]. apply harmless_old; [by rewrite entry_with, Hp|by rewrite Hw].
  - unfold has_flag at 1. rewrite Hp'. change (truthy (Some ratchet_text)) with true. cbn [andb].
    destruct (existsb _ _) eqn:Ex; [by apply calm_same|]. assert (Ex' : existsb (fun x => same x (obj (with_fields message []))) (messages_with peer g) = false).
    { rewrite <- Ex. clear Ex. induction (messages_with peer g) as [|x l IH]; [done|]. cbn [existsb]. f_equal; [|exact IH]. unfold same. by rewrite !Hw. }
    split.
    + apply add_inv; [done| |].
      * intros x Hx Es _. exfalso. assert (Ht : existsb (fun x => same x (obj (with_fields message []))) (messages_with peer g) = true); [|congruence].
        apply existsb_exists. exists x. split; [by apply list_elem_of_In|done].
      * intros _ (_ & _ & s' & Hs' & N1 & _). rewrite Hw, Hf in Hs'. injection Hs' as <-. unfold has_flag. split; unfold has_flag, authenticated; rewrite ?Hw.
        -- rewrite Hself. cbn. by rewrite bool_decide_eq_false_2.
        -- by rewrite H5, H6.
        -- by rewrite H4.
        -- by rewrite Hp.
        -- by rewrite H2.
        -- by rewrite H3.
        -- rewrite Hp, H2. by intros [|].
    + intros peer' m' Hc Hm Hr. apply (add_keeps peer nickname _ g peer' m' 0 Hm Hr). intros ->. destruct (same m' _) eqn:Es; [|done]. exfalso.
      assert (Ht : existsb (fun x => same x (obj (with_fields message []))) (messages_with peer g) = true); [|congruence].
      apply existsb_exists. exists m'. split; [by apply list_elem_of_In|done].
Qed.

(** ** Runs *)

Definition delivered (es : list direct_event) : list json := omap (fun e => match e with Projected r => Some r | _ => None end) es.
Definition adds (e : direct_event) : nat := match e with Quarantined _ l => length l | _ => 1%nat end.
(** What of the view a turn may touch. *)
Definition may_touch (g : direct) (e : direct_event) (peer : string) (m : json) : Prop :=
  match e with
  | Projected r => names r peer m
  | Microtask => exists ch rest, micro g = (peer, ch) :: rest /\ concerns ch m = true
  | DeleteHistory p => peer = p
  | _ => False
  end.
Notation direct_turn := (direct_turn nc xSecret ownUID deviceID).
Notation talk := (talk nc xSecret ownUID deviceID).

Lemma direct_turn_turned P g e : (forall r, e = Projected r -> r ∈ P) -> dinv P g -> turned P (adds e) g (direct_turn g e) (may_touch g e).
Proof.
  intros He Hg. destruct e; cbn [DirectView.direct_turn adds may_touch].
  - by apply calm_turned, receive_calm.
  - by apply calm_turned, receipt_calm.
  - apply project_turned; auto.
  - by apply microtask_turned.
  - by apply calm_turned, quarantined_calm.
  - by apply calm_turned, start_calm.
  - by apply calm_turned, finish_calm.
  - by apply calm_turned, queued_calm.
  - by apply calm_turned, discard_calm.
  - split.
    + destruct Hg as [H1 H2 H3]. split; [| |exact H3].
      * intros p m. unfold deleteHistory, messages_with. cbn [conversations set_field]. rewrite OMap.get_del. case_decide; [by intros ?%elem_of_nil|apply H1].
      * intros p c ch. unfold deleteHistory. cbn [conversations set_field]. rewrite OMap.get_del. case_decide; [done|apply H2].
    + intros p m _ Hm _ Hq. unfold deleteHistory, messages_with. cbn [conversations set_field]. by rewrite OMap.get_del, decide_False.
  - by apply calm_turned, import_calm.
Qed.

Lemma delivered_grow es e : delivered es ⊆ delivered (es ++ [e]) /\ (forall r, e = Projected r -> r ∈ delivered (es ++ [e])).
Proof.
  unfold delivered. rewrite omap_app. split; [intros x Hx; apply elem_of_app; by left|]. intros r ->. apply elem_of_app. right. by left.
Qed.

Lemma talk_inv es : dinv (delivered es) (talk es).
Proof.
  induction es as [|e es IH] using rev_ind.
  - split; [by intros peer m ?%elem_of_nil|by intros peer c ch|by intros peer ch ?%elem_of_nil].
  - unfold DirectView.talk in *. rewrite foldl_app. cbn [foldl]. destruct (delivered_grow es e) as [H1 H2]. apply direct_turn_turned; [exact H2|]. by eapply dinv_grow.
Qed.

End sound.

(** Receipts only move forward, on own settled messages, and change nothing else. *)
Lemma with_receipt_forward kind t b m : rank_of (field "receipt" m) <= rank_of (field "receipt" (with_receipt kind t b m)) /\
  (forall k, k <> "receipt"%string -> field k (with_receipt kind t b m) = field k m) /\
  (with_receipt kind t b m <> m -> has_flag "self" m = true /\ unsettled m = false).
Proof.
  unfold with_receipt. destruct (has_flag "self" m); cbn [negb orb]; [|split; [lia|done]]. destruct (unsettled m); [split; [lia|done]|].
  destruct (_ && _) eqn:E; [|split; [lia|done]]. apply andb_true_iff in E as [_ E%Z.ltb_lt]. rewrite field_jset_eq. split; [lia|]. split; [|done].
  intros k N. by apply field_jset_ne.
Qed.

Theorem receipts_move_forward kind id l :
  Forall2 (fun m m' => rank_of (field "receipt" m) <= rank_of (field "receipt" m') /\ (forall k, k <> "receipt"%string -> field k m' = field k m) /\
    (m' <> m -> has_flag "self" m = true /\ unsettled m = false)) l (applyReceipt kind id l).
Proof.
  unfold applyReceipt. assert (Hrefl : Forall2 (fun m m' => rank_of (field "receipt" m) <= rank_of (field "receipt" m') /\
    (forall k, k <> "receipt"%string -> field k m' = field k m) /\ (m' <> m -> has_flag "self" m = true /\ unsettled m = false)) l l).
  { apply Forall_Forall2_diag, Forall_forall. intros m _. split; [lia|done]. }
  destruct (first_index _ _) as [i|]; [|exact Hrefl]. destruct (_ =? 0); [exact Hrefl|].
  apply Forall2_same_length_lookup. split; [by rewrite length_imap|]. intros j m m' Hm Hm'. rewrite list_lookup_imap, Hm in Hm'. cbn in Hm'. injection Hm' as <-.
  apply with_receipt_forward.
Qed.

(** ** A received message, and a transferred record with its ID and another text *)

Module TalkDemo.
Definition record (purpose sender logical text : string) : json :=
  JObj [("scope", JStr "direct"); ("protocol", JStr RATCHET_PROTOCOL); ("peer", JStr "bob"); ("purpose", JStr purpose); ("sender", JStr sender);
        ("logicalID", JStr logical); ("key", JStr (sender +:+ "/" +:+ logical)); ("reference", JStr logical); ("sentAt", JNum 100);
        ("body", JObj [("text", JStr text)])]%string.
Definition transferred (text : string) : json :=
  JObj [("peer", JStr "bob"); ("from", JStr "bob"); ("body", JStr text); ("sent_at", JNum 90); ("client_msg_id", JStr "m1");
        ("protocol", JStr RATCHET_PROTOCOL); ("provenance", JStr "authenticated")]%string.
Notation run := (talk TrustDemo.nc [] "alice" "phone").

(** The change arrives first and waits for its message. *)
Definition heard : list direct_event := [Projected (record "edit" "bob" "m1" "hello!"); Projected (record "message" "bob" "m1" "hello"); Microtask].
Definition kept_message : json := Eval vm_compute in nth 0 (messages_with "bob" (run heard)) JNull.
Definition other : direct_event := Import (transferred "goodbye") "desk" "" 1000 0.


(** A conversation that is full; [kept_message] is its oldest. *)
Definition copy_of (n : Z) : json :=
  JObj [("id", JStr "x"); ("from", JStr "bob"); ("body", JNull); ("verified", JBool false); ("sentAt", JNum n)]%string.
Definition full : direct :=
  Direct [("bob", Conversation "" (kept_message :: repeat (copy_of 200) (Z.to_nat MAX_MESSAGES - 1)) [])]%string [].
Definition server_copy : json :=
  JObj [("recipient_device_id", JStr "phone"); ("from_unique_id", JStr "bob"); ("text", JStr ""); ("client_msg_id", JStr "flood")]%string.

(** The limit counts unverified copies too: one more that the server sends, from no known
    device and without a text, puts the oldest authenticated message out. *)
Theorem copies_evict_authenticated :
  kept_message ∈ messages_with "bob" full /\
  kept_message ∉ messages_with "bob" (direct_turn TrustDemo.nc [] "alice" "phone" full (Receive server_copy [] [] 1000 "")).
Proof. split; apply (bool_decide_unpack _); vm_compute; reflexivity. Qed.
End TalkDemo.
