(* ===== verification/HistoryImport.v ===== *)
(** * Importing a copied history ([importHistory] of direct.js)

    Another device of the account uploads its history in signed, sealed chunks
    ([HistoryCopy]); this device fetches them in pages.  What it imported is recorded in
    the sealed database: digests of chunks, transfers that were started or completed, and
    the one under way.  An import works on a copy of this record ([live]), which
    [persist] writes back at the end of each page.

    [take_chunk] is one round of the inner loop, up to its next wait; [import_turn] is a
    turn of any of the imports in progress (the app starts one whenever the server says
    that history is there, whether or not another is running) or of the conversations
    ([DirectView]).  An exception or a failed write ends an import: it has no further
    turn.  [took] and [taken] are not in the code: they list the chunks whose records
    an import, or any import in this order, took in.

    The request of pages, their acknowledgement and progress events are not modelled; the
    server may send any chunks, and a page may end after any of them. *)

From stdpp Require Import base list strings sorting.
From Stdlib Require Import ZArith Lia.
From S2P Require Import Prelude Json Text Crypto OlmReset DeviceTrust HistoryCopy Groups DirectView.

Definition MAX_HISTORY_DIGESTS : Z := 4096.
Definition MAX_HISTORY_TRANSFERS : Z := 1024.

(** ** The record of what was imported *)

(** The place of a chunk, as its signed header names it. *)
Record position := Position { p_transfer : string; p_source : string; p_seq : Z; p_total : Z }.
Record under_way := UnderWay { u_transfer : string; u_source : string; u_next : Z }.
Record ledger := Ledger { digests : list string; completed : list string; started : list string; current : option under_way }.
#[global] Instance eta_ledger : Eta ledger := fun l => Ledger (digests l) (completed l) (started l) (current l).
Definition no_imports : ledger := Ledger [] [] [] None.

(** [set.add(x)] and [[...set].slice(-n)] *)
Definition include (x : string) (l : list string) : list string := if bool_decide (x ∈ l) then l else l ++ [x].
Definition latest (n : Z) (l : list string) : list string := drop (length l - Z.to_nat n) l.

Definition known (t : string) (l : ledger) : bool := bool_decide (t ∈ completed l) || bool_decide (t ∈ started l).

(** A transfer starts at its first chunk. *)
Definition start (p : position) (l : ledger) : ledger :=
  if negb (known (p_transfer p) l) && (p_seq p =? 0)
  then l <| current := Some (UnderWay (p_transfer p) (p_source p) 0) |> <| started := include (p_transfer p) (started l) |> else l.

Definition in_order (p : position) (l : ledger) : bool :=
  negb (bool_decide (p_transfer p ∈ completed l)) &&
  match current l with
  | Some u => bool_decide (u_transfer u = p_transfer p) && bool_decide (u_source u = p_source p) && (u_next u =? p_seq p)
  | None => false
  end.

Definition advance (p : position) (l : ledger) : ledger :=
  if p_seq p =? p_total p - 1 then l <| completed := include (p_transfer p) (completed l) |> <| current := None |>
  else l <| current := (fun u => UnderWay (u_transfer u) (u_source u) (u_next u + 1)) <$> current l |>.

Definition trimmed (l : ledger) : ledger :=
  l <| digests := latest MAX_HISTORY_DIGESTS (digests l) |> <| completed := latest MAX_HISTORY_TRANSFERS (completed l) |>
    <| started := latest MAX_HISTORY_TRANSFERS (started l) |>.

(** ** Imports *)

Record import := Imports { own : list trusted_device; live : ledger; page : list string; imported : Z; skipped : Z; took : list position }.
#[global] Instance eta_import : Eta import := fun r => Imports (own r) (live r) (page r) (imported r) (skipped r) (took r).

Section import.
Variable hs : hashes.
Variable nc : nacl.
Variable cv : curves.
Variable xSecret : list Z.
Variable ownUID deviceID : string.

Definition chunkDigest (data : string) : string := hex_text (sha256 hs (bytes_of data)).

Definition position_of (h : json) : position :=
  Position (String_of (field "transfer" h)) (String_of (field "source" h)) (num_or 0 (field "seq" h)) (num_or 0 (field "total" h)).

Definition sender_of (own : list trusted_device) (chunk : json) : option trusted_device :=
  List.find (fun d => is_text (field "from_device_id" chunk) (DeviceTrust.deviceID d)) own.

(** The envelope of a chunk; the outer [None] is an exception ([openDM] of no base 64). *)
Definition opened_chunk (own : list trusted_device) (chunk : json) (data : string) : option (option (json * list json)) :=
  match sender_of own chunk with
  | None => Some None
  | Some d =>
    (fun plain => match plain, field "seq" chunk, field "total" chunk with
                  | Some t, Some (JNum seq), Some (JNum total) =>
                    decodeHistoryEnvelope hs cv (Some (JStr t)) (Expected (DeviceTrust.deviceID d) deviceID seq total (d_signing d))
                  | _, _, _ => None
                  end) <$> openDM nc data (d_x25519 d) xSecret
  end.

(** The records of a chunk, with the counts of new and of refused ones. *)
Definition import_one (source : string) (now : Z) (s : direct * Z * Z) (m : json) : direct * Z * Z :=
  let '(g, imported, skipped) := s in
  match historyRecord ownUID m source now imported with
  | None => (g, imported, skipped + 1)
  | Some (peer, message) =>
    let nickname := match field "peer_nickname" m with Some (JStr n) => n | _ => ""%string end in
    let (g, isNew) := import_record peer nickname message g in
    (g, if isNew then imported + 1 else imported, skipped)
  end.

Definition take_records (digest : string) (now : Z) (h : json) (records : list json) (r : import) (g : direct) : import * direct :=
  let p := position_of h in
  let l := start p (live r) in
  if in_order p l then
    let '(g, new, refused) := foldl (import_one (p_source p) now) (g, imported r, skipped r) records in
    (Imports (own r) (advance p l) (page r ++ [digest]) new refused (took r ++ [p]), g)
  else (r <| live := l |>, g).

Definition take_chunk (chunk : json) (now : Z) (r : import) (g : direct) : option (import * direct) :=
  match field "data" chunk with
  | Some (JStr data) =>
    if bool_decide (data = ""%string) || bool_decide (chunkDigest data ∈ digests (live r)) then Some (r, g) else
    match opened_chunk (own r) chunk data with
    | None => None
    | Some None => Some (r, g)
    | Some (Some (h, records)) => Some (take_records (chunkDigest data) now h records r g)
    end
  | _ => Some (r, g)
  end.

(** The digests of a page count from its end on. *)
Definition end_page (r : import) : import :=
  r <| live := (live r) <| digests := foldl (fun l d => include d l) (digests (live r)) (page r) |> |> <| page := [] |>.

(** ** Turns *)

Record importer := Importer { view : direct; stored : ledger; running : list (option import); taken : list (nat * position) }.
#[global] Instance eta_importer : Eta importer := fun w => Importer (view w) (stored w) (running w) (taken w).

Inductive import_event :=
| Begin (own : list trusted_device)
| Chunk (i : nat) (chunk : json) (now : Z)
| Persist (i : nat)
| Talk (e : direct_event).

Definition import_turn (w : importer) (e : import_event) : importer :=
  match e with
  | Begin own => w <| running := running w ++ [Some (Imports own (stored w) [] 0 0 [])] |>
  | Chunk i chunk now =>
    match running w !! i with
    | Some (Some r) =>
      match take_chunk chunk now r (view w) with
      | Some (r', g) => Importer g (stored w) (<[i := Some r']> (running w)) (taken w ++ map (pair i) (drop (length (took r)) (took r')))
      | None => w <| running := <[i := None]> (running w) |>
      end
    | _ => w
    end
  | Persist i =>
    match running w !! i with
    | Some (Some r) => let r := end_page r in Importer (view w) (trimmed (live r)) (<[i := Some r]> (running w)) (taken w)
    | _ => w
    end
  | Talk e => w <| view := direct_turn nc xSecret ownUID deviceID (view w) e |>
  end.
Definition no_importer : importer := Importer no_conversations no_imports [] [].
Definition import_run (es : list import_event) : importer := foldl import_turn no_importer es.

(** Do the imports follow one another?  Each begins when everything that was taken in
    is recorded, and only the latest has turns.  [unsaved]: something taken in is not. *)
Definition watch (s : importer * bool * bool) (e : import_event) : importer * bool * bool :=
  let '(w, unsaved, ok) := s in
  let w' := import_turn w e in
  match e with
  | Begin _ => (w', unsaved, ok && negb unsaved)
  | Chunk i _ _ => (w', unsaved || negb (length (taken w') =? length (taken w))%nat, ok && (S i =? length (running w))%nat)
  | Persist i => (w', match running w !! i with Some (Some _) => false | _ => unsaved end, ok && (S i =? length (running w))%nat)
  | Talk _ => (w', unsaved, ok)
  end.
Definition one_by_one (es : list import_event) : bool := (foldl watch (no_importer, false, true) es).2.

(** The rounds of one import that is not interrupted; a flag says where a page ends. *)
Fixpoint import_chunks (now : Z) (l : list (json * bool)) (r : import) (g : direct) : option (import * direct) :=
  match l with
  | [] => Some (r, g)
  | (chunk, last) :: rest =>
    match take_chunk chunk now r g with
    | Some (r, g) => import_chunks now rest (if last then end_page r else r) g
    | None => None
    end
  end.

(** What the server hands out of an uploaded chunk. *)
Definition handed_out (source : string) (total : nat) (i : nat) (data : string) : json :=
  JObj [("from_device_id", JStr source); ("seq", JNum (Z.of_nat i)); ("total", JNum (Z.of_nat total)); ("data", JStr data)]%string.
End import.

(** ** Chunks are imported in order, once *)

Definition chunks_of (t : string) (l : list position) : list (string * Z) :=
  map (fun p => (p_source p, p_seq p)) (filter (fun p => p_transfer p = t) l).

Lemma chunks_of_snoc t l p : chunks_of t (l ++ [p]) = chunks_of t l ++ (if decide (p_transfer p = t) then [(p_source p, p_seq p)] else []).
Proof. unfold chunks_of. rewrite filter_app, map_app. by destruct (decide (p_transfer p = t)) as [E|E]; [rewrite filter_cons_True|rewrite filter_cons_False]. Qed.

Lemma elem_include x y l : y ∈ include x l <-> y = x \/ y ∈ l.
Proof. unfold include. case_bool_decide; [split; [auto|by intros [->|]]|]. rewrite elem_of_app, list_elem_of_singleton. tauto. Qed.

Lemma nodup_include x l : NoDup l -> NoDup (include x l).
Proof. intros Hl. unfold include. case_bool_decide as E; [done|]. apply NoDup_app. split_and!; [done| |apply NoDup_singleton]. intros y Hy ->%list_elem_of_singleton. done. Qed.

Lemma not_included x l k : x ∉ l -> x ∉ k -> x ∉ foldl (fun l d => include d l) l k.
Proof. revert l. induction k as [|y k IH]; intros l Hl Hk; [done|]. apply not_elem_of_cons in Hk as [N Hk]. cbn [foldl]. apply IH; [|done]. by intros [|]%elem_include. Qed.

Lemma latest_all n l : Z.of_nat (length l) <= n -> latest n l = l.
Proof. intros H. unfold latest. replace (length l - Z.to_nat n)%nat with 0%nat by lia. done. Qed.

(** The chunks 0 to [n-1] of a transfer, from one device. *)
Definition prefix_of (s : string) (n : Z) : list (string * Z) := pair s <$> seqZ 0 n.

Lemma prefix_snoc s n : 0 <= n -> prefix_of s (n + 1) = prefix_of s n ++ [(s, n)].
Proof. intros H. unfold prefix_of. rewrite seqZ_app, fmap_app by lia. done. Qed.

Lemma prefix_length s n : 0 <= n -> Z.of_nat (length (prefix_of s n)) = n.
Proof. intros H. unfold prefix_of. rewrite length_fmap, length_seqZ. lia. Qed.

Section ordered.
(** The transfers there are, and what makes a chunk one of them. *)
Variable ts : list string.
Variable genuine : position -> Prop.

(** [k]: the chunks that the record [l] accounts for. *)
Record ordered (k : list position) (l : ledger) : Prop := {
  or_prefix : forall t, exists s n, 0 <= n /\ chunks_of t k = prefix_of s n;
  or_current : forall u, current l = Some u -> u_transfer u ∈ started l /\ 0 <= u_next u /\ chunks_of (u_transfer u) k = prefix_of (u_source u) (u_next u);
  or_started : forall p, p ∈ k -> p_transfer p ∈ started l;
  or_whole : forall p, p ∈ k -> p_seq p = p_total p - 1 -> Z.of_nat (length (chunks_of (p_transfer p) k)) = p_total p /\
    forall u, current l = Some u -> u_transfer u <> p_transfer p;
  or_nodup : NoDup (started l);
  or_among : forall t, t ∈ started l -> t ∈ ts;
  or_genuine : forall p, p ∈ k -> genuine p
}.

Lemma ordered_none : ordered [] no_imports.
Proof.
  split; try (intros ? ?%elem_of_nil; done); [|done|apply NoDup_nil_2]. intros t. exists ""%string, 0. done.
Qed.

Lemma known_spec t l : known t l = false -> t ∉ started l.
Proof. unfold known. intros [_ H]%orb_false_iff. by apply bool_decide_eq_false in H. Qed.

Lemma chunks_of_none k l t : ordered k l -> t ∉ started l -> chunks_of t k = [].
Proof.
  intros Hl Ht. pose proof (or_started _ _ Hl) as Hs. clear Hl. unfold chunks_of. induction k as [|p k IH]; [done|]. rewrite filter_cons_False.
  - apply IH. intros q Hq. apply Hs. by right.
  - intros <-. apply Ht, Hs. by left.
Qed.

Lemma start_ordered k p l : ordered k l -> p_transfer p ∈ ts -> ordered k (start p l).
Proof.
  intros Hl Hp. unfold start. destruct (known (p_transfer p) l) eqn:Ek; [done|]. destruct (p_seq p =? 0); [|done]. cbn [negb andb].
  apply known_spec in Ek. pose proof (chunks_of_none k l _ Hl Ek) as En. destruct Hl as [H1 H2 H3 H4 H5 H6 H7]. split; cbn [started current set_field].
  - done.
  - intros u [= <-]. cbn [u_transfer u_next u_source]. split; [apply elem_include; auto|]. split; [lia|exact En].
  - intros q Hq. apply elem_include. auto.
  - intros q Hq Hs. split; [by apply H4|]. intros u [= <-]. cbn [u_transfer]. intros E. apply Ek. rewrite E. by apply H3.
  - by apply nodup_include.
  - intros t [->|Ht]%elem_include; auto.
  - done.
Qed.

Lemma in_order_current p l : in_order p l = true -> exists u, current l = Some u /\ u_transfer u = p_transfer p /\ u_source u = p_source p /\ u_next u = p_seq p.
Proof.
  unfold in_order. intros [_ H]%andb_true_iff. destruct (current l) as [u|]; [|done].
  apply andb_true_iff in H as [[H1%bool_decide_eq_true H2%bool_decide_eq_true]%andb_true_iff H3%Z.eqb_eq]. by exists u.
Qed.

Lemma advance_ordered k p l : ordered k l -> in_order p l = true -> genuine p -> ordered (k ++ [p]) (advance p l).
Proof.
  intros Hl Hp Hg. destruct (in_order_current _ _ Hp) as (u & Eu & E1 & E2 & E3). destruct (or_current _ _ Hl u Eu) as (S1 & S2 & S3).
  assert (Ec : forall t, chunks_of t (k ++ [p]) = if decide (p_transfer p = t) then prefix_of (p_source p) (p_seq p + 1) else chunks_of t (k)).
  { intros t. rewrite chunks_of_snoc. case_decide as E; [|apply app_nil_r]. subst t. rewrite <- E1, S3, E2, E3. symmetry. apply prefix_snoc. lia. }
  assert (Hin : forall q, q ∈ k ++ [p] -> q ∈ k \/ q = p) by (intros q [Hq|Hq%list_elem_of_singleton]%elem_of_app; auto).
  assert (Hother : forall q, q ∈ k -> p_seq q = p_total q - 1 -> p_transfer q <> p_transfer p).
  { intros q Hq Hs E. apply (or_whole _ _ Hl q Hq Hs) in Eu. congruence. }
  assert (Hw : forall q, q ∈ k ++ [p] -> p_seq q = p_total q - 1 -> Z.of_nat (length (chunks_of (p_transfer q) (k ++ [p]))) = p_total q).
  { intros q [Hq| ->]%Hin Hs; rewrite Ec.
    - rewrite decide_False by (intros E; by apply (Hother q)). by apply (or_whole _ _ Hl).
    - rewrite decide_True by done. rewrite prefix_length by lia. lia. }
  assert (Hpre : forall t, exists s n, 0 <= n /\ chunks_of t (k ++ [p]) = prefix_of s n).
  { intros t. rewrite Ec. case_decide; [exists (p_source p), (p_seq p + 1); split; [lia|done]|apply (or_prefix _ _ Hl)]. }
  assert (Hst : forall q, q ∈ k ++ [p] -> p_transfer q ∈ started l) by (intros q [Hq| ->]%Hin; [by apply (or_started _ _ Hl)|congruence]).
  assert (Hge : forall q, q ∈ k ++ [p] -> genuine q) by (intros q [Hq| ->]%Hin; [by apply (or_genuine _ _ Hl)|done]).
  destruct Hl as [_ _ _ _ H5 H6 _]. unfold advance. destruct (p_seq p =? p_total p - 1) eqn:El; split; cbn [started current set_field]; try done.
  - intros q Hq Hs. split; [by apply Hw|done].
  - intros u' Hu. rewrite Eu in Hu. injection Hu as <-. cbn [u_transfer u_source u_next]. split; [done|]. split; [lia|].
    rewrite Ec, decide_True by done. by rewrite E2, E3.
  - intros q Hq Hs. split; [by apply Hw|]. intros u' Hu. rewrite Eu in Hu. injection Hu as <-. cbn [u_transfer]. rewrite E1.
    apply Hin in Hq as [Hq| ->]; [by apply not_eq_sym, Hother|]. apply Z.eqb_neq in El. lia.
Qed.

(** A ledger that agrees on all but digests and completions. *)
Lemma ordered_same k l l' : current l' = current l -> started l' = started l -> ordered k l -> ordered k l'.
Proof. intros E2 E3 []. split; rewrite ?E2, ?E3; done. Qed.

Lemma trimmed_ordered k l : Z.of_nat (length ts) <= MAX_HISTORY_TRANSFERS -> ordered k l -> ordered k (trimmed l).
Proof.
  intros Hn Hl. refine (ordered_same k l _ _ _ Hl); [done|]. cbn [trimmed started set_field]. apply latest_all.
  assert (length (started l) <= length ts)%nat; [|lia]. apply NoDup_incl_length; [by apply NoDup_ListNoDup, (or_nodup _ _ Hl)|].
  intros t Ht. apply list_elem_of_In, (or_among _ _ Hl). by apply list_elem_of_In.
Qed.
End ordered.

(** ** Runs of imports *)

Section runs.
Variable hs : hashes.
Variable nc : nacl.
Variable cv : curves.
Variable xSecret : list Z.
Variable ownUID deviceID : string.
#[local] Notation opened_chunk := (opened_chunk hs nc cv xSecret deviceID).
#[local] Notation take_chunk := (take_chunk hs nc cv xSecret ownUID deviceID).
#[local] Notation import_turn := (import_turn hs nc cv xSecret ownUID deviceID).
#[local] Notation import_run := (import_run hs nc cv xSecret ownUID deviceID).
#[local] Notation talk := (talk nc xSecret ownUID deviceID).

(** A chunk header that an own device signed for this one. *)
Definition signed_chunk (own : list trusted_device) (p : position) : Prop :=
  exists d h signature t, d ∈ own /\ DeviceTrust.deviceID d = p_source p /\ position_of h = p /\ field "target" h = Some (JStr deviceID) /\
    historyChunkTranscript h = Some t /\ verifySignature cv signature t (d_signing d) = true.

(** A transfer of which a chunk came that opens. *)
Definition comes (es : list import_event) (t : string) : Prop :=
  exists i chunk now own data h records, Chunk i chunk now ∈ es /\ Begin own ∈ es /\ field "data" chunk = Some (JStr data) /\
    opened_chunk own chunk data = Some (Some (h, records)) /\ p_transfer (position_of h) = t.
Definition genuine (es : list import_event) (p : position) : Prop := exists own, Begin own ∈ es /\ signed_chunk own p.

Lemma opened_signed own chunk data h records : opened_chunk own chunk data = Some (Some (h, records)) -> signed_chunk own (position_of h).
Proof.
  unfold HistoryImport.opened_chunk. destruct (sender_of own chunk) as [d|] eqn:Ed; [|done]. intros (plain & _ & E)%fmap_Some.
  apply find_some in Ed as [Hd%list_elem_of_In _]. destruct plain as [t0|]; [|done].
  destruct (field "seq" chunk) as [[| |seq| | |]|]; try done. destruct (field "total" chunk) as [[| |total| | |]|]; try done. symmetry in E.
  unfold decodeHistoryEnvelope in E. destruct (isHistoryEnvelope _); [|done]. destruct (first_line _) as [[first rest]|]; [|done].
  destruct (parse first) as [h'|]; [|done]. destruct (historyChunkTranscript h') as [t|] eqn:Et; [|done].
  match type of E with (if ?b then _ else _) = _ => destruct b eqn:Eb; [|done] end. rewrite !andb_true_iff in Eb. destruct Eb as [[[[E1 E2] _] _] _].
  destruct (fromBase64 _) as [signature|]; [|done]. destruct (verifySignature cv signature t _) eqn:Ev; [|done]. cbn [e_source e_target e_key] in *.
  assert (h' = h) as -> by (destruct (parse rest) as [[]|]; congruence). exists d, h, signature, t. unfold is_text in *.
  apply bool_decide_eq_true in E1, E2. unfold position_of. cbn [p_source]. by rewrite E1.
Qed.

Lemma take_chunk_ordered ts (genuine : position -> Prop) k chunk now r g r' g' : ordered ts genuine k (live r) ->
  take_chunk chunk now r g = Some (r', g') ->
  (forall data h records, field "data" chunk = Some (JStr data) -> opened_chunk (own r) chunk data = Some (Some (h, records)) -> p_transfer (position_of h) ∈ ts /\ genuine (position_of h)) ->
  exists new, took r' = took r ++ new /\ ordered ts genuine (k ++ new) (live r') /\ own r' = own r.
Proof.
  unfold HistoryImport.take_chunk. intros Hr E Ho.
  assert (Hsame : Some (r, g) = Some (r', g') -> exists new, took r' = took r ++ new /\ ordered ts genuine (k ++ new) (live r') /\ own r' = own r).
  { intros [= <- <-]. exists []. by rewrite !app_nil_r. }
  destruct (field "data" chunk) as [[| | |data| |]|] eqn:Ed; try by apply Hsame.
  destruct (_ || _); [by apply Hsame|]. destruct (opened_chunk (own r) chunk data) as [[[h records]|]|] eqn:Eo; [|by apply Hsame|done].
  destruct (Ho _ _ _ eq_refl Eo) as [Ht Hg]. apply (inj Some) in E. unfold take_records in E. pose proof (start_ordered ts genuine k (position_of h) _ Hr Ht) as Hs.
  destruct (in_order _ _) eqn:Ei; [|injection E as <- <-; exists []; by rewrite !app_nil_r]. destruct (foldl _ _ records) as [[g2 new] refused]. injection E as <- <-.
  exists [position_of h]. split_and!; [done| |done]. cbn [live]. by apply advance_ordered.
Qed.

(** What the import [i] took in. *)
Definition taken_by (i : nat) (w : importer) : list position := map snd (filter (fun x => x.1 = i) (taken w)).

Lemma taken_by_elem i p w : (i, p) ∈ taken w -> p ∈ taken_by i w.
Proof. intros H. unfold taken_by. apply list_elem_of_In, in_map_iff. exists (i, p). split; [done|]. by apply list_elem_of_In, list_elem_of_filter. Qed.

Lemma taken_by_more i j new v s r k : taken_by j (Importer v s r (k ++ map (pair i) new)) =
  taken_by j (Importer v s r k) ++ (if decide (i = j) then new else []).
Proof.
  unfold taken_by. cbn [taken]. rewrite filter_app, map_app. f_equal. induction new as [|p new IH]; [by case_decide|]. cbn [map].
  case_decide as E; [rewrite filter_cons_True by done|rewrite filter_cons_False by done]; cbn [map snd]; by rewrite IH.
Qed.

Section turns.
Variable ts : list string.
Hypothesis ts_few : Z.of_nat (length ts) <= MAX_HISTORY_TRANSFERS.
Variable all : list import_event.
Hypothesis ts_all : forall t, comes all t -> t ∈ ts.
#[local] Notation ord := (ordered ts (genuine all)).

Record imports_ok (w : importer) : Prop := {
  io_stored : exists k, ord k (stored w);
  io_running : forall i r, running w !! i = Some (Some r) -> (exists k, ord (k ++ took r) (live r)) /\ Begin (own r) ∈ all /\ taken_by i w = took r;
  io_taken : forall i, exists k l, ord (k ++ taken_by i w) l;
  io_fresh : forall i, (length (running w) <= i)%nat -> taken_by i w = []
}.

Lemma no_importer_ok : imports_ok no_importer.
Proof.
  pose proof (ordered_none ts (genuine all)) as H0. split; [by exists []|done|intros i; by exists [], no_imports|done].
Qed.

(** The chunk of a turn opens among [ts], signed by an own device. *)
Lemma opened_genuine i chunk now r data h records : Chunk i chunk now ∈ all -> Begin (own r) ∈ all -> field "data" chunk = Some (JStr data) ->
  opened_chunk (own r) chunk data = Some (Some (h, records)) -> p_transfer (position_of h) ∈ ts /\ genuine all (position_of h).
Proof.
  intros He Hb Ed Eo. split; [apply ts_all; by exists i, chunk, now, (own r), data, h, records|]. exists (own r). split; [done|by eapply opened_signed].
Qed.

Lemma imports_ok_chunk w i r r' g new : imports_ok w -> running w !! i = Some (Some r) -> took r' = took r ++ new -> own r' = own r ->
  (forall k, ord (k ++ took r) (live r) -> ord ((k ++ took r) ++ new) (live r')) ->
  imports_ok (Importer g (stored w) (<[i := Some r']> (running w)) (taken w ++ map (pair i) new)).
Proof.
  intros Hw Hi Ht Eo Hl. destruct (io_running _ Hw i r Hi) as ([k Hk] & Hb & Htk). specialize (Hl k Hk).
  assert (Hlt : (i < length (running w))%nat) by by eapply lookup_lt_Some.
  assert (Hn : forall j, taken_by j (Importer g (stored w) (<[i := Some r']> (running w)) (taken w ++ map (pair i) new)) =
    taken_by j w ++ (if decide (i = j) then new else [])) by (intros j; apply taken_by_more).
  split; [apply Hw|..]; cbn [running].
  - intros j q [(-> & [= <-] & _)|[Hne Hq]]%list_lookup_insert_Some; rewrite Hn.
    + rewrite decide_True, Htk, Ht, Eo by done. split_and!; [|done|done]. exists k. by rewrite app_assoc.
    + rewrite decide_False, app_nil_r by done. by apply Hw.
  - intros j. rewrite Hn. case_decide as E; [|rewrite app_nil_r; by apply Hw]. subst j. rewrite Htk. exists k, (live r'). by rewrite app_assoc.
  - intros j Hj. rewrite length_insert in Hj. rewrite Hn, decide_False, app_nil_r by lia. by apply Hw.
Qed.

(** A turn that takes nothing in. *)
Lemma imports_ok_quiet w i o s v : imports_ok w -> (exists k, ord k s) ->
  (forall q, o = Some q -> exists r, running w !! i = Some (Some r) /\ took q = took r /\ own q = own r /\ forall k, ord k (live r) -> ord k (live q)) ->
  imports_ok (Importer v s (<[i := o]> (running w)) (taken w)).
Proof.
  intros Hw Hs Ho. split; [done|..]; cbn [running].
  - intros j q [(-> & -> & _)|[Hne Hq]]%list_lookup_insert_Some; [|by apply Hw]. destruct (Ho q eq_refl) as (r & Hr & Et & Eo & Hl).
    destruct (io_running _ Hw j r Hr) as ([k Hk] & Hb & Htk). rewrite Et, Eo. split_and!; [exists k; by apply Hl|done|done].
  - apply Hw.
  - intros j Hj. rewrite length_insert in Hj. by apply (io_fresh _ Hw).
Qed.

Lemma end_page_ordered k r : ord k (live r) -> ord k (live (end_page r)).
Proof. by apply ordered_same. Qed.

Lemma import_turn_ok e w : e ∈ all -> imports_ok w -> imports_ok (import_turn w e).
Proof.
  intros He Hw. destruct e as [own|i chunk now|i|e]; cbn [HistoryImport.import_turn].
  - destruct Hw as [H1 H2 H3 H4]. split; [done|..|done|].
    + cbn [running set_field]. intros j r [Hj|[Hle [Hj0 Hj]%list_lookup_singleton_Some]]%lookup_app_Some; [by apply H2|]. injection Hj as <-. cbn [took live HistoryImport.own].
      destruct H1 as [k Hk]. split_and!; [exists k; by rewrite app_nil_r|done|by apply H4].
    + cbn [running set_field]. intros j Hj. rewrite length_app in Hj. apply H4. lia.
  - destruct (running w !! i) as [[r|]|] eqn:Er; [|done..]. destruct (io_running _ Hw i r Er) as ([k Hk] & Hb & _).
    destruct (take_chunk chunk now r (view w)) as [[r' g]|] eqn:Et; [|by apply (imports_ok_quiet w i None); [|apply Hw|]].
    destruct (take_chunk_ordered ts (genuine all) _ _ _ _ _ _ _ Hk Et) as (new & En & _ & Eo); [intros; by eapply opened_genuine|].
    rewrite En, drop_app_length. apply (imports_ok_chunk w i r r' g new); [done|done|done|done|]. intros k' Hk'.
    destruct (take_chunk_ordered ts (genuine all) _ _ _ _ _ _ _ Hk' Et) as (new' & En' & Hl & _); [intros; by eapply opened_genuine|].
    assert (new' = new) as -> by (eapply app_inv_head; by rewrite <- En, <- En'). exact Hl.
  - destruct (running w !! i) as [[r|]|] eqn:Er; [|done..]. destruct (io_running _ Hw i r Er) as ([k Hk] & Hb & _).
    apply (imports_ok_quiet w i (Some (end_page r))); [done|eexists; by apply trimmed_ordered, end_page_ordered|].
    intros q [= <-]. exists r. split_and!; [done..|]. intros k'. apply end_page_ordered.
  - by destruct Hw.
Qed.

(** *** Imports that follow one another *)

(** Everything taken in, by whatever import. *)
Definition all_taken (w : importer) : list position := map snd (taken w).
Record sequel (w : importer) (unsaved : bool) : Prop := {
  sq_all : exists l, ord (all_taken w) l;
  sq_stored : unsaved = false -> ord (all_taken w) (stored w);
  sq_last : forall r, last (running w) = Some (Some r) -> ord (all_taken w) (live r)
}.

Lemma last_at {A} (l : list A) i : (S i =? length l)%nat = true -> last l = l !! i.
Proof. intros E%Nat.eqb_eq. rewrite last_lookup. by rewrite <- E. Qed.
Lemma last_insert {A} (l : list A) i x : (S i =? length l)%nat = true -> last (<[i := x]> l) = Some x.
Proof. intros E. rewrite (last_at _ i) by by rewrite length_insert. apply list_lookup_insert_eq. apply Nat.eqb_eq in E. lia. Qed.

Lemma watch_sequel w u e w' u' : e ∈ all -> imports_ok w -> sequel w u -> watch hs nc cv xSecret ownUID deviceID (w, u, true) e = (w', u', true) -> sequel w' u'.
Proof.
  intros He Hw Hs E. destruct e as [own|i chunk now|i|e]; cbn [watch andb HistoryImport.import_turn] in E.
  - injection E as <- <- Hu. apply negb_true_iff in Hu. destruct Hs as [H1 H2 H3]. split; [exact H1|exact H2|]. cbn [running set_field].
    intros r. rewrite last_snoc. intros [= <-]. by apply H2.
  - injection E as <- <- Hi. destruct (running w !! i) as [[r|]|] eqn:Er; [|rewrite Nat.eqb_refl, orb_false_r; done..].
    pose proof (sq_last _ _ Hs r) as Hl. rewrite (last_at _ i Hi) in Hl. specialize (Hl Er). destruct (io_running _ Hw i r Er) as (_ & Hb & _).
    destruct (take_chunk chunk now r (view w)) as [[r' g]|] eqn:Et.
    + destruct (take_chunk_ordered ts (genuine all) _ _ _ _ _ _ _ Hl Et) as (new & En & Hl' & Eo); [intros; by eapply opened_genuine|].
      rewrite En, drop_app_length. assert (Ha : all_taken (Importer g (stored w) (<[i:=Some r']> (running w)) (taken w ++ map (pair i) new)) = all_taken w ++ new).
      { unfold all_taken. cbn [taken]. rewrite map_app, map_map. f_equal. cbn [snd]. apply map_id. }
      split; rewrite Ha; [by exists (live r')| |].
      * cbn [stored taken]. rewrite length_app, length_map. intros [Hu Hn]%orb_false_iff. apply negb_false_iff, Nat.eqb_eq in Hn.
        assert (new = []) as -> by (apply length_zero_iff_nil; lia). rewrite app_nil_r. by apply Hs.
      * cbn [running]. intros q. rewrite last_insert by done. by intros [= <-].
    + cbn [taken set_field]. rewrite Nat.eqb_refl, orb_false_r. destruct Hs as [H1 H2 H3]. split; [exact H1|exact H2|]. cbn [running set_field]. intros q. by rewrite last_insert.
  - injection E as <- <- Hi. destruct (running w !! i) as [[r|]|] eqn:Er; [|done..].
    pose proof (sq_last _ _ Hs r) as Hl. rewrite (last_at _ i Hi) in Hl. specialize (Hl Er). apply end_page_ordered in Hl.
    split; [apply Hs|intros _; by apply trimmed_ordered|]. cbn [running]. intros q. rewrite last_insert by done. by intros [= <-].
  - injection E as <- <-. destruct Hs as [H1 H2 H3]. by split.
Qed.

Lemma watch_run es s : (foldl (watch hs nc cv xSecret ownUID deviceID) s es).1.1 = foldl import_turn s.1.1 es.
Proof. revert s. induction es as [|e es IH]; intros [[w u] ok]; [done|]. cbn [foldl]. rewrite IH. by destruct e. Qed.
Lemma watch_ok es w u : (foldl (watch hs nc cv xSecret ownUID deviceID) (w, u, false) es).2 = false.
Proof. revert w u. induction es as [|e es IH]; intros w u; [done|]. cbn [foldl]. destruct e; cbn [watch andb]; apply IH. Qed.

Lemma runs_ok es w : (forall e, e ∈ es -> e ∈ all) -> imports_ok w -> imports_ok (foldl import_turn w es).
Proof. revert w. induction es as [|e es IH]; intros w He Hw; [done|]. cbn [foldl]. apply IH; [intros; apply He; by right|]. apply import_turn_ok; [apply He; by left|done]. Qed.

Lemma runs_sequel es w u : (forall e, e ∈ es -> e ∈ all) -> imports_ok w -> sequel w u ->
  (foldl (watch hs nc cv xSecret ownUID deviceID) (w, u, true) es).2 = true -> exists u', sequel (foldl import_turn w es) u'.
Proof.
  revert w u. induction es as [|e es IH]; intros w u He Hw Hs Ho; [by exists u|]. cbn [foldl] in *. assert (e ∈ all) as Hin by (apply He; by left).
  destruct (watch hs nc cv xSecret ownUID deviceID (w, u, true) e) as [[w' u'] ok] eqn:E.
  destruct ok; [|by rewrite watch_ok in Ho]. pose proof (watch_sequel _ _ _ _ _ Hin Hw Hs E) as Hs'.
  assert (import_turn w e = w') as Ew by (pose proof (watch_run [e] (w, u, true)) as Hr; cbn [foldl fst] in Hr; rewrite E in Hr; by symmetry).
  rewrite Ew. eapply IH; [intros; apply He; by right| |exact Hs'|exact Ho]. rewrite <- Ew. by apply import_turn_ok.
Qed.
End turns.

Lemma taken_run s n k j : 0 <= n -> k ++ j = prefix_of s n -> exists m, 0 <= m <= n /\ j = pair s <$> seqZ m (n - m).
Proof.
  intros Hn E. exists (Z.of_nat (length k)). assert (Hk : Z.of_nat (length k) + Z.of_nat (length j) = n) by (rewrite <- (prefix_length s n Hn), <- E, length_app; lia).
  split; [lia|]. unfold prefix_of in E. replace n with (Z.of_nat (length k) + Z.of_nat (length j)) in E at 1 by lia. rewrite seqZ_app, fmap_app in E by lia.
  apply app_inj_1 in E as [_ ->]; [|rewrite length_fmap, length_seqZ; lia]. do 2 f_equal; lia.
Qed.

(** C12: whatever chunks the server sends, in any order, to any number of imports, and
    however these end, while at most 1024 transfers came, so many as the record remembers:
    a chunk whose records are taken in was signed by an own device for this one; what one
    import takes of a transfer comes from one device, chunk after chunk, each once.  If
    moreover the imports follow one another, each beginning when all that was taken in is
    recorded ([one_by_one]), then over all of them together what was taken of a transfer
    are its chunks 0 to n-1 from one device, in this order, each once, and a transfer
    whose last chunk was taken was taken whole. *)
Theorem imported_in_order es ts : Z.of_nat (length ts) <= MAX_HISTORY_TRANSFERS -> (forall t, comes es t -> t ∈ ts) ->
  let w := import_run es in
  (forall i p, (i, p) ∈ taken w -> genuine es p) /\
  (forall i t, exists s n m, 0 <= n /\ chunks_of t (taken_by i w) = pair s <$> seqZ n m) /\
  (one_by_one hs nc cv xSecret ownUID deviceID es = true ->
   (forall t, exists s n, 0 <= n /\ chunks_of t (all_taken w) = prefix_of s n) /\
   (forall p, p ∈ all_taken w -> p_seq p = p_total p - 1 -> Z.of_nat (length (chunks_of (p_transfer p) (all_taken w))) = p_total p)).
Proof.
  intros Hts Hc w. pose proof (no_importer_ok ts es) as H0. pose proof (runs_ok ts Hts es Hc es no_importer (fun _ H => H) H0) as Hw.
  change (foldl import_turn no_importer es) with w in Hw. split_and!.
  - intros i p Hp%taken_by_elem. destruct (io_taken _ _ _ Hw i) as (k & l & Hl). apply (or_genuine _ _ _ _ Hl). apply elem_of_app. by right.
  - intros i t. destruct (io_taken _ _ _ Hw i) as (k & l & Hl). destruct (or_prefix _ _ _ _ Hl t) as (s & n & Hn & E).
    unfold chunks_of in E. rewrite filter_app, map_app in E. apply taken_run in E as (m & Hm & E); [|done]. exists s, m, (n - m). split; [lia|exact E].
  - intros Ho. assert (sequel ts es no_importer false) as Hq.
    { pose proof (ordered_none ts (genuine es)) as Hn. split; [by exists no_imports|done|done]. }
    destruct (runs_sequel ts Hts es Hc es no_importer false (fun _ H => H) H0 Hq Ho) as [u [(l & Hl) _ _]].
    split; [apply Hl|]. intros p Hin Hs. by apply (or_whole _ _ _ _ Hl).
Qed.

(** *** The view *)

Definition is_import (e : direct_event) : Prop := match e with Import _ _ _ _ _ => True | _ => False end.

Lemma import_one_turn source now s m : exists e, is_import e /\ (import_one ownUID source now s m).1.1 = direct_turn nc xSecret ownUID deviceID s.1.1 e.
Proof.
  destruct s as [[g new] refused]. exists (Import m source match field "peer_nickname" m with Some (JStr n) => n | _ => ""%string end now new). split; [done|].
  cbn [import_one direct_turn fst]. destruct (historyRecord _ _ _ _ _) as [[peer message]|]; [|done]. by destruct (import_record _ _ _ _).
Qed.

Lemma import_records_turns source now l s : exists ds, Forall is_import ds /\
  (foldl (import_one ownUID source now) s l).1.1 = foldl (direct_turn nc xSecret ownUID deviceID) s.1.1 ds.
Proof.
  revert s. induction l as [|m l IH]; intros s; [by exists []|]. cbn [foldl]. destruct (import_one_turn source now s m) as (e & He & E1).
  destruct (IH (import_one ownUID source now s m)) as (ds & Hds & E2). exists (e :: ds). split; [by constructor|]. by rewrite E2, E1.
Qed.

Lemma take_chunk_turns chunk now r g r' g' : take_chunk chunk now r g = Some (r', g') ->
  exists ds, Forall is_import ds /\ g' = foldl (direct_turn nc xSecret ownUID deviceID) g ds.
Proof.
  unfold HistoryImport.take_chunk. intros E. assert (Hsame : forall x : import, Some (x, g) = Some (r', g') -> exists ds, Forall is_import ds /\ g' = foldl (direct_turn nc xSecret ownUID deviceID) g ds).
  { intros x [= _ <-]. by exists []. }
  destruct (field "data" chunk) as [[| | |data| |]|]; try by eapply Hsame. destruct (_ || _); [by eapply Hsame|].
  destruct (opened_chunk (own r) chunk data) as [[[h records]|]|]; [|by eapply Hsame|done]. unfold take_records in E.
  destruct (in_order _ _); [|by eapply Hsame].
  destruct (import_records_turns (p_source (position_of h)) now records (g, imported r, skipped r)) as (ds & Hds & Eg).
  destruct (foldl (import_one _ _ _) _ records) as [[g2 new] refused]. injection E as _ <-. by exists ds.
Qed.

Definition talks (es : list import_event) : list direct_event := omap (fun e => match e with Talk e => Some e | _ => None end) es.

Lemma view_talk es : exists ds, view (import_run es) = talk ds /\ delivered ds = delivered (talks es).
Proof.
  induction es as [|e es (ds & E1 & E2)] using rev_ind; [by exists []|]. unfold HistoryImport.import_run, talks in *. rewrite foldl_app, omap_app. cbn [foldl].
  set (w := foldl import_turn _ es) in *. unfold delivered in *. rewrite omap_app, <- E2.
  assert (Hsame : view (import_turn w e) = view w -> talks [e] = [] -> exists ds', view (import_turn w e) = talk ds' /\ delivered ds' = delivered ds ++ delivered (talks [e])).
  { intros Hv Ht. exists ds. rewrite Hv, Ht. split; [done|]. symmetry. apply app_nil_r. }
  destruct e as [own|i chunk now|i|e].
  - by apply Hsame.
  - cbn [HistoryImport.import_turn] in *. destruct (running w !! i) as [[r|]|]; [|by apply Hsame..].
    destruct (take_chunk chunk now r (view w)) as [[r' g]|] eqn:Et; [|by apply Hsame]. apply take_chunk_turns in Et as (ims & His & ->).
    exists (ds ++ ims). unfold DirectView.talk in *. rewrite foldl_app. cbn [view]. rewrite E1. split; [done|]. rewrite omap_app. f_equal. cbn.
    clear -His. induction His as [|x ims Hx His IH]; [done|]. cbn [omap list_omap]. by destruct x.
  - cbn [HistoryImport.import_turn] in *. destruct (running w !! i) as [[r|]|]; by apply Hsame.
  - exists (ds ++ [e]). unfold DirectView.talk in *. rewrite foldl_app, omap_app. cbn [HistoryImport.import_turn view set_field foldl]. by rewrite E1.
Qed.

(** No import makes a message look authenticated, edited or deleted by its sender. *)
Theorem imports_never_authenticate es peer m : m ∈ messages_with peer (view (import_run es)) -> contacted ownUID m -> held (delivered (talks es)) peer m.
Proof.
  destruct (view_talk es) as (ds & -> & <-). intros Hm Hc. pose proof (talk_inv nc xSecret ownUID deviceID ds) as Hg. by apply (di_sound _ _ _ Hg).
Qed.
End runs.

(** ** A copied history is imported whole *)

Section whole.
Variable hs : hashes.
Variable nc : nacl.
Variable cv : curves.
Variable xSecret : list Z.
Variable ownUID deviceID source transfer : string.
Variable d : trusted_device.
Variable total : nat.
Variable now : Z.
#[local] Notation pos i := (Position transfer source (Z.of_nat i) (Z.of_nat total)).
#[local] Notation take_chunk := (take_chunk hs nc cv xSecret ownUID deviceID).

(** A chunk of the transfer that opens to the records [l]. *)
Definition opens_to (i : nat) (data : string) (l : list json) : Prop :=
  exists s h, openDM nc data (d_x25519 d) xSecret = Some (Some s) /\ at_place h (Place source deviceID transfer (Z.of_nat i) (Z.of_nat total)) /\
    decodeHistoryEnvelope hs cv (Some (JStr s)) (Expected source deviceID (Z.of_nat i) (Z.of_nat total) (d_signing d)) = Some (h, l).

(** Chunk [i] is the next one. *)
Definition ready (i : nat) (l : ledger) : Prop := in_order (pos i) (start (pos i) l) = true.
Definition unseen (data : string) (r : import) : Prop := chunkDigest hs data ∉ digests (live r) /\ chunkDigest hs data ∉ page r.

Lemma start_digests p l : digests (start p l) = digests l.
Proof. unfold start. by destruct (_ && _). Qed.

Lemma advance_digests p l : digests (advance p l) = digests l.
Proof. unfold advance. by destruct (_ =? _). Qed.

Lemma start_later i l : start (pos (S i)) l = l.
Proof. unfold start. replace (p_seq (pos (S i)) =? 0) with false by (symmetry; apply Z.eqb_neq; cbn; lia). by rewrite andb_false_r. Qed.

Lemma advance_ready i l : (S i < total)%nat -> in_order (pos i) l = true -> ready (S i) (advance (pos i) l).
Proof.
  intros Hi Hl. destruct (in_order_current _ _ Hl) as (u & Eu & E1 & E2 & E3). unfold in_order in Hl. apply andb_true_iff in Hl as [Hn _].
  cbn [p_transfer p_source p_seq] in *. unfold ready. rewrite start_later. unfold advance. cbn [p_seq p_total]. replace (Z.of_nat i =? Z.of_nat total - 1) with false by (symmetry; apply Z.eqb_neq; lia).
  unfold in_order. cbn [completed current set_field p_transfer p_source p_seq]. rewrite Eu, Hn. cbn [fmap option_fmap option_map u_transfer u_source u_next].
  rewrite E1, E2, E3, !bool_decide_true by done. cbn [andb]. apply Z.eqb_eq. lia.
Qed.

Lemma take_next i data l r g : sender_of (own r) (handed_out source total i data) = Some d -> DeviceTrust.deviceID d = source -> opens_to i data l ->
  unseen data r -> ready i (live r) ->
  exists r' g', take_chunk (handed_out source total i data) now r g = Some (r', g') /\ own r' = own r /\
    (g', imported r', skipped r') = foldl (import_one ownUID source now) (g, imported r, skipped r) l /\
    live r' = advance (pos i) (start (pos i) (live r)) /\ page r' = page r ++ [chunkDigest hs data].
Proof.
  intros Hs Hd (s & h & Ho & (P1 & P2 & P3 & P4) & He) [Hu _] Hr. unfold HistoryImport.take_chunk.
  change (field "data" (handed_out source total i data)) with (Some (JStr data)). cbv iota beta.
  rewrite (bool_decide_false (data = _)); [|intros ->; discriminate Ho]. rewrite bool_decide_false by done. cbn [orb].
  unfold opened_chunk. rewrite Hs, Ho. cbn [fmap option_fmap option_map].
  change (field "seq" (handed_out source total i data)) with (Some (JNum (Z.of_nat i))).
  change (field "total" (handed_out source total i data)) with (Some (JNum (Z.of_nat total))). cbv iota beta. rewrite Hd, He.
  assert (Ep : position_of h = pos i) by (unfold position_of; rewrite P1, P2, P3, P4; done).
  unfold take_records. rewrite Ep. unfold ready in Hr. rewrite Hr. cbn [p_source].
  destruct (foldl _ (g, imported r, skipped r) l) as [[g2 new] refused]. by eexists _, g2.
Qed.

Lemma import_rest chunks : forall flags i lists r g, length flags = length chunks -> (i + length chunks = total)%nat -> (chunks <> [] -> ready i (live r)) ->
  (forall j data, sender_of (own r) (handed_out source total j data) = Some d) -> DeviceTrust.deviceID d = source ->
  Forall (fun data => unseen data r) chunks -> NoDup (map (chunkDigest hs) chunks) -> length lists = length chunks ->
  (forall j data l, chunks !! j = Some data -> lists !! j = Some l -> opens_to (i + j) data l) ->
  exists r' g', import_chunks hs nc cv xSecret ownUID deviceID now (zip (imap (fun j => handed_out source total (i + j)) chunks) flags) r g = Some (r', g') /\
    (g', imported r', skipped r') = foldl (import_one ownUID source now) (g, imported r, skipped r) (concat lists) /\
    (chunks <> [] -> transfer ∈ completed (live r')).
Proof.
  induction chunks as [|data chunks IH]; intros flags i lists r g Hf Hi Hr Hs Hd Hu Hn Hl Ho.
  { destruct lists; [|done]. destruct flags; [|done]. by exists r, g. }
  destruct flags as [|last flags]; [done|]. destruct lists as [|l lists]; [done|]. apply Forall_cons in Hu as [Hu Hus]. cbn [map] in Hn. apply NoDup_cons in Hn as [Hd1 Hn].
  destruct (take_next i data l r g) as (r1 & g1 & E & E1 & E2 & E3 & E4); [done|done| |done|by apply Hr|].
  { specialize (Ho O data l eq_refl eq_refl). by rewrite Nat.add_0_r in Ho. }
  cbn [imap zip_with import_chunks]. rewrite Nat.add_0_r, E. set (r2 := if last then end_page r1 else r1).
  assert (Hsame : own r2 = own r /\ imported r2 = imported r1 /\ skipped r2 = skipped r1 /\ completed (live r2) = completed (live r1) /\
    current (live r2) = current (live r1) /\ started (live r2) = started (live r1)) by (unfold r2; destruct last; split_and!; first [exact E1|done]).
  destruct Hsame as (S1 & S2 & S3 & S4 & S5 & S6). cbn [length] in *.
  destruct (IH flags (S i) lists r2 g1) as (r' & g' & F1 & F2 & F3); [lia|lia|..].
  - intros Hc. assert (length chunks <> 0%nat) by (destruct chunks; cbn; congruence). assert (Hr0 : ready i (live r)) by by apply Hr.
    assert (Hadv : ready (S i) (live r1)) by (rewrite E3; apply advance_ready; [lia|done]).
    unfold ready in *. rewrite start_later in *. unfold in_order in *. by rewrite S4, S5.
  - intros j data'. rewrite S1. apply Hs.
  - done.
  - apply Forall_forall. intros data' Hin. rewrite Forall_forall in Hus. destruct (Hus data' Hin) as [U1 U2].
    assert (N : chunkDigest hs data' <> chunkDigest hs data).
    { intros Ee. apply Hd1. rewrite <- Ee. apply list_elem_of_In, in_map. by apply list_elem_of_In. }
    assert (V1 : chunkDigest hs data' ∉ digests (live r1)) by by rewrite E3, advance_digests, start_digests.
    assert (V2 : chunkDigest hs data' ∉ page r1) by by rewrite E4, not_elem_of_app, list_elem_of_singleton.
    unfold unseen, r2. destruct last; [|done]. split; [by apply not_included|by apply not_elem_of_nil].
  - done.
  - lia.
  - intros j data' l' Hj Hlj. replace (S i + j)%nat with (i + S j)%nat by lia. exact (Ho (S j) data' l' Hj Hlj).
  - exists r', g'. split_and!.
    + rewrite <- F1. f_equal. f_equal. apply imap_ext. intros j x _. cbn; by replace (i + S j)%nat with (S (i + j)) by lia.
    + rewrite F2, S2, S3, E2. cbn [concat]. by rewrite foldl_app.
    + intros _. destruct chunks as [|data' chunks]; [|by apply F3]. cbn in F1. destruct flags; [|done]. injection F1 as <- <-. rewrite S4, E3.
      unfold advance. cbn [p_seq p_total]. replace (Z.of_nat i =? Z.of_nat total - 1) with true by (symmetry; apply Z.eqb_eq; cbn in Hi; lia).
      cbn [completed set_field p_transfer]. apply elem_include. by left.
Qed.
End whole.

Lemma ready_first transfer source total l : known transfer l = false -> ready source transfer total 0 l.
Proof.
  intros Hk. unfold ready, start. cbn [p_transfer p_seq p_source]. rewrite Hk. change (Z.of_nat 0 =? 0) with true. apply orb_false_iff in Hk as [Hc _]. cbn [negb andb].
  unfold in_order. cbn [completed current set_field p_transfer p_source p_seq u_transfer u_source u_next]. rewrite Hc. cbn [negb andb]. by rewrite !bool_decide_true.
Qed.

Lemma sender_found source total own i data : sender_of own (handed_out source total i data) = List.find (fun x => bool_decide (DeviceTrust.deviceID x = source)) own.
Proof.
  unfold sender_of. induction own as [|x own IH]; [done|]. cbn [List.find]. rewrite IH.
  replace (is_text _ _) with (bool_decide (DeviceTrust.deviceID x = source)); [done|]. unfold is_text. apply bool_decide_ext.
  change (field "from_device_id" _) with (Some (JStr source)). split; [by intros ->|by intros [= ->]].
Qed.

(** C18: what another device of the account copies with [copyHistory] is imported whole:
    if its chunks are handed out in order, in pages of whatever length, and this transfer
    and these chunks were not seen before, the records taken in are exactly the newest
    [kept] messages that fit, oldest first, and the transfer is completed. *)
Theorem copied_history_imported hs nc cv nonces rp ss sp rs sk key messages maxChunk source target transfer chunks kept ownUID now d r g flags :
  delivers hs nc cv nonces rp ss sp rs sk key -> SEAL_OVERHEAD + HISTORY_ENVELOPE_RESERVE + 2 <= maxChunk ->
  well_formed (bytes_of source) -> well_formed (bytes_of target) -> well_formed (bytes_of transfer) ->
  Forall (fun m => well_formed (stringify m)) messages ->
  buildHistoryChunks hs nc nonces messages rp ss maxChunk source target transfer sk = Some (chunks, kept) ->
  List.find (fun x => bool_decide (DeviceTrust.deviceID x = source)) (own r) = Some d -> d_x25519 d = sp -> d_signing d = key ->
  known transfer (live r) = false -> Forall (fun data => unseen hs data r) chunks -> NoDup (map (chunkDigest hs) chunks) ->
  chunks <> [] -> length flags = length chunks ->
  exists r' g', import_chunks hs nc cv rs ownUID target now (zip (imap (handed_out source (length chunks)) chunks) flags) r g = Some (r', g') /\
    (g', imported r', skipped r') = foldl (import_one ownUID source now) (g, imported r, skipped r)
      (reverse (take kept (filter (fun m => fits (maxChunk - SEAL_OVERHEAD - HISTORY_ENVELOPE_RESERVE) (stringify m) = true) messages))) /\
    transfer ∈ completed (live r').
Proof.
  intros Hd Hmax W1 W2 W3 Hms Hb Hf <- <- Hk Hu Hn Hc Hl. destruct (built_opens _ _ _ _ _ _ _ _ _ _ _ _ _ _ _ _ _ Hd Hmax W1 W2 W3 Hms Hb) as (lists & Hlen & <- & Hi).
  assert (Hs : DeviceTrust.deviceID d = source) by (apply find_some in Hf as [_ Hf]; by apply bool_decide_eq_true in Hf).
  destruct (import_rest hs nc cv rs ownUID target source transfer d (length chunks) now chunks flags 0 lists r g) as (r' & g' & H1 & H2 & H3); try done.
  - intros _. by apply ready_first.
  - intros j data. by rewrite sender_found.
  - intros j data l Hj Hlj. destruct (Hi j data Hj) as (l' & s & h & Hl' & Ho & Hh & He). assert (l' = l) as -> by congruence. by exists s, h.
  - exists r', g'. split; [exact H1|]. split; [exact H2|]. by apply H3.
Qed.

(** ** Two chunks, and an import that is repeated *)

Module ImportDemo.
Definition hs : hashes := Hashes (fun l => repeat (foldl (fun a b => (a * 31 + b) mod 251) 7 l) 32) (fun _ _ => repeat 8 32) (fun _ => repeat 9 24).
Notation key := HistoryDemo.key.
Definition message (n : Z) (body : string) : json :=
  JObj [("peer", JStr "bob"); ("from", JStr "bob"); ("body", JStr body); ("sent_at", JNum n)]%string.
Definition built : list string := Eval vm_compute in
  match buildHistoryChunks hs HistoryDemo.nc HistoryDemo.nonces [message 3 "three"; message 2 "two"; message 1 "one"] [] [] (SEAL_OVERHEAD + HISTORY_ENVELOPE_RESERVE + 120)
          "desk" "phone" "t1" key with Some r => r.1 | None => [] end.
Definition chunk (i : nat) : json :=
  JObj [("from_device_id", JStr "desk"); ("seq", JNum (Z.of_nat i)); ("total", JNum 2); ("data", JStr (nth i built ""))]%string.
Definition desk : trusted_device := Device "desk" None key [] "" false.
Notation run := (import_run hs HistoryDemo.nc HistoryDemo.cv [] "alice" "phone").
Notation bob w := (map (fun m => field "body" m) (messages_with "bob" (view w))).

(** The second chunk too early, then both, each twice. *)
Definition received : list import_event :=
  [Begin [desk]; Chunk 0 (chunk 1) 1000; Chunk 0 (chunk 0) 1000; Chunk 0 (chunk 0) 1000; Chunk 0 (chunk 1) 1000; Chunk 0 (chunk 1) 1000; Persist 0].

Example both_imported : bob (run received) = [Some (JStr "one"); Some (JStr "two"); Some (JStr "three")]%string.
Proof. vm_compute. reflexivity. Qed.

(** A second import, and all chunks again: nothing more is taken in. *)
Definition twice : list import_event := (received ++ [Begin [desk]; Chunk 1 (chunk 0) 1000; Chunk 1 (chunk 1) 1000; Persist 1])%list.

Definition opened_transfer (i : nat) : option string :=
  match opened_chunk hs HistoryDemo.nc HistoryDemo.cv [] "phone" [desk] (chunk i) (nth i built "") with
  | Some (Some (h, _)) => Some (p_transfer (position_of h))
  | _ => None
  end.

Lemma only_t1 t : comes hs HistoryDemo.nc HistoryDemo.cv [] "phone" twice t -> t ∈ ["t1"]%string.
Proof.
  intros (i & c & now & own & data & h & records & Hc & Hb & Ed & Eo & <-). unfold twice, received in Hb, Hc. cbn [app] in Hb, Hc.
  assert (own = [desk]) as -> by (repeat (apply elem_of_cons in Hb as [Hb|Hb]; [congruence|]); by apply elem_of_nil in Hb).
  assert (c = chunk 0 \/ c = chunk 1) as Hd by (repeat (apply elem_of_cons in Hc as [Hc|Hc]; [first [discriminate|injection Hc; auto]|]); by apply elem_of_nil in Hc).
  clear Hb Hc. apply list_elem_of_singleton.
  assert (Ho : forall k, (k < 2)%nat -> opened_transfer k = Some "t1"%string).
  { intros [|[|k]] Hk; [vm_compute; reflexivity..|lia]. }
  assert (Hk : exists k, (k < 2)%nat /\ c = chunk k) by (destruct Hd as [-> | ->]; eauto with lia).
  destruct Hk as (k & Hk & ->). specialize (Ho k Hk). unfold opened_transfer in Ho.
  assert (nth k built ""%string = data) as E by (change (Some (JStr (nth k built ""%string)) = Some (JStr data)) in Ed; congruence).
  rewrite E, Eo in Ho. by injection Ho.
Qed.

Definition phone_import : import := Imports [desk] no_imports [] 0 0 [].
Definition messages : list json := [message 3 "three"; message 2 "two"; message 1 "one"].
Lemma copy_delivers : delivers hs HistoryDemo.nc HistoryDemo.cv HistoryDemo.nonces [] [] [] [] key key.
Proof.
  split; [split; intros m; by vm_compute|by split| |intros m; by vm_compute].
  intros l. unfold hs. cbn [sha256]. assert (0 <= foldl (fun a b => (a * 31 + b) mod 251) 7 l < 251) as H.
  { induction l as [|b l _] using rev_ind; [cbn; lia|]. rewrite foldl_app. cbn [foldl]. by apply Z.mod_pos_bound. }
  apply forallb_forall. intros x ->%repeat_spec. apply is_byte_spec. lia.
Qed.

Lemma copied_history_imported_witness : exists r' g',
  import_chunks hs HistoryDemo.nc HistoryDemo.cv [] "alice" "phone" 1000 (zip (imap (handed_out "desk" 2) built) [true; true]) phone_import no_conversations = Some (r', g') /\
  imported r' = 3.
Proof.
  destruct (copied_history_imported hs HistoryDemo.nc HistoryDemo.cv HistoryDemo.nonces [] [] [] [] key key messages (SEAL_OVERHEAD + HISTORY_ENVELOPE_RESERVE + 120)
    "desk" "phone" "t1" built 3 "alice" 1000 desk phone_import no_conversations [true; true]) as (r' & g' & H1 & H2 & _).
  - exact copy_delivers.
  - lia.
  - by apply HistoryDemo.ascii_ok.
  - by apply HistoryDemo.ascii_ok.
  - by apply HistoryDemo.ascii_ok.
  - repeat constructor; eexists; by vm_compute.
  - vm_compute. reflexivity.
  - reflexivity.
  - reflexivity.
  - reflexivity.
  - reflexivity.
  - apply (bool_decide_unpack _). vm_compute. reflexivity.
  - apply (bool_decide_unpack _). vm_compute. reflexivity.
  - discriminate.
  - reflexivity.
  - exists r', g'. split; [exact H1|]. apply (f_equal (fun s => s.1.2)) in H2. vm_compute in H2. exact H2.
Defined.

Lemma imported_in_order_witness :
  one_by_one hs HistoryDemo.nc HistoryDemo.cv [] "alice" "phone" twice = true /\
  chunks_of "t1" (all_taken (run twice)) = [("desk", 0); ("desk", 1)]%string /\
  exists s n, chunks_of "t1" (all_taken (run twice)) = prefix_of s n.
Proof.
  split; [vm_compute; reflexivity|]. split; [vm_compute; reflexivity|].
  destruct (imported_in_order hs HistoryDemo.nc HistoryDemo.cv [] "alice" "phone" twice ["t1"%string]
    ltac:(unfold MAX_HISTORY_TRANSFERS; cbn; lia) only_t1) as (_ & _ & H).
  destruct (H ltac:(vm_compute; reflexivity)) as [H1 _]. destruct (H1 "t1"%string) as (s & n & _ & E). exists s, n. exact E.
Defined.

(** A failed write after the records were taken in, or a second import at the same time:
    records of the old protocol without an ID get new ones and are shown again. *)
Theorem repeated_import_duplicates :
  bob (run [Begin [desk]; Chunk 0 (chunk 0) 1000; Chunk 0 (chunk 1) 1000; Begin [desk]; Chunk 1 (chunk 0) 1000; Chunk 1 (chunk 1) 1000; Persist 1]) =
  [Some (JStr "one"); Some (JStr "two"); Some (JStr "two"); Some (JStr "three"); Some (JStr "three")]%string.
Proof. vm_compute. reflexivity. Qed.
End ImportDemo.
